(* ===== verification/_CoqProject ===== *)
-Q . S2P
Prelude.v
Crc32.v
BootTypes.v
MemMap.v
BootInfoCheck.v
BootHeap.v
Kaslr.v
BootCfg.v
BootMenu.v
BlockDev.v
BootFat.v
BootFatRead.v
BootFatDir.v
BootFatLoad.v
Gpt.v
MkImageGpt.v
Kva.v
IntrusiveList.v
Buddy.v
PmmMap.v
EarlyAlloc.v
Pmm.v
PmmClient.v
PmmRange.v
Elf.v
BootPaging.v
Lockdep.v
LockdepRun.v
Inflate.v
Deflate.v
SlabCore.v
Slab.v
SlabInv.v
SlabClient.v
SlabCaches.v
SlabRun.v
SlabPmm.v
