(* ===== verification/Prelude.v ===== *)
(** * bongOS: boot path, memory management, lock validation and compression

    bongOS is a 64-bit operating system for x86.  A boot loader (UEFI or BIOS,
    sharing boot/common) finds the boot partition, reads boot.cfg, shows a menu,
    loads the kernel image, builds its page tables and jumps to it with a BootInfo
    page.  The kernel checks that page, scans the memory map, builds its physical
    and virtual allocators and runs with a lock validator in debug builds.  Host
    tools build the disk image.  This library models the parts of that path whose
    behaviour is decided by the C code itself, and proves what makes them correct.

    ** How the parts meet

    - The image tool ([MkImageGpt]) writes a GPT that the loader ([Gpt], over the
      block device contract of [BlockDev]) reads back; both use [Crc32].  From the
      partition found the loader reads files of a FAT32 volume ([BootFat]).
    - The loader turns the firmware's memory map into a normalized one ([MemMap]),
      allocates below 4 GiB ([BootHeap]), chooses the kernel's slide ([Kaslr]), parses
      and loads the image ([Elf]) and maps it ([BootPaging]).  [BootCfg] and [BootMenu]
      choose what to boot.
    - The kernel accepts the BootInfo page only after [BootInfoCheck]; what the loader
      produces passes that check ([loader_map_accepted], [bootKaslrPickSlide_accepted]).
    - The kernel scans the map ([PmmMap]), takes its first pages from a bump allocator
      ([EarlyAlloc]), and runs the physical memory manager ([Pmm]) over the buddy core
      ([Buddy]); [PmmClient] states what the manager promises its clients, [PmmRange]
      how memory enters it.  Kernel address space is reserved by [Kva].
    - kmalloc and the object caches ([Slab], over the layouts and free lists of
      [SlabCore]) take their pages through an interface, the classes [PageAllocator] and
      [PageAllocatorLaws]; [SlabInv], [SlabClient], [SlabCaches] and [SlabRun] prove
      what they promise against that interface, and [SlabPmm] discharges it with [Pmm]
      and composes the two.
    - Spinlocks call the validator's hooks ([LockdepRun]), which drive its core ([Lockdep]).
    - The compression library reads ([Inflate]) what it writes ([Deflate]).

    ** Files, and the code they model

    - [Prelude]: machine words, byte buffers, arrays, bit counting, tactics and hints.
    - [Crc32]: the three CRC-32 routines (boot/common/bootcrc32.c, libs/compress/crc32.c,
      tools/mkimage/crc32.c).
    - [BootTypes]: BootInfo records, status codes, alignment and copy helpers
      (boot/common/include/bootinfo.h, boot-status.h, bootmem.c, kernel uapi/status.h).
    - [MemMap]: boot/common/memmap.c.  [BootInfoCheck]: kernel/core/bootinfo.c.
    - [BootHeap]: boot/common/bootheap.c.  [Kaslr]: boot/common/bootkaslr.c.
    - [BootCfg]: boot/common/bootcfg.c.  [BootMenu]: bootmenu.c and bootkey.c.
    - [BlockDev], [Gpt]: boot/common/include/bootblk.h, boot/common/bootgpt.c.
      [MkImageGpt]: tools/mkimage/gpt.c.
    - [BootFat]: boot/common/bootfat.c, with the soundness of a mounted volume.
      [BootFatRead]: reading cluster chains; [BootFatDir]: directories and long names;
      [BootFatLoad]: the three calls together, and a sample volume.
    - [Elf]: boot/common/elf.c.  [BootPaging]: boot/common/paging.c.
    - [IntrusiveList]: kernel/include/list.h.  [Kva]: kernel/mm/kva.c.
    - [Buddy]: kernel/mm/buddy.c.  [PmmMap]: kernel/mm/pmm-map.c.  [EarlyAlloc]:
      kernel/mm/early.c.  [Pmm], [PmmClient], [PmmRange]: kernel/mm/pmm.c.
    - [SlabCore]: kernel/mm/slab-core.c and slab-debug.c.  [Slab]: kernel/mm/slab.c.
      [SlabInv]: the invariant and the internal operations; [SlabClient]: objects;
      [SlabCaches]: caches, kmalloc's classes, slabInit; [SlabRun]: runs of clients;
      [SlabPmm]: the allocator over the manager of [Pmm].
    - [Lockdep]: kernel/sync/lockdep-core.c.  [LockdepRun]: kernel/sync/lockdep.c.
    - [Inflate]: libs/compress/inflate.c.  [Deflate]: libs/compress/deflate.c and zlib.c.

    Every definition that models code says so in a comment that names the file, the
    lines and the symbol.  State is passed explicitly; a C struct is a [Record], an
    enumeration an [Inductive]; a [w]-bit integer is a [Z] wrapped by [u8] to [u64] where
    the code can leave the range; an array is a list and an access outside it makes the
    operation fail ([None] or [Fault]), so a theorem that an operation returns says
    that it stays in bounds; physical memory is a function from addresses.

    ** What the theorems show

    - Round trips: written GPTs are read back, also from the backup; freeing what was
      allocated restores the free blocks; key sequences are decoded; compressed data is
      decompressed to what it was; a file stored under a long name is found by it; a slab allocator whose objects were freed gives
      every frame back to the physical memory manager.
    - Invariants over every run of operations: the physical allocator, the slab
      allocator, the address space allocator, the loader heap, the boot menu, the lock
      validator.
    - Exactness: each operation is characterized on every branch (memory map, map
      scan, BootInfo checks, early allocation, validation of a free, the range that a free of
      address space returns, page mapping with the size of every page, image loading, the
      verdict on an acquire, the dependency query, the answer of kmalloc to any size
      and of kfree to any pointer, the layout of a slab).
    - Refinement and equivalence: pointer lists refine sequences; the CRC routines
      agree; the streaming GPT scan finds what a reference finds; a file read in runs of clusters is
      the file read cluster by cluster; the loader's map passes the
      kernel's check.
    - Safety: no page and no object of a client is touched by another request; a BootInfo check
      reads only the memory it was given; no segment is both writable and executable;
      classes of locks that were acquired without a report have a common order;
      decompressing arbitrary bytes and loading a file from an arbitrary disk stay inside
      their buffers and end.
    - Bounds, termination, liveness and error behaviour where the code promises them.

    ** Fuel

    Loops are structural where they can be: over the elements left, or over a [nat]
    computed from the bound the code tests.  Where a loop has a fuel, it is the number of
    steps the data structure admits (the length of the text plus one for the lines of
    boot.cfg, the eleven orders of the buddy core, the pages of a range for the
    mapping loop, 64 bits of a word and 256 classes for the search of the validator, the
    bits left in the input for the blocks and symbols of a compressed stream, the
    bytes left for the compressor, the empty slabs of a cache and the objects a
    magazine wants for the loops that return and refill them, the clusters of a volume,
    which the code itself counts, for its chains, and 16 components of a path),
    running out is an error value, and the theorems show that it does not happen.

    ** Assumptions

    The block device behind [Gpt] and [BootFat] is a parameter with the contract of bootblk.h (for
    [BootFat] with sectors of at least 512 bytes and a multiple of 32), and the stack capture and section bounds of the lock validator are parameters.  The direct map
    and the array of caches lie where [MachineLaws] says; constructors and destructors
    of objects are parameters that write only to their object.  slab.c releases its
    lock around calls of the page allocator; other CPUs do nothing in these gaps here.
    A slab's pages carry their owner's mark in [st_owner], apart from the page records of
    [Pmm].  Everything else is defined from the source.

    ** Not modelled

    Code whose behaviour lies in firmware or hardware: the UEFI and BIOS loaders and
    their handoff, interrupts, traps, CPU, timer and device setup, framebuffer and serial
    output.  Logging, panics' text, formatting and the sanitizer runtime.  The atomics of
    the ticket locks: operations under a lock are single steps.  [pmmInit], which builds the page
    array from the scan through the early page tables.  Not modelled yet: the kernel's
    page tables and vmalloc, elf-reloc.c and boothandoff.c, the ACPI tables, time arithmetic, the symbol table, crypto, the
    graphics library and the host tools other than the GPT writer. *)

From stdpp Require Export base tactics list numbers gmap sorting.
From Stdlib Require Export ZArith Lia.

Open Scope Z_scope.

(** ** Machine integers

    A [w]-bit unsigned C integer is a [Z] in [[0, 2^w)]; every operation of the
    source that can leave that range is followed by an explicit wrap. *)

Definition u8 (x : Z) : Z := x mod 2 ^ 8.
Definition u16 (x : Z) : Z := x mod 2 ^ 16.
Definition u32 (x : Z) : Z := x mod 2 ^ 32.
Definition u64 (x : Z) : Z := x mod 2 ^ 64.

Definition is_u8 (x : Z) : Prop := 0 <= x < 2 ^ 8.
Definition is_u16 (x : Z) : Prop := 0 <= x < 2 ^ 16.
Definition is_u32 (x : Z) : Prop := 0 <= x < 2 ^ 32.
Definition is_u64 (x : Z) : Prop := 0 <= x < 2 ^ 64.

#[global] Instance is_u8_dec x : Decision (is_u8 x).
Proof. unfold is_u8. apply _. Defined.
#[global] Instance is_u16_dec x : Decision (is_u16 x).
Proof. unfold is_u16. apply _. Defined.
#[global] Instance is_u32_dec x : Decision (is_u32 x).
Proof. unfold is_u32. apply _. Defined.
#[global] Instance is_u64_dec x : Decision (is_u64 x).
Proof. unfold is_u64. apply _. Defined.

(** The [~] operator on a 64-bit and on a 32-bit operand. *)
Definition not64 (x : Z) : Z := 2 ^ 64 - 1 - x.
Definition not32 (x : Z) : Z := 2 ^ 32 - 1 - x.

Declare Scope bong_scope.
Delimit Scope bong_scope with bong.
Notation "x +! y" := (u64 (x + y)) (at level 50, left associativity) : bong_scope.
Notation "x -! y" := (u64 (x - y)) (at level 50, left associativity) : bong_scope.
Notation "x *! y" := (u64 (x * y)) (at level 40, left associativity) : bong_scope.
Notation "x <<! y" := (u64 (Z.shiftl x y)) (at level 60, no associativity) : bong_scope.
Notation "x >>! y" := (Z.shiftr x y) (at level 60, no associativity) : bong_scope.
Notation "x .& y" := (Z.land x y) (at level 61, left associativity) : bong_scope.
Notation "x .| y" := (Z.lor x y) (at level 62, left associativity) : bong_scope.
Notation "x .^ y" := (Z.lxor x y) (at level 62, left associativity) : bong_scope.
Open Scope bong_scope.

(** ** Automation *)

Create HintDb bong discriminated.
#[export] Hint Constants Opaque : bong.

(** Boolean comparisons of [Z] and [nat] in the context become propositions. *)
Ltac bprop :=
  repeat match goal with
  | H : andb _ _ = true |- _ => apply andb_prop in H; destruct H
  | H : orb _ _ = false |- _ => apply orb_false_elim in H; destruct H
  | H : negb _ = true |- _ => apply negb_true_iff in H
  | H : negb _ = false |- _ => apply negb_false_iff in H
  | H : (_ =? _) = true |- _ => apply Z.eqb_eq in H
  | H : (_ =? _) = false |- _ => apply Z.eqb_neq in H
  | H : (_ <? _) = true |- _ => apply Z.ltb_lt in H
  | H : (_ <? _) = false |- _ => apply Z.ltb_ge in H
  | H : (_ <=? _) = true |- _ => apply Z.leb_le in H
  | H : (_ <=? _) = false |- _ => apply Z.leb_gt in H
  | H : (_ >? _) = true |- _ => rewrite Z.gtb_ltb in H
  | H : (_ >? _) = false |- _ => rewrite Z.gtb_ltb in H
  | H : (_ >=? _) = true |- _ => rewrite Z.geb_leb in H
  | H : (_ >=? _) = false |- _ => rewrite Z.geb_leb in H
  | H : (_ =? _)%nat = true |- _ => apply Nat.eqb_eq in H
  | H : (_ =? _)%nat = false |- _ => apply Nat.eqb_neq in H
  | H : (_ <? _)%nat = true |- _ => apply Nat.ltb_lt in H
  | H : (_ <? _)%nat = false |- _ => apply Nat.ltb_ge in H
  | H : (_ <=? _)%nat = true |- _ => apply Nat.leb_le in H
  | H : (_ <=? _)%nat = false |- _ => apply Nat.leb_gt in H
  end.

(** Splits on the first boolean test of the goal or of a hypothesis. *)
Ltac bcase :=
  match goal with
  | |- context [if ?b then _ else _] =>
      lazymatch b with
      | context [if _ then _ else _] => fail
      | _ => let E := fresh "E" in destruct b eqn:E
      end
  | H : context [if ?b then _ else _] |- _ =>
      lazymatch b with
      | context [if _ then _ else _] => fail
      | _ => let E := fresh "E" in destruct b eqn:E
      end
  end.
Ltac bcases := repeat (bcase; bprop; simplify_eq/=).

(** [lia] with [/] and [mod] turned into their defining equations. *)
Ltac dlia := Z.to_euclidean_division_equations; lia.

(** Bitwise equalities: compares the two sides bit by bit. *)
Create Rewrite HintDb zbits.
#[export] Hint Rewrite Z.land_spec Z.lor_spec Z.lxor_spec Z.ldiff_spec : zbits.
#[export] Hint Rewrite Z.testbit_ones_nonneg Z.shiftr_spec Z.shiftl_spec
  Z.testbit_mod_pow2 Z.bits_0 using lia : zbits.
Ltac zbits_split :=
  repeat match goal with
  | |- context [?a <? ?b] => destruct (Z.ltb_spec a b); simpl
  end.
Ltac zbits :=
  apply Z.bits_inj'; intros ? ?; autorewrite with zbits; zbits_split;
  rewrite ?andb_true_r, ?andb_false_r, ?orb_false_r, ?xorb_false_r; simpl;
  try reflexivity; try lia.

Ltac words := unfold is_u8, is_u16, is_u32, is_u64, u8, u16, u32, u64 in *.

(** ** Words *)

Lemma u64_small x : is_u64 x -> u64 x = x.
Proof. apply Z.mod_small. Qed.
Lemma u32_small x : is_u32 x -> u32 x = x.
Proof. apply Z.mod_small. Qed.
Lemma u16_small x : is_u16 x -> u16 x = x.
Proof. apply Z.mod_small. Qed.
Lemma u8_small x : is_u8 x -> u8 x = x.
Proof. apply Z.mod_small. Qed.

Lemma u64_range x : is_u64 (u64 x).
Proof. unfold is_u64, u64. apply Z.mod_pos_bound. lia. Qed.
Lemma u32_range x : is_u32 (u32 x).
Proof. unfold is_u32, u32. apply Z.mod_pos_bound. lia. Qed.
Lemma u16_range x : is_u16 (u16 x).
Proof. unfold is_u16, u16. apply Z.mod_pos_bound. lia. Qed.
Lemma u8_range x : is_u8 (u8 x).
Proof. unfold is_u8, u8. apply Z.mod_pos_bound. lia. Qed.

#[export] Hint Resolve u64_range u32_range u16_range u8_range : bong.
Create Rewrite HintDb words.
#[export] Hint Rewrite u64_small u32_small u16_small u8_small using (words; lia) : words.

(** The overflow test [a + b < a] of unsigned arithmetic is exact. *)
Lemma u64_add_overflow a b :
  is_u64 a -> is_u64 b -> (u64 (a + b) <? a) = (2 ^ 64 <=? a + b).
Proof.
  intros Ha Hb. words.
  destruct (Z.leb_spec (2 ^ 64) (a + b)).
  - apply Z.ltb_lt. rewrite <- (Z_mod_plus_full (a + b) (-1) (2 ^ 64)).
    rewrite Z.mod_small; lia.
  - apply Z.ltb_ge. rewrite Z.mod_small; lia.
Qed.

Lemma u64_sub_small a b : is_u64 a -> 0 <= b <= a -> u64 (a - b) = a - b.
Proof. intros. apply u64_small. words. lia. Qed.

Lemma land_low x k : 0 <= k -> Z.land x (2 ^ k - 1) = x mod 2 ^ k.
Proof. intros. rewrite <- Z.land_ones by lia. f_equal. rewrite Z.ones_equiv. lia. Qed.

(** [x & ~(2^k - 1)] clears the low [k] bits. *)
Lemma ldiff_low x k : 0 <= k -> Z.ldiff x (Z.ones k) = x - x mod 2 ^ k.
Proof.
  intros. rewrite Z.ldiff_ones_r, Z.shiftl_mul_pow2, Z.shiftr_div_pow2 by lia.
  pose proof (Z_div_mod_eq_full x (2 ^ k)). lia.
Qed.

Lemma lnot_mask w k :
  0 <= k <= w -> 2 ^ w - 1 - (2 ^ k - 1) = Z.ldiff (Z.ones w) (Z.ones k).
Proof.
  intros. rewrite ldiff_low by lia. rewrite !Z.ones_equiv.
  assert (Hd : Z.pred (2 ^ w) mod 2 ^ k = 2 ^ k - 1); [|lia].
  replace (Z.pred (2 ^ w)) with (2 ^ k - 1 + (2 ^ (w - k) - 1) * 2 ^ k).
  - rewrite Z_mod_plus_full. apply Z.mod_small.
    pose proof (Z.pow_pos_nonneg 2 k ltac:(lia) ltac:(lia)). lia.
  - rewrite Z.mul_sub_distr_r, <- Z.pow_add_r by lia.
    replace (w - k + k) with w by lia. lia.
Qed.

Lemma land_high w x k :
  0 <= x < 2 ^ w -> 0 <= k <= w ->
  Z.land x (2 ^ w - 1 - (2 ^ k - 1)) = x - x mod 2 ^ k.
Proof.
  intros Hx Hk. rewrite lnot_mask, <- ldiff_low by lia.
  rewrite <- (Z.mod_small x (2 ^ w)) at 1 2 by lia.
  rewrite <- Z.land_ones by lia. zbits.
Qed.

Lemma land_high64 x k :
  is_u64 x -> 0 <= k <= 64 -> Z.land x (not64 (2 ^ k - 1)) = x - x mod 2 ^ k.
Proof. intros. unfold not64. apply land_high; [assumption|lia]. Qed.

Lemma lor_range w a b :
  0 <= w -> 0 <= a < 2 ^ w -> 0 <= b < 2 ^ w -> 0 <= Z.lor a b < 2 ^ w.
Proof.
  intros Hw Ha Hb. split; [apply Z.lor_nonneg; lia|].
  replace (Z.lor a b) with (Z.lor a b mod 2 ^ w); [apply Z.mod_pos_bound; lia|].
  rewrite <- (Z.mod_small a (2 ^ w)) at 2 by lia.
  rewrite <- (Z.mod_small b (2 ^ w)) at 2 by lia. zbits.
Qed.

Lemma lxor_range w a b :
  0 <= w -> 0 <= a < 2 ^ w -> 0 <= b < 2 ^ w -> 0 <= Z.lxor a b < 2 ^ w.
Proof.
  intros Hw Ha Hb. split; [apply Z.lxor_nonneg; lia|].
  replace (Z.lxor a b) with (Z.lxor a b mod 2 ^ w); [apply Z.mod_pos_bound; lia|].
  rewrite <- (Z.mod_small a (2 ^ w)) at 2 by lia.
  rewrite <- (Z.mod_small b (2 ^ w)) at 2 by lia. zbits.
Qed.

Lemma land_range w a b : 0 <= w -> 0 <= a -> 0 <= b < 2 ^ w -> 0 <= Z.land a b < 2 ^ w.
Proof.
  intros Hw Ha Hb. split; [apply Z.land_nonneg; lia|].
  replace (Z.land a b) with (Z.land a b mod 2 ^ w); [apply Z.mod_pos_bound; lia|].
  rewrite <- (Z.mod_small b (2 ^ w)) at 2 by lia. zbits.
Qed.

Lemma shiftr_range w x k : 0 <= k -> 0 <= x < 2 ^ w -> 0 <= Z.shiftr x k < 2 ^ w.
Proof.
  intros Hk Hx. rewrite Z.shiftr_div_pow2 by lia.
  pose proof (Z.pow_pos_nonneg 2 k ltac:(lia) ltac:(lia)).
  split; [apply Z.div_pos; lia|].
  apply Z.div_lt_upper_bound; nia.
Qed.

Lemma lor_u64 a b : is_u64 a -> is_u64 b -> is_u64 (Z.lor a b).
Proof. intros. by apply (lor_range 64). Qed.
Lemma lxor_u32 a b : is_u32 a -> is_u32 b -> is_u32 (Z.lxor a b).
Proof. intros. by apply (lxor_range 32). Qed.
Lemma lxor_u64 a b : is_u64 a -> is_u64 b -> is_u64 (Z.lxor a b).
Proof. intros. by apply (lxor_range 64). Qed.
Lemma shiftr_u32 a k : 0 <= k -> is_u32 a -> is_u32 (Z.shiftr a k).
Proof. intros. by apply (shiftr_range 32). Qed.
Lemma shiftr_u64 a k : 0 <= k -> is_u64 a -> is_u64 (Z.shiftr a k).
Proof. intros. by apply (shiftr_range 64). Qed.
#[export] Hint Resolve lor_u64 lxor_u32 lxor_u64 : bong.

(** [x + y] and [x | y] agree when [y] fills bits [x] leaves clear. *)
Lemma add_lor_disjoint x y k :
  0 <= k -> x mod 2 ^ k = 0 -> 0 <= y < 2 ^ k -> Z.lor x y = x + y.
Proof.
  intros Hk Hx Hy. symmetry. rewrite Z.add_nocarry_lxor.
  - rewrite <- (Z.mod_small y (2 ^ k)) by lia.
    pose proof (Z_div_mod_eq_full x (2 ^ k)) as Hd. rewrite Hx, Z.add_0_r in Hd.
    rewrite Hd, Z.mul_comm, <- Z.shiftl_mul_pow2 by lia. apply Z.bits_inj'; intros i Hi.
    autorewrite with zbits.
    destruct (Z.ltb_spec i k); simpl.
    + by rewrite (Z.testbit_neg_r _ (i - k)) by lia.
    + by rewrite xorb_false_r, orb_false_r.
  - rewrite <- (Z.mod_small y (2 ^ k)) by lia.
    pose proof (Z_div_mod_eq_full x (2 ^ k)) as Hd. rewrite Hx, Z.add_0_r in Hd.
    rewrite Hd, Z.mul_comm, <- Z.shiftl_mul_pow2 by lia. apply Z.bits_inj'; intros i Hi.
    autorewrite with zbits.
    destruct (Z.ltb_spec i k); simpl; [by rewrite (Z.testbit_neg_r _ (i - k)) by lia|].
    apply andb_false_r.
Qed.

Lemma fold_left_cons {A B} (f : A -> B -> A) b l a :
  fold_left f (b :: l) a = fold_left f l (f a b).
Proof. reflexivity. Qed.

Lemma elem_of_snoc {A} (l : list A) x y : x ∈ l ++ [y] <-> x ∈ l \/ x = y.
Proof. by rewrite elem_of_app, list_elem_of_singleton. Qed.

Lemma list_snoc_cases {A} (l : list A) : l = [] \/ exists k x, l = k ++ [x].
Proof. destruct l as [|y l]; [auto|]. right. destruct (exists_last (l := y :: l)) as (k & x & ->); eauto. Qed.

(** ** Byte buffers

    A C buffer is the list of its bytes. [peek buf off n] is the [n] bytes at
    offset [off], or [None] when the read would leave the buffer: a model that
    returns [Some] on every input performs no out-of-bounds access. *)

Definition is_bytes (l : list Z) : Prop := Forall is_u8 l.

Definition zlen {A} (l : list A) : Z := Z.of_nat (length l).

Definition peek (buf : list Z) (off n : Z) : option (list Z) :=
  if (0 <=? off) && (0 <=? n) && (off + n <=? zlen buf)
  then Some (take (Z.to_nat n) (drop (Z.to_nat off) buf))
  else None.

Fixpoint le_val (l : list Z) : Z :=
  match l with
  | [] => 0
  | b :: r => b + 256 * le_val r
  end.

Fixpoint le_bytes (n : nat) (v : Z) : list Z :=
  match n with
  | O => []
  | S n => v mod 256 :: le_bytes n (v / 256)
  end.

(** The [n]-byte little-endian integer at offset [off]. *)
Definition peek_le (buf : list Z) (off n : Z) : option Z := le_val <$> peek buf off n.

Lemma length_le_bytes n v : length (le_bytes n v) = n.
Proof. revert v; induction n as [|n IH]; intros v; simpl; [done|by rewrite IH]. Qed.

Lemma le_bytes_ok n v : is_bytes (le_bytes n v).
Proof.
  revert v; induction n as [|n IH]; intros v; simpl; constructor; [|apply IH].
  words. apply Z.mod_pos_bound. lia.
Qed.

Lemma le_val_bytes n v : 0 <= v < 256 ^ Z.of_nat n -> le_val (le_bytes n v) = v.
Proof.
  revert v; induction n as [|n IH]; intros v Hv; simpl.
  - change (256 ^ Z.of_nat 0) with 1 in Hv. lia.
  - rewrite IH.
    + pose proof (Z_div_mod_eq_full v 256). lia.
    + rewrite Nat2Z.inj_succ, Z.pow_succ_r in Hv by lia.
      split; [apply Z.div_pos; lia|]. apply Z.div_lt_upper_bound; lia.
Qed.

Lemma le_val_range l : is_bytes l -> 0 <= le_val l < 256 ^ zlen l.
Proof.
  unfold zlen. induction 1 as [|b r Hb _ IH]; simpl length; [simpl; lia|].
  rewrite Nat2Z.inj_succ, Z.pow_succ_r by lia. simpl. words. lia.
Qed.

Lemma zlen_nonneg {A} (l : list A) : 0 <= zlen l.
Proof. unfold zlen. lia. Qed.
Lemma zlen_app {A} (l k : list A) : zlen (l ++ k) = zlen l + zlen k.
Proof. unfold zlen. rewrite length_app. lia. Qed.
Lemma zlen_cons {A} x (l : list A) : zlen (x :: l) = 1 + zlen l.
Proof. unfold zlen. simpl length. lia. Qed.
Lemma zlen_le_bytes n v : zlen (le_bytes n v) = Z.of_nat n.
Proof. unfold zlen. by rewrite length_le_bytes. Qed.
Lemma zlen_replicate {A} n (x : A) : zlen (replicate n x) = Z.of_nat n.
Proof. unfold zlen. by rewrite length_replicate. Qed.
Lemma zlen_take {A} (l : list A) n : 0 <= n <= zlen l -> zlen (take (Z.to_nat n) l) = n.
Proof. unfold zlen. intros H. rewrite length_take. lia. Qed.
#[export] Hint Resolve zlen_nonneg length_le_bytes le_bytes_ok : bong.

(** [zl] evaluates the length of a buffer written as a concatenation of fields. *)
Create Rewrite HintDb zlens.
#[export] Hint Rewrite @zlen_app @zlen_cons zlen_le_bytes @zlen_replicate : zlens.
Ltac zl := autorewrite with zlens; rewrite ?Nat2Z.inj_succ; simpl Z.of_nat.

Lemma peek_Some buf off n l :
  peek buf off n = Some l ->
  0 <= off /\ 0 <= n /\ off + n <= zlen buf /\ zlen l = n /\
  l = take (Z.to_nat n) (drop (Z.to_nat off) buf).
Proof.
  unfold peek. destruct (_ && _) eqn:E; [|done]. intros [= <-]. bprop.
  split_and!; [lia..| |done]. unfold zlen in *. rewrite length_take, length_drop. lia.
Qed.

Lemma peek_is_Some buf off n :
  0 <= off -> 0 <= n -> off + n <= zlen buf -> is_Some (peek buf off n).
Proof.
  intros. unfold peek.
  rewrite (proj2 (Z.leb_le 0 off)), (proj2 (Z.leb_le 0 n)), (proj2 (Z.leb_le _ (zlen buf))) by lia.
  eauto.
Qed.

Lemma is_bytes_sub n m l : is_bytes l -> is_bytes (take n (drop m l)).
Proof. intros. by apply Forall_take, Forall_drop. Qed.

Lemma peek_bytes buf off n l : is_bytes buf -> peek buf off n = Some l -> is_bytes l.
Proof. intros Hb H. apply peek_Some in H as (_&_&_&_&->). by apply is_bytes_sub. Qed.

Lemma peek_le_range buf off n v :
  is_bytes buf -> peek_le buf off n = Some v -> 0 <= v < 256 ^ n.
Proof.
  unfold peek_le. intros Hb H.
  destruct (peek buf off n) as [l|] eqn:E; simplify_eq/=.
  pose proof (peek_Some _ _ _ _ E) as (_&_&_&Hl&_).
  rewrite <- Hl. apply le_val_range. by eapply peek_bytes.
Qed.

(** ** Word memories *)

Definition write_word (a v : Z) (mem : Z -> Z) : Z -> Z := fun x => if x =? a then v else mem x.

(** [for (i = 0; i < n; i++) p[i] = v], from index [i] on. *)
Fixpoint fill_words (n : nat) (i p v : Z) (mem : Z -> Z) : Z -> Z :=
  match n with
  | O => mem
  | S n => fill_words n (i + 1) p v (write_word (p + 8 * i) v mem)
  end.

Lemma fill_words_in n : forall i p v mem j,
  i <= j < i + Z.of_nat n -> fill_words n i p v mem (p + 8 * j) = v.
Proof.
  induction n as [|n IH]; intros i p v mem j Hj; [lia|]. simpl.
  destruct (decide (i + 1 <= j)) as [|Hij]; [apply IH; lia|].
  assert (j = i) as -> by lia.
  assert (Hout : forall n i' mem, i < i' -> fill_words n i' p v mem (p + 8 * i) = mem (p + 8 * i)).
  { clear. induction n as [|n IH]; intros i' mem Hi; [reflexivity|]. simpl. rewrite IH by lia.
    unfold write_word. destruct (Z.eqb_spec (p + 8 * i) (p + 8 * i')); [lia|reflexivity]. }
  rewrite Hout by lia. unfold write_word. rewrite Z.eqb_refl. reflexivity.
Qed.

Lemma fill_words_out n : forall i p v mem x,
  (forall j, i <= j < i + Z.of_nat n -> x <> p + 8 * j) -> fill_words n i p v mem x = mem x.
Proof.
  induction n as [|n IH]; intros i p v mem x Hx; [reflexivity|]. simpl. rewrite IH.
  - unfold write_word. destruct (Z.eqb_spec x (p + 8 * i)) as [->|]; [|reflexivity].
    exfalso. apply (Hx i); lia.
  - intros j Hj. apply Hx. lia.
Qed.

Lemma shl1_u64 k : 0 <= k < 64 -> 1 <<! k = 2 ^ k.
Proof.
  intros Hk. rewrite Z.shiftl_1_l. apply u64_small. words.
  pose proof (Z.pow_lt_mono_r 2 k 64). pose proof (Z.pow_nonneg 2 k). lia.
Qed.

(** The [~] operator, bit by bit. *)
Lemma not64_spec m n : is_u64 m -> 0 <= n -> Z.testbit (not64 m) n = (n <? 64) && negb (Z.testbit m n).
Proof.
  intros Hm Hn. replace (not64 m) with (Z.land (Z.lnot m) (Z.ones 64)).
  - rewrite Z.land_spec, Z.lnot_spec, Z.testbit_ones_nonneg by lia. apply andb_comm.
  - rewrite Z.land_ones by lia. unfold Z.lnot, not64. symmetry. apply Z.mod_unique with (-1); words; lia.
Qed.

(** ** Fixed-size C arrays

    An array is the list of its elements; [aget] and [aset] are [None] out of its
    bounds, so an operation that returns [Some] stays inside its arrays. *)

Definition aget {A} (l : list A) (i : Z) : option A := if i <? 0 then None else l !! Z.to_nat i.
Definition aset {A} (l : list A) (i : Z) (v : A) : option (list A) :=
  if (0 <=? i) && (i <? zlen l) then Some (<[Z.to_nat i := v]> l) else None.

Lemma aget_Some {A} (l : list A) i : 0 <= i < zlen l -> exists v, aget l i = Some v /\ l !! Z.to_nat i = Some v.
Proof.
  intros Hi. unfold aget, zlen in *. destruct (Z.ltb_spec i 0); [lia|].
  destruct (lookup_lt_is_Some_2 l (Z.to_nat i)) as [v Hv]; [lia|]. eauto.
Qed.

Lemma aget_lookup {A} (l : list A) i v : aget l i = Some v <-> 0 <= i /\ l !! Z.to_nat i = Some v.
Proof. unfold aget. destruct (Z.ltb_spec i 0); split; [done|lia|auto|by intros []]. Qed.

Lemma aget_bound {A} (l : list A) i v : aget l i = Some v -> 0 <= i < zlen l.
Proof. intros [H1 H2%lookup_lt_Some]%aget_lookup. unfold zlen. lia. Qed.

Lemma aset_Some {A} (l : list A) i v : 0 <= i < zlen l -> aset l i v = Some (<[Z.to_nat i := v]> l).
Proof. intros Hi. unfold aset. rewrite (proj2 (Z.leb_le 0 i)), (proj2 (Z.ltb_lt i _)) by lia. done. Qed.

Lemma aget_insert {A} (l : list A) i j v :
  0 <= i < zlen l -> aget (<[Z.to_nat i := v]> l) j = if j =? i then Some v else aget l j.
Proof.
  intros Hi. unfold aget, zlen in *. destruct (Z.eqb_spec j i) as [->|]; [|destruct (Z.ltb_spec j 0); [done|]].
  - destruct (Z.ltb_spec i 0); [lia|]. rewrite list_lookup_insert_eq by lia. done.
  - rewrite list_lookup_insert_ne by lia. done.
Qed.

Lemma zlen_insert {A} (l : list A) i v : zlen (<[i := v]> l) = zlen l.
Proof. unfold zlen. by rewrite length_insert. Qed.

(** ** Counting trailing zeros *)

(** [__builtin_ctzll(x)], for [x <> 0]. *)
Fixpoint pos_ctz (p : positive) : Z := match p with xO p => 1 + pos_ctz p | _ => 0 end.
Definition ctz (x : Z) : Z := match x with Zpos p => pos_ctz p | _ => 0 end.

Lemma pos_ctz_nonneg p : 0 <= pos_ctz p.
Proof. induction p; simpl; lia. Qed.

Lemma pos_ctz_set p : Z.testbit (Zpos p) (pos_ctz p) = true.
Proof.
  induction p as [p IH|p IH|]; [reflexivity| |reflexivity]. simpl pos_ctz.
  change (Zpos (xO p)) with (2 * Zpos p). pose proof (pos_ctz_nonneg p).
  replace (1 + pos_ctz p) with (Z.succ (pos_ctz p)) by lia.
  rewrite Z.testbit_even_succ by lia. exact IH.
Qed.

(** [x & (x - 1)] clears the lowest set bit. *)
Lemma pos_clear_low p n :
  0 <= n -> Z.testbit (Z.land (Zpos p) (Zpos p - 1)) n = Z.testbit (Zpos p) n && negb (n =? pos_ctz p).
Proof.
  revert n. induction p as [p IH|p IH|]; intros n Hn; rewrite Z.land_spec.
  - change (Zpos (xI p)) with (2 * Zpos p + 1). replace (2 * Zpos p + 1 - 1) with (2 * Zpos p) by lia. simpl pos_ctz.
    destruct (Z.eq_dec n 0) as [->|].
    + rewrite Z.testbit_even_0, andb_false_r, Z.testbit_odd_0. reflexivity.
    + replace n with (Z.succ (n - 1)) by lia. rewrite Z.testbit_odd_succ, Z.testbit_even_succ by lia.
      rewrite (proj2 (Z.eqb_neq _ 0)) by lia. simpl. rewrite andb_diag, andb_true_r. reflexivity.
  - change (Zpos (xO p)) with (2 * Zpos p). replace (2 * Zpos p - 1) with (2 * (Zpos p - 1) + 1) by lia. simpl pos_ctz.
    destruct (Z.eq_dec n 0) as [->|]; [rewrite Z.testbit_even_0; reflexivity|].
    replace n with (Z.succ (n - 1)) by lia. rewrite Z.testbit_odd_succ, Z.testbit_even_succ by lia.
    rewrite <- Z.land_spec, IH by lia. f_equal. f_equal. destruct (Z.eqb_spec (n - 1) (pos_ctz p)), (Z.eqb_spec (Z.succ (n - 1)) (1 + pos_ctz p)); lia || reflexivity.
  - change (1 - 1) with 0. rewrite Z.testbit_0_l, andb_false_r. simpl pos_ctz.
    destruct (Z.eq_dec n 0) as [->|]; [reflexivity|].
    replace n with (Z.succ (n - 1)) by lia. change 1 with (2 * 0 + 1) at 1.
    rewrite Z.testbit_odd_succ, Z.testbit_0_l by lia. reflexivity.
Qed.

Lemma pos_ctz_low p n : 0 <= n < pos_ctz p -> Z.testbit (Zpos p) n = false.
Proof.
  revert n. induction p as [p IH|p IH|]; simpl pos_ctz; intros n Hn; [lia| |lia].
  change (Zpos (xO p)) with (2 * Zpos p). destruct (Z.eq_dec n 0) as [->|]; [apply Z.testbit_even_0|].
  replace n with (Z.succ (n - 1)) by lia. rewrite Z.testbit_even_succ by lia. apply IH. lia.
Qed.

Lemma ctz_spec x :
  0 < x ->
  0 <= ctz x /\ Z.testbit x (ctz x) = true /\ (forall n, 0 <= n < ctz x -> Z.testbit x n = false) /\
  forall n, 0 <= n -> Z.testbit (Z.land x (x - 1)) n = Z.testbit x n && negb (n =? ctz x).
Proof.
  destruct x as [|p|p]; [lia| |lia]. intros _. simpl ctz.
  split; [apply pos_ctz_nonneg|]. split; [apply pos_ctz_set|]. split; [apply pos_ctz_low|].
  intros n Hn. by apply pos_clear_low.
Qed.
