(* ===== verification/Crc32.v ===== *)
(** * CRC-32: the three implementations of the repository

    The loader computes CRC-32 bit by bit (src/boot/common/bootcrc32.c), the
    compression library by nibble table (src/libs/compress/crc32.c) and the
    disk-image tool by a lazily built byte table (src/tools/mkimage/crc32.c).
    The file models the three, proves that they agree on every byte string, that
    the running forms are streaming, and that a checksum comparison detects any
    change confined to one byte. *)

From S2P Require Import Prelude.

(** ** The bitwise loader version *)

Definition CRC_POLY : Z := 0xEDB88320.

(** Models src/boot/common/include/bootcrc32.h:14-14, BOOT_CRC32_INIT. *)
Definition BOOT_CRC32_INIT : Z := 0xFFFFFFFF.

(** Models src/boot/common/bootcrc32.c:10-12, bootCrc32Update (one bit). *)
Definition crc_bit (crc : Z) : Z :=
  (crc >>! 1) .^ (if (crc .& 1) =? 0 then 0 else CRC_POLY).

(** Models src/boot/common/bootcrc32.c:9-12, bootCrc32Update (one byte). *)
Definition crc_byte (crc b : Z) : Z := Nat.iter 8 crc_bit (crc .^ b).

(** Models src/boot/common/bootcrc32.c:6-15, bootCrc32Update. *)
Definition bootCrc32Update (crc : Z) (data : list Z) : Z := fold_left crc_byte data crc.

(** Models src/boot/common/include/bootcrc32.h:23-25, bootCrc32Finish. *)
Definition bootCrc32Finish (crc : Z) : Z := crc .^ 0xFFFFFFFF.

(** Models src/boot/common/bootcrc32.c:17-19, bootCrc32. *)
Definition bootCrc32 (data : list Z) : Z :=
  bootCrc32Finish (bootCrc32Update BOOT_CRC32_INIT data).

(** ** The nibble-table version of libs/compress *)

(** Models src/libs/compress/crc32.c:7-10, CRC_NIBBLE. *)
Definition CRC_NIBBLE : list Z :=
  [0x00000000; 0x1DB71064; 0x3B6E20C8; 0x26D930AC;
   0x76DC4190; 0x6B6B51F4; 0x4DB26158; 0x5005713C;
   0xEDB88320; 0xF00F9344; 0xD6D6A3E8; 0xCB61B38C;
   0x9B64C2B0; 0x86D3D2D4; 0xA00AE278; 0xBDBDF21C].

Definition tbl (t : list Z) (i : Z) : Z := nth (Z.to_nat i) t 0.

(** Models src/libs/compress/crc32.c:16-18, compressCrc32 (one byte). *)
Definition nibble_byte (crc b : Z) : Z :=
  let crc := crc .^ b in
  let crc := tbl CRC_NIBBLE (crc .& 15) .^ (crc >>! 4) in
  tbl CRC_NIBBLE (crc .& 15) .^ (crc >>! 4).

(** Models src/libs/compress/crc32.c:12-21, compressCrc32. *)
Definition compressCrc32 (crc : Z) (bytes : list Z) : Z :=
  fold_left nibble_byte bytes (crc .^ 0xFFFFFFFF) .^ 0xFFFFFFFF.

(** ** The byte-table version of tools/mkimage *)

(** The translation unit's static storage: the table and its ready flag. *)
(** Models src/tools/mkimage/crc32.c:3-4, crc32Table. *)
Record Crc32State := { crc32Table : list Z; crc32TableReady : bool }.

Definition crc32_cold : Crc32State :=
  {| crc32Table := replicate 256 0; crc32TableReady := false |}.

(** Models src/tools/mkimage/crc32.c:9-11, crc32BuildTable (one bit). *)
Definition crc_table_bit (c : Z) : Z :=
  if (c .& 1) =? 0 then c >>! 1 else CRC_POLY .^ (c >>! 1).

(** Models src/tools/mkimage/crc32.c:6-15, crc32BuildTable. *)
Definition crc32BuildTable : Crc32State :=
  {| crc32Table := map (fun i => Nat.iter 8 crc_table_bit (Z.of_nat i)) (seq 0 256);
     crc32TableReady := true |}.

(** Models src/tools/mkimage/crc32.c:23-25, crc32Compute (one byte). *)
Definition table_byte (table : list Z) (crc b : Z) : Z :=
  tbl table ((crc .^ b) .& 0xFF) .^ (crc >>! 8).

(** Models src/tools/mkimage/crc32.c:17-27, crc32Compute. *)
Definition crc32Compute (st : Crc32State) (bytes : list Z) : Z * Crc32State :=
  let st := if crc32TableReady st then st else crc32BuildTable in
  let crc := fold_left (table_byte (crc32Table st)) bytes 0xFFFFFFFF in
  (crc .^ 0xFFFFFFFF, st).

(** The static storage is either untouched or holds the built table. *)
Definition crc32_state_ok (st : Crc32State) : Prop :=
  crc32TableReady st = true -> st = crc32BuildTable.

(** ** One shift of the register *)

Lemma land1_odd x : (x .& 1) = Z.b2z (Z.odd x).
Proof.
  change 1 with (2 ^ 1 - 1). rewrite land_low by lia.
  rewrite Zmod_odd. by destruct (Z.odd x).
Qed.

Lemma crc_bit_odd x :
  crc_bit x = Z.lxor (Z.shiftr x 1) (if Z.odd x then CRC_POLY else 0).
Proof. unfold crc_bit. rewrite land1_odd. by destruct (Z.odd x). Qed.

Lemma crc_table_bit_eq x : crc_table_bit x = crc_bit x.
Proof.
  unfold crc_table_bit, crc_bit. destruct (_ =? 0); [by rewrite Z.lxor_0_r|apply Z.lxor_comm].
Qed.

Lemma crc_bit_lxor x y : crc_bit (Z.lxor x y) = Z.lxor (crc_bit x) (crc_bit y).
Proof.
  rewrite !crc_bit_odd, Z.shiftr_lxor.
  assert (Ho : Z.odd (Z.lxor x y) = xorb (Z.odd x) (Z.odd y)).
  { rewrite <- !Z.bit0_odd. apply Z.lxor_spec. }
  rewrite Ho. rewrite !Z.lxor_assoc. f_equal.
  rewrite (Z.lxor_comm (if Z.odd x then _ else _)), Z.lxor_assoc. f_equal.
  destruct (Z.odd x), (Z.odd y); simpl; rewrite ?Z.lxor_0_r, ?Z.lxor_0_l, ?Z.lxor_nilpotent; done.
Qed.

Lemma crc_bit_double x : crc_bit (2 * x) = x.
Proof.
  rewrite crc_bit_odd. rewrite Z.odd_mul. simpl. rewrite Z.lxor_0_r, Z.shiftr_div_pow2 by lia.
  change (2 ^ 1) with 2. rewrite Z.mul_comm, Z.div_mul by lia. done.
Qed.

Lemma crc_bit_u32 x : is_u32 x -> is_u32 (crc_bit x).
Proof.
  intros. rewrite crc_bit_odd. apply lxor_u32; [by apply shiftr_u32|].
  unfold CRC_POLY. destruct (Z.odd x); words; lia.
Qed.

Lemma crc_bits_u32 n x : is_u32 x -> is_u32 (Nat.iter n crc_bit x).
Proof. intros. induction n; simpl; [done|by apply crc_bit_u32]. Qed.

Lemma crc_bits_lxor n x y :
  Nat.iter n crc_bit (Z.lxor x y) = Z.lxor (Nat.iter n crc_bit x) (Nat.iter n crc_bit y).
Proof. induction n as [|n IH]; simpl; [done|]. by rewrite IH, crc_bit_lxor. Qed.

Lemma crc_bits_shift n y : Nat.iter n crc_bit (Z.shiftl y (Z.of_nat n)) = y.
Proof.
  revert y; induction n as [|n IH]; intros y; [simpl; apply Z.shiftl_0_r|].
  rewrite Nat.iter_succ_r. rewrite <- (IH y) at 2. f_equal.
  rewrite !Z.shiftl_mul_pow2 by lia. rewrite Nat2Z.inj_succ, Z.pow_succ_r by lia.
  rewrite <- (crc_bit_double (y * 2 ^ Z.of_nat n)). f_equal. lia.
Qed.

(** [n] shifts at once: the low [n] bits index a table, the others move down. *)
Lemma crc_bits_table n x :
  0 <= x ->
  Nat.iter n crc_bit x =
  Z.lxor (Nat.iter n crc_bit (Z.land x (2 ^ Z.of_nat n - 1))) (Z.shiftr x (Z.of_nat n)).
Proof.
  intros Hx.
  assert (Hs : x = Z.lxor (Z.land x (2 ^ Z.of_nat n - 1))
                     (Z.shiftl (Z.shiftr x (Z.of_nat n)) (Z.of_nat n))).
  { replace (2 ^ Z.of_nat n - 1) with (Z.ones (Z.of_nat n)) by (rewrite Z.ones_equiv; lia).
    apply Z.bits_inj'; intros i Hi. autorewrite with zbits.
    destruct (Z.ltb_spec i (Z.of_nat n)).
    - rewrite andb_true_r, (Z.testbit_neg_r _ (i - _)) by lia. by rewrite xorb_false_r.
    - rewrite andb_false_r, xorb_false_l, Z.shiftr_spec by lia. f_equal. lia. }
  rewrite Hs at 1. by rewrite crc_bits_lxor, crc_bits_shift.
Qed.

(** The shift is invertible on 32-bit registers: the top bit of the result
    tells whether the polynomial was added. *)
Lemma crc_bit_inj x y : is_u32 x -> is_u32 y -> crc_bit x = crc_bit y -> x = y.
Proof.
  intros Hx Hy H.
  assert (Htop : forall z, is_u32 z -> Z.testbit (crc_bit z) 31 = Z.odd z).
  { intros z Hz. rewrite crc_bit_odd, Z.lxor_spec, Z.shiftr_spec by lia.
    rewrite <- (u32_small z Hz) at 1. unfold u32. rewrite Z.mod_pow2_bits_high by lia.
    by destruct (Z.odd z). }
  assert (Hodd : Z.odd x = Z.odd y) by (by rewrite <- !Htop, H).
  rewrite !crc_bit_odd, Hodd in H.
  assert (Hs : Z.shiftr x 1 = Z.shiftr y 1).
  { apply (f_equal (fun v => Z.lxor v (if Z.odd y then CRC_POLY else 0))) in H.
    by rewrite !Z.lxor_assoc, Z.lxor_nilpotent, !Z.lxor_0_r in H. }
  rewrite !Z.shiftr_div_pow2 in Hs by lia. change (2 ^ 1) with 2 in Hs.
  rewrite (Z.div_mod x 2), (Z.div_mod y 2) by lia.
  by rewrite Hs, !Zmod_odd, Hodd.
Qed.

Lemma crc_bits_inj n x y :
  is_u32 x -> is_u32 y -> Nat.iter n crc_bit x = Nat.iter n crc_bit y -> x = y.
Proof.
  intros Hx Hy. induction n as [|n IH]; simpl; [done|]. intros H.
  apply IH, crc_bit_inj; auto using crc_bits_u32.
Qed.

(** ** Agreement of the three versions *)

Lemma is_u8_u32 x : is_u8 x -> is_u32 x.
Proof. words. lia. Qed.
#[export] Hint Resolve is_u8_u32 : bong.

Lemma crc_bits_add n m x : Nat.iter (n + m) crc_bit x = Nat.iter n crc_bit (Nat.iter m crc_bit x).
Proof. apply Nat.iter_add. Qed.

Lemma crc_byte_u32 crc b : is_u32 crc -> is_u8 b -> is_u32 (crc_byte crc b).
Proof. intros. apply crc_bits_u32. eauto with bong. Qed.
#[export] Hint Resolve crc_byte_u32 : bong.

Lemma nibble_step x :
  is_u32 x -> tbl CRC_NIBBLE (x .& 15) .^ (x >>! 4) = Nat.iter 4 crc_bit x.
Proof.
  intros Hx. rewrite (crc_bits_table 4 x) by (words; lia).
  change (Z.of_nat 4) with 4. f_equal. change (2 ^ 4 - 1) with 15.
  assert (Hr : 0 <= Z.land x 15 < 16) by (apply (land_range 4); words; lia).
  revert Hr. generalize (Z.land x 15). clear x Hx. intros i Hi.
  assert (Hall : forallb (fun k => tbl CRC_NIBBLE (Z.of_nat k) =? Nat.iter 4 crc_bit (Z.of_nat k))
                   (seq 0 16) = true) by (vm_compute; reflexivity).
  rewrite forallb_forall in Hall. specialize (Hall (Z.to_nat i)).
  rewrite Z2Nat.id in Hall by lia. apply Z.eqb_eq, Hall, in_seq. lia.
Qed.

Lemma nibble_byte_eq crc b : is_u32 crc -> is_u8 b -> nibble_byte crc b = crc_byte crc b.
Proof.
  intros Hc Hb. unfold nibble_byte, crc_byte. cbv zeta.
  assert (Hx : is_u32 (crc .^ b)) by eauto with bong.
  rewrite (nibble_step (crc .^ b)) by done.
  rewrite nibble_step by by apply crc_bits_u32.
  symmetry. apply (crc_bits_add 4 4).
Qed.

Lemma byte_table_lookup i :
  0 <= i < 256 -> tbl (crc32Table crc32BuildTable) i = Nat.iter 8 crc_bit i.
Proof.
  intros Hi. unfold tbl, crc32BuildTable. cbn [crc32Table].
  rewrite (nth_indep _ _ (Nat.iter 8 crc_table_bit (Z.of_nat 0))).
  - rewrite (map_nth (fun i => Nat.iter 8 crc_table_bit (Z.of_nat i))), seq_nth, Nat.add_0_l by lia.
    rewrite Z2Nat.id by lia.
    clear. generalize 8%nat; intros n. induction n as [|n IH]; [done|].
    simpl. by rewrite IH, crc_table_bit_eq.
  - rewrite length_map, length_seq. lia.
Qed.

Lemma table_byte_eq crc b :
  is_u32 crc -> is_u8 b -> table_byte (crc32Table crc32BuildTable) crc b = crc_byte crc b.
Proof.
  intros Hc Hb. unfold table_byte, crc_byte.
  assert (Hx : is_u32 (crc .^ b)) by eauto with bong.
  rewrite (crc_bits_table 8 (crc .^ b)) by (words; lia).
  change (2 ^ Z.of_nat 8 - 1) with 0xFF. change (Z.of_nat 8) with 8.
  rewrite byte_table_lookup by (apply (land_range 8); words; lia). f_equal.
  rewrite Z.shiftr_lxor. rewrite (Z.shiftr_div_pow2 b) by lia.
  rewrite (Z.div_small b) by (words; lia). by rewrite Z.lxor_0_r.
Qed.

(** Two byte steps that agree on 32-bit registers fold to the same checksum. *)
Lemma fold_steps_eq (f : Z -> Z -> Z) data crc :
  (forall c b, is_u32 c -> is_u8 b -> f c b = crc_byte c b) ->
  is_u32 crc -> is_bytes data -> fold_left f data crc = bootCrc32Update crc data.
Proof.
  unfold bootCrc32Update. intros Hf Hc Hd. revert crc Hc.
  induction Hd as [|b r Hb _ IH]; intros crc Hc; rewrite ?fold_left_cons; [done|].
  rewrite Hf by done. eauto with bong.
Qed.

Lemma crc_update_u32 data crc :
  is_u32 crc -> is_bytes data -> is_u32 (bootCrc32Update crc data).
Proof.
  unfold bootCrc32Update. intros Hc Hd. revert crc Hc.
  induction Hd as [|b r Hb _ IH]; intros crc Hc; rewrite ?fold_left_cons; eauto with bong.
Qed.

Lemma crc32_used_state st :
  crc32_state_ok st -> (if crc32TableReady st then st else crc32BuildTable) = crc32BuildTable.
Proof. unfold crc32_state_ok. destruct (crc32TableReady st); auto. Qed.

(** The bitwise loader checksum, the nibble-table checksum of the compression
    library (started at 0) and the table checksum of the image tool (whatever
    calls came before) give the same value on every byte string. *)
Lemma crc32_agree_on data st :
  is_bytes data -> crc32_state_ok st ->
  compressCrc32 0 data = bootCrc32 data /\
  fst (crc32Compute st data) = bootCrc32 data /\
  crc32_state_ok (snd (crc32Compute st data)).
Proof.
  intros Hd Hst. unfold compressCrc32, crc32Compute, bootCrc32, bootCrc32Finish.
  rewrite crc32_used_state by done. cbn [fst snd].
  rewrite Z.lxor_0_l.
  rewrite (fold_steps_eq nibble_byte) by (done || (words; lia) || apply nibble_byte_eq).
  rewrite (fold_steps_eq (table_byte _)) by (done || (words; lia) || apply table_byte_eq).
  unfold crc32_state_ok. auto.
Qed.

(** ** Streaming *)

Lemma bootCrc32Update_cons crc b r :
  bootCrc32Update crc (b :: r) = bootCrc32Update (crc_byte crc b) r.
Proof. apply fold_left_cons. Qed.

Lemma bootCrc32Update_app crc a b :
  bootCrc32Update crc (a ++ b) = bootCrc32Update (bootCrc32Update crc a) b.
Proof. apply fold_left_app. Qed.

Lemma compressCrc32_app crc a b :
  compressCrc32 crc (a ++ b) = compressCrc32 (compressCrc32 crc a) b.
Proof.
  unfold compressCrc32. rewrite fold_left_app.
  by rewrite (Z.lxor_assoc _ 0xFFFFFFFF 0xFFFFFFFF), Z.lxor_nilpotent, Z.lxor_0_r.
Qed.

(** ** Error detection *)

Lemma crc_byte_bits crc b : crc_byte crc b = Nat.iter 8 crc_bit (crc .^ b).
Proof. reflexivity. Qed.

Lemma crc_byte_inj_l crc crc' b :
  is_u32 crc -> is_u32 crc' -> is_u8 b -> crc_byte crc b = crc_byte crc' b -> crc = crc'.
Proof.
  intros Hc Hc' Hb H. rewrite !crc_byte_bits in H. apply crc_bits_inj in H; eauto with bong.
  apply (f_equal (fun v => Z.lxor v b)) in H.
  by rewrite !Z.lxor_assoc, Z.lxor_nilpotent, !Z.lxor_0_r in H.
Qed.

Lemma crc_byte_inj_r crc b b' :
  is_u32 crc -> is_u8 b -> is_u8 b' -> crc_byte crc b = crc_byte crc b' -> b = b'.
Proof.
  intros Hc Hb Hb' H. rewrite !crc_byte_bits in H. apply crc_bits_inj in H; eauto with bong.
  apply (f_equal (Z.lxor crc)) in H.
  by rewrite <- !Z.lxor_assoc, Z.lxor_nilpotent, !Z.lxor_0_l in H.
Qed.

Lemma crc_update_inj data crc crc' :
  is_u32 crc -> is_u32 crc' -> is_bytes data ->
  bootCrc32Update crc data = bootCrc32Update crc' data -> crc = crc'.
Proof.
  unfold bootCrc32Update. intros Hc Hc' Hd. revert crc crc' Hc Hc'.
  induction Hd as [|b r Hb _ IH]; intros crc crc' Hc Hc' H; rewrite ?fold_left_cons in *; [done|].
  eapply crc_byte_inj_l, IH; eauto with bong.
Qed.

Lemma bootCrc32Finish_inj x y : bootCrc32Finish x = bootCrc32Finish y -> x = y.
Proof.
  unfold bootCrc32Finish. intros H.
  apply (f_equal (fun v => Z.lxor v 0xFFFFFFFF)) in H.
  by rewrite !Z.lxor_assoc, Z.lxor_nilpotent, !Z.lxor_0_r in H.
Qed.

(** C31: The loader's bitwise CRC, the compression library's nibble-table CRC and
    the image tool's byte-table CRC return the same value for every byte string,
    whatever earlier calls left in the image tool's lazily built table, and the
    image tool leaves its table in a state the next call can use. *)
Theorem crc32_implementations_agree data st :
  is_bytes data -> crc32_state_ok st ->
  compressCrc32 0 data = bootCrc32 data /\
  fst (crc32Compute st data) = bootCrc32 data /\
  crc32_state_ok (snd (crc32Compute st data)).
Proof. apply crc32_agree_on. Qed.

Lemma crc32_implementations_agree_witness :
  compressCrc32 0 [0x31; 0x32; 0x33; 0x34; 0x35; 0x36; 0x37; 0x38; 0x39] = 0xCBF43926 /\
  fst (crc32Compute crc32_cold [0x31; 0x32; 0x33; 0x34; 0x35; 0x36; 0x37; 0x38; 0x39]) =
    0xCBF43926.
Proof.
  destruct (crc32_implementations_agree
              [0x31; 0x32; 0x33; 0x34; 0x35; 0x36; 0x37; 0x38; 0x39] crc32_cold)
    as (H1 & H2 & _).
  - repeat constructor; words; lia.
  - discriminate.
  - rewrite H1, H2. split; vm_compute; reflexivity.
Defined.

(** A change confined to one byte is always detected: two byte strings that
    differ in exactly one position have different checksums, so a stored CRC-32
    that still matches rules such a corruption out. *)
Theorem crc32_detects_byte_change pre post b b' :
  is_bytes pre -> is_bytes post -> is_u8 b -> is_u8 b' -> b <> b' ->
  bootCrc32 (pre ++ b :: post) <> bootCrc32 (pre ++ b' :: post).
Proof.
  intros Hpre Hpost Hb Hb' Hne H. unfold bootCrc32 in H.
  apply bootCrc32Finish_inj in H. rewrite !bootCrc32Update_app, !bootCrc32Update_cons in H.
  assert (Hc : is_u32 (bootCrc32Update BOOT_CRC32_INIT pre))
    by (apply crc_update_u32; [unfold BOOT_CRC32_INIT; words; lia|done]).
  apply crc_update_inj in H; [|by apply crc_byte_u32..|done].
  eauto using crc_byte_inj_r.
Qed.

Lemma crc32_detects_byte_change_witness :
  bootCrc32 ([1; 2] ++ 3 :: [4]) <> bootCrc32 ([1; 2] ++ 7 :: [4]).
Proof.
  apply (crc32_detects_byte_change [1; 2] [4] 3 7);
    first [discriminate | repeat constructor; words; lia].
Defined.
