(* ===== verification/BootTypes.v ===== *)
(** * The boot handoff types and the shared loader helpers

    Data of src/boot/common/include/bootinfo.h (the loader/kernel ABI), the two
    status enumerations, and the integer and memory helpers of bootmem.h/.c. *)

From S2P Require Import Prelude.

(** ** Status codes *)

(** Models src/boot/common/include/boot-status.h:8-45, BootStatus. *)
Inductive BootStatus :=
| BOOT_OK | BOOT_ERR_ELF_HEADER | BOOT_ERR_ELF_PHDR | BOOT_ERR_ELF_SEGMENT
| BOOT_ERR_ELF_WX | BOOT_ERR_ELF_RANGE | BOOT_ERR_ELF_ENTRY | BOOT_ERR_NO_MEMORY
| BOOT_ERR_PT_CONFLICT | BOOT_ERR_MEMMAP_CAPACITY | BOOT_ERR_MEMMAP_OVERLAY
| BOOT_ERR_CFG | BOOT_ERR_NOT_MAPPED | BOOT_ERR_PT_UNALIGNED
| BOOT_ERR_FB_UNSUPPORTED | BOOT_ERR_IO | BOOT_ERR_GPT | BOOT_ERR_FAT
| BOOT_ERR_NOT_FOUND | BOOT_ERR_TOO_LARGE | BOOT_ERR_ELF_RELOC.

#[global] Instance BootStatus_eq_dec : EqDecision BootStatus.
Proof. solve_decision. Defined.

(** Models src/kernel/include/uapi/status.h:10-16, Status. *)
Inductive Status :=
| STATUS_OK | STATUS_ERR_INVALID | STATUS_ERR_NOT_FOUND | STATUS_ERR_NO_MEMORY
| STATUS_ERR_UNSUPPORTED.

#[global] Instance Status_eq_dec : EqDecision Status.
Proof. solve_decision. Defined.

(** ** The BootInfo ABI *)

(** Models src/boot/common/include/bootinfo.h:10-10, BOOTINFO_MAGIC. *)
Definition BOOTINFO_MAGIC : Z := 0x544F4F42474E4F42.
(** Models src/boot/common/include/bootinfo.h:11-11, BOOTINFO_VERSION. *)
Definition BOOTINFO_VERSION : Z := 1.
(** Models src/boot/common/include/bootinfo.h:15-15, BOOTINFO_HHDM_BASE. *)
Definition BOOTINFO_HHDM_BASE : Z := 0xFFFF800000000000.
(** Models src/boot/common/include/bootinfo.h:16-16, BOOTINFO_HHDM_SIZE. *)
Definition BOOTINFO_HHDM_SIZE : Z := 0x0000400000000000.
(** Models src/boot/common/include/bootinfo.h:17-17, BOOTINFO_KERNEL_WINDOW_BASE. *)
Definition BOOTINFO_KERNEL_WINDOW_BASE : Z := 0xFFFFFFFF80000000.
(** Models src/boot/common/include/bootinfo.h:18-18, BOOTINFO_KERNEL_WINDOW_END. *)
Definition BOOTINFO_KERNEL_WINDOW_END : Z := 0xFFFFFFFFA0000000.
(** Models src/boot/common/include/bootinfo.h:19-19, BOOTINFO_CMDLINE_MAX. *)
Definition BOOTINFO_CMDLINE_MAX : Z := 4096.

Definition BOOT_METHOD_UEFI : Z := 1.
Definition BOOT_METHOD_BIOS : Z := 2.

(** The [type] field of a region is a plain [uint32_t] in the ABI, so it is a [Z]
    here and the enumeration is a set of constants. *)
(** Models src/boot/common/include/bootinfo.h:23-24, BOOT_MEM_USABLE. *)
Definition BOOT_MEM_USABLE : Z := 1.
Definition BOOT_MEM_RESERVED : Z := 2.
Definition BOOT_MEM_ACPI_RECLAIM : Z := 3.
Definition BOOT_MEM_ACPI_NVS : Z := 4.
Definition BOOT_MEM_BAD : Z := 5.
Definition BOOT_MEM_LOADER_RECLAIM : Z := 6.
Definition BOOT_MEM_KERNEL : Z := 7.
Definition BOOT_MEM_INITRD : Z := 8.
(** Models src/boot/common/include/bootinfo.h:25-33, BootMemType. *)
Definition BOOT_MEM_FRAMEBUFFER : Z := 9.

Ltac memtypes :=
  unfold BOOT_MEM_USABLE, BOOT_MEM_RESERVED, BOOT_MEM_ACPI_RECLAIM, BOOT_MEM_ACPI_NVS,
    BOOT_MEM_BAD, BOOT_MEM_LOADER_RECLAIM, BOOT_MEM_KERNEL, BOOT_MEM_INITRD,
    BOOT_MEM_FRAMEBUFFER in *.

(** Models src/boot/common/include/bootinfo.h:35-40, BootMemRegion. *)
Record BootMemRegion := {
  mr_base : Z; mr_length : Z; mr_type : Z; mr_reserved : Z }.

#[global] Instance BootMemRegion_eq_dec : EqDecision BootMemRegion.
Proof. solve_decision. Defined.

(** Models src/boot/common/include/bootinfo.h:42-46, BootFramebuffer. *)
Record BootFramebuffer := {
  fb_phys : Z; fb_width : Z; fb_height : Z; fb_pitch : Z; fb_bpp : Z;
  fb_redShift : Z; fb_redSize : Z; fb_greenShift : Z; fb_greenSize : Z;
  fb_blueShift : Z; fb_blueSize : Z; fb_reserved : Z * Z }.

(** Models src/boot/common/include/bootinfo.h:48-65, BootInfo. *)
Record BootInfo := {
  bi_magic : Z; bi_version : Z; bi_size : Z; bi_bootMethod : Z; bi_memMapCount : Z;
  bi_memMapPhys : Z; bi_fb : BootFramebuffer; bi_rsdpPhys : Z;
  bi_kernelPhysBase : Z; bi_kernelVirtBase : Z; bi_kernelSize : Z; bi_kaslrSlide : Z;
  bi_initrdPhys : Z; bi_initrdSize : Z; bi_cmdlinePhys : Z; bi_hhdmBase : Z;
  bi_loaderTsc : Z; bi_efiSystemTablePhys : Z;
  bi_bootDiskGuid : list Z; bi_bootPartGuid : list Z; bi_randomSeed : list Z }.

(** Models src/boot/common/include/bootinfo.h:67-67, sizeof BootMemRegion. *)
Definition sizeof_BootMemRegion : Z := 24.
(** Models src/boot/common/include/bootinfo.h:70-70, sizeof BootInfo. *)
Definition sizeof_BootInfo : Z := 248.

(** ** Alignment *)

(** Models src/boot/common/include/bootmem.h:14-16, bootAlignUp. *)
Definition bootAlignUp (x align : Z) : Z := (x +! (align - 1)) .& not64 (align - 1).
(** Models src/boot/common/include/bootmem.h:17-19, bootAlignDown. *)
Definition bootAlignDown (x align : Z) : Z := x .& not64 (align - 1).

Section Align.
Context (k : Z) (Hk : 0 <= k < 64).

Lemma align_pow_pos : 0 < 2 ^ k < 2 ^ 64.
Proof. split; [lia|]. apply Z.pow_lt_mono_r; lia. Qed.

Lemma bootAlignDown_eq x : is_u64 x -> bootAlignDown x (2 ^ k) = x - x mod 2 ^ k.
Proof. intros. unfold bootAlignDown. apply land_high64; [done|lia]. Qed.

Lemma bootAlignDown_spec x :
  is_u64 x ->
  bootAlignDown x (2 ^ k) mod 2 ^ k = 0 /\
  bootAlignDown x (2 ^ k) <= x < bootAlignDown x (2 ^ k) + 2 ^ k.
Proof.
  intros Hx. rewrite bootAlignDown_eq by done. pose proof align_pow_pos.
  pose proof (Z.mod_pos_bound x (2 ^ k)). split; [|lia].
  rewrite Zminus_mod_idemp_r, Z.sub_diag. apply Z.mod_0_l. lia.
Qed.

Lemma bootAlignDown_u64 x : is_u64 x -> is_u64 (bootAlignDown x (2 ^ k)).
Proof.
  intros Hx. pose proof (bootAlignDown_spec x Hx). rewrite bootAlignDown_eq in * by done.
  pose proof align_pow_pos. pose proof (Z.mod_le x (2 ^ k)). words. lia.
Qed.

(** No wrap: the least multiple of [2^k] that is at least [x]. *)
Lemma bootAlignUp_spec x :
  is_u64 x -> x + (2 ^ k - 1) < 2 ^ 64 ->
  bootAlignUp x (2 ^ k) mod 2 ^ k = 0 /\
  x <= bootAlignUp x (2 ^ k) < x + 2 ^ k.
Proof.
  intros Hx Hw. pose proof align_pow_pos. unfold bootAlignUp.
  rewrite u64_small by (words; lia).
  destruct (bootAlignDown_spec (x + (2 ^ k - 1))) as [H1 H2]; [words; lia|].
  unfold bootAlignDown in *. split; [done|lia].
Qed.

(** Wrap: the result is zero, which the callers detect as [result < x]. *)
Lemma bootAlignUp_wrap x :
  is_u64 x -> 2 ^ 64 <= x + (2 ^ k - 1) -> bootAlignUp x (2 ^ k) = 0.
Proof.
  intros Hx Hw. pose proof align_pow_pos. unfold bootAlignUp.
  assert (Hm : u64 (x + (2 ^ k - 1)) = x + (2 ^ k - 1) - 2 ^ 64).
  { unfold u64. rewrite <- (Z_mod_plus_full _ (-1)). apply Z.mod_small. words. lia. }
  rewrite Hm, land_high64 by (words; lia). rewrite Z.mod_small by (words; lia). lia.
Qed.

Lemma bootAlignUp_aligned x : is_u64 x -> x mod 2 ^ k = 0 -> bootAlignUp x (2 ^ k) = x.
Proof.
  intros Hx H0. pose proof align_pow_pos.
  destruct (Z.lt_ge_cases (x + (2 ^ k - 1)) (2 ^ 64)) as [Hw|Hw].
  - destruct (bootAlignUp_spec x Hx Hw) as [H1 H2].
    apply Z.mod_divide in H0 as [a Ha]; [|lia]. apply Z.mod_divide in H1 as [b Hb]; [|lia].
    rewrite Hb in *. subst x. generalize dependent (2 ^ k). intros P **.
    assert (a <= b < a + 1) by nia. f_equal. lia.
  - exfalso. apply Z.mod_divide in H0 as [a Ha]; [|lia].
    assert (H64 : 2 ^ 64 = 2 ^ (64 - k) * 2 ^ k) by (rewrite <- Z.pow_add_r by lia; f_equal; lia).
    words. subst x. rewrite H64 in *. generalize dependent (2 ^ k).
    generalize (2 ^ (64 - k)). intros Q P **. assert (a < Q) by nia. nia.
Qed.

Lemma bootAlignUp_u64 x : is_u64 (bootAlignUp x (2 ^ k)).
Proof.
  unfold bootAlignUp. pose proof align_pow_pos.
  assert (He : 0 <= not64 (2 ^ k - 1) < 2 ^ 64) by (unfold not64; lia).
  apply (land_range 64); [lia| |done]. pose proof (u64_range (x + (2 ^ k - 1))). words. lia.
Qed.
End Align.

(** ** Division *)

(** Models src/boot/common/include/bootmem.h:30-36, bootDivMod64 (the loop over the
    bits [n-1 .. 0]). *)
Fixpoint divmod_bits (n : nat) (dividend divisor quotient remainder : Z) : Z * Z :=
  match n with
  | O => (quotient, remainder)
  | S bit =>
      let remainder := (remainder <<! 1) .| ((dividend >>! Z.of_nat bit) .& 1) in
      if divisor <=? remainder
      then divmod_bits bit dividend divisor
             (quotient .| (1 <<! Z.of_nat bit)) (remainder -! divisor)
      else divmod_bits bit dividend divisor quotient remainder
  end.

(** Models src/boot/common/include/bootmem.h:27-41, bootDivMod64. *)
Definition bootDivMod64 (dividend divisor : Z) : Z * Z :=
  let '(q, r) := divmod_bits 64 dividend divisor 0 0 in (q, u32 r).

Lemma divmod_bits_spec n dividend divisor q r :
  (n <= 64)%nat -> is_u64 dividend -> is_u32 divisor -> 0 < divisor ->
  dividend / 2 ^ Z.of_nat n = q * divisor + r -> 0 <= r < divisor -> 0 <= q ->
  exists q' r', divmod_bits n dividend divisor (q * 2 ^ Z.of_nat n) r = (q', r') /\
    dividend = q' * divisor + r' /\ 0 <= r' < divisor.
Proof.
  revert q r. induction n as [|n IH]; intros q r Hn Hd Hv Hpos Hinv Hr Hq.
  { exists q, r. simpl in *. rewrite Z.div_1_r in Hinv. rewrite Z.mul_1_r. auto. }
  cbn [divmod_bits].
  set (b := (dividend >>! Z.of_nat n) .& 1).
  assert (Hb : b = (dividend / 2 ^ Z.of_nat n) mod 2).
  { unfold b. change 1 with (2 ^ 1 - 1). by rewrite land_low, Z.shiftr_div_pow2 by lia. }
  assert (Hb2 : 0 <= b < 2) by (rewrite Hb; apply Z.mod_pos_bound; lia).
  assert (Hrem : (r <<! 1) .| b = 2 * r + b).
  { rewrite u64_small by (rewrite Z.shiftl_mul_pow2 by lia; words; lia).
    rewrite (add_lor_disjoint _ _ 1); rewrite ?Z.shiftl_mul_pow2 by lia;
      [lia|lia|apply Z.mod_mul; lia|lia]. }
  rewrite Hrem.
  assert (Hstep : dividend / 2 ^ Z.of_nat n = 2 * (q * divisor + r) + b).
  { rewrite <- Hinv, Hb.
    replace (2 ^ Z.of_nat (S n)) with (2 ^ Z.of_nat n * 2)
      by (rewrite Nat2Z.inj_succ, Z.pow_succ_r by lia; lia).
    rewrite <- Z.div_div by lia. apply Z.div_mod. lia. }
  assert (Hpow : q * 2 ^ Z.of_nat (S n) = (2 * q) * 2 ^ Z.of_nat n)
    by (rewrite Nat2Z.inj_succ, Z.pow_succ_r by lia; lia).
  rewrite Hpow. destruct (Z.leb_spec divisor (2 * r + b)) as [Hge|Hlt].
  - rewrite (u64_small (2 * r + b - divisor)) by (words; lia).
    assert (Hbit : ((2 * q) * 2 ^ Z.of_nat n) .| (1 <<! Z.of_nat n) =
                   (2 * q + 1) * 2 ^ Z.of_nat n).
    { rewrite Z.shiftl_1_l, u64_small.
      2: { words. split; [lia|]. apply Z.pow_lt_mono_r; lia. }
      rewrite (add_lor_disjoint _ _ (Z.of_nat n + 1)); [lia|lia| |].
      - replace (2 * q * 2 ^ Z.of_nat n) with (q * 2 ^ (Z.of_nat n + 1))
          by (rewrite Z.pow_add_r by lia; lia).
        apply Z.mod_mul. lia.
      - rewrite Z.pow_add_r by lia. lia. }
    rewrite Hbit. apply IH; [lia|done..|lia|lia|lia].
  - apply IH; [lia|done..|lia|lia|lia].
Qed.

(** The bit loop is division: no [__udivdi3] is needed. *)
Lemma bootDivMod64_spec dividend divisor :
  is_u64 dividend -> is_u32 divisor -> 0 < divisor ->
  bootDivMod64 dividend divisor = (dividend / divisor, dividend mod divisor).
Proof.
  intros Hd Hv Hpos. unfold bootDivMod64.
  destruct (divmod_bits_spec 64 dividend divisor 0 0) as (q & r & He & Hq & Hr);
    [lia|done..| |lia|lia|].
  { rewrite Z.div_small; [lia|]. change (Z.of_nat 64) with 64. words. lia. }
  rewrite Z.mul_0_l in He. rewrite He.
  assert (Hdiv : q = dividend / divisor) by (apply Z.div_unique with r; lia).
  assert (Hmod : r = dividend mod divisor) by (apply Z.mod_unique with q; lia).
  rewrite u32_small by (words; lia). by rewrite <- Hdiv, <- Hmod.
Qed.

(** ** Memory copies *)

(** Overwrites [length src] bytes of [dst] at [off]; [None] when the store would
    leave the buffer. *)
(** Models src/boot/common/bootmem.c:5-11, bootMemcpy. *)
Definition bootMemcpy (dst : list Z) (off : Z) (src : list Z) : option (list Z) :=
  if (0 <=? off) && (off + zlen src <=? zlen dst)
  then Some (take (Z.to_nat off) dst ++ src ++ drop (Z.to_nat off + length src) dst)
  else None.

(** Models src/boot/common/bootmem.c:13-18, bootMemset. *)
Definition bootMemset (dst : list Z) (off value n : Z) : option (list Z) :=
  bootMemcpy dst off (replicate (Z.to_nat n) (u8 value)).

Lemma bootMemcpy_length dst off src dst' :
  bootMemcpy dst off src = Some dst' -> length dst' = length dst.
Proof.
  unfold bootMemcpy. bcases; [|done]. intros [= <-]. unfold zlen in *.
  rewrite !length_app, length_take, length_drop. lia.
Qed.

Lemma bootMemcpy_is_Some dst off src :
  0 <= off -> off + zlen src <= zlen dst -> is_Some (bootMemcpy dst off src).
Proof.
  intros. unfold bootMemcpy.
  rewrite (proj2 (Z.leb_le _ _)), (proj2 (Z.leb_le _ (zlen dst))) by lia. eauto.
Qed.

Lemma bootMemcpy_lookup dst off src dst' i :
  bootMemcpy dst off src = Some dst' ->
  dst' !! i = if decide (Z.to_nat off <= i < Z.to_nat off + length src)%nat
              then src !! (i - Z.to_nat off)%nat else dst !! i.
Proof.
  unfold bootMemcpy. destruct (_ && _) eqn:E; [|done]. intros [= <-]. bprop.
  unfold zlen in *.
  assert (Ht : length (take (Z.to_nat off) dst) = Z.to_nat off) by (rewrite length_take; lia).
  case_decide as Hi.
  - rewrite lookup_app_r by lia. rewrite Ht. rewrite lookup_app_l by lia. done.
  - destruct (Nat.lt_ge_cases i (Z.to_nat off)).
    + rewrite lookup_app_l by lia. apply lookup_take_lt. lia.
    + rewrite lookup_app_r by lia. rewrite lookup_app_r by lia.
      rewrite Ht, lookup_drop. f_equal. lia.
Qed.
