(* ===== verification/MemMap.v ===== *)
(** * The loader's memory map (src/boot/common/memmap.c)

    Firmware reports memory as overlapping, unaligned, partly contradictory
    ranges. [memMapNormalize] turns them into the map the kernel receives. The
    file models the conversion tables, the rounding, the sort, the sweep and the
    overlay check, and proves what the kernel relies on: the output is sorted,
    disjoint, page aligned and coalesced, and at every address it reports exactly
    the highest-ranked type some rounded input claims there. *)

From S2P Require Import Prelude BootTypes.

(** ** Firmware types *)

(** Models src/boot/common/include/memmap.h:17-17, MEM_MAP_EFI_ATTRIBUTE_SP. *)
Definition MEM_MAP_EFI_ATTRIBUTE_SP : Z := 0x40000.
(** Models src/boot/common/include/memmap.h:26-26, MEM_MAP_E820_ATTR_NON_VOLATILE. *)
Definition MEM_MAP_E820_ATTR_NON_VOLATILE : Z := 0x2.

(** Models src/boot/common/memmap.c:8-36, memMapEfiTypeToBootMem. *)
Definition memMapEfiTypeToBootMem (efiType attribute : Z) : Z :=
  if efiType =? 0 then BOOT_MEM_RESERVED
  else if (efiType =? 1) || (efiType =? 2) || (efiType =? 3) || (efiType =? 4)
  then BOOT_MEM_USABLE
  else if (efiType =? 5) || (efiType =? 6) then BOOT_MEM_RESERVED
  else if efiType =? 7 then
    (if (attribute .& MEM_MAP_EFI_ATTRIBUTE_SP) =? 0 then BOOT_MEM_USABLE else BOOT_MEM_RESERVED)
  else if efiType =? 8 then BOOT_MEM_BAD
  else if efiType =? 9 then BOOT_MEM_ACPI_RECLAIM
  else if efiType =? 10 then BOOT_MEM_ACPI_NVS
  else BOOT_MEM_RESERVED.

(** Models src/boot/common/memmap.c:38-54, memMapE820TypeToBootMem. *)
Definition memMapE820TypeToBootMem (e820Type extAttr : Z) : Z :=
  if e820Type =? 1 then
    (if (extAttr .& MEM_MAP_E820_ATTR_NON_VOLATILE) =? 0
     then BOOT_MEM_USABLE else BOOT_MEM_RESERVED)
  else if e820Type =? 2 then BOOT_MEM_RESERVED
  else if e820Type =? 3 then BOOT_MEM_ACPI_RECLAIM
  else if e820Type =? 4 then BOOT_MEM_ACPI_NVS
  else if e820Type =? 5 then BOOT_MEM_BAD
  else BOOT_MEM_RESERVED.

(** ** Rounding *)

(** Models src/boot/common/include/memmap.h:33-38, MemMapInput. *)
Record MemMapInput := { in_base : Z; in_length : Z; in_type : Z }.

(** Models src/boot/common/memmap.c:6-6, MEM_MAP_PAGE_SIZE. *)
Definition MEM_MAP_PAGE_SIZE : Z := 2 ^ 12.

(** Models src/boot/common/memmap.c:60-88, memMapRoundInput. *)
Definition memMapRoundInput (r : MemMapInput) : option (Z * Z) :=
  if in_length r =? 0 then None else
  let e := in_base r +! in_length r in
  if e <? in_base r then None else
  let finish (base roundedEnd : Z) :=
    if roundedEnd <=? base then None else Some (base, roundedEnd) in
  if in_type r =? BOOT_MEM_USABLE then
    let base := bootAlignUp (in_base r) MEM_MAP_PAGE_SIZE in
    if base <? in_base r then None
    else finish base (bootAlignDown e MEM_MAP_PAGE_SIZE)
  else
    let base := bootAlignDown (in_base r) MEM_MAP_PAGE_SIZE in
    let roundedEnd := bootAlignUp e MEM_MAP_PAGE_SIZE in
    if roundedEnd <? e then None
    else finish base roundedEnd.

(** Models src/boot/common/memmap.c:90-113, memMapRank. *)
Definition memMapRank (type : Z) : Z :=
  if type =? BOOT_MEM_USABLE then 0
  else if type =? BOOT_MEM_LOADER_RECLAIM then 1
  else if type =? BOOT_MEM_INITRD then 2
  else if type =? BOOT_MEM_KERNEL then 3
  else if type =? BOOT_MEM_ACPI_RECLAIM then 4
  else if type =? BOOT_MEM_ACPI_NVS then 5
  else if type =? BOOT_MEM_RESERVED then 6
  else if type =? BOOT_MEM_FRAMEBUFFER then 7
  else if type =? BOOT_MEM_BAD then 8
  else -1.

(** ** The sweep *)

(** Models src/boot/common/memmap.c:117-125, memMapNormalize (collecting the points). *)
Fixpoint collect_points (ins : list MemMapInput) : list Z :=
  match ins with
  | [] => []
  | i :: r =>
      match memMapRoundInput i with
      | None => collect_points r
      | Some (base, e) => base :: e :: collect_points r
      end
  end.

(** One pass of the insertion sort: [rp] is the sorted prefix, last element first;
    elements above the key move one slot up and the key lands below them. *)
(** Models src/boot/common/memmap.c:130-136, memMapNormalize (inner sort loop). *)
Fixpoint shift_insert (key : Z) (rp : list Z) : list Z :=
  match rp with
  | [] => [key]
  | x :: r => if x >? key then x :: shift_insert key r else key :: x :: r
  end.

(** Models src/boot/common/memmap.c:129-137, memMapNormalize (insertion sort). *)
Definition sort_points (pts : list Z) : list Z :=
  rev (fold_left (fun rp key => shift_insert key rp) pts []).

(** [prev] is the last kept point, [None] while nothing was kept. *)
(** Models src/boot/common/memmap.c:139-144, memMapNormalize (dropping duplicates). *)
Fixpoint unique_points (prev : option Z) (pts : list Z) : list Z :=
  match pts with
  | [] => []
  | p :: r =>
      if bool_decide (prev = Some p) then unique_points prev r
      else p :: unique_points (Some p) r
  end.

(** Models src/boot/common/memmap.c:151-165, memMapNormalize (the covering input of
    highest rank). *)
Definition best_input (ins : list MemMapInput) (segStart segEnd : Z) : Z * Z :=
  fold_left (fun '(bestRank, bestType) i =>
      match memMapRoundInput i with
      | None => (bestRank, bestType)
      | Some (base, e) =>
          if (base <=? segStart) && (segEnd <=? e) then
            let rank := memMapRank (in_type i) in
            if rank >? bestRank then (rank, in_type i) else (bestRank, bestType)
          else (bestRank, bestType)
      end) ins (-1, 0).

(** The output array, last element first. *)
(** Models src/boot/common/memmap.c:166-182, memMapNormalize (emitting a segment). *)
Definition emit (rout : list BootMemRegion) (outCap : Z) (bestRank bestType segStart segEnd : Z)
    : BootStatus * list BootMemRegion :=
  if bestRank <? 0 then (BOOT_OK, rout) else
  let append :=
    if outCap <=? zlen rout then (BOOT_ERR_MEMMAP_CAPACITY, rout)
    else (BOOT_OK, {| mr_base := segStart; mr_length := segEnd -! segStart;
                      mr_type := bestType; mr_reserved := 0 |} :: rout) in
  match rout with
  | last :: r =>
      if (mr_type last =? bestType) && ((mr_base last +! mr_length last) =? segStart) then
        (BOOT_OK, {| mr_base := mr_base last;
                     mr_length := mr_length last +! (segEnd -! segStart);
                     mr_type := mr_type last; mr_reserved := mr_reserved last |} :: r)
      else append
  | [] => append
  end.

(** Models src/boot/common/memmap.c:146-184, memMapNormalize (the segment loop). *)
Fixpoint sweep (ins : list MemMapInput) (outCap : Z) (pts : list Z) (rout : list BootMemRegion)
    : BootStatus * list BootMemRegion :=
  match pts with
  | segStart :: (segEnd :: _) as rest =>
      let '(bestRank, bestType) := best_input ins segStart segEnd in
      match emit rout outCap bestRank bestType segStart segEnd with
      | (BOOT_OK, rout) => sweep ins outCap rest rout
      | err => err
      end
  | _ => (BOOT_OK, rout)
  end.

(** Models src/boot/common/memmap.c:115-185, memMapNormalize. *)
Definition memMapNormalize (ins : list MemMapInput) (outCap : Z)
    : BootStatus * list BootMemRegion :=
  let pts := unique_points None (sort_points (collect_points ins)) in
  let '(st, rout) := sweep ins outCap pts [] in
  (st, rev rout).

(** ** The overlay check *)

(** Models src/boot/common/memmap.c:187-209, memMapCheckOverlay. *)
Definition memMapCheckOverlay (base length : Z) (efiRegions : list MemMapInput) : BootStatus :=
  if length =? 0 then BOOT_OK else
  let e := base +! length in
  if e <? base then BOOT_ERR_MEMMAP_OVERLAY else
  if existsb (fun r =>
       ((in_type r =? 1) || (in_type r =? 2)) &&
       (let regionEnd := in_base r +! in_length r in
        negb (regionEnd <? in_base r) && (in_base r <=? base) && (e <=? regionEnd))) efiRegions
  then BOOT_OK else BOOT_ERR_MEMMAP_OVERLAY.

(** ** Inputs the firmware can produce: 64-bit fields. *)
Definition input_ok (i : MemMapInput) : Prop :=
  is_u64 (in_base i) /\ is_u64 (in_length i) /\ is_u32 (in_type i).

(** The rounded input [i] claims address [a]. *)
Definition rounds_over (i : MemMapInput) (a : Z) : Prop :=
  exists b e, memMapRoundInput i = Some (b, e) /\ b <= a < e.

(** Some input of a known type claims [a] for type [t]. *)
Definition claims (ins : list MemMapInput) (a t : Z) : Prop :=
  exists i, i ∈ ins /\ in_type i = t /\ 0 <= memMapRank t /\ rounds_over i a.

Definition covers (r : BootMemRegion) (a : Z) : Prop :=
  mr_base r <= a < mr_base r + mr_length r.

(** What a region of the output looks like. *)
Record region_ok (r : BootMemRegion) : Prop := {
  ro_base : 0 <= mr_base r;
  ro_len : 0 < mr_length r;
  ro_end : mr_base r + mr_length r < 2 ^ 64;
  ro_base_al : mr_base r mod MEM_MAP_PAGE_SIZE = 0;
  ro_len_al : mr_length r mod MEM_MAP_PAGE_SIZE = 0;
  ro_rank : 0 <= memMapRank (mr_type r);
  ro_resv : mr_reserved r = 0 }.

(** Consecutive regions: in order, disjoint, and coalesced where they touch. *)
Definition follows (r s : BootMemRegion) : Prop :=
  mr_base r + mr_length r <= mr_base s /\
  (mr_base r + mr_length r = mr_base s -> mr_type r <> mr_type s).

(** ** Rounding keeps USABLE inside and everything else outside *)

Lemma page_pow : MEM_MAP_PAGE_SIZE = 2 ^ 12.
Proof. reflexivity. Qed.

Lemma round_input_spec i b e :
  input_ok i -> memMapRoundInput i = Some (b, e) ->
  0 <= b /\ b < e /\ e < 2 ^ 64 /\
  b mod MEM_MAP_PAGE_SIZE = 0 /\ e mod MEM_MAP_PAGE_SIZE = 0 /\
  in_base i + in_length i < 2 ^ 64 /\
  (in_type i = BOOT_MEM_USABLE -> in_base i <= b /\ e <= in_base i + in_length i) /\
  (in_type i <> BOOT_MEM_USABLE -> b <= in_base i /\ in_base i + in_length i <= e).
Proof.
  intros (Hb & Hl & _). unfold memMapRoundInput. rewrite page_pow.
  destruct (in_length i =? 0) eqn:E0; [done|]. rewrite u64_add_overflow by done.
  destruct (2 ^ 64 <=? _) eqn:E1; [done|]. bprop. rewrite u64_small by (words; lia).
  assert (Hs : is_u64 (in_base i + in_length i)) by (words; lia).
  destruct (in_type i =? BOOT_MEM_USABLE) eqn:E2; bprop.
  - destruct (_ <? _) eqn:E3; [done|]. bprop. destruct (_ <=? _) eqn:E4; [done|]. bprop.
    intros [= <- <-].
    assert (Hw : in_base i + (2 ^ 12 - 1) < 2 ^ 64).
    { destruct (Z.lt_ge_cases (in_base i + (2 ^ 12 - 1)) (2 ^ 64)) as [|Hge]; [done|].
      rewrite bootAlignUp_wrap in E3 by (done || lia).
      destruct (bootAlignDown_spec 12 ltac:(lia) _ Hs).
      assert (in_base i = 0) by (words; lia). words. lia. }
    destruct (bootAlignUp_spec 12 ltac:(lia) _ Hb Hw).
    destruct (bootAlignDown_spec 12 ltac:(lia) _ Hs).
    words. split_and!; try done; try lia.
  - destruct (_ <? _) eqn:E3; [done|]. bprop. destruct (_ <=? _) eqn:E4; [done|]. bprop.
    intros [= <- <-].
    assert (Hw : in_base i + in_length i + (2 ^ 12 - 1) < 2 ^ 64).
    { destruct (Z.lt_ge_cases (in_base i + in_length i + (2 ^ 12 - 1)) (2 ^ 64)); [done|].
      rewrite bootAlignUp_wrap in E3 by (done || lia). words. lia. }
    destruct (bootAlignUp_spec 12 ltac:(lia) _ Hs Hw).
    destruct (bootAlignDown_spec 12 ltac:(lia) _ Hb).
    pose proof (bootAlignDown_u64 12 ltac:(lia) _ Hb).
    pose proof (bootAlignUp_u64 12 ltac:(lia) (in_base i + in_length i)).
    words. split_and!; try done; try lia.
Qed.

(** The ranking read backwards. *)
Definition unrank (r : Z) : Z :=
  nth (Z.to_nat r) [BOOT_MEM_USABLE; BOOT_MEM_LOADER_RECLAIM; BOOT_MEM_INITRD; BOOT_MEM_KERNEL;
    BOOT_MEM_ACPI_RECLAIM; BOOT_MEM_ACPI_NVS; BOOT_MEM_RESERVED; BOOT_MEM_FRAMEBUFFER;
    BOOT_MEM_BAD] 0.

Lemma unrank_rank t : 0 <= memMapRank t -> unrank (memMapRank t) = t.
Proof. unfold memMapRank. intros. repeat (bcase; bprop; subst; [reflexivity|]). lia. Qed.

Lemma rank_inj t t' : 0 <= memMapRank t -> memMapRank t = memMapRank t' -> t = t'.
Proof. intros H He. rewrite <- (unrank_rank t), <- (unrank_rank t'); congruence. Qed.

(** ** The point list *)

Lemma collect_points_spec ins p :
  p ∈ collect_points ins <->
  exists i b e, i ∈ ins /\ memMapRoundInput i = Some (b, e) /\ (p = b \/ p = e).
Proof.
  induction ins as [|i ins IH]; simpl.
  { split; [by intros ?%not_elem_of_nil|]. by intros (?&?&?&?%not_elem_of_nil&_). }
  destruct (memMapRoundInput i) as [[b e]|] eqn:E; rewrite ?elem_of_cons, IH; clear IH.
  - split.
    + intros [->|[->|(j & b' & e' & Hj & H & Hp)]].
      * exists i, b, e. rewrite elem_of_cons. auto.
      * exists i, b, e. rewrite elem_of_cons. auto.
      * exists j, b', e'. rewrite elem_of_cons. auto.
    + intros (j & b' & e' & [->|Hj]%elem_of_cons & H & Hp).
      * rewrite E in H. simplify_eq. tauto.
      * right. right. eauto 10.
  - split.
    + intros (j & b & e & Hj & H & Hp). exists j, b, e. rewrite elem_of_cons. auto.
    + intros (j & b & e & [->|Hj]%elem_of_cons & H & Hp); [congruence|eauto 10].
Qed.

Lemma collect_points_length ins : (length (collect_points ins) <= 2 * length ins)%nat.
Proof. induction ins as [|i ins IH]; simpl; [lia|]. destruct (memMapRoundInput i) as [[]|]; simpl; lia. Qed.

Lemma shift_insert_perm key rp : shift_insert key rp ≡ₚ key :: rp.
Proof.
  induction rp as [|x rp IH]; simpl; [done|]. destruct (x >? key); [|done].
  rewrite IH. constructor.
Qed.

Lemma shift_insert_sorted key rp :
  StronglySorted Z.ge rp -> StronglySorted Z.ge (shift_insert key rp).
Proof.
  induction 1 as [|x rp Hs IH Hall]; simpl; [by repeat constructor|].
  destruct (x >? key) eqn:E; bprop.
  - constructor; [done|]. rewrite shift_insert_perm. constructor; [lia|done].
  - constructor; [by constructor|]. constructor; [lia|].
    eapply Forall_impl; [exact Hall|]. simpl. lia.
Qed.

Lemma sort_fold_spec pts rp :
  StronglySorted Z.ge rp ->
  let out := fold_left (fun rp key => shift_insert key rp) pts rp in
  StronglySorted Z.ge out /\ out ≡ₚ rp ++ pts.
Proof.
  revert rp. induction pts as [|p pts IH]; intros rp Hrp; simpl.
  { by rewrite app_nil_r. }
  destruct (IH (shift_insert p rp)) as [H1 H2]; [by apply shift_insert_sorted|].
  split; [done|]. rewrite H2, shift_insert_perm. apply Permutation_middle.
Qed.

Lemma StronglySorted_rev {A} (R S : A -> A -> Prop) l :
  (forall x y, R x y -> S y x) -> StronglySorted R l -> StronglySorted S (rev l).
Proof.
  intros HRS. induction 1 as [|x l Hs IH Hall]; simpl; [constructor|].
  apply StronglySorted_app_2; [|done|by repeat constructor].
  intros y z Hy Hz. apply list_elem_of_singleton in Hz. subst z.
  apply HRS. rewrite Forall_forall in Hall. apply Hall.
  apply list_elem_of_In. by apply list_elem_of_In, in_rev in Hy.
Qed.

Lemma sort_points_spec pts :
  StronglySorted Z.le (sort_points pts) /\ sort_points pts ≡ₚ pts.
Proof.
  unfold sort_points. destruct (sort_fold_spec pts []) as [H1 H2]; [constructor|].
  split.
  - eapply StronglySorted_rev; [|exact H1]. simpl. lia.
  - rewrite <- H2 at 2. symmetry. apply Permutation_rev.
Qed.

Lemma unique_points_elem prev pts p :
  prev <> Some p -> p ∈ unique_points prev pts <-> p ∈ pts.
Proof.
  revert prev. induction pts as [|x pts IH]; intros prev Hp; simpl; [done|].
  case_bool_decide as Hx.
  - rewrite IH, elem_of_cons by done. split; [auto|]. intros [->|]; congruence.
  - rewrite !elem_of_cons. destruct (decide (p = x)) as [->|]; [tauto|].
    rewrite IH by congruence. done.
Qed.

Lemma unique_points_sub prev pts p : p ∈ unique_points prev pts -> p ∈ pts.
Proof.
  revert prev. induction pts as [|x pts IH]; intros prev; simpl; [done|].
  case_bool_decide; rewrite ?elem_of_cons; [eauto|]. intros [->|]; eauto.
Qed.

Lemma unique_points_length prev pts : (length (unique_points prev pts) <= length pts)%nat.
Proof.
  revert prev. induction pts as [|x pts IH]; intros prev; simpl; [lia|].
  case_bool_decide; simpl; [specialize (IH prev)|specialize (IH (Some x))]; lia.
Qed.

Lemma unique_points_sorted prev pts :
  StronglySorted Z.le pts ->
  (forall q, prev = Some q -> Forall (Z.le q) pts) ->
  StronglySorted Z.lt (unique_points prev pts) /\
  (forall q, prev = Some q -> Forall (Z.lt q) (unique_points prev pts)).
Proof.
  intros Hs. revert prev. induction Hs as [|x pts Hs IH Hall]; intros prev Hprev; simpl.
  { split; [constructor|]. intros. constructor. }
  case_bool_decide as Hx.
  - apply IH. intros q Hq. specialize (Hprev q Hq). by inversion Hprev.
  - destruct (IH (Some x)) as [H1 H2]; [by intros q [= <-]|].
    split; [constructor; auto|].
    intros q Hq. specialize (Hprev q Hq). inversion Hprev as [|? ? Hqx ?]; subst.
    assert (Hlt : q < x) by (destruct (decide (q = x)); [congruence|lia]).
    constructor; [done|]. eapply Forall_impl; [apply (H2 x eq_refl)|]. simpl. lia.
Qed.

Definition norm_points (ins : list MemMapInput) : list Z :=
  unique_points None (sort_points (collect_points ins)).

Lemma norm_points_sorted ins : StronglySorted Z.lt (norm_points ins).
Proof.
  destruct (sort_points_spec (collect_points ins)) as [Hs _].
  by apply (unique_points_sorted None) in Hs as [? _].
Qed.

Lemma norm_points_elem ins p :
  p ∈ norm_points ins <->
  exists i b e, i ∈ ins /\ memMapRoundInput i = Some (b, e) /\ (p = b \/ p = e).
Proof.
  unfold norm_points. rewrite unique_points_elem by done.
  destruct (sort_points_spec (collect_points ins)) as [_ ->]. apply collect_points_spec.
Qed.

Lemma norm_points_length ins : (length (norm_points ins) <= 2 * length ins)%nat.
Proof.
  unfold norm_points. etransitivity; [apply unique_points_length|].
  destruct (sort_points_spec (collect_points ins)) as [_ ->]. apply collect_points_length.
Qed.

(** ** One segment *)

(** The input spans the whole segment. *)
Definition spans (i : MemMapInput) (p q : Z) : Prop :=
  exists b e, memMapRoundInput i = Some (b, e) /\ b <= p /\ q <= e.

(** Between two consecutive points an input covers all or nothing. *)
Lemma spans_covers ins pre p q post i a :
  norm_points ins = pre ++ p :: q :: post -> i ∈ ins -> p <= a < q ->
  rounds_over i a <-> spans i p q.
Proof.
  intros Hpts Hi Ha. split.
  - intros (b & e & Hr & Hbe). exists b, e. split; [done|].
    assert (Hnot : forall x, x ∈ norm_points ins -> x <= p \/ q <= x).
    { intros x Hx. pose proof (norm_points_sorted ins) as Hs. rewrite Hpts in Hs, Hx.
      apply StronglySorted_app in Hs as (Hlt & _ & Hs).
      inversion Hs as [|? ? Hs' Hp]; subst. inversion Hs' as [|? ? _ Hq]; subst.
      rewrite Forall_forall in Hq.
      apply elem_of_app in Hx as [Hx|Hx].
      - specialize (Hlt x p Hx). left. apply Z.lt_le_incl, Hlt. constructor.
      - apply elem_of_cons in Hx as [->|Hx]; [lia|].
        apply elem_of_cons in Hx as [->|Hx]; [lia|].
        right. apply Z.lt_le_incl, Hq, Hx. }
    destruct (Hnot b) as [|]; [apply norm_points_elem; eauto 10| |lia].
    destruct (Hnot e) as [|]; [apply norm_points_elem; eauto 10|lia|lia].
  - intros (b & e & Hr & ? & ?). exists b, e. split; [done|lia].
Qed.

Lemma best_input_spec ins p q rank type :
  best_input ins p q = (rank, type) ->
  (rank = -1 /\ forall i, i ∈ ins -> spans i p q -> memMapRank (in_type i) < 0) \/
  (0 <= rank /\ rank = memMapRank type /\
   (exists i, i ∈ ins /\ spans i p q /\ in_type i = type) /\
   (forall i, i ∈ ins -> spans i p q -> memMapRank (in_type i) <= rank)).
Proof.
  revert rank type. unfold best_input. induction ins as [|i ins IH] using rev_ind; intros rank type.
  { intros [= <- <-]. left. split; [done|]. by intros ? ?%not_elem_of_nil. }
  rewrite fold_left_app. simpl.
  set (acc := fold_left _ ins (-1, 0)) in *. clearbody acc.
  destruct acc as [r0 t0]. specialize (IH r0 t0 eq_refl).
  assert (Hskip : forall r t, (r0, t0) = (r, t) -> (spans i p q -> memMapRank (in_type i) <= r0) ->
    (r = -1 /\ forall j, j ∈ ins ++ [i] -> spans j p q -> memMapRank (in_type j) < 0) \/
    (0 <= r /\ r = memMapRank t /\ (exists j, j ∈ ins ++ [i] /\ spans j p q /\ in_type j = t) /\
     (forall j, j ∈ ins ++ [i] -> spans j p q -> memMapRank (in_type j) <= r))).
  { intros r t [= <- <-] Hi. destruct IH as [(-> & H)|(H0 & H1 & (j & Hj & H2) & H3)].
    - left. split; [done|]. intros j [Hj| ->]%elem_of_snoc Hs; [eauto|].
      specialize (Hi Hs). lia.
    - right. split_and!; [done|done| |].
      + exists j. rewrite elem_of_snoc. auto.
      + intros k [Hk| ->]%elem_of_snoc Hs; eauto. }
  destruct (memMapRoundInput i) as [[b e]|] eqn:Er.
  2: { intros Heq. apply (Hskip _ _ Heq). intros (?&?&?&_). congruence. }
  destruct ((b <=? p) && (q <=? e)) eqn:Ec.
  2: { intros Heq. apply (Hskip _ _ Heq). intros (b'&e'&Hr&Hb&He).
       rewrite Er in Hr. injection Hr as <- <-.
       rewrite (proj2 (Z.leb_le b p)), (proj2 (Z.leb_le q e)) in Ec by lia. done. }
  destruct (memMapRank (in_type i) >? r0) eqn:Eg; bprop.
  2: { intros Heq. apply (Hskip _ _ Heq). lia. }
  intros [= <- <-]. right.
  assert (Hr0 : -1 <= r0) by (destruct IH as [[-> _]|[? _]]; lia).
  split_and!; [lia|done| |].
  - exists i. rewrite elem_of_snoc. split_and!; [auto| |done].
    exists b, e. auto.
  - intros j [Hj| ->]%elem_of_snoc Hs; [|lia].
    destruct IH as [(-> & Hmax)|(_ & _ & _ & Hmax)]; specialize (Hmax j Hj Hs); lia.
Qed.

Lemma sweep_step ins cap p q pts rout :
  sweep ins cap (p :: q :: pts) rout =
  let '(rank, type) := best_input ins p q in
  match emit rout cap rank type p q with
  | (BOOT_OK, rout) => sweep ins cap (q :: pts) rout
  | err => err
  end.
Proof. reflexivity. Qed.

(** ** The sweep invariant *)

(** [t] is the type the map must report at [a]. *)
Definition top_claim (ins : list MemMapInput) (a t : Z) : Prop :=
  claims ins a t /\ forall t', claims ins a t' -> memMapRank t' <= memMapRank t.

Definition reports (rs : list BootMemRegion) (a t : Z) : Prop :=
  exists r, r ∈ rs /\ covers r a /\ mr_type r = t.

(** The reversed output [rout] is right for every address below [p]. *)
Record sweep_inv (ins : list MemMapInput) (rout : list BootMemRegion) (p : Z) : Prop := {
  si_ok : Forall region_ok rout;
  si_sorted : Sorted (fun s r => follows r s) rout;
  si_end : forall r, r ∈ rout -> mr_base r + mr_length r <= p;
  si_exact : forall a t, a < p -> reports rout a t <-> top_claim ins a t }.

Section Sweep.
Context (ins : list MemMapInput) (Hins : Forall input_ok ins).

Lemma norm_point_ok p : p ∈ norm_points ins -> 0 <= p < 2 ^ 64 /\ p mod MEM_MAP_PAGE_SIZE = 0.
Proof.
  rewrite norm_points_elem. intros (i & b & e & Hi & Hr & Hp).
  rewrite Forall_forall in Hins. apply round_input_spec in Hr as (?&?&?&?&?&_).
  - destruct Hp as [-> | ->]; (split; [lia|done]).
  - by apply Hins.
Qed.

Lemma segment_top pre p q post rank type a t :
  norm_points ins = pre ++ p :: q :: post -> best_input ins p q = (rank, type) -> p <= a < q ->
  (rank < 0 -> ~ top_claim ins a t) /\ (0 <= rank -> top_claim ins a t <-> t = type).
Proof.
  intros Hpts Hbest Ha.
  assert (Hsp : forall i, i ∈ ins -> rounds_over i a <-> spans i p q)
    by (intros; by eapply spans_covers).
  apply best_input_spec in Hbest as [(-> & Hnone)|(Hr & -> & (i & Hi & Hs & <-) & Hmax)].
  - split; [|lia]. intros _ [(i & Hi & <- & H0 & Ho) _]. apply Hsp in Ho; [|done].
    specialize (Hnone i Hi Ho). lia.
  - split; [lia|]. intros _.
    assert (Hcl : claims ins a (in_type i)) by (exists i; rewrite Hsp by done; auto).
    assert (Hle : forall t', claims ins a t' -> memMapRank t' <= memMapRank (in_type i)).
    { intros t' (j & Hj & <- & _ & Ho). apply Hmax, Hsp; auto. }
    split; [|intros ->; by split]. intros [Hc Ht].
    specialize (Hle t Hc). specialize (Ht _ Hcl).
    symmetry. apply rank_inj; lia.
Qed.

Lemma mod_sub_page x y :
  x mod MEM_MAP_PAGE_SIZE = 0 -> y mod MEM_MAP_PAGE_SIZE = 0 -> (x - y) mod MEM_MAP_PAGE_SIZE = 0.
Proof. intros Hx Hy. by rewrite Zminus_mod, Hx, Hy. Qed.

Lemma mod_add_page x y :
  x mod MEM_MAP_PAGE_SIZE = 0 -> y mod MEM_MAP_PAGE_SIZE = 0 -> (x + y) mod MEM_MAP_PAGE_SIZE = 0.
Proof. intros Hx Hy. by rewrite Zplus_mod, Hx, Hy. Qed.

(** Extending the output by one segment, as a new region or by coalescing. *)
Lemma sweep_inv_extend rout' rout p q type :
  sweep_inv ins rout p -> p < q ->
  (forall a t, p <= a < q -> top_claim ins a t <-> t = type) ->
  Forall region_ok rout' -> Sorted (fun s r => follows r s) rout' ->
  (forall r, r ∈ rout' -> mr_base r + mr_length r <= q) ->
  (forall a t, a < p -> reports rout' a t <-> reports rout a t) ->
  (forall a t, p <= a < q -> reports rout' a t <-> t = type) ->
  sweep_inv ins rout' q.
Proof.
  intros [_ _ _ Hex] Hlt Htop Hok Hs He Hlow Hhigh. split; [done..|].
  intros a t Ha. destruct (Z.lt_ge_cases a p).
  - rewrite Hlow by done. by apply Hex.
  - rewrite Hhigh, Htop by lia. done.
Qed.

Lemma append_inv rout p q type :
  let new := {| mr_base := p; mr_length := q - p; mr_type := type; mr_reserved := 0 |} in
  sweep_inv ins rout p -> region_ok new ->
  (forall a t, p <= a < q -> top_claim ins a t <-> t = type) ->
  (match rout with [] => True | r :: _ => follows r new end) ->
  sweep_inv ins (new :: rout) q.
Proof.
  intros new Hinv Hnew Htop Hf. pose proof Hinv as [Hok Hs Hend Hex].
  pose proof (ro_len _ Hnew) as Hlen. simpl in Hlen.
  apply (sweep_inv_extend _ rout p q type); try done; [lia|by constructor|..].
  - constructor; [done|]. destruct rout; constructor. apply Hf.
  - intros r [-> | Hr]%elem_of_cons; [simpl; lia|]. specialize (Hend r Hr). lia.
  - intros a t Ha. unfold reports. setoid_rewrite elem_of_cons. split.
    + intros (r & [-> | Hr] & Hc & Ht); [unfold covers in Hc; simpl in Hc; lia|eauto].
    + intros (r & Hr & Hc & Ht). eauto.
  - intros a t Ha. unfold reports. setoid_rewrite elem_of_cons. split.
    + intros (r & [-> | Hr] & Hc & <-); [done|].
      specialize (Hend r Hr). unfold covers in Hc. lia.
    + intros ->. exists new. split_and!; [auto| |done]. unfold covers. simpl. lia.
Qed.

Lemma coalesce_inv last rout p q :
  let r' := {| mr_base := mr_base last; mr_length := mr_length last + (q - p);
               mr_type := mr_type last; mr_reserved := mr_reserved last |} in
  sweep_inv ins (last :: rout) p -> p < q -> mr_base last + mr_length last = p ->
  region_ok r' -> (forall a t, p <= a < q -> top_claim ins a t <-> t = mr_type last) ->
  sweep_inv ins (r' :: rout) q.
Proof.
  intros r' Hinv Hlt Htouch Hr' Htop. pose proof Hinv as [Hok Hs Hend Hex].
  assert (Hend0 : forall r, r ∈ rout -> mr_base r + mr_length r <= p).
  { intros r Hr. apply Hend. rewrite elem_of_cons. auto. }
  inversion Hok as [|? ? Hlast Hok0]; subst. pose proof (ro_len _ Hlast).
  apply (sweep_inv_extend _ (last :: rout) (mr_base last + mr_length last) q (mr_type last));
    try done; [by constructor|..].
  - inversion Hs as [|? ? Hs0 Hh]; subst. constructor; [done|].
    destruct Hh as [|b l Hb]; constructor. exact Hb.
  - intros r [-> | Hr]%elem_of_cons; [simpl; lia|]. specialize (Hend0 r Hr). lia.
  - intros a t Ha. unfold reports. setoid_rewrite elem_of_cons. split.
    + intros (r & [-> | Hr] & Hc & Ht); [|eauto].
      exists last. split_and!; [auto| |done]. unfold covers in *. simpl in *. lia.
    + intros (r & [-> | Hr] & Hc & Ht); [|eauto].
      exists r'. split_and!; [auto| |done]. unfold covers in *. simpl. lia.
  - intros a t Ha. unfold reports. setoid_rewrite elem_of_cons. split.
    + intros (r & [-> | Hr] & Hc & <-); [done|].
      specialize (Hend0 r Hr). unfold covers in Hc. lia.
    + intros ->. exists r'. split_and!; [auto| |done]. unfold covers. simpl. lia.
Qed.

Lemma hole_inv rout p q :
  sweep_inv ins rout p -> p < q -> (forall a t, p <= a < q -> ~ top_claim ins a t) ->
  sweep_inv ins rout q.
Proof.
  intros [Hok Hs Hend Hex] Hlt Hno. split; [done..| |].
  - intros r Hr. specialize (Hend r Hr). lia.
  - intros a t Ha. destruct (Z.lt_ge_cases a p); [by apply Hex|].
    split; [|by intros ?%Hno].
    intros (r & Hr & Hc & _). specialize (Hend r Hr). unfold covers in Hc. lia.
Qed.

Lemma points_step pre p q post :
  norm_points ins = pre ++ p :: q :: post ->
  0 <= p < q /\ q < 2 ^ 64 /\ p mod MEM_MAP_PAGE_SIZE = 0 /\ q mod MEM_MAP_PAGE_SIZE = 0.
Proof.
  intros Hpts. pose proof (norm_points_sorted ins) as Hs. rewrite Hpts in Hs.
  apply StronglySorted_app in Hs as (_ & _ & Hs). inversion Hs as [|? ? _ Hf]; subst.
  inversion Hf; subst.
  destruct (norm_point_ok p) as [? ?]; [rewrite Hpts, elem_of_app, !elem_of_cons; auto|].
  destruct (norm_point_ok q) as [? ?]; [rewrite Hpts, elem_of_app, !elem_of_cons; auto|].
  split_and!; try done; lia.
Qed.

Lemma emit_inv pre p q post rank type cap rout rout' :
  norm_points ins = pre ++ p :: q :: post -> best_input ins p q = (rank, type) ->
  sweep_inv ins rout p -> emit rout cap rank type p q = (BOOT_OK, rout') ->
  sweep_inv ins rout' q.
Proof.
  intros Hpts Hbest Hinv Hemit.
  destruct (points_step pre p q post Hpts) as (Hp & Hq & Hpa & Hqa).
  pose proof (fun a t => segment_top pre p q post rank type a t Hpts Hbest) as Htop.
  unfold emit in Hemit. rewrite (u64_small (q - p)) in Hemit by (words; lia).
  destruct (rank <? 0) eqn:Er; bprop.
  { injection Hemit as <-. apply (hole_inv rout p q); [done|lia|]. intros. by apply Htop. }
  assert (Hnew : region_ok {| mr_base := p; mr_length := q - p; mr_type := type; mr_reserved := 0 |}).
  { apply best_input_spec in Hbest as [[-> _]|(? & Hrk & _)]; [lia|].
    split; simpl; [lia..|done|by apply mod_sub_page|lia|done]. }
  assert (Htop' : forall a t, p <= a < q -> top_claim ins a t <-> t = type)
    by (intros a t Ha; by apply Htop).
  destruct rout as [|last rout0].
  { destruct (cap <=? _); [done|]. injection Hemit as <-. by apply append_inv. }
  pose proof Hinv as [Hok _ Hend _]. inversion Hok as [|? ? Hlast _]; subst.
  destruct Hlast as [L1 L2 L3 L4 L5 L6 L7].
  assert (Hle : mr_base last + mr_length last <= p) by (apply Hend; constructor).
  rewrite (u64_small (mr_base last + mr_length last)) in Hemit by (words; lia).
  destruct ((mr_type last =? type) && _) eqn:Ec.
  - bprop. rewrite u64_small in Hemit by (words; lia). injection Hemit as <-.
    subst type. apply (coalesce_inv last rout0 p q); try done; [lia|].
    split; simpl; [lia..|done| |done|done]. apply mod_add_page; [done|by apply mod_sub_page].
  - destruct (cap <=? _); [done|]. injection Hemit as <-. apply append_inv; try done.
    split; [done|]. simpl. intros Heq Hty. by rewrite Hty, Heq, !Z.eqb_refl in Ec.
Qed.

Lemma sweep_final rest pre p rout cap rout' :
  norm_points ins = pre ++ p :: rest -> sweep_inv ins rout p ->
  sweep ins cap (p :: rest) rout = (BOOT_OK, rout') ->
  exists z, z ∈ norm_points ins /\ Forall (fun x => x <= z) (norm_points ins) /\
    sweep_inv ins rout' z.
Proof.
  revert pre p rout. induction rest as [|q rest IH]; intros pre p rout Hpts Hinv Hsw.
  - injection Hsw as <-. exists p. split_and!; [rewrite Hpts, elem_of_snoc; auto| |done].
    pose proof (norm_points_sorted ins) as Hs. rewrite Hpts in *.
    apply StronglySorted_app in Hs as (Hlt & _). apply Forall_app. split.
    + apply Forall_forall. intros x Hx.
      apply Z.lt_le_incl, Hlt; [done|constructor].
    + by repeat constructor.
  - rewrite sweep_step in Hsw. destruct (best_input ins p q) as [rank type] eqn:Eb.
    destruct (emit rout cap rank type p q) as [st rout1] eqn:Ee.
    destruct st; try discriminate.
    apply (IH (pre ++ [p]) q rout1); [by rewrite <- app_assoc| |done].
    by eapply emit_inv.
Qed.

Lemma no_claim_outside a t :
  (forall x, x ∈ norm_points ins -> a < x) \/ (forall x, x ∈ norm_points ins -> x <= a) ->
  ~ top_claim ins a t.
Proof.
  intros Hout [(i & Hi & _ & _ & b & e & Hr & Ha) _].
  assert (Hb : b ∈ norm_points ins) by (apply norm_points_elem; eauto 10).
  assert (He : e ∈ norm_points ins) by (apply norm_points_elem; eauto 10).
  destruct Hout as [H|H]; [specialize (H b Hb)|specialize (H e He)]; lia.
Qed.

Lemma sweep_all cap rout :
  sweep ins cap (norm_points ins) [] = (BOOT_OK, rout) ->
  Forall region_ok rout /\ Sorted (fun s r => follows r s) rout /\
  forall a t, reports rout a t <-> top_claim ins a t.
Proof.
  destruct (norm_points ins) as [|p rest] eqn:Hpts.
  { intros [= <-]. split_and!; [constructor..|]. intros a t. split.
    - by intros (r & ?%not_elem_of_nil & _).
    - intros Ht. exfalso. revert Ht. apply no_claim_outside. left.
      rewrite Hpts. by intros x ?%not_elem_of_nil. }
  intros Hsw. destruct (sweep_final rest [] p [] cap rout) as (z & Hz & Hmax & [Hok Hs He Hex]).
  - done.
  - split; [constructor..| |].
    + by intros r ?%not_elem_of_nil.
    + intros a t Ha. split; [by intros (r & ?%not_elem_of_nil & _)|].
      intros Ht. exfalso. revert Ht. apply no_claim_outside. left. intros x Hx.
      pose proof (norm_points_sorted ins) as Hs. rewrite Hpts in Hs, Hx.
      inversion Hs as [|? ? _ Hf]; subst. apply elem_of_cons in Hx as [-> | Hx]; [done|].
      rewrite Forall_forall in Hf. specialize (Hf x Hx). lia.
  - done.
  - split_and!; [done..|]. intros a t. destruct (Z.lt_ge_cases a z); [by apply Hex|].
    split.
    + intros (r & Hr & Hc & _). specialize (He r Hr). unfold covers in Hc. lia.
    + intros Ht. exfalso. revert Ht. apply no_claim_outside. right. intros x Hx.
      rewrite Forall_forall in Hmax. specialize (Hmax x Hx). lia.
Qed.

Lemma Sorted_rev {A} (R : A -> A -> Prop) l :
  Sorted (fun x y => R y x) l -> Sorted R (rev l).
Proof.
  induction 1 as [|x l Hs IH Hh]; simpl; [constructor|].
  destruct l as [|y l]; simpl in *; [by repeat constructor|].
  inversion Hh; subst. clear Hh Hs. revert IH.
  induction (rev l) as [|z k IHk]; simpl; intros IH.
  - repeat constructor. done.
  - inversion IH as [|? ? Hs Hh]; subst. constructor; [by apply IHk|].
    destruct k; simpl in *; inversion Hh; subst; by constructor.
Qed.

Lemma reports_rev rs a t : reports (rev rs) a t <-> reports rs a t.
Proof.
  unfold reports. setoid_rewrite list_elem_of_In. by setoid_rewrite <- in_rev.
Qed.

Lemma normalize_spec cap out :
  memMapNormalize ins cap = (BOOT_OK, out) ->
  Forall region_ok out /\ Sorted follows out /\
  forall a t, reports out a t <-> top_claim ins a t.
Proof.
  unfold memMapNormalize. fold (norm_points ins).
  destruct (sweep ins cap (norm_points ins) []) as [st rout] eqn:Es. intros [= -> <-].
  apply sweep_all in Es as (Hok & Hs & Hex). split_and!.
  - by apply Forall_rev.
  - by apply Sorted_rev.
  - intros a t. by rewrite reports_rev.
Qed.
End Sweep.

(** ** Capacity *)

Lemma emit_status rout cap rank type p q :
  match emit rout cap rank type p q with
  | (BOOT_OK, rout') => zlen rout' <= zlen rout + 1 /\ (zlen rout <= cap -> zlen rout' <= cap)
  | (BOOT_ERR_MEMMAP_CAPACITY, rout') => rout' = rout /\ cap <= zlen rout
  | _ => False
  end.
Proof.
  unfold emit. destruct (rank <? 0); [cbv iota beta; lia|].
  destruct rout as [|last r]; [|destruct (_ && _)];
    try (cbv iota beta; rewrite !zlen_cons; lia);
    destruct (cap <=? _) eqn:E; bprop; cbv iota beta; rewrite ?zlen_cons in *; split; (done || lia).
Qed.

Lemma sweep_status ins cap pts rout :
  zlen rout <= cap ->
  match sweep ins cap pts rout with
  | (BOOT_OK, rout') => zlen rout' <= cap
  | (BOOT_ERR_MEMMAP_CAPACITY, rout') => zlen rout' = cap /\ cap < zlen rout + zlen pts - 1
  | _ => False
  end.
Proof.
  revert rout. induction pts as [|p pts IH]; intros rout Hcap; [exact Hcap|].
  destruct pts as [|q pts]; [exact Hcap|].
  rewrite sweep_step. destruct (best_input ins p q) as [rank type].
  pose proof (emit_status rout cap rank type p q) as Hst.
  destruct (emit rout cap rank type p q) as [st rout1]. destruct st; try done.
  - destruct Hst as [H1 H2]. specialize (IH rout1 (H2 Hcap)).
    destruct (sweep ins cap (q :: pts) rout1) as [st rout2]. destruct st; try done.
    rewrite !zlen_cons in *. lia.
  - destruct Hst as [-> Hfull]. rewrite !zlen_cons. pose proof (zlen_nonneg pts). lia.
Qed.

Lemma normalize_status ins cap :
  0 <= cap ->
  match memMapNormalize ins cap with
  | (BOOT_OK, out) => zlen out <= cap
  | (BOOT_ERR_MEMMAP_CAPACITY, out) => zlen out = cap /\ cap < 2 * zlen ins - 1
  | _ => False
  end.
Proof.
  intros Hcap. unfold memMapNormalize. fold (norm_points ins).
  pose proof (sweep_status ins cap (norm_points ins) [] ltac:(done)) as H.
  destruct (sweep ins cap (norm_points ins) []) as [st rout].
  pose proof (norm_points_length ins). unfold zlen in *. rewrite length_rev.
  destruct st; try done; simpl in *; lia.
Qed.

(** ** Properties *)

Lemma raw_covered i a :
  input_ok i -> in_type i <> BOOT_MEM_USABLE ->
  in_base i <= a < in_base i + in_length i ->
  in_base i + in_length i + (MEM_MAP_PAGE_SIZE - 1) < 2 ^ 64 -> rounds_over i a.
Proof.
  intros Hok Hty Ha Hw. pose proof Hok as (Hb & Hl & _).
  assert (Hs : is_u64 (in_base i + in_length i)) by (words; rewrite page_pow in Hw; lia).
  destruct (bootAlignUp_spec 12 ltac:(lia) _ Hs Hw) as [_ Hup].
  destruct (bootAlignDown_spec 12 ltac:(lia) _ Hb) as [_ Hdn].
  destruct (memMapRoundInput i) as [[b e]|] eqn:Er.
  { exists b, e. split; [done|].
    apply round_input_spec in Er as (_&_&_&_&_&_&_&H); [|done]. specialize (H Hty). lia. }
  exfalso. revert Er. unfold memMapRoundInput. rewrite page_pow in *.
  rewrite (proj2 (Z.eqb_neq (in_length i) 0)) by lia.
  rewrite (u64_small _ Hs), (proj2 (Z.ltb_ge _ (in_base i))) by (words; lia).
  rewrite (proj2 (Z.eqb_neq _ _) Hty).
  rewrite (proj2 (Z.ltb_ge _ (in_base i + in_length i))) by lia.
  rewrite (proj2 (Z.leb_gt _ _)) by lia. discriminate.
Qed.

Lemma rounds_over_usable i a :
  input_ok i -> in_type i = BOOT_MEM_USABLE -> rounds_over i a ->
  in_base i <= a < in_base i + in_length i.
Proof.
  intros Hok Hty (b & e & Hr & Ha).
  apply round_input_spec in Hr as (_&_&_&_&_&_&H&_); [|done]. specialize (H Hty). lia.
Qed.

(** A small firmware map: low RAM with an EBDA reservation over its end, and RAM
    above 1 MiB that holds the kernel image. *)
Definition sample_map : list MemMapInput :=
  [ {| in_base := 0; in_length := 0xA0000; in_type := BOOT_MEM_USABLE |};
    {| in_base := 0x9FC00; in_length := 0x400; in_type := BOOT_MEM_RESERVED |};
    {| in_base := 0x100000; in_length := 0x100000; in_type := BOOT_MEM_USABLE |};
    {| in_base := 0x100000; in_length := 0x2000; in_type := BOOT_MEM_KERNEL |} ].

Definition sample_out : list BootMemRegion :=
  [ {| mr_base := 0; mr_length := 0x9F000; mr_type := BOOT_MEM_USABLE; mr_reserved := 0 |};
    {| mr_base := 0x9F000; mr_length := 0x1000; mr_type := BOOT_MEM_RESERVED; mr_reserved := 0 |};
    {| mr_base := 0x100000; mr_length := 0x2000; mr_type := BOOT_MEM_KERNEL; mr_reserved := 0 |};
    {| mr_base := 0x102000; mr_length := 0xFE000; mr_type := BOOT_MEM_USABLE; mr_reserved := 0 |} ].

Lemma sample_map_ok : Forall input_ok sample_map.
Proof.
  unfold sample_map. memtypes.
  repeat (constructor; [unfold input_ok; simpl; words; lia|]). constructor.
Qed.

Lemma sample_map_run : memMapNormalize sample_map 8 = (BOOT_OK, sample_out).
Proof. vm_compute. reflexivity. Qed.

(** C4: A successful normalization is a well-formed map (positive, page-aligned,
    in-range regions of known type; in order, disjoint, touching neighbours of
    different type), and at every address it reports exactly the type of highest
    rank among the rounded inputs that claim it, and nothing at an address no
    known-type input claims. *)
Theorem memMapNormalize_exact ins cap out :
  Forall input_ok ins -> memMapNormalize ins cap = (BOOT_OK, out) ->
  Forall region_ok out /\ Sorted follows out /\
  forall a t, reports out a t <->
    claims ins a t /\ forall t', claims ins a t' -> memMapRank t' <= memMapRank t.
Proof. intros Hins. by apply normalize_spec. Qed.

Lemma memMapNormalize_exact_witness :
  reports sample_out 0x9F800 BOOT_MEM_RESERVED /\
  claims sample_map 0x9F800 BOOT_MEM_RESERVED.
Proof.
  destruct (memMapNormalize_exact sample_map 8 sample_out sample_map_ok sample_map_run)
    as (_ & _ & Hex).
  assert (Hr : reports sample_out 0x9F800 BOOT_MEM_RESERVED).
  { eexists. split; [right; left|]. unfold covers; simpl. split; [lia|reflexivity]. }
  split; [exact Hr|]. apply Hex in Hr. apply Hr.
Defined.

(** Memory reported USABLE is really usable: the address lies in the raw
    range of some USABLE input, and in the raw range of no input of another known
    type (an input whose rounded end does not fit in 64 bits excepted). *)
Theorem memMapNormalize_usable_safe ins cap out a :
  Forall input_ok ins -> memMapNormalize ins cap = (BOOT_OK, out) ->
  reports out a BOOT_MEM_USABLE ->
  (exists i, i ∈ ins /\ in_type i = BOOT_MEM_USABLE /\
             in_base i <= a < in_base i + in_length i) /\
  (forall i, i ∈ ins -> in_type i <> BOOT_MEM_USABLE -> 0 <= memMapRank (in_type i) ->
     in_base i + in_length i + (MEM_MAP_PAGE_SIZE - 1) < 2 ^ 64 ->
     ~ in_base i <= a < in_base i + in_length i).
Proof.
  intros Hins Hrun Hrep. pose proof Hins as Hall. rewrite Forall_forall in Hall.
  apply normalize_spec in Hrun as (_ & _ & Hex); [|done]. apply Hex in Hrep as [Hcl Hmax].
  split.
  - destruct Hcl as (i & Hi & Hty & _ & Ho). exists i. split_and!; [done..| |];
      apply (rounds_over_usable i a); auto.
  - intros i Hi Hty Hrk Hw Ha.
    assert (Hc : claims ins a (in_type i)) 
      by (exists i; split_and!; auto using raw_covered).
    specialize (Hmax _ Hc). change (memMapRank BOOT_MEM_USABLE) with 0 in Hmax.
    apply Hty, rank_inj; [done|]. change (memMapRank BOOT_MEM_USABLE) with 0. lia.
Qed.

Lemma memMapNormalize_usable_safe_witness :
  ~ 0x9FC00 <= 0x9E000 < 0x9FC00 + 0x400.
Proof.
  destruct (memMapNormalize_usable_safe sample_map 8 sample_out 0x9E000 sample_map_ok
              sample_map_run) as [_ H].
  - eexists. split; [left|]. unfold covers; simpl. split; [lia|reflexivity].
  - apply (H {| in_base := 0x9FC00; in_length := 0x400; in_type := BOOT_MEM_RESERVED |});
      [right; left|discriminate|vm_compute; discriminate|vm_compute; reflexivity].
Defined.

(** The only failure is running out of output slots: it happens only with the
    output array completely full, never when the array has room for
    [2 * nIn - 1] regions, and a successful run never exceeds the capacity. *)
Theorem memMapNormalize_capacity ins cap :
  0 <= cap ->
  match memMapNormalize ins cap with
  | (BOOT_OK, out) => zlen out <= cap
  | (BOOT_ERR_MEMMAP_CAPACITY, out) => zlen out = cap /\ cap < 2 * zlen ins - 1
  | _ => False
  end.
Proof. apply normalize_status. Qed.

Lemma memMapNormalize_capacity_witness :
  zlen (snd (memMapNormalize sample_map 2)) = 2 /\
  fst (memMapNormalize sample_map 2) = BOOT_ERR_MEMMAP_CAPACITY.
Proof.
  pose proof (memMapNormalize_capacity sample_map 2 ltac:(lia)) as H.
  assert (E : memMapNormalize sample_map 2 = (BOOT_ERR_MEMMAP_CAPACITY, take 2 sample_out))
    by (vm_compute; reflexivity).
  rewrite E in H |- *. split; [apply H|reflexivity].
Defined.

(** The overlay check accepts a non-empty range exactly when it does not wrap
    and lies inside one loader-owned firmware descriptor (EfiLoaderCode or
    EfiLoaderData) that does not wrap either. *)
Theorem memMapCheckOverlay_iff base length regions :
  is_u64 base -> is_u64 length -> 0 < length -> Forall input_ok regions ->
  memMapCheckOverlay base length regions = BOOT_OK <->
  base + length < 2 ^ 64 /\
  exists r, r ∈ regions /\ (in_type r = 1 \/ in_type r = 2) /\
    in_base r + in_length r < 2 ^ 64 /\
    in_base r <= base /\ base + length <= in_base r + in_length r.
Proof.
  intros Hb Hl Hpos Hreg. unfold memMapCheckOverlay.
  rewrite (proj2 (Z.eqb_neq length 0)), u64_add_overflow by (done || lia).
  destruct (Z.leb_spec (2 ^ 64) (base + length)) as [Hov|Hno].
  { split; [discriminate|]. lia. }
  rewrite (u64_small (base + length)) by (words; lia).
  rewrite Forall_forall in Hreg.
  destruct (existsb _ regions) eqn:Ex.
  - split; [|done]. intros _. split; [done|].
    apply existsb_exists in Ex as (r & Hr & Hc). apply list_elem_of_In in Hr.
    destruct (Hreg r Hr) as (Hrb & Hrl & _). rewrite u64_add_overflow in Hc by done. bprop.
    rewrite u64_small in * by (words; lia). exists r.
    split_and!; (done || lia).
  - split; [discriminate|]. intros (_ & r & Hr & Hty & Hw & Hlo & Hhi).
    destruct (Hreg r Hr) as (Hrb & Hrl & _).
    exfalso. apply not_true_iff_false in Ex. apply Ex.
    apply existsb_exists. exists r. split; [by apply list_elem_of_In|]. cbv zeta.
    rewrite u64_small by (words; lia).
    rewrite (proj2 (Z.ltb_ge _ (in_base r))), (proj2 (Z.leb_le _ base)),
      (proj2 (Z.leb_le (base + length) _)) by (words; lia).
    destruct Hty as [-> | ->]; reflexivity.
Qed.

Lemma memMapCheckOverlay_iff_witness :
  memMapCheckOverlay 0x2000 0x1000
    [{| in_base := 0x1000; in_length := 0x4000; in_type := 2 |}] = BOOT_OK.
Proof.
  apply memMapCheckOverlay_iff; [words; lia..| |].
  - constructor; [|done]. unfold input_ok; simpl; words; lia.
  - split; [lia|]. eexists. split; [left|]. simpl. lia.
Defined.
