(* ===== verification/BootInfoCheck.v ===== *)
(** * The kernel's BootInfo validation (src/kernel/core/bootinfo.c)

    The kernel trusts nothing it is handed: [bootInfoValidate] checks the header,
    then the memory map, then every reference, before any other code dereferences
    a physical address. Failures carry the source's message. The theorems state
    what acceptance guarantees, that validation reads no byte outside the BootInfo
    page, the map array and the claimed LOADER_RECLAIM regions, and that the map
    the loader builds is always accepted. *)

From stdpp Require Import strings.
From S2P Require Import Prelude BootTypes MemMap.

(** [None] is [STATUS_OK]; [Some why] is [STATUS_ERR_INVALID] with the message. *)
Definition verdict := option string.

Definition status_of (v : verdict) : Status :=
  match v with None => STATUS_OK | Some _ => STATUS_ERR_INVALID end.

(** [if (b) { *why = msg; return STATUS_ERR_INVALID; } k] *)
Notation "'reject' b 'with' msg ';;' k" :=
  (if b then Some msg%string else k) (at level 10, b at level 100, msg at level 0, k at level 200).

(** Models src/kernel/core/bootinfo.c:10-10, BOOTINFO_PAGE_SIZE. *)
Definition BOOTINFO_PAGE_SIZE : Z := 4096.
(** Models src/kernel/core/bootinfo.c:11-11, BOOTINFO_KASLR_ALIGN. *)
Definition BOOTINFO_KASLR_ALIGN : Z := 2 * 1024 * 1024.
(** Models src/kernel/core/bootinfo.c:12-12, BOOTINFO_MEMMAP_MAX. *)
Definition BOOTINFO_MEMMAP_MAX : Z := 8192.
(** Models src/kernel/core/bootinfo.c:15-15, BOOTINFO_KERNEL_WINDOW_SIZE. *)
Definition BOOTINFO_KERNEL_WINDOW_SIZE : Z :=
  BOOTINFO_KERNEL_WINDOW_END - BOOTINFO_KERNEL_WINDOW_BASE.

Section Validate.
(** The linker-provided image bounds. *)
Context (kernelImageStart kernelImageEnd : Z).

(** Models src/kernel/core/bootinfo.c:17-88, bootInfoCheckHeader. *)
Definition bootInfoCheckHeader (bi : BootInfo) : verdict :=
  reject negb (bi_magic bi =? BOOTINFO_MAGIC) with "bad magic" ;;
  reject negb (bi_version bi =? BOOTINFO_VERSION) with "unsupported BootInfo version" ;;
  reject negb (bi_size bi =? sizeof_BootInfo)
    with "BootInfo.size does not match sizeof(BootInfo)" ;;
  reject negb (bi_bootMethod bi =? BOOT_METHOD_UEFI) && negb (bi_bootMethod bi =? BOOT_METHOD_BIOS)
    with "unknown bootMethod" ;;
  reject negb (bi_hhdmBase bi =? BOOTINFO_HHDM_BASE)
    with "hhdmBase does not match BOOTINFO_HHDM_BASE" ;;
  reject negb (bi_kaslrSlide bi mod BOOTINFO_KASLR_ALIGN =? 0)
    with "kaslrSlide is not 2 MiB aligned" ;;
  reject bi_kernelSize bi >? BOOTINFO_KERNEL_WINDOW_SIZE
    with "kernel image exceeds the kernel window (kernelSize too large)" ;;
  let needed := ((bi_kernelSize bi +! BOOTINFO_KASLR_ALIGN) -! 1)
                  .& not64 (BOOTINFO_KASLR_ALIGN - 1) in
  reject bi_kaslrSlide bi >? (BOOTINFO_KERNEL_WINDOW_SIZE -! needed)
    with "kernel image exceeds the kernel window (kaslrSlide too large)" ;;
  reject negb (bi_kernelVirtBase bi =? kernelImageStart)
    with "kernelVirtBase does not match kernelImageStart" ;;
  reject negb ((bi_kernelVirtBase bi -! bi_kaslrSlide bi) =? BOOTINFO_KERNEL_WINDOW_BASE)
    with "kernelVirtBase - kaslrSlide does not match the kernel link base" ;;
  let expectedSize := kernelImageEnd -! kernelImageStart in
  reject negb (bi_kernelSize bi =? expectedSize)
    with "kernelSize does not match the linked image size" ;;
  reject negb (bi_kernelPhysBase bi mod BOOTINFO_PAGE_SIZE =? 0)
    with "kernelPhysBase is not 4 KiB aligned" ;;
  reject (bi_memMapCount bi <? 1) || (bi_memMapCount bi >? BOOTINFO_MEMMAP_MAX)
    with "memMapCount is out of range" ;;
  reject negb (bi_memMapPhys bi mod 8 =? 0) with "memMapPhys is not 8-byte aligned" ;;
  let mapBytes := bi_memMapCount bi *! sizeof_BootMemRegion in
  reject (bi_memMapPhys bi >? BOOTINFO_HHDM_SIZE)
         || (mapBytes >? (BOOTINFO_HHDM_SIZE -! bi_memMapPhys bi))
    with "memory map array does not fit inside the HHDM window" ;;
  None.

(** Models src/kernel/core/bootinfo.c:91-121, bootMemMapCheck (the loop body; [prev] is
    the region before, if any). *)
Definition check_region (prev : option BootMemRegion) (r : BootMemRegion) : verdict :=
  reject mr_length r =? 0 with "a memory region has zero length" ;;
  reject negb (mr_base r mod BOOTINFO_PAGE_SIZE =? 0)
         || negb (mr_length r mod BOOTINFO_PAGE_SIZE =? 0)
    with "a memory region is not 4 KiB aligned" ;;
  let e := mr_base r +! mr_length r in
  reject e <? mr_base r with "a memory region overflows" ;;
  reject (mr_type r <? BOOT_MEM_USABLE) || (mr_type r >? BOOT_MEM_FRAMEBUFFER)
    with "a memory region has an unknown type" ;;
  reject negb (mr_reserved r =? 0) with "a memory region's reserved field is nonzero" ;;
  match prev with
  | Some p =>
      reject mr_base r <? (mr_base p +! mr_length p)
        with "the memory map is not sorted and non-overlapping" ;;
      None
  | None => None
  end.

(** Models src/kernel/core/bootinfo.c:90-123, bootMemMapCheck. *)
Fixpoint mem_map_check (prev : option BootMemRegion) (regions : list BootMemRegion) : verdict :=
  match regions with
  | [] => None
  | r :: rest =>
      match check_region prev r with
      | None => mem_map_check (Some r) rest
      | err => err
      end
  end.

(** Models src/kernel/core/bootinfo.c:90-123, bootMemMapCheck. *)
Definition bootMemMapCheck (regions : list BootMemRegion) : verdict := mem_map_check None regions.

(** Models src/kernel/core/bootinfo.c:127-146, bootRangeInsideType. *)
Definition bootRangeInsideType (regions : list BootMemRegion) (base length type : Z) : bool :=
  if length =? 0 then true else
  let e := base +! length in
  if e <? base then false else
  existsb (fun r =>
    (mr_type r =? type) && (mr_base r <=? base) && (e <=? (mr_base r +! mr_length r))) regions.

(** Models src/kernel/core/bootinfo.c:152-165, bootFindContainingRegionEnd. *)
Fixpoint bootFindContainingRegionEnd (regions : list BootMemRegion) (base type : Z) : option Z :=
  match regions with
  | [] => None
  | r :: rest =>
      let regionEnd := mr_base r +! mr_length r in
      if (mr_type r =? type) && (mr_base r <=? base) && (base <? regionEnd)
      then Some regionEnd
      else bootFindContainingRegionEnd rest base type
  end.

(** Memory as the kernel sees it through the HHDM: a byte per virtual address. *)
Context (mem : Z -> Z).

(** Models src/kernel/core/bootinfo.c:203-208, bootInfoCheckRefs (the NUL scan over
    [n] bytes from virtual address [va]). *)
Fixpoint find_nul (n : nat) (va : Z) : bool :=
  match n with
  | O => false
  | S n => if mem va =? 0 then true else find_nul n (va +! 1)
  end.

(** Models src/kernel/core/bootinfo.c:167-251, bootInfoCheckRefs. *)
Definition bootInfoCheckRefs (biAddr : Z) (bi : BootInfo) (regions : list BootMemRegion)
    : verdict :=
  let mapBytes := zlen regions *! sizeof_BootMemRegion in
  reject negb (bootRangeInsideType regions (bi_memMapPhys bi) mapBytes BOOT_MEM_LOADER_RECLAIM)
    with "the memory map array is not inside a LOADER_RECLAIM region" ;;
  let biPhys := biAddr -! bi_hhdmBase bi in
  reject negb (bootRangeInsideType regions biPhys sizeof_BootInfo BOOT_MEM_LOADER_RECLAIM)
    with "the BootInfo page is not inside a LOADER_RECLAIM region" ;;
  reject bi_cmdlinePhys bi =? 0 with "cmdlinePhys is zero" ;;
  match bootFindContainingRegionEnd regions (bi_cmdlinePhys bi) BOOT_MEM_LOADER_RECLAIM with
  | None => Some "cmdline is not inside a LOADER_RECLAIM region"%string
  | Some cmdlineRegionEnd =>
      let scan := cmdlineRegionEnd -! bi_cmdlinePhys bi in
      let cmdlineMaxScan := if scan >? BOOTINFO_CMDLINE_MAX then BOOTINFO_CMDLINE_MAX else scan in
      reject negb (find_nul (Z.to_nat cmdlineMaxScan) (bi_hhdmBase bi +! bi_cmdlinePhys bi))
        with "cmdline is not NUL-terminated within its containing region or BOOTINFO_CMDLINE_MAX bytes" ;;
      reject negb (bootRangeInsideType regions (bi_kernelPhysBase bi) (bi_kernelSize bi)
                     BOOT_MEM_KERNEL)
        with "the kernel image is not inside a KERNEL region" ;;
      reject negb (existsb (fun r => mr_type r =? BOOT_MEM_USABLE) regions)
        with "no USABLE region in the memory map" ;;
      reject negb (bi_initrdSize bi =? 0)
             && negb (bootRangeInsideType regions (bi_initrdPhys bi) (bi_initrdSize bi)
                        BOOT_MEM_INITRD)
        with "initrd is not inside an INITRD region" ;;
      if negb (fb_phys (bi_fb bi) =? 0) then
        let fbSize := fb_pitch (bi_fb bi) *! fb_height (bi_fb bi) in
        reject negb (bootRangeInsideType regions (fb_phys (bi_fb bi)) fbSize BOOT_MEM_FRAMEBUFFER)
          with "framebuffer is not inside a FRAMEBUFFER region" ;;
        reject negb (fst (fb_reserved (bi_fb bi)) =? 0) || negb (snd (fb_reserved (bi_fb bi)) =? 0)
          with "framebuffer reserved bytes are nonzero" ;;
        None
      else None
  end.

(** The [i]-th array element at virtual address [va], decoded from memory. *)
Definition mem_le (va : Z) (n : nat) : Z := le_val (map (fun k => mem (va + Z.of_nat k)) (seq 0 n)).

Definition load_region (va : Z) : BootMemRegion :=
  {| mr_base := mem_le va 8; mr_length := mem_le (va + 8) 8;
     mr_type := mem_le (va + 16) 4; mr_reserved := mem_le (va + 20) 4 |}.

Definition load_regions (va count : Z) : list BootMemRegion :=
  map (fun k => load_region (va + sizeof_BootMemRegion * Z.of_nat k)) (seq 0 (Z.to_nat count)).

(** Models src/kernel/core/bootinfo.c:253-282, bootInfoValidate. *)
Definition bootInfoValidate (biAddr : Z) (bi : BootInfo) : verdict :=
  reject biAddr =? 0 with "BootInfo pointer is NULL" ;;
  reject negb ((biAddr .& 7) =? 0) with "BootInfo pointer is not 8-byte aligned" ;;
  reject (biAddr <? BOOTINFO_HHDM_BASE)
         || ((biAddr -! BOOTINFO_HHDM_BASE) >? (BOOTINFO_HHDM_SIZE - sizeof_BootInfo))
    with "BootInfo pointer is outside the HHDM window" ;;
  match bootInfoCheckHeader bi with
  | Some why => Some why
  | None =>
      let regions := load_regions (bi_hhdmBase bi +! bi_memMapPhys bi) (bi_memMapCount bi) in
      match bootMemMapCheck regions with
      | Some why => Some why
      | None => bootInfoCheckRefs biAddr bi regions
      end
  end.
End Validate.

(** Models src/kernel/core/bootinfo.c:284-307, bootMemTypeName. *)
Definition bootMemTypeName (type : Z) : string :=
  if type =? BOOT_MEM_USABLE then "USABLE"
  else if type =? BOOT_MEM_RESERVED then "RESERVED"
  else if type =? BOOT_MEM_ACPI_RECLAIM then "ACPI_RECLAIM"
  else if type =? BOOT_MEM_ACPI_NVS then "ACPI_NVS"
  else if type =? BOOT_MEM_BAD then "BAD"
  else if type =? BOOT_MEM_LOADER_RECLAIM then "LOADER_RECLAIM"
  else if type =? BOOT_MEM_KERNEL then "KERNEL"
  else if type =? BOOT_MEM_INITRD then "INITRD"
  else if type =? BOOT_MEM_FRAMEBUFFER then "FRAMEBUFFER"
  else "UNKNOWN".

(** ** The memory map check *)

Definition region_fields (r : BootMemRegion) : Prop :=
  is_u64 (mr_base r) /\ is_u64 (mr_length r) /\ is_u32 (mr_type r) /\ is_u32 (mr_reserved r).

Record region_wf (r : BootMemRegion) : Prop := {
  wf_len : 0 < mr_length r;
  wf_base_al : mr_base r mod BOOTINFO_PAGE_SIZE = 0;
  wf_len_al : mr_length r mod BOOTINFO_PAGE_SIZE = 0;
  wf_end : mr_base r + mr_length r < 2 ^ 64;
  wf_type : BOOT_MEM_USABLE <= mr_type r <= BOOT_MEM_FRAMEBUFFER;
  wf_resv : mr_reserved r = 0 }.

Definition precedes (r s : BootMemRegion) : Prop := mr_base r + mr_length r <= mr_base s.

(** Case analysis on a chain of [reject]s. *)
Ltac rejects H :=
  repeat (match type of H with
          | (if ?b then Some _ else _) = None => destruct b eqn:?; [discriminate H|]
          end; cbv zeta in H).

Ltac pass := rewrite ?Z.eqb_refl; repeat
  match goal with
  | |- (if ?b then Some _ else _) = None =>
      let E := fresh "E" in destruct b eqn:E; [exfalso; bprop; lia|]
  end.

Lemma check_region_iff prev r :
  region_fields r -> (forall p, prev = Some p -> region_wf p /\ region_fields p) ->
  check_region prev r = None <->
  region_wf r /\ (forall p, prev = Some p -> precedes p r).
Proof.
  intros (Hb & Hl & Ht & Hv) Hp. unfold check_region. split.
  - intros H. rejects H. rewrite u64_add_overflow in * by done. bprop.
    rewrite ?u64_small in * by (words; lia). split.
    + split; try done; words; lia.
    + intros p ->. destruct (Hp p eq_refl) as [[] (?&?&_)]. rejects H. bprop.
      rewrite u64_small in * by (words; lia). done.
  - intros [[H1 H2 H3 H4 H5 H6] Hpre]. rewrite H2, H3, H6. simpl.
    rewrite u64_add_overflow by done. pass. destruct prev as [p|]; [|done].
    specialize (Hpre p eq_refl). destruct (Hp p eq_refl) as [[] (?&?&_)].
    rewrite u64_small by (words; lia). unfold precedes in Hpre. by pass.
Qed.

Lemma mem_map_check_iff prev rs :
  Forall region_fields rs -> (forall p, prev = Some p -> region_wf p /\ region_fields p) ->
  mem_map_check prev rs = None <->
  Forall region_wf rs /\ Sorted precedes rs /\
  (forall p r, prev = Some p -> head rs = Some r -> precedes p r).
Proof.
  intros Hf. revert prev. induction Hf as [|r rs Hr Hrs IH]; intros prev Hp; simpl.
  { split; [|done]. intros _. split_and!; [constructor..|done]. }
  destruct (check_region prev r) eqn:Ec.
  - split; [done|]. intros (Hw & _ & Hh). exfalso.
    assert (check_region prev r = None); [|congruence].
    apply check_region_iff; [done..|]. inversion Hw; subst. split; [done|].
    intros p Hpe. by apply Hh.
  - apply check_region_iff in Ec as [Hw Hpre]; [|done..].
    rewrite IH by (intros p [= <-]; done). split.
    + intros (Hws & Hs & Hh). split_and!.
      * by constructor.
      * constructor; [done|]. destruct rs; constructor. by apply Hh.
      * intros p r' Hpe [= <-]. by apply Hpre.
    + intros (Hws & Hs & Hh). inversion Hws; inversion Hs as [|? ? Hs' Hd]; subst.
      split_and!; [done..|]. intros p r' [= <-] Hh'. destruct rs; simplify_eq/=. by inversion Hd.
Qed.

Lemma bootMemMapCheck_spec rs :
  Forall region_fields rs ->
  bootMemMapCheck rs = None <-> Forall region_wf rs /\ Sorted precedes rs.
Proof.
  intros Hf. unfold bootMemMapCheck. rewrite mem_map_check_iff by done.
  split; [by intros (?&?&_)|]. by intros [].
Qed.

(** ** Ranges inside a region *)

Lemma bootRangeInsideType_iff rs base length type :
  is_u64 base -> is_u64 length -> Forall region_wf rs -> Forall region_fields rs ->
  bootRangeInsideType rs base length type = true <->
  length = 0 \/
  exists r, r ∈ rs /\ mr_type r = type /\ mr_base r <= base /\
    base + length <= mr_base r + mr_length r.
Proof.
  intros Hb Hl Hw Hf. unfold bootRangeInsideType.
  destruct (length =? 0) eqn:E0; bprop; [tauto|]. rewrite u64_add_overflow by done.
  rewrite Forall_forall in Hw, Hf.
  destruct (2 ^ 64 <=? base + length) eqn:Ew; bprop.
  { split; [done|]. intros [|(r & Hr & _ & _ & He)]; [done|].
    destruct (Hw r Hr). lia. }
  rewrite (u64_small (base + length)), existsb_exists by (words; lia). split.
  - intros (r & Hr & Hc). apply list_elem_of_In in Hr. destruct (Hw r Hr), (Hf r Hr) as (?&?&_).
    bprop. rewrite u64_small in * by (words; lia). eauto 10.
  - intros [|(r & Hr & <- & Hlo & Hhi)]; [done|]. destruct (Hw r Hr), (Hf r Hr) as (?&?&_).
    exists r. split; [by apply list_elem_of_In|]. rewrite u64_small by (words; lia).
    rewrite Z.eqb_refl, (proj2 (Z.leb_le _ base)), (proj2 (Z.leb_le (base + length) _)) by lia.
    done.
Qed.

Lemma containing_end rs base type e :
  Forall region_wf rs -> Forall region_fields rs ->
  bootFindContainingRegionEnd rs base type = Some e ->
  exists r, r ∈ rs /\ mr_type r = type /\ mr_base r <= base < e /\ e = mr_base r + mr_length r.
Proof.
  intros Hw Hf. induction rs as [|r rs IH]; simpl; [done|].
  inversion Hw as [|? ? []]; inversion Hf as [|? ? (?&?&_)]; subst.
  rewrite u64_small by (words; lia).
  destruct (_ && _) eqn:E.
  - intros [= <-]. bprop. exists r. rewrite elem_of_cons. split_and!; auto.
  - intros He. destruct IH as (r' & Hr' & ?); [done..|]. exists r'. rewrite elem_of_cons. auto.
Qed.


(** ** What the memory supplies *)

Section Memory.
Context (mem : Z -> Z).
Hypothesis Hmem : forall va, is_u8 (mem va).

Lemma mem_le_range va n : 0 <= mem_le mem va n < 256 ^ Z.of_nat n.
Proof.
  unfold mem_le. set (l := map _ _). assert (Hl : is_bytes l).
  { apply Forall_forall. intros x Hx. apply list_elem_of_In, in_map_iff in Hx.
    destruct Hx as (k & <- & _). apply Hmem. }
  pose proof (le_val_range l Hl) as H. unfold zlen, l in H. by rewrite length_map, length_seq in H.
Qed.

Lemma load_regions_fields va count : Forall region_fields (load_regions mem va count).
Proof.
  apply Forall_forall. intros r Hr. apply list_elem_of_In, in_map_iff in Hr.
  destruct Hr as (k & <- & _). unfold region_fields, load_region; simpl.
  set (p := va + _).
  pose proof (mem_le_range p 8). pose proof (mem_le_range (p + 8) 8).
  pose proof (mem_le_range (p + 16) 4). pose proof (mem_le_range (p + 20) 4).
  words. simpl Z.of_nat in *. lia.
Qed.

Lemma find_nul_iff n va :
  find_nul mem n (u64 va) = true <-> exists k, (k < n)%nat /\ mem (u64 (va + Z.of_nat k)) = 0.
Proof.
  revert va. induction n as [|n IH]; intros va; simpl.
  { split; [done|]. intros (k & ? & _). lia. }
  assert (Hs : u64 va +! 1 = u64 (va + 1)) by (unfold u64; by rewrite Zplus_mod_idemp_l).
  rewrite Hs. destruct (mem (u64 va) =? 0) eqn:E; bprop.
  - split; [|done]. exists O. rewrite Z.add_0_r. split; [lia|done].
  - rewrite IH. split.
    + intros (k & Hk & Hm). exists (S k). split; [lia|].
      by replace (va + Z.of_nat (S k)) with (va + 1 + Z.of_nat k) by lia.
    + intros ([|k] & Hk & Hm); [by rewrite Z.add_0_r in Hm|]. exists k. split; [lia|].
      by replace (va + 1 + Z.of_nat k) with (va + Z.of_nat (S k)) by lia.
Qed.
End Memory.

Lemma zlen_load_regions mem va count : 0 <= count -> zlen (load_regions mem va count) = count.
Proof. intros. unfold load_regions, zlen. rewrite length_map, length_seq. lia. Qed.

Lemma find_nul_ext mem mem' n va :
  (forall k, (k < n)%nat -> mem (u64 (va + Z.of_nat k)) = mem' (u64 (va + Z.of_nat k))) ->
  find_nul mem n (u64 va) = find_nul mem' n (u64 va).
Proof.
  intros H. apply eq_true_iff_eq. rewrite !find_nul_iff.
  split; intros (k & Hk & Hm); exists k; (split; [done|]); specialize (H k Hk); congruence.
Qed.

Lemma mem_le_ext mem mem' va n :
  (forall k, 0 <= k < Z.of_nat n -> mem (va + k) = mem' (va + k)) ->
  mem_le mem va n = mem_le mem' va n.
Proof.
  intros H. unfold mem_le. f_equal. apply map_ext_in. intros k Hk. apply in_seq in Hk.
  apply H. lia.
Qed.

Lemma load_regions_ext mem mem' va count :
  (forall k, 0 <= k < sizeof_BootMemRegion * count -> mem (va + k) = mem' (va + k)) ->
  load_regions mem va count = load_regions mem' va count.
Proof.
  intros H. unfold load_regions. apply map_ext_in. intros k Hk. apply in_seq in Hk.
  unfold load_region, sizeof_BootMemRegion in *.
  f_equal; apply mem_le_ext; intros j Hj; rewrite <- ?Z.add_assoc; apply H; lia.
Qed.

(** The integer fields are in the range of their C type. *)
Record bi_ok (bi : BootInfo) : Prop := {
  bo_count : is_u32 (bi_memMapCount bi);
  bo_map : is_u64 (bi_memMapPhys bi);
  bo_kphys : is_u64 (bi_kernelPhysBase bi);
  bo_kvirt : is_u64 (bi_kernelVirtBase bi);
  bo_ksize : is_u64 (bi_kernelSize bi);
  bo_slide : is_u64 (bi_kaslrSlide bi);
  bo_initrd : is_u64 (bi_initrdPhys bi);
  bo_initrdsz : is_u64 (bi_initrdSize bi);
  bo_cmd : is_u64 (bi_cmdlinePhys bi);
  bo_fb : is_u64 (fb_phys (bi_fb bi));
  bo_pitch : is_u32 (fb_pitch (bi_fb bi));
  bo_height : is_u32 (fb_height (bi_fb bi)) }.

Ltac biconsts :=
  unfold BOOTINFO_KERNEL_WINDOW_SIZE, BOOTINFO_KERNEL_WINDOW_END, BOOTINFO_KERNEL_WINDOW_BASE,
    BOOTINFO_HHDM_SIZE, BOOTINFO_HHDM_BASE, BOOTINFO_MEMMAP_MAX, BOOTINFO_PAGE_SIZE,
    sizeof_BootMemRegion, sizeof_BootInfo, BOOTINFO_CMDLINE_MAX in *.

(** What an accepted header says: the image lies in the kernel window, slid by a
    multiple of 2 MiB, and the map array lies in the HHDM window. *)
Record header_facts (kstart kend : Z) (bi : BootInfo) : Prop := {
  hf_hhdm : bi_hhdmBase bi = BOOTINFO_HHDM_BASE;
  hf_slide_al : bi_kaslrSlide bi mod BOOTINFO_KASLR_ALIGN = 0;
  hf_virt : bi_kernelVirtBase bi = BOOTINFO_KERNEL_WINDOW_BASE + bi_kaslrSlide bi;
  hf_start : bi_kernelVirtBase bi = kstart;
  hf_size : bi_kernelSize bi = kend -! kstart;
  hf_end : bi_kernelVirtBase bi + bi_kernelSize bi <= BOOTINFO_KERNEL_WINDOW_END;
  hf_phys : bi_kernelPhysBase bi mod BOOTINFO_PAGE_SIZE = 0;
  hf_count : 1 <= bi_memMapCount bi <= BOOTINFO_MEMMAP_MAX;
  hf_map : bi_memMapPhys bi + bi_memMapCount bi * sizeof_BootMemRegion <= BOOTINFO_HHDM_SIZE }.

Lemma header_sound kstart kend bi :
  bi_ok bi -> bootInfoCheckHeader kstart kend bi = None -> header_facts kstart kend bi.
Proof.
  intros [] H. unfold bootInfoCheckHeader in H. rejects H. clear H. bprop.
  assert (Hal : BOOTINFO_KASLR_ALIGN = 2 ^ 21) by reflexivity.
  assert (Hneed : bi_kernelSize bi <=
    ((bi_kernelSize bi +! BOOTINFO_KASLR_ALIGN) -! 1) .& not64 (BOOTINFO_KASLR_ALIGN - 1)
    <= BOOTINFO_KERNEL_WINDOW_SIZE).
  { rewrite Hal. biconsts. words. rewrite (Z.mod_small (bi_kernelSize bi + _)) by lia.
    rewrite (Z.mod_small (_ - 1)), land_high64 by (words; lia). dlia. }
  set (needed := _ .& _) in *.
  assert (Hwin : BOOTINFO_KERNEL_WINDOW_SIZE -! needed = BOOTINFO_KERNEL_WINDOW_SIZE - needed)
    by (biconsts; words; apply Z.mod_small; lia).
  assert (Hvirt : bi_kernelVirtBase bi = BOOTINFO_KERNEL_WINDOW_BASE + bi_kaslrSlide bi).
  { match goal with H : _ = BOOTINFO_KERNEL_WINDOW_BASE |- _ => revert H end.
    words. biconsts. intros Hv. dlia. }
  assert (Hmb : bi_memMapCount bi *! sizeof_BootMemRegion =
                bi_memMapCount bi * sizeof_BootMemRegion)
    by (biconsts; words; apply Z.mod_small; lia).
  rewrite Hmb, Hwin in *.
  rewrite u64_sub_small in * by (biconsts; words; lia).
  split; try done; biconsts; lia.
Qed.

(** The fields with one right value. *)
Definition header_ids (bi : BootInfo) : Prop :=
  bi_magic bi = BOOTINFO_MAGIC /\ bi_version bi = BOOTINFO_VERSION /\
  bi_size bi = sizeof_BootInfo /\
  (bi_bootMethod bi = BOOT_METHOD_UEFI \/ bi_bootMethod bi = BOOT_METHOD_BIOS) /\
  bi_memMapPhys bi mod 8 = 0.

Lemma header_complete kstart kend bi :
  bi_ok bi -> header_ids bi -> header_facts kstart kend bi ->
  bootInfoCheckHeader kstart kend bi = None.
Proof.
  intros [] (Hmag & Hver & Hsz & Hmeth & Hmp) []. unfold bootInfoCheckHeader.
  assert (Hm : negb (bi_bootMethod bi =? BOOT_METHOD_UEFI) &&
               negb (bi_bootMethod bi =? BOOT_METHOD_BIOS) = false)
    by (destruct Hmeth as [-> | ->]; done).
  rewrite Hmag, Hver, Hsz, Hm, hf_hhdm0, hf_slide_al0, hf_phys0, Hmp, <- hf_size0, <- hf_start0.
  rewrite !Z.eqb_refl. cbn [negb]. cbv zeta.
  assert (Hal : BOOTINFO_KASLR_ALIGN = 2 ^ 21) by reflexivity. rewrite Hal in *.
  rewrite (u64_small (bi_kernelSize bi + _)) by (biconsts; words; lia).
  rewrite (u64_small (_ - 1)), land_high64 by (biconsts; words; lia).
  set (needed := _ - _ mod _).
  assert (Hneed : bi_kernelSize bi <= needed /\ needed + bi_kaslrSlide bi <= 0x20000000)
    by (subst needed; biconsts; words; dlia).
  clearbody needed.
  rewrite (u64_small (BOOTINFO_KERNEL_WINDOW_SIZE - _)) by (biconsts; words; lia).
  rewrite (u64_small (bi_kernelVirtBase bi - _)) by (biconsts; words; lia).
  rewrite (u64_small (bi_memMapCount bi * _)) by (biconsts; words; lia).
  rewrite (u64_small (BOOTINFO_HHDM_SIZE - _)) by (biconsts; words; lia).
  replace (bi_kernelVirtBase bi - bi_kaslrSlide bi) with BOOTINFO_KERNEL_WINDOW_BASE by lia.
  rewrite Z.eqb_refl. cbn [negb].
  rewrite !Z.gtb_ltb, !(proj2 (Z.ltb_ge _ _)) by (biconsts; words; lia). done.
Qed.

(** [base, base + length) lies in one region of type [type] of the map. *)
Definition inside (regions : list BootMemRegion) (base length type : Z) : Prop :=
  length = 0 \/ exists r, r ∈ regions /\ mr_type r = type /\ mr_base r <= base /\
                          base + length <= mr_base r + mr_length r.

(** What acceptance of the references adds. *)
Record refs_facts (mem : Z -> Z) (biAddr : Z) (bi : BootInfo) (rs : list BootMemRegion) : Prop := {
  rf_map : inside rs (bi_memMapPhys bi) (zlen rs * sizeof_BootMemRegion) BOOT_MEM_LOADER_RECLAIM;
  rf_bi : inside rs (biAddr -! BOOTINFO_HHDM_BASE) sizeof_BootInfo BOOT_MEM_LOADER_RECLAIM;
  rf_cmd : exists n, 0 <= n < BOOTINFO_CMDLINE_MAX /\
    mem (BOOTINFO_HHDM_BASE +! (bi_cmdlinePhys bi + n)) = 0 /\
    inside rs (bi_cmdlinePhys bi) (n + 1) BOOT_MEM_LOADER_RECLAIM;
  rf_kernel : inside rs (bi_kernelPhysBase bi) (bi_kernelSize bi) BOOT_MEM_KERNEL;
  rf_usable : exists r, r ∈ rs /\ mr_type r = BOOT_MEM_USABLE;
  rf_initrd : inside rs (bi_initrdPhys bi) (bi_initrdSize bi) BOOT_MEM_INITRD;
  rf_fb : fb_phys (bi_fb bi) <> 0 ->
    inside rs (fb_phys (bi_fb bi)) (fb_pitch (bi_fb bi) * fb_height (bi_fb bi))
      BOOT_MEM_FRAMEBUFFER }.

Lemma cmdline_sound mem rs hb p e :
  is_u64 p -> Forall region_wf rs -> Forall region_fields rs ->
  bootFindContainingRegionEnd rs p BOOT_MEM_LOADER_RECLAIM = Some e ->
  let scan := e -! p in
  find_nul mem (Z.to_nat (if scan >? BOOTINFO_CMDLINE_MAX then BOOTINFO_CMDLINE_MAX else scan))
    (hb +! p) = true ->
  exists n, 0 <= n < BOOTINFO_CMDLINE_MAX /\ mem (hb +! (p + n)) = 0 /\
    inside rs p (n + 1) BOOT_MEM_LOADER_RECLAIM.
Proof.
  intros Hp Hw Hf He scan Hn. apply containing_end in He as (r & Hr & Hty & Hpe & ->); [|done..].
  pose proof Hw as Hall. rewrite Forall_forall in Hall. destruct (Hall r Hr).
  unfold scan in Hn. rewrite u64_sub_small in Hn by (words; lia).
  apply find_nul_iff in Hn as (k & Hk & Hm). exists (Z.of_nat k).
  destruct (_ >? _) eqn:E; bprop; biconsts; (split; [lia|]).
  all: rewrite Z.add_assoc; split; [done|]; right; exists r; split_and!; (done || lia).
Qed.

Lemma refs_sound mem biAddr bi rs :
  bi_ok bi -> bi_hhdmBase bi = BOOTINFO_HHDM_BASE -> zlen rs <= BOOTINFO_MEMMAP_MAX ->
  Forall region_wf rs -> Forall region_fields rs ->
  bootInfoCheckRefs mem biAddr bi rs = None -> refs_facts mem biAddr bi rs.
Proof.
  intros [] Hh Hn Hw Hf H. unfold bootInfoCheckRefs in H. rewrite Hh in H.
  rejects H. destruct (bootFindContainingRegionEnd _ _ _) as [e|] eqn:Ee; [|discriminate].
  rejects H.
  assert (Hmb : zlen rs *! sizeof_BootMemRegion = zlen rs * sizeof_BootMemRegion).
  { pose proof (zlen_nonneg rs). biconsts. words. apply Z.mod_small. lia. }
  assert (Hfb : fb_pitch (bi_fb bi) *! fb_height (bi_fb bi) =
                fb_pitch (bi_fb bi) * fb_height (bi_fb bi))
    by (words; apply Z.mod_small; nia).
  rewrite Hmb in *. rewrite negb_false_iff in *.
  assert (Hins : forall b l t, is_u64 b -> is_u64 l -> bootRangeInsideType rs b l t = true ->
                   inside rs b l t) by (intros; by apply bootRangeInsideType_iff).
  pose proof (u64_range (biAddr - BOOTINFO_HHDM_BASE)).
  assert (is_u64 (zlen rs * sizeof_BootMemRegion)) by (rewrite <- Hmb; apply u64_range).
  split; auto.
  - apply Hins; [done|by words|done].
  - eapply cmdline_sound; eauto.
  - match goal with Hu : existsb _ _ = true |- _ => apply existsb_exists in Hu as (r & Hr & Ht) end.
    apply list_elem_of_In in Hr. bprop. eauto.
  - match goal with Hu : _ && _ = false |- _ => apply andb_false_iff in Hu as [E|E] end;
      bprop; [by left|by apply Hins].
  - intros Hphys. rewrite (proj2 (Z.eqb_neq _ _) Hphys) in H. simpl in H. rejects H. bprop.
    rewrite Hfb in *. apply Hins; [done| |done]. rewrite <- Hfb. apply u64_range.
Qed.

Lemma validate_split kstart kend mem biAddr bi :
  bootInfoValidate kstart kend mem biAddr bi = None ->
  let rs := load_regions mem (bi_hhdmBase bi +! bi_memMapPhys bi) (bi_memMapCount bi) in
  bootInfoCheckHeader kstart kend bi = None /\ bootMemMapCheck rs = None /\
  bootInfoCheckRefs mem biAddr bi rs = None.
Proof.
  unfold bootInfoValidate. intros H. rejects H.
  destruct (bootInfoCheckHeader _ _ _); [discriminate|].
  destruct (bootMemMapCheck _) eqn:E; [discriminate|]. auto.
Qed.

(** ** A concrete handoff *)

Definition sample_regions : list BootMemRegion :=
  [ {| mr_base := 0; mr_length := 0x5000; mr_type := BOOT_MEM_USABLE; mr_reserved := 0 |};
    {| mr_base := 0x5000; mr_length := 0x4000; mr_type := BOOT_MEM_LOADER_RECLAIM;
       mr_reserved := 0 |};
    {| mr_base := 0x100000; mr_length := 0x2000; mr_type := BOOT_MEM_KERNEL; mr_reserved := 0 |} ].

Definition encode_region (r : BootMemRegion) : list Z :=
  le_bytes 8 (mr_base r) ++ le_bytes 8 (mr_length r) ++
  le_bytes 4 (mr_type r) ++ le_bytes 4 (mr_reserved r).

(** The map array at physical 0x5000, zeroes elsewhere (an empty command line). *)
Definition sample_mem (va : Z) : Z :=
  let off := va - (BOOTINFO_HHDM_BASE + 0x5000) in
  if (0 <=? off) && (off <? 72)
  then nth (Z.to_nat off) (concat (map encode_region sample_regions)) 0 else 0.

Definition sample_bi : BootInfo :=
  {| bi_magic := BOOTINFO_MAGIC; bi_version := 1; bi_size := sizeof_BootInfo; bi_bootMethod := 1;
     bi_memMapCount := 3; bi_memMapPhys := 0x5000;
     bi_fb := {| fb_phys := 0; fb_width := 0; fb_height := 0; fb_pitch := 0; fb_bpp := 0;
       fb_redShift := 0; fb_redSize := 0; fb_greenShift := 0; fb_greenSize := 0;
       fb_blueShift := 0; fb_blueSize := 0; fb_reserved := (0, 0) |};
     bi_rsdpPhys := 0; bi_kernelPhysBase := 0x100000;
     bi_kernelVirtBase := BOOTINFO_KERNEL_WINDOW_BASE + 0x200000; bi_kernelSize := 0x2000;
     bi_kaslrSlide := 0x200000; bi_initrdPhys := 0; bi_initrdSize := 0; bi_cmdlinePhys := 0x7000;
     bi_hhdmBase := BOOTINFO_HHDM_BASE; bi_loaderTsc := 0; bi_efiSystemTablePhys := 0;
     bi_bootDiskGuid := []; bi_bootPartGuid := []; bi_randomSeed := [] |}.

Definition sample_kstart : Z := BOOTINFO_KERNEL_WINDOW_BASE + 0x200000.

Lemma sample_mem_ok va : is_u8 (sample_mem va).
Proof.
  unfold sample_mem. destruct (_ && _); [|words; lia]. set (n := Z.to_nat _).
  assert (Hb : is_bytes (concat (map encode_region sample_regions))).
  { vm_compute. repeat (constructor; [split; [discriminate|reflexivity]|]). constructor. }
  destruct (nth_in_or_default n (concat (map encode_region sample_regions)) 0) as [Hi| ->].
  - unfold is_bytes in Hb. rewrite Forall_forall in Hb. by apply Hb, list_elem_of_In.
  - words. lia.
Qed.

Lemma sample_bi_ok : bi_ok sample_bi.
Proof. split; vm_compute; (split; [discriminate|reflexivity]). Qed.

Lemma sample_bi_accepted :
  bootInfoValidate sample_kstart (sample_kstart + 0x2000) sample_mem
    (BOOTINFO_HHDM_BASE + 0x6000) sample_bi = None.
Proof. vm_compute. reflexivity. Qed.

(** ** Properties *)

(** The memory-map check accepts exactly the well-formed maps: every region
    positive, page aligned, not wrapping, of a known type, with a zero reserved
    field, and each region starting at or after the end of the one before. *)
Theorem bootMemMapCheck_exact rs :
  Forall region_fields rs ->
  status_of (bootMemMapCheck rs) = STATUS_OK <-> Forall region_wf rs /\ Sorted precedes rs.
Proof.
  intros Hf. rewrite <- bootMemMapCheck_spec by done.
  destruct (bootMemMapCheck rs); split; done.
Qed.

Lemma bootMemMapCheck_exact_witness : Sorted precedes sample_out.
Proof.
  apply bootMemMapCheck_exact; [|vm_compute; reflexivity].
  repeat (constructor; [vm_compute; repeat split; discriminate|]). constructor.
Defined.

Lemma region_ok_wf r : region_ok r -> region_wf r /\ region_fields r.
Proof.
  intros [Hb Hl He Hba Hla Hrk Hrs].
  assert (Ht : BOOT_MEM_USABLE <= mr_type r <= BOOT_MEM_FRAMEBUFFER).
  { revert Hrk. unfold memMapRank. memtypes. intros Hrk. bcases; lia. }
  split; [by split|]. unfold region_fields. memtypes. words. rewrite Hrs. lia.
Qed.

(** C39: The loader's output is acceptable to the kernel: any map
    [memMapNormalize] produces passes [bootMemMapCheck]. *)
Theorem loader_map_accepted ins cap out :
  Forall input_ok ins -> memMapNormalize ins cap = (BOOT_OK, out) -> bootMemMapCheck out = None.
Proof.
  intros Hins Hrun. apply normalize_spec in Hrun as (Hok & Hso & _); [|done].
  rewrite Forall_forall in Hok. apply bootMemMapCheck_spec.
  - apply Forall_forall. intros r Hr. by apply region_ok_wf, Hok.
  - split; [apply Forall_forall; intros r Hr; by apply region_ok_wf, Hok|].
    clear -Hso. induction Hso as [|r rs Hs IH Hd]; constructor; [done|].
    destruct Hd as [|s rs [Hd _]]; by constructor.
Qed.

Lemma loader_map_accepted_witness : bootMemMapCheck sample_out = None.
Proof. apply (loader_map_accepted sample_map 8 sample_out sample_map_ok sample_map_run). Defined.

(** C6: Acceptance is what the rest of the kernel relies on: the image sits in
    the kernel window at a 2 MiB-aligned slide, the map is well formed, the map
    array, the BootInfo page and the NUL-terminated command line lie in
    LOADER_RECLAIM memory, the image in one KERNEL region, the initrd and the
    framebuffer in regions of their type, and some memory is USABLE. *)
Theorem bootInfoValidate_sound kstart kend mem biAddr bi :
  (forall va, is_u8 (mem va)) -> bi_ok bi ->
  bootInfoValidate kstart kend mem biAddr bi = None ->
  let rs := load_regions mem (BOOTINFO_HHDM_BASE +! bi_memMapPhys bi) (bi_memMapCount bi) in
  header_facts kstart kend bi /\ Forall region_wf rs /\ Sorted precedes rs /\
  refs_facts mem biAddr bi rs.
Proof.
  intros Hm Hbi H rs. apply validate_split in H as (Hh & Hmap & Hr).
  apply header_sound in Hh; [|done]. rewrite (hf_hhdm _ _ _ Hh) in Hmap, Hr. fold rs in Hmap, Hr.
  assert (Hf : Forall region_fields rs) by by apply load_regions_fields.
  apply bootMemMapCheck_spec in Hmap as [Hw Hs]; [|done]. split_and!; [done..|].
  destruct Hh. apply refs_sound; [done|done| |done..].
  unfold rs. rewrite zlen_load_regions; lia.
Qed.

Lemma bootInfoValidate_sound_witness :
  exists r, r ∈ load_regions sample_mem (BOOTINFO_HHDM_BASE +! 0x5000) 3 /\
    mr_type r = BOOT_MEM_USABLE.
Proof.
  destruct (bootInfoValidate_sound _ _ _ _ _ sample_mem_ok sample_bi_ok sample_bi_accepted)
    as (_ & _ & _ & []). assumption.
Defined.

(** Validation dereferences only what it has checked: its verdict depends on
    no byte of memory outside the map array (once the header bounds it to the
    HHDM window) and the regions the map itself calls LOADER_RECLAIM. *)
Theorem bootInfoValidate_local kstart kend mem mem' biAddr bi :
  (forall va, is_u8 (mem va)) -> (forall va, is_u8 (mem' va)) -> bi_ok bi ->
  (bi_memMapPhys bi + bi_memMapCount bi * sizeof_BootMemRegion <= BOOTINFO_HHDM_SIZE ->
   forall k, 0 <= k < bi_memMapCount bi * sizeof_BootMemRegion ->
     let va := BOOTINFO_HHDM_BASE + bi_memMapPhys bi + k in mem va = mem' va) ->
  (forall r a,
     r ∈ load_regions mem (BOOTINFO_HHDM_BASE +! bi_memMapPhys bi) (bi_memMapCount bi) ->
     mr_type r = BOOT_MEM_LOADER_RECLAIM -> covers r a ->
     mem (BOOTINFO_HHDM_BASE +! a) = mem' (BOOTINFO_HHDM_BASE +! a)) ->
  bootInfoValidate kstart kend mem biAddr bi = bootInfoValidate kstart kend mem' biAddr bi.
Proof.
  intros Hm Hm' Hbi Harr Hrec. unfold bootInfoValidate.
  repeat (destruct (_ : bool); [reflexivity|]).
  destruct (bootInfoCheckHeader _ _ _) eqn:Eh; [done|].
  pose proof (header_sound _ _ _ Hbi Eh) as [Hh _ _ _ _ _ _ Hc Hmap]. rewrite Hh.
  assert (Hva : BOOTINFO_HHDM_BASE +! bi_memMapPhys bi = BOOTINFO_HHDM_BASE + bi_memMapPhys bi).
  { destruct Hbi. biconsts. words. apply Z.mod_small. lia. }
  rewrite <- (load_regions_ext mem mem').
  2: { intros k Hk. rewrite Hva. apply Harr; [done|lia]. }
  set (rs := load_regions mem _ _) in *. destruct (bootMemMapCheck rs) eqn:Em; [done|].
  assert (Hf : Forall region_fields rs) by by apply load_regions_fields.
  apply bootMemMapCheck_spec in Em as [Hw _]; [|done].
  unfold bootInfoCheckRefs. rewrite Hh. repeat (destruct (_ : bool); [reflexivity|]).
  destruct (bootFindContainingRegionEnd _ _ _) as [e|] eqn:Ee; [|done].
  apply containing_end in Ee as (r & Hr & Ht & Hre & ->); [|done..].
  assert (Hnul : forall n, Z.of_nat n <= mr_base r + mr_length r - bi_cmdlinePhys bi ->
    find_nul mem n (BOOTINFO_HHDM_BASE +! bi_cmdlinePhys bi) =
    find_nul mem' n (BOOTINFO_HHDM_BASE +! bi_cmdlinePhys bi)).
  { intros n Hn. apply find_nul_ext. intros k Hk. rewrite <- Z.add_assoc.
    apply (Hrec r); [done..|]. unfold covers. lia. }
  cbv zeta. rewrite Hnul; [done|]. pose proof Hw as Hall. rewrite Forall_forall in Hall.
  destruct (Hall r Hr), Hbi. rewrite u64_sub_small by (words; lia).
  destruct (_ >? _) eqn:E; bprop; biconsts; lia.
Qed.

(** A byte of USABLE memory has no influence. *)
Lemma bootInfoValidate_local_witness :
  bootInfoValidate sample_kstart (sample_kstart + 0x2000)
    (fun va => if va =? BOOTINFO_HHDM_BASE + 0x1234 then 0x90 else sample_mem va)
    (BOOTINFO_HHDM_BASE + 0x6000) sample_bi = None.
Proof.
  rewrite <- sample_bi_accepted. symmetry. apply bootInfoValidate_local.
  - exact sample_mem_ok.
  - intros va. destruct (_ =? _); [words; lia|apply sample_mem_ok].
  - exact sample_bi_ok.
  - intros _ k Hk. simpl in Hk |- *. biconsts. by rewrite (proj2 (Z.eqb_neq _ _)) by lia.
  - intros r a Hr Ht Hc.
    assert (He : load_regions sample_mem (BOOTINFO_HHDM_BASE +! 0x5000) 3 = sample_regions)
      by (vm_compute; reflexivity).
    simpl in Hr. rewrite He in Hr. unfold sample_regions in Hr.
    rewrite !elem_of_cons, elem_of_nil in Hr.
    destruct Hr as [-> |[-> |[-> |[]]]]; try discriminate Ht.
    unfold covers in Hc. simpl in Hc. biconsts. words.
    rewrite Z.mod_small by lia. by rewrite (proj2 (Z.eqb_neq _ _)) by lia.
Defined.
