(* ===== verification/BootHeap.v ===== *)
(** * The BIOS loader's page allocator (src/boot/common/bootheap.c)

    A bump allocator over the USABLE regions of the normalized map, clipped to
    [1 MiB, 4 GiB). The C array with its [count] is the list of the regions in
    use. The theorems follow a whole run: the blocks handed out are pairwise
    disjoint, page aligned and inside memory the map reports USABLE. *)

From S2P Require Import Prelude BootTypes MemMap.

(** Models src/boot/common/include/bootheap.h:16-16, BOOT_HEAP_MIN. *)
Definition BOOT_HEAP_MIN : Z := 0x100000.
(** Models src/boot/common/include/bootheap.h:17-17, BOOT_HEAP_MAX. *)
Definition BOOT_HEAP_MAX : Z := 0x100000000.
(** Models src/boot/common/include/bootheap.h:18-18, BOOT_HEAP_PAGE_SIZE. *)
Definition BOOT_HEAP_PAGE_SIZE : Z := 2 ^ 12.
(** Models src/boot/common/include/bootheap.h:19-19, BOOT_HEAP_MAX_REGIONS. *)
Definition BOOT_HEAP_MAX_REGIONS : Z := 64.

(** Models src/boot/common/include/bootheap.h:21-24, BootHeapRegion. *)
Record BootHeapRegion := { hr_base : Z; hr_end : Z }.
(** Models src/boot/common/include/bootheap.h:26-29, BootHeap. *)
Definition BootHeap := list BootHeapRegion.

(** Models src/boot/common/bootheap.c:9-27, bootHeapInit (the clipping of one region). *)
Definition clip_region (r : BootMemRegion) : option BootHeapRegion :=
  if negb (mr_type r =? BOOT_MEM_USABLE) then None else
  let base := mr_base r in
  let e := base +! mr_length r in
  if e <? base then None else
  let base := if base <? BOOT_HEAP_MIN then BOOT_HEAP_MIN else base in
  let e := if e >? BOOT_HEAP_MAX then BOOT_HEAP_MAX else e in
  let base := bootAlignUp base BOOT_HEAP_PAGE_SIZE in
  let e := bootAlignDown e BOOT_HEAP_PAGE_SIZE in
  if e <=? base then None else Some {| hr_base := base; hr_end := e |}.

(** Models src/boot/common/bootheap.c:6-36, bootHeapInit. *)
Fixpoint heap_init (heap : BootHeap) (regions : list BootMemRegion) : BootStatus * BootHeap :=
  match regions with
  | [] => (BOOT_OK, heap)
  | r :: rest =>
      match clip_region r with
      | None => heap_init heap rest
      | Some hr =>
          if BOOT_HEAP_MAX_REGIONS <=? zlen heap then (BOOT_ERR_MEMMAP_CAPACITY, heap)
          else heap_init (heap ++ [hr]) rest
      end
  end.

(** Models src/boot/common/bootheap.c:6-36, bootHeapInit. *)
Definition bootHeapInit (regions : list BootMemRegion) : BootStatus * BootHeap :=
  heap_init [] regions.

(** The allocated address ([*outPhys]) and the heap after; [None] is
    [BOOT_ERR_NO_MEMORY], which leaves both untouched. *)
(** Models src/boot/common/bootheap.c:40-48, bootHeapAllocPages (the first-fit loop). *)
Fixpoint heap_take (need : Z) (heap : BootHeap) : option (Z * BootHeap) :=
  match heap with
  | [] => None
  | r :: rest =>
      if need <=? (hr_end r -! hr_base r)
      then Some (hr_base r, {| hr_base := hr_base r +! need; hr_end := hr_end r |} :: rest)
      else '(p, rest) ← heap_take need rest; Some (p, r :: rest)
  end.

(** Models src/boot/common/bootheap.c:38-49, bootHeapAllocPages. *)
Definition bootHeapAllocPages (heap : BootHeap) (pages : Z) : BootStatus * option Z * BootHeap :=
  match heap_take (pages *! BOOT_HEAP_PAGE_SIZE) heap with
  | Some (p, heap) => (BOOT_OK, Some p, heap)
  | None => (BOOT_ERR_NO_MEMORY, None, heap)
  end.

(** A run of requests: the blocks (address, bytes) handed out, in order. *)
Fixpoint heap_run (heap : BootHeap) (requests : list Z) : list (Z * Z) * BootHeap :=
  match requests with
  | [] => ([], heap)
  | pages :: rest =>
      match bootHeapAllocPages heap pages with
      | (_, Some p, heap) =>
          let '(blocks, heap) := heap_run heap rest in
          ((p, pages * BOOT_HEAP_PAGE_SIZE) :: blocks, heap)
      | (_, None, heap) => heap_run heap rest
      end
  end.

(** ** Invariant *)

Record heap_region_ok (r : BootHeapRegion) : Prop := {
  hro_lo : BOOT_HEAP_MIN <= hr_base r;
  hro_le : hr_base r <= hr_end r;
  hro_hi : hr_end r <= BOOT_HEAP_MAX;
  hro_bal : hr_base r mod BOOT_HEAP_PAGE_SIZE = 0;
  hro_eal : hr_end r mod BOOT_HEAP_PAGE_SIZE = 0 }.

Definition before (r s : BootHeapRegion) : Prop := hr_end r <= hr_base s.

Record heap_inv (h : BootHeap) : Prop := {
  hi_ok : Forall heap_region_ok h;
  hi_sorted : StronglySorted before h }.

(** Address [a] is still available. *)
Definition free_at (h : BootHeap) (a : Z) : Prop :=
  exists r, r ∈ h /\ hr_base r <= a < hr_end r.

Lemma free_at_cons r h a : free_at (r :: h) a <-> hr_base r <= a < hr_end r \/ free_at h a.
Proof.
  unfold free_at. split.
  - intros (s & [-> |Hs]%elem_of_cons & Ha); eauto.
  - intros [Ha|(s & Hs & Ha)]; eexists; rewrite elem_of_cons; eauto.
Qed.

Ltac heapconsts := unfold BOOT_HEAP_MIN, BOOT_HEAP_MAX, BOOT_HEAP_PAGE_SIZE in *.

(** ** Initialization *)

(** The input contract is a normalized map: with an unaligned base in the top page of
    the address space the round-up would wrap to 0. *)
Lemma clip_region_spec r hr :
  region_ok r -> clip_region r = Some hr ->
  mr_type r = BOOT_MEM_USABLE /\ heap_region_ok hr /\
  mr_base r <= hr_base hr /\ hr_end hr <= mr_base r + mr_length r /\ hr_base hr < hr_end hr.
Proof.
  intros [Hb Hl Hend Hbal _ _ _]. change MEM_MAP_PAGE_SIZE with (2 ^ 12) in Hbal.
  unfold clip_region. destruct (mr_type r =? _) eqn:Et; [|done]. simpl.
  rewrite (u64_small (mr_base r + mr_length r)) by (words; lia).
  rewrite (proj2 (Z.ltb_ge _ (mr_base r))) by lia. bprop.
  set (b := if _ <? _ then _ else _). set (e := if _ >? _ then _ else _).
  assert (Hbb : is_u64 b /\ mr_base r <= b /\ BOOT_HEAP_MIN <= b /\ b mod 2 ^ 12 = 0)
    by (subst b; destruct (_ <? _) eqn:?; bprop; heapconsts; words; split_and!; done || lia).
  assert (He : is_u64 e /\ e <= mr_base r + mr_length r /\ e <= BOOT_HEAP_MAX)
    by (subst e; destruct (_ >? _) eqn:?; bprop; heapconsts; words; split_and!; done || lia).
  heapconsts. rewrite bootAlignUp_aligned by (lia || tauto).
  destruct (bootAlignDown_spec 12 ltac:(lia) e ltac:(tauto)) as [Hd1 Hd2].
  destruct (_ <=? _) eqn:Ee; [done|]. intros [= <-]. bprop.
  split; [done|]. split; [split; simpl; heapconsts; lia|]. simpl. lia.
Qed.

(** Nothing is lost by clipping: a page of a USABLE region inside the window stays. *)
Lemma clip_region_complete r a :
  region_ok r -> mr_type r = BOOT_MEM_USABLE -> covers r a ->
  BOOT_HEAP_MIN <= a < BOOT_HEAP_MAX ->
  exists hr, clip_region r = Some hr /\ hr_base hr <= a < hr_end hr.
Proof.
  intros [Hb Hl Hend Hbal Hlal _ _] Hty Hcov Ha. unfold covers in Hcov.
  change MEM_MAP_PAGE_SIZE with (2 ^ 12) in *.
  assert (Heal : (mr_base r + mr_length r) mod 2 ^ 12 = 0) by dlia.
  unfold clip_region. rewrite Hty. simpl.
  rewrite (u64_small (mr_base r + mr_length r)) by (words; lia).
  rewrite (proj2 (Z.ltb_ge _ (mr_base r))) by lia.
  set (b := if _ <? _ then _ else _). set (e := if _ >? _ then _ else _).
  assert (Hbb : is_u64 b /\ b <= a /\ b mod 2 ^ 12 = 0)
    by (subst b; destruct (_ <? _) eqn:?; bprop; heapconsts; words; split_and!; done || lia).
  assert (He : is_u64 e /\ a < e /\ e mod 2 ^ 12 = 0)
    by (subst e; destruct (_ >? _) eqn:?; bprop; heapconsts; words; split_and!; done || lia).
  heapconsts. rewrite bootAlignUp_aligned by (lia || tauto).
  rewrite bootAlignDown_eq by (lia || tauto).
  rewrite (proj2 (Z.leb_gt _ _)) by lia. eexists. split; [done|]. simpl. lia.
Qed.

(** The regions after [heap_init], as a function of the input. *)
Definition clip_all (rs : list BootMemRegion) : list BootHeapRegion := omap clip_region rs.

Lemma clip_all_cons r rs :
  clip_all (r :: rs) = match clip_region r with Some hr => hr :: clip_all rs | None => clip_all rs end.
Proof. reflexivity. Qed.

Lemma heap_init_eq rs h :
  match heap_init h rs with
  | (BOOT_OK, h') => h' = h ++ clip_all rs
  | (BOOT_ERR_MEMMAP_CAPACITY, _) => BOOT_HEAP_MAX_REGIONS < zlen (h ++ clip_all rs)
  | _ => False
  end.
Proof.
  revert h. induction rs as [|r rs IH]; intros h; cbn [heap_init]; rewrite ?clip_all_cons.
  { by rewrite app_nil_r. }
  destruct (clip_region r) as [hr|] eqn:Ec; [|apply IH].
  destruct (_ <=? _) eqn:E; bprop.
  - rewrite zlen_app, zlen_cons. unfold zlen in *. lia.
  - specialize (IH (h ++ [hr])). by rewrite <- app_assoc in IH.
Qed.

Lemma omap_clip_elem rs hr :
  hr ∈ clip_all rs <-> exists r, r ∈ rs /\ clip_region r = Some hr.
Proof. apply list_elem_of_omap. Qed.

Lemma omap_clip_inv rs :
  Forall region_ok rs -> Sorted follows rs -> heap_inv (clip_all rs).
Proof.
  intros Hok Hs. split.
  - apply Forall_forall. intros hr (r & Hr & Hc)%omap_clip_elem.
    rewrite Forall_forall in Hok. by apply (clip_region_spec r hr (Hok r Hr)) in Hc as (_&?&_).
  - assert (Hss : StronglySorted (fun r s => mr_base r + mr_length r <= mr_base s) rs).
    { clear -Hok Hs. induction rs as [|r rs IH]; [constructor|].
      inversion Hok as [|? ? Hr Hrs]; inversion Hs as [|? ? Hs' Hd]; subst.
      specialize (IH Hrs Hs'). constructor; [done|]. apply Forall_forall. intros s Hin.
      destruct Hd as [|t rs [Ht _]]; [by apply elem_of_nil in Hin|].
      apply elem_of_cons in Hin as [-> |Hin]; [done|].
      inversion IH as [|? ? _ Hall]; subst. rewrite Forall_forall in Hall.
      specialize (Hall s Hin). inversion Hrs as [|? ? []]; subst. lia. }
    clear Hs. induction Hss as [|r rs Hss IH Hall]; [constructor|]. rewrite clip_all_cons.
    inversion Hok as [|? ? Hr Hrs]; subst. specialize (IH Hrs).
    destruct (clip_region r) as [hr|] eqn:Ec; [|done]. constructor; [done|].
    apply Forall_forall. intros hs (s & Hin & Hc)%omap_clip_elem.
    rewrite Forall_forall in Hall, Hrs. specialize (Hall s Hin). simpl in Hall.
    apply clip_region_spec in Ec as (_&_&_&?&_); [|done].
    apply clip_region_spec in Hc as (_&_&?&_&_); [|auto]. unfold before. lia.
Qed.

(** ** Allocation *)

Lemma heap_take_spec need h p h' :
  0 <= need -> need mod BOOT_HEAP_PAGE_SIZE = 0 -> heap_inv h -> heap_take need h = Some (p, h') ->
  heap_inv h' /\ Forall2 (fun r s => hr_base r <= hr_base s /\ hr_end s = hr_end r) h h' /\
  p mod BOOT_HEAP_PAGE_SIZE = 0 /\ BOOT_HEAP_MIN <= p /\ p + need <= BOOT_HEAP_MAX /\
  (forall a, p <= a < p + need -> free_at h a) /\
  (forall a, free_at h' a <-> free_at h a /\ ~ p <= a < p + need).
Proof.
  intros Hn Hal [Hok Hs]. revert p h'. induction Hs as [|r h Hs IH Hall]; intros p h'; [done|].
  cbn [heap_take]. inversion Hok as [|? ? Hr Hrs]; subst. pose proof Hr as [H1 H2 H3 H4 H5].
  rewrite (u64_small (hr_end r - hr_base r)) by (heapconsts; words; lia).
  rewrite Forall_forall in Hall, Hrs.
  assert (Hafter : forall a, free_at h a -> hr_end r <= a).
  { intros a (s & Hin & Ha). specialize (Hall s Hin). unfold before in Hall. lia. }
  destruct (need <=? _) eqn:E; bprop.
  - intros [= <- <-]. rewrite (u64_small (hr_base r + need)) by (heapconsts; words; lia).
    split_and!; [| |done|lia|lia| |].
    + split; constructor; [|by apply Forall_forall|done|].
      * split; simpl; try lia. heapconsts. dlia.
      * apply Forall_forall. intros s Hin. unfold before. simpl. by apply Hall.
    + constructor; [simpl; lia|]. clear. induction h; constructor; [lia|done].
    + intros a Ha. rewrite free_at_cons. lia.
    + intros a. rewrite !free_at_cons. simpl. specialize (Hafter a).
      split; [intros [Ha|Ha]|]; [lia| |].
      * specialize (Hafter Ha). split; [tauto|lia].
      * intros [[Ha|Ha] Hno]; [left; lia|tauto].
  - destruct (heap_take need h) as [[q h'']|] eqn:Et; [|done]. intros [= <- <-].
    destruct (IH ltac:(by apply Forall_forall) q h'' eq_refl)
      as ([Hok' Hs'] & Hf2 & Hq1 & Hq2 & Hq3 & Hsub & Hfree).
    assert (Hqa : 0 < need -> hr_end r <= q).
    { intros. apply Hafter, Hsub. lia. }
    split_and!; [|by constructor; [lia|]|done..| |].
    + split; constructor; [done..|]. apply Forall_forall. intros s Hin.
      apply list_elem_of_lookup in Hin as [i Hi].
      destruct (Forall2_lookup_r _ _ _ _ _ Hf2 Hi) as (t & Ht & Hle & _).
      apply list_elem_of_lookup_2, Hall in Ht. unfold before in *. lia.
    + intros a Ha. rewrite free_at_cons. auto.
    + intros a. rewrite !free_at_cons, Hfree. split; [|tauto].
      intros [Ha|]; [|tauto]. split; [tauto|]. intros ?. specialize (Hqa ltac:(lia)). lia.
Qed.

Lemma heap_take_None need h :
  heap_inv h -> heap_take need h = None <-> Forall (fun r => hr_end r - hr_base r < need) h.
Proof.
  intros [Hok _]. induction Hok as [|r h [] Hh IH]; cbn [heap_take]; [done|].
  rewrite (u64_small (hr_end r - hr_base r)) by (heapconsts; words; lia).
  rewrite Forall_cons, <- IH. destruct (_ <=? _) eqn:E; bprop.
  - split; [done|]. lia.
  - destruct (heap_take need h) as [[]|]; simpl; (split; [|intros [_ H]; revert H]); done || (intros; tauto || done).
Qed.

Definition block_ok (b : Z * Z) : Prop :=
  b.1 mod BOOT_HEAP_PAGE_SIZE = 0 /\ BOOT_HEAP_MIN <= b.1 /\ b.1 + b.2 <= BOOT_HEAP_MAX.

Definition in_block (b : Z * Z) (a : Z) : Prop := b.1 <= a < b.1 + b.2.

Definition disjoint_blocks (b c : Z * Z) : Prop := forall a, in_block b a -> ~ in_block c a.

Lemma pages_bytes pages :
  is_u32 pages -> pages *! BOOT_HEAP_PAGE_SIZE = pages * BOOT_HEAP_PAGE_SIZE.
Proof. intros. apply u64_small. heapconsts. words. lia. Qed.

Lemma heap_run_spec h reqs blocks h' :
  Forall is_u32 reqs -> heap_inv h -> heap_run h reqs = (blocks, h') ->
  heap_inv h' /\ Forall block_ok blocks /\ StronglySorted disjoint_blocks blocks /\
  (forall a, free_at h a <-> free_at h' a \/ exists b, b ∈ blocks /\ in_block b a) /\
  (forall b a, b ∈ blocks -> in_block b a -> ~ free_at h' a).
Proof.
  intros Hreq. revert h blocks. induction Hreq as [|n reqs Hn Hreq IH]; intros h blocks Hi.
  { intros [= <- <-]. split_and!; [done|constructor..| |].
    - intros a. split; [auto|]. intros [|(b & []%elem_of_nil & _)]. done.
    - intros b a []%elem_of_nil. }
  cbn [heap_run]. unfold bootHeapAllocPages. rewrite pages_bytes by done.
  destruct (heap_take _ h) as [[p h1]|] eqn:Et; [|apply IH; done].
  destruct (heap_run h1 reqs) as [bs h2] eqn:Er. intros [= <- <-].
  apply heap_take_spec in Et as (Hi1 & _ & Hp1 & Hp2 & Hp3 & Hsub & Hfree);
    [|heapconsts; words; lia|apply Z.mod_mul; done|done].
  destruct (IH h1 bs Hi1 Er) as (Hi2 & Hbs & Hss & Hall & Hno).
  split_and!; [done|by constructor| | |].
  - constructor; [done|]. apply Forall_forall. intros c Hc a Ha Hca.
    assert (Hf : free_at h1 a) by (apply Hall; eauto). by apply Hfree in Hf as [_ ?].
  - intros a. specialize (Hfree a). specialize (Hall a). specialize (Hsub a). split.
    + intros Ha. destruct (decide (p <= a < p + n * BOOT_HEAP_PAGE_SIZE)) as [Hin|Hout].
      * right. exists (p, n * BOOT_HEAP_PAGE_SIZE). rewrite elem_of_cons. eauto.
      * destruct (proj1 Hall) as [|(b & Hb & Hba)]; [tauto|auto|].
        right. exists b. rewrite elem_of_cons. auto.
    + intros [Ha|(b & [-> |Hb]%elem_of_cons & Hba)]; [tauto|auto|].
      apply Hfree, Hall. eauto.
  - intros b a [-> |Hb]%elem_of_cons Hba Hf; [|by apply (Hno b a)].
    assert (Hf1 : free_at h1 a) by (apply Hall; auto). by apply Hfree in Hf1 as [_ ?].
Qed.

Lemma init_free_at rs a :
  Forall region_ok rs ->
  free_at (clip_all rs) a <-> reports rs a BOOT_MEM_USABLE /\ BOOT_HEAP_MIN <= a < BOOT_HEAP_MAX.
Proof.
  intros Hok. rewrite Forall_forall in Hok. split.
  - intros (hr & (r & Hr & Hc)%omap_clip_elem & Ha).
    apply clip_region_spec in Hc as (Hty & [] & ? & ? & _); [|auto].
    split; [|lia]. exists r. unfold covers. split_and!; (done || lia).
  - intros [(r & Hr & Hc & Hty) Ha].
    destruct (clip_region_complete r a) as (hr & Hch & Hin); [by auto..|].
    exists hr. split; [|done]. apply omap_clip_elem. eauto.
Qed.

(** ** Properties *)

Lemma init_spec rs h :
  bootHeapInit rs = (BOOT_OK, h) -> h = clip_all rs.
Proof. intros H. pose proof (heap_init_eq rs []) as He. unfold bootHeapInit in H. by rewrite H in He. Qed.

(** Every run of allocations on a heap built from a normalized firmware map
    hands out page-aligned blocks inside [1 MiB, 4 GiB) that are pairwise disjoint
    and lie in memory the map reports USABLE; and no memory is lost: an address is
    USABLE in that window exactly when it is in a block or still free. *)
Theorem bootHeap_run_safe ins cap rs h reqs blocks h' :
  Forall input_ok ins -> memMapNormalize ins cap = (BOOT_OK, rs) ->
  bootHeapInit rs = (BOOT_OK, h) -> Forall is_u32 reqs -> heap_run h reqs = (blocks, h') ->
  Forall block_ok blocks /\ StronglySorted disjoint_blocks blocks /\
  forall a, reports rs a BOOT_MEM_USABLE /\ BOOT_HEAP_MIN <= a < BOOT_HEAP_MAX <->
    free_at h' a \/ exists b, b ∈ blocks /\ in_block b a.
Proof.
  intros Hins Hrun Hinit Hreq Hall. apply normalize_spec in Hrun as (Hok & Hs & _); [|done].
  apply init_spec in Hinit as ->. apply heap_run_spec in Hall as (_&Hb&Hd&Hex&_);
    [|done|by apply omap_clip_inv].
  split_and!; [done..|]. intros a. by rewrite <- Hex, init_free_at.
Qed.

Lemma bootHeap_run_safe_witness :
  reports sample_out 0x103000 BOOT_MEM_USABLE.
Proof.
  destruct (bootHeap_run_safe sample_map 8 sample_out
    [{| hr_base := 0x102000; hr_end := 0x200000 |}] [2; 0x1000; 1]
    [(0x102000, 0x2000); (0x104000, 0x1000)] [{| hr_base := 0x105000; hr_end := 0x200000 |}]
    sample_map_ok sample_map_run) as (_ & _ & H).
  - vm_compute. reflexivity.
  - repeat (constructor; [words; lia|]). constructor.
  - vm_compute. reflexivity.
  - apply H. right. eexists. split; [left|]. unfold in_block. simpl. lia.
Defined.

(** An allocation fails exactly when every region has fewer than the requested
    pages left, and a failing call leaves the heap as it was. *)
Theorem bootHeapAllocPages_exhausted h pages :
  heap_inv h -> is_u32 pages ->
  bootHeapAllocPages h pages = (BOOT_ERR_NO_MEMORY, None, h) <->
  Forall (fun r => hr_end r - hr_base r < pages * BOOT_HEAP_PAGE_SIZE) h.
Proof.
  intros Hi Hp. rewrite <- heap_take_None by done. unfold bootHeapAllocPages.
  rewrite pages_bytes by done. destruct (heap_take _ h) as [[]|]; done.
Qed.

Lemma bootHeapAllocPages_exhausted_witness :
  bootHeapAllocPages [{| hr_base := 0x100000; hr_end := 0x102000 |}] 3 =
  (BOOT_ERR_NO_MEMORY, None, [{| hr_base := 0x100000; hr_end := 0x102000 |}]).
Proof.
  apply bootHeapAllocPages_exhausted; [|words; lia|].
  - split; repeat constructor; simpl; heapconsts; lia.
  - repeat constructor.
Defined.
