(* ===== verification/Kaslr.v ===== *)
(** * KASLR slide selection (src/boot/common/bootkaslr.c)

    A pure function from the 64-byte seed and the image span to a slide. The
    theorems: the slide is aligned and keeps the image in the window the kernel
    checks, and the seed hash loses nothing (each round is a bijection, so every
    seed byte matters). *)

From S2P Require Import Prelude BootTypes BootInfoCheck.

(** Models src/boot/common/include/bootkaslr.h:11-11, BOOT_KASLR_SEED_BYTES. *)
Definition BOOT_KASLR_SEED_BYTES : Z := 64.
(** Models src/boot/common/include/bootkaslr.h:12-12, BOOT_KASLR_ALIGN. *)
Definition BOOT_KASLR_ALIGN : Z := 2 ^ 21.
(** Models src/boot/common/include/bootkaslr.h:13-13, BOOT_KASLR_WINDOW. *)
Definition BOOT_KASLR_WINDOW : Z := 0x20000000.

Definition MIX_A : Z := 0xBF58476D1CE4E5B9.
Definition MIX_B : Z := 0x94D049BB133111EB.

(** Models src/boot/common/bootkaslr.c:12-16, mix64. *)
Definition mix64 (z : Z) : Z :=
  let z := (z .^ (z >>! 30)) *! MIX_A in
  let z := (z .^ (z >>! 27)) *! MIX_B in
  z .^ (z >>! 31).

(** Models src/boot/common/bootkaslr.c:18-24, leU64. *)
Definition leU64 (p : list Z) : Z :=
  fold_left (fun v b => (v <<! 8) .| b) (rev (take 8 p)) 0.

(** Models src/boot/common/bootkaslr.c:39-42, bootKaslrPickSlide (the seed hash; [n] of the
    eight rounds are left). *)
Fixpoint seed_hash (n : nat) (h : Z) (seed : list Z) : Z :=
  match n with
  | O => h
  | S n => seed_hash n (mix64 (h .^ leU64 seed)) (drop 8 seed)
  end.

Definition KASLR_DOMAIN : Z := 0x4B41534C52534C44.

(** [None] models a NULL [seed]. *)
(** Models src/boot/common/bootkaslr.c:26-48, bootKaslrPickSlide. *)
Definition bootKaslrPickSlide (seed : option (list Z)) (span : Z) : BootStatus * option Z :=
  match seed with
  | None => (BOOT_ERR_ELF_HEADER, None)
  | Some seed =>
      if (span =? 0) || (span >? BOOT_KASLR_WINDOW) then (BOOT_ERR_ELF_RANGE, None) else
      let need := bootAlignUp span BOOT_KASLR_ALIGN in
      if need >? BOOT_KASLR_WINDOW then (BOOT_ERR_ELF_RANGE, None) else
      let slots := ((BOOT_KASLR_WINDOW -! need) >>! 21) +! 1 in
      let h := seed_hash 8 KASLR_DOMAIN seed in
      let slot := (u32 (h >>! 32) *! slots) >>! 32 in
      (BOOT_OK, Some (slot <<! 21))
  end.

(** ** The mixer is a bijection on 64-bit words *)

Definition xorshift (k z : Z) : Z := z .^ (z >>! k).

(** Iterating the xor-shift recovers the word from the top down. *)
Lemma xorshift_inj k z z' :
  0 < k -> is_u64 z -> is_u64 z' -> xorshift k z = xorshift k z' -> z = z'.
Proof.
  intros Hk Hz Hz' He. apply Z.bits_inj'. intros i Hi.
  assert (Hhigh : forall w j, is_u64 w -> 64 <= j -> Z.testbit w j = false).
  { intros w j Hw Hj. rewrite <- (Z.mod_small w (2 ^ 64)) by done.
    rewrite Z.testbit_mod_pow2 by lia. by rewrite (proj2 (Z.ltb_ge j 64)) by lia. }
  assert (Hb : forall j, 0 <= j -> xorb (Z.testbit z j) (Z.testbit z (j + k)) =
                                   xorb (Z.testbit z' j) (Z.testbit z' (j + k))).
  { intros j Hj. pose proof (f_equal (fun w => Z.testbit w j) He) as Hj'. simpl in Hj'.
    unfold xorshift in Hj'. by rewrite !Z.lxor_spec, !Z.shiftr_spec in Hj' by lia. }
  assert (Hind : forall n : nat, forall j, 0 <= j -> 64 <= j + Z.of_nat n -> 
    Z.testbit z j = Z.testbit z' j).
  { intros n. induction n as [|n IH]; intros j Hj Hn.
    - by rewrite !Hhigh by (done || lia).
    - specialize (Hb j Hj). rewrite (IH (j + k)) in Hb by lia.
      by destruct (Z.testbit z j), (Z.testbit z' j), (Z.testbit z' (j + k)). }
  apply (Hind 64%nat); lia.
Qed.

Lemma xorshift_u64 k z : 0 <= k -> is_u64 z -> is_u64 (xorshift k z).
Proof. intros. apply lxor_u64; [done|]. by apply shiftr_u64. Qed.

(** Multiplication by an odd constant is invertible. *)
Lemma mul_inj a inv z z' :
  (a * inv) mod 2 ^ 64 = 1 -> is_u64 z -> is_u64 z' -> z *! a = z' *! a -> z = z'.
Proof.
  intros Hinv Hz Hz' He.
  assert (Hback : forall w, is_u64 w -> u64 (u64 (w * a) * inv) = w).
  { intros w Hw. unfold u64. rewrite Zmult_mod_idemp_l, <- Z.mul_assoc.
    rewrite <- Zmult_mod_idemp_r, Hinv, Z.mul_1_r. by apply Z.mod_small. }
  rewrite <- (Hback z), <- (Hback z') by done. by rewrite He.
Qed.

Lemma mix64_u64 z : is_u64 z -> is_u64 (mix64 z).
Proof. intros. apply (xorshift_u64 31); [lia|apply u64_range]. Qed.

Lemma mix64_inj z z' : is_u64 z -> is_u64 z' -> mix64 z = mix64 z' -> z = z'.
Proof.
  intros Hz Hz' He. change (mix64 z) with
    (xorshift 31 (u64 (xorshift 27 (u64 (xorshift 30 z * MIX_A)) * MIX_B))) in He.
  change (mix64 z') with
    (xorshift 31 (u64 (xorshift 27 (u64 (xorshift 30 z' * MIX_A)) * MIX_B))) in He.
  apply xorshift_inj in He; [|lia|apply u64_range..].
  apply (mul_inj MIX_B 0x319642B2D24D8EC3) in He;
    [|reflexivity|apply xorshift_u64; [lia|apply u64_range]..].
  apply xorshift_inj in He; [|lia|apply u64_range..].
  apply (mul_inj MIX_A 0x96DE1B173F119089) in He; [|reflexivity|by apply xorshift_u64..].
  by apply xorshift_inj in He; [|lia|..].
Qed.

(** ** The seed hash *)

Lemma shift_or v b : 0 <= v < 2 ^ 56 -> is_u8 b -> (v <<! 8) .| b = b + 256 * v.
Proof.
  intros Hv Hb. rewrite Z.shiftl_mul_pow2 by lia. rewrite u64_small by (words; lia).
  rewrite (add_lor_disjoint _ _ 8); [lia|lia|apply Z.mod_mul; lia|by words].
Qed.

Lemma le_fold l : is_bytes l -> (length l <= 8)%nat ->
  fold_left (fun v b => (v <<! 8) .| b) (rev l) 0 = le_val l.
Proof.
  induction l as [|b l IH]; intros Hb Hl; [done|]. inversion Hb; subst. simpl in Hl.
  cbn [rev le_val]. rewrite fold_left_app, IH by (done || lia). cbn [fold_left].
  apply shift_or; [|done]. pose proof (le_val_range l ltac:(done)) as Hr.
  assert (256 ^ zlen l <= 256 ^ 7) by (apply Z.pow_le_mono_r; unfold zlen; lia).
  change (256 ^ 7) with (2 ^ 56) in *. lia.
Qed.

(** The C loop reads the little-endian value of the next eight bytes. *)
Lemma leU64_spec p : is_bytes p -> leU64 p = le_val (take 8 p).
Proof. intros. apply le_fold; [by apply Forall_take|rewrite length_take; lia]. Qed.

Lemma leU64_u64 p : is_bytes p -> is_u64 (leU64 p).
Proof.
  intros Hp. rewrite leU64_spec by done.
  pose proof (le_val_range (take 8 p) ltac:(by apply Forall_take)) as Hr.
  assert (256 ^ zlen (take 8 p) <= 256 ^ 8)
    by (apply Z.pow_le_mono_r; unfold zlen; rewrite ?length_take; lia).
  change (256 ^ 8) with (2 ^ 64) in *. words. lia.
Qed.

Lemma le_val_inj l l' : is_bytes l -> is_bytes l' -> length l = length l' ->
  le_val l = le_val l' -> l = l'.
Proof.
  intros Hl. revert l'. induction Hl as [|b l Hb Hl IH]; intros [|b' l'] Hl' Hlen He;
    simplify_eq/=; [done|]. inversion Hl'; subst. words.
  assert (b = b' /\ le_val l = le_val l') as [-> Hv] by lia. f_equal. by apply IH.
Qed.

Lemma seed_hash_u64 n h seed : is_u64 h -> is_bytes seed -> is_u64 (seed_hash n h seed).
Proof.
  revert h seed. induction n as [|n IH]; intros h seed Hh Hs; simpl; [done|].
  apply IH; [|by apply Forall_drop]. apply mix64_u64, lxor_u64; [done|by apply leU64_u64].
Qed.

Lemma lxor_cancel h a b : h .^ a = h .^ b -> a = b.
Proof.
  intros H. rewrite <- (Z.lxor_0_l a), <- (Z.lxor_0_l b), <- (Z.lxor_nilpotent h).
  by rewrite !Z.lxor_assoc, H.
Qed.

Lemma seed_hash_inj_h n h h' seed :
  is_u64 h -> is_u64 h' -> is_bytes seed -> seed_hash n h seed = seed_hash n h' seed -> h = h'.
Proof.
  revert h h' seed. induction n as [|n IH]; intros h h' seed Hh Hh' Hs; simpl; [done|].
  pose proof (leU64_u64 seed Hs). intros He.
  apply IH in He; [|by apply mix64_u64, lxor_u64..|by apply Forall_drop].
  apply mix64_inj in He; [|by apply lxor_u64..].
  rewrite !(Z.lxor_comm _ (leU64 seed)) in He. by apply lxor_cancel in He.
Qed.

(** Two seeds that differ only inside one aligned 8-byte word hash differently. *)
Lemma seed_hash_word n h (pre : list Z) w w' post :
  is_u64 h -> is_bytes pre -> is_bytes w -> is_bytes w' -> is_bytes post ->
  length w = 8%nat -> length w' = 8%nat ->
  length pre = (8 * n)%nat -> w <> w' -> forall m, (n < m)%nat ->
  seed_hash m h (pre ++ w ++ post) <> seed_hash m h (pre ++ w' ++ post).
Proof.
  revert h pre. induction n as [|n IH]; intros h pre Hh Hpre Hw Hw' Hpost Hl Hl' Hlen Hne [|m] Hm;
    [lia| |lia|].
  - destruct pre; [|done]. simpl app. cbn [seed_hash].
    rewrite !drop_app_length' by done. intros He.
    assert (Hb : is_bytes (w ++ post)) by by apply Forall_app.
    assert (Hb' : is_bytes (w' ++ post)) by by apply Forall_app.
    apply seed_hash_inj_h in He; [|by apply mix64_u64, lxor_u64, leU64_u64..|done].
    apply mix64_inj in He; [|by apply lxor_u64, leU64_u64..]. apply lxor_cancel in He.
    rewrite !leU64_spec, !take_app_length' in He by done.
    apply Hne, le_val_inj; congruence || done.
  - cbn [seed_hash].
    assert (Ht : forall x, take 8 (pre ++ x) = take 8 pre) by (intros; apply take_app_le; lia).
    assert (Hd : forall x, drop 8 (pre ++ x) = drop 8 pre ++ x) by (intros; apply drop_app_le; lia).
    unfold leU64. rewrite !Ht, !Hd. fold (leU64 pre).
    apply IH; [by apply mix64_u64, lxor_u64, leU64_u64|by apply Forall_drop|done..| |done|lia].
    rewrite length_drop. lia.
Qed.

(** ** The slot reduction *)

Lemma slots_spec need :
  0 < need <= BOOT_KASLR_WINDOW -> need mod 2 ^ 21 = 0 ->
  let slots := ((BOOT_KASLR_WINDOW -! need) >>! 21) +! 1 in
  slots * 2 ^ 21 = BOOT_KASLR_WINDOW - need + 2 ^ 21 /\ 1 <= slots <= 256.
Proof.
  unfold BOOT_KASLR_WINDOW. intros Hn Hal. rewrite Z.shiftr_div_pow2 by lia.
  rewrite (u64_small (_ - need)) by (words; lia).
  assert (H : 0 <= (0x20000000 - need) / 2 ^ 21 < 256) by dlia.
  rewrite u64_small by (words; lia). split; [dlia|lia].
Qed.

Definition reduce (r slots : Z) : Z := (r * slots) / 2 ^ 32.

Lemma reduce_eq r slots :
  is_u32 r -> 1 <= slots <= 256 -> (r *! slots) >>! 32 = reduce r slots.
Proof.
  intros. unfold reduce. rewrite Z.shiftr_div_pow2 by lia. rewrite u64_small; [done|]. words. nia.
Qed.

Lemma reduce_range r slots : is_u32 r -> 1 <= slots -> 0 <= reduce r slots < slots.
Proof.
  intros Hr Hs. unfold reduce. words. split; [apply Z.div_pos; nia|].
  apply Z.div_lt_upper_bound; nia.
Qed.

(** The 32-bit words that pick slot [j] form an interval, whose size is the average
    rounded down or up. *)
Lemma reduce_preimage slots j :
  1 <= slots <= 256 -> 0 <= j < slots ->
  exists lo hi, 0 <= lo /\ hi <= 2 ^ 32 /\ 2 ^ 32 / slots <= hi - lo <= 2 ^ 32 / slots + 1 /\
    forall r, is_u32 r -> reduce r slots = j <-> lo <= r < hi.
Proof.
  intros Hs Hj. set (cd := fun x => (x + slots - 1) / slots).
  assert (Hcd : forall x r, cd x <= r <-> x <= r * slots).
  { intros x r. unfold cd. Z.to_euclidean_division_equations. nia. }
  assert (Hdiv : forall r, reduce r slots = j <-> j * 2 ^ 32 <= r * slots < (j + 1) * 2 ^ 32).
  { intros r. unfold reduce. generalize (r * slots). intros x. split; [intros <-; dlia|].
    intros Hx. symmetry. apply Z.div_unique with (x - j * 2 ^ 32); lia. }
  exists (cd (j * 2 ^ 32)), (cd ((j + 1) * 2 ^ 32)). split_and!.
  - unfold cd. apply Z.div_pos; lia.
  - apply Hcd. nia.
  - unfold cd. Z.to_euclidean_division_equations. nia.
  - unfold cd. Z.to_euclidean_division_equations. nia.
  - intros r Hr. rewrite Hdiv, (Hcd (j * 2 ^ 32) r).
    specialize (Hcd ((j + 1) * 2 ^ 32) r). lia.
Qed.

(** ** Properties *)

Lemma pick_slide_spec seed span :
  is_bytes seed -> 0 < span <= BOOT_KASLR_WINDOW ->
  let need := bootAlignUp span BOOT_KASLR_ALIGN in
  let slots := (BOOT_KASLR_WINDOW - need) / 2 ^ 21 + 1 in
  let r := seed_hash 8 KASLR_DOMAIN seed / 2 ^ 32 in
  is_u32 r /\ span <= need <= BOOT_KASLR_WINDOW /\ 1 <= slots <= 256 /\
  (slots - 1) * 2 ^ 21 + need = BOOT_KASLR_WINDOW /\
  bootKaslrPickSlide (Some seed) span = (BOOT_OK, Some (reduce r slots * 2 ^ 21)).
Proof.
  intros Hs Hspan need slots r.
  assert (Hup : need mod 2 ^ 21 = 0 /\ span <= need < span + 2 ^ 21).
  { subst need. unfold BOOT_KASLR_WINDOW in *.
    apply (bootAlignUp_spec 21); [lia|words; lia|words; lia]. }
  assert (Hn : 0 < need <= BOOT_KASLR_WINDOW)
    by (unfold BOOT_KASLR_WINDOW in *; clearbody need; dlia).
  destruct (slots_spec need Hn (proj1 Hup)) as [Hsl Hsr].
  pose proof (seed_hash_u64 8 KASLR_DOMAIN seed ltac:(words; done) Hs) as Hh.
  assert (Hr : is_u32 r) by (subst r; words; dlia).
  assert (Hse : ((BOOT_KASLR_WINDOW -! need) >>! 21) +! 1 = slots)
    by (subst slots; clearbody need; unfold BOOT_KASLR_WINDOW in *; dlia).
  rewrite Hse in *. split; [done|]. split; [lia|]. split; [lia|]. split; [lia|].
  unfold bootKaslrPickSlide. fold need.
  rewrite (proj2 (Z.eqb_neq span 0)), (Z.gtb_ltb span), (Z.gtb_ltb need), !(proj2 (Z.ltb_ge _ _))
    by lia. cbn [orb]. cbv zeta. rewrite Hse.
  replace (u32 (seed_hash 8 KASLR_DOMAIN seed >>! 32)) with r
    by (rewrite Z.shiftr_div_pow2, u32_small by lia || done; done).
  rewrite reduce_eq by done. do 2 f_equal.
  pose proof (reduce_range r slots Hr ltac:(lia)).
  rewrite Z.shiftl_mul_pow2, u64_small by lia || (words; lia). done.
Qed.

(** A slide exists exactly for spans from 1 byte to the window size, and the
    loader's choice passes the kernel's own header check, whatever the seed: a
    BootInfo that is right in every other respect, with this slide and the image
    slid by it, is accepted. *)
Theorem bootKaslrPickSlide_accepted seed span :
  is_bytes seed -> is_u64 span ->
  match bootKaslrPickSlide (Some seed) span with
  | (BOOT_OK, Some slide) =>
      0 < span <= BOOT_KASLR_WINDOW /\
      forall bi, bi_ok bi -> header_ids bi ->
        bi_hhdmBase bi = BOOTINFO_HHDM_BASE -> bi_kernelPhysBase bi mod BOOTINFO_PAGE_SIZE = 0 ->
        1 <= bi_memMapCount bi <= BOOTINFO_MEMMAP_MAX ->
        bi_memMapPhys bi + bi_memMapCount bi * sizeof_BootMemRegion <= BOOTINFO_HHDM_SIZE ->
        bi_kaslrSlide bi = slide -> bi_kernelSize bi = span ->
        bi_kernelVirtBase bi = BOOTINFO_KERNEL_WINDOW_BASE + slide ->
        bootInfoCheckHeader (BOOTINFO_KERNEL_WINDOW_BASE + slide)
          (BOOTINFO_KERNEL_WINDOW_BASE + slide + span) bi = None
  | (BOOT_ERR_ELF_RANGE, None) => ~ 0 < span <= BOOT_KASLR_WINDOW
  | _ => False
  end.
Proof.
  intros Hseed Hspan.
  destruct (decide (0 < span <= BOOT_KASLR_WINDOW)) as [Hin|Hout].
  2: { unfold bootKaslrPickSlide.
       destruct (span =? 0) eqn:E1, (span >? BOOT_KASLR_WINDOW) eqn:E2; bprop; simpl; try done.
       words. lia. }
  destruct (pick_slide_spec seed span Hseed Hin) as (Hr & Hn & Hsl & Hsum & ->).
  pose proof (reduce_range _ _ Hr (proj1 Hsl)) as Hrd. set (slot := reduce _ _) in *.
  clearbody slot. split; [done|]. intros bi Hok Hids Hhh Hkp Hcnt Hmap Hs Hk Hv.
  apply header_complete; [done..|]. 
  split; rewrite ?Hs, ?Hk, ?Hv; try done.
  - apply Z.mod_mul. done.
  - rewrite u64_small; [lia|]. replace (_ - _) with span by lia. done.
  - unfold BOOT_KASLR_WINDOW in *.
    unfold BOOTINFO_KERNEL_WINDOW_END, BOOTINFO_KERNEL_WINDOW_BASE. lia.
Qed.

Definition sample_seed : list Z := map (fun i => Z.of_nat i) (seq 1 64).

Lemma sample_seed_bytes : is_bytes sample_seed.
Proof. apply Forall_forall. intros x Hx. apply list_elem_of_In, in_map_iff in Hx as (i & <- & Hi).
  apply in_seq in Hi. words. lia. Qed.

Lemma sample_slide :
  bootKaslrPickSlide (Some sample_seed) 0x345678 = (BOOT_OK, Some 146800640).
Proof. vm_compute. reflexivity. Qed.

Lemma bootKaslrPickSlide_accepted_witness :
  fst (bootKaslrPickSlide (Some sample_seed) 0x345678) = BOOT_OK /\ 0 < 0x345678 <= BOOT_KASLR_WINDOW.
Proof.
  pose proof (bootKaslrPickSlide_accepted sample_seed 0x345678 sample_seed_bytes
                ltac:(words; lia)) as H.
  rewrite sample_slide in H |- *. split; [reflexivity|exact (proj1 H)].
Defined.

(** The slot choice has no modulo bias: among the 2^32 values of the hash word,
    the ones that lead to a given slide form an interval whose length is 2^32/slots
    rounded down or up, and every slide the window has room for is reached. *)
Theorem bootKaslrPickSlide_unbiased span j :
  0 < span <= BOOT_KASLR_WINDOW ->
  let slots := (BOOT_KASLR_WINDOW - bootAlignUp span BOOT_KASLR_ALIGN) / 2 ^ 21 + 1 in
  0 <= j < slots ->
  exists lo hi, 0 <= lo /\ hi <= 2 ^ 32 /\ 2 ^ 32 / slots <= hi - lo <= 2 ^ 32 / slots + 1 /\
    forall seed, is_bytes seed ->
      bootKaslrPickSlide (Some seed) span = (BOOT_OK, Some (j * 2 ^ 21)) <->
      lo <= seed_hash 8 KASLR_DOMAIN seed / 2 ^ 32 < hi.
Proof.
  intros Hspan slots Hj.
  destruct (pick_slide_spec [] span ltac:(constructor) Hspan) as (_ & _ & Hsl & _).
  destruct (reduce_preimage slots j Hsl Hj) as (lo & hi & H1 & H2 & H3 & H4).
  exists lo, hi. split_and!; try lia. intros seed Hs.
  destruct (pick_slide_spec seed span Hs Hspan) as (Hr & _ & _ & _ & ->).
  rewrite <- (H4 _ Hr). fold slots. split; [|by intros ->].
  assert (Hi : forall a b : Z, (BOOT_OK, Some a) = (BOOT_OK, Some b) -> a = b) by congruence.
  intros He%Hi%Z.mul_cancel_r; done.
Qed.

Lemma sample_slots :
  (BOOT_KASLR_WINDOW - bootAlignUp 0x345678 BOOT_KASLR_ALIGN) / 2 ^ 21 + 1 = 255.
Proof. vm_compute. reflexivity. Qed.

Lemma bootKaslrPickSlide_unbiased_witness :
  exists lo hi, 0 <= lo /\ hi <= 2 ^ 32 /\ 2 ^ 32 / 255 <= hi - lo <= 2 ^ 32 / 255 + 1.
Proof.
  pose proof (bootKaslrPickSlide_unbiased 0x345678 7) as H. cbv zeta in H.
  rewrite sample_slots in H.
  destruct H as (lo & hi & H1 & H2 & H3 & _); [unfold BOOT_KASLR_WINDOW; lia|lia|].
  exists lo, hi. exact (conj H1 (conj H2 H3)).
Defined.

(** No seed byte is ignored: two 64-byte seeds that differ only inside one of
    the eight words hash to different values. *)
Theorem kaslr_seed_sensitive pre w w' post :
  is_bytes pre -> is_bytes w -> is_bytes w' -> is_bytes post ->
  length w = 8%nat -> length w' = 8%nat -> (exists n, length pre = 8 * n)%nat ->
  zlen (pre ++ w ++ post) = BOOT_KASLR_SEED_BYTES -> w <> w' ->
  seed_hash 8 KASLR_DOMAIN (pre ++ w ++ post) <> seed_hash 8 KASLR_DOMAIN (pre ++ w' ++ post).
Proof.
  intros Hpre Hw Hw' Hpost Hl Hl' [n Hn] Hlen Hne.
  unfold BOOT_KASLR_SEED_BYTES, zlen in Hlen. rewrite !length_app in Hlen.
  apply (seed_hash_word n); done || lia.
Qed.

Lemma kaslr_seed_sensitive_witness :
  seed_hash 8 KASLR_DOMAIN (replicate 16 1 ++ replicate 8 2 ++ replicate 40 3) <>
  seed_hash 8 KASLR_DOMAIN (replicate 16 1 ++ replicate 8 4 ++ replicate 40 3).
Proof.
  apply kaslr_seed_sensitive; try (apply Forall_replicate; words; lia); try reflexivity.
  - by exists 2%nat.
  - discriminate.
Defined.
