(* ===== verification/BootCfg.v ===== *)
(** * The boot.cfg parser (src/boot/common/bootcfg.c)

    [bootCfgParse] turns the text of boot.cfg into a [BootCfg] of spans (offsets
    into the text), [bootCfgResolveEntry] copies one entry's effective values out.
    A C pointer pair [start, end) into the text is a [View]: the offset of [start]
    and the bytes between. The second function reads the text through the spans of
    the first one, with [peek]: it returns [None] if it ever left the text, and the
    theorems show it never does. *)

From stdpp Require Import strings.
From S2P Require Import Prelude BootTypes.

(** ** Constants and data *)

(** Models src/boot/common/include/bootcfg.h:25-25, BOOT_CFG_FILE_MAX. *)
Definition BOOT_CFG_FILE_MAX : Z := 65536.
(** Models src/boot/common/include/bootcfg.h:26-26, BOOT_CFG_MAX_ENTRIES. *)
Definition BOOT_CFG_MAX_ENTRIES : Z := 9.
(** Models src/boot/common/include/bootcfg.h:27-27, BOOT_CFG_NAME_MAX. *)
Definition BOOT_CFG_NAME_MAX : Z := 63.
(** Models src/boot/common/include/bootcfg.h:28-28, BOOT_CFG_PATH_MAX. *)
Definition BOOT_CFG_PATH_MAX : Z := 256.
(** Models src/boot/common/include/bootcfg.h:30-30, BOOT_CFG_TIMEOUT_MAX. *)
Definition BOOT_CFG_TIMEOUT_MAX : Z := 3600.
(** Models src/boot/common/include/bootcfg.h:31-31, BOOT_CFG_TIMEOUT_FOREVER. *)
Definition BOOT_CFG_TIMEOUT_FOREVER : Z := 0xFFFFFFFF.
(** Models src/boot/common/include/bootcfg.h:32-32, BOOT_CFG_DIM_MAX. *)
Definition BOOT_CFG_DIM_MAX : Z := 16384.

(** Models src/boot/common/include/bootcfg.h:42-44, BootCfgSpan. *)
Record BootCfgSpan := { sp_off : Z; sp_len : Z }.

(** The [setMask] bits say which keys a scope sets; a key with its bit clear is
    [None] here, so no value can be read without its bit. *)
(** Models src/boot/common/include/bootcfg.h:46-51, BootCfgScope. *)
Record BootCfgScope := {
  sc_kernel : option BootCfgSpan;
  sc_initrd : option BootCfgSpan;
  sc_cmdline : option BootCfgSpan;
  sc_resolution : option (Z * Z);
  sc_kaslr : option bool }.

(** Models src/boot/common/include/bootcfg.h:53-57, BootCfgEntryDef. *)
Record BootCfgEntryDef := { ed_name : BootCfgSpan; ed_line : Z; ed_keys : BootCfgScope }.

(** [entries] holds the [entryCount] entries in use. *)
(** Models src/boot/common/include/bootcfg.h:59-68, BootCfg. *)
Record BootCfg := {
  cf_global : BootCfgScope;
  cf_entries : list BootCfgEntryDef;
  cf_timeoutSec : Z;
  cf_defaultIndex : Z;
  cf_unknownKeyCount : Z;
  cf_firstUnknownKeyLine : Z;
  cf_errorLine : Z;
  cf_errorReason : option string }.

Definition cf_entryCount (c : BootCfg) : Z := zlen (cf_entries c).

(** Models src/boot/common/include/bootcfg.h:70-79, BootCfgEntry. *)
Record BootCfgEntry := {
  en_name : list Z; en_kernel : list Z; en_initrd : list Z; en_cmdline : list Z;
  en_resWidth : Z; en_resHeight : Z; en_kaslr : bool; en_cmdlineTruncated : bool }.

Definition zero_span : BootCfgSpan := {| sp_off := 0; sp_len := 0 |}.
Definition zero_scope : BootCfgScope :=
  {| sc_kernel := None; sc_initrd := None; sc_cmdline := None; sc_resolution := None;
     sc_kaslr := None |}.
Definition zero_entry : BootCfgEntryDef :=
  {| ed_name := zero_span; ed_line := 0; ed_keys := zero_scope |}.
Definition zero_cfg : BootCfg :=
  {| cf_global := zero_scope; cf_entries := []; cf_timeoutSec := 0; cf_defaultIndex := 0;
     cf_unknownKeyCount := 0; cf_firstUnknownKeyLine := 0; cf_errorLine := 0;
     cf_errorReason := None |}.

(** Models src/boot/common/bootcfg.c:8-13, CFG_ERR. *)
Definition cfg_err (out : BootCfg) (ln : Z) (reason : string) : BootCfg :=
  {| cf_global := cf_global out; cf_entries := cf_entries out;
     cf_timeoutSec := cf_timeoutSec out; cf_defaultIndex := cf_defaultIndex out;
     cf_unknownKeyCount := cf_unknownKeyCount out;
     cf_firstUnknownKeyLine := cf_firstUnknownKeyLine out;
     cf_errorLine := ln; cf_errorReason := Some reason |}.

(** ** Characters and views *)

(** A string literal as bytes. *)
Definition lit (s : string) : list Z :=
  map (fun c => Z.of_nat (Ascii.nat_of_ascii c)) (String.list_ascii_of_string s).

Definition ch (s : string) : Z := default 0 (head (lit s)).
Definition NL : Z := 10.
Definition CR : Z := 13.
Definition TAB : Z := 9.

Record View := { v_off : Z; v_bytes : list Z }.

Definition v_len (v : View) : Z := zlen (v_bytes v).

Definition span_of (v : View) : BootCfgSpan := {| sp_off := u32 (v_off v); sp_len := u32 (v_len v) |}.

(** Models src/boot/common/bootcfg.c:15-17, cfgIsSpace. *)
Definition cfgIsSpace (c : Z) : bool := (c =? ch " ") || (c =? TAB).

(** Models src/boot/common/bootcfg.c:22-24, cfgTrim (leading). *)
Fixpoint trim_left (off : Z) (bytes : list Z) : View :=
  match bytes with
  | c :: rest => if cfgIsSpace c then trim_left (off + 1) rest else {| v_off := off; v_bytes := bytes |}
  | [] => {| v_off := off; v_bytes := [] |}
  end.

(** Models src/boot/common/bootcfg.c:25-27, cfgTrim (trailing; the view read from its end). *)
Fixpoint drop_spaces (rbytes : list Z) : list Z :=
  match rbytes with
  | c :: rest => if cfgIsSpace c then drop_spaces rest else rbytes
  | [] => []
  end.

(** Models src/boot/common/bootcfg.c:21-28, cfgTrim. *)
Definition cfgTrim (v : View) : View :=
  let v := trim_left (v_off v) (v_bytes v) in
  {| v_off := v_off v; v_bytes := rev (drop_spaces (rev (v_bytes v))) |}.

(** The end of [literal] is its NUL. *)
(** Models src/boot/common/bootcfg.c:30-39, cfgStreqBounded. *)
Fixpoint cfgStreqBounded (s literal : list Z) : bool :=
  match s, literal with
  | [], [] => true
  | [], _ :: _ => false
  | _ :: _, [] => false
  | c :: s, l :: literal => if negb (c =? l) then false else cfgStreqBounded s literal
  end.

(** Models src/boot/common/bootcfg.c:41-48, cfgMemEq. *)
Fixpoint cfgMemEq (a b : list Z) (len : nat) : bool :=
  match len, a, b with
  | O, _, _ => true
  | S len, x :: a, y :: b => if negb (x =? y) then false else cfgMemEq a b len
  | S _, _, _ => false
  end.

(** Models src/boot/common/bootcfg.c:51-53, cfgIsKeyByte. *)
Definition cfgIsKeyByte (c : Z) : bool :=
  ((ch "a" <=? c) && (c <=? ch "z")) || ((ch "0" <=? c) && (c <=? ch "9"))
  || (c =? ch "_") || (c =? ch ".").

(** Models src/boot/common/bootcfg.c:56-59, cfgIsNameByte. *)
Definition cfgIsNameByte (c : Z) : bool :=
  (0x20 <=? c) && (c <=? 0x7E) && negb (c =? ch "[") && negb (c =? ch "]").

(** Models src/boot/common/bootcfg.c:63-74, cfgValidPathValue. *)
Definition cfgValidPathValue (s : list Z) : bool :=
  if (zlen s =? 0) || (zlen s >? BOOT_CFG_PATH_MAX - 1) || negb (default 0 (head s) =? ch "/")
  then false
  else forallb (fun c => negb ((c <? 0x21) || (c >? 0x7E))) s.

(** Models src/boot/common/bootcfg.c:83-92, cfgParseUint (the digit loop). *)
Fixpoint parse_digits (s : list Z) (v : Z) : option Z :=
  match s with
  | [] => Some v
  | c :: rest =>
      if (c <? ch "0") || (c >? ch "9") then None
      else if v >? 99999 then None
      else parse_digits rest (u32 (u32 (v * 10) + (c - ch "0")))
  end.

(** Models src/boot/common/bootcfg.c:78-95, cfgParseUint. *)
Definition cfgParseUint (s : list Z) : option Z :=
  if zlen s =? 0 then None else parse_digits s 0.

(** Models src/boot/common/bootcfg.c:104-110, cfgParseResolution (the position of the x). *)
Fixpoint find_x (s : list Z) : option nat :=
  match s with
  | [] => None
  | c :: rest => if (c =? ch "x") || (c =? ch "X") then Some O else S <$> find_x rest
  end.

(** Models src/boot/common/bootcfg.c:98-124, cfgParseResolution. *)
Definition cfgParseResolution (s : list Z) : option (Z * Z) :=
  if cfgStreqBounded s (lit "auto") then Some (0, 0) else
  match find_x s with
  | None => None
  | Some xi =>
      if (xi =? 0)%nat || (xi =? length s - 1)%nat then None else
      match cfgParseUint (take xi s), cfgParseUint (drop (xi + 1) s) with
      | Some wv, Some hv =>
          if (wv <? 1) || (wv >? BOOT_CFG_DIM_MAX) || (hv <? 1) || (hv >? BOOT_CFG_DIM_MAX)
          then None else Some (wv, hv)
      | _, _ => None
      end
  end.

(** ** The parser state *)

(** [curScope] is the global scope or the scope of an entry; the locals about
    [default =] are kept until the end of the file. *)
(** Models src/boot/common/bootcfg.c:160-165, bootCfgParse (locals). *)
Record ParseState := {
  ps_out : BootCfg;
  ps_cur : option nat;
  ps_sawTimeout : bool;
  ps_default : option ((Z + BootCfgSpan) * Z) }.

Definition init_state : ParseState :=
  {| ps_out := zero_cfg; ps_cur := None; ps_sawTimeout := false; ps_default := None |}.

(** The result of one line: an error with its [out], or the state to go on with. *)
Definition Step := (BootCfg + ParseState)%type.

Definition with_out (st : ParseState) (out : BootCfg) : ParseState :=
  {| ps_out := out; ps_cur := ps_cur st; ps_sawTimeout := ps_sawTimeout st;
     ps_default := ps_default st |}.

Definition cur_scope (st : ParseState) : BootCfgScope :=
  match ps_cur st with
  | None => cf_global (ps_out st)
  | Some i => default zero_scope (ed_keys <$> cf_entries (ps_out st) !! i)
  end.

Definition set_entry_keys (sc : BootCfgScope) (e : BootCfgEntryDef) : BootCfgEntryDef :=
  {| ed_name := ed_name e; ed_line := ed_line e; ed_keys := sc |}.

Definition set_scope (st : ParseState) (sc : BootCfgScope) : ParseState :=
  let out := ps_out st in
  with_out st
    {| cf_global := match ps_cur st with None => sc | Some _ => cf_global out end;
       cf_entries := match ps_cur st with
                     | None => cf_entries out
                     | Some i => alter (set_entry_keys sc) i (cf_entries out)
                     end;
       cf_timeoutSec := cf_timeoutSec out; cf_defaultIndex := cf_defaultIndex out;
       cf_unknownKeyCount := cf_unknownKeyCount out;
       cf_firstUnknownKeyLine := cf_firstUnknownKeyLine out;
       cf_errorLine := cf_errorLine out; cf_errorReason := cf_errorReason out |}.

(** ** Lines *)

(** The bytes of [text] (after the BOM) a span names. *)
Definition span_bytes (text : list Z) (s : BootCfgSpan) : list Z :=
  take (Z.to_nat (sp_len s)) (drop (Z.to_nat (sp_off s)) text).

(** Models src/boot/common/bootcfg.c:208-208, bootCfgParse (comparing a name with a
    recorded one). *)
Definition name_matches (text : list Z) (nm : BootCfgSpan) (bytes : list Z) : bool :=
  (sp_len nm =? zlen bytes) && cfgMemEq (drop (Z.to_nat (sp_off nm)) text) bytes (length bytes).

(** Models src/boot/common/bootcfg.c:191-221, bootCfgParse (section header); [v] is the
    trimmed line, which starts with '['. *)
Definition parse_section (text : list Z) (lineNo : Z) (v : View) (st : ParseState) : Step :=
  let out := ps_out st in
  if negb (default 0 (last (v_bytes v)) =? ch "]")
  then inl (cfg_err out lineNo "unterminated section header") else
  let inner := cfgTrim {| v_off := v_off v + 1; v_bytes := removelast (tl (v_bytes v)) |} in
  let innerLen := u32 (v_len inner) in
  if (innerLen <? 1) || (innerLen >? BOOT_CFG_NAME_MAX)
  then inl (cfg_err out lineNo "section name must be 1-63 characters") else
  if negb (forallb cfgIsNameByte (v_bytes inner))
  then inl (cfg_err out lineNo "invalid character in section name") else
  if existsb (fun e => name_matches text (ed_name e) (v_bytes inner)) (cf_entries out)
  then inl (cfg_err out lineNo "duplicate entry name") else
  if BOOT_CFG_MAX_ENTRIES <=? cf_entryCount out
  then inl (cfg_err out lineNo "too many [entry] sections (max 9)") else
  let e := {| ed_name := {| sp_off := u32 (v_off inner); sp_len := innerLen |};
              ed_line := lineNo; ed_keys := zero_scope |} in
  inr {| ps_out := {| cf_global := cf_global out; cf_entries := cf_entries out ++ [e];
                      cf_timeoutSec := cf_timeoutSec out; cf_defaultIndex := cf_defaultIndex out;
                      cf_unknownKeyCount := cf_unknownKeyCount out;
                      cf_firstUnknownKeyLine := cf_firstUnknownKeyLine out;
                      cf_errorLine := cf_errorLine out; cf_errorReason := cf_errorReason out |};
         ps_cur := Some (length (cf_entries out));
         ps_sawTimeout := ps_sawTimeout st; ps_default := ps_default st |}.

Definition scope_set_kernel (sc : BootCfgScope) (s : BootCfgSpan) : BootCfgScope :=
  {| sc_kernel := Some s; sc_initrd := sc_initrd sc; sc_cmdline := sc_cmdline sc;
     sc_resolution := sc_resolution sc; sc_kaslr := sc_kaslr sc |}.
Definition scope_set_initrd (sc : BootCfgScope) (s : BootCfgSpan) : BootCfgScope :=
  {| sc_kernel := sc_kernel sc; sc_initrd := Some s; sc_cmdline := sc_cmdline sc;
     sc_resolution := sc_resolution sc; sc_kaslr := sc_kaslr sc |}.
Definition scope_set_cmdline (sc : BootCfgScope) (s : BootCfgSpan) : BootCfgScope :=
  {| sc_kernel := sc_kernel sc; sc_initrd := sc_initrd sc; sc_cmdline := Some s;
     sc_resolution := sc_resolution sc; sc_kaslr := sc_kaslr sc |}.
Definition scope_set_resolution (sc : BootCfgScope) (wh : Z * Z) : BootCfgScope :=
  {| sc_kernel := sc_kernel sc; sc_initrd := sc_initrd sc; sc_cmdline := sc_cmdline sc;
     sc_resolution := Some wh; sc_kaslr := sc_kaslr sc |}.
Definition scope_set_kaslr (sc : BootCfgScope) (on : bool) : BootCfgScope :=
  {| sc_kernel := sc_kernel sc; sc_initrd := sc_initrd sc; sc_cmdline := sc_cmdline sc;
     sc_resolution := sc_resolution sc; sc_kaslr := Some on |}.

(** Models src/boot/common/bootcfg.c:249-295, bootCfgParse (the keys of a scope); [None] when
    the key is none of the five. *)
Definition parse_scope_key (key : list Z) (value : View) (lineNo : Z) (st : ParseState)
    : option Step :=
  let sc := cur_scope st in
  let err reason := inl (cfg_err (ps_out st) lineNo reason) in
  if cfgStreqBounded key (lit "kernel") then Some
    match sc_kernel sc with
    | Some _ => inr st
    | None => if negb (cfgValidPathValue (v_bytes value)) then err "invalid kernel path"%string
              else inr (set_scope st (scope_set_kernel sc (span_of value)))
    end
  else if cfgStreqBounded key (lit "initrd") then Some
    match sc_initrd sc with
    | Some _ => inr st
    | None => if (v_len value >? 0) && negb (cfgValidPathValue (v_bytes value))
              then err "invalid initrd path"%string
              else inr (set_scope st (scope_set_initrd sc (span_of value)))
    end
  else if cfgStreqBounded key (lit "cmdline") then Some
    match sc_cmdline sc with
    | Some _ => inr st
    | None => inr (set_scope st (scope_set_cmdline sc (span_of value)))
    end
  else if cfgStreqBounded key (lit "resolution") then Some
    match sc_resolution sc with
    | Some _ => inr st
    | None => match cfgParseResolution (v_bytes value) with
              | None => err "invalid resolution"%string
              | Some wh => inr (set_scope st (scope_set_resolution sc wh))
              end
    end
  else if cfgStreqBounded key (lit "kaslr") then Some
    match sc_kaslr sc with
    | Some _ => inr st
    | None => if cfgStreqBounded (v_bytes value) (lit "on")
              then inr (set_scope st (scope_set_kaslr sc true))
              else if cfgStreqBounded (v_bytes value) (lit "off")
              then inr (set_scope st (scope_set_kaslr sc false))
              else err "invalid kaslr value (want on/off)"%string
    end
  else None.

(** Models src/boot/common/bootcfg.c:296-309, bootCfgParse (timeout). *)
Definition parse_timeout (value : View) (lineNo : Z) (st : ParseState) : Step :=
  let out := ps_out st in
  let err reason := inl (cfg_err out lineNo reason) in
  match ps_cur st with
  | Some _ => err "timeout is only valid before the first [entry]"%string
  | None =>
      if ps_sawTimeout st then inr st else
      let set t := inr
        {| ps_out := {| cf_global := cf_global out; cf_entries := cf_entries out;
             cf_timeoutSec := t; cf_defaultIndex := cf_defaultIndex out;
             cf_unknownKeyCount := cf_unknownKeyCount out;
             cf_firstUnknownKeyLine := cf_firstUnknownKeyLine out;
             cf_errorLine := cf_errorLine out; cf_errorReason := cf_errorReason out |};
           ps_cur := ps_cur st; ps_sawTimeout := true; ps_default := ps_default st |} in
      if cfgStreqBounded (v_bytes value) (lit "forever") then set BOOT_CFG_TIMEOUT_FOREVER else
      match cfgParseUint (v_bytes value) with
      | None => err "invalid timeout (want 0-3600 or forever)"%string
      | Some t => if t >? BOOT_CFG_TIMEOUT_MAX
                  then err "invalid timeout (want 0-3600 or forever)"%string else set t
      end
  end.

(** Models src/boot/common/bootcfg.c:310-335, bootCfgParse (default). *)
Definition parse_default (value : View) (lineNo : Z) (st : ParseState) : Step :=
  let err reason := inl (cfg_err (ps_out st) lineNo reason) in
  let set d := inr {| ps_out := ps_out st; ps_cur := ps_cur st;
                      ps_sawTimeout := ps_sawTimeout st; ps_default := Some (d, lineNo) |} in
  match ps_cur st with
  | Some _ => err "default is only valid before the first [entry]"%string
  | None =>
      match ps_default st with
      | Some _ => inr st
      | None =>
          let allDigits := (v_len value >? 0) &&
            forallb (fun c => negb ((c <? ch "0") || (c >? ch "9"))) (v_bytes value) in
          if allDigits then
            match cfgParseUint (v_bytes value) with
            | None => err "invalid default index"%string
            | Some idx => if idx <? 1 then err "invalid default index"%string else set (inl idx)
            end
          else set (inr (span_of value))
      end
  end.

(** Models src/boot/common/bootcfg.c:336-341, bootCfgParse (an unknown key). *)
Definition note_unknown (lineNo : Z) (st : ParseState) : ParseState :=
  let out := ps_out st in
  with_out st
    {| cf_global := cf_global out; cf_entries := cf_entries out;
       cf_timeoutSec := cf_timeoutSec out; cf_defaultIndex := cf_defaultIndex out;
       cf_unknownKeyCount := u32 (cf_unknownKeyCount out + 1);
       cf_firstUnknownKeyLine :=
         if cf_firstUnknownKeyLine out =? 0 then lineNo else cf_firstUnknownKeyLine out;
       cf_errorLine := cf_errorLine out; cf_errorReason := cf_errorReason out |}.

(** Models src/boot/common/bootcfg.c:224-230, bootCfgParse (the position of the '='). *)
Fixpoint find_eq (bytes : list Z) : option nat :=
  match bytes with
  | [] => None
  | c :: rest => if c =? ch "=" then Some O else S <$> find_eq rest
  end.

(** Models src/boot/common/bootcfg.c:224-341, bootCfgParse (a key = value line). *)
Definition parse_key_value (lineNo : Z) (v : View) (st : ParseState) : Step :=
  let err reason := inl (cfg_err (ps_out st) lineNo reason) in
  match find_eq (v_bytes v) with
  | None => err "expected key = value"%string
  | Some eq =>
      let key := cfgTrim {| v_off := v_off v; v_bytes := take eq (v_bytes v) |} in
      let value := cfgTrim {| v_off := v_off v + Z.of_nat eq + 1;
                              v_bytes := drop (eq + 1) (v_bytes v) |} in
      let keyLen := u32 (v_len key) in
      if (keyLen <? 1) || (keyLen >? 31) then err "malformed key"%string else
      if negb (forallb cfgIsKeyByte (v_bytes key)) then err "malformed key"%string else
      match parse_scope_key (v_bytes key) value lineNo st with
      | Some r => r
      | None =>
          if cfgStreqBounded (v_bytes key) (lit "timeout") then parse_timeout value lineNo st
          else if cfgStreqBounded (v_bytes key) (lit "default") then parse_default value lineNo st
          else inr (note_unknown lineNo st)
      end
  end.

(** Models src/boot/common/bootcfg.c:179-222, bootCfgParse (one line; [raw] excludes the
    newline). *)
Definition parse_line (text : list Z) (lineNo off : Z) (raw : list Z) (st : ParseState) : Step :=
  let bytes := if bool_decide (last raw = Some CR) then removelast raw else raw in
  let v := cfgTrim {| v_off := off; v_bytes := bytes |} in
  match v_bytes v with
  | [] => inr st
  | c :: _ =>
      if c =? ch "#" then inr st
      else if c =? ch "[" then parse_section text lineNo v st
      else parse_key_value lineNo v st
  end.

(** Models src/boot/common/bootcfg.c:173-178, bootCfgParse (finding the newline): the line
    and what follows its newline. *)
Fixpoint split_line (rest : list Z) : list Z * list Z :=
  match rest with
  | [] => ([], [])
  | c :: rest => if c =? NL then ([], rest)
                 else let '(l, r) := split_line rest in (c :: l, r)
  end.

(** One iteration consumes at least one byte, so [length rest] iterations suffice. *)
(** Models src/boot/common/bootcfg.c:167-342, bootCfgParse (the line loop). *)
Fixpoint parse_lines (fuel : nat) (text : list Z) (lineNo off : Z) (rest : list Z)
    (st : ParseState) : Step :=
  match fuel, rest with
  | O, _ | _, [] => inr st
  | S fuel, _ =>
      let lineNo := u32 (lineNo + 1) in
      let '(raw, rest') := split_line rest in
      match parse_line text lineNo off raw st with
      | inl out => inl out
      | inr st => parse_lines fuel text lineNo (off + (zlen rest - zlen rest')) rest' st
      end
  end.

(** Models src/boot/common/bootcfg.c:360-368, bootCfgParse (looking up the default name). *)
Fixpoint find_entry (text : list Z) (nm : BootCfgSpan) (i : Z) (es : list BootCfgEntryDef)
    : option Z :=
  match es with
  | [] => None
  | e :: rest =>
      if (sp_len (ed_name e) =? sp_len nm) &&
         cfgMemEq (drop (Z.to_nat (sp_off (ed_name e))) text)
                  (drop (Z.to_nat (sp_off nm)) text) (Z.to_nat (sp_len nm))
      then Some i else find_entry text nm (i + 1) rest
  end.

Definition set_default (out : BootCfg) (i : Z) : BootCfg :=
  {| cf_global := cf_global out; cf_entries := cf_entries out;
     cf_timeoutSec := cf_timeoutSec out; cf_defaultIndex := i;
     cf_unknownKeyCount := cf_unknownKeyCount out;
     cf_firstUnknownKeyLine := cf_firstUnknownKeyLine out;
     cf_errorLine := cf_errorLine out; cf_errorReason := cf_errorReason out |}.

Definition set_entries (out : BootCfg) (es : list BootCfgEntryDef) : BootCfg :=
  {| cf_global := cf_global out; cf_entries := es;
     cf_timeoutSec := cf_timeoutSec out; cf_defaultIndex := cf_defaultIndex out;
     cf_unknownKeyCount := cf_unknownKeyCount out;
     cf_firstUnknownKeyLine := cf_firstUnknownKeyLine out;
     cf_errorLine := cf_errorLine out; cf_errorReason := cf_errorReason out |}.

(** Models src/boot/common/bootcfg.c:344-374, bootCfgParse (after the last line). *)
Definition parse_finish (text : list Z) (st : ParseState) : BootStatus * BootCfg :=
  let out := ps_out st in
  let out := match cf_entries out with [] => set_entries out [zero_entry] | _ => out end in
  match ps_default st with
  | None => (BOOT_OK, set_default out 0)
  | Some (inl idx, line) =>
      if (idx <? 1) || (idx >? cf_entryCount out)
      then (BOOT_ERR_CFG, cfg_err out line "default index out of range")
      else (BOOT_OK, set_default out (idx - 1))
  | Some (inr nm, line) =>
      match find_entry text nm 0 (cf_entries out) with
      | Some i => (BOOT_OK, set_default out i)
      | None => (BOOT_ERR_CFG, cfg_err out line "default entry name not found")
      end
  end.

(** Models src/boot/common/bootcfg.c:140-144, bootCfgParse (the BOM). *)
Definition skip_bom (text : list Z) : list Z :=
  match text with
  | 0xEF :: 0xBB :: 0xBF :: rest => rest
  | _ => text
  end.

(** Models src/boot/common/bootcfg.c:148-158, bootCfgParse (the NUL scan): the line of the
    first NUL byte. *)
Fixpoint find_nul_line (line : Z) (text : list Z) : option Z :=
  match text with
  | [] => None
  | c :: rest => if c =? 0 then Some line
                 else find_nul_line (if c =? NL then u32 (line + 1) else line) rest
  end.

(** Models src/boot/common/bootcfg.c:126-375, bootCfgParse ([None] is a NULL [text]). *)
Definition bootCfgParse (text : option (list Z)) : BootStatus * BootCfg :=
  match text with
  | None => (BOOT_ERR_CFG, cfg_err zero_cfg 0 "no boot.cfg text")
  | Some text =>
      if zlen text >? BOOT_CFG_FILE_MAX
      then (BOOT_ERR_CFG, cfg_err zero_cfg 0 "boot.cfg exceeds BOOT_CFG_FILE_MAX") else
      let text := skip_bom text in
      match find_nul_line 1 text with
      | Some line => (BOOT_ERR_CFG, cfg_err zero_cfg line "NUL byte in boot.cfg")
      | None =>
          match parse_lines (length text) text 0 0 text init_state with
          | inl out => (BOOT_ERR_CFG, out)
          | inr st => parse_finish text st
          end
      end
  end.

(** ** Resolving an entry *)

(** Into a zeroed buffer of [dstCap] bytes; [None] when a read or a store would leave
    its buffer. *)
(** Models src/boot/common/bootcfg.c:380-388, cfgCopySpan. *)
Definition cfgCopySpan (text : list Z) (span : BootCfgSpan) (dstCap : Z)
    : option (list Z * Z) :=
  let len := if sp_len span >? dstCap - 1 then dstCap - 1 else sp_len span in
  src ← peek text (sp_off span) len;
  dst ← bootMemcpy (replicate (Z.to_nat dstCap) 0) 0 src;
  dst ← bootMemcpy dst len [0];
  Some (dst, len).

Definition first_set {A} (a b : option A) : option A :=
  match a with Some _ => a | None => b end.

Definition copy_opt (text : list Z) (span : option BootCfgSpan) (dstCap : Z)
    (dflt : list Z) : option (list Z * Z) :=
  match span with
  | Some s => cfgCopySpan text s dstCap
  | None => dst ← bootMemcpy (replicate (Z.to_nat dstCap) 0) 0 dflt; Some (dst, zlen dflt)
  end.

(** Models src/boot/common/bootcfg.c:390-454, bootCfgResolveEntry. *)
Definition bootCfgResolveEntry (text : list Z) (cfg : BootCfg) (index : Z)
    : option (BootStatus * option BootCfgEntry) :=
  if cf_entryCount cfg <=? index then Some (BOOT_ERR_CFG, None) else
  let text := skip_bom text in
  e ← cf_entries cfg !! Z.to_nat index;
  let keys := ed_keys e in
  let g := cf_global cfg in
  '(name, _) ← ((if sp_len (ed_name e) >? 0
                then cfgCopySpan text (ed_name e) (BOOT_CFG_NAME_MAX + 1)
                else Some (replicate (Z.to_nat (BOOT_CFG_NAME_MAX + 1)) 0, 0)));
  '(kernel, _) ← copy_opt text (first_set (sc_kernel keys) (sc_kernel g)) BOOT_CFG_PATH_MAX
                   (lit "/bong/kernel.elf" ++ [0]);
  '(initrd, _) ← copy_opt text (first_set (sc_initrd keys) (sc_initrd g)) BOOT_CFG_PATH_MAX [];
  let cmdlineSpan := first_set (sc_cmdline keys) (sc_cmdline g) in
  '(cmdline, copied) ← copy_opt text cmdlineSpan BOOTINFO_CMDLINE_MAX [];
  let '(w, h) := default (0, 0) (first_set (sc_resolution keys) (sc_resolution g)) in
  Some (BOOT_OK, Some
    {| en_name := name; en_kernel := kernel; en_initrd := initrd; en_cmdline := cmdline;
       en_resWidth := w; en_resHeight := h;
       en_kaslr := default true (first_set (sc_kaslr keys) (sc_kaslr g));
       en_cmdlineTruncated := match cmdlineSpan with
                              | Some s => copied <? sp_len s
                              | None => false
                              end |}).

(** ** String helpers *)

Lemma cfgStreqBounded_iff s l : cfgStreqBounded s l = true <-> s = l.
Proof.
  revert l. induction s as [|c s IH]; intros [|d l]; simpl; try (split; congruence).
  destruct (c =? d) eqn:E; bprop; simpl.
  - rewrite IH. subst. split; congruence.
  - split; congruence.
Qed.

Lemma cfgMemEq_iff a b n :
  (n <= length a)%nat -> (n <= length b)%nat -> cfgMemEq a b n = true <-> take n a = take n b.
Proof.
  revert a b. induction n as [|n IH]; intros [|x a] [|y b] Ha Hb; simpl in *; try lia; try done.
  destruct (x =? y) eqn:E; bprop; simpl.
  - rewrite IH by lia. subst. split; congruence.
  - split; congruence.
Qed.

Lemma split_line_spec rest raw rest' :
  split_line rest = (raw, rest') ->
  (NL ∉ raw) /\ (rest = raw ++ NL :: rest' \/ rest = raw /\ rest' = []).
Proof.
  revert raw rest'. induction rest as [|c rest IH]; intros raw rest'; simpl.
  { intros [= <- <-]. split; [apply not_elem_of_nil|auto]. }
  destruct (c =? NL) eqn:E; bprop.
  - intros [= <- <-]. subst. split; [apply not_elem_of_nil|auto].
  - destruct (split_line rest) as [l r]. intros [= <- <-].
    destruct (IH l r eq_refl) as [Hn Hs]. split.
    + rewrite not_elem_of_cons. auto.
    + destruct Hs as [-> |[-> ->]]; auto.
Qed.

(** A view shows bytes of the text at its offset. *)
Definition view_ok (text : list Z) (v : View) : Prop :=
  0 <= v_off v /\ v_bytes v = take (length (v_bytes v)) (drop (Z.to_nat (v_off v)) text) /\
  v_off v + v_len v <= zlen text.

(** The same, as a decomposition. *)
Lemma view_ok_iff text v :
  view_ok text v <-> exists pre post, text = pre ++ v_bytes v ++ post /\ v_off v = zlen pre.
Proof.
  unfold view_ok, v_len, zlen. split.
  - intros (Ho & Hb & Hl).
    exists (take (Z.to_nat (v_off v)) text),
           (drop (length (v_bytes v)) (drop (Z.to_nat (v_off v)) text)).
    rewrite Hb at 1. rewrite take_drop, take_drop. split; [done|]. rewrite length_take. lia.
  - intros (pre & post & -> & ->). split; [lia|]. rewrite Nat2Z.id.
    rewrite drop_app_length, take_app_length, !length_app. split; [done|lia].
Qed.

Lemma view_sub text off a b c :
  view_ok text {| v_off := off; v_bytes := a ++ b ++ c |} ->
  view_ok text {| v_off := off + zlen a; v_bytes := b |}.
Proof.
  rewrite !view_ok_iff. simpl. intros (pre & post & -> & ->).
  exists (pre ++ a), (c ++ post). rewrite zlen_app, <- !app_assoc. done.
Qed.

Lemma trim_left_spec off bytes :
  exists a, bytes = a ++ v_bytes (trim_left off bytes) /\
            v_off (trim_left off bytes) = off + zlen a.
Proof.
  revert off. induction bytes as [|c bytes IH]; intros off; simpl.
  { exists []. unfold zlen. simpl. split; [done|lia]. }
  destruct (cfgIsSpace c).
  - destruct (IH (off + 1)) as (a & Ha & Ho). exists (c :: a). simpl. rewrite <- Ha, Ho, zlen_cons.
    split; [done|lia].
  - exists []. unfold zlen. simpl. split; [done|lia].
Qed.

Lemma drop_spaces_spec l : exists a, l = a ++ drop_spaces l.
Proof.
  induction l as [|c l [a Ha]]; simpl; [by exists []|].
  destruct (cfgIsSpace c); [|by exists []]. exists (c :: a). simpl. by rewrite <- Ha.
Qed.

Lemma cfgTrim_ok text v : view_ok text v -> view_ok text (cfgTrim v).
Proof.
  destruct v as [off bytes]. unfold cfgTrim. simpl.
  destruct (trim_left_spec off bytes) as (a & Ha & Ho).
  destruct (drop_spaces_spec (rev (v_bytes (trim_left off bytes)))) as (b & Hb).
  set (t := trim_left off bytes) in *. rewrite Ho, Ha. intros H.
  apply (view_sub text off a _ (rev b)).
  rewrite <- rev_app_distr, <- Hb, rev_involutive. done.
Qed.

Lemma cfgTrim_length v : v_len (cfgTrim v) <= v_len v.
Proof.
  destruct v as [off bytes]. unfold cfgTrim, v_len. simpl.
  destruct (trim_left_spec off bytes) as (a & Ha & _).
  destruct (drop_spaces_spec (rev (v_bytes (trim_left off bytes)))) as (b & Hb).
  apply (f_equal zlen) in Ha, Hb. rewrite zlen_app in Ha, Hb.
  unfold zlen in *. rewrite !length_rev in *. lia.
Qed.

(** ** The parser invariant *)

Section Invariant.
Context (text : list Z) (Hsize : zlen text <= BOOT_CFG_FILE_MAX).

Definition span_ok (s : BootCfgSpan) : Prop :=
  0 <= sp_off s /\ 0 <= sp_len s /\ sp_off s + sp_len s <= zlen text.

Definition opt_all {A} (P : A -> Prop) (o : option A) : Prop :=
  forall x, o = Some x -> P x.

Record scope_ok (sc : BootCfgScope) : Prop := {
  so_kernel : opt_all (fun s => span_ok s /\ cfgValidPathValue (span_bytes text s) = true)
                (sc_kernel sc);
  so_initrd : opt_all (fun s => span_ok s /\
                (sp_len s = 0 \/ cfgValidPathValue (span_bytes text s) = true)) (sc_initrd sc);
  so_cmdline : opt_all span_ok (sc_cmdline sc);
  so_res : opt_all (fun wh => wh = (0, 0) \/ 1 <= wh.1 <= BOOT_CFG_DIM_MAX /\
                                             1 <= wh.2 <= BOOT_CFG_DIM_MAX) (sc_resolution sc) }.

Record entry_ok (e : BootCfgEntryDef) : Prop := {
  eo_span : span_ok (ed_name e);
  eo_len : 1 <= sp_len (ed_name e) <= BOOT_CFG_NAME_MAX;
  eo_chars : forallb cfgIsNameByte (span_bytes text (ed_name e)) = true;
  eo_keys : scope_ok (ed_keys e) }.

Definition entry_name (e : BootCfgEntryDef) : list Z := span_bytes text (ed_name e).

Definition timeout_ok (t : Z) : Prop := 0 <= t <= BOOT_CFG_TIMEOUT_MAX \/ t = BOOT_CFG_TIMEOUT_FOREVER.

Record cfg_ok (out : BootCfg) : Prop := {
  co_global : scope_ok (cf_global out);
  co_entries : Forall entry_ok (cf_entries out);
  co_count : cf_entryCount out <= BOOT_CFG_MAX_ENTRIES;
  co_names : NoDup (map entry_name (cf_entries out));
  co_timeout : timeout_ok (cf_timeoutSec out);
  co_reason : cf_errorReason out = None }.

Record state_ok (st : ParseState) : Prop := {
  st_cfg : cfg_ok (ps_out st);
  st_cur : opt_all (fun i => (i < length (cf_entries (ps_out st)))%nat) (ps_cur st);
  st_default : opt_all (fun d => match d.1 with inl i => 1 <= i | inr s => span_ok s end)
                 (ps_default st) }.

Definition step_ok (r : Step) : Prop :=
  match r with
  | inl out => is_Some (cf_errorReason out)
  | inr st => state_ok st
  end.

Lemma span_of_ok v : view_ok text v -> span_ok (span_of v) /\ span_bytes text (span_of v) = v_bytes v.
Proof.
  intros (Ho & Hb & Hl). unfold span_of, span_ok, span_bytes, v_len, BOOT_CFG_FILE_MAX in *. simpl.
  pose proof (zlen_nonneg (v_bytes v)).
  rewrite !u32_small by (words; lia). split; [lia|].
  unfold zlen. rewrite Nat2Z.id. done.
Qed.

Lemma cur_scope_ok st : state_ok st -> scope_ok (cur_scope st).
Proof.
  intros [[Hg He _ _ _ _] Hc _]. unfold cur_scope. destruct (ps_cur st) as [i|]; [|done].
  destruct (lookup_lt_is_Some_2 (cf_entries (ps_out st)) i (Hc i eq_refl)) as [e Hi].
  rewrite Hi. simpl. rewrite Forall_forall in He. apply list_elem_of_lookup_2, He in Hi. by destruct Hi.
Qed.

Lemma map_alter_keys sc i es :
  map entry_name (alter (set_entry_keys sc) i es) = map entry_name es.
Proof.
  revert i. induction es as [|e es IH]; intros [|i]; [done..|]. cbn. f_equal. apply IH.
Qed.

Lemma set_scope_ok st sc : state_ok st -> scope_ok sc -> state_ok (set_scope st sc).
Proof.
  intros [[Hg He Hn Hd Ht Hr] Hc Hdef] Hsc. unfold set_scope, with_out.
  destruct (ps_cur st) as [i|] eqn:Ec; (split; [split|..]); simpl; try done.
  - apply Forall_forall. intros e Hin. rewrite Forall_forall in He.
    apply list_elem_of_lookup in Hin as [j Hj].
    destruct (decide (i = j)) as [-> |Hij].
    + rewrite list_lookup_alter in Hj. destruct (cf_entries _ !! j) eqn:El; rewrite decide_True in Hj by done; simplify_eq/=.
      apply list_elem_of_lookup_2, He in El as []. split; assumption.
    + rewrite list_lookup_alter_ne in Hj by done. by apply list_elem_of_lookup_2, He in Hj.
  - unfold cf_entryCount, zlen in *. simpl. by rewrite length_alter.
  - by rewrite map_alter_keys.
  - intros j [= <-]. rewrite length_alter. by apply Hc.
Qed.

Lemma parse_digits_range s v n : 0 <= v <= 999999 -> parse_digits s v = Some n -> 0 <= n <= 999999.
Proof.
  revert v. induction s as [|c s IH]; intros v Hv; simpl; [by intros [= <-]|].
  change (ch "0") with 48. change (ch "9") with 57.
  destruct (_ || _) eqn:E1; [done|]. destruct (v >? 99999) eqn:E2; [done|]. bprop. apply IH.
  rewrite (u32_small (v * 10)) by (words; lia). rewrite u32_small by (words; lia). lia.
Qed.

Lemma cfgParseUint_range s n : cfgParseUint s = Some n -> 0 <= n <= 999999.
Proof. unfold cfgParseUint. destruct (_ =? _); [done|]. by apply parse_digits_range. Qed.

Lemma cfgParseResolution_range s wh :
  cfgParseResolution s = Some wh ->
  wh = (0, 0) \/ 1 <= wh.1 <= BOOT_CFG_DIM_MAX /\ 1 <= wh.2 <= BOOT_CFG_DIM_MAX.
Proof.
  unfold cfgParseResolution. destruct (cfgStreqBounded _ _); [intros [= <-]; auto|].
  destruct (find_x s) as [xi|]; [|done]. destruct (_ || _); [done|].
  destruct (cfgParseUint (take _ _)) as [w|]; [|done].
  destruct (cfgParseUint (drop _ _)) as [h|]; [|done].
  destruct (_ || _) eqn:E; [done|]. intros [= <-]. bprop. simpl. lia.
Qed.

(** Each kind of line preserves the invariant. *)

Lemma scope_key_ok key value lineNo st r :
  state_ok st -> view_ok text value -> parse_scope_key key value lineNo st = Some r -> step_ok r.
Proof.
  intros Hst Hv. pose proof (cur_scope_ok st Hst) as Hsc.
  destruct (span_of_ok value Hv) as [Hso Hsb].
  assert (Hset : forall sc, scope_ok sc -> step_ok (inr (set_scope st sc)))
    by (intros; by apply set_scope_ok).
  unfold parse_scope_key.
  destruct (cfgStreqBounded key (lit "kernel")).
  { intros [= <-]. destruct (sc_kernel _); [done|].
    destruct (cfgValidPathValue _) eqn:E; [|simpl; eauto]. apply Hset. destruct Hsc; split; try done.
    intros s [= <-]. by rewrite Hsb. }
  destruct (cfgStreqBounded key (lit "initrd")).
  { intros [= <-]. destruct (sc_initrd _); [done|].
    destruct (_ && _) eqn:E; [simpl; eauto|]. apply Hset. destruct Hsc; split; try done.
    intros s [= <-]. split; [done|]. rewrite Hsb. apply andb_false_iff in E as [E|E]; bprop; [|auto].
    left. unfold span_of, v_len in *. simpl. pose proof (zlen_nonneg (v_bytes value)).
    by replace (zlen (v_bytes value)) with 0 by lia. }
  destruct (cfgStreqBounded key (lit "cmdline")).
  { intros [= <-]. destruct (sc_cmdline _); [done|]. apply Hset. destruct Hsc; split; try done.
    by intros s [= <-]. }
  destruct (cfgStreqBounded key (lit "resolution")).
  { intros [= <-]. destruct (sc_resolution _); [done|].
    destruct (cfgParseResolution _) as [wh|] eqn:E; [|simpl; eauto].
    apply Hset. destruct Hsc; split; try done.
    intros s [= <-]. by eapply cfgParseResolution_range. }
  destruct (cfgStreqBounded key (lit "kaslr")); [|done].
  intros [= <-]. destruct (sc_kaslr _); [done|].
  destruct (cfgStreqBounded _ (lit "on")); [|destruct (cfgStreqBounded _ (lit "off"))];
    [apply Hset; destruct Hsc; by split..|simpl; eauto].
Qed.

Lemma timeout_step_ok value lineNo st : state_ok st -> step_ok (parse_timeout value lineNo st).
Proof.
  intros Hst. unfold parse_timeout. destruct (ps_cur st) eqn:Ec; [simpl; eauto|].
  destruct (ps_sawTimeout st); [done|].
  assert (Hset : forall t, timeout_ok t -> forall out,
    cf_global out = cf_global (ps_out st) -> cf_entries out = cf_entries (ps_out st) ->
    cf_timeoutSec out = t -> cf_errorReason out = cf_errorReason (ps_out st) ->
    state_ok {| ps_out := out; ps_cur := None; ps_sawTimeout := true;
                ps_default := ps_default st |}).
  { intros t Ht out Hg He Hto Hr. destruct Hst as [[] Hc Hd].
    split; [split|..]; simpl; unfold cf_entryCount in *; rewrite ?Hg, ?He, ?Hto, ?Hr; done. }
  destruct (cfgStreqBounded _ _); [by eapply Hset; [right|..]|].
  destruct (cfgParseUint _) as [t|] eqn:E; [|simpl; eauto].
  apply cfgParseUint_range in E.
  destruct (t >? _) eqn:E2; [simpl; eauto|]. bprop. eapply Hset; [left; split; [apply E|done]|done..].
Qed.

Lemma default_step_ok value lineNo st :
  state_ok st -> view_ok text value -> step_ok (parse_default value lineNo st).
Proof.
  intros Hst Hv. destruct (span_of_ok value Hv) as [Hso _].
  unfold parse_default. destruct (ps_cur st) eqn:Ec; [simpl; eauto|].
  destruct (ps_default st); [done|].
  destruct (_ && _).
  - destruct (cfgParseUint _) as [i|] eqn:E; [|simpl; eauto].
    destruct (i <? 1) eqn:Ei; [simpl; eauto|]. bprop. destruct Hst. split; [done..|].
    by intros d [= <-].
  - destruct Hst. split; [done..|]. by intros d [= <-].
Qed.

Lemma note_unknown_ok lineNo st : state_ok st -> state_ok (note_unknown lineNo st).
Proof. intros [[] Hc Hd]. split; [split|..]; done. Qed.

Lemma key_value_ok lineNo v st :
  state_ok st -> view_ok text v -> step_ok (parse_key_value lineNo v st).
Proof.
  intros Hst Hv. unfold parse_key_value.
  destruct (find_eq (v_bytes v)) as [eq|] eqn:Ee; [|simpl; eauto].
  assert (Hlt : (eq < length (v_bytes v))%nat).
  { clear -Ee. revert eq Ee. induction (v_bytes v) as [|c l IH]; intros eq; simpl; [done|].
    destruct (c =? ch "="); [intros [= <-]; lia|].
    destruct (find_eq l) as [n|]; [|done]. intros [= <-]. specialize (IH n eq_refl). lia. }
  set (value := cfgTrim {| v_off := v_off v + _ + 1; v_bytes := _ |}).
  assert (Hval : view_ok text value).
  { apply cfgTrim_ok. rewrite <- Z.add_assoc.
    replace (Z.of_nat eq + 1) with (zlen (take (eq + 1) (v_bytes v)))
      by (unfold zlen; rewrite length_take; lia).
    apply (view_sub text _ _ _ []). rewrite app_nil_r, take_drop. by destruct v. }
  destruct (_ || _); [simpl; eauto|]. destruct (negb _); [simpl; eauto|].
  destruct (parse_scope_key _ value lineNo st) as [r|] eqn:Er; [by eapply scope_key_ok|].
  destruct (cfgStreqBounded _ _); [by apply timeout_step_ok|].
  destruct (cfgStreqBounded _ _); [by apply default_step_ok|]. by apply note_unknown_ok.
Qed.

Lemma name_matches_iff nm bytes :
  span_ok nm -> name_matches text nm bytes = true <-> span_bytes text nm = bytes.
Proof.
  intros (H1 & H2 & H3). unfold name_matches, span_bytes. 
  assert (Hl : length (take (Z.to_nat (sp_len nm)) (drop (Z.to_nat (sp_off nm)) text)) =
               Z.to_nat (sp_len nm)) by (unfold zlen in *; rewrite length_take, length_drop; lia).
  destruct (sp_len nm =? zlen bytes) eqn:E; bprop; simpl.
  - rewrite cfgMemEq_iff, (firstn_all bytes), E; unfold zlen in *; rewrite ?Nat2Z.id; [done| |lia].
    rewrite length_drop. lia.
  - split; [done|]. intros <-. unfold zlen in E. rewrite Hl in E. lia.
Qed.

Lemma section_ok lineNo v st :
  state_ok st -> view_ok text v -> (2 <= length (v_bytes v))%nat ->
  step_ok (parse_section text lineNo v st).
Proof.
  intros [[Hg He Hn Hd Ht Hr] Hc Hdef] Hv Hlen. unfold parse_section.
  destruct (negb _); [simpl; eauto|].
  set (inner := cfgTrim _).
  assert (Hin : view_ok text inner).
  { apply cfgTrim_ok. destruct v as [off bytes]. simpl in *.
    destruct bytes as [|c bytes]; [simpl in Hlen; lia|]. simpl tl.
    destruct (exists_last (l := bytes)) as (mid & z & ->); [intros ->; simpl in Hlen; lia|].
    rewrite removelast_last. by apply (view_sub text off [c] mid [z]). }
  clearbody inner. destruct (span_of_ok inner Hin) as [Hso Hsb]. unfold span_of in Hso, Hsb.
  destruct (_ || _) eqn:El; [simpl; eauto|].
  destruct (negb (forallb _ _)) eqn:Ef; [simpl; eauto|].
  destruct (existsb _ _) eqn:Ex; [simpl; eauto|].
  destruct (_ <=? _) eqn:En; [simpl; eauto|]. bprop.
  set (e := {| ed_name := _; ed_line := _; ed_keys := _ |}).
  split; [split|..]; simpl; try done.
  - apply Forall_app. split; [done|]. constructor; [|done].
    subst e. split; simpl; [done|lia|by rewrite Hsb|by split].
  - unfold cf_entryCount in *. simpl. rewrite zlen_app. unfold zlen at 2. simpl. lia.
  - rewrite map_app. apply NoDup_app. split_and!; [done| |by apply NoDup_singleton].
    intros nm Hnm Hnew. simpl in Hnew. apply list_elem_of_singleton in Hnew.
    apply list_elem_of_In, in_map_iff in Hnm as (e' & He' & Hin').
    apply not_true_iff_false in Ex. apply Ex, existsb_exists. exists e'. split; [done|].
    rewrite Forall_forall in He. apply list_elem_of_In, He in Hin' as [].
    apply name_matches_iff; [done|]. unfold entry_name in *. simpl in *. congruence.
  - intros i [= <-]. rewrite length_app. simpl. lia.
Qed.

Lemma line_ok lineNo off raw st :
  state_ok st -> view_ok text {| v_off := off; v_bytes := raw |} ->
  step_ok (parse_line text lineNo off raw st).
Proof.
  intros Hst Hv. unfold parse_line. set (bytes := if bool_decide _ then _ else _).
  assert (Hb : view_ok text (cfgTrim {| v_off := off; v_bytes := bytes |})).
  { apply cfgTrim_ok. subst bytes. case_bool_decide as Hl; [|done].
    destruct (exists_last (l := raw)) as (mid & z & ->); [by intros ->|].
    rewrite removelast_last. rewrite <- (Z.add_0_r off). by apply (view_sub text off [] mid [z]). }
  set (v := cfgTrim _) in *. destruct (v_bytes v) as [|c rest] eqn:Ev; [done|].
  destruct (c =? ch "#"); [done|]. destruct (c =? ch "[") eqn:Ec; [|by apply key_value_ok].
  destruct rest as [|d rest]; [|by apply section_ok; [..|rewrite Ev; simpl; lia]].
  unfold parse_section. rewrite Ev. simpl. bprop. subst c. simpl. eauto.
Qed.

Lemma lines_ok fuel lineNo off pre rest st :
  state_ok st -> text = pre ++ rest -> off = zlen pre ->
  step_ok (parse_lines fuel text lineNo off rest st).
Proof.
  revert lineNo off pre rest st. induction fuel as [|fuel IH]; intros lineNo off pre rest st Hst Ht Ho;
    [by destruct rest|].
  destruct rest as [|c rest]; [done|]. cbn [parse_lines]. set (all := c :: rest) in *.
  destruct (split_line all) as [raw rest'] eqn:Es.
  destruct (split_line_spec _ _ _ Es) as [_ Hs].
  assert (Hsplit : exists sep, all = raw ++ sep ++ rest')
    by (destruct Hs as [Hs|[Hs ->]]; [by exists [NL]|exists []; by rewrite app_nil_r]).
  destruct Hsplit as [sep Hsep].
  assert (Hl : step_ok (parse_line text (u32 (lineNo + 1)) off raw st)).
  { apply line_ok; [done|]. apply view_ok_iff. exists pre, (sep ++ rest'). simpl.
    by rewrite <- Hsep. }
  destruct (parse_line _ _ _ _ _) as [out|st']; [done|].
  apply (IH _ _ (pre ++ raw ++ sep)); [done| |].
  - rewrite Ht, Hsep, <- !app_assoc. done.
  - rewrite Ho, Hsep, !zlen_app. lia.
Qed.

Lemma init_state_ok : state_ok init_state.
Proof. split; [split|done|done]; [by split|constructor|done|constructor|by left|done]. Qed.

Lemma find_entry_spec nm i es j :
  find_entry text nm i es = Some j -> i <= j < i + zlen es.
Proof.
  revert i. induction es as [|e es IH]; intros i; simpl; [done|]. rewrite zlen_cons.
  pose proof (zlen_nonneg es).
  destruct (_ && _); [intros [= <-]; lia|]. intros ?%IH. lia.
Qed.

(** The single nameless entry of a file without sections. *)
Definition implicit (out : BootCfg) : Prop := cf_entries out = [zero_entry].

Lemma finish_spec st :
  state_ok st ->
  match parse_finish text st with
  | (BOOT_OK, out) =>
      scope_ok (cf_global out) /\ (implicit out \/ Forall entry_ok (cf_entries out)) /\
      NoDup (map entry_name (cf_entries out)) /\
      1 <= cf_entryCount out <= BOOT_CFG_MAX_ENTRIES /\
      0 <= cf_defaultIndex out < cf_entryCount out /\ timeout_ok (cf_timeoutSec out) /\
      cf_errorReason out = None
  | (BOOT_ERR_CFG, out) => is_Some (cf_errorReason out)
  | _ => False
  end.
Proof.
  intros [[Hg He Hn Hd Ht Hr] _ Hdef]. unfold parse_finish.
  set (out := match cf_entries (ps_out st) with [] => _ | _ => _ end).
  assert (Hout : scope_ok (cf_global out) /\ (implicit out \/ Forall entry_ok (cf_entries out)) /\
    NoDup (map entry_name (cf_entries out)) /\ 1 <= cf_entryCount out <= BOOT_CFG_MAX_ENTRIES /\
    timeout_ok (cf_timeoutSec out) /\ cf_errorReason out = None).
  { subst out. destruct (cf_entries (ps_out st)) as [|e es] eqn:Ee; simpl.
    - split_and!; try done; [by left|apply NoDup_singleton].
    - rewrite Ee. split_and!; try done; [by right|]. unfold cf_entryCount in *. rewrite Ee, zlen_cons.
      pose proof (zlen_nonneg es). lia. }
  clearbody out. destruct Hout as (H1 & H2 & H3 & H4 & H5 & H6).
  destruct (ps_default st) as [[[idx|nm] line]|].
  - destruct (_ || _) eqn:E; [simpl; eauto|]. bprop.
    specialize (Hdef _ eq_refl). unfold cf_entryCount in *. simpl in *.
    split_and!; try done; lia.
  - destruct (find_entry _ _ _ _) as [i|] eqn:E; [|simpl; eauto]. apply find_entry_spec in E.
    unfold cf_entryCount in *. split_and!; simpl; try done; lia.
  - unfold cf_entryCount in *. split_and!; simpl; try done; lia.
Qed.
End Invariant.

(** ** Enough fuel *)

Lemma split_line_shorter c rest raw rest' :
  split_line (c :: rest) = (raw, rest') -> (length rest' <= length rest)%nat.
Proof.
  intros Hs. apply split_line_spec in Hs as [_ [Hs|[_ ->]]]; [|simpl; lia].
  destruct raw as [|d raw]; simplify_eq/=; [done|]. rewrite length_app. simpl. lia.
Qed.

Lemma parse_lines_fuel f1 f2 text lineNo off rest st :
  (length rest <= f1)%nat -> (length rest <= f2)%nat ->
  parse_lines f1 text lineNo off rest st = parse_lines f2 text lineNo off rest st.
Proof.
  revert f2 lineNo off rest st. induction f1 as [|f1 IH]; intros [|f2] lineNo off [|c rest] st H1 H2;
    simpl in H1, H2; try lia; try done.
  cbn [parse_lines]. destruct (split_line (c :: rest)) as [raw rest'] eqn:Es.
  apply split_line_shorter in Es. destruct (parse_line _ _ _ _ _); [done|]. apply IH; lia.
Qed.

(** ** Resolution *)

(** A C string in a zeroed buffer. *)
Definition pad (cap : Z) (bytes : list Z) : list Z := bytes ++ replicate (Z.to_nat cap - length bytes) 0.

Lemma bootMemcpy_zero cap src :
  zlen src <= cap -> bootMemcpy (replicate (Z.to_nat cap) 0) 0 src = Some (pad cap src).
Proof.
  intros Hl. unfold bootMemcpy, pad. pose proof (zlen_nonneg src).
  unfold zlen at 2. rewrite length_replicate, Z2Nat.id by lia.
  rewrite (proj2 (Z.leb_le _ cap)) by lia. simpl. rewrite drop_replicate. done.
Qed.

Lemma cfgCopySpan_spec text s cap :
  span_ok text s -> 0 < cap ->
  cfgCopySpan text s cap =
    Some (pad cap (take (Z.to_nat (cap - 1)) (span_bytes text s)), Z.min (sp_len s) (cap - 1)).
Proof.
  intros (H1 & H2 & H3) Hcap. unfold cfgCopySpan.
  set (len := if _ >? _ then _ else _).
  assert (Hlen : len = Z.min (sp_len s) (cap - 1)) by (subst len; destruct (_ >? _) eqn:?; bprop; lia).
  clearbody len. subst len. unfold peek.
  rewrite (proj2 (Z.leb_le 0 (sp_off s))), (proj2 (Z.leb_le 0 (Z.min _ _))),
    (proj2 (Z.leb_le _ (zlen text))) by lia. cbn [andb mbind option_bind].
  assert (Ht : take (Z.to_nat (Z.min (sp_len s) (cap - 1))) (drop (Z.to_nat (sp_off s)) text) =
               take (Z.to_nat (cap - 1)) (span_bytes text s)).
  { unfold span_bytes. rewrite take_take. f_equal. lia. }
  rewrite Ht. set (b := take _ (span_bytes _ _)) in *.
  assert (Hb : zlen b = Z.min (sp_len s) (cap - 1)).
  { rewrite <- Ht. unfold zlen in *. rewrite length_take, length_drop. lia. }
  rewrite bootMemcpy_zero by lia. cbn [mbind option_bind]. unfold bootMemcpy.
  assert (Hp : zlen (pad cap b) = cap)
    by (unfold pad; rewrite zlen_app; unfold zlen in *; rewrite length_replicate; lia).
  rewrite Hp. change (zlen [0]) with 1. rewrite <- Hb.
  rewrite (proj2 (Z.leb_le _ (zlen b))), (proj2 (Z.leb_le (zlen b + 1) cap)) by lia.
  cbn [andb mbind option_bind]. do 2 f_equal. unfold pad. unfold zlen. rewrite Nat2Z.id.
  rewrite take_app_length, drop_app_ge by lia. f_equal. simpl length.
  replace (length b + 1 - length b)%nat with 1%nat by lia. rewrite drop_replicate.
  unfold zlen in *. replace (Z.to_nat cap - length b)%nat with (S (Z.to_nat cap - length b - 1)) by lia.
  simpl. by rewrite Nat.sub_0_r.
Qed.

(** The bytes an optional span stands for. *)
Definition effective (text : list Z) (own global : option BootCfgSpan) (dflt : list Z) : list Z :=
  match first_set own global with Some s => span_bytes text s | None => dflt end.

Lemma first_set_all {A} (P : A -> Prop) a b x :
  opt_all P a -> opt_all P b -> first_set a b = Some x -> P x.
Proof. intros Ha Hb. destruct a; simpl; auto. Qed.

Lemma span_bytes_zlen text s : span_ok text s -> zlen (span_bytes text s) = sp_len s.
Proof.
  intros (?&?&?). unfold span_bytes, zlen in *. rewrite length_take, length_drop. lia.
Qed.

Lemma valid_path_short s : cfgValidPathValue s = true -> zlen s <= BOOT_CFG_PATH_MAX - 1.
Proof. unfold cfgValidPathValue. destruct (_ || _) eqn:E; [done|]. bprop. lia. Qed.

(** What the caller of [bootCfgResolveEntry] gets. *)
Record resolved (text : list Z) (cfg : BootCfg) (e : BootCfgEntryDef) (r : BootCfgEntry) : Prop := {
  re_name : en_name r = pad (BOOT_CFG_NAME_MAX + 1) (span_bytes text (ed_name e));
  re_kernel : en_kernel r = pad BOOT_CFG_PATH_MAX
    (effective text (sc_kernel (ed_keys e)) (sc_kernel (cf_global cfg)) (lit "/bong/kernel.elf"));
  re_initrd : en_initrd r = pad BOOT_CFG_PATH_MAX
    (effective text (sc_initrd (ed_keys e)) (sc_initrd (cf_global cfg)) []);
  re_cmdline : en_cmdline r = pad BOOTINFO_CMDLINE_MAX (take 4095
    (effective text (sc_cmdline (ed_keys e)) (sc_cmdline (cf_global cfg)) []));
  re_trunc : en_cmdlineTruncated r = true <->
    4095 < zlen (effective text (sc_cmdline (ed_keys e)) (sc_cmdline (cf_global cfg)) []);
  re_res : (en_resWidth r, en_resHeight r) =
    default (0, 0) (first_set (sc_resolution (ed_keys e)) (sc_resolution (cf_global cfg)));
  re_kaslr : en_kaslr r = default true (first_set (sc_kaslr (ed_keys e)) (sc_kaslr (cf_global cfg))) }.

Lemma copy_path text own global dflt tail :
  opt_all (fun s => span_ok text s /\ zlen (span_bytes text s) <= 255) own ->
  opt_all (fun s => span_ok text s /\ zlen (span_bytes text s) <= 255) global ->
  (exists n, tail = replicate n 0) -> zlen (dflt ++ tail) <= 256 ->
  exists n, copy_opt text (first_set own global) BOOT_CFG_PATH_MAX (dflt ++ tail) =
    Some (pad BOOT_CFG_PATH_MAX (effective text own global dflt), n).
Proof.
  intros Ho Hg [k ->] Hd. unfold copy_opt, effective.
  destruct (first_set own global) as [s|] eqn:E.
  - pose proof (first_set_all _ own global s Ho Hg E) as [Hs Hl].
    rewrite cfgCopySpan_spec by done.
    rewrite take_ge by (unfold BOOT_CFG_PATH_MAX, zlen in *; lia). eauto.
  - rewrite bootMemcpy_zero by done. cbn [mbind option_bind]. eexists. do 2 f_equal. unfold pad.
    rewrite <- app_assoc. f_equal. rewrite zlen_app in Hd. unfold BOOT_CFG_PATH_MAX, zlen in *.
    rewrite length_replicate in Hd. rewrite <- replicate_add, length_app, length_replicate.
    f_equal. lia.
Qed.

(** The facts about a scope the resolver needs. *)
Lemma scope_paths text sc :
  scope_ok text sc ->
  opt_all (fun s => span_ok text s /\ zlen (span_bytes text s) <= 255) (sc_kernel sc) /\
  opt_all (fun s => span_ok text s /\ zlen (span_bytes text s) <= 255) (sc_initrd sc).
Proof.
  intros [Hk Hi _ _]. split.
  - intros s Hs. destruct (Hk s Hs) as [Hok Hp]. split; [done|]. by apply valid_path_short in Hp.
  - intros s Hs. destruct (Hi s Hs) as [Hok [H0|Hp]]; (split; [done|]).
    + rewrite span_bytes_zlen by done. lia.
    + by apply valid_path_short in Hp.
Qed.

Lemma copy_name t e :
  span_ok t (ed_name e) -> sp_len (ed_name e) <= BOOT_CFG_NAME_MAX ->
  exists n, (if sp_len (ed_name e) >? 0
      then cfgCopySpan t (ed_name e) (BOOT_CFG_NAME_MAX + 1)
      else Some (replicate (Z.to_nat (BOOT_CFG_NAME_MAX + 1)) 0, 0)) =
    Some (pad (BOOT_CFG_NAME_MAX + 1) (span_bytes t (ed_name e)), n).
Proof.
  intros Hn Hl. pose proof (span_bytes_zlen t _ Hn) as Hz. destruct (_ >? 0) eqn:E; bprop.
  - rewrite cfgCopySpan_spec by done. rewrite take_ge; [eauto|].
    unfold BOOT_CFG_NAME_MAX, zlen in *. lia.
  - assert (span_bytes t (ed_name e) = []) as ->; [|by eexists].
    apply nil_length_inv. unfold zlen in Hz. destruct Hn. lia.
Qed.

Lemma copy_cmdline t own global :
  opt_all (span_ok t) own -> opt_all (span_ok t) global ->
  exists n, copy_opt t (first_set own global) BOOTINFO_CMDLINE_MAX [] =
      Some (pad BOOTINFO_CMDLINE_MAX (take 4095 (effective t own global [])), n) /\
    (match first_set own global with Some s => n <? sp_len s | None => false end = true <->
     4095 < zlen (effective t own global [])).
Proof.
  intros Ho Hg. unfold copy_opt, effective. destruct (first_set _ _) as [s|] eqn:E.
  - apply (first_set_all (span_ok t)) in E; [|done..]. rewrite cfgCopySpan_spec by done.
    eexists. split; [done|]. rewrite span_bytes_zlen, Z.ltb_lt by done.
    unfold BOOTINFO_CMDLINE_MAX. lia.
  - rewrite bootMemcpy_zero by done. eexists. split; [done|]. unfold zlen. simpl. split; [done|lia].
Qed.

Lemma resolve_ok text cfg index e :
  let t := skip_bom text in
  cf_entries cfg !! Z.to_nat index = Some e -> 0 <= index ->
  scope_ok t (cf_global cfg) -> span_ok t (ed_name e) -> sp_len (ed_name e) <= BOOT_CFG_NAME_MAX ->
  scope_ok t (ed_keys e) ->
  exists r, bootCfgResolveEntry text cfg index = Some (BOOT_OK, Some r) /\ resolved t cfg e r.
Proof.
  intros t He Hix Hg Hn Hl Hk. unfold bootCfgResolveEntry. fold t.
  destruct (scope_paths t _ Hg) as [Gk Gi]. destruct (scope_paths t _ Hk) as [Kk Ki].
  assert (Hlt : index < cf_entryCount cfg).
  { apply lookup_lt_Some in He. unfold cf_entryCount, zlen. lia. }
  rewrite (proj2 (Z.leb_gt _ _) Hlt), He. cbn [mbind option_bind].
  destruct (copy_name t e Hn Hl) as [n1 ->]. cbn [mbind option_bind].
  destruct (copy_path t _ _ (lit "/bong/kernel.elf") [0] Kk Gk) as [n2 ->];
    [by exists 1%nat|by vm_compute|]. cbn [mbind option_bind].
  destruct (copy_path t _ _ [] [] Ki Gi) as [n3 Hn3]; [by exists 0%nat|by vm_compute|].
  change (@nil Z ++ []) with (@nil Z) in Hn3. rewrite Hn3. cbn [mbind option_bind].
  destruct (copy_cmdline t _ _ (so_cmdline _ _ Hk) (so_cmdline _ _ Hg)) as (n4 & -> & Htr).
  cbn [mbind option_bind].
  destruct (default _ (first_set (sc_resolution _) _)) as [w h] eqn:Er.
  eexists. split; [done|]. split; simpl; try done; congruence.
Qed.

Lemma skip_bom_length text : zlen (skip_bom text) <= zlen text.
Proof.
  assert (H : skip_bom text = text \/ exists a b c, text = a :: b :: c :: skip_bom text).
  { unfold skip_bom. destruct text as [|a [|b [|c text]]]; auto.
    all: repeat (match goal with |- context [match ?x with _ => _ end] => destruct x end); eauto. }
  destruct H as [-> |(a & b & c & H)]; [lia|]. apply (f_equal zlen) in H. 
  rewrite !zlen_cons in H. lia.
Qed.

Lemma parse_spec text :
  let t := skip_bom text in
  match bootCfgParse (Some text) with
  | (BOOT_OK, out) =>
      scope_ok t (cf_global out) /\ (implicit out \/ Forall (entry_ok t) (cf_entries out)) /\
      NoDup (map (entry_name t) (cf_entries out)) /\
      1 <= cf_entryCount out <= BOOT_CFG_MAX_ENTRIES /\
      0 <= cf_defaultIndex out < cf_entryCount out /\ timeout_ok (cf_timeoutSec out) /\
      cf_errorReason out = None
  | (BOOT_ERR_CFG, out) => is_Some (cf_errorReason out)
  | _ => False
  end.
Proof.
  intros t. unfold bootCfgParse. destruct (_ >? _) eqn:E; [simpl; eauto|]. fold t. bprop.
  pose proof (skip_bom_length text) as Hl. fold t in Hl.
  destruct (find_nul_line 1 t); [simpl; eauto|].
  pose proof (lines_ok t ltac:(lia) (length t) 0 0 [] t init_state (init_state_ok t) eq_refl eq_refl)
    as Hs.
  destruct (parse_lines _ _ _ _ _ _) as [out|st]; [done|]. by apply finish_spec.
Qed.

Definition sample_cfg_text : list Z :=
  lit "timeout = 5" ++ [NL] ++ lit "default = Two" ++ [NL] ++ lit "kernel = /k" ++ [CR; NL] ++
  lit "[One]" ++ [NL] ++ lit "# comment" ++ [NL] ++ lit " [ Two ]" ++ [NL] ++
  lit "kernel = /two" ++ [NL] ++ lit "kernel = /ignored" ++ [NL] ++ lit "cmdline = a = b ".

Definition sample_cfg : BootCfg := snd (bootCfgParse (Some sample_cfg_text)).

Lemma sample_cfg_parses : bootCfgParse (Some sample_cfg_text) = (BOOT_OK, sample_cfg).
Proof. vm_compute. reflexivity. Qed.

(** ** Properties *)

(** C36: A parse that succeeds yields a usable menu: between 1 and 9 entries with
    distinct printable names of 1 to 63 bytes (or the one nameless implicit entry),
    a default that is one of them, a timeout of 0..3600 or forever, and every
    recorded span inside the text, kernel and initrd paths absolute and printable;
    a parse that fails says why. *)
Theorem bootCfgParse_sound text :
  let t := skip_bom text in
  match bootCfgParse (Some text) with
  | (BOOT_OK, out) =>
      scope_ok t (cf_global out) /\ (implicit out \/ Forall (entry_ok t) (cf_entries out)) /\
      NoDup (map (entry_name t) (cf_entries out)) /\
      1 <= cf_entryCount out <= BOOT_CFG_MAX_ENTRIES /\
      0 <= cf_defaultIndex out < cf_entryCount out /\ timeout_ok (cf_timeoutSec out) /\
      cf_errorReason out = None
  | (BOOT_ERR_CFG, out) => is_Some (cf_errorReason out)
  | _ => False
  end.
Proof. apply parse_spec. Qed.

(** Resolving an entry of a parsed configuration always succeeds and never
    reads outside the text or writes outside the caller's buffers; the result
    holds, NUL terminated, the entry's own value of each key, else the global one,
    else the built-in default. *)
Theorem bootCfgResolveEntry_total text cfg index :
  bootCfgParse (Some text) = (BOOT_OK, cfg) -> 0 <= index < cf_entryCount cfg ->
  exists e r, cf_entries cfg !! Z.to_nat index = Some e /\
    bootCfgResolveEntry text cfg index = Some (BOOT_OK, Some r) /\ resolved (skip_bom text) cfg e r.
Proof.
  intros Hp Hi. pose proof (parse_spec text) as H. cbv zeta in H. rewrite Hp in H.
  destruct H as (Hg & He & _ & _ & _ & _ & _).
  destruct (lookup_lt_is_Some_2 (cf_entries cfg) (Z.to_nat index)) as [e Hix].
  { unfold cf_entryCount, zlen in Hi. lia. }
  exists e. apply list_elem_of_lookup_2 in Hix as Hin.
  destruct He as [He|He].
  - unfold implicit in He. rewrite He, list_elem_of_singleton in Hin. subst e.
    destruct (resolve_ok text cfg index zero_entry) as (r & Hr & Hres); try done; try lia.
    + split_and!; simpl; pose proof (zlen_nonneg (skip_bom text)); lia.
    + eauto.
  - rewrite Forall_forall in He. destruct (He e Hin).
    destruct (resolve_ok text cfg index e) as (r & Hr & Hres); try done; try lia. eauto.
Qed.

Lemma bootCfgResolveEntry_total_witness :
  exists r, bootCfgResolveEntry sample_cfg_text sample_cfg 1 = Some (BOOT_OK, Some r) /\
    en_kernel r = pad 256 (lit "/two") /\ en_cmdline r = pad 4096 (lit "a = b").
Proof.
  destruct (bootCfgResolveEntry_total sample_cfg_text sample_cfg 1 sample_cfg_parses)
    as (e & r & He & Hr & [_ Hk _ Hc _ _ _]).
  - vm_compute. split; [discriminate|reflexivity].
  - exists r. split; [exact Hr|].
    rewrite Hk, Hc. vm_compute in He. injection He as <-. vm_compute. split; reflexivity.
Defined.

(** The line loop ends by itself: giving the parser more iterations than the
    text has bytes never changes the outcome, so every line is processed. *)
Theorem parse_lines_terminates text lineNo off rest st fuel :
  (length rest <= fuel)%nat ->
  parse_lines fuel text lineNo off rest st = parse_lines (length rest) text lineNo off rest st.
Proof. intros. by apply parse_lines_fuel. Qed.

Lemma parse_lines_terminates_witness :
  parse_lines 1000 sample_cfg_text 0 0 sample_cfg_text init_state =
  parse_lines (length sample_cfg_text) sample_cfg_text 0 0 sample_cfg_text init_state.
Proof. apply parse_lines_terminates. vm_compute. lia. Defined.
