(* ===== verification/BootMenu.v ===== *)
(** * The boot menu (src/boot/common/bootmenu.c) and its key parser (bootkey.c)

    Two state machines driven by the firmware glue: bytes become keys, keys and
    one-second ticks move the menu. The functions that mutate their state return
    the new state with the action. *)

From stdpp Require Import strings.
From S2P Require Import Prelude BootTypes BootCfg.

(** ** Keys *)

(** Models src/boot/common/include/bootmenu.h:14-21, BootKeyKind. *)
Inductive BootKeyKind :=
| BOOT_KEY_NONE | BOOT_KEY_UP | BOOT_KEY_DOWN | BOOT_KEY_ENTER | BOOT_KEY_DIGIT | BOOT_KEY_OTHER.

(** Models src/boot/common/include/bootmenu.h:23-26, BootKey. *)
Record BootKey := { key_kind : BootKeyKind; key_digit : Z }.

(** Models src/boot/common/include/bootkey.h:15-19, BootKeyParseState. *)
Inductive BootKeyParseState :=
| BOOT_KEY_PARSE_IDLE | BOOT_KEY_PARSE_GOT_ESC | BOOT_KEY_PARSE_GOT_CSI.

Definition ESC_BYTE : Z := 0x1B.

Definition simple_key (k : BootKeyKind) : BootKey := {| key_kind := k; key_digit := 0 |}.

(** Models src/boot/common/bootkey.c:10-13, otherKey. *)
Definition otherKey : BootKey := simple_key BOOT_KEY_OTHER.

(** Models src/boot/common/bootkey.c:6-8, bootKeyParserInit. *)
Definition bootKeyParserInit : BootKeyParseState := BOOT_KEY_PARSE_IDLE.

(** [None] is a [false] return. *)
(** Models src/boot/common/bootkey.c:15-56, bootKeyParserFeed. *)
Definition bootKeyParserFeed (state : BootKeyParseState) (byte : Z)
    : option BootKey * BootKeyParseState :=
  match state with
  | BOOT_KEY_PARSE_IDLE =>
      if byte =? ESC_BYTE then (None, BOOT_KEY_PARSE_GOT_ESC)
      else if (ch "1" <=? byte) && (byte <=? ch "9")
      then (Some {| key_kind := BOOT_KEY_DIGIT; key_digit := byte - ch "0" |}, state)
      else if (byte =? CR) || (byte =? NL) then (Some (simple_key BOOT_KEY_ENTER), state)
      else (Some otherKey, state)
  | BOOT_KEY_PARSE_GOT_ESC =>
      if (byte =? ch "[") || (byte =? ch "O") then (None, BOOT_KEY_PARSE_GOT_CSI)
      else (Some otherKey, BOOT_KEY_PARSE_IDLE)
  | BOOT_KEY_PARSE_GOT_CSI =>
      if byte =? ch "A" then (Some (simple_key BOOT_KEY_UP), BOOT_KEY_PARSE_IDLE)
      else if byte =? ch "B" then (Some (simple_key BOOT_KEY_DOWN), BOOT_KEY_PARSE_IDLE)
      else (Some otherKey, BOOT_KEY_PARSE_IDLE)
  end.

(** The keys a byte stream produces. *)
Fixpoint feed_all (state : BootKeyParseState) (bytes : list Z) : list BootKey * BootKeyParseState :=
  match bytes with
  | [] => ([], state)
  | b :: rest =>
      let '(k, state) := bootKeyParserFeed state b in
      let '(keys, state) := feed_all state rest in
      (match k with Some k => k :: keys | None => keys end, state)
  end.

(** ** The menu *)

(** Models src/boot/common/include/bootmenu.h:28-33, BootMenuAction. *)
Inductive BootMenuAction :=
| BOOT_MENU_NONE | BOOT_MENU_REDRAW_ROWS | BOOT_MENU_REDRAW_COUNTDOWN | BOOT_MENU_BOOT.

(** Models src/boot/common/include/bootmenu.h:35-42, BootMenuState. *)
Record BootMenuState := {
  ms_entryCount : Z; ms_selected : Z; ms_oldSelected : Z;
  ms_timeoutSec : Z; ms_remainingSec : Z; ms_countdownActive : bool }.

(** Models src/boot/common/bootmenu.c:6-19, bootMenuInit. *)
Definition bootMenuInit (cfg : BootCfg) : BootMenuState :=
  {| ms_entryCount := cf_entryCount cfg; ms_selected := cf_defaultIndex cfg;
     ms_oldSelected := cf_defaultIndex cfg; ms_timeoutSec := cf_timeoutSec cfg;
     ms_remainingSec := cf_timeoutSec cfg; ms_countdownActive := cf_timeoutSec cfg >? 0 |}.

Definition stop (s : BootMenuState) : BootMenuState :=
  {| ms_entryCount := ms_entryCount s; ms_selected := ms_selected s;
     ms_oldSelected := ms_oldSelected s; ms_timeoutSec := ms_timeoutSec s;
     ms_remainingSec := ms_remainingSec s; ms_countdownActive := false |}.

Definition select (s : BootMenuState) (i : Z) : BootMenuState :=
  {| ms_entryCount := ms_entryCount s; ms_selected := i; ms_oldSelected := ms_selected s;
     ms_timeoutSec := ms_timeoutSec s; ms_remainingSec := ms_remainingSec s;
     ms_countdownActive := ms_countdownActive s |}.

(** Models src/boot/common/bootmenu.c:21-27, stopCountdown. *)
Definition stopCountdown (s : BootMenuState) : BootMenuAction * BootMenuState :=
  if negb (ms_countdownActive s) then (BOOT_MENU_NONE, s)
  else (BOOT_MENU_REDRAW_COUNTDOWN, stop s).

(** Models src/boot/common/bootmenu.c:29-73, bootMenuKey. *)
Definition bootMenuKey (s : BootMenuState) (key : BootKey) : BootMenuAction * BootMenuState :=
  let blanked := if ms_countdownActive s then BOOT_MENU_REDRAW_COUNTDOWN else BOOT_MENU_NONE in
  match key_kind key with
  | BOOT_KEY_UP =>
      if ms_selected s =? 0 then (blanked, stop s)
      else (BOOT_MENU_REDRAW_ROWS, select (stop s) (u32 (ms_selected s - 1)))
  | BOOT_KEY_DOWN =>
      if ms_entryCount s <=? u32 (ms_selected s + 1) then (blanked, stop s)
      else (BOOT_MENU_REDRAW_ROWS, select (stop s) (u32 (ms_selected s + 1)))
  | BOOT_KEY_ENTER => (BOOT_MENU_BOOT, s)
  | BOOT_KEY_DIGIT =>
      if (1 <=? key_digit key) && (key_digit key <=? ms_entryCount s)
      then (BOOT_MENU_BOOT, select s (u32 (key_digit key - 1)))
      else (BOOT_MENU_NONE, s)
  | BOOT_KEY_OTHER => stopCountdown s
  | BOOT_KEY_NONE => (BOOT_MENU_NONE, s)
  end.

(** Models src/boot/common/bootmenu.c:75-90, bootMenuTick. *)
Definition bootMenuTick (s : BootMenuState) : BootMenuAction * BootMenuState :=
  if negb (ms_countdownActive s) || (ms_timeoutSec s =? BOOT_CFG_TIMEOUT_FOREVER)
  then (BOOT_MENU_NONE, s) else
  if ms_remainingSec s =? 0 then (BOOT_MENU_NONE, s) else
  let r := u32 (ms_remainingSec s - 1) in
  let s' := {| ms_entryCount := ms_entryCount s; ms_selected := ms_selected s;
               ms_oldSelected := ms_oldSelected s; ms_timeoutSec := ms_timeoutSec s;
               ms_remainingSec := r; ms_countdownActive := ms_countdownActive s |} in
  if r =? 0 then (BOOT_MENU_BOOT, stop s') else (BOOT_MENU_REDRAW_COUNTDOWN, s').

(** ** The menu as a transition system *)

Inductive event := Key (k : BootKey) | Tick.

Definition handle (s : BootMenuState) (e : event) : BootMenuAction * BootMenuState :=
  match e with Key k => bootMenuKey s k | Tick => bootMenuTick s end.

(** [reachable s0 s]: some sequence of events leads from [s0] to [s]; the menu stops
    being fed at the first BOOT, but nothing here depends on that. *)
Inductive reachable (s0 : BootMenuState) : BootMenuState -> Prop :=
| reach_init : reachable s0 s0
| reach_step s e a s' : reachable s0 s -> handle s e = (a, s') -> reachable s0 s'.

Record menu_inv (n : Z) (s : BootMenuState) : Prop := {
  mi_count : ms_entryCount s = n;
  mi_sel : 0 <= ms_selected s < n;
  mi_old : 0 <= ms_oldSelected s < n;
  mi_rem : 0 <= ms_remainingSec s <= ms_timeoutSec s;
  mi_u32 : is_u32 (ms_timeoutSec s) }.

Lemma handle_inv n s e :
  is_u32 n -> menu_inv n s -> menu_inv n (snd (handle s e)).
Proof.
  intros Hn [Hc Hs Ho Hr Hu]. destruct e as [[k d]|]; simpl.
  - unfold bootMenuKey. destruct k; simpl; try by split.
    + destruct (_ =? 0) eqn:E; bprop; split; simpl; try done.
      rewrite u32_small by (words; lia). lia.
    + destruct (_ <=? _) eqn:E; bprop; split; simpl; try done.
      revert E. words. intros E. destruct (decide (ms_selected s + 1 < 2 ^ 32)).
      * rewrite Z.mod_small in * by lia. lia.
      * lia.
    + destruct (_ && _) eqn:E; bprop; split; simpl; try done.
      rewrite u32_small by (words; lia). lia.
    + unfold stopCountdown. destruct (negb _); by split.
  - unfold bootMenuTick. destruct (_ || _); [by split|].
    destruct (_ =? 0) eqn:E; [by split|]. bprop.
    assert (Hd : u32 (ms_remainingSec s - 1) = ms_remainingSec s - 1)
      by (apply u32_small; words; lia). rewrite Hd.
    destruct (_ =? 0); split; simpl; try done; lia.
Qed.

Lemma reachable_inv n s0 s : is_u32 n -> menu_inv n s0 -> reachable s0 s -> menu_inv n s.
Proof.
  intros Hn H0. induction 1 as [|s e a s' _ IH Hs]; [done|].
  replace s' with (snd (handle s e)) by by rewrite Hs. by apply handle_inv.
Qed.

Lemma parsed_menu_inv text cfg :
  bootCfgParse (Some text) = (BOOT_OK, cfg) ->
  is_u32 (cf_entryCount cfg) /\ menu_inv (cf_entryCount cfg) (bootMenuInit cfg).
Proof.
  intros Hp. pose proof (parse_spec text) as H. cbv zeta in H. rewrite Hp in H.
  destruct H as (_ & _ & _ & Hc & Hd & Ht & _).
  unfold BOOT_CFG_MAX_ENTRIES, timeout_ok, BOOT_CFG_TIMEOUT_MAX, BOOT_CFG_TIMEOUT_FOREVER in *.
  split; [words; lia|]. split; simpl; try done; words; lia.
Qed.

(** ** The countdown *)

(** [n] ticks with no key in between. *)
Fixpoint ticks (n : nat) (s : BootMenuState) : list BootMenuAction * BootMenuState :=
  match n with
  | O => ([], s)
  | S n => let '(a, s) := bootMenuTick s in let '(r, s) := ticks n s in (a :: r, s)
  end.

Lemma ticks_countdown n s :
  ms_countdownActive s = true -> ms_timeoutSec s <> BOOT_CFG_TIMEOUT_FOREVER ->
  is_u32 (ms_remainingSec s) -> ms_remainingSec s = Z.of_nat (S n) ->
  fst (ticks (S n) s) = replicate n BOOT_MENU_REDRAW_COUNTDOWN ++ [BOOT_MENU_BOOT] /\
  ms_selected (snd (ticks (S n) s)) = ms_selected s /\
  ms_countdownActive (snd (ticks (S n) s)) = false.
Proof.
  revert s. induction n as [|n IH]; intros s Ha Hf Hu Hr; cbn [ticks].
  - unfold bootMenuTick. rewrite Ha, (proj2 (Z.eqb_neq _ _) Hf), Hr. done.
  - destruct (bootMenuTick s) as [a s'] eqn:Et. unfold bootMenuTick in Et.
    rewrite Ha, (proj2 (Z.eqb_neq _ _) Hf) in Et. simpl in Et.
    rewrite (proj2 (Z.eqb_neq (ms_remainingSec s) 0)) in Et by lia.
    rewrite (u32_small (_ - 1)) in Et by (words; lia).
    rewrite (proj2 (Z.eqb_neq (_ - 1) 0)) in Et by lia. simplify_eq.
    destruct (IH {| ms_entryCount := ms_entryCount s; ms_selected := ms_selected s;
               ms_oldSelected := ms_oldSelected s; ms_timeoutSec := ms_timeoutSec s;
               ms_remainingSec := ms_remainingSec s - 1; ms_countdownActive := true |}) as (H1 & H2 & H3);
      simpl; try done; [words; lia|lia|].
    cbn [ticks] in H1, H2, H3.
    destruct (bootMenuTick _) as [a' s'']. destruct (ticks n s'') as [r s3]. simpl in *.
    split_and!; [by rewrite H1|done..].
Qed.

(** A stopped countdown stays stopped. *)
Lemma stopped_handle s e :
  ms_countdownActive s = false -> ms_countdownActive (snd (handle s e)) = false.
Proof.
  intros Ha. destruct e as [[k d]|]; simpl.
  - unfold bootMenuKey, stopCountdown. rewrite Ha. destruct k; simpl; bcases; done.
  - unfold bootMenuTick. by rewrite Ha.
Qed.

Lemma stopped_reachable s s' :
  ms_countdownActive s = false -> reachable s s' -> ms_countdownActive s' = false.
Proof.
  intros Ha. induction 1 as [|t e a t' _ IH Hs]; [done|].
  replace t' with (snd (handle t e)) by by rewrite Hs. by apply stopped_handle.
Qed.

(** ** Encoding keys as bytes *)

(** What a terminal sends for a key ([app]: application cursor keys). *)
Definition encode_key (app : bool) (k : BootKey) : list Z :=
  let lead := if app then ch "O" else ch "[" in
  match key_kind k with
  | BOOT_KEY_UP => [ESC_BYTE; lead; ch "A"]
  | BOOT_KEY_DOWN => [ESC_BYTE; lead; ch "B"]
  | BOOT_KEY_ENTER => [CR]
  | BOOT_KEY_DIGIT => [ch "0" + key_digit k]
  | _ => [ch " "]
  end.

Definition sendable (k : BootKey) : Prop :=
  match key_kind k with
  | BOOT_KEY_NONE => False
  | BOOT_KEY_DIGIT => 1 <= key_digit k <= 9
  | _ => key_digit k = 0
  end.

Lemma feed_encoded app k rest :
  sendable k ->
  feed_all BOOT_KEY_PARSE_IDLE (encode_key app k ++ rest) =
  (k :: fst (feed_all BOOT_KEY_PARSE_IDLE rest), snd (feed_all BOOT_KEY_PARSE_IDLE rest)).
Proof.
  destruct k as [kd d]. unfold sendable, encode_key. simpl. intros Hk.
  destruct kd; try done; try (subst d; destruct app; simpl;
    destruct (feed_all BOOT_KEY_PARSE_IDLE rest); done).
  change (ch "0") with 48. simpl. change (ch "1") with 49. change (ch "9") with 57.
  change (ch "0") with 48. unfold ESC_BYTE.
  rewrite (proj2 (Z.eqb_neq (48 + d) _)), (proj2 (Z.leb_le 49 _)), (proj2 (Z.leb_le _ 57)) by lia.
  simpl. destruct (feed_all BOOT_KEY_PARSE_IDLE rest). simpl. repeat f_equal. lia.
Qed.

(** ** Properties *)

(** C37: Driven by any sequence of keys and ticks from a parsed boot.cfg, the menu
    never selects outside the entries: when it says BOOT, [entries[selected]]
    exists, and the countdown never passes below zero. *)
Theorem bootMenu_boots_existing_entry text cfg s e a s' :
  bootCfgParse (Some text) = (BOOT_OK, cfg) -> reachable (bootMenuInit cfg) s ->
  handle s e = (a, s') ->
  (exists entry, cf_entries cfg !! Z.to_nat (ms_selected s') = Some entry) /\
  0 <= ms_selected s' < cf_entryCount cfg /\ 0 <= ms_remainingSec s' <= ms_timeoutSec s'.
Proof.
  intros Hp Hr Hh. destruct (parsed_menu_inv text cfg Hp) as [Hu Hi].
  assert (Hi' : menu_inv (cf_entryCount cfg) s')
    by (apply (reachable_inv _ (bootMenuInit cfg)); [done..|]; by eapply reach_step).
  destruct Hi' as [_ Hs _ Hrem _]. split; [|done]. apply lookup_lt_is_Some_2.
  unfold cf_entryCount, zlen in Hs. lia.
Qed.

Lemma bootMenu_boots_existing_entry_witness :
  exists entry, cf_entries sample_cfg !! 0%nat = Some entry.
Proof.
  destruct (bootMenu_boots_existing_entry sample_cfg_text sample_cfg (bootMenuInit sample_cfg)
    (Key (simple_key BOOT_KEY_UP)) BOOT_MENU_REDRAW_ROWS
    (snd (handle (bootMenuInit sample_cfg) (Key (simple_key BOOT_KEY_UP))))
    sample_cfg_parses) as [[e He] _].
  - constructor.
  - vm_compute. reflexivity.
  - exists e. exact He.
Defined.

(** C38: Left alone, the menu boots the default entry after exactly [timeoutSec]
    ticks: each tick before redraws the countdown. *)
Theorem bootMenu_countdown_boots cfg n :
  cf_timeoutSec cfg = Z.of_nat (S n) -> cf_timeoutSec cfg <= BOOT_CFG_TIMEOUT_MAX ->
  fst (ticks (S n) (bootMenuInit cfg)) =
    replicate n BOOT_MENU_REDRAW_COUNTDOWN ++ [BOOT_MENU_BOOT] /\
  ms_selected (snd (ticks (S n) (bootMenuInit cfg))) = cf_defaultIndex cfg.
Proof.
  unfold BOOT_CFG_TIMEOUT_MAX. intros Ht Hm.
  destruct (ticks_countdown n (bootMenuInit cfg)) as (H1 & H2 & _); [| | |done|done].
  - unfold bootMenuInit. cbn [ms_countdownActive]. rewrite Z.gtb_ltb. apply Z.ltb_lt. lia.
  - simpl. unfold BOOT_CFG_TIMEOUT_FOREVER. lia.
  - simpl. words. lia.
Qed.

Lemma bootMenu_countdown_boots_witness :
  ms_selected (snd (ticks 5 (bootMenuInit sample_cfg))) = 1.
Proof.
  destruct (bootMenu_countdown_boots sample_cfg 4) as [_ H];
    [vm_compute; reflexivity|vm_compute; discriminate|]. exact H.
Defined.

(** Any key but Enter and a valid digit ends the countdown for good: after it,
    whatever else happens, no tick boots an entry or changes the state. *)
Theorem bootMenu_key_stops_countdown s k s1 s2 :
  k = BOOT_KEY_UP \/ k = BOOT_KEY_DOWN \/ k = BOOT_KEY_OTHER ->
  s1 = snd (bootMenuKey s (simple_key k)) -> reachable s1 s2 ->
  bootMenuTick s2 = (BOOT_MENU_NONE, s2).
Proof.
  intros Hk -> Hr. apply stopped_reachable in Hr.
  - unfold bootMenuTick. by rewrite Hr.
  - unfold bootMenuKey, stopCountdown. destruct Hk as [-> |[-> | ->]]; simpl; bcases; try done.
Qed.

Lemma bootMenu_key_stops_countdown_witness :
  fst (bootMenuTick (snd (bootMenuKey (bootMenuInit sample_cfg) (simple_key BOOT_KEY_OTHER)))) =
  BOOT_MENU_NONE.
Proof.
  rewrite (bootMenu_key_stops_countdown (bootMenuInit sample_cfg) BOOT_KEY_OTHER
    (snd (bootMenuKey (bootMenuInit sample_cfg) (simple_key BOOT_KEY_OTHER)))); [reflexivity| | |].
  - right. right. reflexivity.
  - reflexivity.
  - constructor.
Defined.

(** The serial key parser decodes what a terminal sends: any sequence of keys,
    each arrow in either of its two encodings, comes back in order, and the parser
    is ready for the next key. *)
Theorem bootKeyParser_roundtrip (keys : list (bool * BootKey)) :
  Forall (fun ak => sendable ak.2) keys ->
  feed_all bootKeyParserInit (concat (map (fun ak => encode_key ak.1 ak.2) keys)) =
  (map snd keys, BOOT_KEY_PARSE_IDLE).
Proof.
  induction 1 as [|[app k] keys Hk _ IH]; [done|]. simpl.
  unfold bootKeyParserInit in *. by rewrite feed_encoded, IH.
Qed.

Lemma bootKeyParser_roundtrip_witness :
  feed_all bootKeyParserInit [0x1B; 0x5B; 0x42; 0x1B; 0x4F; 0x41; 0x33; 13] =
  ([simple_key BOOT_KEY_DOWN; simple_key BOOT_KEY_UP;
    {| key_kind := BOOT_KEY_DIGIT; key_digit := 3 |}; simple_key BOOT_KEY_ENTER],
   BOOT_KEY_PARSE_IDLE).
Proof.
  apply (bootKeyParser_roundtrip [(false, simple_key BOOT_KEY_DOWN); (true, simple_key BOOT_KEY_UP);
    (false, {| key_kind := BOOT_KEY_DIGIT; key_digit := 3 |}); (false, simple_key BOOT_KEY_ENTER)]).
  repeat (constructor; [unfold sendable; simpl; lia|]). constructor.
Defined.
