(* ===== verification/BlockDev.v ===== *)
(** * Block devices (src/boot/common/include/bootblk.h) and byte images

    The loader's filesystem and partition code sees a disk only through
    [BootBlockDev]. What that code relies on is the class [SectorDevice]; a disk
    image held in memory is its instance, and the lemmas about copies into an image
    serve the image writer. *)

From S2P Require Import Prelude BootTypes.

(** [bd_read lba] is a one-sector read: the bytes stored to [dst], or [None] for
    [BOOT_ERR_IO]. *)
(** Models src/boot/common/include/bootblk.h:17-22, BootBlockDev. *)
Record BootBlockDev := {
  bd_read : Z -> option (list Z);
  bd_sectorSize : Z;
  bd_sectorCount : Z }.

(** The documented contract of the read callback: a successful read fills exactly
    one sector, with bytes. *)
Class SectorDevice (dev : BootBlockDev) : Prop := {
  sector_size_ok : is_u32 (bd_sectorSize dev);
  sector_count_ok : is_u64 (bd_sectorCount dev);
  sector_length : forall lba s, bd_read dev lba = Some s -> zlen s = bd_sectorSize dev;
  sector_bytes : forall lba s, bd_read dev lba = Some s -> is_bytes s }.

(** ** Reading [peek] through a copy *)

Lemma peek_inside buf off n :
  0 <= off -> 0 <= n -> off + n <= zlen buf ->
  peek buf off n = Some (take (Z.to_nat n) (drop (Z.to_nat off) buf)).
Proof.
  intros. unfold peek.
  by rewrite (proj2 (Z.leb_le 0 off)), (proj2 (Z.leb_le 0 n)), (proj2 (Z.leb_le _ (zlen buf))) by lia.
Qed.

Lemma peek_app_r a b off n :
  0 <= n -> zlen a <= off -> peek (a ++ b) off n = peek b (off - zlen a) n.
Proof.
  intros Hn Ho. pose proof (zlen_nonneg a). unfold peek. rewrite zlen_app.
  rewrite (proj2 (Z.leb_le 0 off)), (proj2 (Z.leb_le 0 (off - _))), (proj2 (Z.leb_le 0 n)) by lia.
  simpl. replace (off - zlen a + n <=? zlen b) with (off + n <=? zlen a + zlen b)
    by (apply eq_true_iff_eq; rewrite !Z.leb_le; lia).
  destruct (_ <=? _); [|done]. do 2 f_equal. unfold zlen in *. rewrite drop_app_ge by lia.
  f_equal. lia.
Qed.

Lemma peek_app_l a b off n :
  0 <= n -> off + n <= zlen a -> peek (a ++ b) off n = peek a off n.
Proof.
  intros Hn Ho. pose proof (zlen_nonneg b). unfold peek. rewrite zlen_app.
  rewrite (proj2 (Z.leb_le _ (zlen a + zlen b))), (proj2 (Z.leb_le _ (zlen a))) by lia.
  destruct (0 <=? off) eqn:E; [|done]. rewrite (proj2 (Z.leb_le 0 n)) by lia. bprop. simpl.
  f_equal. unfold zlen in *. rewrite drop_app_le by lia. apply take_app_le.
  rewrite length_drop. lia.
Qed.

Lemma peek_all a : peek a 0 (zlen a) = Some a.
Proof.
  rewrite peek_inside by (pose proof (zlen_nonneg a); lia).
  unfold zlen. by rewrite Nat2Z.id, firstn_all.
Qed.

Lemma peek_prefix a b : peek (a ++ b) 0 (zlen a) = Some a.
Proof. rewrite peek_app_l by (pose proof (zlen_nonneg a); lia). apply peek_all. Qed.

Lemma peek_mid a b c off :
  off = zlen a -> peek (a ++ b ++ c) off (zlen b) = Some b.
Proof.
  intros ->. pose proof (zlen_nonneg b). rewrite peek_app_r by lia. rewrite Z.sub_diag.
  apply peek_prefix.
Qed.

Lemma bootMemcpy_split dst off src dst' :
  bootMemcpy dst off src = Some dst' ->
  exists a b c, dst = a ++ b ++ c /\ dst' = a ++ src ++ c /\ zlen a = off /\ zlen b = zlen src.
Proof.
  unfold bootMemcpy. destruct (_ && _) eqn:E; [|done]. intros [= <-]. bprop.
  exists (take (Z.to_nat off) dst), (take (length src) (drop (Z.to_nat off) dst)),
         (drop (Z.to_nat off + length src) dst).
  split_and!; [|done|unfold zlen in *; rewrite ?length_take, ?length_drop; lia..].
  rewrite <- drop_drop. by rewrite !take_drop.
Qed.

(** A read inside the copied range sees the source. *)
Lemma peek_memcpy_in dst off src dst' o n :
  bootMemcpy dst off src = Some dst' -> 0 <= n -> off <= o -> o + n <= off + zlen src ->
  peek dst' o n = peek src (o - off) n.
Proof.
  intros (a & b & c & -> & -> & Ha & Hb)%bootMemcpy_split Hn Ho He. subst off.
  rewrite peek_app_r by lia. apply peek_app_l; lia.
Qed.

(** A read outside the copied range sees the destination. *)
Lemma peek_memcpy_out dst off src dst' o n :
  bootMemcpy dst off src = Some dst' -> 0 <= n -> o + n <= off \/ off + zlen src <= o ->
  peek dst' o n = peek dst o n.
Proof.
  intros (a & b & c & -> & -> & Ha & Hb)%bootMemcpy_split Hn [He|He]; subst off.
  - by rewrite !peek_app_l by lia.
  - pose proof (zlen_nonneg a). pose proof (zlen_nonneg src).
    rewrite (peek_app_r a) by lia. rewrite (peek_app_r a) by lia.
    rewrite !peek_app_r by lia. by rewrite Hb.
Qed.

Lemma bootMemcpy_bytes dst off src dst' :
  bootMemcpy dst off src = Some dst' -> is_bytes dst -> is_bytes src -> is_bytes dst'.
Proof.
  intros (a & b & c & -> & -> & _)%bootMemcpy_split Hd Hs. unfold is_bytes in *.
  rewrite !Forall_app in *. tauto.
Qed.

Lemma bootMemcpy_zlen dst off src dst' :
  bootMemcpy dst off src = Some dst' -> zlen dst' = zlen dst.
Proof. intros H%bootMemcpy_length. unfold zlen. by rewrite H. Qed.

(** ** An image in memory as a device *)

Definition image_dev (sectorSize : Z) (image : list Z) : BootBlockDev :=
  {| bd_read lba := if (0 <=? lba) && (lba <? zlen image / sectorSize)
                    then peek image (lba * sectorSize) sectorSize else None;
     bd_sectorSize := sectorSize; bd_sectorCount := zlen image / sectorSize |}.

Lemma image_dev_ok sectorSize image :
  is_u32 sectorSize -> 0 < sectorSize -> is_u64 (zlen image) -> is_bytes image ->
  SectorDevice (image_dev sectorSize image).
Proof.
  intros Hs Hpos Hl Hb. split; simpl.
  - done.
  - words. split; [apply Z.div_pos; lia|]. apply Z.div_lt_upper_bound; nia.
  - intros lba s. destruct (_ && _); [|done]. intros (_&_&_&?&_)%peek_Some. done.
  - intros lba s. destruct (_ && _); [|done]. by apply peek_bytes.
Qed.
