(* ===== verification/BootFat.v ===== *)
(** * The loader's FAT32 reader

    Models boot/common/bootfat.c: mounting a volume, following cluster chains, long and
    short names, opening a path and reading a file.  The disk is a [BootBlockDev] whose
    reads of several sectors are an operation of their own.  Every access to a sector
    buffer is checked: [FFault] is a run that has left it. *)

From S2P Require Import Prelude BootTypes BlockDev.

(** ** Devices *)

(** [read] with a count: [bd_reads lba n] is the bytes of [n] sectors, or [None] for BOOT_ERR_IO. *)
Class MultiRead (dev : BootBlockDev) := { bd_reads : Z -> Z -> option (list Z) }.

(** What bootblk.h says of it: the sectors that start at [lba], one after the other, or a failure. *)
Class MultiReadLaws (dev : BootBlockDev) {MR : MultiRead dev} : Prop := {
  multi_sectors lba n : 0 < n -> bd_reads lba n = mjoin <$> mapM (bd_read dev) (seqZ lba n)
}.

(** What the reader needs of the sectors: a whole number of directory entries, room for a boot record. *)
Class FatDevice (dev : BootBlockDev) : Prop := {
  fat_sectors :: SectorDevice dev;
  fat_sector_min : 512 <= bd_sectorSize dev;
  fat_sector_entries : (32 | bd_sectorSize dev)
}.

(** ** Types and constants *)

Definition FAT_EOC_MIN : Z := 0x0FFFFFF8.
Definition FAT_BAD_CLUSTER : Z := 0x0FFFFFF7.
Definition FAT_ENTRY_MASK : Z := 0x0FFFFFFF.
Definition DIR_ENTRY_SIZE : Z := 32.
Definition ATTR_VOLUME_ID : Z := 0x08.
Definition ATTR_DIRECTORY : Z := 0x10.
Definition ATTR_LFN : Z := 0x0F.
Definition LFN_LAST_ENTRY_FLAG : Z := 0x40.
Definition LFN_SEQ_MASK : Z := 0x1F.
Definition LFN_CHARS_PER_ENTRY : Z := 13.
Definition LFN_MAX_SEQ : Z := 20.
Definition BOOT_FAT_PATH_MAX_COMPONENTS : Z := 16.
Definition BOOT_FAT_COMPONENT_MAX : Z := 255.
Definition BOOT_FAT_LFN_BUF_LEN : Z := LFN_MAX_SEQ * LFN_CHARS_PER_ENTRY.

(** Models src/boot/common/include/bootfat.h:13-22, BootFatVol; the device is an argument of its own. *)
Record BootFatVol := mkVol {
  fv_fatLba : Z; fv_dataLba : Z; fv_bytesPerSec : Z; fv_secPerClus : Z; fv_fatSz32 : Z; fv_rootClus : Z; fv_countOfClusters : Z
}.

(** Models src/boot/common/include/bootfat.h:24-27, BootFatFile. *)
Record BootFatFile := mkFile { ff_firstCluster : Z; ff_size : Z }.

(** A call returns, fails with a status, or leaves a buffer. *)
Inductive fat (A : Type) := FOk (a : A) | FErr (st : BootStatus) | FFault.
#[global] Arguments FOk {A} a.
#[global] Arguments FErr {A} st.
#[global] Arguments FFault {A}.

#[global] Instance fat_bind : MBind fat := fun A B f m =>
  match m with FOk a => f a | FErr st => FErr st | FFault => FFault end.

Definition inb {A} (o : option A) : fat A := match o with Some a => FOk a | None => FFault end.

(** A little-endian field of a buffer. *)
Definition field (buf : list Z) (off n : Z) : fat Z := inb (peek_le buf off n).

Section Reader.
Context (dev : BootBlockDev) {MR : MultiRead dev}.

Definition read1 (lba : Z) : fat (list Z) := match bd_read dev lba with Some s => FOk s | None => FErr BOOT_ERR_IO end.

(** ** Mounting *)

(** Models src/boot/common/bootfat.c:57-59, isPowerOfTwo. *)
Definition isPowerOfTwo (v : Z) : bool := negb (v =? 0) && ((v .& u32 (v - 1)) =? 0).

(** Models src/boot/common/bootfat.c:61-144, bootFatMount. *)
Definition bootFatMount (partLba partSectors : Z) : fat BootFatVol :=
  scratch ← read1 partLba;
  jmp0 ← field scratch 0 1;
  if negb (jmp0 =? 0xEB) && negb (jmp0 =? 0xE9) then FErr BOOT_ERR_FAT
  else
    bytsPerSec ← field scratch 11 2;
    secPerClus ← field scratch 13 1;
    rsvdSecCnt ← field scratch 14 2;
    numFats ← field scratch 16 1;
    rootEntCnt ← field scratch 17 2;
    totSec16 ← field scratch 19 2;
    fatSz16 ← field scratch 22 2;
    totSec32 ← field scratch 32 4;
    fatSz32 ← field scratch 36 4;
    fsVer ← field scratch 42 2;
    rootClus ← field scratch 44 4;
    extFlags ← field scratch 40 2;
    if negb (bytsPerSec =? bd_sectorSize dev) then FErr BOOT_ERR_FAT
    else if negb (isPowerOfTwo secPerClus) || (128 <? secPerClus) then FErr BOOT_ERR_FAT
    else if (rsvdSecCnt <? 1) || (numFats <? 1) then FErr BOOT_ERR_FAT
    else if negb (rootEntCnt =? 0) || negb (totSec16 =? 0) || negb (fatSz16 =? 0) || (fatSz32 =? 0) || negb (fsVer =? 0)
    then FErr BOOT_ERR_FAT
    else if (totSec32 =? 0) || (partSectors <? totSec32) then FErr BOOT_ERR_FAT
    else
      sig0 ← field scratch 510 1;
      sig1 ← field scratch 511 1;
      if negb (sig0 =? 0x55) || negb (sig1 =? 0xAA) then FErr BOOT_ERR_FAT
      else
        let reservedAndFats := rsvdSecCnt +! (numFats *! fatSz32) in
        if totSec32 <=? reservedAndFats then FErr BOOT_ERR_FAT
        else
          let dataSectors := totSec32 -! reservedAndFats in
          let countOfClusters := u32 (fst (bootDivMod64 dataSectors secPerClus)) in
          if (countOfClusters <? 65525) || (0x0FFFFFF5 <=? countOfClusters) then FErr BOOT_ERR_FAT
          else
            let fatEntryCap := fst (bootDivMod64 (fatSz32 *! bytsPerSec) 4) in
            if fatEntryCap <? countOfClusters +! 2 then FErr BOOT_ERR_FAT
            else if (rootClus <? 2) || (u32 (countOfClusters + 1) <? rootClus) then FErr BOOT_ERR_FAT
            else
              let nonMirrored := negb ((extFlags .& 0x80) =? 0) in
              let activeFat := if nonMirrored then extFlags .& 0x0F else 0 in
              if nonMirrored && (numFats <=? activeFat) then FErr BOOT_ERR_FAT
              else
                FOk (mkVol ((partLba +! rsvdSecCnt) +! (activeFat *! fatSz32)) ((partLba +! rsvdSecCnt) +! (numFats *! fatSz32))
                       bytsPerSec secPerClus fatSz32 rootClus countOfClusters).

(** ** Clusters *)

(** Models src/boot/common/bootfat.c:147-162, readFatEntry. *)
Definition readFatEntry (vol : BootFatVol) (cluster : Z) : fat Z :=
  let '(sec, off) := bootDivMod64 (cluster *! 4) (fv_bytesPerSec vol) in
  if fv_fatSz32 vol <=? sec then FErr BOOT_ERR_FAT
  else
    scratch ← read1 (fv_fatLba vol +! sec);
    raw ← field scratch off 4;
    FOk (raw .& FAT_ENTRY_MASK).

(** Models src/boot/common/bootfat.c:164-166, clusterFirstSector. *)
Definition clusterFirstSector (vol : BootFatVol) (cluster : Z) : Z :=
  fv_dataLba vol +! (u32 (cluster - 2) *! fv_secPerClus vol).

(** ** Names *)

(** Models src/boot/common/bootfat.c:175-180, asciiEqualsIgnoreCase's mapping of one character. *)
Definition upper (c : Z) : Z := if (0x61 <=? c) && (c <=? 0x7A) then c - 0x61 + 0x41 else c.

(** Models src/boot/common/bootfat.c:173-184, asciiEqualsIgnoreCase's loop. *)
Fixpoint equal_chars (a b : list Z) : bool :=
  match a, b with
  | ca :: a, cb :: b => if negb (upper ca =? upper cb) then false else equal_chars a b
  | _, _ => true
  end.

(** Models src/boot/common/bootfat.c:169-186, asciiEqualsIgnoreCase, on the strings its lengths cut out. *)
Definition asciiEqualsIgnoreCase (a b : list Z) : bool :=
  if negb (zlen a =? zlen b) then false else equal_chars a b.

(** Models src/boot/common/bootfat.c:192-195, renderShortName's loop that drops trailing spaces of the
    first [n] characters from [base] on (and 196-199 for the extension). *)
Fixpoint trimmed (nameField : list Z) (base : Z) (n : nat) : option Z :=
  match n with
  | O => Some 0
  | S m => ch ← aget nameField (base + Z.of_nat m); if ch =? 0x20 then trimmed nameField base m else Some (Z.of_nat n)
  end.

(** Models src/boot/common/bootfat.c:190-211, renderShortName. *)
Definition renderShortName (nameField : list Z) : option (list Z) :=
  first ← aget nameField 0;
  let base0 := if first =? 0x05 then 0xE5 else first in
  baseLen ← trimmed nameField 0 8;
  extLen ← trimmed nameField 8 3;
  base ← peek nameField 0 baseLen;
  ext ← peek nameField 8 extLen;
  let base := match base with [] => [] | _ :: rest => base0 :: rest end in
  Some (base ++ (if 0 <? extLen then 0x2E :: ext else [])).

(** Models src/boot/common/bootfat.c:214-220, shortNameChecksum. *)
Definition shortNameChecksum (nameField : list Z) : Z :=
  fold_left (fun sum b => u8 ((if negb ((sum .& 1) =? 0) then 0x80 else 0) + (sum >>! 1) + b)) nameField 0.

(** Models src/boot/common/bootfat.c:222-231, LfnAccum. *)
Record LfnAccum := mkLfn {
  lf_buf : list Z; lf_len : Z; lf_hasTerm : bool; lf_nonAscii : bool; lf_active : bool;
  lf_expectSeq : Z; lf_maxSeq : Z; lf_checksum : Z
}.

(** Models src/boot/common/bootfat.c:233-238, lfnReset. *)
Definition lfnReset (a : LfnAccum) : LfnAccum :=
  mkLfn (lf_buf a) 0 false false false (lf_expectSeq a) (lf_maxSeq a) (lf_checksum a).

(** The local of dirFindEntry before lfnReset. *)
Definition lfn0 : LfnAccum := mkLfn (replicate 260 0) 0 false false false 0 0 0.

(** Models src/boot/common/bootfat.c:262-265, lfnFeed's copy of the 13 code units. *)
Definition lfn_units (entry : list Z) : option (list Z) :=
  mapM (fun off => peek_le entry off 2) [1; 3; 5; 7; 9; 14; 16; 18; 20; 22; 24; 28; 30].

(** Models src/boot/common/bootfat.c:269-283, lfnFeed's loop over the units from [i] on: whether a NUL was
    seen, and the accumulator. *)
Fixpoint lfn_chars (units : list Z) (i base : Z) (a : LfnAccum) : option (bool * LfnAccum) :=
  match units with
  | [] => Some (false, a)
  | u :: units =>
      if u =? 0 then
        Some (true, mkLfn (lf_buf a) (u32 (base + i)) true (lf_nonAscii a) (lf_active a) (lf_expectSeq a) (lf_maxSeq a) (lf_checksum a))
      else
        let nonAscii := if 0x7F <? u then true else lf_nonAscii a in
        buf ← (if base + i <? BOOT_FAT_LFN_BUF_LEN then aset (lf_buf a) (base + i) (u .& 0x7F) else Some (lf_buf a));
        lfn_chars units (i + 1) base
          (mkLfn buf (lf_len a) (lf_hasTerm a) nonAscii (lf_active a) (lf_expectSeq a) (lf_maxSeq a) (lf_checksum a))
  end.

(** Models src/boot/common/bootfat.c:240-293, lfnFeed. *)
Definition lfnFeed (a : LfnAccum) (entry : list Z) : option LfnAccum :=
  ord ← aget entry 0;
  chk ← aget entry 13;
  let seq := ord .& LFN_SEQ_MASK in
  let isLast := negb ((ord .& LFN_LAST_ENTRY_FLAG) =? 0) in
  if (seq <? 1) || (LFN_MAX_SEQ <? seq) then Some (lfnReset a)
  else if negb isLast && (negb (lf_active a) || negb (seq =? u32 (lf_expectSeq a - 1)) || negb (chk =? lf_checksum a))
  then Some (lfnReset a)
  else
    let a := if isLast then mkLfn (lf_buf a) 0 false false true seq seq chk
             else mkLfn (lf_buf a) (lf_len a) (lf_hasTerm a) (lf_nonAscii a) (lf_active a) seq (lf_maxSeq a) (lf_checksum a) in
    units ← lfn_units entry;
    '(sawTerm, a) ← lfn_chars units 0 ((seq - 1) * LFN_CHARS_PER_ENTRY) a;
    Some (if negb (sawTerm : bool) && (seq =? 1) && negb (lf_hasTerm a)
          then mkLfn (lf_buf a) (lf_maxSeq a * LFN_CHARS_PER_ENTRY) true (lf_nonAscii a) (lf_active a) (lf_expectSeq a) (lf_maxSeq a) (lf_checksum a)
          else a).

(** ** Directories *)

(** What one entry of a directory means to the scan. *)
Inductive entry_verdict := EntryEnd | EntryNext (a : LfnAccum) | EntryFound (attr cluster size : Z).

(** Models src/boot/common/bootfat.c:333-342, dirFindEntry's comparison of an entry's names. *)
Definition entry_matches (a : LfnAccum) (name component : list Z) : option bool :=
  let long := lf_active a && lf_hasTerm a && (lf_expectSeq a =? 1) && negb (lf_nonAscii a) && (shortNameChecksum name =? lf_checksum a) in
  matched ← (if long then buf ← peek (lf_buf a) 0 (lf_len a); Some (asciiEqualsIgnoreCase buf component) else Some false);
  if (matched : bool) then Some true
  else rendered ← renderShortName name; Some (asciiEqualsIgnoreCase rendered component).

(** Models src/boot/common/bootfat.c:316-354, dirFindEntry's loop body for one entry. *)
Definition dir_entry (a : LfnAccum) (entry component : list Z) : option entry_verdict :=
  first ← aget entry 0;
  if first =? 0 then Some EntryEnd
  else if first =? 0xE5 then Some (EntryNext a)
  else
    attr ← aget entry 11;
    if attr =? ATTR_LFN then a ← lfnFeed a entry; Some (EntryNext a)
    else if negb ((attr .& ATTR_VOLUME_ID) =? 0) then Some (EntryNext (lfnReset a))
    else
      name ← peek entry 0 11;
      matched ← entry_matches a name component;
      if (matched : bool) then
        hi ← peek_le entry 20 2;
        lo ← peek_le entry 26 2;
        size ← peek_le entry 28 4;
        Some (EntryFound attr (u32 (hi <<! 16) .| lo) size)
      else Some (EntryNext (lfnReset a)).

(** Models src/boot/common/bootfat.c:315-355, dirFindEntry's loop over the [n] entries of a sector from
    [e] on. *)
Fixpoint dir_entries (n : nat) (e : Z) (scratch component : list Z) (a : LfnAccum) : option entry_verdict :=
  match n with
  | O => Some (EntryNext a)
  | S n =>
      entry ← peek scratch (e * DIR_ENTRY_SIZE) DIR_ENTRY_SIZE;
      v ← dir_entry a entry component;
      match v with EntryNext a => dir_entries n (e + 1) scratch component a | _ => Some v end
  end.

(** Models src/boot/common/bootfat.c:310-356, dirFindEntry's loop over the [n] sectors of a cluster from [s]
    on. *)
Fixpoint dir_sectors (n : nat) (s firstSec : Z) (vol : BootFatVol) (component : list Z) (a : LfnAccum) : fat entry_verdict :=
  match n with
  | O => FOk (EntryNext a)
  | S n =>
      scratch ← read1 (firstSec +! s);
      v ← inb (dir_entries (Z.to_nat (fv_bytesPerSec vol / DIR_ENTRY_SIZE)) 0 scratch component a);
      match v with EntryNext a => dir_sectors n (s + 1) firstSec vol component a | _ => FOk v end
  end.

(** Models src/boot/common/bootfat.c:305-368, dirFindEntry's loop over the clusters. *)
Fixpoint dir_clusters (fuel : nat) (cluster steps : Z) (vol : BootFatVol) (component : list Z) (a : LfnAccum) : fat (Z * Z * Z) :=
  if negb ((2 <=? cluster) && (cluster <=? u32 (fv_countOfClusters vol + 1))) then FErr BOOT_ERR_FAT
  else if fv_countOfClusters vol <? steps then FErr BOOT_ERR_FAT
  else match fuel with
  | O => FFault
  | S fuel =>
      v ← dir_sectors (Z.to_nat (fv_secPerClus vol)) 0 (clusterFirstSector vol cluster) vol component a;
      match v with
      | EntryEnd => FErr BOOT_ERR_NOT_FOUND
      | EntryFound attr clus size => FOk (attr, clus, size)
      | EntryNext a =>
          next ← readFatEntry vol cluster;
          if FAT_EOC_MIN <=? next then FErr BOOT_ERR_NOT_FOUND
          else if next =? FAT_BAD_CLUSTER then FErr BOOT_ERR_FAT
          else dir_clusters fuel next (u32 (steps + 1)) vol component a
      end
  end.

(** Models src/boot/common/bootfat.c:298-369, dirFindEntry: the attributes, first cluster and size. *)
Definition dirFindEntry (vol : BootFatVol) (dirCluster : Z) (component : list Z) : fat (Z * Z * Z) :=
  dir_clusters (Z.to_nat (fv_countOfClusters vol + 1)) dirCluster 0 vol component (lfnReset lfn0).

(** Models src/boot/common/bootfat.c:381-383, bootFatOpen's search for the end of a component. *)
Fixpoint split_component (path : list Z) : list Z * list Z :=
  match path with
  | [] => ([], [])
  | ch :: rest => if ch =? 0x2F then ([], path) else let '(c, r) := split_component rest in (ch :: c, r)
  end.

(** Models src/boot/common/bootfat.c:379-415, bootFatOpen's loop over the components; [path] is what is left of the
    string, without its NUL. *)
Fixpoint open_path (fuel : nat) (vol : BootFatVol) (dirCluster : Z) (path : list Z) (componentCount : Z) : fat BootFatFile :=
  match fuel with
  | O => FFault
  | S fuel =>
      let '(component, rest) := split_component path in
      if zlen component =? 0 then FErr BOOT_ERR_NOT_FOUND
      else if BOOT_FAT_COMPONENT_MAX <? zlen component then FErr BOOT_ERR_TOO_LARGE
      else if BOOT_FAT_PATH_MAX_COMPONENTS <? componentCount + 1 then FErr BOOT_ERR_NOT_FOUND
      else
        '(attr, cluster, size) ← dirFindEntry vol dirCluster component;
        match rest with
        | [] => if negb ((attr .& ATTR_DIRECTORY) =? 0) then FErr BOOT_ERR_NOT_FOUND else FOk (mkFile cluster size)
        | _ :: rest =>
            if (attr .& ATTR_DIRECTORY) =? 0 then FErr BOOT_ERR_FAT else open_path fuel vol cluster rest (componentCount + 1)
        end
  end.

(** Models src/boot/common/bootfat.c:371-416, bootFatOpen; [None] is NULL.  No path of more than 16 components is walked. *)
Definition bootFatOpen (vol : BootFatVol) (path : option (list Z)) : fat BootFatFile :=
  match path with
  | Some (ch :: path) => if ch =? 0x2F then open_path 17 vol (fv_rootClus vol) path 0 else FErr BOOT_ERR_NOT_FOUND
  | _ => FErr BOOT_ERR_NOT_FOUND
  end.

(** ** Reading *)

(** Models src/boot/common/bootfat.c:441-455, bootFatRead's loop that merges clusters into a run: its length, its last cluster
    and the steps. *)
Fixpoint extend_run (fuel : nat) (vol : BootFatVol) (clusterBytes remaining runLen last steps : Z) : fat (Z * Z * Z) :=
  if negb (runLen *! clusterBytes <? remaining) then FOk (runLen, last, steps)
  else if fv_countOfClusters vol <? steps then FErr BOOT_ERR_FAT
  else match fuel with
  | O => FFault
  | S fuel =>
      let steps := u32 (steps + 1) in
      next ← readFatEntry vol last;
      if negb (next =? u32 (last + 1)) then FOk (runLen, last, steps)
      else extend_run fuel vol clusterBytes remaining (u32 (runLen + 1)) next steps
  end.

(** Models src/boot/common/bootfat.c:459-477, bootFatRead's transfer of one run's [thisChunk] bytes to [dst]. *)
Definition read_run (vol : BootFatVol) (firstSec thisChunk dstOff : Z) (dst : list Z) : fat (list Z) :=
  let '(fullSectors, tailBytes) := bootDivMod64 thisChunk (fv_bytesPerSec vol) in
  dst ← (if 0 <? fullSectors then
           match bd_reads firstSec (u32 fullSectors) with
           | None => FErr BOOT_ERR_IO
           | Some bs => inb (bootMemcpy dst dstOff bs)
           end
         else FOk dst);
  if 0 <? tailBytes then
    scratch ← read1 (firstSec +! fullSectors);
    bs ← inb (peek scratch 0 tailBytes);
    inb (bootMemcpy dst (dstOff +! (fullSectors *! fv_bytesPerSec vol)) bs)
  else FOk dst.

(** Models src/boot/common/bootfat.c:432-497, bootFatRead's loop over the runs. *)
Fixpoint read_runs (fuel : nat) (vol : BootFatVol) (clusterBytes remaining dstOff runStart steps : Z) (dst : list Z) : fat (list Z) :=
  if negb (0 <? remaining) then FOk dst
  else if (runStart <? 2) || (u32 (fv_countOfClusters vol + 1) <? runStart) then FErr BOOT_ERR_FAT
  else match fuel with
  | O => FFault
  | S fuel =>
      '(runLen, last, steps) ← extend_run (Z.to_nat (fv_countOfClusters vol + 1)) vol clusterBytes remaining 1 runStart steps;
      let runBytes := runLen *! clusterBytes in
      let thisChunk := if runBytes <? remaining then runBytes else remaining in
      dst ← read_run vol (clusterFirstSector vol runStart) thisChunk dstOff dst;
      let dstOff := dstOff +! thisChunk in
      let remaining := remaining -! thisChunk in
      if remaining =? 0 then FOk dst
      else if fv_countOfClusters vol <? steps then FErr BOOT_ERR_FAT
      else
        next ← readFatEntry vol last;
        if (FAT_EOC_MIN <=? next) || (next =? FAT_BAD_CLUSTER) then FErr BOOT_ERR_FAT
        else read_runs fuel vol clusterBytes remaining dstOff next (u32 (steps + 1)) dst
  end.

(** Models src/boot/common/bootfat.c:418-499, bootFatRead: [dst] after a successful read. *)
Definition bootFatRead (vol : BootFatVol) (file : BootFatFile) (dst : list Z) (dstCap : Z) : fat (list Z) :=
  if dstCap <? ff_size file then FErr BOOT_ERR_TOO_LARGE
  else if ff_size file =? 0 then FOk dst
  else read_runs (Z.to_nat (fv_countOfClusters vol + 2)) vol (fv_secPerClus vol *! fv_bytesPerSec vol) (ff_size file) 0 (ff_firstCluster file) 0 dst.

End Reader.

(** ** Mounted volumes *)

(** What a mounted volume guarantees: the FAT has an entry for every cluster, and FAT and clusters lie one
    after the other in the partition, behind its first sector. *)
Record vol_ok (dev : BootBlockDev) (partLba partSectors : Z) (vol : BootFatVol) : Prop := {
  vo_sector : fv_bytesPerSec vol = bd_sectorSize dev /\ fv_bytesPerSec vol < 2 ^ 16;
  vo_cluster : exists k, 0 <= k <= 7 /\ fv_secPerClus vol = 2 ^ k;
  vo_count : 65525 <= fv_countOfClusters vol < 0x0FFFFFF5;
  vo_root : 2 <= fv_rootClus vol <= fv_countOfClusters vol + 1;
  vo_entries : 4 * (fv_countOfClusters vol + 2) <= fv_fatSz32 vol * fv_bytesPerSec vol;
  vo_fat : partLba < fv_fatLba vol /\ fv_fatLba vol + fv_fatSz32 vol <= fv_dataLba vol /\ 0 < fv_fatSz32 vol < 2 ^ 32;
  vo_data : fv_dataLba vol + fv_countOfClusters vol * fv_secPerClus vol <= partLba + partSectors
}.

Lemma field_ok buf off n : is_bytes buf -> 0 <= off -> 0 <= n -> off + n <= zlen buf -> exists v, field buf off n = FOk v /\ 0 <= v < 256 ^ n.
Proof.
  intros Hb Ho Hn Hl. destruct (peek_is_Some buf off n) as [s Es]; [lia..|]. unfold field, peek_le. rewrite Es. exists (le_val s). split; [reflexivity|].
  apply peek_Some in Es as Hp. destruct Hp as (_ & _ & _ & Hz & _). rewrite <- Hz. apply le_val_range. by apply (peek_bytes buf off n).
Qed.

Lemma isPowerOfTwo_spec v : 0 <= v <= 128 -> isPowerOfTwo v = true -> exists k, 0 <= k <= 7 /\ v = 2 ^ k.
Proof.
  intros Hv Hp. assert (Hall : forallb (fun v => negb (isPowerOfTwo v) || existsb (fun k => v =? 2 ^ k) (seqZ 0 8)) (seqZ 0 129) = true) by (vm_compute; reflexivity).
  rewrite forallb_forall in Hall. specialize (Hall v). rewrite Hp in Hall. rewrite orb_false_l, existsb_exists in Hall.
  destruct Hall as (k & Hk & Heq); [apply list_elem_of_In, elem_of_seqZ; lia|]. apply list_elem_of_In, elem_of_seqZ in Hk. exists k. split; [lia|]. by apply Z.eqb_eq.
Qed.

Lemma mul_range a b u v : 0 <= a <= u -> 0 <= b <= v -> 0 <= a * b <= u * v.
Proof. intros Ha Hb. split; [apply Z.mul_nonneg_nonneg; lia|apply Z.mul_le_mono_nonneg; lia]. Qed.

Lemma le_mul_ge_1 a x : 1 <= a -> 0 <= x -> x <= a * x.
Proof. intros Ha Hx. rewrite <- (Z.mul_1_l x) at 1. apply Z.mul_le_mono_nonneg_r; lia. Qed.

(** The computations of bootFatMount do not wrap. *)
Lemma mount_words partLba partSectors bps spc rsvd nf tot fatsz :
  is_u64 partLba -> partLba + partSectors <= 2 ^ 64 -> 0 <= bps < 2 ^ 16 -> 1 <= spc <= 128 -> 0 <= rsvd < 2 ^ 16 -> 0 <= nf < 2 ^ 8 -> 0 <= fatsz < 2 ^ 32 -> 0 <= tot <= partSectors -> tot < 2 ^ 32 ->
  rsvd +! (nf *! fatsz) = rsvd + nf * fatsz /\
  (rsvd + nf * fatsz < tot ->
    u32 (fst (bootDivMod64 (tot -! (rsvd + nf * fatsz)) spc)) = (tot - (rsvd + nf * fatsz)) / spc /\
    fst (bootDivMod64 (fatsz *! bps) 4) = fatsz * bps / 4 /\
    forall n, 0 <= n <= nf -> (partLba +! rsvd) +! (n *! fatsz) = partLba + rsvd + n * fatsz).
Proof.
  intros Hlba Hend Hb Hs Hr Hn Hf Ht Ht2. pose proof (mul_range nf fatsz 255 (2 ^ 32) ltac:(lia) ltac:(lia)) as Hnf.
  pose proof (mul_range fatsz bps (2 ^ 32) (2 ^ 16) ltac:(lia) ltac:(lia)) as Hfb. rewrite (u64_small (nf * fatsz)) by (words; lia). rewrite (u64_small (rsvd + _)) by (words; lia).
  split; [reflexivity|]. intros Hres. rewrite (u64_small (tot - _)) by (words; lia). rewrite (u64_small (fatsz * bps)) by (words; lia).
  rewrite !bootDivMod64_spec by (words; lia). unfold fst. split; [|split; [reflexivity|]].
  - apply u32_small. words. split; [apply Z.div_pos; lia|]. apply Z.div_lt_upper_bound; [lia|]. pose proof (le_mul_ge_1 spc (2 ^ 32) ltac:(lia) ltac:(lia)). lia.
  - intros n Hn'. assert (0 <= n * fatsz <= nf * fatsz) by (split; [apply Z.mul_nonneg_nonneg; lia|apply Z.mul_le_mono_nonneg_r; lia]).
    words. rewrite (Z.mod_small (partLba + rsvd)), (Z.mod_small (n * fatsz)), (Z.mod_small (_ + _)) by lia. reflexivity.
Qed.

(** Its tests on the fields, as arithmetic. *)
Lemma mount_geometry dev partLba partSectors spc rsvd nf tot fatsz root active :
  0 <= bd_sectorSize dev < 2 ^ 16 -> (exists k, 0 <= k <= 7 /\ spc = 2 ^ k) -> 1 <= rsvd -> 1 <= nf -> 0 < fatsz < 2 ^ 32 -> 0 < tot <= partSectors -> 0 <= active < nf ->
  rsvd + nf * fatsz < tot -> let count := (tot - (rsvd + nf * fatsz)) / spc in
  65525 <= count < 0x0FFFFFF5 -> count + 2 <= fatsz * bd_sectorSize dev / 4 -> 2 <= root <= count + 1 ->
  vol_ok dev partLba partSectors (mkVol (partLba + rsvd + active * fatsz) (partLba + rsvd + nf * fatsz) (bd_sectorSize dev) spc fatsz root count).
Proof.
  intros Hb (k & Hk & Hspc) Hr Hn Hf Ht Ha Hres count Hc Hcap Hroot.
  assert (Haf : 0 <= active * fatsz /\ active * fatsz + fatsz <= nf * fatsz).
  { split; [apply Z.mul_nonneg_nonneg; lia|]. replace (active * fatsz + fatsz) with ((active + 1) * fatsz) by lia. apply Z.mul_le_mono_nonneg_r; lia. }
  assert (Hpos : 0 < spc) by (rewrite Hspc; apply Z.pow_pos_nonneg; lia).
  assert (Hqs : count * spc <= tot - (rsvd + nf * fatsz)) by (unfold count; rewrite Z.mul_comm; apply Z.mul_div_le; lia).
  pose proof (Z.mul_div_le (fatsz * bd_sectorSize dev) 4 ltac:(lia)) as H4. clearbody count.
  split; simpl; auto; try lia. eauto.
Qed.

Definition mount_verdict (dev : BootBlockDev) (partLba partSectors : Z) (r : fat BootFatVol) : Prop :=
  match r with
  | FOk vol => vol_ok dev partLba partSectors vol
  | FErr st => st = BOOT_ERR_IO \/ st = BOOT_ERR_FAT
  | FFault => False
  end.

(** A field of the sector in [s], named [v], with its range. *)
Ltac take_field v :=
  match goal with
  | Hb : is_bytes ?s, Hl : 512 <= zlen ?s |- mount_verdict _ _ _ (mbind _ (field ?s ?off ?n)) =>
      let H := fresh "H" v in
      destruct (field_ok s off n Hb) as (v & -> & H); [lia..|]; cbn [mbind fat_bind]; vm_compute (256 ^ _) in H
  end.

Lemma bootFatMount_spec dev partLba partSectors : FatDevice dev -> is_u64 partLba -> 0 <= partSectors -> partLba + partSectors <= 2 ^ 64 ->
  mount_verdict dev partLba partSectors (bootFatMount dev partLba partSectors).
Proof.
  intros FD Hlba Hps Hend. pose proof fat_sector_min as Hss. unfold bootFatMount, read1. destruct (bd_read dev partLba) as [s|] eqn:Er; [|left; reflexivity]. cbn [mbind fat_bind].
  pose proof (sector_bytes _ _ Er) as Hb. pose proof (sector_length _ _ Er) as Hl. assert (Hl' : 512 <= zlen s) by lia.
  take_field jmp0.
  destruct (negb (jmp0 =? 0xEB) && _); [right; reflexivity|].
  take_field bps. take_field spc. take_field rsvd. take_field nfat. take_field rents. take_field t16. take_field f16. take_field tot. take_field fatsz. take_field fsv. take_field root. take_field ext.
  destruct (Z.eqb_spec bps (bd_sectorSize dev)) as [Hsz|]; cbn [negb]; [|right; reflexivity].
  destruct (isPowerOfTwo spc) eqn:Hp2; cbn [negb orb]; [|right; reflexivity]. destruct (Z.ltb_spec 128 spc); [right; reflexivity|]. destruct (isPowerOfTwo_spec spc ltac:(lia) Hp2) as (k & Hk & Hpow).
  assert (Hs1 : 1 <= spc <= 128) by (pose proof (Z.pow_pos_nonneg 2 k); lia).
  destruct (Z.ltb_spec rsvd 1); cbn [orb]; [right; reflexivity|]. destruct (Z.ltb_spec nfat 1); [right; reflexivity|]. destruct (Z.eqb_spec fatsz 0); rewrite ?orb_true_r; cbn [orb]; [right; reflexivity|].
  destruct (negb (rents =? 0) || _ || _ || _ || _); [right; reflexivity|]. destruct (Z.eqb_spec tot 0); cbn [orb]; [right; reflexivity|]. destruct (Z.ltb_spec partSectors tot); [right; reflexivity|].
  take_field sig0. take_field sig1. destruct (negb (sig0 =? 0x55) || _); [right; reflexivity|]. cbv zeta.
  destruct (mount_words partLba partSectors bps spc rsvd nfat tot fatsz) as [-> Hw]; [assumption|lia..|].
  destruct (Z.leb_spec tot (rsvd + nfat * fatsz)) as [|Hres]; [right; reflexivity|]. destruct (Hw Hres) as (-> & -> & Hlb). set (count := (tot - (rsvd + nfat * fatsz)) / spc).
  destruct (Z.ltb_spec count 65525); cbn [orb]; [right; reflexivity|]. destruct (Z.leb_spec 0x0FFFFFF5 count); [right; reflexivity|].
  rewrite (u64_small (count + 2)), (u32_small (count + 1)) by (words; lia). destruct (Z.ltb_spec (fatsz * bps / 4) (count + 2)); [right; reflexivity|].
  destruct (Z.ltb_spec root 2); cbn [orb]; [right; reflexivity|]. destruct (Z.ltb_spec (count + 1) root); [right; reflexivity|].
  set (nm := negb _). set (act := if nm then _ else 0). assert (Hact : 0 <= act).
  { unfold act. destruct nm; [|lia]. pose proof (land_range 4 ext 0x0F). lia. }
  destruct (nm && (nfat <=? act)) eqn:Ea; [right; reflexivity|]. assert (Hact' : act < nfat) by (destruct nm; [apply Z.leb_gt in Ea; exact Ea|unfold act; lia]).
  rewrite !Hlb by lia. rewrite Hsz in *. apply mount_geometry; try assumption; try lia. eauto.
Qed.
