(* ===== verification/BootFatRead.v ===== *)
(** * Reading a file of a FAT32 volume

    bootFatRead merges neighbouring clusters into one transfer.  [chain_contents] reads the
    same file one cluster at a time; the theorems say when the two agree, what the step
    limit refuses, and that no contents of the disk make the reader leave its buffers. *)

From S2P Require Import Prelude BootTypes BlockDev BootFat.

(** ** Lists of sectors *)

Lemma mapM_app {A B} (f : A -> option B) l k : mapM f (l ++ k) = (ls ← mapM f l; ks ← mapM f k; Some (ls ++ ks)).
Proof.
  induction l as [|x l IH]; simpl; [by destruct (mapM f k)|]. destruct (f x); simpl; [|done]. rewrite IH.
  destruct (mapM f l); simpl; [|done]. by destruct (mapM f k).
Qed.

Lemma mjoin_app {A} (l k : list (list A)) : mjoin (l ++ k) = mjoin l ++ mjoin k.
Proof. induction l as [|x l IH]; simpl; [done|]. by rewrite IH, app_assoc. Qed.

(** How many units of [b] cover [a]. *)
Definition ceil_div (a b : Z) : Z := (a + b - 1) / b.

Lemma ceil_div_spec a b : 0 < b -> a <= ceil_div a b * b < a + b.
Proof. unfold ceil_div. intros Hb. pose proof (Z_div_mod_eq_full (a + b - 1) b). pose proof (Z.mod_pos_bound (a + b - 1) b Hb). lia. Qed.

Lemma ceil_div_unique a b q : 0 < b -> a <= q * b < a + b -> ceil_div a b = q.
Proof. intros Hb Hq. symmetry. apply (Z.div_unique_pos (a + b - 1) b q (a + b - 1 - b * q)); lia. Qed.

Lemma ceil_div_pos a b : 0 < b -> 0 < a -> 0 < ceil_div a b.
Proof. intros Hb Ha. unfold ceil_div. apply Z.div_str_pos. lia. Qed.

Lemma ceil_div_split a b : 0 < b -> ceil_div a b = if 0 <? a mod b then a / b + 1 else a / b.
Proof.
  intros Hb. pose proof (Z_div_mod_eq_full a b). pose proof (Z.mod_pos_bound a b Hb).
  destruct (Z.ltb_spec 0 (a mod b)); apply ceil_div_unique; lia.
Qed.

(** Two copies, one after the other, are one. *)
Lemma bootMemcpy_app dst off a b d : bootMemcpy dst off a = Some d -> bootMemcpy d (off + zlen a) b = bootMemcpy dst off (a ++ b).
Proof.
  intros Hd. pose proof (bootMemcpy_zlen _ _ _ _ Hd) as Hz. unfold bootMemcpy in *. rewrite Hz, zlen_app. destruct (_ && _) eqn:E in Hd; [|done]. injection Hd as <-. bprop.
  pose proof (zlen_nonneg a). pose proof (zlen_nonneg b). rewrite (proj2 (Z.leb_le 0 off)), (proj2 (Z.leb_le 0 (off + _))) by lia. rewrite !andb_true_l, <- Z.add_assoc.
  destruct (_ <=? _) eqn:E2; [|done]. apply Z.leb_le in E2. f_equal. rewrite !(app_assoc (take (Z.to_nat off) dst) a). set (P := take (Z.to_nat off) dst ++ a).
  assert (HP : length P = Z.to_nat (off + zlen a)) by (unfold P, zlen in *; rewrite length_app, length_take; lia).
  rewrite take_app_length', drop_app_ge by lia. rewrite HP, drop_drop. unfold P. rewrite <- !app_assoc. do 4 f_equal. rewrite length_app. unfold zlen in *. lia.
Qed.

Section Read.
Context (dev : BootBlockDev) {MR : MultiRead dev} {MRL : MultiReadLaws dev} {FD : FatDevice dev}.

(** [n] sectors from [lba] on, one by one. *)
Definition sectors (lba n : Z) : option (list Z) := mjoin <$> mapM (bd_read dev) (seqZ lba n).

Lemma sectors_zlen lba n bs : 0 <= n -> sectors lba n = Some bs -> zlen bs = n * bd_sectorSize dev.
Proof.
  unfold sectors. intros Hn. destruct (mapM _ _) as [ss|] eqn:E; [|done]. intros [= <-]. pose proof (length_mapM _ _ _ E) as Hl. rewrite length_seqZ in Hl.
  apply mapM_Some_1 in E. assert (Hs : Forall (fun s => zlen s = bd_sectorSize dev) ss).
  { apply Forall_forall. intros s Hin. apply list_elem_of_lookup in Hin as [i Hi]. destruct (Forall2_lookup_r _ _ _ _ _ E Hi) as (x & _ & Hx). by apply sector_length in Hx. }
  replace n with (zlen ss) by (unfold zlen; lia). clear -Hs. induction Hs as [|s ss Hs _ IH]; [done|].
  change (mjoin (s :: ss)) with (s ++ mjoin ss). rewrite zlen_app, zlen_cons, IH. lia.
Qed.

Lemma sectors_add lba n m : 0 <= n -> 0 <= m -> sectors lba (n + m) = (a ← sectors lba n; b ← sectors (lba + n) m; Some (a ++ b)).
Proof.
  intros Hn Hm. unfold sectors. rewrite seqZ_app by lia. rewrite mapM_app. destruct (mapM _ (seqZ lba n)); simpl; [|done].
  destruct (mapM _ (seqZ (lba + n) m)); simpl; [|done]. by rewrite mjoin_app.
Qed.

Lemma sectors_1 lba : sectors lba 1 = bd_read dev lba.
Proof. unfold sectors. rewrite seqZ_cons, seqZ_nil by lia. simpl. destruct (bd_read dev lba); simpl; [|done]. by rewrite app_nil_r. Qed.

(** The bytes that [size] bytes from sector [lba] on are. *)
Definition sector_bytes_at (lba size : Z) : option (list Z) :=
  take (Z.to_nat size) <$> sectors lba (ceil_div size (bd_sectorSize dev)).

Lemma sector_bytes_at_zlen lba size bs : 0 <= size -> sector_bytes_at lba size = Some bs -> zlen bs = size.
Proof.
  unfold sector_bytes_at. intros Hs. destruct (sectors _ _) as [l|] eqn:E; [|done]. intros [= <-]. pose proof fat_sector_min. pose proof (ceil_div_spec size (bd_sectorSize dev) ltac:(lia)).
  apply sectors_zlen in E; [apply zlen_take; lia|]. unfold ceil_div. apply Z.div_pos; lia.
Qed.

(** A transfer is the sectors that cover it. *)
Lemma read_run_spec vol firstSec chunk dstOff dst : fv_bytesPerSec vol = bd_sectorSize dev -> 0 < chunk < 2 ^ 32 -> 0 <= firstSec <= 2 ^ 63 -> 0 <= dstOff < 2 ^ 32 -> dstOff + chunk <= zlen dst ->
  read_run dev vol firstSec chunk dstOff dst = match sector_bytes_at firstSec chunk with None => FErr BOOT_ERR_IO | Some bs => inb (bootMemcpy dst dstOff bs) end.
Proof.
  intros Hb Hc Hf Ho Hd. unfold read_run, sector_bytes_at, read1. rewrite Hb. set (sz := bd_sectorSize dev). pose proof fat_sector_min as Hm. pose proof sector_size_ok as Hsz. fold sz in Hm, Hsz.
  rewrite bootDivMod64_spec by (words; lia). rewrite ceil_div_split by lia. pose proof (Z_div_mod_eq_full chunk sz) as Hdm. pose proof (Z.mod_pos_bound chunk sz ltac:(lia)) as Hmod.
  assert (Hq : 0 <= chunk / sz <= chunk) by (split; [apply Z.div_pos; lia|apply Z.div_le_upper_bound; [lia|pose proof (le_mul_ge_1 sz chunk); lia]]).
  set (q := chunk / sz) in *. set (r := chunk mod sz) in *.
  pose proof (Z.mul_nonneg_nonneg q sz ltac:(lia) ltac:(lia)) as Hqs. rewrite (u32_small q), (u64_small (firstSec + q)), (u64_small (q * sz)), (u64_small (dstOff + _)) by (words; lia).
  assert (Hfull : (if 0 <? q then match bd_reads firstSec q with None => FErr BOOT_ERR_IO | Some bs => inb (bootMemcpy dst dstOff bs) end else FOk dst)
    = match sectors firstSec q with None => FErr BOOT_ERR_IO | Some bs => inb (bootMemcpy dst dstOff bs) end).
  { destruct (Z.ltb_spec 0 q); [rewrite multi_sectors by lia; reflexivity|]. replace q with 0 by lia. unfold sectors. rewrite seqZ_nil by lia. simpl. unfold bootMemcpy. change (zlen []) with 0.
    rewrite (proj2 (Z.leb_le 0 dstOff)), (proj2 (Z.leb_le _ (zlen dst))) by lia. simpl. by rewrite Nat.add_0_r, take_drop. }
  rewrite Hfull. destruct (Z.ltb_spec 0 r) as [Hr|Hr].
  - rewrite sectors_add, sectors_1 by lia. destruct (sectors firstSec q) as [a|] eqn:Ea; simpl; [|done]. apply sectors_zlen in Ea as Hza; [|lia].
    destruct (bootMemcpy_is_Some dst dstOff a) as [d Hd1]; [lia..|]. rewrite Hd1. simpl. destruct (bd_read dev (firstSec + q)) as [s|] eqn:Es; simpl; [|done].
    apply sector_length in Es as Hzs. rewrite peek_inside by lia. simpl. replace (q * sz) with (zlen a) by (unfold sz; lia). rewrite (bootMemcpy_app _ _ _ _ _ Hd1). f_equal. f_equal.
    rewrite take_app_ge by (unfold zlen in *; lia). f_equal. f_equal. unfold zlen in *. lia.
  - destruct (sectors firstSec q) as [a|] eqn:Ea; simpl; [|done]. apply sectors_zlen in Ea as Hza; [|lia]. rewrite take_ge by (unfold zlen in *; lia).
    destruct (bootMemcpy _ _ _); reflexivity.
Qed.

Lemma sector_bytes_at_add lba k m : 0 <= k -> 0 < m ->
  sector_bytes_at lba (k * bd_sectorSize dev + m) = (a ← sector_bytes_at lba (k * bd_sectorSize dev); b ← sector_bytes_at (lba + k) m; Some (a ++ b)).
Proof.
  intros Hk Hm. pose proof fat_sector_min as Hs. set (sz := bd_sectorSize dev) in *. assert (Hsz : 0 < sz) by lia. pose proof (ceil_div_spec m sz Hsz) as Hc.
  unfold sector_bytes_at. fold sz. rewrite (ceil_div_unique (k * sz + m) sz (k + ceil_div m sz)) by lia. rewrite (ceil_div_unique (k * sz) sz k) by lia.
  rewrite sectors_add by (try lia; pose proof (ceil_div_pos m sz Hsz Hm); lia). destruct (sectors lba k) as [a|] eqn:Ea; [|reflexivity].
  apply sectors_zlen in Ea; [|lia]. fold sz in Ea. simpl. destruct (sectors (lba + k) _) as [b|] eqn:Eb; [|reflexivity]. simpl. f_equal. unfold zlen in Ea.
  pose proof (Z.mul_nonneg_nonneg k sz Hk ltac:(lia)). rewrite (take_ge a) by lia. rewrite take_app_ge by lia. do 2 f_equal. lia.
Qed.

(** ** Chains *)

(** Each cluster's FAT entry names the next. *)
Fixpoint chain (vol : BootFatVol) (cs : list Z) : Prop :=
  match cs with
  | c :: cs' => match cs' with c' :: _ => readFatEntry dev vol c = FOk c' | [] => True end /\ chain vol cs'
  | [] => True
  end.

(** How often a chain does not go on to the neighbour. *)
Fixpoint breaks (cs : list Z) : Z :=
  match cs with
  | c :: cs' => (match cs' with c' :: _ => if c' =? c + 1 then 0 else 1 | [] => 0 end) + breaks cs'
  | [] => 0
  end.

(** The first [size] bytes of the clusters [cs], read one cluster at a time. *)
Fixpoint chain_contents (vol : BootFatVol) (cs : list Z) (size : Z) : option (list Z) :=
  match cs with
  | [] => Some []
  | c :: cs =>
      let n := Z.min size (fv_secPerClus vol * fv_bytesPerSec vol) in
      a ← sector_bytes_at (clusterFirstSector vol c) n;
      b ← chain_contents vol cs (size - n);
      Some (a ++ b)
  end.

Lemma breaks_nonneg cs : 0 <= breaks cs.
Proof. induction cs as [|c [|c' cs] IH]; cbn [breaks] in *; [lia|lia|]. destruct (_ =? _); lia. Qed.

Lemma breaks_run c L c' cs : 0 < L -> c' <> c + L -> breaks (seqZ c L ++ c' :: cs) = 1 + breaks (c' :: cs).
Proof.
  intros HL. assert (Hl : exists n, L = 1 + Z.of_nat n) by (exists (Z.to_nat (L - 1)); lia). destruct Hl as [n ->]. clear HL. revert c. induction n as [|n IH]; intros c Hne.
  - rewrite seqZ_cons, seqZ_nil by lia. simpl app. cbn [breaks]. destruct (Z.eqb_spec c' (c + 1)); [lia|reflexivity].
  - rewrite seqZ_cons by lia. replace (Z.pred (1 + Z.of_nat (S n))) with (1 + Z.of_nat n) by lia. specialize (IH (Z.succ c) ltac:(lia)).
    rewrite seqZ_cons in IH |- * by lia. simpl app in *. cbn [breaks] in IH |- *. rewrite (proj2 (Z.eqb_eq (Z.succ c) (c + 1))) by lia. lia.
Qed.

Lemma breaks_seqZ c L : breaks (seqZ c L) = 0.
Proof.
  destruct (Z.le_gt_cases L 0); [by rewrite seqZ_nil by lia|]. assert (Hl : exists n, L = 1 + Z.of_nat n) by (exists (Z.to_nat (L - 1)); lia). destruct Hl as [n ->]. clear H. revert c.
  induction n as [|n IH]; intros c; rewrite seqZ_cons by lia; [by rewrite seqZ_nil by lia|]. replace (Z.pred (1 + Z.of_nat (S n))) with (1 + Z.of_nat n) by lia.
  specialize (IH (Z.succ c)). rewrite seqZ_cons in IH |- * by lia. cbn [breaks] in IH |- *. rewrite (proj2 (Z.eqb_eq (Z.succ c) (c + 1))) by lia. lia.
Qed.

(** What the FAT says of neighbours is what the chain has. *)
Lemma chain_run vol n c cs : chain vol (c :: cs) -> Z.of_nat n <= zlen cs -> (forall i, 0 <= i < Z.of_nat n -> readFatEntry dev vol (c + i) = FOk (c + i + 1)) ->
  exists rest, c :: cs = seqZ c (Z.of_nat n + 1) ++ rest /\ chain vol (c + Z.of_nat n :: rest).
Proof.
  revert c cs. induction n as [|n IH]; intros c cs Hc Hn Hl.
  - exists cs. rewrite seqZ_cons, seqZ_nil by lia. split; [reflexivity|]. by rewrite Z.add_0_r.
  - destruct cs as [|c' cs]; [change (zlen []) with 0 in Hn; lia|]. rewrite zlen_cons in Hn. destruct Hc as [He Hc]. specialize (Hl 0 ltac:(lia)) as H0. rewrite !Z.add_0_r in H0.
    rewrite H0 in He. injection He as <-. destruct (IH (c + 1) cs Hc ltac:(lia)) as (rest & Heq & Hr).
    { intros i Hi. specialize (Hl (i + 1) ltac:(lia)). replace (c + 1 + i) with (c + (i + 1)) by lia. exact Hl. }
    exists rest. rewrite seqZ_cons by lia. replace (Z.pred _) with (Z.of_nat n + 1) by lia. split; [simpl; by rewrite <- Z.add_1_r, <- Heq|].
    replace (c + Z.of_nat (S n)) with (c + 1 + Z.of_nat n) by lia. exact Hr.
Qed.

Lemma run_chain vol n c rest : (forall i, 0 <= i < Z.of_nat n -> readFatEntry dev vol (c + i) = FOk (c + i + 1)) -> chain vol (c + Z.of_nat n :: rest) ->
  chain vol (seqZ c (Z.of_nat n + 1) ++ rest).
Proof.
  revert c. induction n as [|n IH]; intros c Hl Hc.
  - rewrite seqZ_cons, seqZ_nil by lia. by rewrite Z.add_0_r in Hc.
  - assert (Hc' : chain vol (seqZ (c + 1) (Z.of_nat n + 1) ++ rest)).
    { apply IH; [|by replace (c + 1 + Z.of_nat n) with (c + Z.of_nat (S n)) by lia]. intros i Hi. specialize (Hl (i + 1) ltac:(lia)). by replace (c + 1 + i) with (c + (i + 1)) by lia. }
    rewrite seqZ_cons by lia. replace (Z.pred _) with (Z.of_nat n + 1) by lia. rewrite <- Z.add_1_r. rewrite seqZ_cons in Hc' |- * by lia. split; [|exact Hc'].
    specialize (Hl 0 ltac:(lia)). by rewrite Z.add_0_r in Hl.
Qed.

(** ** A mounted volume *)

Section Mounted.
Context (partLba partSectors : Z) (vol : BootFatVol) (V : vol_ok dev partLba partSectors vol).
Context (Hlba : 0 <= partLba) (Hend : partLba + partSectors <= 2 ^ 63).

Abbreviation cb := (fv_secPerClus vol * fv_bytesPerSec vol).

Lemma spc_range : 1 <= fv_secPerClus vol <= 128.
Proof.
  destruct (vo_cluster _ _ _ _ V) as (k & Hk & ->). pose proof (Z.pow_pos_nonneg 2 k). assert (2 ^ k <= 2 ^ 7) by (apply Z.pow_le_mono_r; lia). lia.
Qed.

Lemma bps_range : 512 <= fv_bytesPerSec vol < 2 ^ 16.
Proof. destruct (vo_sector _ _ _ _ V) as [H1 H2]. pose proof fat_sector_min. lia. Qed.

Lemma cb_range : 512 <= cb < 2 ^ 23.
Proof.
  pose proof spc_range. pose proof bps_range. pose proof (mul_range (fv_secPerClus vol) (fv_bytesPerSec vol) 128 (2 ^ 16 - 1)). pose proof (le_mul_ge_1 (fv_secPerClus vol) (fv_bytesPerSec vol)). lia.
Qed.

Lemma count_range : 65525 <= fv_countOfClusters vol < 2 ^ 28 - 11.
Proof. pose proof (vo_count _ _ _ _ V). lia. Qed.

Lemma first_sector c : 2 <= c <= 2 ^ 28 -> clusterFirstSector vol c = fv_dataLba vol + (c - 2) * fv_secPerClus vol.
Proof.
  intros Hc. pose proof spc_range. pose proof count_range. destruct (vo_fat _ _ _ _ V) as (Hf1 & Hf2 & Hf3). pose proof (vo_data _ _ _ _ V) as Hd.
  pose proof (mul_range (c - 2) (fv_secPerClus vol) (2 ^ 28) 128 ltac:(lia) ltac:(lia)). pose proof (mul_range (fv_countOfClusters vol) (fv_secPerClus vol) (2 ^ 28) 128 ltac:(lia) ltac:(lia)).
  unfold clusterFirstSector. rewrite (u32_small (c - 2)), (u64_small (_ * _)), u64_small by (words; lia). reflexivity.
Qed.

(** The first sector of a cluster of the volume is in the partition. *)
Lemma first_sector_inside c : 2 <= c <= fv_countOfClusters vol + 1 -> partLba < clusterFirstSector vol c /\ clusterFirstSector vol c + fv_secPerClus vol <= partLba + partSectors.
Proof.
  intros Hc. pose proof count_range. pose proof spc_range. rewrite first_sector by lia. destruct (vo_fat _ _ _ _ V) as (Hf1 & Hf2 & Hf3). pose proof (vo_data _ _ _ _ V) as Hd.
  pose proof (Z.mul_nonneg_nonneg (c - 2) (fv_secPerClus vol) ltac:(lia) ltac:(lia)). pose proof (Z.mul_le_mono_nonneg_r (c - 1) (fv_countOfClusters vol) (fv_secPerClus vol) ltac:(lia) ltac:(lia)). lia.
Qed.

Lemma readFatEntry_total c : is_u32 c -> match readFatEntry dev vol c with FOk v => 0 <= v < 2 ^ 28 | FErr st => st = BOOT_ERR_IO \/ st = BOOT_ERR_FAT | FFault => False end.
Proof.
  intros Hc. unfold readFatEntry, read1. pose proof bps_range as Hb. destruct (vo_sector _ _ _ _ V) as [Hs _]. rewrite (u64_small (c * 4)), bootDivMod64_spec by (words; lia).
  destruct (_ <=? _); [right; reflexivity|]. destruct (bd_read dev _) as [s|] eqn:Es; [|left; reflexivity]. cbn [mbind fat_bind].
  destruct fat_sector_entries as [m Hm]. pose proof (Z.mod_pos_bound (c * 4) (fv_bytesPerSec vol) ltac:(lia)) as Hr.
  assert (H4 : (c * 4) mod fv_bytesPerSec vol + 4 <= fv_bytesPerSec vol).
  { replace (fv_bytesPerSec vol) with ((m * 8) * 4) in Hr |- * by lia. rewrite Z.mul_mod_distr_r in Hr |- * by lia. lia. }
  destruct (field_ok s ((c * 4) mod fv_bytesPerSec vol) 4) as (v & -> & Hv); [by apply sector_bytes in Es|lia|lia|apply sector_length in Es; lia|].
  cbn [mbind fat_bind]. unfold FAT_ENTRY_MASK. change 0x0FFFFFFF with (2 ^ 28 - 1). rewrite land_low by lia. apply Z.mod_pos_bound. lia.
Qed.

(** What the loop that grows a run finds. *)
Lemma extend_run_spec fuel remaining L last steps : 0 < remaining < 2 ^ 32 -> 1 <= L -> (L - 1) * cb < remaining -> 0 <= last < 2 ^ 28 -> 0 <= steps <= fv_countOfClusters vol + 1 ->
  fv_countOfClusters vol + 1 - steps <= Z.of_nat fuel ->
  match extend_run dev fuel vol cb remaining L last steps with
  | FOk (L', last', steps') => exists n, L' = L + Z.of_nat n /\ last' = last + Z.of_nat n /\ last' < 2 ^ 28 /\ (L' - 1) * cb < remaining /\
      (forall i, 0 <= i < Z.of_nat n -> readFatEntry dev vol (last + i) = FOk (last + i + 1)) /\
      (remaining <= L' * cb /\ steps' = steps + Z.of_nat n /\ steps' <= fv_countOfClusters vol + 1 \/
       L' * cb < remaining /\ steps' = steps + Z.of_nat n + 1 /\ steps' <= fv_countOfClusters vol + 1 /\ exists next, readFatEntry dev vol last' = FOk next /\ next <> last' + 1)
  | FErr st => exists n, (L + Z.of_nat n) * cb < remaining /\ (forall i, 0 <= i < Z.of_nat n -> readFatEntry dev vol (last + i) = FOk (last + i + 1)) /\
      (st = BOOT_ERR_FAT /\ fv_countOfClusters vol < steps + Z.of_nat n \/ (st = BOOT_ERR_IO \/ st = BOOT_ERR_FAT) /\ readFatEntry dev vol (last + Z.of_nat n) = FErr st)
  | FFault => False
  end.
Proof.
  intros Hrem. pose proof cb_range as Hcb. pose proof count_range as Hcnt. revert L last steps. induction fuel as [|fuel IH]; intros L last steps HL HLr Hlast Hst Hfuel; cbn [extend_run].
  all: rewrite (u64_small (L * cb)) by (words; lia). all: destruct (Z.ltb_spec (L * cb) remaining) as [Hlt|Hge]; cbn [negb].
  2, 4: exists O; rewrite !Z.add_0_r; split_and!; try lia; left; lia.
  all: destruct (Z.ltb_spec (fv_countOfClusters vol) steps) as [Hgt|Hle].
  1, 3: exists O; rewrite !Z.add_0_r; split_and!; try lia; left; split; [reflexivity|lia].
  { lia. }
  rewrite (u32_small (steps + 1)), (u32_small (last + 1)), (u32_small (L + 1)) by (words; lia). pose proof (readFatEntry_total last ltac:(words; lia)) as Ht. destruct (readFatEntry dev vol last) as [next|st|] eqn:En; [|exists O|done].
  2: { rewrite !Z.add_0_r. split_and!; [lia|intros; lia|]. right. auto. }
  cbn [mbind fat_bind]. destruct (Z.eqb_spec next (last + 1)) as [->|Hne]; cbn [negb].
  2: { exists O. rewrite !Z.add_0_r. split_and!; try lia. right. split_and!; try lia. eauto. }
  specialize (IH (L + 1) (last + 1) (steps + 1) ltac:(lia) ltac:(lia) ltac:(lia) ltac:(lia) ltac:(lia)).
  assert (Hlinks : forall n, (forall i, 0 <= i < Z.of_nat n -> readFatEntry dev vol (last + 1 + i) = FOk (last + 1 + i + 1)) -> forall i, 0 <= i < Z.of_nat (S n) -> readFatEntry dev vol (last + i) = FOk (last + i + 1)).
  { intros n Hn i Hi. destruct (Z.eq_dec i 0) as [->|]; [by rewrite Z.add_0_r|]. specialize (Hn (i - 1) ltac:(lia)). by replace (last + 1 + (i - 1)) with (last + i) in Hn by lia. }
  destruct (extend_run dev fuel vol cb remaining (L + 1) (last + 1) (steps + 1)) as [[[L' last'] steps']|st|]; [| |done]; destruct IH as (n & IH).
  - exists (S n). destruct IH as (-> & -> & H1 & H2 & H3 & H4). split_and!; [lia|lia|lia|lia|by apply Hlinks|].
    destruct H4 as [H4|(H4 & H5 & H6 & H7)]; [left; lia|right]. split_and!; [lia|lia|lia|exact H7].
  - exists (S n). destruct IH as (H1 & H2 & H3). split_and!; [lia|by apply Hlinks|]. destruct H3 as [H3|[H3 H4]]; [left; split; [apply H3|lia]|right; split; [done|]].
    by replace (last + Z.of_nat (S n)) with (last + 1 + Z.of_nat n) by lia.
Qed.

(** A run read at once is its clusters read one by one. *)
Lemma chain_contents_run n c chunk : 2 <= c -> c + Z.of_nat n <= 2 ^ 28 -> Z.of_nat n * cb < chunk <= (Z.of_nat n + 1) * cb ->
  chain_contents vol (seqZ c (Z.of_nat n + 1)) chunk = sector_bytes_at (clusterFirstSector vol c) chunk.
Proof.
  pose proof cb_range as Hcb. pose proof spc_range as Hspc. revert c chunk. induction n as [|n IH]; intros c chunk Hc Hn Hch; rewrite seqZ_cons by lia; cbn [chain_contents].
  - rewrite seqZ_nil, Z.min_l by lia. destruct (sector_bytes_at _ _); simpl; [|done]. by rewrite app_nil_r.
  - replace (Z.pred _) with (Z.of_nat n + 1) by lia. rewrite Z.min_r by lia. rewrite IH by lia. replace (sector_bytes_at (clusterFirstSector vol c) chunk) with (sector_bytes_at (clusterFirstSector vol c) (cb + (chunk - cb))) by (f_equal; lia). destruct (vo_sector _ _ _ _ V) as [Hs _]. rewrite Hs in Hch, Hcb |- *.
    rewrite sector_bytes_at_add by lia. rewrite !first_sector by lia.
    replace (fv_dataLba vol + (Z.succ c - 2) * fv_secPerClus vol) with (fv_dataLba vol + (c - 2) * fv_secPerClus vol + fv_secPerClus vol) by lia. reflexivity.
Qed.

Lemma chain_contents_app cs1 cs2 size : zlen cs1 * cb <= size ->
  chain_contents vol (cs1 ++ cs2) size = (a ← chain_contents vol cs1 (zlen cs1 * cb); b ← chain_contents vol cs2 (size - zlen cs1 * cb); Some (a ++ b)).
Proof.
  pose proof cb_range as Hcb. revert size. induction cs1 as [|c cs1 IH]; intros size Hs; simpl app; cbn [chain_contents].
  - change (zlen (@nil Z)) with 0. rewrite Z.mul_0_l, Z.sub_0_r. simpl. by destruct (chain_contents vol cs2 size).
  - rewrite zlen_cons in *. pose proof (zlen_nonneg cs1). rewrite !Z.min_r by (try apply (le_mul_ge_1 (1 + _)); lia). rewrite IH by lia. replace ((1 + zlen cs1) * cb - cb) with (zlen cs1 * cb) by lia.
    replace (size - cb - zlen cs1 * cb) with (size - (1 + zlen cs1) * cb) by lia. destruct (sector_bytes_at _ _); simpl; [|done]. destruct (chain_contents vol cs1 _); simpl; [|done].
    destruct (chain_contents vol cs2 _); simpl; [|done]. by rewrite app_assoc.
Qed.

Lemma chain_contents_zlen cs size bs : 0 <= size <= zlen cs * cb -> chain_contents vol cs size = Some bs -> zlen bs = size.
Proof.
  pose proof cb_range as Hcb. revert size bs. induction cs as [|c cs IH]; intros size bs Hs; cbn [chain_contents].
  - intros [= <-]. change (zlen (@nil Z)) with 0 in *. lia.
  - rewrite zlen_cons in Hs. destruct (sector_bytes_at _ _) as [a|] eqn:Ea; [|done]. cbn [mbind option_bind]. destruct (chain_contents vol cs _) as [b|] eqn:Eb; [|done]. intros [= <-].
    pose proof (Z.mul_nonneg_nonneg (zlen cs) cb (zlen_nonneg cs) ltac:(lia)). apply sector_bytes_at_zlen in Ea; [|lia]. apply IH in Eb; [|lia]. rewrite zlen_app. lia.
Qed.

(** One run's transfer. *)
Lemma read_run_chain n c chunk dstOff dst : 2 <= c <= fv_countOfClusters vol + 1 -> c + Z.of_nat n <= 2 ^ 28 -> Z.of_nat n * cb < chunk <= (Z.of_nat n + 1) * cb -> chunk < 2 ^ 32 -> 0 <= dstOff < 2 ^ 32 -> dstOff + chunk <= zlen dst ->
  read_run dev vol (clusterFirstSector vol c) chunk dstOff dst = match chain_contents vol (seqZ c (Z.of_nat n + 1)) chunk with None => FErr BOOT_ERR_IO | Some bs => inb (bootMemcpy dst dstOff bs) end.
Proof.
  intros Hc Hn Hch Hch2 Ho Hd. rewrite chain_contents_run by lia. pose proof cb_range. pose proof (first_sector_inside c Hc). pose proof spc_range. pose proof (Z.mul_nonneg_nonneg (Z.of_nat n) cb ltac:(lia) ltac:(lia)).
  apply read_run_spec; try lia. apply V.
Qed.

Lemma memcpy_fits dst dstOff cs size bs : 0 <= size <= zlen cs * cb -> chain_contents vol cs size = Some bs -> 0 <= dstOff -> dstOff + size <= zlen dst ->
  exists d, bootMemcpy dst dstOff bs = Some d /\ zlen bs = size /\ zlen d = zlen dst.
Proof.
  intros Hs Hb Ho Hd. apply chain_contents_zlen in Hb as Hz; [|lia]. destruct (bootMemcpy_is_Some dst dstOff bs) as [d E]; [lia..|]. exists d. split_and!; [done..|]. by apply bootMemcpy_zlen in E.
Qed.

Lemma fuel_enough steps : 0 <= steps -> fv_countOfClusters vol + 1 - steps <= Z.of_nat (Z.to_nat (fv_countOfClusters vol + 1)).
Proof. pose proof count_range. lia. Qed.

Lemma fat_bind_ok {A B} (a : A) (f : A -> fat B) : (x ← FOk a; f x) = f a.
Proof. reflexivity. Qed.

(** What the loop does after it has found a run of [n + 1] clusters from [c] on. *)
Definition after_run (fuel : nat) (remaining dstOff c n steps' : Z) (dst : list Z) : fat (list Z) :=
  let chunk := Z.min remaining ((n + 1) * cb) in
  match chain_contents vol (seqZ c (n + 1)) chunk with
  | None => FErr BOOT_ERR_IO
  | Some bs =>
      dst ← inb (bootMemcpy dst dstOff bs);
      if remaining - chunk =? 0 then FOk dst
      else if fv_countOfClusters vol <? steps' then FErr BOOT_ERR_FAT
      else
        next ← readFatEntry dev vol (c + n);
        if (FAT_EOC_MIN <=? next) || (next =? FAT_BAD_CLUSTER) then FErr BOOT_ERR_FAT
        else read_runs dev fuel vol cb (remaining - chunk) (dstOff + chunk) next (steps' + 1) dst
  end.

Lemma read_runs_after fuel remaining dstOff c steps dst n steps' : 0 < remaining -> 0 <= dstOff -> dstOff + remaining < 2 ^ 32 -> dstOff + remaining <= zlen dst -> 2 <= c <= fv_countOfClusters vol + 1 ->
  0 <= n -> c + n < 2 ^ 28 -> n * cb < remaining -> 0 <= steps' < 2 ^ 32 - 1 ->
  extend_run dev (Z.to_nat (fv_countOfClusters vol + 1)) vol cb remaining 1 c steps = FOk (1 + n, c + n, steps') ->
  read_runs dev (S fuel) vol cb remaining dstOff c steps dst = after_run fuel remaining dstOff c n steps' dst.
Proof.
  intros Hrem Ho H32 Hd Hc Hn Hl HL Hst He. pose proof cb_range as Hcb. pose proof count_range as Hcnt. cbn [read_runs].
  rewrite (proj2 (Z.ltb_lt 0 remaining)), (u32_small (_ + 1)) by (words; lia). rewrite (proj2 (Z.ltb_ge c 2)), (proj2 (Z.ltb_ge _ c)) by lia. cbn [negb orb].
  rewrite He, fat_bind_ok. cbv beta iota. rewrite (Z.add_comm 1 n), (u64_small (_ * cb)) by (words; lia). unfold after_run.
  assert (Hch : (if (n + 1) * cb <? remaining then (n + 1) * cb else remaining) = Z.min remaining ((n + 1) * cb)) by (destruct (Z.ltb_spec ((n + 1) * cb) remaining); lia). rewrite Hch. clear Hch.
  pose proof (Z.mul_nonneg_nonneg n cb ltac:(lia) ltac:(lia)) as Hnn. assert (Hch : n * cb < Z.min remaining ((n + 1) * cb) <= (n + 1) * cb) by lia. cbv zeta. generalize (Z.min_spec remaining ((n + 1) * cb)). revert Hch.
  generalize (Z.min remaining ((n + 1) * cb)). intros chunk Hch Hmin. replace n with (Z.of_nat (Z.to_nat n)) in Hch, Hl |- * by lia. rewrite (read_run_chain (Z.to_nat n)) by lia.
  destruct (chain_contents vol _ chunk) as [bs|]; cbn [mbind fat_bind]; [|reflexivity]. destruct (bootMemcpy dst dstOff bs) as [d|]; cbn [mbind fat_bind inb]; [|reflexivity].
  rewrite (u64_small (dstOff + chunk)), (u64_small (remaining - chunk)), (u32_small (steps' + 1)) by (words; lia). reflexivity.
Qed.

(** What a run found by the loop looks like. *)
Definition run_found (remaining c steps n steps' : Z) : Prop :=
  0 <= n /\ c + n < 2 ^ 28 /\ n * cb < remaining /\ 0 <= steps' <= fv_countOfClusters vol + 1 /\
  (forall i, 0 <= i < n -> readFatEntry dev vol (c + i) = FOk (c + i + 1)) /\
  (remaining <= (n + 1) * cb /\ steps' = steps + n \/
   (n + 1) * cb < remaining /\ steps' = steps + n + 1 /\ exists next, readFatEntry dev vol (c + n) = FOk next /\ next <> c + n + 1).

(** One turn of the loop over the runs. *)
Lemma read_runs_turn fuel remaining dstOff c steps dst : 0 < remaining -> 0 <= dstOff -> dstOff + remaining < 2 ^ 32 -> dstOff + remaining <= zlen dst -> 2 <= c <= fv_countOfClusters vol + 1 ->
  0 <= steps <= fv_countOfClusters vol + 1 ->
  (exists n steps', run_found remaining c steps n steps' /\ read_runs dev (S fuel) vol cb remaining dstOff c steps dst = after_run fuel remaining dstOff c n steps' dst) \/
  (exists n st, read_runs dev (S fuel) vol cb remaining dstOff c steps dst = FErr st /\ 0 <= n /\ (n + 1) * cb < remaining /\ (forall i, 0 <= i < n -> readFatEntry dev vol (c + i) = FOk (c + i + 1)) /\
    (st = BOOT_ERR_FAT /\ fv_countOfClusters vol < steps + n \/ (st = BOOT_ERR_IO \/ st = BOOT_ERR_FAT) /\ readFatEntry dev vol (c + n) = FErr st)).
Proof.
  intros Hrem Ho H32 Hd Hc Hst. pose proof cb_range as Hcb. pose proof count_range as Hcnt.
  pose proof (extend_run_spec (Z.to_nat (fv_countOfClusters vol + 1)) remaining 1 c steps ltac:(lia) ltac:(lia) ltac:(lia) ltac:(lia) Hst (fuel_enough steps ltac:(lia))) as He.
  destruct (extend_run dev _ vol cb remaining 1 c steps) as [[[L last] steps']|st|] eqn:Ee; [left|right|done]; destruct He as (n & He); exists (Z.of_nat n).
  - destruct He as (-> & -> & Hl & HL & Hlk & He). exists steps'. assert (Hrf : run_found remaining c steps (Z.of_nat n) steps').
    { unfold run_found. split_and!; [lia..|exact Hlk|]. rewrite (Z.add_comm (Z.of_nat n) 1). destruct He as [He|(? & ? & ? & He)]; [left; lia|right]. split_and!; [lia|lia|exact He]. }
    split; [exact Hrf|]. destruct Hrf as (? & ? & ? & ? & _). by apply (read_runs_after fuel remaining dstOff c steps dst (Z.of_nat n) steps'); try lia.
  - destruct He as (HL & Hlk & He). exists st. split_and!; [|lia|lia|exact Hlk|exact He]. cbn [read_runs].
    rewrite (proj2 (Z.ltb_lt 0 remaining)), (u32_small (_ + 1)) by (words; lia). rewrite (proj2 (Z.ltb_ge c 2)), (proj2 (Z.ltb_ge _ c)) by lia. cbn [negb orb]. by rewrite Ee.
Qed.

(** For any contents of the disk the reader returns, and what it stores is a chain's contents. *)
Lemma read_runs_total fuel remaining dstOff runStart steps dst : 0 < remaining -> 0 <= dstOff -> dstOff + remaining < 2 ^ 32 -> dstOff + remaining <= zlen dst -> is_u32 runStart ->
  0 <= steps <= fv_countOfClusters vol + 1 -> fv_countOfClusters vol + 2 - steps <= Z.of_nat fuel ->
  match read_runs dev fuel vol cb remaining dstOff runStart steps dst with
  | FOk d => exists cs bs, chain vol (runStart :: cs) /\ zlen (runStart :: cs) = ceil_div remaining cb /\ chain_contents vol (runStart :: cs) remaining = Some bs /\ bootMemcpy dst dstOff bs = Some d
  | FErr st => st = BOOT_ERR_IO \/ st = BOOT_ERR_FAT
  | FFault => False
  end.
Proof.
  pose proof cb_range as Hcb. pose proof count_range as Hcnt. revert remaining dstOff runStart steps dst. induction fuel as [|fuel IH]; intros remaining dstOff c steps dst Hrem Ho H32 Hd Hc Hst Hfuel; [lia|].
  destruct (decide (2 <= c <= fv_countOfClusters vol + 1)) as [Hin|Hout].
  2: { cbn [read_runs]. rewrite (proj2 (Z.ltb_lt 0 remaining)), (u32_small (_ + 1)) by (words; lia). destruct (Z.ltb_spec c 2), (Z.ltb_spec (fv_countOfClusters vol + 1) c); try lia; by right. }
  destruct (read_runs_turn fuel remaining dstOff c steps dst) as [(n & steps' & (Hn & Hlast & HL & Hst' & Hlk & He) & ->)|(n & st & -> & _ & _ & _ & [[-> _]|[He _]])]; try assumption; [|auto..].
  unfold after_run. cbv zeta. set (chunk := Z.min remaining ((n + 1) * cb)). assert (Hch : n * cb < chunk <= (n + 1) * cb /\ (chunk = remaining \/ chunk = (n + 1) * cb /\ chunk < remaining)) by lia. clearbody chunk. destruct Hch as [Hch Hch'].
  pose proof (Z.mul_nonneg_nonneg n cb ltac:(lia) ltac:(lia)). destruct (chain_contents vol (seqZ c _) chunk) as [bs|] eqn:Eb; [|left; reflexivity].
  assert (Hzs : zlen (seqZ c (n + 1)) = n + 1) by (unfold zlen; rewrite length_seqZ; lia).
  destruct (memcpy_fits dst dstOff (seqZ c (n + 1)) chunk bs ltac:(rewrite Hzs; lia) Eb Ho ltac:(lia)) as (d & Ed & Hzb & Hzd). rewrite Ed. cbn [mbind fat_bind inb].
  assert (Hrun : forall rest, chain vol (c + n :: rest) -> chain vol (seqZ c (n + 1) ++ rest)) by (intros rest; replace n with (Z.of_nat (Z.to_nat n)) in Hlk |- * by lia; by apply run_chain).
  assert (Hcons : seqZ c (n + 1) = c :: seqZ (Z.succ c) (Z.pred (n + 1))) by (apply seqZ_cons; lia).
  destruct (Z.eqb_spec (remaining - chunk) 0) as [Hz0|Hz0].
  { assert (chunk = remaining) as -> by lia. exists (seqZ (Z.succ c) (Z.pred (n + 1))), bs. rewrite <- Hcons. split_and!; [|rewrite Hzs; symmetry; apply ceil_div_unique; lia|exact Eb|exact Ed].
    rewrite <- (app_nil_r (seqZ _ _)). apply Hrun. by split. }
  destruct (Z.ltb_spec (fv_countOfClusters vol) steps'); [right; reflexivity|]. pose proof (readFatEntry_total (c + n) ltac:(words; lia)) as Ht.
  destruct (readFatEntry dev vol (c + n)) as [next|st|] eqn:En; cbn [mbind fat_bind]; [|exact Ht|done]. destruct (_ || _); [right; reflexivity|].
  specialize (IH (remaining - chunk) (dstOff + chunk) next (steps' + 1) d ltac:(lia) ltac:(lia) ltac:(lia) ltac:(lia) ltac:(words; lia) ltac:(lia) ltac:(lia)).
  destruct (read_runs _ _ _ _ _ _ _ _ _) as [d'|st|]; [|exact IH..]. destruct IH as (cs & bs' & Hcs & Hz & Hb' & Hm).
  exists (seqZ (Z.succ c) (Z.pred (n + 1)) ++ next :: cs), (bs ++ bs'). rewrite app_comm_cons, <- Hcons. split_and!.
  - apply Hrun. by split.
  - rewrite zlen_app, Hzs, Hz. symmetry. apply ceil_div_unique; [lia|]. pose proof (ceil_div_spec (remaining - chunk) cb). lia.
  - rewrite chain_contents_app, Hzs by (rewrite Hzs; lia). replace ((n + 1) * cb) with chunk by lia. rewrite Eb. cbn [mbind option_bind]. by rewrite Hb'.
  - rewrite <- (bootMemcpy_app _ _ _ _ _ Ed), Hzb. exact Hm.
Qed.

(** What is left of a chain after its first run. *)
Lemma chain_rest c cs n remaining : chain vol (c :: cs) -> zlen (c :: cs) = ceil_div remaining cb -> 0 <= n -> n * cb < remaining -> (forall i, 0 <= i < n -> readFatEntry dev vol (c + i) = FOk (c + i + 1)) ->
  exists rest, c :: cs = seqZ c (n + 1) ++ rest /\ chain vol (c + n :: rest) /\ zlen rest = ceil_div remaining cb - (n + 1) /\ (rest = [] <-> remaining <= (n + 1) * cb).
Proof.
  intros Hc Hz Hn HL Hl. pose proof cb_range as Hcb. pose proof (ceil_div_spec remaining cb ltac:(lia)) as Hs. set (q := ceil_div remaining cb) in *.
  assert (Hq : n < q) by (apply (Z.mul_lt_mono_pos_r cb); lia). rewrite zlen_cons in Hz. destruct (chain_run vol (Z.to_nat n) c cs Hc ltac:(lia)) as (rest & Heq & Hr); [intros; apply Hl; lia|].
  rewrite Z2Nat.id in Heq, Hr by lia. exists rest. assert (Hzr : zlen rest = q - (n + 1)).
  { assert (Hlen : zlen (c :: cs) = zlen (seqZ c (n + 1) ++ rest)) by (by rewrite Heq). rewrite zlen_cons, zlen_app in Hlen. unfold zlen at 2 in Hlen. rewrite length_seqZ in Hlen. lia. }
  split_and!; try done. split; intros H.
  - subst rest. change (zlen (@nil Z)) with 0 in Hzr. replace (n + 1) with q by lia. lia.
  - destruct rest as [|x r]; [done|]. rewrite zlen_cons in Hzr. pose proof (zlen_nonneg r). pose proof (Z.mul_le_mono_nonneg_r (n + 2) q cb ltac:(lia) ltac:(lia)). lia.
Qed.

Lemma read_runs_exact fuel remaining dstOff c cs steps dst bs : 0 < remaining -> 0 <= dstOff -> dstOff + remaining < 2 ^ 32 -> dstOff + remaining <= zlen dst ->
  0 <= steps <= fv_countOfClusters vol + 1 -> fv_countOfClusters vol + 2 - steps <= Z.of_nat fuel ->
  chain vol (c :: cs) -> Forall (fun c => 2 <= c <= fv_countOfClusters vol + 1) (c :: cs) -> zlen (c :: cs) = ceil_div remaining cb -> chain_contents vol (c :: cs) remaining = Some bs ->
  read_runs dev fuel vol cb remaining dstOff c steps dst = if steps + zlen (c :: cs) + breaks (c :: cs) <=? fv_countOfClusters vol + 2 then inb (bootMemcpy dst dstOff bs) else FErr BOOT_ERR_FAT.
Proof.
  pose proof cb_range as Hcb. pose proof count_range as Hcnt. revert remaining dstOff c cs steps dst bs. induction fuel as [|fuel IH]; intros remaining dstOff c cs steps dst bs Hrem Ho H32 Hd Hst Hfuel Hch Hin Hz Hbs; [lia|].
  assert (Hc : 2 <= c <= fv_countOfClusters vol + 1) by (by apply Forall_cons in Hin as [? _]). pose proof (breaks_nonneg (c :: cs)) as Hb0.
  destruct (read_runs_turn fuel remaining dstOff c steps dst) as [(n & steps' & (Hn & Hlast & HL & Hst' & Hlk & He) & ->)|(n & st & -> & Hn & HL & Hlk & Herr)]; try assumption.
  2: { destruct (chain_rest c cs n remaining Hch Hz Hn ltac:(lia) Hlk) as ([|c' rest] & Heq & Hr & Hzr & Hnil); [assert (remaining <= (n + 1) * cb) by (by apply Hnil); lia|]. destruct Hr as [Hr _].
       destruct Herr as [[-> Hgt]|[_ Herr]]; [|congruence]. rewrite zlen_cons in Hzr. pose proof (zlen_nonneg rest). rewrite (proj2 (Z.leb_gt _ _)) by lia. reflexivity. }
  destruct (chain_rest c cs n remaining Hch Hz Hn HL Hlk) as (rest & Heq & Hr & Hzr & Hnil). rewrite Hz. rewrite Heq in Hin, Hbs |- *. unfold after_run. cbv zeta.
  destruct He as [[Hfin ->]|(Hmore & -> & next & Hnext & Hne)].
  - rewrite (proj2 Hnil Hfin), app_nil_r in *. change (zlen (@nil Z)) with 0 in Hzr. rewrite breaks_seqZ, (proj2 (Z.leb_le _ _)) by lia. rewrite Z.min_l, Hbs, Z.sub_diag by lia. by destruct (bootMemcpy _ _ _).
  - destruct rest as [|c' rest]; [assert (remaining <= (n + 1) * cb) by (by apply Hnil); lia|]. destruct Hr as [Hr Hr']. rewrite Hr in Hnext. injection Hnext as <-. rewrite zlen_cons in Hzr. pose proof (zlen_nonneg rest).
    pose proof (breaks_nonneg (c' :: rest)). rewrite (breaks_run c (n + 1) c' rest) by lia. assert (Hzs : zlen (seqZ c (n + 1)) = n + 1) by (unfold zlen; rewrite length_seqZ; lia).
    rewrite chain_contents_app, Hzs in Hbs by (rewrite Hzs; lia). rewrite Z.min_r by lia. pose proof (Z.mul_nonneg_nonneg n cb ltac:(lia) ltac:(lia)).
    destruct (chain_contents vol (seqZ c (n + 1)) _) as [a|] eqn:Ea; [|done]. cbn [mbind option_bind] in Hbs. destruct (chain_contents vol (c' :: rest) _) as [b|] eqn:Eb; [|done]. injection Hbs as <-.
    destruct (memcpy_fits dst dstOff (seqZ c (n + 1)) ((n + 1) * cb) a ltac:(rewrite Hzs; lia) Ea Ho ltac:(lia)) as (d & Ed & Hzb & Hzd). rewrite Ed. cbn [mbind fat_bind inb].
    rewrite (proj2 (Z.eqb_neq (remaining - _) 0)) by lia. destruct (Z.ltb_spec (fv_countOfClusters vol) (steps + n + 1)); [rewrite (proj2 (Z.leb_gt _ _)) by lia; reflexivity|].
    rewrite Hr. cbn [mbind fat_bind]. apply Forall_app in Hin as [_ Hin]. assert (Hc' : 2 <= c' <= fv_countOfClusters vol + 1) by (by apply Forall_cons in Hin as [? _]).
    unfold FAT_EOC_MIN, FAT_BAD_CLUSTER. rewrite (proj2 (Z.leb_gt _ c')), (proj2 (Z.eqb_neq c' _)) by lia. cbn [orb].
    assert (Hz' : zlen (c' :: rest) = ceil_div (remaining - (n + 1) * cb) cb) by (rewrite zlen_cons; symmetry; apply ceil_div_unique; [lia|]; pose proof (ceil_div_spec remaining cb); lia).
    rewrite (IH _ _ c' rest _ d b) by (assumption || lia).
    rewrite <- (bootMemcpy_app _ _ _ _ _ Ed), Hzb, zlen_cons. replace (steps + n + 1 + 1 + (1 + zlen rest) + breaks (c' :: rest)) with (steps + ceil_div remaining cb + (1 + breaks (c' :: rest))) by lia. reflexivity.
Qed.

End Mounted.
End Read.
