(* ===== verification/BootFatDir.v ===== *)
(** * Directories of a FAT32 volume

    No contents of the disk make a directory scan leave a buffer or run on; and the entries
    that VFAT stores for a long name are found again under that name. *)

From S2P Require Import Prelude BootTypes BlockDev BootFat BootFatRead.

(** ** Entries of any contents *)

(** The accumulator between entries: the length never leaves the buffer. *)
Record lfn_ok (a : LfnAccum) : Prop := {
  lo_buf : zlen (lf_buf a) = BOOT_FAT_LFN_BUF_LEN;
  lo_len : 0 <= lf_len a <= BOOT_FAT_LFN_BUF_LEN;
  lo_max : 0 <= lf_maxSeq a <= LFN_MAX_SEQ
}.

Lemma lfn_ok_reset a : lfn_ok a -> lfn_ok (lfnReset a).
Proof. intros [Hb Hl Hm]. by split. Qed.

Lemma lfn_ok_0 : lfn_ok lfn0.
Proof. split; vm_compute; split; discriminate || reflexivity. Qed.

Lemma peek_le_total buf off n : is_bytes buf -> 0 <= off -> 0 <= n -> off + n <= zlen buf -> exists v, peek_le buf off n = Some v /\ 0 <= v < 256 ^ n.
Proof.
  intros Hb Ho Hn Hl. destruct (field_ok buf off n Hb Ho Hn Hl) as (v & Hv & Hr). unfold field in Hv. destruct (peek_le buf off n) as [w|]; [|done]. injection Hv as ->. eauto.
Qed.

Lemma lfn_units_total entry : is_bytes entry -> zlen entry = 32 -> exists units, lfn_units entry = Some units /\ zlen units = 13 /\ Forall is_u16 units.
Proof.
  intros Hb Hl. unfold lfn_units. assert (H : forall offs, Forall (fun off => 0 <= off <= 30) offs -> exists us, mapM (fun off => peek_le entry off 2) offs = Some us /\ zlen us = zlen offs /\ Forall is_u16 us).
  { induction 1 as [|off offs Ho _ (us & IH & Hz & Hu)]; [by exists []|]. destruct (peek_le_total entry off 2 Hb) as (v & Hv & Hr); [lia..|]. exists (v :: us). simpl. rewrite Hv. simpl. rewrite IH. simpl.
    rewrite !zlen_cons, Hz. split_and!; [done..|]. constructor; [words; lia|done]. }
  destruct (H [1; 3; 5; 7; 9; 14; 16; 18; 20; 22; 24; 28; 30]) as (us & Hus & Hz & Hu); [repeat constructor; lia|]. exists us. split_and!; done.
Qed.

Lemma lfn_chars_total units i base a : lfn_ok a -> 0 <= i -> 0 <= base -> base + i + zlen units <= BOOT_FAT_LFN_BUF_LEN ->
  exists saw a', lfn_chars units i base a = Some (saw, a') /\ lfn_ok a' /\ lf_maxSeq a' = lf_maxSeq a.
Proof.
  revert i a. induction units as [|u units IH]; intros i a Ha Hi Hb Hn; cbn [lfn_chars]; [by exists false, a|]. rewrite zlen_cons in Hn. pose proof (zlen_nonneg units).
  assert (H260 : BOOT_FAT_LFN_BUF_LEN = 260) by reflexivity. destruct Ha as [Hb1 Hl1 Hm1]. destruct (u =? 0).
  { eexists true, _. split; [reflexivity|]. rewrite u32_small by (words; lia). split; [split; simpl; lia|done]. }
  rewrite (proj2 (Z.ltb_lt _ BOOT_FAT_LFN_BUF_LEN)) by lia. rewrite aset_Some by lia. cbn [mbind option_bind].
  match goal with |- context [lfn_chars units (i + 1) base ?a1] => destruct (IH (i + 1) a1) as (saw & a' & H1 & H2 & H3); [split; simpl; [by rewrite zlen_insert|done..]|lia..|] end. by exists saw, a'.
Qed.

Lemma lfnFeed_total a entry : lfn_ok a -> is_bytes entry -> zlen entry = 32 -> exists a', lfnFeed a entry = Some a' /\ lfn_ok a'.
Proof.
  intros Ha Hb Hl. unfold lfnFeed. destruct (aget_Some entry 0) as (ord & -> & Hord); [lia|]. destruct (aget_Some entry 13) as (chk & -> & _); [lia|]. cbn [mbind option_bind].
  set (seq := ord .& LFN_SEQ_MASK). destruct ((seq <? 1) || _) eqn:Es; [eexists; split; [reflexivity|by apply lfn_ok_reset]|]. destruct (negb _ && _); [eexists; split; [reflexivity|by apply lfn_ok_reset]|]. apply orb_false_iff in Es as [E1 E2]. apply Z.ltb_ge in E1, E2.
  cbv zeta. set (a1 := if negb _ then _ else _). assert (H1 : lfn_ok a1).
  { destruct Ha as [? ? ?]. unfold a1. destruct (negb _); split; simpl; unfold BOOT_FAT_LFN_BUF_LEN, LFN_MAX_SEQ, LFN_CHARS_PER_ENTRY in *; lia. }
  destruct (lfn_units_total entry Hb Hl) as (units & -> & Hz & _). cbn [mbind option_bind]. unfold LFN_MAX_SEQ in E2.
  destruct (lfn_chars_total units 0 ((seq - 1) * LFN_CHARS_PER_ENTRY) a1 H1) as (saw & a2 & -> & H2 & _); [lia|unfold LFN_CHARS_PER_ENTRY; lia|unfold BOOT_FAT_LFN_BUF_LEN, LFN_MAX_SEQ, LFN_CHARS_PER_ENTRY; lia|].
  cbn [mbind option_bind]. destruct (_ && _); eexists; (split; [reflexivity|]); [|exact H2]. destruct H2 as [? ? ?]. split; simpl; try done. unfold BOOT_FAT_LFN_BUF_LEN, LFN_MAX_SEQ, LFN_CHARS_PER_ENTRY in *. lia.
Qed.

Lemma trimmed_total name base n : 0 <= base -> base + Z.of_nat n <= zlen name -> exists m, trimmed name base n = Some m /\ 0 <= m <= Z.of_nat n.
Proof.
  intros Hb. induction n as [|n IH]; intros Hn; cbn [trimmed]; [exists 0; split; [done|lia]|]. destruct (aget_Some name (base + Z.of_nat n)) as (ch & -> & _); [lia|]. cbn [mbind option_bind].
  destruct (ch =? 0x20); [|eexists; split; [reflexivity|lia]]. destruct IH as (m & -> & Hm); [lia|]. exists m. split; [done|lia].
Qed.

Lemma renderShortName_total name : zlen name = 11 -> exists r, renderShortName name = Some r.
Proof.
  intros Hl. unfold renderShortName. destruct (aget_Some name 0) as (f & -> & _); [lia|]. destruct (trimmed_total name 0 8) as (b & -> & Hb); [lia..|]. destruct (trimmed_total name 8 3) as (e & -> & He); [lia..|].
  cbn [mbind option_bind]. rewrite !peek_inside by lia. cbn [mbind option_bind]. eauto.
Qed.

Lemma entry_matches_total a name component : lfn_ok a -> zlen name = 11 -> exists b, entry_matches a name component = Some b.
Proof.
  intros [Hb Hl Hm] Hn. unfold entry_matches. destruct (renderShortName_total name Hn) as (r & ->). cbn [mbind option_bind]. destruct (_ && _); [rewrite peek_inside by lia|]; cbn [mbind option_bind]; [destruct (asciiEqualsIgnoreCase _ _)|]; eauto.
Qed.

Definition verdict_ok (v : entry_verdict) : Prop :=
  match v with EntryEnd => True | EntryNext a => lfn_ok a | EntryFound attr cluster size => is_u8 attr /\ is_u32 cluster /\ is_u32 size end.

Lemma dir_entry_total a entry component : lfn_ok a -> is_bytes entry -> zlen entry = 32 -> exists v, dir_entry a entry component = Some v /\ verdict_ok v.
Proof.
  intros Ha Hb Hl. unfold dir_entry. destruct (aget_Some entry 0) as (first & -> & _); [lia|]. destruct (aget_Some entry 11) as (attr & -> & Hattr); [lia|]. cbn [mbind option_bind].
  destruct (first =? 0); [by eexists|]. destruct (first =? 0xE5); [by eexists|]. destruct (attr =? ATTR_LFN).
  { destruct (lfnFeed_total a entry Ha Hb Hl) as (a' & -> & Ha'). cbn [mbind option_bind]. by eexists. }
  destruct (negb _); [eexists; split; [reflexivity|by apply lfn_ok_reset]|]. destruct (peek_is_Some entry 0 11) as [name Hn]; [lia..|]. rewrite Hn. cbn [mbind option_bind].
  destruct (entry_matches_total a name component Ha) as (m & ->); [by apply peek_Some in Hn as (_ & _ & _ & ? & _)|]. cbn [mbind option_bind]. destruct m; [|eexists; split; [reflexivity|by apply lfn_ok_reset]].
  destruct (peek_le_total entry 20 2 Hb) as (hi & -> & Hhi); [lia..|]. destruct (peek_le_total entry 26 2 Hb) as (lo & -> & Hlo); [lia..|]. destruct (peek_le_total entry 28 4 Hb) as (size & -> & Hsz); [lia..|]. cbn [mbind option_bind].
  eexists. split; [reflexivity|]. unfold is_bytes in Hb. rewrite Forall_lookup in Hb. split_and!; [by apply Hb in Hattr| |words; lia].
  rewrite Z.shiftl_mul_pow2, (u64_small (hi * _)), (u32_small (hi * _)) by (words; lia). rewrite (add_lor_disjoint _ _ 16); [words; lia|lia|apply Z.mod_mul; lia|lia].
Qed.

Lemma dir_entries_total n e scratch component a : lfn_ok a -> is_bytes scratch -> 0 <= e -> (e + Z.of_nat n) * 32 <= zlen scratch -> exists v, dir_entries n e scratch component a = Some v /\ verdict_ok v.
Proof.
  revert e a. induction n as [|n IH]; intros e a Ha Hb He Hl; cbn [dir_entries]; [by eexists|]. unfold DIR_ENTRY_SIZE. destruct (peek_is_Some scratch (e * 32) 32) as [entry Hen]; [lia..|]. rewrite Hen. cbn [mbind option_bind].
  destruct (dir_entry_total a entry component Ha) as (v & -> & Hv); [by apply (peek_bytes _ _ _ _ Hb Hen)|by apply peek_Some in Hen as (_ & _ & _ & ? & _)|]. cbn [mbind option_bind].
  destruct v as [|a'|attr c s]; [by eexists| |by eexists]. apply IH; [exact Hv|done|lia|lia].
Qed.

(** ** Directories of any contents *)

Section Scan.
Context (dev : BootBlockDev) {FD : FatDevice dev}.
Context (partLba partSectors : Z) (vol : BootFatVol) (V : vol_ok dev partLba partSectors vol).
Context (Hlba : 0 <= partLba) (Hend : partLba + partSectors <= 2 ^ 63).

(** A call that returns [P], or fails with a status of [errs]. *)
Definition returns {A} (P : A -> Prop) (errs : list BootStatus) (r : fat A) : Prop :=
  match r with FOk a => P a | FErr st => st ∈ errs | FFault => False end.

Lemma returns_bind {A B} (P : A -> Prop) (Q : B -> Prop) errs (m : fat A) (f : A -> fat B) :
  returns P errs m -> (forall a, P a -> returns Q errs (f a)) -> returns Q errs (x ← m; f x).
Proof. intros Hm Hf. destruct m as [a|st|]; [by apply Hf|exact Hm|exact Hm]. Qed.

Lemma read1_total lba : returns (fun s => is_bytes s /\ zlen s = fv_bytesPerSec vol) [BOOT_ERR_IO; BOOT_ERR_FAT; BOOT_ERR_NOT_FOUND] (read1 dev lba).
Proof.
  unfold read1. destruct (bd_read dev lba) as [s|] eqn:Es; simpl; [|set_solver]. destruct (vo_sector _ _ _ _ V) as [-> _]. split; [by apply sector_bytes in Es|by apply sector_length in Es].
Qed.

Lemma dir_sectors_total n s firstSec component a : lfn_ok a -> returns verdict_ok [BOOT_ERR_IO; BOOT_ERR_FAT; BOOT_ERR_NOT_FOUND] (dir_sectors dev n s firstSec vol component a).
Proof.
  revert s a. induction n as [|n IH]; intros s a Ha; cbn [dir_sectors]; [exact Ha|]. apply (returns_bind _ _ _ _ _ (read1_total _)). intros scratch [Hb Hl].
  destruct (dir_entries_total (Z.to_nat (fv_bytesPerSec vol / DIR_ENTRY_SIZE)) 0 scratch component a Ha Hb) as (v & -> & Hv); [lia| |].
  { rewrite Hl, Z2Nat.id by (pose proof (bps_range dev _ _ _ V); unfold DIR_ENTRY_SIZE; apply Z.div_pos; lia). unfold DIR_ENTRY_SIZE. pose proof (Z.mul_div_le (fv_bytesPerSec vol) 32). lia. }
  cbn [inb mbind fat_bind]. destruct v as [|a'|attr c sz]; [done|by apply IH|exact Hv].
Qed.

Definition found_ok (r : Z * Z * Z) : Prop := let '(attr, cluster, size) := r in is_u32 cluster /\ is_u32 size.

Lemma dir_clusters_total fuel cluster steps component a : lfn_ok a -> 0 <= steps <= fv_countOfClusters vol + 1 -> fv_countOfClusters vol + 1 - steps <= Z.of_nat fuel ->
  returns found_ok [BOOT_ERR_IO; BOOT_ERR_FAT; BOOT_ERR_NOT_FOUND] (dir_clusters dev fuel cluster steps vol component a).
Proof.
  pose proof (count_range dev _ _ _ V) as Hcnt. revert cluster steps a. induction fuel as [|fuel IH]; intros cluster steps a Ha Hst Hf; cbn [dir_clusters]; rewrite (u32_small (_ + 1)) by (words; lia).
  all: destruct (negb _) eqn:Er; [simpl; set_solver|]; destruct (Z.ltb_spec (fv_countOfClusters vol) steps); [simpl; set_solver|].
  { lia. }
  bprop. eapply returns_bind; [by apply dir_sectors_total|]. intros v Hv. destruct v as [|a'|attr c sz]; [simpl; set_solver| |by destruct Hv as (_ & ? & ?)].
  pose proof (readFatEntry_total dev _ _ _ V cluster ltac:(words; lia)) as Ht. destruct (readFatEntry dev vol cluster) as [next|st|]; cbn [mbind fat_bind]; [|destruct Ht as [-> | ->]; simpl; set_solver|done].
  destruct (_ <=? _); [simpl; set_solver|]. destruct (_ =? _); [simpl; set_solver|]. rewrite u32_small by (words; lia). apply IH; [exact Hv|lia|lia].
Qed.

Lemma dirFindEntry_total cluster component : returns found_ok [BOOT_ERR_IO; BOOT_ERR_FAT; BOOT_ERR_NOT_FOUND] (dirFindEntry dev vol cluster component).
Proof. pose proof (count_range dev _ _ _ V). apply dir_clusters_total; [apply lfn_ok_reset, lfn_ok_0|lia|lia]. Qed.

Definition file_ok (file : BootFatFile) : Prop := is_u32 (ff_firstCluster file) /\ is_u32 (ff_size file).

Definition open_errors : list BootStatus := [BOOT_ERR_IO; BOOT_ERR_FAT; BOOT_ERR_NOT_FOUND; BOOT_ERR_TOO_LARGE].

Lemma open_path_total fuel cluster path k : 0 <= k <= 16 -> 17 - k <= Z.of_nat fuel -> returns file_ok open_errors (open_path dev fuel vol cluster path k).
Proof.
  revert cluster path k. induction fuel as [|fuel IH]; intros cluster path k Hk Hf; [lia|]. cbn [open_path]. destruct (split_component path) as [component rest].
  destruct (_ =? 0); [simpl; set_solver|]. destruct (_ <? zlen _); [simpl; set_solver|]. destruct (Z.ltb_spec BOOT_FAT_PATH_MAX_COMPONENTS (k + 1)) as [|Hk']; [simpl; set_solver|]. unfold BOOT_FAT_PATH_MAX_COMPONENTS in Hk'.
  pose proof (dirFindEntry_total cluster component) as Ht. destruct (dirFindEntry dev vol cluster component) as [[[attr c] sz]|st|]; [rewrite fat_bind_ok|simpl in *; set_solver|done].
  destruct rest as [|ch rest]; [destruct (negb _); [simpl; set_solver|exact Ht]|]. destruct (_ =? 0); [simpl; set_solver|]. apply IH; lia.
Qed.

Lemma bootFatOpen_returns path : returns file_ok open_errors (bootFatOpen dev vol path).
Proof.
  unfold bootFatOpen. destruct path as [[|ch path]|]; [simpl; set_solver| |simpl; set_solver]. destruct (ch =? 0x2F); [|simpl; set_solver]. apply open_path_total; lia.
Qed.

End Scan.

(** ** Long names *)

(** The entries of a long name as VFAT stores them: 13 code units each, the highest sequence number
    first, a NUL and 0xFFFF after the last character unless it fills an entry. *)
Definition lfn_entry (ord chk : Z) (units : list Z) : list Z :=
  ord :: mjoin (le_bytes 2 <$> take 5 units) ++ [ATTR_LFN; 0; chk] ++ mjoin (le_bytes 2 <$> take 6 (drop 5 units)) ++ [0; 0] ++ mjoin (le_bytes 2 <$> drop 11 units).

Definition pad13 (chars : list Z) : list Z :=
  if zlen chars =? 13 then chars else chars ++ 0 :: replicate (12 - length chars) 0xFFFF.

Definition lfn_chunk (name : list Z) (m : nat) : list Z := take 13 (drop (13 * m) name).

Fixpoint lfn_group (name : list Z) (chk flag : Z) (k : nat) : list (list Z) :=
  match k with
  | O => []
  | S m => lfn_entry (Z.of_nat k + flag) chk (pad13 (lfn_chunk name m)) :: lfn_group name chk 0 m
  end.

(** How many entries a name needs. *)
Definition lfn_count (name : list Z) : nat := Z.to_nat (ceil_div (zlen name) 13).

(** The entry that carries the file's attributes, first cluster and size. *)
Definition short_entry (name : list Z) (attr hi lo size : Z) : list Z :=
  name ++ attr :: replicate 8 0 ++ le_bytes 2 hi ++ replicate 4 0 ++ le_bytes 2 lo ++ le_bytes 4 size.

Lemma le2 u : is_u16 u -> u mod 256 + 256 * (u / 256 mod 256 + 256 * 0) = u.
Proof. words. intros Hu. pose proof (Z_div_mod_eq_full u 256). rewrite (Z.mod_small (u / 256)); [lia|]. split; [apply Z.div_pos; lia|apply Z.div_lt_upper_bound; lia]. Qed.

Lemma lfn_entry_spec ord chk units : length units = 13%nat -> Forall is_u16 units ->
  zlen (lfn_entry ord chk units) = 32 /\ aget (lfn_entry ord chk units) 0 = Some ord /\ aget (lfn_entry ord chk units) 11 = Some ATTR_LFN /\ aget (lfn_entry ord chk units) 13 = Some chk /\
  lfn_units (lfn_entry ord chk units) = Some units.
Proof.
  intros Hl Hu. do 13 (destruct units as [|? units]; [done|]). destruct units; [|done]. split_and!; [reflexivity..|]. unfold lfn_units, lfn_entry.
  repeat (apply Forall_cons in Hu as [? Hu]). apply mapM_Some_2. repeat constructor.
  all: match goal with |- peek_le _ _ _ = Some ?u => exact (f_equal Some (le2 u ltac:(assumption))) end.
Qed.

Lemma lfn_chars_write cs rest i base a : Forall (fun c => 1 <= c <= 127) cs -> 0 <= base + i -> base + i + zlen cs <= zlen (lf_buf a) -> zlen (lf_buf a) = 260 ->
  exists buf, bootMemcpy (lf_buf a) (base + i) cs = Some buf /\
    lfn_chars (cs ++ rest) i base a = lfn_chars rest (i + zlen cs) base (mkLfn buf (lf_len a) (lf_hasTerm a) (lf_nonAscii a) (lf_active a) (lf_expectSeq a) (lf_maxSeq a) (lf_checksum a)).
Proof.
  intros Hc. revert i a. induction Hc as [|c cs Hc _ IH]; intros i a Hb Hn H260.
  - exists (lf_buf a). unfold bootMemcpy. change (zlen (@nil Z)) with 0 in *. rewrite (proj2 (Z.leb_le 0 _)), (proj2 (Z.leb_le _ (zlen _))) by lia. simpl. rewrite Nat.add_0_r, take_drop, Z.add_0_r. by destruct a.
  - rewrite zlen_cons in *. pose proof (zlen_nonneg cs). simpl app. cbn [lfn_chars]. rewrite (proj2 (Z.eqb_neq c 0)), (proj2 (Z.ltb_ge 0x7F c)) by lia. change BOOT_FAT_LFN_BUF_LEN with 260. rewrite (proj2 (Z.ltb_lt _ 260)) by lia.
    change 0x7F with (2 ^ 7 - 1). rewrite land_low, Z.mod_small, aset_Some by lia. cbn [mbind option_bind].
    assert (H1 : bootMemcpy (lf_buf a) (base + i) [c] = Some (<[Z.to_nat (base + i) := c]> (lf_buf a))).
    { unfold bootMemcpy. change (zlen [c]) with 1. rewrite (proj2 (Z.leb_le 0 _)), (proj2 (Z.leb_le _ (zlen _))) by lia. unfold zlen in *. rewrite insert_take_drop by lia. simpl. do 4 f_equal. lia. }
    destruct (IH (i + 1) (mkLfn (<[Z.to_nat (base + i) := c]> (lf_buf a)) (lf_len a) (lf_hasTerm a) (lf_nonAscii a) (lf_active a) (lf_expectSeq a) (lf_maxSeq a) (lf_checksum a))) as (buf & Hbuf & ->); simpl; rewrite ?zlen_insert; [lia..|].
    exists buf. simpl in Hbuf. rewrite Z.add_assoc in Hbuf. change 1 with (zlen [c]) in Hbuf at 1. rewrite (bootMemcpy_app _ _ _ _ _ H1) in Hbuf. split; [exact Hbuf|]. by replace (i + (1 + zlen cs)) with (i + 1 + zlen cs) by lia.
Qed.

Definition is_char (c : Z) : Prop := 1 <= c <= 127.

Lemma ord_bits k : 1 <= k <= 20 -> (k .& LFN_SEQ_MASK) = k /\ (k .& LFN_LAST_ENTRY_FLAG) = 0 /\ ((k + 0x40) .& LFN_SEQ_MASK) = k /\ ((k + 0x40) .& LFN_LAST_ENTRY_FLAG) = 0x40.
Proof.
  intros Hk. assert (Hall : forallb (fun k => ((k .& LFN_SEQ_MASK) =? k) && ((k .& LFN_LAST_ENTRY_FLAG) =? 0) && (((k + 0x40) .& LFN_SEQ_MASK) =? k) && (((k + 0x40) .& LFN_LAST_ENTRY_FLAG) =? 0x40)) (seqZ 1 20) = true) by (vm_compute; reflexivity).
  rewrite forallb_forall in Hall. specialize (Hall k (proj1 (list_elem_of_In _ _) (proj2 (elem_of_seqZ 1 20 k) ltac:(lia)))). bprop. auto.
Qed.

Lemma pad13_ok chunk : Forall is_char chunk -> zlen chunk <= 13 -> length (pad13 chunk) = 13%nat /\ Forall is_u16 (pad13 chunk).
Proof.
  intros Hc Hl. assert (Hu : Forall is_u16 chunk) by (eapply Forall_impl; [exact Hc|]; unfold is_char; words; lia). unfold pad13, zlen in *. destruct (Z.eqb_spec (Z.of_nat (length chunk)) 13) as [He|He]; [split; [lia|done]|].
  split; [rewrite length_app; simpl; rewrite length_replicate; lia|]. apply Forall_app. split; [done|]. constructor; [words; lia|]. apply Forall_replicate. words. lia.
Qed.

(** The accumulator once an entry's group bookkeeping is done, and once its characters are in [buf]. *)
Definition lfn_started (a : LfnAccum) (k flag chk : Z) : LfnAccum :=
  if flag =? 0 then mkLfn (lf_buf a) (lf_len a) (lf_hasTerm a) (lf_nonAscii a) (lf_active a) k (lf_maxSeq a) (lf_checksum a)
  else mkLfn (lf_buf a) 0 false false true k k chk.

Definition lfn_fed (a : LfnAccum) (k : Z) (chunk buf : list Z) : LfnAccum :=
  let '(len, term) := if zlen chunk =? 13 then (if (k =? 1) && negb (lf_hasTerm a) then (lf_maxSeq a * 13, true) else (lf_len a, lf_hasTerm a)) else ((k - 1) * 13 + zlen chunk, true) in
  mkLfn buf len term (lf_nonAscii a) (lf_active a) (lf_expectSeq a) (lf_maxSeq a) (lf_checksum a).

Lemma lfnFeed_entry a k flag chk chunk : 1 <= k <= 20 -> Forall is_char chunk -> zlen chunk <= 13 -> zlen (lf_buf a) = 260 ->
  flag = 0x40 \/ flag = 0 /\ lf_active a = true /\ lf_expectSeq a = k + 1 /\ lf_checksum a = chk ->
  exists buf, bootMemcpy (lf_buf a) ((k - 1) * 13) chunk = Some buf /\ lfnFeed a (lfn_entry (k + flag) chk (pad13 chunk)) = Some (lfn_fed (lfn_started a k flag chk) k chunk buf).
Proof.
  intros Hk Hc Hl Hb Hflag. destruct (pad13_ok chunk Hc Hl) as [Hp Hu]. destruct (lfn_entry_spec (k + flag) chk _ Hp Hu) as (_ & H0 & _ & H13 & Hun). pose proof (zlen_nonneg chunk) as Hz0.
  destruct (ord_bits k Hk) as (Ho1 & Ho2 & Ho3 & Ho4). set (a1 := lfn_started a k flag chk). assert (Hb1 : lf_buf a1 = lf_buf a) by (unfold a1, lfn_started; by destruct (flag =? 0)).
  destruct (lfn_chars_write chunk (drop (length chunk) (pad13 chunk)) 0 ((k - 1) * 13) a1 Hc) as (buf & Hbuf & Hw); [lia|rewrite Hb1; lia|by rewrite Hb1|]. rewrite Hb1, Z.add_0_r in Hbuf. exists buf. split; [exact Hbuf|].
  assert (Hfeed : lfnFeed a (lfn_entry (k + flag) chk (pad13 chunk)) = ('(sawTerm, a2) ← lfn_chars (pad13 chunk) 0 ((k - 1) * 13) a1;
    Some (if negb (sawTerm : bool) && (k =? 1) && negb (lf_hasTerm a2) then mkLfn (lf_buf a2) (lf_maxSeq a2 * 13) true (lf_nonAscii a2) (lf_active a2) (lf_expectSeq a2) (lf_maxSeq a2) (lf_checksum a2) else a2))).
  { unfold lfnFeed. rewrite H0, H13. cbn [mbind option_bind]. unfold a1, lfn_started, LFN_MAX_SEQ. destruct Hflag as [-> |(-> & H1 & H2 & H3)].
    - rewrite Ho3, Ho4, (proj2 (Z.ltb_ge k 1)), (proj2 (Z.ltb_ge 20 k)) by lia. cbn -[lfn_units lfn_entry lfn_chars pad13]. rewrite Hun. reflexivity.
    - rewrite Z.add_0_r in Hun |- *. rewrite Ho1, Ho2, (proj2 (Z.ltb_ge k 1)), (proj2 (Z.ltb_ge 20 k)) by lia. rewrite H1, H2, H3, u32_small, (proj2 (Z.eqb_eq k _)), (Z.eqb_refl chk) by (words; lia).
      cbn -[lfn_units lfn_entry lfn_chars pad13]. rewrite Hun. reflexivity. }
  rewrite Hfeed. assert (Hsplit : pad13 chunk = chunk ++ drop (length chunk) (pad13 chunk)).
  { unfold pad13. destruct (_ =? 13); [by rewrite drop_ge, app_nil_r by lia|by rewrite drop_app_length]. }
  rewrite Hsplit, Hw. unfold pad13, lfn_fed. destruct (Z.eqb_spec (zlen chunk) 13) as [E|E].
  - rewrite drop_ge by lia. cbn [lfn_chars mbind option_bind]. cbn. destruct (_ && _); reflexivity.
  - rewrite drop_app_length. cbn [lfn_chars]. rewrite Z.eqb_refl. cbn [mbind option_bind]. rewrite u32_small by (words; lia). cbn. by rewrite Z.add_0_l.
Qed.

(** All but the first [m] entries' characters of [name] are in place; [m] entries are to come. *)
Record lfn_progress (name : list Z) (chk : Z) (m : nat) (a : LfnAccum) : Prop := {
  lp_buf : zlen (lf_buf a) = 260;
  lp_flags : lf_active a = true /\ lf_nonAscii a = false /\ lf_expectSeq a = Z.of_nat m + 1 /\ lf_checksum a = chk;
  lp_max : 0 <= lf_maxSeq a <= 20;
  lp_term : lf_hasTerm a = true /\ lf_len a = zlen name \/ lf_hasTerm a = false /\ zlen name = lf_maxSeq a * 13 /\ m <> O;
  lp_chars : 13 * Z.of_nat m <= zlen name /\ peek (lf_buf a) (13 * Z.of_nat m) (zlen name - 13 * Z.of_nat m) = Some (drop (13 * m) name)
}.

Lemma lfn_chunk_ok name m : Forall is_char name -> Forall is_char (lfn_chunk name m) /\ zlen (lfn_chunk name m) <= 13.
Proof. intros Hn. split; [by apply Forall_take, Forall_drop|]. unfold lfn_chunk, zlen. rewrite length_take. lia. Qed.

Lemma zlen_lfn_chunk name m : 13 * Z.of_nat m <= zlen name -> zlen (lfn_chunk name m) = Z.min 13 (zlen name - 13 * Z.of_nat m).
Proof. unfold lfn_chunk, zlen. intros H. rewrite length_take, length_drop. lia. Qed.

Lemma drop_chunk name m : lfn_chunk name m ++ drop (13 * S m) name = drop (13 * m) name.
Proof. unfold lfn_chunk. replace (13 * S m)%nat with (13 * m + 13)%nat by lia. rewrite <- drop_drop. apply take_drop. Qed.

Ltac progress_fields :=
  split; cbn -[Z.mul Z.add Z.sub Z.of_nat zlen peek drop];
  [lia|split_and!; done || lia|lia|first [left; split; [reflexivity|lia]|right; split_and!; [reflexivity|lia|lia]]|split; [lia|done]].

(** The group's first entry. *)
Lemma lfn_first name chk m a : Forall is_char name -> zlen (lf_buf a) = 260 -> (m < 20)%nat -> 13 * Z.of_nat m < zlen name <= 13 * (Z.of_nat m + 1) ->
  exists a', lfnFeed a (lfn_entry (Z.of_nat (S m) + 0x40) chk (pad13 (lfn_chunk name m))) = Some a' /\ lfn_progress name chk m a'.
Proof.
  intros Hn Hb Hm Hl. destruct (lfn_chunk_ok name m Hn) as [Hc Hz]. pose proof (zlen_lfn_chunk name m ltac:(lia)) as Hzc.
  destruct (lfnFeed_entry a (Z.of_nat (S m)) 0x40 chk (lfn_chunk name m)) as (buf & Hbuf & ->); [lia|done|done|done|by left|]. eexists. split; [reflexivity|]. apply bootMemcpy_zlen in Hbuf as Hzb.
  replace ((Z.of_nat (S m) - 1) * 13) with (13 * Z.of_nat m) in Hbuf by lia. assert (Hpk : peek buf (13 * Z.of_nat m) (zlen name - 13 * Z.of_nat m) = Some (drop (13 * m) name)).
  { rewrite (peek_memcpy_in _ _ _ _ _ _ Hbuf) by lia. rewrite Z.sub_diag, <- (drop_chunk name m), (drop_ge name) by (unfold zlen in *; lia). rewrite app_nil_r. replace (zlen name - _) with (zlen (lfn_chunk name m)) by lia. apply peek_all. }
  unfold lfn_fed, lfn_started. cbn -[Z.mul Z.add Z.sub Z.of_nat lfn_chunk zlen peek drop]. destruct (Z.eqb_spec (zlen (lfn_chunk name m)) 13) as [E|E].
  - destruct (Z.eqb_spec (Z.of_nat (S m)) 1); cbn [andb]; by progress_fields.
  - by progress_fields.
Qed.

(** An entry in the middle or at the end of the group. *)
Lemma lfn_next name chk m a : Forall is_char name -> (m < 20)%nat -> lfn_progress name chk (S m) a ->
  exists a', lfnFeed a (lfn_entry (Z.of_nat (S m) + 0) chk (pad13 (lfn_chunk name m))) = Some a' /\ lfn_progress name chk m a'.
Proof.
  intros Hn Hm [Hb (Hact & Hna & Hseq & Hchk) Hmax Hterm [Hl Hpk]]. destruct (lfn_chunk_ok name m Hn) as [Hc Hz]. pose proof (zlen_lfn_chunk name m ltac:(lia)) as Hzc. rewrite Z.min_l in Hzc by lia.
  destruct (lfnFeed_entry a (Z.of_nat (S m)) 0 chk (lfn_chunk name m)) as (buf & Hbuf & ->); [lia|done|lia|done|right; split_and!; done|]. eexists. split; [reflexivity|]. apply bootMemcpy_zlen in Hbuf as Hzb.
  replace ((Z.of_nat (S m) - 1) * 13) with (13 * Z.of_nat m) in Hbuf by lia. assert (Hpk' : peek buf (13 * Z.of_nat m) (zlen name - 13 * Z.of_nat m) = Some (drop (13 * m) name)).
  { apply bootMemcpy_split in Hbuf as (A & B & C & HA & -> & HzA & HzB). rewrite HA in Hpk. rewrite (app_assoc A B), peek_app_r in Hpk by (rewrite ?zlen_app; lia). apply peek_Some in Hpk as (_ & _ & Hp3 & _ & Hp).
    rewrite zlen_app in Hp, Hp3. replace (13 * Z.of_nat (S m) - (zlen A + zlen B)) with 0 in Hp, Hp3 by lia. rewrite drop_0 in Hp. rewrite <- (take_drop (Z.to_nat (zlen name - 13 * Z.of_nat (S m))) C), <- Hp, (app_assoc (lfn_chunk name m)), drop_chunk.
    replace (zlen name - 13 * Z.of_nat m) with (zlen (drop (13 * m) name)) by (unfold zlen; rewrite length_drop; unfold zlen in *; lia). by apply peek_mid. }
  unfold lfn_fed, lfn_started. rewrite Hzc. cbn -[Z.mul Z.add Z.sub Z.of_nat lfn_chunk zlen peek drop]. destruct (Z.eqb_spec (Z.of_nat (S m)) 1), Hterm as [[Ht Hle]|(Ht & Hle & _)]; rewrite Ht; cbn [andb negb]; by progress_fields.
Qed.

Fixpoint feed_all (a : LfnAccum) (es : list (list Z)) : option LfnAccum :=
  match es with [] => Some a | e :: es => a ← lfnFeed a e; feed_all a es end.

Lemma lfn_group_rest name chk m a : Forall is_char name -> (m <= 20)%nat -> lfn_progress name chk m a -> exists a', feed_all a (lfn_group name chk 0 m) = Some a' /\ lfn_progress name chk 0 a'.
Proof.
  intros Hn. revert a. induction m as [|m IH]; intros a Hm Ha; [by exists a|]. destruct (lfn_next name chk m a Hn ltac:(lia) Ha) as (a1 & H1 & Ha1). cbn [lfn_group feed_all]. rewrite H1. cbn [mbind option_bind]. apply IH; [lia|done].
Qed.

Lemma lfn_group_feed name chk a : Forall is_char name -> 1 <= zlen name <= 260 -> zlen (lf_buf a) = 260 -> exists a', feed_all a (lfn_group name chk 0x40 (lfn_count name)) = Some a' /\ lfn_progress name chk 0 a'.
Proof.
  intros Hn Hl Hb. pose proof (ceil_div_spec (zlen name) 13 ltac:(lia)) as Hc. unfold lfn_count. destruct (Z.to_nat (ceil_div (zlen name) 13)) as [|m] eqn:Em; [lia|].
  destruct (lfn_first name chk m a Hn Hb) as (a1 & H1 & Ha1); [lia..|]. cbn [lfn_group feed_all]. rewrite H1. cbn [mbind option_bind]. apply lfn_group_rest; [done|lia|done].
Qed.

(** A group that is complete names the entry after it. *)
Lemma lfn_matches name a short component : lfn_progress name (shortNameChecksum short) 0 a -> asciiEqualsIgnoreCase name component = true -> entry_matches a short component = Some true.
Proof.
  intros [Hb (Hact & Hna & Hseq & Hchk) Hmax Hterm [Hl Hpk]] He. destruct Hterm as [[Ht Hlen]|(_ & _ & ?)]; [|done]. unfold entry_matches. rewrite Hact, Ht, Hna, Hseq, Hchk, Z.eqb_refl. change (Z.of_nat 0 + 1 =? 1) with true. cbn [andb negb].
  change (13 * Z.of_nat 0) with 0 in Hpk. rewrite Z.sub_0_r in Hpk. rewrite Hlen, Hpk. cbn [mbind option_bind]. rewrite Nat.mul_0_r, drop_0, He, Z.eqb_refl. reflexivity.
Qed.

Definition lfn_shaped (e : list Z) : Prop := zlen e = 32 /\ aget e 11 = Some ATTR_LFN /\ exists ord, aget e 0 = Some ord /\ 1 <= ord <= 84.

Lemma lfn_group_shaped name chk flag k : Forall is_char name -> (k <= 20)%nat -> flag = 0 \/ flag = 0x40 -> Forall lfn_shaped (lfn_group name chk flag k).
Proof.
  intros Hn. revert flag. induction k as [|m IH]; intros flag Hk Hf; cbn [lfn_group]; constructor; [|apply IH; [lia|by left]].
  destruct (lfn_chunk_ok name m Hn) as [Hc Hz]. destruct (pad13_ok _ Hc Hz) as [Hp Hu]. destruct (lfn_entry_spec (Z.of_nat (S m) + flag) chk _ Hp Hu) as (H1 & H2 & H3 & _). split_and!; [done..|]. eexists. split; [exact H2|]. lia.
Qed.

Lemma length_lfn_group name chk flag k : length (lfn_group name chk flag k) = k.
Proof. revert flag. induction k as [|k IH]; intros flag; [done|]. cbn [lfn_group length]. by rewrite IH. Qed.

(** The scan feeds the entries of a group to the accumulator. *)
Lemma dir_entries_group es n e pre post component a a' : Forall lfn_shaped es -> zlen pre = e * 32 -> 0 <= e -> feed_all a es = Some a' ->
  dir_entries (length es + n) e (pre ++ mjoin es ++ post) component a = dir_entries n (e + zlen es) (pre ++ mjoin es ++ post) component a'.
Proof.
  intros Hes. revert e pre a. induction Hes as [|x es (Hx & Hattr & ord & Hord & Hr) _ IH]; intros e pre a Hp He Hf.
  { injection Hf as ->. change (zlen (@nil (list Z))) with 0. by rewrite Z.add_0_r. }
  cbn [feed_all] in Hf. destruct (lfnFeed a x) as [a1|] eqn:E1; [|done]. cbn [mbind option_bind] in Hf. simpl length. cbn [Nat.add dir_entries]. change (mjoin (x :: es)) with (x ++ mjoin es). rewrite <- (app_assoc x).
  unfold DIR_ENTRY_SIZE. rewrite <- Hx at 2. rewrite peek_mid by lia. cbn [mbind option_bind]. unfold dir_entry. rewrite Hord, Hattr. cbn [mbind option_bind]. rewrite (proj2 (Z.eqb_neq ord 0)), (proj2 (Z.eqb_neq ord 0xE5)) by lia. rewrite Z.eqb_refl, E1.
  cbn [mbind option_bind]. specialize (IH (e + 1) (pre ++ x) a1 ltac:(rewrite zlen_app; lia) ltac:(lia) Hf). rewrite <- !app_assoc in IH. rewrite IH, zlen_cons. by replace (e + (1 + zlen es)) with (e + 1 + zlen es) by lia.
Qed.

Lemma short_entry_spec name attr hi lo size : zlen name = 11 -> is_u16 hi -> is_u16 lo -> is_u32 size -> let e := short_entry name attr hi lo size in
  zlen e = 32 /\ aget e 0 = aget name 0 /\ aget e 11 = Some attr /\ peek e 0 11 = Some name /\ peek_le e 20 2 = Some hi /\ peek_le e 26 2 = Some lo /\ peek_le e 28 4 = Some size.
Proof.
  intros Hn Hh Hl Hs e. unfold zlen in Hn. do 11 (destruct name as [|? name]; [done|]). destruct name; [|simpl in Hn; lia].
  split_and!; [reflexivity..| | |]; unfold peek_le.
  - change (peek e 20 2) with (Some (le_bytes 2 hi)). exact (f_equal Some (le_val_bytes 2 hi ltac:(words; lia))).
  - change (peek e 26 2) with (Some (le_bytes 2 lo)). exact (f_equal Some (le_val_bytes 2 lo ltac:(words; lia))).
  - change (peek e 28 4) with (Some (le_bytes 4 size)). exact (f_equal Some (le_val_bytes 4 size ltac:(words; lia))).
Qed.

Lemma dir_entry_match a name attr hi lo size component f : zlen name = 11 -> aget name 0 = Some f -> f <> 0 -> f <> 0xE5 -> attr <> ATTR_LFN -> (attr .& ATTR_VOLUME_ID) = 0 ->
  is_u16 hi -> is_u16 lo -> is_u32 size -> entry_matches a name component = Some true -> dir_entry a (short_entry name attr hi lo size) component = Some (EntryFound attr (hi * 65536 + lo) size).
Proof.
  intros Hn Hf H0 H5 Hlfn Hvol Hh Hl Hs Hm. destruct (short_entry_spec name attr hi lo size Hn Hh Hl Hs) as (_ & E0 & E11 & Ename & Ehi & Elo & Esz).
  unfold dir_entry. rewrite E0, Hf. cbn [mbind option_bind]. rewrite (proj2 (Z.eqb_neq f 0)), (proj2 (Z.eqb_neq f 0xE5)) by done. rewrite E11. cbn [mbind option_bind]. rewrite (proj2 (Z.eqb_neq attr ATTR_LFN)) by done.
  rewrite Hvol. cbn [negb Z.eqb]. rewrite Ename. cbn [mbind option_bind]. rewrite Hm. cbn [mbind option_bind]. rewrite Ehi, Elo, Esz. cbn [mbind option_bind].
  rewrite Z.shiftl_mul_pow2, (u64_small (hi * _)), (u32_small (hi * _)) by (words; lia). rewrite (add_lor_disjoint _ _ 16); [done|lia|apply Z.mod_mul; lia|words; lia].
Qed.

(** C21: A file stored under a long name is found by it.  Wherever in a directory sector the entries VFAT writes for a name of
    1 to 260 ASCII characters stand, followed by the short entry they belong to in the same sector, a scan that reaches them, whatever long name
    it was collecting before, returns that entry's attributes, first cluster and size for every component that equals the
    name up to the case of its letters. *)
Theorem long_name_found name short attr hi lo size component pre post a n f :
  Forall is_char name -> 1 <= zlen name <= 260 -> asciiEqualsIgnoreCase name component = true ->
  zlen short = 11 -> aget short 0 = Some f -> f <> 0 -> f <> 0xE5 -> attr <> ATTR_LFN -> (attr .& ATTR_VOLUME_ID) = 0 -> is_u16 hi -> is_u16 lo -> is_u32 size ->
  zlen pre mod 32 = 0 -> zlen (lf_buf a) = BOOT_FAT_LFN_BUF_LEN ->
  dir_entries (lfn_count name + S n) (zlen pre / 32)
    (pre ++ mjoin (lfn_group name (shortNameChecksum short) 0x40 (lfn_count name)) ++ short_entry short attr hi lo size ++ post) component a
  = Some (EntryFound attr (hi * 65536 + lo) size).
Proof.
  intros Hn Hl He Hs Hf H0 H5 Hlfn Hvol Hh Hlo Hsz Hpre Hb. pose proof (zlen_nonneg pre). pose proof (ceil_div_spec (zlen name) 13 ltac:(lia)).
  destruct (lfn_group_feed name (shortNameChecksum short) a Hn Hl Hb) as (a' & Hfeed & Ha'). set (es := lfn_group name _ _ _) in *. assert (Hes : length es = lfn_count name) by apply length_lfn_group.
  assert (Hsh : Forall lfn_shaped es) by (apply lfn_group_shaped; [done|unfold lfn_count; lia|by right]).
  rewrite <- Hes. rewrite (dir_entries_group es (S n) (zlen pre / 32) pre _ component a a' Hsh) by (try done; dlia).
  assert (Hz : zlen (mjoin es) = 32 * zlen es) by (clear -Hsh; induction Hsh as [|e es [He _] _ IH]; [done|]; change (mjoin (e :: es)) with (e ++ mjoin es); rewrite zlen_app, zlen_cons, IH; lia).
  cbn [dir_entries]. destruct (short_entry_spec short attr hi lo size Hs Hh Hlo Hsz) as (Hze & _). unfold DIR_ENTRY_SIZE. rewrite <- Hze at 3. rewrite app_assoc, peek_mid by (rewrite zlen_app, Hz; dlia). cbn [mbind option_bind].
  rewrite (dir_entry_match a' short attr hi lo size component f) by (try done; by apply (lfn_matches name)). reflexivity.
Qed.
