(* ===== verification/BootFatLoad.v ===== *)
(** * Loading a file from a FAT32 partition

    The three calls of the loader together, on disks of any contents, and a sample volume on
    which they are evaluated. *)

From S2P Require Import Prelude BootTypes BlockDev BootFat BootFatRead BootFatDir.

(** ** Mounting *)

(** C14: A volume that mounts is sound.  Whatever the first sector of the partition holds, bootFatMount stays inside it and
    either fails with BOOT_ERR_IO or BOOT_ERR_FAT or fills a volume whose sector size is the device's, whose cluster size is
    a power of two of at most 128 sectors, whose FAT has an entry for every cluster, and whose active FAT and whose
    clusters lie one after the other between the first sector of the partition and its end, in 64-bit arithmetic that
    does not wrap. *)
Theorem bootFatMount_sound dev partLba partSectors : FatDevice dev -> is_u64 partLba -> 0 <= partSectors -> partLba + partSectors <= 2 ^ 64 ->
  match bootFatMount dev partLba partSectors with
  | FOk vol => vol_ok dev partLba partSectors vol
  | FErr st => st = BOOT_ERR_IO \/ st = BOOT_ERR_FAT
  | FFault => False
  end.
Proof. apply bootFatMount_spec. Qed.

(** ** Reading *)

Section Load.
Context (dev : BootBlockDev) {MR : MultiRead dev} {MRL : MultiReadLaws dev} {FD : FatDevice dev}.
Context (partLba partSectors : Z) (Hlba : 0 <= partLba) (Hend : partLba + partSectors <= 2 ^ 63).

Lemma memcpy_front dst bs : zlen bs <= zlen dst -> bootMemcpy dst 0 bs = Some (bs ++ drop (length bs) dst).
Proof. intros H. pose proof (zlen_nonneg bs). unfold bootMemcpy. rewrite (proj2 (Z.leb_le _ (zlen dst))) by lia. reflexivity. Qed.

Lemma cluster_bytes vol : vol_ok dev partLba partSectors vol -> u64 (fv_secPerClus vol * fv_bytesPerSec vol) = fv_secPerClus vol * fv_bytesPerSec vol.
Proof. intros V. pose proof (cb_range dev _ _ vol V). apply u64_small. words. lia. Qed.

(** C11: Merging runs of neighbouring clusters changes nothing but the number of transfers.  For a file whose cluster chain
    is [cs], all of it inside the volume and as long as the file's size needs, bootFatRead puts exactly the bytes that
    reading the chain one cluster at a time gives at the start of the buffer and leaves the rest of the buffer alone;
    and it refuses the file, with BOOT_ERR_FAT, exactly when its clusters and the places where the chain does not go on
    to the neighbouring cluster are together more than the number of clusters of the volume plus two. *)
Theorem bootFatRead_exact vol file dst dstCap cs bs : vol_ok dev partLba partSectors vol ->
  0 < ff_size file < 2 ^ 32 -> ff_size file <= dstCap <= zlen dst ->
  head cs = Some (ff_firstCluster file) -> chain dev vol cs -> Forall (fun c => 2 <= c <= fv_countOfClusters vol + 1) cs ->
  zlen cs = ceil_div (ff_size file) (fv_secPerClus vol * fv_bytesPerSec vol) -> chain_contents dev vol cs (ff_size file) = Some bs ->
  bootFatRead dev vol file dst dstCap = if zlen cs + breaks cs <=? fv_countOfClusters vol + 2 then FOk (bs ++ drop (Z.to_nat (ff_size file)) dst) else FErr BOOT_ERR_FAT.
Proof.
  intros V Hs Hd Hh Hc Hin Hz Hb. destruct cs as [|c cs]; [done|]. injection Hh as ->. pose proof (count_range dev _ _ vol V). pose proof (cb_range dev _ _ vol V) as Hcb. unfold bootFatRead. rewrite (cluster_bytes vol V).
  rewrite (proj2 (Z.ltb_ge dstCap _)), (proj2 (Z.eqb_neq _ 0)) by lia. rewrite (read_runs_exact dev partLba partSectors vol V Hlba Hend _ _ 0 (ff_firstCluster file) cs 0 dst bs) by (assumption || lia). rewrite Z.add_0_l.
  pose proof (ceil_div_spec (ff_size file) _ (Z.lt_le_trans 0 512 _ eq_refl (proj1 Hcb))) as Hcd. apply (chain_contents_zlen dev partLba partSectors vol V) in Hb as Hzb; [|lia].
  rewrite memcpy_front by lia. replace (length bs) with (Z.to_nat (ff_size file)) by (unfold zlen in Hzb; lia). reflexivity.
Qed.

(** What a load that succeeds has read. *)
Definition loaded (path : option (list Z)) (dst d : list Z) : Prop :=
  exists vol file cs bs, bootFatMount dev partLba partSectors = FOk vol /\ bootFatOpen dev vol path = FOk file /\ chain dev vol cs /\
    zlen cs = ceil_div (ff_size file) (fv_secPerClus vol * fv_bytesPerSec vol) /\ (0 < ff_size file -> head cs = Some (ff_firstCluster file)) /\
    chain_contents dev vol cs (ff_size file) = Some bs /\ d = bs ++ drop (Z.to_nat (ff_size file)) dst.

Lemma bootFatRead_returns vol file dst dstCap : vol_ok dev partLba partSectors vol -> file_ok file -> dstCap <= zlen dst ->
  returns (fun d => exists cs bs, chain dev vol cs /\ zlen cs = ceil_div (ff_size file) (fv_secPerClus vol * fv_bytesPerSec vol) /\ (0 < ff_size file -> head cs = Some (ff_firstCluster file)) /\
    chain_contents dev vol cs (ff_size file) = Some bs /\ d = bs ++ drop (Z.to_nat (ff_size file)) dst) open_errors (bootFatRead dev vol file dst dstCap).
Proof.
  intros V [Hc Hs] Hcap. pose proof (count_range dev _ _ vol V). pose proof (cb_range dev _ _ vol V) as Hcb. unfold bootFatRead. rewrite (cluster_bytes vol V). destruct (Z.ltb_spec dstCap (ff_size file)); [simpl; set_solver|].
  destruct (Z.eqb_spec (ff_size file) 0) as [Hz|Hz].
  { exists [], []. rewrite Hz. split_and!; try done. symmetry. apply (ceil_div_unique 0 _ 0); lia. }
  pose proof (read_runs_total dev partLba partSectors vol V Hlba Hend (Z.to_nat (fv_countOfClusters vol + 2)) (ff_size file) 0 (ff_firstCluster file) 0 dst ltac:(words; lia) ltac:(lia) ltac:(words; lia) ltac:(lia) Hc ltac:(lia) ltac:(lia)) as Ht.
  destruct (read_runs _ _ _ _ _ _ _ _ _) as [d|st|]; [|destruct Ht as [-> | ->]; simpl; set_solver|done]. destruct Ht as (cs & bs & Hch & Hzl & Hb & Hm). exists (ff_firstCluster file :: cs), bs. split_and!; try done.
  pose proof (ceil_div_spec (ff_size file) _ (Z.lt_le_trans 0 512 _ eq_refl (proj1 Hcb))). words. apply (chain_contents_zlen dev partLba partSectors vol V) in Hb as Hzb; [|lia].
  rewrite memcpy_front in Hm by lia. injection Hm as <-. do 2 f_equal. unfold zlen in Hzb. lia.
Qed.

(** C8: Loading a file is safe on every disk.  For any contents of the partition, consistent or not, any path and any
    buffer, mounting, opening and reading returns: no chain makes it loop, no sector, name or chain makes it leave a
    sector or the destination buffer, its failures are BOOT_ERR_IO, BOOT_ERR_FAT, BOOT_ERR_NOT_FOUND and
    BOOT_ERR_TOO_LARGE, and when it succeeds the buffer holds as many bytes of the chain that starts at the cluster the
    directory names as the directory says the file has, and is unchanged behind them. *)
Theorem fat_load_safe path dst dstCap : 0 <= partSectors -> dstCap <= zlen dst ->
  returns (loaded path dst) open_errors (vol ← bootFatMount dev partLba partSectors; file ← bootFatOpen dev vol path; bootFatRead dev vol file dst dstCap).
Proof.
  intros Hps Hcap. pose proof (bootFatMount_spec dev partLba partSectors FD ltac:(words; lia) Hps ltac:(lia)) as Hm. unfold loaded. destruct (bootFatMount dev partLba partSectors) as [vol|st|]; [|destruct Hm as [-> | ->]; simpl; set_solver|done].
  rewrite fat_bind_ok. pose proof (bootFatOpen_returns dev partLba partSectors vol Hm Hlba Hend path) as Ho. destruct (bootFatOpen dev vol path) as [file|st|] eqn:Eo; [|exact Ho|done]. rewrite fat_bind_ok.
  pose proof (bootFatRead_returns vol file dst dstCap Hm Ho Hcap) as Hr. destruct (bootFatRead dev vol file dst dstCap) as [d|st|]; [|exact Hr..]. destruct Hr as (cs & bs & Hr). exists vol, file, cs, bs. split; [done|]. split; [exact Eo|exact Hr].
Qed.

End Load.

(** ** A sample volume

    65525 clusters of one 512-byte sector behind 32 reserved sectors and two FATs of 512 sectors each, on a disk that goes
    on behind the partition.  The root directory is cluster 2; it holds kernel.elf, 1300 bytes in the clusters 3, 5 and 6. *)

Definition sample_boot : list Z :=
  0xEB :: replicate 10 0 ++ le_bytes 2 512 ++ [1] ++ le_bytes 2 32 ++ [2] ++ le_bytes 2 0 ++ le_bytes 2 0 ++ [0xF8] ++ le_bytes 2 0 ++ replicate 8 0 ++
  le_bytes 4 66581 ++ le_bytes 4 512 ++ le_bytes 2 0 ++ le_bytes 2 0 ++ le_bytes 4 2 ++ replicate 462 0 ++ [0x55; 0xAA].

Definition sample_fat (c : Z) : Z :=
  if c =? 3 then 5 else if c =? 5 then 6 else if c =? 65526 then 65527 else FAT_EOC_MIN.

(** "kernel.elf", "KERNEL  ELF" and "/Kernel.elf". *)
Definition sample_name : list Z := [0x6B; 0x65; 0x72; 0x6E; 0x65; 0x6C; 0x2E; 0x65; 0x6C; 0x66].
Definition sample_short : list Z := [0x4B; 0x45; 0x52; 0x4E; 0x45; 0x4C; 0x20; 0x20; 0x45; 0x4C; 0x46].
Definition sample_path : list Z := [0x2F; 0x4B; 0x65; 0x72; 0x6E; 0x65; 0x6C; 0x2E; 0x65; 0x6C; 0x66].

Definition sample_root : list Z :=
  mjoin (lfn_group sample_name (shortNameChecksum sample_short) 0x40 (lfn_count sample_name)) ++ short_entry sample_short 0x20 0 3 1300 ++ replicate 448 0.

Definition sample_sector (lba : Z) : list Z :=
  if lba =? 0 then sample_boot
  else if (32 <=? lba) && (lba <? 1056) then mjoin ((fun i => le_bytes 4 (sample_fat (((lba - 32) mod 512) * 128 + i))) <$> seqZ 0 128)
  else if lba =? 1056 then sample_root
  else replicate 512 (lba mod 256).

Definition sample_disk : BootBlockDev :=
  {| bd_read lba := if (0 <=? lba) && (lba <? 70000) then Some (sample_sector lba) else None; bd_sectorSize := 512; bd_sectorCount := 70000 |}.

#[global] Instance sample_reads : MultiRead sample_disk := {| bd_reads lba n := mjoin <$> mapM (bd_read sample_disk) (seqZ lba n) |}.

#[global] Instance sample_reads_laws : MultiReadLaws sample_disk.
Proof. by split. Qed.

Lemma fat_sector_ok (f : Z -> Z) l : zlen (mjoin ((fun i => le_bytes 4 (f i)) <$> l)) = 4 * zlen l /\ is_bytes (mjoin ((fun i => le_bytes 4 (f i)) <$> l)).
Proof.
  induction l as [|i l [IH1 IH2]]; [split; [done|constructor]|]. rewrite fmap_cons. change (mjoin (?x :: ?y)) with (x ++ mjoin y). rewrite zlen_app, zlen_cons, IH1, zlen_le_bytes. split; [lia|]. apply Forall_app. split; [apply le_bytes_ok|done].
Qed.

Definition all_bytes (l : list Z) : bool := forallb (fun b => (0 <=? b) && (b <? 256)) l.

Lemma all_bytes_ok l : all_bytes l = true -> is_bytes l.
Proof. unfold all_bytes. rewrite forallb_forall. intros H. apply Forall_forall. intros b Hb%list_elem_of_In. apply H in Hb. bprop. words. lia. Qed.

Lemma sample_sector_ok lba : zlen (sample_sector lba) = 512 /\ is_bytes (sample_sector lba).
Proof.
  unfold sample_sector. destruct (lba =? 0); [split; [vm_compute; reflexivity|apply all_bytes_ok; vm_compute; reflexivity]|]. destruct (_ && _).
  { destruct (fat_sector_ok (fun i => sample_fat (((lba - 32) mod 512) * 128 + i)) (seqZ 0 128)) as [-> H]. split; [reflexivity|exact H]. }
  destruct (lba =? 1056); [split; [vm_compute; reflexivity|apply all_bytes_ok; vm_compute; reflexivity]|]. split; [by rewrite zlen_replicate|]. apply Forall_replicate. words. apply Z.mod_pos_bound. lia.
Qed.

#[global] Instance sample_fat_device : FatDevice sample_disk.
Proof.
  split; [split; simpl|simpl; lia|by exists 16].
  - words. lia.
  - words. lia.
  - intros lba s. destruct (_ && _); [|done]. intros [= <-]. apply sample_sector_ok.
  - intros lba s. destruct (_ && _); [|done]. intros [= <-]. apply sample_sector_ok.
Qed.

Definition sample_vol : BootFatVol := mkVol 32 1056 512 1 512 2 65525.

Example sample_mounts : bootFatMount sample_disk 0 66581 = FOk sample_vol.
Proof. vm_compute. reflexivity. Qed.

Lemma sample_vol_ok : vol_ok sample_disk 0 66581 sample_vol.
Proof. pose proof (bootFatMount_spec sample_disk 0 66581 _ ltac:(words; lia) ltac:(lia) ltac:(lia)) as H. rewrite sample_mounts in H. exact H. Qed.

Definition sample_bytes : list Z := replicate 512 33 ++ replicate 512 35 ++ replicate 276 36.

(** The whole load of "/Kernel.elf", evaluated. *)
Example sample_load : (vol ← bootFatMount sample_disk 0 66581; file ← bootFatOpen sample_disk vol (Some sample_path); bootFatRead sample_disk vol file (replicate 1400 0) 1400) = FOk (sample_bytes ++ replicate 100 0).
Proof. vm_compute. reflexivity. Qed.

(** The FAT entry of the last cluster of the volume names a cluster the volume does not have; read as a neighbour, it is not
    checked, and the bytes stored are those of the first sector behind the partition. *)
Example sample_overrun : bootFatRead sample_disk sample_vol (mkFile 65526 1024) (replicate 1024 0) 1024 = FOk (sample_sector 66580 ++ sample_sector 66581).
Proof. vm_compute. reflexivity. Qed.

Lemma bootFatMount_sound_witness : match bootFatMount sample_disk 0 66581 with FOk vol => vol_ok sample_disk 0 66581 vol | FErr st => st = BOOT_ERR_IO \/ st = BOOT_ERR_FAT | FFault => False end.
Proof. apply (bootFatMount_sound sample_disk 0 66581 sample_fat_device); words; lia. Defined.

Lemma bootFatRead_exact_witness : bootFatRead sample_disk sample_vol (mkFile 3 1300) (replicate 1400 0) 1400 = FOk (sample_bytes ++ replicate 100 0).
Proof.
  exact (bootFatRead_exact sample_disk 0 66581 ltac:(lia) ltac:(lia) sample_vol (mkFile 3 1300) (replicate 1400 0) 1400 [3; 5; 6] sample_bytes sample_vol_ok
    ltac:(simpl; lia) ltac:(vm_compute; split; discriminate) eq_refl ltac:(vm_compute; auto) ltac:(repeat constructor; simpl; lia) ltac:(vm_compute; reflexivity) ltac:(vm_compute; reflexivity)).
Defined.

Lemma fat_load_safe_witness : returns (loaded sample_disk 0 66581 (Some sample_path) (replicate 1400 0)) open_errors
  (vol ← bootFatMount sample_disk 0 66581; file ← bootFatOpen sample_disk vol (Some sample_path); bootFatRead sample_disk vol file (replicate 1400 0) 1400).
Proof. apply (fat_load_safe sample_disk 0 66581); [lia|lia|lia|vm_compute; discriminate]. Defined.

Lemma long_name_found_witness : dir_entries 16 0 sample_root sample_name (lfnReset lfn0) = Some (EntryFound 0x20 3 1300).
Proof.
  exact (long_name_found sample_name sample_short 0x20 0 3 1300 sample_name [] (replicate 448 0) (lfnReset lfn0) 14 0x4B
    ltac:(repeat constructor; simpl; lia) ltac:(vm_compute; split; discriminate) eq_refl eq_refl eq_refl ltac:(lia) ltac:(lia) ltac:(discriminate) eq_refl
    ltac:(words; lia) ltac:(words; lia) ltac:(words; lia) eq_refl eq_refl).
Defined.
