(* ===== verification/Gpt.v ===== *)
(** * The loader's GPT reader (src/boot/common/bootgpt.c)

    Finds a partition by type GUID through a [BootBlockDev]. Every buffer access is
    a [peek]: a model run that ends in [None] has read outside the sector buffer.
    The theorems: the reader never does; its one-sector-at-a-time scan is equivalent
    to reading the whole array, checking its CRC and taking the first match; and a
    damaged primary header falls back to the backup. *)

From stdpp Require Import strings.
From S2P Require Import Prelude BootTypes Crc32 BlockDev.

(** Models src/boot/common/bootgpt.c:12-13, BOOT_GPT_TYPE_GUID_ESP. *)
Definition BOOT_GPT_TYPE_GUID_ESP : list Z :=
  [0x28; 0x73; 0x2A; 0xC1; 0x1F; 0xF8; 0xD2; 0x11;
   0xBA; 0x4B; 0x00; 0xA0; 0xC9; 0x3E; 0xC9; 0x3B].

(** Models src/boot/common/bootgpt.c:15-35, GPT_HEADER_MIN_SIZE and the layout offsets. *)
Definition GPT_HEADER_MIN_SIZE : Z := 92.
Definition GPT_MAX_PARTITION_ENTRIES : Z := 1024.
Definition GPT_MIN_ENTRY_SIZE : Z := 128.

(** Models src/boot/common/bootgpt.c:37-45, GptHeaderFields. *)
Record GptHeaderFields := {
  gh_myLba : Z; gh_firstUsableLba : Z; gh_lastUsableLba : Z; gh_diskGuid : list Z;
  gh_entryLba : Z; gh_entryCount : Z; gh_entrySize : Z; gh_arrayCrc32 : Z }.

(** Models src/boot/common/include/bootgpt.h:16-20, BootGptPart. *)
Record BootGptPart := {
  gp_typeGuid : list Z; gp_uniqueGuid : list Z; gp_startLba : Z; gp_endLba : Z }.

(** Models src/boot/common/bootgpt.c:47-54, bytesEqual. *)
Fixpoint bytesEqual (a b : list Z) : bool :=
  match a, b with
  | x :: a, y :: b => if negb (x =? y) then false else bytesEqual a b
  | _, _ => true
  end.

(** Models src/boot/common/bootgpt.c:56-58, isPowerOfTwo. *)
Definition isPowerOfTwo (v : Z) : bool := negb (v =? 0) && ((v .& u32 (v - 1)) =? 0).

(** "EFI PART" *)
Definition GPT_SIG : list Z := [0x45; 0x46; 0x49; 0x20; 0x50; 0x41; 0x52; 0x54].

(** The outer [option] is the bounds check; [Some None] is a [false] return. *)
(** Models src/boot/common/bootgpt.c:62-116, validateHeader. *)
Definition validateHeader (dev : BootBlockDev) (lba : Z) : option (option GptHeaderFields) :=
  match bd_read dev lba with
  | None => Some None
  | Some scratch =>
      sig ← peek scratch 0 8;
      if negb (bytesEqual sig GPT_SIG) then Some None else
      revision ← peek_le scratch 8 4;
      headerSize ← peek_le scratch 12 4;
      storedCrc ← peek_le scratch 16 4;
      if negb ((revision >>! 16) =? 1) then Some None else
      if (headerSize <? GPT_HEADER_MIN_SIZE) || (headerSize >? bd_sectorSize dev) then Some None else
      zeroed ← bootMemcpy scratch 16 [0; 0; 0; 0];
      hdr ← peek zeroed 0 headerSize;
      if negb (bootCrc32 hdr =? storedCrc) then Some None else
      myLba ← peek_le scratch 24 8;
      if negb (myLba =? lba) then Some None else
      firstUsableLba ← peek_le scratch 40 8;
      lastUsableLba ← peek_le scratch 48 8;
      if firstUsableLba >? lastUsableLba then Some None else
      diskGuid ← peek scratch 56 16;
      entryLba ← peek_le scratch 72 8;
      entryCount ← peek_le scratch 80 4;
      entrySize ← peek_le scratch 84 4;
      arrayCrc32 ← peek_le scratch 88 4;
      if entryCount >? GPT_MAX_PARTITION_ENTRIES then Some None else
      if (entrySize <? GPT_MIN_ENTRY_SIZE) || (entrySize >? bd_sectorSize dev)
         || negb (isPowerOfTwo entrySize) || negb (bd_sectorSize dev mod entrySize =? 0)
      then Some None else
      Some (Some {| gh_myLba := myLba; gh_firstUsableLba := firstUsableLba;
                    gh_lastUsableLba := lastUsableLba; gh_diskGuid := diskGuid;
                    gh_entryLba := entryLba; gh_entryCount := entryCount;
                    gh_entrySize := entrySize; gh_arrayCrc32 := arrayCrc32 |})
  end.

(** Models src/boot/common/bootgpt.c:146-164, scanArray (one entry, at offset [off] of the
    buffer; the match, if it is one). *)
Definition check_entry (fields : GptHeaderFields) (typeGuid buf : list Z) (off : Z)
    : option (option BootGptPart) :=
  type ← peek buf (off + 0) 16;
  if negb (bytesEqual type typeGuid) then Some None else
  startLba ← peek_le buf (off + 32) 8;
  endLba ← peek_le buf (off + 40) 8;
  if (startLba >? endLba) || (startLba <? gh_firstUsableLba fields)
     || (endLba >? gh_lastUsableLba fields)
  then Some None else
  uniqueGuid ← peek buf (off + 16) 16;
  Some (Some {| gp_typeGuid := type; gp_uniqueGuid := uniqueGuid;
                gp_startLba := startLba; gp_endLba := endLba |}).

(** Models src/boot/common/bootgpt.c:144-165, scanArray (the entries of one sector, [n] of them
    left from entry [i] on). *)
Fixpoint scan_entries (fields : GptHeaderFields) (typeGuid buf : list Z) (n : nat) (i entryIndex : Z)
    (found : option BootGptPart) : option (Z * option BootGptPart) :=
  match n with
  | O => Some (entryIndex, found)
  | S n =>
      if negb (entryIndex <? gh_entryCount fields) then Some (entryIndex, found) else
      found ← match found with
              | Some _ => Some found
              | None => check_entry fields typeGuid buf (i * gh_entrySize fields)
              end;
      scan_entries fields typeGuid buf n (i + 1) (u32 (entryIndex + 1)) found
  end.

(** Each iteration lowers [bytesLeft], so as many iterations as bytes suffice. *)
(** Models src/boot/common/bootgpt.c:132-175, scanArray (the sector loop and the verdict). *)
Fixpoint scan_sectors (fuel : nat) (dev : BootBlockDev) (fields : GptHeaderFields)
    (typeGuid : list Z) (sectorOffset bytesLeft crc entryIndex : Z) (found : option BootGptPart)
    : option (BootStatus * option BootGptPart) :=
  let finish :=
    if negb (bootCrc32Finish crc =? gh_arrayCrc32 fields) then Some (BOOT_ERR_GPT, None)
    else match found with
         | None => Some (BOOT_ERR_NOT_FOUND, None)
         | Some m => Some (BOOT_OK, Some m)
         end in
  match fuel with
  | O => finish
  | S fuel =>
      if negb (bytesLeft >? 0) then finish else
      match bd_read dev (gh_entryLba fields +! sectorOffset) with
      | None => Some (BOOT_ERR_IO, None)
      | Some scratch =>
          let chunk := if bd_sectorSize dev >? bytesLeft then bytesLeft else bd_sectorSize dev in
          bytes ← peek scratch 0 chunk;
          let crc := bootCrc32Update crc bytes in
          let entriesInChunk := chunk / gh_entrySize fields in
          '(entryIndex, found) ←
            scan_entries fields typeGuid scratch (Z.to_nat entriesInChunk) 0 entryIndex found;
          scan_sectors fuel dev fields typeGuid (sectorOffset +! 1) (bytesLeft -! chunk) crc
            entryIndex found
      end
  end.

(** Models src/boot/common/bootgpt.c:123-176, scanArray. *)
Definition scanArray (dev : BootBlockDev) (fields : GptHeaderFields) (typeGuid : list Z)
    : option (BootStatus * option BootGptPart) :=
  let totalBytes := gh_entryCount fields *! gh_entrySize fields in
  scan_sectors (Z.to_nat totalBytes) dev fields typeGuid 0 totalBytes BOOT_CRC32_INIT 0 None.

(** One header and its array: the status, the match and the disk GUID. *)
Definition try_header (dev : BootBlockDev) (lba : Z) (typeGuid : list Z)
    : option (BootStatus * option BootGptPart * list Z) :=
  h ← validateHeader dev lba;
  match h with
  | None => Some (BOOT_ERR_GPT, None, [])
  | Some fields =>
      '(st, part) ← scanArray dev fields typeGuid; Some (st, part, gh_diskGuid fields)
  end.

(** On success, the partition ([*out]) and the disk GUID. *)
(** Models src/boot/common/bootgpt.c:178-203, bootGptFindPartition. *)
Definition bootGptFindPartition (dev : BootBlockDev) (typeGuid : list Z)
    : option (BootStatus * option (BootGptPart * list Z)) :=
  if bd_sectorSize dev =? 0 then Some (BOOT_ERR_GPT, None) else
  '(st, part, guid) ← try_header dev 1 typeGuid;
  '(st, part, guid) ←
    (if negb (bool_decide (st = BOOT_OK)) && negb (bool_decide (st = BOOT_ERR_NOT_FOUND))
        && negb (bd_sectorCount dev =? 0)
     then try_header dev (bd_sectorCount dev -! 1) typeGuid
     else Some (st, part, guid));
  match st, part with
  | BOOT_OK, Some p => Some (BOOT_OK, Some (p, guid))
  | _, _ => Some (st, None)
  end.

(** ** Reading is in bounds *)

Lemma bind_is_Some {A B} (x : option A) (f : A -> option B) :
  is_Some x -> (forall a, x = Some a -> is_Some (f a)) -> is_Some (x ≫= f).
Proof. intros [a ->] H. by apply H. Qed.

Lemma peek_le_is_Some buf off n :
  0 <= off -> 0 <= n -> off + n <= zlen buf -> is_Some (peek_le buf off n).
Proof. intros. unfold peek_le. apply fmap_is_Some. by apply peek_is_Some. Qed.

(** Walks through a monadic body, proving each access in bounds. *)
Ltac in_bounds :=
  repeat match goal with
  | |- is_Some (Some _) => eauto
  | |- is_Some (if ?b then _ else _) => let E := fresh "E" in destruct b eqn:E
  | |- is_Some (peek _ _ _ ≫= _) => apply bind_is_Some; [apply peek_is_Some; lia|intros ? ?]
  | |- is_Some (peek_le _ _ _ ≫= _) => apply bind_is_Some; [apply peek_le_is_Some; lia|intros ? ?]
  end.

Section Device.
Context (dev : BootBlockDev) `{!SectorDevice dev}.

Lemma validateHeader_in_bounds lba : 20 <= bd_sectorSize dev -> is_Some (validateHeader dev lba).
Proof.
  intros Hs. unfold validateHeader. destruct (bd_read dev lba) as [s|] eqn:Er; [|eauto].
  pose proof (sector_length _ _ Er) as Hl. pose proof (sector_bytes _ _ Er) as Hb.
  in_bounds. bprop. unfold GPT_HEADER_MIN_SIZE in *.
  assert (Hz : is_Some (bootMemcpy s 16 [0; 0; 0; 0]))
    by (apply bootMemcpy_is_Some; unfold zlen in *; simpl; lia).
  apply bind_is_Some; [done|]. intros z Hz'. apply bootMemcpy_zlen in Hz'.
  in_bounds.
Qed.

(** What a validated header guarantees. *)
Record header_ok (lba : Z) (f : GptHeaderFields) : Prop := {
  ho_lba : gh_myLba f = lba;
  ho_usable : gh_firstUsableLba f <= gh_lastUsableLba f;
  ho_count : 0 <= gh_entryCount f <= GPT_MAX_PARTITION_ENTRIES;
  ho_size : GPT_MIN_ENTRY_SIZE <= gh_entrySize f <= bd_sectorSize dev;
  ho_div : bd_sectorSize dev mod gh_entrySize f = 0;
  ho_guid : zlen (gh_diskGuid f) = 16 }.

Lemma validateHeader_ok lba f : validateHeader dev lba = Some (Some f) -> header_ok lba f.
Proof.
  unfold validateHeader. destruct (bd_read dev lba) as [s|] eqn:Er; [|done].
  pose proof (sector_bytes _ _ Er) as Hb.
  repeat (match goal with
  | |- ((if ?b then Some None else _) = Some (Some _)) -> _ => destruct b eqn:?; [done|]
  | |- ((?x ≫= _) = Some (Some _)) -> _ => destruct x eqn:?; [|done]
  end; cbn [mbind option_bind]).
  intros [= <-]. bprop.
  match goal with Hc : peek_le s 80 4 = Some _ |- _ => apply peek_le_range in Hc; [|done] end.
  match goal with Hg : peek s 56 16 = Some _ |- _ => apply peek_Some in Hg end.
  split; simpl; try lia; try done; try tauto.
Qed.
End Device.

(** ** The scan against its reference *)

Lemma bytesEqual_iff a b : length a = length b -> bytesEqual a b = true <-> a = b.
Proof.
  revert b. induction a as [|x a IH]; intros [|y b] Hl; simplify_eq/=; [done|].
  destruct (x =? y) eqn:E; bprop; simpl.
  - rewrite IH by done. subst. split; congruence.
  - split; congruence.
Qed.

Section Scan.
Context (fields : GptHeaderFields) (typeGuid : list Z).
Hypothesis Hsize : GPT_MIN_ENTRY_SIZE <= gh_entrySize fields < 2 ^ 32.
Hypothesis Hcount : 0 <= gh_entryCount fields <= GPT_MAX_PARTITION_ENTRIES.

Ltac gconsts := unfold GPT_MIN_ENTRY_SIZE, GPT_MAX_PARTITION_ENTRIES in *.

(** The first entry that is a match, from entry [i] on. *)
Fixpoint first_match (arr : list Z) (n : nat) (i : Z) : option BootGptPart :=
  match n with
  | O => None
  | S n => match check_entry fields typeGuid arr (i * gh_entrySize fields) with
           | Some (Some p) => Some p
           | _ => first_match arr n (i + 1)
           end
  end.

Lemma check_entry_in_bounds buf off :
  0 <= off -> off + gh_entrySize fields <= zlen buf -> is_Some (check_entry fields typeGuid buf off).
Proof. gconsts. intros. unfold check_entry. in_bounds. Qed.

Lemma peek_le_app_l a b off n : 0 <= n -> off + n <= zlen a -> peek_le (a ++ b) off n = peek_le a off n.
Proof. intros. unfold peek_le. by rewrite peek_app_l. Qed.
Lemma peek_le_app_r a b off n :
  0 <= n -> 0 <= off -> peek_le (a ++ b) (zlen a + off) n = peek_le b off n.
Proof. intros. unfold peek_le. rewrite peek_app_r by lia. do 2 f_equal. lia. Qed.

Lemma check_entry_app_l a b off :
  0 <= off -> off + gh_entrySize fields <= zlen a ->
  check_entry fields typeGuid (a ++ b) off = check_entry fields typeGuid a off.
Proof.
  gconsts. intros. unfold check_entry.
  by rewrite !peek_le_app_l, !peek_app_l by lia.
Qed.

Lemma check_entry_app_r a b off :
  0 <= off -> check_entry fields typeGuid (a ++ b) (zlen a + off) = check_entry fields typeGuid b off.
Proof.
  intros. unfold check_entry. rewrite <- !Z.add_assoc, !peek_le_app_r by lia.
  rewrite !peek_app_r by lia.
  by replace (zlen a + (off + 0) - zlen a) with (off + 0) by lia;
     replace (zlen a + (off + 16) - zlen a) with (off + 16) by lia.
Qed.

Lemma first_match_app_l a b n i :
  0 <= i -> (i + Z.of_nat n) * gh_entrySize fields <= zlen a ->
  first_match (a ++ b) n i = first_match a n i.
Proof.
  revert i. induction n as [|n IH]; intros i Hi Hn; cbn [first_match]; [done|].
  gconsts. rewrite check_entry_app_l by nia. by rewrite IH by lia.
Qed.

Lemma first_match_app_r a b n k i :
  0 <= i -> zlen a = k * gh_entrySize fields ->
  first_match (a ++ b) n (k + i) = first_match b n i.
Proof.
  revert i. induction n as [|n IH]; intros i Hi Hk; cbn [first_match]; [done|].
  gconsts. rewrite Z.mul_add_distr_r, <- Hk, check_entry_app_r by nia.
  by rewrite <- Z.add_assoc, IH by lia.
Qed.

Definition or_else {A} (a b : option A) : option A := match a with Some _ => a | None => b end.

Lemma first_match_split arr n m i :
  first_match arr (n + m) i = or_else (first_match arr n i) (first_match arr m (i + Z.of_nat n)).
Proof.
  revert i. induction n as [|n IH]; intros i; cbn [first_match Nat.add].
  - simpl. by rewrite Z.add_0_r.
  - destruct (check_entry _ _ _ _) as [[p|]|]; [done|..]; rewrite IH;
      by replace (i + 1 + Z.of_nat n) with (i + Z.of_nat (S n)) by lia.
Qed.

Lemma first_match_app a b n m :
  zlen a = Z.of_nat n * gh_entrySize fields ->
  first_match (a ++ b) (n + m) 0 = or_else (first_match a n 0) (first_match b m 0).
Proof.
  intros Ha. rewrite first_match_split, first_match_app_l by lia. f_equal.
  replace (0 + Z.of_nat n) with (Z.of_nat n + 0) by lia. by apply first_match_app_r.
Qed.

Lemma scan_entries_spec buf n i e found :
  0 <= i -> 0 <= e -> (i + Z.of_nat n) * gh_entrySize fields <= zlen buf ->
  e + Z.of_nat n <= gh_entryCount fields ->
  scan_entries fields typeGuid buf n i e found =
    Some (e + Z.of_nat n, or_else found (first_match buf n i)).
Proof.
  revert i e found. induction n as [|n IH]; intros i e found Hi He Hb Hc; cbn [scan_entries first_match].
  { rewrite Z.add_0_r. by destruct found. }
  rewrite (proj2 (Z.ltb_lt _ _)) by lia. cbn [negb].
  rewrite (u32_small (e + 1)) by (gconsts; words; lia).
  destruct (check_entry_in_bounds buf (i * gh_entrySize fields)) as [r Hr]; [gconsts; nia..|].
  destruct found as [p|].
  - cbn [mbind option_bind]. rewrite IH by lia. do 2 f_equal. lia.
  - rewrite Hr. cbn [mbind option_bind]. rewrite IH by lia. f_equal. f_equal; [lia|].
    by destruct r.
Qed.
End Scan.

(** The reference: the whole array in memory, then its CRC, then the first match. *)
Fixpoint read_sectors (dev : BootBlockDev) (n : nat) (lba k : Z) : option (list Z) :=
  match n with
  | O => Some []
  | S n => s ← bd_read dev (lba +! k); rest ← read_sectors dev n lba (k +! 1); Some (s ++ rest)
  end.

Definition sectors_for (bytes sectorSize : Z) : nat :=
  Z.to_nat ((bytes + sectorSize - 1) / sectorSize).

Definition verdict_of (fields : GptHeaderFields) (crc : Z) (m : option BootGptPart)
    : BootStatus * option BootGptPart :=
  if negb (bootCrc32Finish crc =? gh_arrayCrc32 fields) then (BOOT_ERR_GPT, None)
  else match m with None => (BOOT_ERR_NOT_FOUND, None) | Some p => (BOOT_OK, Some p) end.

Definition scan_reference (dev : BootBlockDev) (fields : GptHeaderFields) (typeGuid : list Z)
    : BootStatus * option BootGptPart :=
  let total := gh_entryCount fields * gh_entrySize fields in
  match read_sectors dev (sectors_for total (bd_sectorSize dev)) (gh_entryLba fields) 0 with
  | None => (BOOT_ERR_IO, None)
  | Some bytes =>
      let arr := take (Z.to_nat total) bytes in
      if negb (bootCrc32 arr =? gh_arrayCrc32 fields) then (BOOT_ERR_GPT, None)
      else match first_match fields typeGuid arr (Z.to_nat (gh_entryCount fields)) 0 with
           | None => (BOOT_ERR_NOT_FOUND, None)
           | Some p => (BOOT_OK, Some p)
           end
  end.

Lemma sectors_for_step bytes ss :
  0 < ss -> 0 < bytes ->
  sectors_for bytes ss = S (sectors_for (bytes - Z.min ss bytes) ss).
Proof.
  intros Hs Hb. unfold sectors_for. destruct (Z.le_ge_cases ss bytes).
  - rewrite Z.min_l by lia. replace (bytes + ss - 1) with (bytes - ss + ss - 1 + 1 * ss) by lia.
    rewrite Z.div_add by lia. rewrite Z2Nat.inj_add; [|apply Z.div_pos; lia|lia]. simpl. lia.
  - rewrite Z.min_r by lia. rewrite Z.sub_diag.
    rewrite (Z.div_small (0 + ss - 1)) by lia.
    replace (bytes + ss - 1) with (bytes - 1 + 1 * ss) by lia.
    rewrite Z.div_add, Z.div_small by lia. done.
Qed.

Section Equivalence.
Context (dev : BootBlockDev) `{!SectorDevice dev}.
Context (fields : GptHeaderFields) (typeGuid : list Z) (lba0 : Z).
Hypothesis Hok : header_ok dev lba0 fields.

Local Abbreviation size := (gh_entrySize fields).
Local Abbreviation count := (gh_entryCount fields).
Local Abbreviation ss := (bd_sectorSize dev).

(** What is left to do from entry [e], sector [k] on. *)
Definition scan_rest (k e crc : Z) (found : option BootGptPart) : BootStatus * option BootGptPart :=
  match read_sectors dev (sectors_for ((count - e) * size) ss) (gh_entryLba fields) k with
  | None => (BOOT_ERR_IO, None)
  | Some bytes =>
      let arr := take (Z.to_nat ((count - e) * size)) bytes in
      verdict_of fields (bootCrc32Update crc arr)
        (or_else found (first_match fields typeGuid arr (Z.to_nat (count - e)) 0))
  end.

Lemma scan_done fuel k crc found :
  0 < ss ->
  scan_sectors fuel dev fields typeGuid k 0 crc count found = Some (scan_rest k count crc found).
Proof.
  intros Hs. unfold scan_rest. rewrite Z.sub_diag, Z.mul_0_l. unfold sectors_for.
  rewrite (Z.div_small (0 + ss - 1)) by lia. change (Z.to_nat 0) with 0%nat.
  cbn [read_sectors take first_match]. unfold verdict_of, bootCrc32Update.
  destruct fuel; cbn [scan_sectors fold_left]; change (negb (0 >? 0)) with true; cbn iota;
    by destruct (bootCrc32Finish crc =? _), found.
Qed.

(** A sector holds a whole number of entries, so does its used part. *)
Lemma chunk_entries e :
  header_ok dev lba0 fields -> 0 <= e < count ->
  exists m : nat, Z.min ss ((count - e) * size) = Z.of_nat m * size /\
    Z.of_nat m <= count - e /\ (0 < m)%nat.
Proof.
  intros [_ _ Hc Hsz Hdiv _] He. unfold GPT_MIN_ENTRY_SIZE in *.
  apply Z.mod_divide in Hdiv as [q Hq]; [|lia]. exists (Z.to_nat (Z.min q (count - e))).
  rewrite Hq. nia.
Qed.

(** The array from entry [e] on: this sector's entries, then the rest. *)
Lemma rest_split e (m : nat) (s rest : list Z) :
  zlen s = ss -> 0 < size -> 0 <= e < count ->
  Z.min ss ((count - e) * size) = Z.of_nat m * size -> Z.of_nat m <= count - e ->
  take (Z.to_nat ((count - e) * size)) (s ++ rest) =
  take (Z.to_nat (Z.of_nat m * size)) s ++
  take (Z.to_nat ((count - (e + Z.of_nat m)) * size)) rest.
Proof.
  intros Hsl Hsz He Hmin Hme. destruct (Z.le_ge_cases ss ((count - e) * size)) as [Hle|Hge].
  - rewrite Z.min_l in Hmin by lia. rewrite take_app, (take_ge s) by (unfold zlen in *; nia).
    rewrite (take_ge s) by (unfold zlen in *; nia). do 2 f_equal. unfold zlen in *. nia.
  - rewrite Z.min_r in Hmin by lia. assert (count - (e + Z.of_nat m) = 0) as -> by nia.
    simpl (take _ rest). rewrite app_nil_r, take_app_le by (unfold zlen in *; nia).
    f_equal. nia.
Qed.

Lemma scan_sectors_spec fuel k e crc found :
  0 <= k -> 0 <= e <= count -> (count - e) * size <= Z.of_nat fuel ->
  scan_sectors fuel dev fields typeGuid k ((count - e) * size) crc e found =
  Some (scan_rest k e crc found).
Proof.
  pose proof Hok as [_ _ Hc Hsz Hdiv _]. pose proof sector_size_ok as Hss.
  unfold GPT_MIN_ENTRY_SIZE, GPT_MAX_PARTITION_ENTRIES in *. unfold is_u32 in Hss.
  revert k e crc found. induction fuel as [|fuel IH]; intros k e crc found Hk He Hf;
    (destruct (decide (e = count)) as [-> |Hne];
     [rewrite Z.sub_diag, Z.mul_0_l; apply scan_done; lia|]); [nia|].
  destruct (chunk_entries e Hok ltac:(lia)) as (m & Hmin & Hme & Hm0).
  cbn [scan_sectors]. unfold scan_rest. 
  rewrite (sectors_for_step _ ss) by nia. cbn [read_sectors].
  rewrite Z.gtb_ltb, (proj2 (Z.ltb_lt 0 _)) by nia. cbn [negb].
  destruct (bd_read dev _) as [s|] eqn:Er; [|done]. cbn [mbind option_bind].
  pose proof (sector_length _ _ Er) as Hsl.
  set (L := (count - e) * size) in *.
  assert (Hchunk : (if ss >? L then L else ss) = Z.of_nat m * size)
    by (destruct (_ >? _) eqn:?; bprop; lia).
  rewrite Hchunk, Hmin, Z.div_mul, Nat2Z.id, peek_inside by nia. cbn [mbind option_bind].
  rewrite scan_entries_spec by (unfold GPT_MIN_ENTRY_SIZE, GPT_MAX_PARTITION_ENTRIES; nia).
  cbn [mbind option_bind].
  assert (HL' : L -! Z.of_nat m * size = (count - (e + Z.of_nat m)) * size)
    by (rewrite u64_small; [subst L; lia|words; nia]).
  rewrite HL'.
  replace (L - Z.of_nat m * size) with ((count - (e + Z.of_nat m)) * size) by (subst L; lia).
  rewrite IH by (pose proof (u64_range (k + 1)); words; subst L; nia).
  unfold scan_rest. destruct (read_sectors dev _ _ _) as [rest|]; [|done]. cbn [mbind option_bind].
  change (drop (Z.to_nat 0) s) with s. subst L.
  rewrite (rest_split e m s rest), bootCrc32Update_app by (done || lia). do 2 f_equal.
  set (n := Z.to_nat (Z.of_nat m * size)).
  assert (Hn : zlen (take n s) = Z.of_nat m * size) by (unfold zlen in *; rewrite length_take; nia).
  replace (Z.to_nat (count - e)) with (m + Z.to_nat (count - (e + Z.of_nat m)))%nat by lia.
  rewrite first_match_app by (done || (unfold GPT_MIN_ENTRY_SIZE; lia)).
  rewrite <- (take_drop n s) at 1.
  rewrite first_match_app_l by ((unfold GPT_MIN_ENTRY_SIZE; lia) || nia).
  by destruct found, (first_match _ _ (take n s) _ _).
Qed.

Lemma scanArray_eq : scanArray dev fields typeGuid = Some (scan_reference dev fields typeGuid).
Proof.
  pose proof Hok as [_ _ Hc Hsz _ _]. pose proof sector_size_ok as Hss.
  unfold GPT_MIN_ENTRY_SIZE, GPT_MAX_PARTITION_ENTRIES, is_u32 in *.
  unfold scanArray. rewrite u64_small by (words; nia).
  pose proof (scan_sectors_spec (Z.to_nat (count * size)) 0 0 BOOT_CRC32_INIT None) as H.
  rewrite !Z.sub_0_r in H. rewrite H by nia. unfold scan_rest, scan_reference.
  rewrite !Z.sub_0_r. by destruct (read_sectors dev _ _ _).
Qed.
End Equivalence.

(** ** The whole search against its reference *)

Definition try_reference (dev : BootBlockDev) (lba : Z) (typeGuid : list Z)
    : BootStatus * option BootGptPart * list Z :=
  match validateHeader dev lba with
  | Some (Some f) => (scan_reference dev f typeGuid, gh_diskGuid f)
  | _ => (BOOT_ERR_GPT, None, [])
  end.

(** The primary table decides unless it fails to validate or to be read; then the
    backup does, if the disk's size is known. *)
Definition find_reference (dev : BootBlockDev) (typeGuid : list Z)
    : BootStatus * option (BootGptPart * list Z) :=
  let '(st, part, guid) :=
    match try_reference dev 1 typeGuid with
    | (BOOT_OK, _, _) as r | (BOOT_ERR_NOT_FOUND, _, _) as r => r
    | r => if bd_sectorCount dev =? 0 then r
           else try_reference dev (bd_sectorCount dev -! 1) typeGuid
    end in
  match st with BOOT_OK => (st, (fun p => (p, guid)) <$> part) | _ => (st, None) end.

Lemma scan_reference_cases dev f typeGuid :
  match scan_reference dev f typeGuid with
  | (BOOT_OK, Some p) =>
      exists bytes,
        read_sectors dev (sectors_for (gh_entryCount f * gh_entrySize f) (bd_sectorSize dev))
          (gh_entryLba f) 0 = Some bytes /\
        let arr := take (Z.to_nat (gh_entryCount f * gh_entrySize f)) bytes in
        bootCrc32 arr = gh_arrayCrc32 f /\
        first_match f typeGuid arr (Z.to_nat (gh_entryCount f)) 0 = Some p
  | (BOOT_ERR_IO, None) | (BOOT_ERR_GPT, None) | (BOOT_ERR_NOT_FOUND, None) => True
  | _ => False
  end.
Proof.
  unfold scan_reference. destruct (read_sectors _ _ _ _) as [bytes|]; [|done].
  destruct (_ =? _) eqn:E; simpl; [|done]. destruct (first_match _ _ _ _ _) eqn:Ef; [|done].
  bprop. eauto.
Qed.

(** The header the search turns to last. *)
Definition last_header (dev : BootBlockDev) : Z :=
  if bd_sectorCount dev =? 0 then 1 else bd_sectorCount dev -! 1.

Lemma read_sectors_fails dev n lba k : read_sectors dev n lba k = None -> exists l, bd_read dev l = None.
Proof.
  revert k. induction n as [|n IH]; intros k; cbn [read_sectors]; [done|].
  destruct (bd_read dev _) as [s|] eqn:E; cbn [mbind option_bind]; [|eauto].
  destruct (read_sectors dev n lba _) eqn:Er; [done|eauto].
Qed.

Lemma try_reference_cases dev lba typeGuid :
  match try_reference dev lba typeGuid with
  | (BOOT_OK, Some _, _) | (BOOT_ERR_GPT, None, _) | (BOOT_ERR_NOT_FOUND, None, _) => True
  | (BOOT_ERR_IO, None, _) => exists l, bd_read dev l = None
  | _ => False
  end.
Proof.
  unfold try_reference. destruct (validateHeader dev lba) as [[f|]|]; try done.
  unfold scan_reference. destruct (read_sectors _ _ _ _) as [bytes|] eqn:Er; [|by eapply read_sectors_fails].
  destruct (negb _); [done|]. by destruct (first_match _ _ _ _ _).
Qed.

Lemma find_reference_cases dev typeGuid :
  match find_reference dev typeGuid with
  | (BOOT_OK, Some _) | (BOOT_ERR_GPT, None) | (BOOT_ERR_NOT_FOUND, None) => True
  | (BOOT_ERR_IO, None) => exists l, bd_read dev l = None
  | _ => False
  end.
Proof.
  unfold find_reference. pose proof (try_reference_cases dev 1 typeGuid) as H1.
  pose proof (try_reference_cases dev (bd_sectorCount dev -! 1) typeGuid) as H2.
  destruct (try_reference dev 1 typeGuid) as [[[] [p1|]] g1]; try done;
    (destruct (bd_sectorCount dev =? 0); [done|]);
    by destruct (try_reference dev _ typeGuid) as [[[] [p2|]] g2].
Qed.

Lemma try_header_eq dev lba typeGuid :
  SectorDevice dev -> 20 <= bd_sectorSize dev ->
  try_header dev lba typeGuid = Some (try_reference dev lba typeGuid).
Proof.
  intros Hdev Hs. unfold try_header, try_reference.
  destruct (validateHeader_in_bounds dev lba Hs) as [[f|] Hv]; rewrite Hv; [|done].
  cbn [mbind option_bind]. apply validateHeader_ok in Hv; [|done].
  rewrite (scanArray_eq dev f typeGuid lba Hv). cbn [mbind option_bind].
  by destruct (scan_reference _ _ _).
Qed.

Lemma find_eq dev typeGuid :
  SectorDevice dev -> 20 <= bd_sectorSize dev ->
  bootGptFindPartition dev typeGuid = Some (find_reference dev typeGuid).
Proof.
  intros Hdev Hs. unfold bootGptFindPartition, find_reference.
  rewrite (proj2 (Z.eqb_neq (bd_sectorSize dev) 0)) by lia.
  rewrite !try_header_eq by done. cbn [mbind option_bind].
  pose proof (try_reference_cases dev 1 typeGuid) as H1.
  pose proof (try_reference_cases dev (bd_sectorCount dev -! 1) typeGuid) as H2.
  destruct (try_reference dev 1 typeGuid) as [[[] [p|]] g]; try done; simpl.
  all: destruct (bd_sectorCount dev =? 0); simpl; try done.
  all: by destruct (try_reference dev (bd_sectorCount dev -! 1) typeGuid) as [[[] [p'|]] g'].
Qed.

Lemma check_entry_sound f typeGuid arr off p :
  zlen typeGuid = 16 -> check_entry f typeGuid arr off = Some (Some p) ->
  gp_typeGuid p = typeGuid /\
  gh_firstUsableLba f <= gp_startLba p /\ gp_startLba p <= gp_endLba p /\
  gp_endLba p <= gh_lastUsableLba f.
Proof.
  intros Hl. unfold check_entry.
  repeat (match goal with
  | |- ((if ?b then Some None else _) = Some (Some _)) -> _ => destruct b eqn:?; [done|]
  | |- ((?x ≫= _) = Some (Some _)) -> _ => destruct x eqn:?; [|done]
  end; cbn [mbind option_bind]).
  intros [= <-]. bprop. simpl. split; [|lia].
  match goal with Ht : peek _ _ 16 = Some ?t, Hq : bytesEqual ?t _ = true |- _ =>
    apply peek_Some in Ht; apply bytesEqual_iff in Hq; [done|unfold zlen in *; lia] end.
Qed.

Lemma first_match_sound f typeGuid arr n i p :
  first_match f typeGuid arr n i = Some p ->
  exists j, i <= j < i + Z.of_nat n /\
    check_entry f typeGuid arr (j * gh_entrySize f) = Some (Some p).
Proof.
  revert i. induction n as [|n IH]; intros i; cbn [first_match]; [done|].
  destruct (check_entry _ _ _ _) as [[q|]|] eqn:E.
  - intros [= <-]. exists i. split; [lia|done].
  - intros (j & Hj & Hc)%IH. exists j. split; [lia|done].
  - intros (j & Hj & Hc)%IH. exists j. split; [lia|done].
Qed.

(** ** A small disk for the witnesses: 512-byte sectors, an empty table *)

Definition sample_header (lba entryLba arrayCrc : Z) : list Z :=
  let h crc := GPT_SIG ++ le_bytes 4 0x10000 ++ le_bytes 4 92 ++ le_bytes 4 crc ++ le_bytes 4 0 ++
    le_bytes 8 lba ++ le_bytes 8 0 ++ le_bytes 8 4 ++ le_bytes 8 9 ++ replicate 16 7 ++
    le_bytes 8 entryLba ++ le_bytes 4 4 ++ le_bytes 4 128 ++ le_bytes 4 arrayCrc in
  h (bootCrc32 (h 0)) ++ replicate 420 0.

Definition sample_entry : list Z :=
  BOOT_GPT_TYPE_GUID_ESP ++ replicate 16 3 ++ le_bytes 8 5 ++ le_bytes 8 8 ++ replicate 80 0.

Definition sample_array : list Z := replicate 128 0 ++ sample_entry ++ replicate 256 0.

(** LBA 0 zero, a destroyed primary header, a backup header at LBA 10 with its array at 3. *)
Definition sample_disk : list Z :=
  replicate 1536 0 ++ sample_array ++ replicate 3072 0 ++ sample_header 10 3 (bootCrc32 sample_array).

Definition sample_part : BootGptPart :=
  {| gp_typeGuid := BOOT_GPT_TYPE_GUID_ESP; gp_uniqueGuid := replicate 16 3;
     gp_startLba := 5; gp_endLba := 8 |}.

Lemma sample_disk_bytes : is_bytes sample_disk.
Proof.
  assert (H : forallb (fun b => (0 <=? b) && (b <? 256)) sample_disk = true) by (vm_compute; reflexivity).
  apply Forall_forall. intros x Hx. rewrite forallb_forall in H.
  apply list_elem_of_In, H in Hx. bprop. words. lia.
Qed.

Lemma sample_disk_ok : SectorDevice (image_dev 512 sample_disk).
Proof.
  apply image_dev_ok; [words; lia|lia| |exact sample_disk_bytes].
  vm_compute. split; [discriminate|reflexivity].
Qed.

Lemma sample_disk_find :
  bootGptFindPartition (image_dev 512 sample_disk) BOOT_GPT_TYPE_GUID_ESP =
  Some (BOOT_OK, Some (sample_part, replicate 16 7)).
Proof. vm_compute. reflexivity. Qed.

(** ** Properties *)

(** C32: On any device with sectors of at least 20 bytes the search stays inside its
    sector buffer and terminates. The streaming one-sector scan finds exactly the
    partition that reading the whole entry array, checking its CRC-32 and taking the
    first matching entry gives, with the backup table deciding exactly when the primary
    one is invalid or unreadable and the disk size is known; it reports success exactly
    with a partition, BOOT_ERR_NOT_FOUND exactly when a valid table has no such entry,
    and BOOT_ERR_IO only when the device failed to read a sector. Whenever the last
    header it turns to can be read, the status is that of the reference too. *)
Theorem bootGptFindPartition_reference dev typeGuid :
  SectorDevice dev -> 20 <= bd_sectorSize dev ->
  exists st res, bootGptFindPartition dev typeGuid = Some (st, res) /\
    res = (find_reference dev typeGuid).2 /\ (st = BOOT_OK <-> is_Some res) /\
    (st = BOOT_ERR_NOT_FOUND <-> (find_reference dev typeGuid).1 = BOOT_ERR_NOT_FOUND) /\
    (st = BOOT_ERR_IO -> exists lba, bd_read dev lba = None) /\
    (is_Some (bd_read dev (last_header dev)) -> st = (find_reference dev typeGuid).1).
Proof.
  intros Hdev Hs. exists (find_reference dev typeGuid).1, (find_reference dev typeGuid).2.
  rewrite find_eq, <- surjective_pairing by done. pose proof (find_reference_cases dev typeGuid).
  split_and!; try done.
  - destruct (find_reference dev typeGuid) as [[] [r|]]; simpl; try done; split; try done;
      by intros [? ?].
  - by destruct (find_reference dev typeGuid) as [[] [r|]].
Qed.

Lemma bootGptFindPartition_reference_witness :
  bootGptFindPartition (image_dev 512 sample_disk) BOOT_GPT_TYPE_GUID_ESP =
    Some (BOOT_OK, Some (sample_part, replicate 16 7)) /\
  (find_reference (image_dev 512 sample_disk) BOOT_GPT_TYPE_GUID_ESP).2 =
    Some (sample_part, replicate 16 7).
Proof.
  split; [exact sample_disk_find|].
  destruct (bootGptFindPartition_reference (image_dev 512 sample_disk) BOOT_GPT_TYPE_GUID_ESP sample_disk_ok)
    as (st & res & H & Hr & _); [simpl; lia|].
  rewrite <- Hr. rewrite sample_disk_find in H. congruence.
Defined.

(** A partition that is found is one the disk really describes: it comes from a
    header that validated at LBA 1 or at the last LBA, whose entry array matches its
    CRC-32; its type is the requested one, and its LBA range is ordered and inside
    the header's usable range. *)
Theorem bootGptFindPartition_sound dev typeGuid part guid :
  SectorDevice dev -> 20 <= bd_sectorSize dev -> zlen typeGuid = 16 ->
  bootGptFindPartition dev typeGuid = Some (BOOT_OK, Some (part, guid)) ->
  exists lba f bytes,
    (lba = 1 \/ lba = bd_sectorCount dev -! 1) /\
    validateHeader dev lba = Some (Some f) /\ guid = gh_diskGuid f /\
    read_sectors dev (sectors_for (gh_entryCount f * gh_entrySize f) (bd_sectorSize dev))
      (gh_entryLba f) 0 = Some bytes /\
    bootCrc32 (take (Z.to_nat (gh_entryCount f * gh_entrySize f)) bytes) = gh_arrayCrc32 f /\
    gp_typeGuid part = typeGuid /\
    gh_firstUsableLba f <= gp_startLba part /\ gp_startLba part <= gp_endLba part /\
    gp_endLba part <= gh_lastUsableLba f.
Proof.
  intros Hdev Hs Hg. rewrite find_eq by done. intros [= Hf].
  assert (Htry : exists lba, (lba = 1 \/ lba = bd_sectorCount dev -! 1) /\
    try_reference dev lba typeGuid = (BOOT_OK, Some part, guid)).
  { unfold find_reference in Hf.
    destruct (try_reference dev 1 typeGuid) as [[st1 p1] g1] eqn:E1.
    destruct st1; try (destruct (bd_sectorCount dev =? 0); [discriminate|];
      destruct (try_reference dev (bd_sectorCount dev -! 1) typeGuid) as [[[] [p2|]] g2] eqn:E2;
      simplify_eq/=; eauto); simplify_eq/=.
    destruct p1; simplify_eq/=. eauto. }
  destruct Htry as (lba & Hlba & Htry). exists lba. unfold try_reference in Htry.
  destruct (validateHeader dev lba) as [[f|]|] eqn:Ev; try discriminate.
  injection Htry as Hsc <-.
  pose proof (scan_reference_cases dev f typeGuid) as Hc. rewrite Hsc in Hc.
  destruct Hc as (bytes & Hb & Hcrc & Hm). apply first_match_sound in Hm as (j & _ & Hj).
  apply check_entry_sound in Hj; [|done]. exists f, bytes. split_and!; try done; tauto.
Qed.

Lemma bootGptFindPartition_sound_witness :
  exists lba f, validateHeader (image_dev 512 sample_disk) lba = Some (Some f) /\
    gh_firstUsableLba f <= gp_startLba sample_part.
Proof.
  destruct (bootGptFindPartition_sound (image_dev 512 sample_disk) BOOT_GPT_TYPE_GUID_ESP
    sample_part (replicate 16 7) sample_disk_ok) as (lba & f & _ & _ & Hv & _ & _ & _ & _ & H & _).
  - simpl. lia.
  - reflexivity.
  - exact sample_disk_find.
  - exists lba, f. split; assumption.
Defined.
