(* ===== verification/MkImageGpt.v ===== *)
(** * The disk-image writer's GPT (src/tools/mkimage/gpt.c)

    The host tool writes the protective MBR and the two copies of the GPT into an
    image; the loader (Gpt.v) reads them back at boot. The round trip is the claim:
    whatever layout the writer accepts, the reader finds, from the primary copy and
    from the backup alone. A store outside the image would make a definition return
    [None]; a failed [gptRequire] is [Some None]. *)

From S2P Require Import Prelude BootTypes Crc32 BlockDev Gpt.

(** Models src/tools/mkimage/gpt.h:11-17, GPT_PARTITION_ARRAY_SECTORS. *)
Definition GPT_PARTITION_ARRAY_SECTORS : Z := 32.
Definition GPT_SECTOR_SIZE : Z := 512.
Definition GPT_PARTITION_ENTRY_COUNT : Z := 128.
Definition GPT_PARTITION_ENTRY_SIZE : Z := 128.

(** Models src/tools/mkimage/gpt.h:23-28, GptGuid. *)
Record GptGuid := { data1 : Z; data2 : Z; data3 : Z; data4 : list Z }.

(** The in-memory layout of a GUID on the little-endian build host. *)
Definition guid_bytes (g : GptGuid) : list Z :=
  le_bytes 4 (data1 g) ++ le_bytes 2 (data2 g) ++ le_bytes 2 (data3 g) ++ data4 g.

(** Models src/tools/mkimage/gpt.h:57-63, GptPartitionSpec (the name without its NUL). *)
Record GptPartitionSpec := {
  sp_typeGuid : GptGuid; sp_uniqueGuid : GptGuid; sp_startLba : Z; sp_endLba : Z;
  sp_name : list Z }.

(** Models src/tools/mkimage/gpt.c:29-30, GPT_GUID_ESP. *)
Definition GPT_GUID_ESP : GptGuid :=
  {| data1 := 0xC12A7328; data2 := 0xF81F; data3 := 0x11D2;
     data4 := [0xBA; 0x4B; 0x00; 0xA0; 0xC9; 0x3E; 0xC9; 0x3B] |}.

(** Models src/tools/mkimage/gpt.c:32-33, GPT_GUID_BIOS_BOOT. *)
Definition GPT_GUID_BIOS_BOOT : GptGuid :=
  {| data1 := 0x21686148; data2 := 0x6449; data3 := 0x6E6F;
     data4 := [0x74; 0x4E; 0x65; 0x65; 0x64; 0x45; 0x46; 0x49] |}.

(** Models src/tools/mkimage/gpt.c:60-68, gptRandomGuid (from the 16 random bytes on). *)
Definition gptRandomGuid (raw : list Z) : GptGuid :=
  let d4 := take 8 (drop 8 raw) in
  {| data1 := le_val (take 4 raw); data2 := le_val (take 2 (drop 4 raw));
     data3 := u16 ((le_val (take 2 (drop 6 raw)) .& 0x0FFF) .| 0x4000);
     data4 := match d4 with b :: rest => u8 ((b .& 0x3F) .| 0x80) :: rest | [] => [] end |}.

(** The UTF-16LE name field: at most 35 characters, zero filled. *)
(** Models src/tools/mkimage/gpt.c:114-120, buildPartitionArray (the name). *)
Definition name_field (name : list Z) : list Z :=
  let name := take 35 name in
  concat (map (fun c => le_bytes 2 (u16 (u8 c))) name) ++ replicate (72 - 2 * length name) 0.

(** Models src/tools/mkimage/gpt.c:107-120, buildPartitionArray (one entry). *)
Definition entry_bytes (p : GptPartitionSpec) : list Z :=
  guid_bytes (sp_typeGuid p) ++ guid_bytes (sp_uniqueGuid p) ++ le_bytes 8 (sp_startLba p) ++
  le_bytes 8 (sp_endLba p) ++ le_bytes 8 0 ++ name_field (sp_name p).

(** Models src/tools/mkimage/gpt.c:106-122, buildPartitionArray (the loop, at entry [i]). *)
Fixpoint fill_entries (array : list Z) (i : Z) (partitions : list GptPartitionSpec)
    : option (list Z) :=
  match partitions with
  | [] => Some array
  | p :: rest =>
      array ← bootMemcpy array (i * GPT_PARTITION_ENTRY_SIZE) (entry_bytes p);
      fill_entries array (i + 1) rest
  end.

(** Models src/tools/mkimage/gpt.c:103-123, buildPartitionArray. *)
Definition buildPartitionArray (partitions : list GptPartitionSpec) : option (list Z) :=
  fill_entries (replicate (Z.to_nat (GPT_PARTITION_ENTRY_COUNT * GPT_PARTITION_ENTRY_SIZE)) 0) 0
    partitions.

(** Models src/tools/mkimage/gpt.c:71-87, GptHeaderOnDisk (its 92 bytes). *)
Definition header_bytes (crc myLba alternateLba firstUsableLba lastUsableLba : Z)
    (diskGuid : GptGuid) (partitionEntryLba arrayCrc : Z) : list Z :=
  GPT_SIG ++ le_bytes 4 0x00010000 ++ le_bytes 4 92 ++ le_bytes 4 crc ++ le_bytes 4 0 ++
  le_bytes 8 myLba ++ le_bytes 8 alternateLba ++ le_bytes 8 firstUsableLba ++
  le_bytes 8 lastUsableLba ++ guid_bytes diskGuid ++ le_bytes 8 partitionEntryLba ++
  le_bytes 4 GPT_PARTITION_ENTRY_COUNT ++ le_bytes 4 GPT_PARTITION_ENTRY_SIZE ++
  le_bytes 4 arrayCrc.

(** At byte offset [off] of the image; [cs] is the CRC module's static state. *)
(** Models src/tools/mkimage/gpt.c:125-147, writeHeader. *)
Definition writeHeader (cs : Crc32State) (image : list Z) (off myLba alternateLba
    firstUsableLba lastUsableLba : Z) (diskGuid : GptGuid) (partitionEntryLba arrayCrc : Z)
    : option (list Z * Crc32State) :=
  image ← bootMemset image off 0 GPT_SECTOR_SIZE;
  let header crc := header_bytes crc myLba alternateLba firstUsableLba lastUsableLba diskGuid
                      partitionEntryLba arrayCrc in
  let '(crc, cs) := crc32Compute cs (header 0) in
  image ← bootMemcpy image off (header crc);
  Some (image, cs).

(** Models src/tools/mkimage/gpt.c:149-169, writeProtectiveMbr. *)
Definition writeProtectiveMbr (image : list Z) (totalSectors : Z) : option (list Z) :=
  image ← bootMemset image 0 0 GPT_SECTOR_SIZE;
  image ← bootMemcpy image 446 [0x00; 0x00; 0x02; 0x00; 0xEE; 0xFF; 0xFF; 0xFF];
  image ← bootMemcpy image (446 + 8) (le_bytes 4 1);
  let sizeInLba := totalSectors -! 1 in
  let sizeField := if sizeInLba >? 0xFFFFFFFF then 0xFFFFFFFF else u32 sizeInLba in
  image ← bootMemcpy image (446 + 12) (le_bytes 4 sizeField);
  bootMemcpy image 510 [0x55; 0xAA].

(** Models src/tools/mkimage/gpt.c:171-173, gptFirstUsableLba. *)
Definition gptFirstUsableLba : Z := 2 + GPT_PARTITION_ARRAY_SECTORS.

(** Models src/tools/mkimage/gpt.c:175-179, gptLastUsableLba. *)
Definition gptLastUsableLba (totalSectors : Z) : Z :=
  let backupHeaderLba := totalSectors -! 1 in
  let backupArrayLba := backupHeaderLba -! GPT_PARTITION_ARRAY_SECTORS in
  backupArrayLba -! 1.

Definition ranges_apart (p q : GptPartitionSpec) : bool :=
  (sp_endLba p <? sp_startLba q) || (sp_startLba p >? sp_endLba q).

(** [seen] are the partitions before this one. *)
(** Models src/tools/mkimage/gpt.c:196-206, gptWriteLayout (the layout checks). *)
Fixpoint layout_ok (firstUsable lastUsable : Z) (seen partitions : list GptPartitionSpec) : bool :=
  match partitions with
  | [] => true
  | p :: rest =>
      (sp_startLba p <=? sp_endLba p) &&
      ((firstUsable <=? sp_startLba p) && (sp_endLba p <=? lastUsable)) &&
      forallb (ranges_apart p) seen &&
      layout_ok firstUsable lastUsable (seen ++ [p]) rest
  end.

(** Models src/tools/mkimage/gpt.c:181-230, gptWriteLayout. *)
Definition gptWriteLayout (cs : Crc32State) (image : list Z) (totalSectors : Z)
    (diskGuid : GptGuid) (partitions : list GptPartitionSpec) : option (option (list Z)) :=
  if negb (2 * (2 + GPT_PARTITION_ARRAY_SECTORS) <=? totalSectors) then Some None else
  if negb (zlen partitions <=? GPT_PARTITION_ENTRY_COUNT) then Some None else
  let primaryArrayLba := 2 in
  let firstUsableLba := gptFirstUsableLba in
  let backupHeaderLba := totalSectors -! 1 in
  let backupArrayLba := backupHeaderLba -! GPT_PARTITION_ARRAY_SECTORS in
  let lastUsableLba := gptLastUsableLba totalSectors in
  if negb (layout_ok firstUsableLba lastUsableLba [] partitions) then Some None else
  array ← buildPartitionArray partitions;
  let '(arrayCrc32, cs) := crc32Compute cs array in
  image ← writeProtectiveMbr image totalSectors;
  '(image, cs) ← writeHeader cs image (1 * GPT_SECTOR_SIZE) 1 backupHeaderLba firstUsableLba
                   lastUsableLba diskGuid primaryArrayLba arrayCrc32;
  image ← bootMemcpy image (primaryArrayLba *! GPT_SECTOR_SIZE) array;
  image ← bootMemcpy image (backupArrayLba *! GPT_SECTOR_SIZE) array;
  '(image, _) ← writeHeader cs image (backupHeaderLba *! GPT_SECTOR_SIZE) backupHeaderLba 1
                  firstUsableLba lastUsableLba diskGuid backupArrayLba arrayCrc32;
  Some (Some image).

(** ** Layout of the written structures *)

Record guid_ok (g : GptGuid) : Prop := {
  go_1 : is_u32 (data1 g); go_2 : is_u16 (data2 g); go_3 : is_u16 (data3 g);
  go_4 : is_bytes (data4 g); go_len : zlen (data4 g) = 8 }.

Record spec_ok (p : GptPartitionSpec) : Prop := {
  so_type : guid_ok (sp_typeGuid p); so_unique : guid_ok (sp_uniqueGuid p);
  so_start : is_u64 (sp_startLba p); so_end : is_u64 (sp_endLba p) }.

Lemma guid_zlen g : guid_ok g -> zlen (guid_bytes g) = 16.
Proof. intros []. unfold guid_bytes. zl. lia. Qed.

Lemma guid_is_bytes g : guid_ok g -> is_bytes (guid_bytes g).
Proof. intros []. unfold guid_bytes, is_bytes. rewrite !Forall_app.
  split_and!; try apply le_bytes_ok. done. Qed.

Lemma name_field_zlen name : zlen (name_field name) = 72.
Proof.
  unfold name_field. set (l := take 35 name).
  assert (Hl : (length l <= 35)%nat) by (subst l; rewrite length_take; lia). clearbody l.
  assert (Hc : zlen (concat (map (fun c => le_bytes 2 (u16 (u8 c))) l)) = 2 * zlen l).
  { clear Hl. induction l as [|c l IH]; [done|]. cbn [map concat]. rewrite zlen_app, IH. zl. lia. }
  rewrite zlen_app, zlen_replicate, Hc. unfold zlen. lia.
Qed.

Lemma name_field_bytes name : is_bytes (name_field name).
Proof.
  unfold name_field, is_bytes. apply Forall_app. split.
  - apply Forall_concat. apply Forall_forall. intros x Hx.
    apply list_elem_of_In, in_map_iff in Hx as (c & <- & _). apply le_bytes_ok.
  - apply Forall_replicate. words. lia.
Qed.

Lemma entry_zlen p : spec_ok p -> zlen (entry_bytes p) = 128.
Proof.
  intros []. unfold entry_bytes. autorewrite with zlens.
  rewrite !guid_zlen, name_field_zlen by done. lia.
Qed.

Lemma entry_is_bytes p : spec_ok p -> is_bytes (entry_bytes p).
Proof.
  intros []. unfold entry_bytes, is_bytes. rewrite !Forall_app.
  split_and!; try apply le_bytes_ok; try apply name_field_bytes; by apply guid_is_bytes.
Qed.

Lemma header_zlen crc my alt fu lu g el ac :
  guid_ok g -> zlen (header_bytes crc my alt fu lu g el ac) = 92.
Proof.
  intros Hg. unfold header_bytes. autorewrite with zlens. rewrite guid_zlen by done. reflexivity.
Qed.

Lemma header_is_bytes crc my alt fu lu g el ac :
  guid_ok g -> is_bytes (header_bytes crc my alt fu lu g el ac).
Proof.
  intros Hg. unfold header_bytes, is_bytes. rewrite !Forall_app.
  split_and!; try apply le_bytes_ok; [|by apply guid_is_bytes].
  unfold GPT_SIG. repeat (constructor; [words; lia|]). constructor.
Qed.

(** ** Reading a field back *)

Lemma zlen_sig : zlen GPT_SIG = 8.
Proof. reflexivity. Qed.
#[local] Hint Rewrite zlen_sig : zlens.

Lemma peek_at b c off n : off = 0 -> n = zlen b -> peek (b ++ c) off n = Some b.
Proof. intros -> ->. apply peek_prefix. Qed.

Lemma peek_le_at m v c off n :
  off = 0 -> n = Z.of_nat m -> 0 <= v < 256 ^ Z.of_nat m ->
  peek_le (le_bytes m v ++ c) off n = Some v.
Proof.
  intros -> -> Hv. unfold peek_le. rewrite peek_at by (rewrite ?zlen_le_bytes; done).
  simpl. by rewrite le_val_bytes.
Qed.

Lemma peek_le_skip a b off n :
  0 <= n -> zlen a <= off -> peek_le (a ++ b) off n = peek_le b (off - zlen a) n.
Proof. intros. unfold peek_le. by rewrite peek_app_r. Qed.

Lemma memcpy_at a b c src off :
  off = zlen a -> zlen b = zlen src -> bootMemcpy (a ++ b ++ c) off src = Some (a ++ src ++ c).
Proof.
  intros -> Hb. unfold bootMemcpy. pose proof (zlen_nonneg a). pose proof (zlen_nonneg c).
  rewrite !zlen_app, (proj2 (Z.leb_le 0 _)), (proj2 (Z.leb_le _ (zlen a + _))) by lia.
  simpl. unfold zlen in *. rewrite Nat2Z.id. assert (length b = length src) as <- by lia.
  rewrite take_app_length, <- drop_drop, !drop_app_length. done.
Qed.

(** Skips the fields before offset [off]; [gl] is the length of the GUIDs met. *)
Ltac skip gl :=
  repeat (rewrite peek_le_skip by (rewrite ?gl; zl; lia));
  repeat (rewrite peek_app_r by (rewrite ?gl; zl; lia)).

Lemma crc_u32 data : is_bytes data -> is_u32 (bootCrc32 data).
Proof.
  intros. unfold bootCrc32, bootCrc32Finish. apply lxor_u32; [|words; lia].
  apply crc_update_u32; [words; unfold BOOT_CRC32_INIT; lia|done].
Qed.

(** Every field of a written header, read back. *)
Lemma header_reads crc lba alt fu lu g el ac zeros :
  guid_ok g -> is_u32 crc -> is_u64 lba -> is_u64 fu -> is_u64 lu -> is_u64 el -> is_u32 ac ->
  let s := header_bytes crc lba alt fu lu g el ac ++ zeros in
  peek s 0 8 = Some GPT_SIG /\ peek_le s 8 4 = Some 0x10000 /\ peek_le s 12 4 = Some 92 /\
  peek_le s 16 4 = Some crc /\ peek_le s 24 8 = Some lba /\ peek_le s 40 8 = Some fu /\
  peek_le s 48 8 = Some lu /\ peek s 56 16 = Some (guid_bytes g) /\ peek_le s 72 8 = Some el /\
  peek_le s 80 4 = Some 128 /\ peek_le s 84 4 = Some 128 /\ peek_le s 88 4 = Some ac.
Proof.
  intros Hg Hcrc Hlba Hfu Hlu Hel Hac. pose proof (guid_zlen g Hg) as Hgl. cbv zeta.
  unfold header_bytes. rewrite <- !app_assoc.
  split_and!; (skip Hgl);
    first [apply peek_at; rewrite ?Hgl; zl; reflexivity
          |apply peek_le_at; [rewrite ?Hgl; zl; reflexivity|reflexivity|done]].
Qed.

Lemma header_zeroed crc lba alt fu lu g el ac zeros :
  guid_ok g ->
  let h c := header_bytes c lba alt fu lu g el ac in
  bootMemcpy (h crc ++ zeros) 16 [0; 0; 0; 0] = Some (h 0 ++ zeros) /\
  peek (h 0 ++ zeros) 0 92 = Some (h 0).
Proof.
  intros Hg. split.
  - unfold header_bytes. rewrite <- !app_assoc.
    rewrite (app_assoc (le_bytes 4 _) (le_bytes 4 92)), (app_assoc GPT_SIG).
    rewrite memcpy_at by reflexivity. by rewrite <- !app_assoc.
  - apply peek_at; [done|]. symmetry. by apply header_zlen.
Qed.

Lemma written_header_valid dev lba alt fu lu g el ac zeros :
  bd_sectorSize dev = 512 -> guid_ok g -> is_u64 lba -> is_u64 fu -> is_u64 lu -> is_u64 el ->
  is_u32 ac -> fu <= lu ->
  let h crc := header_bytes crc lba alt fu lu g el ac in
  bd_read dev lba = Some (h (bootCrc32 (h 0)) ++ zeros) ->
  validateHeader dev lba = Some (Some
    {| gh_myLba := lba; gh_firstUsableLba := fu; gh_lastUsableLba := lu;
       gh_diskGuid := guid_bytes g; gh_entryLba := el; gh_entryCount := 128; gh_entrySize := 128;
       gh_arrayCrc32 := ac |}).
Proof.
  intros Hss Hg Hlba Hfu Hlu Hel Hac Hle h Hr. unfold validateHeader. rewrite Hr, Hss.
  assert (Hcrc : is_u32 (bootCrc32 (h 0))) by (apply crc_u32; by apply header_is_bytes).
  set (crc := bootCrc32 (h 0)) in *.
  destruct (header_reads crc lba alt fu lu g el ac zeros) as
    (R1 & R2 & R3 & R4 & R5 & R6 & R7 & R8 & R9 & R10 & R11 & R12); try done.
  destruct (header_zeroed crc lba alt fu lu g el ac zeros Hg) as [Z1 Z2].
  fold (h crc) in *. fold (h 0) in *.
  rewrite R1, R2, R3, R4, Z1. cbn [mbind option_bind]. 
  change (negb (bytesEqual GPT_SIG GPT_SIG)) with false. cbn [mbind option_bind].
  change (negb ((65536 >>! 16) =? 1)) with false.
  change ((92 <? GPT_HEADER_MIN_SIZE) || (92 >? 512)) with false. cbn [mbind option_bind].
  rewrite Z2. cbn [mbind option_bind]. fold crc. rewrite Z.eqb_refl. cbn [negb].
  rewrite R5. cbn [mbind option_bind]. rewrite Z.eqb_refl, R6, R7. cbn [negb mbind option_bind].
  rewrite Z.gtb_ltb, (proj2 (Z.ltb_ge lu fu)) by lia.
  by rewrite R8, R9, R10, R11, R12.
Qed.

(** ** The partition array *)

Definition array_of (parts : list GptPartitionSpec) : list Z :=
  concat (map entry_bytes parts) ++ replicate (Z.to_nat (128 * (128 - zlen parts))) 0.

Lemma entries_zlen parts : Forall spec_ok parts -> zlen (concat (map entry_bytes parts)) = 128 * zlen parts.
Proof.
  induction 1 as [|p parts Hp _ IH]; [done|]. cbn [map concat].
  rewrite zlen_app, entry_zlen, IH, zlen_cons by done. lia.
Qed.

Lemma fill_entries_spec parts done n :
  Forall spec_ok parts -> zlen done = 128 * n -> n + zlen parts <= 128 -> 0 <= n ->
  fill_entries (done ++ replicate (Z.to_nat (128 * (128 - n))) 0) n parts =
  Some (done ++ concat (map entry_bytes parts) ++
        replicate (Z.to_nat (128 * (128 - n - zlen parts))) 0).
Proof.
  intros Hp. revert done n. induction Hp as [|p parts Hp _ IH]; intros done n Hd Hn H0.
  { cbn. unfold zlen at 1. simpl Z.of_nat. by rewrite Z.sub_0_r. }
  rewrite zlen_cons in *. pose proof (zlen_nonneg parts). cbn [fill_entries].
  replace (Z.to_nat (128 * (128 - n))) with (128 + Z.to_nat (128 * (128 - (n + 1))))%nat by lia.
  rewrite replicate_add, memcpy_at; cbn [mbind option_bind].
  - rewrite app_assoc, (IH _ (n + 1)).
    + cbn [map concat]. rewrite <- !app_assoc. do 5 f_equal. lia.
    + rewrite zlen_app, entry_zlen by done. lia.
    + lia.
    + lia.
  - rewrite Hd. unfold GPT_PARTITION_ENTRY_SIZE. lia.
  - by rewrite entry_zlen, zlen_replicate.
Qed.

Lemma buildPartitionArray_spec parts :
  Forall spec_ok parts -> zlen parts <= 128 -> buildPartitionArray parts = Some (array_of parts).
Proof.
  intros Hp Hn. unfold buildPartitionArray. pose proof (fill_entries_spec parts [] 0 Hp) as H.
  rewrite Z.sub_0_r in H. apply H; [done|lia|lia].
Qed.

Lemma array_zlen parts : Forall spec_ok parts -> zlen parts <= 128 -> zlen (array_of parts) = 16384.
Proof.
  intros Hp Hn. unfold array_of. rewrite zlen_app, entries_zlen, zlen_replicate by done.
  pose proof (zlen_nonneg parts). lia.
Qed.

Lemma array_is_bytes parts : Forall spec_ok parts -> is_bytes (array_of parts).
Proof.
  intros Hp. unfold array_of, is_bytes. apply Forall_app. split.
  - apply Forall_concat, Forall_forall. intros x Hx. rewrite Forall_forall in Hp.
    apply list_elem_of_In, in_map_iff in Hx as (p & <- & Hin).
    by apply entry_is_bytes, Hp, list_elem_of_In.
  - apply Forall_replicate. words. lia.
Qed.

(** ** Finding a partition in the array *)

Definition part_of (p : GptPartitionSpec) : BootGptPart :=
  {| gp_typeGuid := guid_bytes (sp_typeGuid p); gp_uniqueGuid := guid_bytes (sp_uniqueGuid p);
     gp_startLba := sp_startLba p; gp_endLba := sp_endLba p |}.

(** The first partition of the requested type. *)
Definition first_of_type (typeGuid : list Z) (parts : list GptPartitionSpec) : option BootGptPart :=
  part_of <$> List.find (fun p => bytesEqual (guid_bytes (sp_typeGuid p)) typeGuid) parts.

Section Array.
Context (f : GptHeaderFields) (T : list Z).
Hypothesis Hsize : gh_entrySize f = 128.
Hypothesis Hfirst : 0 < gh_firstUsableLba f.

Definition in_usable (p : GptPartitionSpec) : Prop :=
  gh_firstUsableLba f <= sp_startLba p /\ sp_startLba p <= sp_endLba p /\
  sp_endLba p <= gh_lastUsableLba f.

Lemma check_written_entry p :
  spec_ok p -> in_usable p ->
  check_entry f T (entry_bytes p) 0 =
  Some (if bytesEqual (guid_bytes (sp_typeGuid p)) T then Some (part_of p) else None).
Proof.
  intros [Ht Hu Hs He] (H1 & H2 & H3). pose proof (guid_zlen _ Ht) as L1.
  pose proof (guid_zlen _ Hu) as L2.
  assert (R : peek (entry_bytes p) (0 + 0) 16 = Some (guid_bytes (sp_typeGuid p)) /\
    peek (entry_bytes p) (0 + 16) 16 = Some (guid_bytes (sp_uniqueGuid p)) /\
    peek_le (entry_bytes p) (0 + 32) 8 = Some (sp_startLba p) /\
    peek_le (entry_bytes p) (0 + 40) 8 = Some (sp_endLba p)).
  { unfold entry_bytes. split_and!.
    - by apply peek_at.
    - rewrite peek_app_r by lia. apply peek_at; lia.
    - rewrite !peek_le_skip by lia. apply peek_le_at; [lia|done|done].
    - rewrite !peek_le_skip by (rewrite ?zlen_le_bytes; lia).
      apply peek_le_at; [rewrite zlen_le_bytes; lia|done|done]. }
  destruct R as (R1 & R2 & R3 & R4). unfold check_entry. rewrite R1, R2, R3, R4.
  cbn [mbind option_bind]. destruct (bytesEqual _ T); [|done]. simpl.
  rewrite !Z.gtb_ltb, !(proj2 (Z.ltb_ge _ _)) by lia. done.
Qed.

Lemma first_match_zeros n (i : Z) m :
  0 <= i -> (i + Z.of_nat n) * 128 <= Z.of_nat m ->
  first_match f T (replicate m 0) n i = None.
Proof.
  revert i. induction n as [|n IH]; intros i Hi Hm; cbn [first_match]; [done|].
  rewrite IH by lia. rewrite Hsize.
  assert (Hp : forall o k, 0 <= o -> 0 <= k -> o + k <= Z.of_nat m ->
    peek (replicate m 0) o k = Some (replicate (Z.to_nat k) 0)).
  { intros o k Ho Hk Hb. rewrite peek_inside by (rewrite ?zlen_replicate; lia).
    rewrite drop_replicate, take_replicate. do 2 f_equal. lia. }
  unfold check_entry, peek_le. rewrite !Hp by lia. cbn [mbind option_bind].
  destruct (negb _); [done|]. change (le_val <$> Some (replicate (Z.to_nat 8) 0)) with (Some 0).
  cbn [mbind option_bind]. rewrite (proj2 (Z.ltb_lt 0 (gh_firstUsableLba f))) by lia.
  by rewrite orb_true_r.
Qed.

Lemma or_else_None {A} (o : option A) : or_else o None = o.
Proof. by destruct o. Qed.

Lemma first_match_entries parts rest :
  Forall spec_ok parts -> Forall in_usable parts ->
  forall n, first_match f T rest n 0 = None ->
  first_match f T (concat (map entry_bytes parts) ++ rest) (length parts + n) 0 =
  first_of_type T parts.
Proof.
  intros Hs. induction Hs as [|p parts Hp Hps IH]; intros Hu n Hn; [done|].
  inversion Hu; subst. cbn [map concat length Nat.add]. rewrite <- app_assoc.
  change (S (length parts + n)) with (1 + (length parts + n))%nat.
  assert (Hsz : GPT_MIN_ENTRY_SIZE <= gh_entrySize f < 2 ^ 32)
    by (unfold GPT_MIN_ENTRY_SIZE; lia).
  rewrite (first_match_app f T Hsz) by (rewrite entry_zlen, Hsize by done; done).
  rewrite IH by done. cbn [first_match]. rewrite Z.mul_0_l, check_written_entry by done.
  unfold first_of_type. cbn [List.find]. by destruct (bytesEqual _ T).
Qed.

Lemma first_match_array parts :
  Forall spec_ok parts -> Forall in_usable parts -> zlen parts <= 128 ->
  first_match f T (array_of parts) 128 0 = first_of_type T parts.
Proof.
  intros Hs Hu Hn. unfold array_of.
  replace 128%nat with (length parts + (128 - length parts))%nat by (unfold zlen in Hn; lia).
  apply first_match_entries; [done..|]. apply first_match_zeros; [lia|]. unfold zlen in *. lia.
Qed.
End Array.

(** ** Reading an image by sectors *)

Lemma peek_split buf off n m :
  0 <= off -> 0 <= n -> 0 <= m ->
  peek buf off (n + m) = a ← peek buf off n; b ← peek buf (off + n) m; Some (a ++ b).
Proof.
  intros Ho Hn Hm. destruct (Z.le_gt_cases (off + (n + m)) (zlen buf)) as [Hle|Hgt].
  - rewrite !peek_inside by lia. cbn [mbind option_bind]. f_equal.
    rewrite !Z2Nat.inj_add by lia. rewrite <- drop_drop. by rewrite take_take_drop.
  - assert (Hnone : forall o k, zlen buf < o + k -> peek buf o k = None).
    { intros o k Hk. unfold peek. rewrite (proj2 (Z.leb_gt _ (zlen buf))) by lia.
      by rewrite andb_false_r. }
    rewrite (Hnone off (n + m)), (Hnone (off + n) m) by lia. by destruct (peek buf off n).
Qed.

Lemma read_sectors_image image n lba k :
  0 <= lba -> 0 <= k -> lba + k + Z.of_nat n <= zlen image / 512 -> is_u64 (zlen image) ->
  read_sectors (image_dev 512 image) n lba k = peek image ((lba + k) * 512) (Z.of_nat n * 512).
Proof.
  intros Hl Hk Hn Hu. revert k Hk Hn. induction n as [|n IH]; intros k Hk Hn; cbn [read_sectors].
  { rewrite peek_inside by dlia. done. }
  assert (Hz : zlen image / 512 < 2 ^ 64) by (words; dlia).
  rewrite (u64_small (lba + k)), (u64_small (k + 1)) by (words; lia). simpl bd_read.
  rewrite (proj2 (Z.leb_le 0 (lba + k))), (proj2 (Z.ltb_lt (lba + k) _)) by lia. simpl.
  rewrite IH by lia.
  replace (Z.of_nat (S n) * 512) with (512 + Z.of_nat n * 512) by lia.
  rewrite peek_split by lia.
  by replace ((lba + (k + 1)) * 512) with ((lba + k) * 512 + 512) by lia.
Qed.

(** ** Stores and what they leave alone *)

Record frame (image image' : list Z) (off n : Z) : Prop := {
  fr_len : zlen image' = zlen image;
  fr_bytes : is_bytes image -> is_bytes image';
  fr_out : forall o k, 0 <= k -> o + k <= off \/ off + n <= o -> peek image' o k = peek image o k }.

Lemma frame_memcpy image off src :
  0 <= off -> off + zlen src <= zlen image -> is_bytes src ->
  exists image', bootMemcpy image off src = Some image' /\ frame image image' off (zlen src) /\
    peek image' off (zlen src) = Some src.
Proof.
  intros Ho Hl Hb. destruct (bootMemcpy_is_Some image off src Ho Hl) as [image' Hi].
  exists image'. split_and!; [done| |].
  - split; [by apply bootMemcpy_zlen in Hi|intros; by eapply bootMemcpy_bytes|].
    intros o k Hk Hd. by apply (peek_memcpy_out image off src).
  - rewrite (peek_memcpy_in image off src image') by (done || (pose proof (zlen_nonneg src); lia)).
    rewrite Z.sub_diag. apply peek_all.
Qed.

Lemma frame_trans a b c off n off1 n1 off2 n2 :
  frame a b off1 n1 -> frame b c off2 n2 ->
  off <= off1 -> off1 + n1 <= off + n -> off <= off2 -> off2 + n2 <= off + n -> frame a c off n.
Proof.
  intros [L1 B1 F1] [L2 B2 F2] **. split; [congruence|auto|].
  intros o k Hk Hd. rewrite F2, F1 by lia. done.
Qed.

Lemma zeros_bytes n : is_bytes (replicate n 0).
Proof. apply Forall_replicate. words. lia. Qed.

Lemma writeHeader_spec cs image off my alt fu lu g el ac :
  crc32_state_ok cs -> guid_ok g -> 0 <= off -> off + 512 <= zlen image ->
  let h crc := header_bytes crc my alt fu lu g el ac in
  exists image' cs', writeHeader cs image off my alt fu lu g el ac = Some (image', cs') /\
    crc32_state_ok cs' /\ frame image image' off 512 /\
    peek image' off 512 = Some (h (bootCrc32 (h 0)) ++ replicate 420 0).
Proof.
  intros Hcs Hg Ho Hl h. unfold writeHeader, bootMemset.
  pose proof (header_is_bytes 0 my alt fu lu g el ac Hg) as Hb0.
  destruct (crc32_agree_on (h 0) cs Hb0 Hcs) as (_ & Hcrc & Hcs').
  fold (h 0). destruct (crc32Compute cs (h 0)) as [crc cs'] eqn:Ec. simpl in Hcrc, Hcs'. subst crc.
  set (z := replicate (Z.to_nat GPT_SECTOR_SIZE) (u8 0)).
  assert (Hzb : is_bytes z) by apply zeros_bytes. assert (Hzl : zlen z = 512) by reflexivity.
  destruct (frame_memcpy image off z) as (i1 & E1 & F1 & R1); [lia|lia|done|].
  rewrite E1. cbn [mbind option_bind]. set (hd := h (bootCrc32 (h 0))).
  assert (Hhl : zlen hd = 92) by by apply header_zlen.
  assert (Hhb : is_bytes hd) by by apply header_is_bytes.
  destruct (frame_memcpy i1 off hd) as (i2 & E2 & F2 & R2); [lia| |done|].
  { rewrite (fr_len _ _ _ _ F1). lia. }
  fold (h (bootCrc32 (h 0))). fold hd. rewrite E2. cbn [mbind option_bind].
  exists i2, cs'. split_and!; [done..| |].
  - apply (frame_trans image i1 i2 off 512 off (zlen z) off (zlen hd)); done || lia.
  - change 512 with (92 + 420). rewrite <- Hhl, peek_split, R2 by lia. cbn [mbind option_bind].
    rewrite (fr_out _ _ _ _ F2) by lia.
    rewrite (peek_memcpy_in image off z i1) by (done || lia).
    replace (off + zlen hd - off) with 92 by lia.
    assert (Hp : peek z 92 420 = Some (replicate 420 0)) by (vm_compute; reflexivity).
    by rewrite Hp.
Qed.

Lemma writeProtectiveMbr_spec image total :
  512 <= zlen image ->
  exists image', writeProtectiveMbr image total = Some image' /\ frame image image' 0 512.
Proof.
  intros Hl. unfold writeProtectiveMbr, bootMemset.
  set (z := replicate (Z.to_nat GPT_SECTOR_SIZE) (u8 0)).
  assert (Hzl : zlen z = 512) by reflexivity.
  destruct (frame_memcpy image 0 z) as (i1 & E1 & F1 & _); [lia|lia|apply zeros_bytes|].
  rewrite E1. cbn [mbind option_bind]. pose proof (fr_len _ _ _ _ F1).
  destruct (frame_memcpy i1 446 [0; 0; 2; 0; 0xEE; 0xFF; 0xFF; 0xFF]) as (i2 & E2 & F2 & _);
    [lia|unfold zlen in *; simpl; lia|repeat (constructor; [words; lia|]); constructor|].
  rewrite E2. cbn [mbind option_bind]. pose proof (fr_len _ _ _ _ F2).
  destruct (frame_memcpy i2 454 (le_bytes 4 1)) as (i3 & E3 & F3 & _);
    [lia|rewrite zlen_le_bytes; lia|apply le_bytes_ok|].
  change (446 + 8) with 454. rewrite E3. cbn [mbind option_bind]. pose proof (fr_len _ _ _ _ F3).
  set (v := if _ >? _ then _ else _).
  destruct (frame_memcpy i3 458 (le_bytes 4 v)) as (i4 & E4 & F4 & _);
    [lia|rewrite zlen_le_bytes; lia|apply le_bytes_ok|].
  change (446 + 12) with 458. rewrite E4. cbn [mbind option_bind]. pose proof (fr_len _ _ _ _ F4).
  destruct (frame_memcpy i4 510 [0x55; 0xAA]) as (i5 & E5 & F5 & _);
    [lia|unfold zlen in *; simpl; lia|repeat (constructor; [words; lia|]); constructor|].
  rewrite zlen_le_bytes in F3, F4. change (zlen [85; 170]) with 2 in F5.
  change (zlen [0; 0; 2; 0; 238; 255; 255; 255]) with 8 in F2.
  exists i5. split; [done|].
  apply (frame_trans _ i4 _ 0 512 0 512 510 2); [|exact F5|lia..].
  apply (frame_trans _ i3 _ 0 512 0 512 458 4); [|exact F4|lia..].
  apply (frame_trans _ i2 _ 0 512 0 512 454 4); [|exact F3|lia..].
  apply (frame_trans _ i1 _ 0 512 0 512 446 8); [|exact F2|lia..].
  rewrite Hzl in F1. exact F1.
Qed.

(** What the finished image holds, at its two copies of the table. *)
Record written (image : list Z) (total : Z) (g : GptGuid) (parts : list GptPartitionSpec) : Prop := {
  wr_len : zlen image = total * 512;
  wr_bytes : is_bytes image;
  wr_copy : forall lba alt el, (lba = 1 /\ alt = total - 1 /\ el = 2) \/
                               (lba = total - 1 /\ alt = 1 /\ el = total - 33) ->
    let h crc := header_bytes crc lba alt 34 (total - 34) g el (bootCrc32 (array_of parts)) in
    peek image (lba * 512) 512 = Some (h (bootCrc32 (h 0)) ++ replicate 420 0) /\
    peek image (el * 512) 16384 = Some (array_of parts) }.

Lemma layout_ok_iff fu lu parts :
  layout_ok fu lu [] parts = true <->
  Forall (fun p => sp_startLba p <= sp_endLba p /\ fu <= sp_startLba p /\ sp_endLba p <= lu) parts /\
  StronglySorted (fun p q => ranges_apart q p = true) parts.
Proof.
  assert (Hgen : forall seen, layout_ok fu lu seen parts = true <->
    Forall (fun p => sp_startLba p <= sp_endLba p /\ fu <= sp_startLba p /\ sp_endLba p <= lu) parts /\
    StronglySorted (fun p q => ranges_apart q p = true) parts /\
    Forall (fun p => Forall (fun q => ranges_apart p q = true) seen) parts).
  { induction parts as [|p parts IH]; intros seen; cbn [layout_ok].
    { split; [|done]. intros _. split_and!; constructor. }
    rewrite !andb_true_iff, !Z.leb_le, IH, !Forall_cons.
    assert (Hf : forallb (ranges_apart p) seen = true <-> Forall (fun q => ranges_apart p q = true) seen)
      by (rewrite forallb_forall, Forall_forall; split; intros H x Hx; apply H; by apply list_elem_of_In).
    rewrite Hf. split.
    - intros [[[H1 [H2 H3]] H4] (H5 & H6 & H7)]. split_and!; try done.
      + constructor; [done|]. eapply Forall_impl; [exact H7|]. simpl. intros q Hq.
        rewrite Forall_app, Forall_singleton in Hq. tauto.
      + eapply Forall_impl; [exact H7|]. simpl. intros q Hq. rewrite Forall_app in Hq. tauto.
    - intros ([(H1 & H2 & H3) H4] & H5 & H6 & H7). inversion H5 as [|? ? Hs Ha]; subst.
      split_and!; try done. rewrite Forall_forall in Ha, H7 |- *. intros q Hq.
      rewrite Forall_app, Forall_singleton. auto. }
  rewrite Hgen. split; [tauto|]. intros [H1 H2]. split_and!; [done..|].
  apply Forall_forall. intros p _. constructor.
Qed.

Lemma total_arith total :
  68 <= total -> total * 512 < 2 ^ 64 ->
  total -! 1 = total - 1 /\ (total -! 1) -! GPT_PARTITION_ARRAY_SECTORS = total - 33 /\
  gptLastUsableLba total = total - 34 /\ 2 *! GPT_SECTOR_SIZE = 1024 /\
  (total - 33) *! GPT_SECTOR_SIZE = (total - 33) * 512 /\
  (total - 1) *! GPT_SECTOR_SIZE = (total - 1) * 512.
Proof.
  unfold GPT_PARTITION_ARRAY_SECTORS, gptLastUsableLba, GPT_SECTOR_SIZE. intros H1 H2.
  assert (E1 : total -! 1 = total - 1) by (apply u64_small; words; lia).
  unfold GPT_PARTITION_ARRAY_SECTORS. rewrite E1.
  assert (E2 : (total - 1) -! 32 = total - 33) by (rewrite u64_small; [lia|words; lia]).
  rewrite E2. split_and!; try done; rewrite u64_small by (words; lia); lia.
Qed.

(** The writer succeeds on every layout its checks accept, and writes both copies. *)
Lemma gptWriteLayout_spec cs image total g parts :
  crc32_state_ok cs -> guid_ok g -> Forall spec_ok parts -> is_bytes image ->
  zlen image = total * 512 -> total * 512 < 2 ^ 64 -> 68 <= total -> zlen parts <= 128 ->
  layout_ok 34 (total - 34) [] parts = true ->
  exists image', gptWriteLayout cs image total g parts = Some (Some image') /\
    written image' total g parts /\
    (forall o k, 0 <= k -> 34 * 512 <= o -> o + k <= (total - 33) * 512 ->
       peek image' o k = peek image o k).
Proof.
  intros Hcs Hg Hp Hb Hl Hu Ht Hn Hlay. unfold gptWriteLayout.
  destruct (total_arith total Ht Hu) as (A1 & A2 & A3 & A4 & A5 & A6).
  rewrite A2, A3, A1, A4, A5, A6. change (2 * (2 + GPT_PARTITION_ARRAY_SECTORS)) with 68.
  rewrite (proj2 (Z.leb_le 68 total)) by lia. unfold GPT_PARTITION_ENTRY_COUNT at 1.
  rewrite (proj2 (Z.leb_le (zlen parts) 128)) by lia. change gptFirstUsableLba with 34.
  cbn [negb]. rewrite Hlay, buildPartitionArray_spec by done. cbn [negb mbind option_bind].
  pose proof (array_zlen parts Hp Hn) as Hal. pose proof (array_is_bytes parts Hp) as Hab.
  destruct (crc32_agree_on (array_of parts) cs Hab Hcs) as (_ & Hcrc & Hcs1).
  destruct (crc32Compute cs (array_of parts)) as [ac cs1]. simpl in Hcrc, Hcs1. subst ac.
  destruct (writeProtectiveMbr_spec image total) as (i0 & E0 & F0); [lia|].
  rewrite E0. cbn [mbind option_bind]. pose proof (fr_len _ _ _ _ F0) as L0.
  destruct (writeHeader_spec cs1 i0 (1 * GPT_SECTOR_SIZE) 1 (total - 1) 34 (total - 34) g 2
    (bootCrc32 (array_of parts)) Hcs1 Hg) as (i1 & cs2 & E1 & Hcs2 & F1 & R1);
    [unfold GPT_SECTOR_SIZE; lia..|]. unfold GPT_SECTOR_SIZE in E1, F1, R1 |- *.
  rewrite E1. cbn [mbind option_bind]. pose proof (fr_len _ _ _ _ F1) as L1.
  destruct (frame_memcpy i1 1024 (array_of parts)) as (i2 & E2 & F2 & R2); [lia|lia|done|].
  rewrite E2. cbn [mbind option_bind]. pose proof (fr_len _ _ _ _ F2) as L2.
  destruct (frame_memcpy i2 ((total - 33) * 512) (array_of parts)) as (i3 & E3 & F3 & R3);
    [lia|lia|done|]. rewrite E3. cbn [mbind option_bind]. pose proof (fr_len _ _ _ _ F3) as L3.
  destruct (writeHeader_spec cs2 i3 ((total - 1) * 512) (total - 1) 1 34 (total - 34) g (total - 33)
    (bootCrc32 (array_of parts)) Hcs2 Hg) as (i4 & cs3 & E4 & _ & F4 & R4); [lia|lia|].
  rewrite E4. cbn [mbind option_bind]. exists i4. rewrite Hal in *.
  split; [done|]. split; [split|].
  - rewrite (fr_len _ _ _ _ F4). lia.
  - apply (fr_bytes _ _ _ _ F4), (fr_bytes _ _ _ _ F3), (fr_bytes _ _ _ _ F2),
      (fr_bytes _ _ _ _ F1), (fr_bytes _ _ _ _ F0). done.
  - intros lba alt el [(-> & -> & ->)|(-> & -> & ->)] h; split.
    + by rewrite (fr_out _ _ _ _ F4), (fr_out _ _ _ _ F3), (fr_out _ _ _ _ F2) by lia.
    + by rewrite (fr_out _ _ _ _ F4), (fr_out _ _ _ _ F3) by lia.
    + done.
    + by rewrite (fr_out _ _ _ _ F4) by lia.
  - intros o k Hk Ho He. by rewrite (fr_out _ _ _ _ F4), (fr_out _ _ _ _ F3), (fr_out _ _ _ _ F2),
      (fr_out _ _ _ _ F1), (fr_out _ _ _ _ F0) by lia.
Qed.

Section ReadBack.
Context (total : Z) (g : GptGuid) (parts : list GptPartitionSpec) (T : list Z).
Hypothesis Hg : guid_ok g.
Hypothesis Hp : Forall spec_ok parts.
Hypothesis Hn : zlen parts <= 128.
Hypothesis Ht : 68 <= total.
Hypothesis Hu : total * 512 < 2 ^ 64.
Hypothesis Hlay : layout_ok 34 (total - 34) [] parts = true.

Definition expected : BootStatus * option (BootGptPart * list Z) :=
  match first_of_type T parts with
  | Some p => (BOOT_OK, Some (p, guid_bytes g))
  | None => (BOOT_ERR_NOT_FOUND, None)
  end.

(** Either copy of the table in an image, through the reader. *)
Lemma try_copy image lba alt el :
  zlen image = total * 512 -> 0 <= lba < total -> 0 <= el -> el + 32 <= total ->
  let h crc := header_bytes crc lba alt 34 (total - 34) g el (bootCrc32 (array_of parts)) in
  peek image (lba * 512) 512 = Some (h (bootCrc32 (h 0)) ++ replicate 420 0) ->
  peek image (el * 512) 16384 = Some (array_of parts) ->
  try_reference (image_dev 512 image) lba T =
  (match first_of_type T parts with
   | Some p => (BOOT_OK, Some p)
   | None => (BOOT_ERR_NOT_FOUND, None)
   end, guid_bytes g).
Proof.
  intros Hl Hlba Hel0 Hel h Rh Ra.
  pose proof (array_is_bytes parts Hp) as Hab. pose proof (array_zlen parts Hp Hn) as Hal.
  assert (Hdiv : zlen image / 512 = total) by (rewrite Hl; by apply Z.div_mul).
  assert (Hread : bd_read (image_dev 512 image) lba = Some (h (bootCrc32 (h 0)) ++ replicate 420 0)).
  { simpl. by rewrite Hdiv, (proj2 (Z.leb_le 0 lba)), (proj2 (Z.ltb_lt lba total)) by lia. }
  unfold try_reference.
  rewrite (written_header_valid (image_dev 512 image) lba alt 34 (total - 34) g el
    (bootCrc32 (array_of parts)) (replicate 420 0)); try done;
    [|words; lia|words; lia|words; lia|by apply crc_u32|lia].
  set (f := {| gh_myLba := _ |}). unfold scan_reference.
  change (gh_entryCount f * gh_entrySize f) with 16384. change (gh_entryLba f) with el.
  change (sectors_for 16384 (bd_sectorSize (image_dev 512 image))) with 32%nat.
  rewrite read_sectors_image by (rewrite ?Hdiv; words; lia).
  rewrite Z.add_0_r. change (Z.of_nat 32 * 512) with 16384. rewrite Ra. cbv zeta.
  rewrite take_ge by (unfold zlen in Hal; lia). change (gh_arrayCrc32 f) with (bootCrc32 (array_of parts)).
  rewrite Z.eqb_refl. cbn [negb]. change (Z.to_nat (gh_entryCount f)) with 128%nat.
  apply layout_ok_iff in Hlay as [Hlay' _].
  rewrite first_match_array; try done.
  eapply Forall_impl; [exact Hlay'|]. unfold in_usable. simpl. lia.
Qed.

Lemma find_primary image :
  is_bytes image -> written image total g parts ->
  bootGptFindPartition (image_dev 512 image) T = Some expected.
Proof.
  intros Hb [Hl _ Hc]. destruct (Hc 1 (total - 1) 2) as [Rh Ra]; [auto|].
  rewrite find_eq; [|apply image_dev_ok; (done || (words; lia))|simpl; lia].
  unfold find_reference, expected.
  rewrite (try_copy image 1 (total - 1) 2) by (done || lia). by destruct (first_of_type T parts).
Qed.

(** With the primary header gone, the backup copy alone gives the same answer. *)
Lemma find_backup image image' :
  is_bytes image' -> written image total g parts -> zlen image' = zlen image ->
  (forall o k, 0 <= k -> 34 * 512 <= o -> peek image' o k = peek image o k) ->
  validateHeader (image_dev 512 image') 1 = Some None ->
  bootGptFindPartition (image_dev 512 image') T = Some expected.
Proof.
  intros Hb [Hl _ Hc] Hlen Hout Hbad. destruct (Hc (total - 1) 1 (total - 33)) as [Rh Ra]; [auto|].
  rewrite find_eq; [|apply image_dev_ok; (done || (words; lia))|simpl; lia].
  unfold find_reference, expected. unfold try_reference at 1. rewrite Hbad.
  assert (Hdiv : zlen image' / 512 = total) by (rewrite Hlen, Hl; by apply Z.div_mul).
  simpl bd_sectorCount. rewrite Hdiv, (proj2 (Z.eqb_neq total 0)) by lia.
  rewrite u64_small by (words; lia). rewrite <- Hout in Rh, Ra by lia.
  rewrite (try_copy image' (total - 1) 1 (total - 33)) by (done || lia).
  by destruct (first_of_type T parts).
Qed.
End ReadBack.

(** A disk with a BIOS boot partition and an ESP. *)
Definition sample_guid : GptGuid :=
  {| data1 := 0x11223344; data2 := 0x5566; data3 := 0x4788; data4 := [0x89; 1; 2; 3; 4; 5; 6; 7] |}.

Definition sample_parts : list GptPartitionSpec :=
  [ {| sp_typeGuid := GPT_GUID_BIOS_BOOT; sp_uniqueGuid := sample_guid; sp_startLba := 34;
       sp_endLba := 39; sp_name := [0x62; 0x69; 0x6F; 0x73] |};
    {| sp_typeGuid := GPT_GUID_ESP; sp_uniqueGuid := sample_guid; sp_startLba := 40;
       sp_endLba := 44; sp_name := [0x45; 0x53; 0x50] |} ].

Lemma sample_guids_ok : guid_ok sample_guid /\ guid_ok GPT_GUID_ESP /\ guid_ok GPT_GUID_BIOS_BOOT.
Proof.
  split_and!; split; simpl; try (words; lia); try reflexivity;
    repeat (constructor; [words; lia|]); constructor.
Qed.

Lemma sample_parts_ok : Forall spec_ok sample_parts.
Proof.
  destruct sample_guids_ok as (H1 & H2 & H3).
  repeat (constructor; [split; simpl; try done; words; lia|]). constructor.
Qed.

Definition written_and (P : list Z -> bool) (r : option (option (list Z))) : bool :=
  match r with Some (Some image) => P image | _ => false end.
Lemma written_and_spec P r :
  written_and P r = true -> exists image, r = Some (Some image) /\ P image = true.
Proof. destruct r as [[image|]|]; try done. eauto. Qed.

(** The same disk with its first 34 sectors wiped. *)
Definition wipe (image : list Z) : list Z :=
  replicate (Z.to_nat 17408) 0 ++ drop (Z.to_nat 17408) image.

Lemma sample_image_run :
  exists image,
    gptWriteLayout crc32_cold (replicate (Z.to_nat 40960) 0) 80 sample_guid sample_parts =
      Some (Some image) /\
    (zlen image =? 40960) && forallb (fun b => (0 <=? b) && (b <? 256)) (wipe image) &&
    bool_decide (is_Some (validateHeader (image_dev 512 (wipe image)) 1)) &&
    bool_decide ((_ ← validateHeader (image_dev 512 (wipe image)) 1 ≫= id; Some tt) = None) = true.
Proof. apply written_and_spec. vm_compute. reflexivity. Qed.

Lemma wipe_keeps (a b c : list Z) o k :
  length a = length b -> 0 <= k -> zlen b <= o -> peek (a ++ c) o k = peek (b ++ c) o k.
Proof. intros Hl Hk Ho. unfold zlen in Ho. rewrite !peek_app_r by (unfold zlen; lia). unfold zlen. by rewrite Hl. Qed.

(** ** Properties *)

(** C7: Write then read: for every layout its checks accept, the image tool writes
    inside the image, leaves the partition payload untouched, and the loader finds
    in the result exactly the first partition of the requested type, with the
    disk's GUID, or reports NOT_FOUND when there is none. *)
Theorem gpt_roundtrip cs image total g parts T :
  crc32_state_ok cs -> guid_ok g -> Forall spec_ok parts -> is_bytes image ->
  zlen image = total * 512 -> total * 512 < 2 ^ 64 -> 68 <= total -> zlen parts <= 128 ->
  layout_ok gptFirstUsableLba (gptLastUsableLba total) [] parts = true ->
  exists image', gptWriteLayout cs image total g parts = Some (Some image') /\
    bootGptFindPartition (image_dev 512 image') T = Some (expected g parts T) /\
    (forall o k, 0 <= k -> 34 * 512 <= o -> o + k <= (total - 33) * 512 ->
       peek image' o k = peek image o k).
Proof.
  intros Hcs Hg Hp Hb Hl Hu Ht Hn Hlay.
  destruct (total_arith total Ht Hu) as (_ & _ & A3 & _). rewrite A3 in Hlay.
  destruct (gptWriteLayout_spec cs image total g parts) as (image' & Hw & Hwr & Hout); try done.
  exists image'. split_and!; [done| |done]. by apply (find_primary total); try apply Hwr.
Qed.

Lemma gpt_roundtrip_witness :
  exists image', gptWriteLayout crc32_cold (replicate (Z.to_nat 40960) 0) 80 sample_guid sample_parts =
      Some (Some image') /\
    bootGptFindPartition (image_dev 512 image') BOOT_GPT_TYPE_GUID_ESP =
      Some (BOOT_OK, Some ({| gp_typeGuid := BOOT_GPT_TYPE_GUID_ESP;
        gp_uniqueGuid := guid_bytes sample_guid; gp_startLba := 40; gp_endLba := 44 |},
        guid_bytes sample_guid)).
Proof.
  destruct (gpt_roundtrip crc32_cold (replicate (Z.to_nat 40960) 0) 80 sample_guid sample_parts
    BOOT_GPT_TYPE_GUID_ESP) as (image' & Hw & Hf & _).
  - intros H. discriminate H.
  - apply sample_guids_ok.
  - exact sample_parts_ok.
  - apply zeros_bytes.
  - rewrite zlen_replicate. lia.
  - lia.
  - lia.
  - vm_compute. discriminate.
  - vm_compute. reflexivity.
  - exists image'. split; [exact Hw|]. rewrite Hf. vm_compute. reflexivity.
Defined.

(** C35: One good copy is enough: if the sectors of the primary GPT (LBA 1 to 33)
    are overwritten with anything that does not pass for a header, the loader still
    finds the same partition through the backup at the end of the disk. *)
Theorem gpt_backup_recovers cs image total g parts T image' damaged :
  crc32_state_ok cs -> guid_ok g -> Forall spec_ok parts -> is_bytes image ->
  zlen image = total * 512 -> total * 512 < 2 ^ 64 -> 68 <= total -> zlen parts <= 128 ->
  layout_ok gptFirstUsableLba (gptLastUsableLba total) [] parts = true ->
  gptWriteLayout cs image total g parts = Some (Some image') ->
  is_bytes damaged -> zlen damaged = zlen image' ->
  (forall o k, 0 <= k -> 34 * 512 <= o -> peek damaged o k = peek image' o k) ->
  validateHeader (image_dev 512 damaged) 1 = Some None ->
  bootGptFindPartition (image_dev 512 damaged) T = Some (expected g parts T).
Proof.
  intros Hcs Hg Hp Hb Hl Hu Ht Hn Hlay Hrun Hdb Hdl Hout Hbad.
  destruct (total_arith total Ht Hu) as (_ & _ & A3 & _). rewrite A3 in Hlay.
  destruct (gptWriteLayout_spec cs image total g parts) as (image2 & Hw & Hwr & _); try done.
  rewrite Hrun in Hw. injection Hw as <-. by apply (find_backup total) with image'.
Qed.

Lemma gpt_backup_recovers_witness :
  exists image,
    gptWriteLayout crc32_cold (replicate (Z.to_nat 40960) 0) 80 sample_guid sample_parts =
      Some (Some image) /\
    bootGptFindPartition (image_dev 512 (wipe image)) BOOT_GPT_TYPE_GUID_ESP =
      Some (expected sample_guid sample_parts BOOT_GPT_TYPE_GUID_ESP).
Proof.
  destruct sample_image_run as (image & Hrun & Hc). exists image. split; [exact Hrun|].
  apply andb_prop in Hc as [Hc H4%bool_decide_eq_true_1].
  apply andb_prop in Hc as [Hc [h H3]%bool_decide_eq_true_1].
  apply andb_prop in Hc as [H1%Z.eqb_eq H2].
  assert (Hl : length image = Z.to_nat 40960) by (unfold zlen in H1; lia).
  apply (gpt_backup_recovers crc32_cold (replicate (Z.to_nat 40960) 0) 80 sample_guid sample_parts
    BOOT_GPT_TYPE_GUID_ESP image (wipe image)); try exact Hrun; try lia.
  - intros H. discriminate H.
  - apply sample_guids_ok.
  - exact sample_parts_ok.
  - apply zeros_bytes.
  - rewrite zlen_replicate. lia.
  - vm_compute. discriminate.
  - vm_compute. reflexivity.
  - apply Forall_forall. intros x Hx. rewrite forallb_forall in H2.
    apply list_elem_of_In, H2, andb_prop in Hx as [Ha%Z.leb_le Hb%Z.ltb_lt]. words. lia.
  - unfold wipe, zlen. rewrite length_app, length_replicate, length_drop, Hl. lia.
  - intros o k Hk Ho. rewrite <- (take_drop (Z.to_nat 17408) image) at 2.
    apply wipe_keeps; [|exact Hk|].
    + rewrite length_replicate, length_take, Hl. lia.
    + unfold zlen. rewrite length_take, Hl. lia.
  - rewrite H3 in H4 |- *. destruct h; [discriminate H4|reflexivity].
Defined.
