(* ===== verification/IntrusiveList.v ===== *)
(** * Intrusive doubly-linked lists

    Models kernel/include/list.h at the level of pointers: the store maps the
    address of a [ListNode] to its two links, an access to an address without a
    node is the fault [None].  The operations are shown to implement the
    sequence operations the buddy allocator and the page caches use, and to
    touch no node outside the list they are called on. *)

From S2P Require Import Prelude.

(** Models src/kernel/include/list.h:12-14, ListNode. *)
Record ListNode := mkNode { ln_next : Z; ln_prev : Z }.

Abbreviation store := (gmap Z ListNode).

(** Writes of [p->next] and [p->prev]. *)
Definition set_next (p v : Z) (m : store) : option store :=
  n ← m !! p; Some (<[p := mkNode v (ln_prev n)]> m).
Definition set_prev (p v : Z) (m : store) : option store :=
  n ← m !! p; Some (<[p := mkNode (ln_next n) v]> m).
Definition get_next (p : Z) (m : store) : option Z := ln_next <$> m !! p.
Definition get_prev (p : Z) (m : store) : option Z := ln_prev <$> m !! p.

Section Operations.

(** The build flag [KERNEL_DEBUG]. *)
Variable debug : bool.

(** Models src/kernel/include/list.h:18-21, listInit. *)
Definition listInit (node : Z) (m : store) : option store :=
  m ← set_next node node m; set_prev node node m.

(** Models src/kernel/include/list.h:24-26, listEmpty. *)
Definition listEmpty (head : Z) (m : store) : option bool :=
  n ← get_next head m; Some (n =? head).

(** Models src/kernel/include/list.h:30-35, listPushHead. *)
Definition listPushHead (head node : Z) (m : store) : option store :=
  n ← get_next head m;
  m ← set_next node n m;
  m ← set_prev node head m;
  n ← get_next head m;
  m ← set_prev n node m;
  set_next head node m.

(** Models src/kernel/include/list.h:38-43, listPushTail. *)
Definition listPushTail (head node : Z) (m : store) : option store :=
  p ← get_prev head m;
  m ← set_prev node p m;
  m ← set_next node head m;
  p ← get_prev head m;
  m ← set_next p node m;
  set_prev head node m.

(** Models src/kernel/include/list.h:49-56, listRemove. *)
Definition listRemove (node : Z) (m : store) : option store :=
  p ← get_prev node m;
  n ← get_next node m;
  m ← set_next p n m;
  n ← get_next node m;
  p ← get_prev node m;
  m ← set_prev n p m;
  if debug then m ← set_next node 0 m; set_prev node 0 m else Some m.

(** Models src/kernel/include/list.h:60-67, listPopHead.  [Some (None, m)] is the
    result NULL. *)
Definition listPopHead (head : Z) (m : store) : option (option Z * store) :=
  e ← listEmpty head m;
  if (e : bool) then Some (None, m)
  else
    node ← get_next head m;
    m ← listRemove node m;
    Some (Some node, m).

(** Models src/kernel/include/list.h:71-78, listPopTail. *)
Definition listPopTail (head : Z) (m : store) : option (option Z * store) :=
  e ← listEmpty head m;
  if (e : bool) then Some (None, m)
  else
    node ← get_prev head m;
    m ← listRemove node m;
    Some (Some node, m).

End Operations.

(** ** The shape of a list *)

Definition linked (m : store) (a b : Z) : Prop := get_next a m = Some b /\ get_prev b m = Some a.

Fixpoint path (m : store) (L : list Z) : Prop :=
  match L with
  | a :: (b :: _) as L' => linked m a b /\ path m L'
  | _ => True
  end.

(** The list headed by [h] holds the nodes [l], front to back. *)
Definition ring (m : store) (h : Z) (l : list Z) : Prop :=
  NoDup (h :: l) /\ path m (h :: l ++ [h]).

Lemma path_app m L1 a L2 : path m (L1 ++ a :: L2) <-> path m (L1 ++ [a]) /\ path m (a :: L2).
Proof.
  induction L1 as [|x L1 IH]; simpl; [tauto|].
  destruct L1 as [|y L1]; simpl in *; tauto.
Qed.

(** Reads after writes. *)
Lemma get_next_set_next p v m m' q :
  set_next p v m = Some m' -> get_next q m' = if decide (q = p) then Some v else get_next q m.
Proof.
  unfold set_next, get_next. destruct (m !! p) as [n|] eqn:E; simpl; [|discriminate]. intros [= <-].
  rewrite lookup_insert. repeat case_decide; subst; simpl; congruence.
Qed.
Lemma get_prev_set_next p v m m' q : set_next p v m = Some m' -> get_prev q m' = get_prev q m.
Proof.
  unfold set_next, get_prev. destruct (m !! p) as [n|] eqn:E; simpl; [|discriminate]. intros [= <-].
  rewrite lookup_insert. case_decide; subst; rewrite ?E; reflexivity.
Qed.
Lemma get_prev_set_prev p v m m' q :
  set_prev p v m = Some m' -> get_prev q m' = if decide (q = p) then Some v else get_prev q m.
Proof.
  unfold set_prev, get_prev. destruct (m !! p) as [n|] eqn:E; simpl; [|discriminate]. intros [= <-].
  rewrite lookup_insert. repeat case_decide; subst; simpl; congruence.
Qed.
Lemma get_next_set_prev p v m m' q : set_prev p v m = Some m' -> get_next q m' = get_next q m.
Proof.
  unfold set_prev, get_next. destruct (m !! p) as [n|] eqn:E; simpl; [|discriminate]. intros [= <-].
  rewrite lookup_insert. case_decide; subst; rewrite ?E; reflexivity.
Qed.

(** A write succeeds at every node, keeps the set of nodes, and changes only that node. *)
Lemma set_next_ok p v m : is_Some (m !! p) ->
  exists m', set_next p v m = Some m' /\ (forall q, is_Some (m' !! q) <-> is_Some (m !! q)) /\
    (forall q, q <> p -> m' !! q = m !! q).
Proof.
  intros [n E]. unfold set_next. rewrite E. simpl. eexists. split; [reflexivity|]. split.
  - intros q. rewrite lookup_insert_is_Some'. split; [|auto]. intros [<-|?]; [eauto|assumption].
  - intros q Hq. apply lookup_insert_ne. congruence.
Qed.
Lemma set_prev_ok p v m : is_Some (m !! p) ->
  exists m', set_prev p v m = Some m' /\ (forall q, is_Some (m' !! q) <-> is_Some (m !! q)) /\
    (forall q, q <> p -> m' !! q = m !! q).
Proof.
  intros [n E]. unfold set_prev. rewrite E. simpl. eexists. split; [reflexivity|]. split.
  - intros q. rewrite lookup_insert_is_Some'. split; [|auto]. intros [<-|?]; [eauto|assumption].
  - intros q Hq. apply lookup_insert_ne. congruence.
Qed.

(** A path only depends on the forward links of its sources and the backward
    links of its targets. *)
Lemma path_ext m m' L :
  path m L ->
  (forall a, a ∈ removelast L -> get_next a m' = get_next a m) ->
  (forall b, b ∈ tail L -> get_prev b m' = get_prev b m) ->
  path m' L.
Proof.
  induction L as [|a [|b L] IH]; [auto..|]. intros [[Hn Hp] Hpath] Ho Hi. split.
  - split; [rewrite Ho|rewrite Hi]; try assumption; set_solver.
  - apply IH; [assumption|..]; intros x Hx; [apply Ho|apply Hi]; simpl in *; [set_solver|].
    apply elem_of_cons; auto.
Qed.

Lemma node_of_next p m v : get_next p m = Some v -> is_Some (m !! p).
Proof. unfold get_next. destruct (m !! p); [eauto|discriminate]. Qed.
Lemma node_of_prev p m v : get_prev p m = Some v -> is_Some (m !! p).
Proof. unfold get_prev. destruct (m !! p); [eauto|discriminate]. Qed.

Lemma removelast_incl {A} (x : A) L : x ∈ removelast L -> x ∈ L.
Proof.
  induction L as [|a [|b L] IH]; [auto|intros H; inversion H|]. simpl in *.
  rewrite !elem_of_cons in *. tauto.
Qed.

(** ** Splicing a node out of a path and into it *)

Lemma removelast_mid {A} (P : list A) a R : R <> [] -> removelast (P ++ a :: R) = P ++ a :: removelast R.
Proof. intros HR. rewrite removelast_app by discriminate. destruct R; [contradiction|reflexivity]. Qed.

Lemma tail_mid {A} (P : list A) a R : tail (P ++ a :: R) = tail (P ++ [a]) ++ R.
Proof. destruct P; simpl; [reflexivity|]. rewrite <- app_assoc. reflexivity. Qed.

(** A step that redirects the forward link of [a] and the backward link of [b],
    up to the links of the node [x]. *)
Definition redirects (m m' : store) (a b x : Z) : Prop :=
  (forall y, y <> a -> y <> x -> get_next y m' = get_next y m) /\
  (forall y, y <> b -> y <> x -> get_prev y m' = get_prev y m).

Lemma redirects_outer m m' P a b Q x R :
  redirects m m' a b x ->
  NoDup (removelast (P ++ a :: R)) -> NoDup (tail (P ++ a :: R)) -> suffix (b :: Q) R ->
  x ∉ P -> x ∉ tail (P ++ [a]) -> x ∉ b :: Q ->
  path m (P ++ [a]) -> path m (b :: Q) -> path m' (P ++ [a]) /\ path m' (b :: Q).
Proof.
  intros (Hn & Hp) Hs Ht [R1 ->] Hx1 Hx2 Hx3 H1 H2.
  rewrite removelast_mid in Hs by (destruct R1; discriminate). rewrite tail_mid in Ht.
  rewrite removelast_app in Hs by discriminate.
  split; (eapply path_ext; [eassumption|..]).
  - intros y Hy. rewrite removelast_last in Hy. apply Hn; [|congruence].
    intros ->. apply NoDup_app in Hs as (_ & Hd & _). apply (Hd a Hy). set_solver.
  - intros y Hy. apply Hp; [|congruence].
    intros ->. apply NoDup_app in Ht as (_ & Hd & _). apply (Hd b Hy). set_solver.
  - intros y Hy. apply Hn; [|intros ->; apply Hx3; apply removelast_incl, Hy].
    intros ->. apply NoDup_app in Hs as (_ & _ & Hs). apply NoDup_cons in Hs as [Hs _].
    apply Hs. set_solver.
  - intros y Hy. apply Hp; [|set_solver].
    intros ->. apply NoDup_app in Ht as (_ & _ & Ht). apply NoDup_app in Ht as (_ & _ & Ht).
    apply NoDup_cons in Ht as [Ht _]. contradiction.
Qed.

(** [m'] has the same nodes as [m] and differs at most on [S]. *)
Definition touches (m m' : store) (S : list Z) : Prop :=
  (forall q, is_Some (m' !! q) <-> is_Some (m !! q)) /\ (forall q, q ∉ S -> m' !! q = m !! q).

Lemma touches_trans m m1 m2 S : touches m m1 S -> touches m1 m2 S -> touches m m2 S.
Proof.
  intros [H1 H2] [H3 H4]. split; intros q; [rewrite H3; apply H1|].
  intros Hq. rewrite H4, H2 by assumption. reflexivity.
Qed.

Lemma set_next_touches p v m S : is_Some (m !! p) -> p ∈ S ->
  exists m', set_next p v m = Some m' /\ touches m m' S.
Proof.
  intros Hp HS. destruct (set_next_ok p v m Hp) as (m' & E & H1 & H2).
  exists m'. split; [exact E|]. split; [exact H1|]. intros q Hq. apply H2. intros ->. contradiction.
Qed.
Lemma set_prev_touches p v m S : is_Some (m !! p) -> p ∈ S ->
  exists m', set_prev p v m = Some m' /\ touches m m' S.
Proof.
  intros Hp HS. destruct (set_prev_ok p v m Hp) as (m' & E & H1 & H2).
  exists m'. split; [exact E|]. split; [exact H1|]. intros q Hq. apply H2. intros ->. contradiction.
Qed.

Lemma listRemove_redirects debug m a x b :
  linked m a x -> linked m x b -> x <> a -> x <> b ->
  exists m', listRemove debug x m = Some m' /\ linked m' a b /\ redirects m m' a b x /\ touches m m' [a; x; b].
Proof.
  intros [Ha Hxa] [Hxb Hb] Na Nb.
  assert (Sa : is_Some (m !! a)) by eauto using node_of_next.
  assert (Sx : is_Some (m !! x)) by eauto using node_of_next.
  assert (Sb : is_Some (m !! b)) by eauto using node_of_prev.
  unfold listRemove. rewrite Hxa, Hxb. simpl.
  destruct (set_next_touches a b m [a; x; b] Sa) as (m1 & E1 & T1); [set_solver|]. rewrite E1. simpl.
  rewrite (get_next_set_next _ _ _ _ _ E1), (get_prev_set_next _ _ _ _ _ E1).
  rewrite decide_False by assumption. rewrite Hxb, Hxa. simpl.
  destruct (set_prev_touches b a m1 [a; x; b]) as (m2 & E2 & T2); [apply T1, Sb|set_solver|].
  rewrite E2. simpl. pose proof (touches_trans _ _ _ _ T1 T2) as T12.
  assert (H2 : linked m2 a b /\ redirects m m2 a b x).
  { split; split.
    - rewrite (get_next_set_prev _ _ _ _ _ E2), (get_next_set_next _ _ _ _ _ E1).
      apply decide_True. reflexivity.
    - rewrite (get_prev_set_prev _ _ _ _ _ E2). apply decide_True. reflexivity.
    - intros y Hya Hyx. rewrite (get_next_set_prev _ _ _ _ _ E2), (get_next_set_next _ _ _ _ _ E1).
      apply decide_False. assumption.
    - intros y Hyb Hyx. rewrite (get_prev_set_prev _ _ _ _ _ E2), decide_False by assumption.
      apply (get_prev_set_next _ _ _ _ _ E1). }
  destruct debug; [|exists m2; tauto].
  destruct (set_next_touches x 0 m2 [a; x; b]) as (m3 & E3 & T3); [apply T12, Sx|set_solver|].
  rewrite E3. simpl. pose proof (touches_trans _ _ _ _ T12 T3) as T13.
  destruct (set_prev_touches x 0 m3 [a; x; b]) as (m4 & E4 & T4); [apply T13, Sx|set_solver|].
  exists m4. split; [exact E4|].
  enough (linked m4 a b /\ redirects m m4 a b x)
    by (split; [tauto|]; split; [tauto|]; eapply touches_trans; eassumption).
  destruct H2 as ([L1 L2] & H2n & H2p). split; split.
  - rewrite (get_next_set_prev _ _ _ _ _ E4), (get_next_set_next _ _ _ _ _ E3), decide_False by congruence.
    exact L1.
  - rewrite (get_prev_set_prev _ _ _ _ _ E4), decide_False, (get_prev_set_next _ _ _ _ _ E3) by congruence.
    exact L2.
  - intros y Hya Hyx. rewrite (get_next_set_prev _ _ _ _ _ E4), (get_next_set_next _ _ _ _ _ E3).
    rewrite decide_False by assumption. auto.
  - intros y Hyb Hyx. rewrite (get_prev_set_prev _ _ _ _ _ E4), decide_False by assumption.
    rewrite (get_prev_set_next _ _ _ _ _ E3). auto.
Qed.

(** The two ways a push writes its four links. *)
Lemma listPushHead_inserts m h x b :
  linked m h b -> is_Some (m !! x) -> x <> h -> x <> b ->
  exists m', listPushHead h x m = Some m' /\ linked m' h x /\ linked m' x b /\
    redirects m m' h b x /\ touches m m' [h; x; b].
Proof.
  intros [Hh Hb] Sx Nh Nb.
  assert (Sh : is_Some (m !! h)) by eauto using node_of_next.
  assert (Sb : is_Some (m !! b)) by eauto using node_of_prev.
  unfold listPushHead. rewrite Hh. simpl.
  destruct (set_next_touches x b m [h; x; b] Sx) as (m1 & E1 & T1); [set_solver|]. rewrite E1. simpl.
  destruct (set_prev_touches x h m1 [h; x; b]) as (m2 & E2 & T2); [apply T1, Sx|set_solver|].
  rewrite E2. simpl. pose proof (touches_trans _ _ _ _ T1 T2) as T12.
  assert (Ehn : get_next h m2 = Some b).
  { rewrite (get_next_set_prev _ _ _ _ _ E2), (get_next_set_next _ _ _ _ _ E1), decide_False; congruence. }
  rewrite Ehn. simpl.
  destruct (set_prev_touches b x m2 [h; x; b]) as (m3 & E3 & T3); [apply T12, Sb|set_solver|].
  rewrite E3. simpl. pose proof (touches_trans _ _ _ _ T12 T3) as T13.
  destruct (set_next_touches h x m3 [h; x; b]) as (m4 & E4 & T4); [apply T13, Sh|set_solver|].
  exists m4. split; [exact E4|].
  assert (Rn : forall y, get_next y m4 = if decide (y = h) then Some x else if decide (y = x) then Some b else get_next y m).
  { intros y. rewrite (get_next_set_next _ _ _ _ _ E4), (get_next_set_prev _ _ _ _ _ E3),
      (get_next_set_prev _ _ _ _ _ E2), (get_next_set_next _ _ _ _ _ E1). reflexivity. }
  assert (Rp : forall y, get_prev y m4 = if decide (y = b) then Some x else if decide (y = x) then Some h else get_prev y m).
  { intros y. rewrite (get_prev_set_next _ _ _ _ _ E4), (get_prev_set_prev _ _ _ _ _ E3),
      (get_prev_set_prev _ _ _ _ _ E2), (get_prev_set_next _ _ _ _ _ E1). reflexivity. }
  pose proof (touches_trans _ _ _ _ T13 T4) as T14.
  unfold linked, redirects. rewrite !Rn, !Rp.
  split; [|split; [|split; [|exact T14]]]; split; try (intros y ? ?; rewrite ?Rn, ?Rp);
    repeat case_decide; congruence.
Qed.

Lemma listPushTail_inserts m h x a :
  linked m a h -> is_Some (m !! x) -> x <> h -> x <> a ->
  exists m', listPushTail h x m = Some m' /\ linked m' a x /\ linked m' x h /\
    redirects m m' a h x /\ touches m m' [a; x; h].
Proof.
  intros [Ha Hh] Sx Nh Na.
  assert (Sh : is_Some (m !! h)) by eauto using node_of_prev.
  assert (Sa : is_Some (m !! a)) by eauto using node_of_next.
  unfold listPushTail. rewrite Hh. simpl.
  destruct (set_prev_touches x a m [a; x; h] Sx) as (m1 & E1 & T1); [set_solver|]. rewrite E1. simpl.
  destruct (set_next_touches x h m1 [a; x; h]) as (m2 & E2 & T2); [apply T1, Sx|set_solver|].
  rewrite E2. simpl. pose proof (touches_trans _ _ _ _ T1 T2) as T12.
  assert (Ehp : get_prev h m2 = Some a).
  { rewrite (get_prev_set_next _ _ _ _ _ E2), (get_prev_set_prev _ _ _ _ _ E1), decide_False; congruence. }
  rewrite Ehp. simpl.
  destruct (set_next_touches a x m2 [a; x; h]) as (m3 & E3 & T3); [apply T12, Sa|set_solver|].
  rewrite E3. simpl. pose proof (touches_trans _ _ _ _ T12 T3) as T13.
  destruct (set_prev_touches h x m3 [a; x; h]) as (m4 & E4 & T4); [apply T13, Sh|set_solver|].
  exists m4. split; [exact E4|].
  assert (Rn : forall y, get_next y m4 = if decide (y = a) then Some x else if decide (y = x) then Some h else get_next y m).
  { intros y. rewrite (get_next_set_prev _ _ _ _ _ E4), (get_next_set_next _ _ _ _ _ E3),
      (get_next_set_next _ _ _ _ _ E2), (get_next_set_prev _ _ _ _ _ E1). reflexivity. }
  assert (Rp : forall y, get_prev y m4 = if decide (y = h) then Some x else if decide (y = x) then Some a else get_prev y m).
  { intros y. rewrite (get_prev_set_prev _ _ _ _ _ E4), (get_prev_set_next _ _ _ _ _ E3),
      (get_prev_set_next _ _ _ _ _ E2), (get_prev_set_prev _ _ _ _ _ E1). reflexivity. }
  pose proof (touches_trans _ _ _ _ T13 T4) as T14.
  unfold linked, redirects. rewrite !Rn, !Rp.
  split; [|split; [|split; [|exact T14]]]; split; try (intros y ? ?; rewrite ?Rn, ?Rp);
    repeat case_decide; congruence.
Qed.

(** ** Lists *)

(** The neighbours of the position between [l1] and [R] in the path of a ring. *)
Lemma ring_focus m h l1 R :
  path m (h :: l1 ++ R ++ [h]) ->
  exists P a b Q, h :: l1 = P ++ [a] /\ (R ++ [h] = b :: Q) /\ linked m a b /\
    path m (P ++ [a]) /\ path m (b :: Q) /\ h :: l1 ++ R ++ [h] = P ++ a :: b :: Q.
Proof.
  intros Hp. destruct (exists_last (l := h :: l1)) as (P & a & E); [discriminate|].
  destruct (R ++ [h]) as [|b Q] eqn:ER; [destruct R; discriminate|].
  assert (EL : h :: l1 ++ b :: Q = P ++ a :: b :: Q)
    by (rewrite app_comm_cons, E, <- app_assoc; reflexivity).
  rewrite EL in Hp. apply path_app in Hp as [H1 [H2 H3]].
  exists P, a, b, Q. repeat split; try assumption; apply H2.
Qed.

Lemma ring_ends h (l : list Z) :
  NoDup (h :: l) -> NoDup (removelast (h :: l ++ [h])) /\ NoDup (tail (h :: l ++ [h])).
Proof.
  intros Hnd. split.
  - rewrite app_comm_cons, removelast_last. exact Hnd.
  - simpl. apply NoDup_app. apply NoDup_cons in Hnd as [Hh Hl].
    split; [exact Hl|]. split; [set_solver|apply NoDup_singleton].
Qed.

Lemma ring_remove debug m h l1 x l2 :
  ring m h (l1 ++ x :: l2) ->
  exists m', listRemove debug x m = Some m' /\ ring m' h (l1 ++ l2) /\ touches m m' (h :: l1 ++ x :: l2).
Proof.
  intros [Hnd Hp]. destruct (ring_ends _ _ Hnd) as [Hs Ht].
  rewrite <- app_assoc in Hs, Ht, Hp.
  destruct (ring_focus m h l1 (x :: l2) Hp) as (P & a & x' & Q' & E1 & E2 & Lax & Hpa & Hpb & EL).
  rewrite EL in Hs, Ht. clear EL Hp. injection E2 as <- <-.
  destruct (l2 ++ [h]) as [|b Q] eqn:E3; [destruct l2; discriminate|].
  destruct Hpb as [Lxb Hpb].
  assert (Hx : (x ∉ h :: l1) /\ (x ∉ l2 ++ [h])).
  { clear -Hnd. rewrite app_comm_cons in Hnd. apply NoDup_app in Hnd as (_ & Hd & Hn).
    apply NoDup_cons in Hn as [Hn _]. split; [intros Hin; apply (Hd x Hin); set_solver|].
    assert (x <> h) by (intros e; subst x; apply (Hd h); set_solver). set_solver. }
  rewrite E1, E3 in Hx. destruct Hx as [Hx1 Hx2].
  destruct (listRemove_redirects debug m a x b Lax Lxb) as (m' & E & Lab & Hre & Htch); [set_solver..|].
  exists m'. split; [exact E|].
  destruct (redirects_outer m m' P a b Q x (x :: b :: Q) Hre) as [G1 G2]; try assumption.
  { exists [x]. reflexivity. } { set_solver. }
  { intros Hin. apply Hx1. destruct P; simpl in *; set_solver. }
  split; [split|].
  - clear -Hnd. apply NoDup_cons in Hnd as [Hh Hl]. apply NoDup_cons. split; [set_solver|].
    apply NoDup_app in Hl as (? & Hd & Hn). apply NoDup_cons in Hn as [? ?]. apply NoDup_app.
    split; [assumption|]. split; [set_solver|assumption].
  - rewrite <- app_assoc, E3, app_comm_cons, E1, <- app_assoc. apply path_app.
    split; [exact G1|]. simpl. destruct Q; [tauto|]. split; [assumption|]. exact G2.
  - destruct Htch as [T1 T2]. split; [exact T1|]. intros q Hq. apply T2. intros Hin. apply Hq.
    assert (a ∈ h :: l1) by (rewrite E1; set_solver).
    assert (b ∈ l2 ++ [h]) by (rewrite E3; set_solver). set_solver.
Qed.

(** A fresh node goes between [a] and [b]. *)
Lemma ring_insert m m' h l1 l2 x P a b Q :
  ring m h (l1 ++ l2) -> x ∉ h :: l1 ++ l2 ->
  h :: l1 = P ++ [a] -> l2 ++ [h] = b :: Q ->
  path m (P ++ [a]) -> path m (b :: Q) ->
  linked m' a x -> linked m' x b -> redirects m m' a b x -> touches m m' [a; x; b] ->
  ring m' h (l1 ++ x :: l2) /\ touches m m' (x :: h :: l1 ++ l2).
Proof.
  intros [Hnd _] Hx E1 E2 Hpa Hpb L1 L2 Hre Ht. destruct (ring_ends _ _ Hnd) as [Hs Hta].
  rewrite <- app_assoc, E2, app_comm_cons, E1, <- app_assoc in Hs, Hta. simpl in Hs, Hta.
  assert (Ha : forall y, y ∈ P ++ [a] -> y ∈ h :: l1 ++ l2).
  { intros y. rewrite <- E1, app_comm_cons. intros Hy. apply elem_of_app. auto. }
  assert (Hb : forall y, y ∈ b :: Q -> y ∈ h :: l1 ++ l2).
  { intros y. rewrite <- E2, elem_of_cons, !elem_of_app, list_elem_of_singleton. tauto. }
  destruct (redirects_outer m m' P a b Q x (b :: Q) Hre Hs Hta) as [G1 G2]; try assumption.
  { reflexivity. }
  { intros Hin. apply Hx, Ha, elem_of_app. auto. }
  { intros Hin. apply Hx, Ha. destruct P; [inversion Hin|]. apply elem_of_cons. auto. }
  { intros Hin. apply Hx, Hb, Hin. }
  split; [split|].
  - clear -Hnd Hx. rewrite app_comm_cons in *. rewrite <- Permutation_middle. apply NoDup_cons. auto.
  - assert (EL : h :: (l1 ++ x :: l2) ++ [h] = P ++ a :: x :: b :: Q).
    { rewrite <- app_assoc, app_comm_cons, E1, <- app_assoc. simpl. rewrite E2. reflexivity. }
    rewrite EL. apply path_app.
    split; [exact G1|]. split; [exact L1|]. split; [exact L2|exact G2].
  - destruct Ht as [T1 T2]. split; [exact T1|]. intros q Hq. apply T2. intros Hin. apply Hq.
    apply elem_of_cons. apply elem_of_cons in Hin as [->|Hin]; [right; apply Ha, elem_of_app; right; set_solver|].
    apply elem_of_cons in Hin as [->|Hin]; [auto|]. right. apply Hb.
    apply list_elem_of_singleton in Hin as ->. apply elem_of_cons. auto.
Qed.

Lemma ring_push_head m h l x :
  ring m h l -> is_Some (m !! x) -> x ∉ h :: l ->
  exists m', listPushHead h x m = Some m' /\ ring m' h (x :: l) /\ touches m m' (x :: h :: l).
Proof.
  intros Hr Sx Hx. destruct (ring_focus m h [] l (proj2 Hr)) as (P & a & b & Q & E1 & E2 & L & Hpa & Hpb & _).
  assert (P = [] /\ a = h) as [-> ->] by (destruct P as [|? [|? ?]]; simpl in E1; split; congruence).
  assert (Hb : b ∈ h :: l) by (assert (b ∈ l ++ [h]) by (rewrite E2; set_solver); set_solver).
  destruct (listPushHead_inserts m h x b L Sx) as (m' & E & G1 & G2 & G3 & G4); [set_solver..|].
  exists m'. split; [exact E|]. apply (ring_insert m m' h [] l x [] h b Q); assumption.
Qed.

Lemma ring_push_tail m h l x :
  ring m h l -> is_Some (m !! x) -> x ∉ h :: l ->
  exists m', listPushTail h x m = Some m' /\ ring m' h (l ++ [x]) /\ touches m m' (x :: h :: l).
Proof.
  intros Hr Sx Hx. rewrite <- (app_nil_r l) in Hr, Hx.
  destruct Hr as [Hnd Hp]. pose proof Hp as Hp'. rewrite <- app_assoc in Hp'.
  destruct (ring_focus m h l [] Hp') as (P & a & b & Q & E1 & E2 & L & Hpa & Hpb & _).
  injection E2 as <- <-.
  assert (Ha : a ∈ h :: l) by (rewrite E1; set_solver).
  destruct (listPushTail_inserts m h x a L Sx) as (m' & E & G1 & G2 & G3 & G4); [set_solver..|].
  exists m'. split; [exact E|]. rewrite <- (app_nil_r l) at 2.
  apply (ring_insert m m' h l [] x P a h []); try assumption; [split; assumption|reflexivity].
Qed.

Lemma ring_empty m h l : ring m h l -> listEmpty h m = Some (match l with [] => true | _ => false end).
Proof.
  intros [Hnd Hp]. destruct l as [|x l]; destruct Hp as [[Hn _] _]; unfold listEmpty; rewrite Hn; simpl; f_equal.
  - apply Z.eqb_refl.
  - apply Z.eqb_neq. intros ->. apply NoDup_cons in Hnd as [Hnd _]. set_solver.
Qed.

Lemma ring_ends_reads m h x l y : ring m h (x :: l) -> last (x :: l) = Some y ->
  get_next h m = Some x /\ get_prev h m = Some y.
Proof.
  intros [_ Hp] Hl. split; [apply Hp|].
  apply last_Some in Hl as [l' E]. rewrite E, <- app_assoc in Hp.
  change (h :: l' ++ [y] ++ [h]) with ((h :: l') ++ y :: [h]) in Hp.
  apply path_app in Hp as [_ [[_ Hp] _]]. exact Hp.
Qed.

(** ** The operations as a whole *)

Inductive list_op := PushHead (x : Z) | PushTail (x : Z) | Remove (x : Z) | PopHead | PopTail.

(** The call on the store. *)
Definition run_op (debug : bool) (h : Z) (op : list_op) (m : store) : option (option Z * store) :=
  match op with
  | PushHead x => m ← listPushHead h x m; Some (None, m)
  | PushTail x => m ← listPushTail h x m; Some (None, m)
  | Remove x => m ← listRemove debug x m; Some (None, m)
  | PopHead => listPopHead debug h m
  | PopTail => listPopTail debug h m
  end.

(** The sequence operation it stands for. *)
Definition seq_op (op : list_op) (l : list Z) : option Z * list Z :=
  match op with
  | PushHead x => (None, x :: l)
  | PushTail x => (None, l ++ [x])
  | Remove x => (None, filter (.≠ x) l)
  | PopHead => (head l, tail l)
  | PopTail => (last l, removelast l)
  end.

(** The callers' side of the contract: a pushed node is a node that is not
    linked, a removed one is. *)
Definition op_ok (m : store) (h : Z) (l : list Z) (op : list_op) : Prop :=
  match op with
  | PushHead x | PushTail x => is_Some (m !! x) /\ x ∉ h :: l
  | Remove x => x ∈ l
  | _ => True
  end.

Definition op_nodes (op : list_op) : list Z :=
  match op with PushHead x | PushTail x => [x] | _ => [] end.

Lemma filter_mid (l1 l2 : list Z) x :
  NoDup (l1 ++ x :: l2) -> filter (.≠ x) (l1 ++ x :: l2) = l1 ++ l2.
Proof.
  intros Hnd. apply NoDup_app in Hnd as (_ & Hd & Hn). apply NoDup_cons in Hn as [Hn _].
  rewrite filter_app, filter_cons_False by auto. f_equal.
  - assert (Hx : x ∉ l1) by (intros Hin; apply (Hd x Hin); set_solver). clear -Hx.
    induction l1 as [|y l1 IH]; [reflexivity|]. apply not_elem_of_cons in Hx as [? ?].
    rewrite filter_cons_True by congruence. f_equal. auto.
  - clear -Hn. induction l2 as [|y l2 IH]; [reflexivity|]. apply not_elem_of_cons in Hn as [? ?].
    rewrite filter_cons_True by congruence. f_equal. auto.
Qed.

(** C22: The pointer code of list.h implements sequence operations: under the
    callers' contract no operation faults, the list it leaves is the result of
    the sequence operation, a pop returns the end it names (or nothing from an
    empty list), and no node outside the list and the operation's own argument
    is written. *)
Theorem list_ops_refine debug m h l op :
  ring m h l -> op_ok m h l op ->
  exists m', run_op debug h op m = Some (fst (seq_op op l), m') /\
    ring m' h (snd (seq_op op l)) /\ touches m m' (op_nodes op ++ h :: l).
Proof.
  intros Hr Hop. destruct op as [x|x|x| |]; simpl in *.
  - destruct Hop as [Sx Hx]. destruct (ring_push_head m h l x Hr Sx Hx) as (m' & E & ? & ?).
    exists m'. rewrite E. auto.
  - destruct Hop as [Sx Hx]. destruct (ring_push_tail m h l x Hr Sx Hx) as (m' & E & ? & ?).
    exists m'. rewrite E. auto.
  - apply list_elem_of_split in Hop as (l1 & l2 & ->).
    destruct (ring_remove debug m h l1 x l2 Hr) as (m' & E & ? & ?). exists m'. rewrite E.
    rewrite filter_mid by (eapply NoDup_cons, Hr). auto.
  - unfold listPopHead. rewrite (ring_empty _ _ _ Hr). destruct l as [|x l]; simpl.
    { exists m. repeat split; try apply Hr; auto. }
    destruct (last_is_Some (x :: l)) as [_ Hl]. destruct (Hl ltac:(discriminate)) as [y Hy].
    destruct (ring_ends_reads m h x l y Hr Hy) as [-> _]. simpl.
    destruct (ring_remove debug m h [] x l Hr) as (m' & E & ? & ?). exists m'. rewrite E. auto.
  - unfold listPopTail. rewrite (ring_empty _ _ _ Hr). destruct l as [|x l].
    { exists m. repeat split; try apply Hr; auto. }
    destruct (last_is_Some (x :: l)) as [_ Hl]. destruct (Hl ltac:(discriminate)) as [y Hy].
    destruct (ring_ends_reads m h x l y Hr Hy) as [_ Hg]. cbn [mbind option_bind]. rewrite Hg. simpl mbind.
    pose proof Hy as Hy'. apply last_Some in Hy' as [l' E']. rewrite E' in Hr |- *.
    destruct (ring_remove debug m h l' y [] Hr) as (m' & E & Hr' & Ht). exists m'. rewrite E. simpl.
    rewrite last_snoc, removelast_last. rewrite app_nil_r in Hr'. auto.
Qed.

(** The list headed by node 100 with the nodes 1 and 2; node 3 is not linked. *)
Definition sample_store : store :=
  list_to_map [(100, mkNode 1 2); (1, mkNode 2 100); (2, mkNode 100 1); (3, mkNode 0 0)].

Lemma sample_ring : ring sample_store 100 [1; 2].
Proof.
  split; [|repeat split].
  repeat (apply NoDup_cons; split; [set_solver|]). apply NoDup_nil. exact I.
Qed.

Lemma list_ops_refine_witness :
  exists m', run_op true 100 PopTail sample_store = Some (Some 2, m') /\ ring m' 100 [1] /\
    touches sample_store m' ([] ++ 100 :: [1; 2]).
Proof. apply (list_ops_refine true sample_store 100 [1; 2] PopTail sample_ring I). Defined.
