(* ===== verification/Buddy.v ===== *)
(** * The buddy allocator core

    Models kernel/mm/buddy.c with the types it works on (kernel/include/page.h,
    kernel/mm/pmm-internal.h).  Block state lives in the page array, a finite
    map from frame numbers to [Page] entries: an access to a frame without an
    entry is the fault [None].  The intrusive lists threaded through [Page.lru]
    are the sequences of frame numbers [bs_list]; the file IntrusiveList shows
    that the pointer code of list.h implements exactly these sequence
    operations. *)

From stdpp Require Import strings functions.
From S2P Require Import Prelude BootTypes.

(** ** Data *)

(** Models src/kernel/include/page.h:18-24, PageState. *)
Definition PAGE_STATE_RESERVED : Z := 0.
Definition PAGE_STATE_TAIL : Z := 1.
Definition PAGE_STATE_BUDDY : Z := 2.
Definition PAGE_STATE_PCP : Z := 3.
Definition PAGE_STATE_ALLOCATED : Z := 4.

(** Models src/kernel/include/page.h:39-51, Page. *)
Record Page := mkPage {
  pg_state : Z; pg_order : Z; pg_flags : Z; pg_refcount : Z; pg_mapcount : Z;
  pg_object : Z; pg_objectIndex : Z; pg_privateWord : Z
}.

(** A fresh page array is zero-filled. *)
Definition zeroPage : Page := mkPage 0 0 0 0 0 0 0 0.

Definition set_state (s : Z) (p : Page) : Page :=
  mkPage s (pg_order p) (pg_flags p) (pg_refcount p) (pg_mapcount p) (pg_object p)
    (pg_objectIndex p) (pg_privateWord p).
Definition set_order (o : Z) (p : Page) : Page :=
  mkPage (pg_state p) o (pg_flags p) (pg_refcount p) (pg_mapcount p) (pg_object p)
    (pg_objectIndex p) (pg_privateWord p).
Definition set_flags (f : Z) (p : Page) : Page :=
  mkPage (pg_state p) (pg_order p) f (pg_refcount p) (pg_mapcount p) (pg_object p)
    (pg_objectIndex p) (pg_privateWord p).
Definition set_refcount (r : Z) (p : Page) : Page :=
  mkPage (pg_state p) (pg_order p) (pg_flags p) r (pg_mapcount p) (pg_object p)
    (pg_objectIndex p) (pg_privateWord p).

Definition PMM_MAX_ORDER : Z := 10.
Definition PMM_ORDER_COUNT : Z := PMM_MAX_ORDER + 1.

(** Models src/kernel/include/pmm.h:31-31, PmmZoneId. *)
Inductive PmmZoneId := PMM_ZONE_DMA32 | PMM_ZONE_NORMAL.

#[global] Instance PmmZoneId_eq_dec : EqDecision PmmZoneId.
Proof. solve_decision. Defined.

(** The list heads of the pmm: [PmmZone.freeList] and the per-CPU caches. *)
Inductive Head := FreeList (z : PmmZoneId) (k : Z) | CacheList (z : PmmZoneId).

#[global] Instance Head_eq_dec : EqDecision Head.
Proof. solve_decision. Defined.

(** Models src/kernel/mm/pmm-internal.h:125-134, PmmZone.  The list heads of the
    zone are [FreeList z k]. *)
Record PmmZone := mkZone {
  zn_freeBlocks : Z -> Z; zn_freePages : Z; zn_managedPages : Z;
  zn_startPfn : Z; zn_endPfn : Z; zn_name : string
}.

Definition PMM_ZONE_DMA32_END_PFN : Z := 2 ^ 20.

(** Models src/kernel/mm/pmm-internal.h:23-25, pmmZoneOfPfn. *)
Definition pmmZoneOfPfn (pfn : Z) : PmmZoneId :=
  if pfn <? PMM_ZONE_DMA32_END_PFN then PMM_ZONE_DMA32 else PMM_ZONE_NORMAL.

Record BuddyState := mkBuddy {
  bs_pages : gmap Z Page;
  bs_list : Head -> list Z;
  bs_zone : PmmZoneId -> PmmZone
}.

(** ** The primitive updates *)

Definition with_pages (ps : gmap Z Page) (st : BuddyState) : BuddyState :=
  mkBuddy ps (bs_list st) (bs_zone st).

(** A write through [pageFromPfn(pfn)]. *)
Definition upd_page (pfn : Z) (f : Page -> Page) (st : BuddyState) : option BuddyState :=
  pg ← bs_pages st !! pfn; Some (with_pages (<[pfn := f pg]> (bs_pages st)) st).

Definition with_lists (ls : Head -> list Z) (st : BuddyState) : BuddyState :=
  mkBuddy (bs_pages st) ls (bs_zone st).

(** list.h at the level of sequences: a push at the front, an unlink from
    whatever list holds the node, a pop at either end. *)
Definition listPushHead (h : Head) (pfn : Z) (st : BuddyState) : BuddyState :=
  with_lists (<[h := pfn :: bs_list st h]> (bs_list st)) st.
Definition listRemove (pfn : Z) (st : BuddyState) : BuddyState :=
  with_lists (fun h => filter (.≠ pfn) (bs_list st h)) st.
Definition listPopHead (h : Head) (st : BuddyState) : option Z * BuddyState :=
  match bs_list st h with
  | [] => (None, st)
  | pfn :: _ => (Some pfn, listRemove pfn st)
  end.
Definition listPopTail (h : Head) (st : BuddyState) : option Z * BuddyState :=
  match last (bs_list st h) with
  | None => (None, st)
  | Some pfn => (Some pfn, listRemove pfn st)
  end.

Definition upd_zone (z : PmmZoneId) (f : PmmZone -> PmmZone) (st : BuddyState) : BuddyState :=
  mkBuddy (bs_pages st) (bs_list st) (<[z := f (bs_zone st z)]> (bs_zone st)).

Definition zone_add_blocks (k d : Z) (zn : PmmZone) : PmmZone :=
  mkZone (<[k := u64 (zn_freeBlocks zn k + d)]> (zn_freeBlocks zn)) (zn_freePages zn)
    (zn_managedPages zn) (zn_startPfn zn) (zn_endPfn zn) (zn_name zn).
Definition zone_add_free (d : Z) (zn : PmmZone) : PmmZone :=
  mkZone (zn_freeBlocks zn) (u64 (zn_freePages zn + d)) (zn_managedPages zn) (zn_startPfn zn)
    (zn_endPfn zn) (zn_name zn).
Definition zone_add_managed (d : Z) (zn : PmmZone) : PmmZone :=
  mkZone (zn_freeBlocks zn) (zn_freePages zn) (u64 (zn_managedPages zn + d)) (zn_startPfn zn)
    (zn_endPfn zn) (zn_name zn).

(** ** buddy.c *)

(** Models src/kernel/mm/buddy.c:6-16, buddyZoneInit. *)
Definition buddyZoneInit (z : PmmZoneId) (name : string) (startPfn endPfn : Z) (st : BuddyState)
  : BuddyState :=
  mkBuddy (bs_pages st)
    (fun h => match h with
              | FreeList z' k =>
                  if decide (z' = z /\ 0 <= k < PMM_ORDER_COUNT) then [] else bs_list st h
              | CacheList _ => bs_list st h
              end)
    (<[z := mkZone (fun _ => 0) 0 0 startPfn endPfn name]> (bs_zone st)).

(** Turns the free block [head] into an interior page: its list link, its
    zone's block count, its state and its order. *)
Definition unlink_block (z : PmmZoneId) (head order : Z) (st : BuddyState) : option BuddyState :=
  upd_page head (fun p => set_order 0 (set_state PAGE_STATE_TAIL p))
    (upd_zone z (zone_add_blocks order (-1)) (listRemove head st)).

(** Makes [head] a free block of the given order. *)
Definition link_block (z : PmmZoneId) (head order : Z) (st : BuddyState) : option BuddyState :=
  st ← upd_page head (fun p => set_order (u8 order) (set_state PAGE_STATE_BUDDY p)) st;
  Some (upd_zone z (zone_add_blocks order 1) (listPushHead (FreeList z order) head st)).

(** Models src/kernel/mm/buddy.c:25-37, buddyFreeBlock (the merge loop). *)
Fixpoint merge (fuel : nat) (z : PmmZoneId) (pfn order : Z) (st : BuddyState)
  : option (Z * Z * BuddyState) :=
  match fuel with
  | O => None
  | S fuel =>
      if order <? PMM_MAX_ORDER then
        let buddyPfn := pfn .^ (1 <<! order) in
        buddyPage ← bs_pages st !! buddyPfn;
        if negb (pg_state buddyPage =? PAGE_STATE_BUDDY) || negb (pg_order buddyPage =? order)
        then Some (pfn, order, st)
        else
          st ← unlink_block z buddyPfn order st;
          merge fuel z (pfn .& not64 (1 <<! order)) (u32 (order + 1)) st
      else Some (pfn, order, st)
  end.

(** Models src/kernel/mm/buddy.c:18-44, buddyFreeBlock. *)
Definition buddyFreeBlock (z : PmmZoneId) (pfn order : Z) (st : BuddyState) : option BuddyState :=
  let st := upd_zone z (zone_add_free (1 <<! order)) st in
  '(pfn, order, st) ← merge 12 z pfn order st;
  link_block z pfn order st.

(** Models src/kernel/mm/buddy.c:47-50, buddyAllocBlock (the search loop). *)
Fixpoint find_order (fuel : nat) (z : PmmZoneId) (k : Z) (st : BuddyState) : option Z :=
  match fuel with
  | O => None
  | S fuel =>
      if (k <? PMM_ORDER_COUNT) && match bs_list st (FreeList z k) with [] => true | _ => false end
      then find_order fuel z (u32 (k + 1)) st
      else Some k
  end.

(** Models src/kernel/mm/buddy.c:62-70, buddyAllocBlock (the split loop). *)
Fixpoint split_block (fuel : nat) (z : PmmZoneId) (order k pfn : Z) (st : BuddyState)
  : option BuddyState :=
  match fuel with
  | O => None
  | S fuel =>
      if order <? k then
        let k := u32 (k - 1) in
        st ← link_block z (pfn +! (1 <<! k)) k st;
        split_block fuel z order k pfn st
      else Some st
  end.

(** Models src/kernel/mm/buddy.c:46-75, buddyAllocBlock.  [Some (None, st)] is
    the result false. *)
Definition buddyAllocBlock (z : PmmZoneId) (order : Z) (st : BuddyState)
  : option (option Z * BuddyState) :=
  k ← find_order 12 z order st;
  if PMM_ORDER_COUNT <=? k then Some (None, st)
  else
    match bs_list st (FreeList z k) with
    | [] => None
    | pfn :: _ =>
        st ← unlink_block z pfn k st;
        st ← split_block 12 z order k pfn st;
        Some (Some pfn, upd_zone z (zone_add_free (- (1 <<! order))) st)
    end.

(** ** Aligned power-of-two blocks *)

(** The bit [pfn ^ (1 << order)] flips, and the one [pfn & ~(1 << order)] clears. *)
Definition buddy_of (p k : Z) : Z := if Z.testbit p k then p - 2 ^ k else p + 2 ^ k.
Definition parent_of (p k : Z) : Z := if Z.testbit p k then p - 2 ^ k else p.

Lemma testbit_pow2 k n : 0 <= k -> 0 <= n -> Z.testbit (2 ^ k) n = (k =? n).
Proof. intros Hk Hn. rewrite Z.pow2_bits_eqb by lia. reflexivity. Qed.

Lemma ldiff_pow2_set p k : 0 <= k -> Z.testbit p k = true -> Z.ldiff p (2 ^ k) = p - 2 ^ k.
Proof.
  intros Hk Hb. symmetry. apply Z.sub_nocarry_ldiff.
  apply Z.bits_inj'. intros n Hn. rewrite Z.ldiff_spec, Z.bits_0, testbit_pow2 by lia.
  destruct (Z.eqb_spec k n); subst; rewrite ?Hb; reflexivity.
Qed.

Lemma ldiff_pow2_clear p k : 0 <= k -> Z.testbit p k = false -> Z.ldiff p (2 ^ k) = p.
Proof.
  intros Hk Hb. apply Z.bits_inj'. intros n Hn. rewrite Z.ldiff_spec, testbit_pow2 by lia.
  destruct (Z.eqb_spec k n); subst; rewrite ?Hb; simpl; rewrite ?andb_true_r; reflexivity.
Qed.

Lemma lxor_pow2 p k : 0 <= k -> Z.lxor p (2 ^ k) = buddy_of p k.
Proof.
  intros Hk. unfold buddy_of. destruct (Z.testbit p k) eqn:Hb.
  - rewrite <- ldiff_pow2_set by assumption.
    apply Z.bits_inj'. intros n Hn. rewrite Z.ldiff_spec, Z.lxor_spec, testbit_pow2 by lia.
    destruct (Z.eqb_spec k n); subst; rewrite ?Hb; simpl;
      rewrite ?andb_true_r, ?xorb_false_r; reflexivity.
  - symmetry. apply Z.add_nocarry_lxor.
    apply Z.bits_inj'. intros n Hn. rewrite Z.land_spec, Z.bits_0, testbit_pow2 by lia.
    destruct (Z.eqb_spec k n); subst; rewrite ?Hb; simpl; rewrite ?andb_false_r; reflexivity.
Qed.

Lemma land_not64_pow2 p k :
  0 <= k < 64 -> is_u64 p -> p .& not64 (2 ^ k) = parent_of p k.
Proof.
  intros Hk Hp. transitivity (Z.ldiff p (2 ^ k)).
  - assert (E : not64 (2 ^ k) = Z.ldiff (Z.ones 64) (2 ^ k)).
    { rewrite ldiff_pow2_set by (try apply Z.ones_spec_low; lia). reflexivity. }
    rewrite E. apply Z.bits_inj'. intros n Hn.
    rewrite Z.land_spec, !Z.ldiff_spec, Z.testbit_ones_nonneg by lia.
    destruct (Z.ltb_spec n 64); simpl; [reflexivity|].
    rewrite andb_false_r. rewrite <- (Z.mod_small p (2 ^ 64)) by apply Hp.
    rewrite Z.mod_pow2_bits_high by lia. reflexivity.
  - unfold parent_of. destruct (Z.testbit p k) eqn:Hb.
    + apply ldiff_pow2_set; [lia|assumption].
    + apply ldiff_pow2_clear; [lia|assumption].
Qed.

Lemma aligned_bit p k : 0 <= k -> (2 ^ k | p) -> 
  exists a, p = a * 2 ^ (k + 1) + (if Z.testbit p k then 2 ^ k else 0).
Proof.
  intros Hk [c ->]. rewrite Z.mul_pow2_bits by lia. rewrite Z.sub_diag, Z.bit0_odd.
  exists (c / 2). rewrite Z.pow_add_r, Z.pow_1_r by lia.
  rewrite (Z.div_mod c 2) at 1 by lia. rewrite Zmod_odd. destruct (Z.odd c); nia.
Qed.

Lemma parent_aligned p k : 0 <= k -> (2 ^ k | p) -> (2 ^ (k + 1) | parent_of p k).
Proof.
  intros Hk Hp. destruct (aligned_bit p k Hk Hp) as [a Ha]. unfold parent_of.
  exists a. destruct (Z.testbit p k); lia.
Qed.

Lemma buddy_aligned p k : 0 <= k -> (2 ^ k | p) -> (2 ^ k | buddy_of p k).
Proof.
  intros Hk [c ->]. unfold buddy_of. destruct (Z.testbit _ k); [exists (c - 1)|exists (c + 1)]; lia.
Qed.

(** The parent block is the block and its buddy, side by side. *)
Lemma parent_halves p k :
  (parent_of p k = p /\ buddy_of p k = p + 2 ^ k) \/
  (parent_of p k = buddy_of p k /\ p = buddy_of p k + 2 ^ k).
Proof. unfold parent_of, buddy_of. destruct (Z.testbit p k); [right|left]; lia. Qed.

Lemma pow2_pos k : 0 <= k -> 0 < 2 ^ k.
Proof. apply Z.pow_pos_nonneg. lia. Qed.

Lemma pow2_divide j k : 0 <= j <= k -> (2 ^ j | 2 ^ k).
Proof. intros Hjk. exists (2 ^ (k - j)). rewrite <- Z.pow_add_r by lia. f_equal. lia. Qed.

(** Two aligned blocks are nested or disjoint. *)
Lemma aligned_nested p j q k :
  0 <= j <= k -> (2 ^ j | p) -> (2 ^ k | q) -> p < q + 2 ^ k -> q < p + 2 ^ j ->
  q <= p /\ p + 2 ^ j <= q + 2 ^ k.
Proof.
  intros Hjk [a ->] [b ->] H1 H2.
  assert (E : 2 ^ k = 2 ^ (k - j) * 2 ^ j) by (rewrite <- Z.pow_add_r by lia; f_equal; lia).
  pose proof (pow2_pos j) as Hm. pose proof (pow2_pos (k - j)) as Hn. rewrite E in *.
  assert (a < b * 2 ^ (k - j) + 2 ^ (k - j)) by (apply (Z.mul_lt_mono_pos_r (2 ^ j)); lia).
  assert (b * 2 ^ (k - j) < a + 1) by (apply (Z.mul_lt_mono_pos_r (2 ^ j)); lia).
  nia.
Qed.

Lemma nonneg_aligned_sub p k : 0 <= k -> (2 ^ k | p) -> 0 <= p -> Z.testbit p k = true -> 2 ^ k <= p.
Proof.
  intros Hk Hp H0 Hb. destruct (aligned_bit p k Hk Hp) as [a Ha]. rewrite Hb in Ha.
  rewrite Z.pow_add_r, Z.pow_1_r in Ha by lia. pose proof (pow2_pos k Hk).
  assert (0 <= a) by nia. nia.
Qed.

Lemma parent_nonneg p k : 0 <= k -> (2 ^ k | p) -> 0 <= p -> 0 <= parent_of p k.
Proof.
  intros Hk Hp H0. unfold parent_of. destruct (Z.testbit p k) eqn:Hb; [|assumption].
  pose proof (nonneg_aligned_sub p k Hk Hp H0 Hb). lia.
Qed.

Lemma buddy_nonneg p k : 0 <= k -> (2 ^ k | p) -> 0 <= p -> 0 <= buddy_of p k.
Proof.
  intros Hk Hp H0. pose proof (parent_nonneg p k Hk Hp H0). pose proof (pow2_pos k Hk).
  destruct (parent_halves p k) as [[? ?]|[? ?]]; lia.
Qed.

(** ** Chunks: the largest blocks *)

Definition chunk (p : Z) : Z := p / 2 ^ PMM_MAX_ORDER.

Lemma chunk_block p k q :
  0 <= k <= PMM_MAX_ORDER -> (2 ^ k | p) -> p <= q < p + 2 ^ k -> chunk q = chunk p.
Proof.
  intros Hk Hp Hq. unfold chunk, PMM_MAX_ORDER in *.
  pose proof (Z.div_mod p (2 ^ 10)). pose proof (Z.mod_pos_bound p (2 ^ 10)).
  destruct (aligned_nested p k (p / 2 ^ 10 * 2 ^ 10) 10) as [_ Hle]; try lia.
  - assumption.
  - exists (p / 2 ^ 10). reflexivity.
  - symmetry. apply (Z.div_unique _ _ _ (q - p / 2 ^ 10 * 2 ^ 10)); lia.
Qed.

Lemma chunk_buddy p k :
  0 <= k < PMM_MAX_ORDER -> (2 ^ k | p) -> chunk (buddy_of p k) = chunk p.
Proof.
  intros Hk Hp. pose proof (parent_aligned p k ltac:(lia) Hp) as Hpa.
  pose proof (pow2_pos k ltac:(lia)).
  assert (Hpow : 2 ^ (k + 1) = 2 * 2 ^ k) by (rewrite Z.pow_add_r, Z.pow_1_r by lia; lia).
  transitivity (chunk (parent_of p k)); [|symmetry];
    (apply (chunk_block _ (k + 1)); [lia|assumption|]); 
    destruct (parent_halves p k) as [[? ?]|[? ?]]; lia.
Qed.

Lemma chunk_zone p q : chunk p = chunk q -> pmmZoneOfPfn p = pmmZoneOfPfn q.
Proof.
  unfold chunk, pmmZoneOfPfn, PMM_ZONE_DMA32_END_PFN, PMM_MAX_ORDER. intros Hc.
  destruct (Z.ltb_spec p (2 ^ 20)), (Z.ltb_spec q (2 ^ 20)); try reflexivity; exfalso; dlia.
Qed.

(** ** The abstract state: a partition of the managed frames into blocks

    A block has a first frame, an order and a kind.  [Float] blocks are the ones
    in the hands of an allocator routine: every page is [PAGE_STATE_TAIL]. *)

Inductive kind := Free | Cached | Held | Float.

#[global] Instance kind_eq_dec : EqDecision kind.
Proof. solve_decision. Defined.

Abbreviation blocks := (gmap Z (kind * Z)).

Definition state_of (κ : kind) : Z :=
  match κ with
  | Free => PAGE_STATE_BUDDY
  | Cached => PAGE_STATE_PCP
  | Held => PAGE_STATE_ALLOCATED
  | Float => PAGE_STATE_TAIL
  end.

Lemma state_of_inj κ κ' : state_of κ = state_of κ' -> κ = κ'.
Proof. destruct κ, κ'; intros H; (reflexivity || discriminate H). Qed.

(** Frame [q] lies in the block that starts at [p]. *)
Definition holds (A : blocks) (p : Z) (κ : kind) (k q : Z) : Prop :=
  A !! p = Some (κ, k) /\ p <= q < p + 2 ^ k.

Record pages_ok (A : blocks) (ps : gmap Z Page) : Prop := {
  po_shape : forall p κ k, A !! p = Some (κ, k) ->
    0 <= p /\ 0 <= k <= PMM_MAX_ORDER /\ (2 ^ k | p) /\ (κ = Cached -> k = 0);
  po_disjoint : forall p κ j q κ' k f, holds A p κ j f -> holds A q κ' k f -> p = q;
  po_page : forall p κ k q, holds A p κ k q ->
    exists pg, ps !! q = Some pg /\ pg_state pg = (if decide (q = p) then state_of κ else PAGE_STATE_TAIL);
  po_order : forall p κ k pg, A !! p = Some (κ, k) -> κ <> Float -> ps !! p = Some pg -> pg_order pg = k;
  po_zero : forall q pg, ps !! q = Some pg ->
    pg_state pg = PAGE_STATE_TAIL \/ pg_state pg = PAGE_STATE_RESERVED -> pg_order pg = 0;
  po_owned : forall q pg, ps !! q = Some pg -> pg_state pg <> PAGE_STATE_RESERVED ->
    exists p κ k, holds A p κ k q;
  po_backed : forall p, is_Some (ps !! p) ->
    0 <= p < 2 ^ 52 /\ (forall q, chunk q = chunk p -> is_Some (ps !! q))
}.

Definition listed (A : blocks) (h : Head) (p : Z) : Prop :=
  match h with
  | FreeList z k => A !! p = Some (Free, k) /\ pmmZoneOfPfn p = z
  | CacheList z => A !! p = Some (Cached, 0) /\ pmmZoneOfPfn p = z
  end.

Record lists_ok (A : blocks) (l : Head -> list Z) : Prop := {
  lo_listed : forall h p, p ∈ l h <-> listed A h p;
  lo_nodup : forall h, NoDup (l h)
}.

Definition counts_ok (zs : PmmZoneId -> PmmZone) (l : Head -> list Z) : Prop :=
  forall z k, 0 <= k <= PMM_MAX_ORDER -> zn_freeBlocks (zs z) k = u64 (zlen (l (FreeList z k))).

Record represents (A : blocks) (st : BuddyState) : Prop := {
  rep_pages : pages_ok A (bs_pages st);
  rep_lists : lists_ok A (bs_list st);
  rep_counts : counts_ok (bs_zone st) (bs_list st)
}.

(** The frames on the free lists of a zone. *)
Definition orders : list Z := seqZ 0 PMM_ORDER_COUNT.
Definition free_sum (l : Head -> list Z) (z : PmmZoneId) : Z :=
  foldr (fun k acc => 2 ^ k * zlen (l (FreeList z k)) + acc) 0 orders.

(** No two free buddies: every free block is as large as it can be. *)
Definition coalesced (A : blocks) : Prop :=
  forall p k, A !! p = Some (Free, k) -> k < PMM_MAX_ORDER -> A !! buddy_of p k <> Some (Free, k).

(** ** Block transitions *)

Lemma holds_head A ps p κ k : pages_ok A ps -> A !! p = Some (κ, k) -> holds A p κ k p.
Proof.
  intros Hok Hp. split; [assumption|].
  destruct (po_shape _ _ Hok _ _ _ Hp) as (_ & Hk & _). pose proof (pow2_pos k). lia.
Qed.

Lemma head_page A ps p κ k :
  pages_ok A ps -> A !! p = Some (κ, k) -> exists pg, ps !! p = Some pg /\ pg_state pg = state_of κ.
Proof.
  intros Hok Hp. destruct (po_page _ _ Hok p κ k p) as (pg & Hpg & Hs).
  - eapply holds_head; eassumption.
  - rewrite decide_True in Hs by reflexivity. eauto.
Qed.

(** A head of kind [κ] other than [Float] is recognised by its page state. *)
Lemma state_head A ps p pg κ :
  pages_ok A ps -> ps !! p = Some pg -> pg_state pg = state_of κ -> κ <> Float ->
  A !! p = Some (κ, pg_order pg).
Proof.
  intros Hok Hpg Hs Hκ.
  destruct (po_owned _ _ Hok p pg Hpg) as (q & κ' & k & Hh); [destruct κ; rewrite Hs; discriminate|].
  destruct (po_page _ _ Hok _ _ _ _ Hh) as (pg' & Hpg' & Hs').
  simplify_eq. destruct (decide (p = q)) as [->|Hne].
  - assert (κ' = κ) as -> by (apply state_of_inj; congruence).
    destruct Hh as [Hq _]. rewrite Hq. f_equal. f_equal.
    symmetry. eapply po_order; eassumption.
  - destruct κ; rewrite Hs in Hs'; try discriminate. contradiction.
Qed.

Lemma holds_insert A p κ k κ' q κ'' j f :
  A !! p = Some (κ, k) ->
  holds (<[p := (κ', k)]> A) q κ'' j f ->
  (q = p /\ κ'' = κ' /\ holds A p κ k f) \/ (q <> p /\ holds A q κ'' j f).
Proof.
  intros Hp [Hq Hf]. destruct (decide (q = p)) as [->|Hne].
  - rewrite lookup_insert_eq in Hq. simplify_eq. left. repeat split; try assumption; lia.
  - rewrite lookup_insert_ne in Hq by congruence. right. split; [assumption|split; assumption].
Qed.

(** A block changes its kind when its first page is rewritten accordingly. *)
Lemma pages_retag A ps p κ κ' k pg' :
  pages_ok A ps -> A !! p = Some (κ, k) ->
  pg_state pg' = state_of κ' -> pg_order pg' = (if decide (κ' = Float) then 0 else k) ->
  (κ' = Cached -> k = 0) ->
  pages_ok (<[p := (κ', k)]> A) (<[p := pg']> ps).
Proof.
  intros Hok Hp Hs Ho Hc. split.
  - intros q κ'' j Hq. destruct (decide (q = p)) as [->|Hne].
    + rewrite lookup_insert_eq in Hq. simplify_eq.
      destruct (po_shape _ _ Hok _ _ _ Hp) as (? & ? & ? & ?). auto.
    + rewrite lookup_insert_ne in Hq by congruence. exact (po_shape _ _ Hok _ _ _ Hq).
  - intros q1 κ1 j1 q2 κ2 j2 f H1 H2.
    destruct (holds_insert _ _ _ _ _ _ _ _ _ Hp H1) as [(-> & _ & H1')|(_ & H1')],
      (holds_insert _ _ _ _ _ _ _ _ _ Hp H2) as [(-> & _ & H2')|(_ & H2')];
      try reflexivity; eapply po_disjoint; eassumption.
  - intros q κ'' j f Hh.
    destruct (holds_insert _ _ _ _ _ _ _ _ _ Hp Hh) as [(-> & -> & Hh')|(Hne & Hh')];
      destruct (po_page _ _ Hok _ _ _ _ Hh') as (pg & Hpg & Hst).
    + destruct (decide (f = p)) as [->|Hf].
      * exists pg'. rewrite lookup_insert_eq. auto.
      * exists pg. rewrite lookup_insert_ne by congruence. auto.
    + exists pg. rewrite lookup_insert_ne; [auto|]. intros <-. apply Hne.
      eapply po_disjoint; [eassumption..|eapply holds_head; eassumption].
  - intros q κ'' j pg Hq Hk Hpg. destruct (decide (q = p)) as [->|Hne].
    + rewrite !lookup_insert_eq in *. simplify_eq. rewrite decide_False in Ho by assumption. assumption.
    + rewrite !lookup_insert_ne in * by congruence. eapply po_order; eassumption.
  - intros q pg Hpg Hst. destruct (decide (q = p)) as [->|Hne].
    + rewrite lookup_insert_eq in Hpg. simplify_eq. case_decide; [assumption|].
      exfalso. rewrite Hs in Hst. destruct κ'; destruct Hst; try discriminate; contradiction.
    + rewrite lookup_insert_ne in Hpg by congruence. eapply po_zero; eassumption.
  - intros q pg Hpg Hr. destruct (decide (q = p)) as [->|Hne].
    + exists p, κ', k. split; [apply lookup_insert_eq|]. apply (holds_head _ _ _ _ _ Hok Hp).
    + rewrite lookup_insert_ne in Hpg by congruence.
      destruct (po_owned _ _ Hok _ _ Hpg Hr) as (h & κ'' & j & Hh & Hr').
      destruct (decide (h = p)) as [->|Hhp].
      * simplify_eq. exists p, κ', k. split; [apply lookup_insert_eq|lia].
      * exists h, κ'', j. split; [rewrite lookup_insert_ne by congruence; assumption|lia].
  - intros q. rewrite lookup_insert_is_Some'. intros Hq.
    assert (Hb : is_Some (ps !! q)).
    { destruct Hq as [<-|?]; [|assumption].
      destruct (head_page _ _ _ _ _ Hok Hp) as (pg & Hpg & _). eauto. }
    destruct (po_backed _ _ Hok q Hb) as [Hr Hall]. split; [exact Hr|].
    intros q' Hc'. rewrite lookup_insert_is_Some'. right. auto.
Qed.

Lemma pow2_succ k : 0 <= k -> 2 ^ (k + 1) = 2 * 2 ^ k.
Proof. intros Hk. rewrite Z.pow_add_r, Z.pow_1_r by lia. lia. Qed.

(** Repartitioning floating blocks: the new blocks are floating ones made of
    floating frames, or old blocks, and every old frame stays in some block. *)
Lemma pages_refloat A A' ps :
  pages_ok A ps ->
  (forall p κ k, A' !! p = Some (κ, k) -> A !! p = Some (κ, k) \/
     (κ = Float /\ 0 <= p /\ 0 <= k <= PMM_MAX_ORDER /\ (2 ^ k | p) /\
      forall f, p <= f < p + 2 ^ k -> exists q j, holds A q Float j f)) ->
  (forall p κ j q κ' k f, holds A' p κ j f -> holds A' q κ' k f -> p = q) ->
  (forall p κ k f, holds A p κ k f -> exists q κ' j, holds A' q κ' j f) ->
  pages_ok A' ps.
Proof.
  intros Hok Hnew Hdis Hcov. split; try assumption.
  - intros p κ k Hp. destruct (Hnew _ _ _ Hp) as [Ho|(-> & ? & ? & ? & _)].
    + exact (po_shape _ _ Hok _ _ _ Ho).
    + repeat split; try assumption; try lia; discriminate.
  - intros p κ k f [Hp Hf]. destruct (Hnew _ _ _ Hp) as [Ho|(-> & _ & _ & _ & Hfl)].
    + apply (po_page _ _ Hok _ _ k). split; assumption.
    + destruct (Hfl f Hf) as (q & j & Hq). destruct (po_page _ _ Hok _ _ _ _ Hq) as (pg & Hpg & Hs).
      exists pg. split; [assumption|]. rewrite Hs. repeat case_decide; reflexivity.
  - intros p κ k pg Hp Hκ Hpg. destruct (Hnew _ _ _ Hp) as [Ho|(-> & _)]; [|contradiction].
    eapply po_order; eassumption.
  - apply (po_zero _ _ Hok).
  - intros q pg Hpg Hs. destruct (po_owned _ _ Hok _ _ Hpg Hs) as (p & κ & k & Hh). eauto.
  - apply (po_backed _ _ Hok).
Qed.

Lemma pages_join A ps p k :
  pages_ok A ps -> A !! p = Some (Float, k) -> A !! (p + 2 ^ k) = Some (Float, k) ->
  k < PMM_MAX_ORDER -> (2 ^ (k + 1) | p) ->
  pages_ok (<[p := (Float, k + 1)]> (delete (p + 2 ^ k) A)) ps.
Proof.
  intros Hok Hp Hu Hk Ha. destruct (po_shape _ _ Hok _ _ _ Hp) as (Hp0 & Hk0 & _).
  pose proof (pow2_pos k) as Hpos. pose proof (pow2_succ k ltac:(lia)) as Hs.
  assert (Hold : forall q κ j f, holds (<[p := (Float, k + 1)]> (delete (p + 2 ^ k) A)) q κ j f ->
    (q = p /\ p <= f < p + 2 ^ (k + 1)) \/ (q <> p /\ q <> p + 2 ^ k /\ holds A q κ j f)).
  { intros q κ j f [Hq Hf]. rewrite lookup_insert in Hq. case_decide; [subst; simplify_eq; auto|].
    rewrite lookup_delete in Hq. case_decide; [discriminate|]. right. repeat split; try congruence; lia. }
  assert (Hin : forall f, p <= f < p + 2 ^ (k + 1) -> exists q, (q = p \/ q = p + 2 ^ k) /\ holds A q Float k f).
  { intros f Hf. destruct (decide (f < p + 2 ^ k)).
    - exists p. split; [auto|]. split; [assumption|lia].
    - exists (p + 2 ^ k). split; [auto|]. split; [assumption|lia]. }
  eapply pages_refloat; [exact Hok|..].
  - intros q κ j Hq. rewrite lookup_insert in Hq. case_decide.
    + subst. simplify_eq. right. repeat split; try assumption; try lia.
      intros f Hf. destruct (Hin f Hf) as (q2 & _ & Hh). eauto.
    + rewrite lookup_delete in Hq. case_decide; [discriminate|auto].
  - intros q κ j q' κ' j' f H1 H2.
    apply Hold in H1 as [[-> H1]|(N1 & N1' & H1)]; apply Hold in H2 as [[-> H2]|(N2 & N2' & H2)];
      try reflexivity; try (eapply po_disjoint; eassumption).
    + destruct (Hin f H1) as (q2 & Hq & Hh).
      pose proof (po_disjoint _ _ Hok _ _ _ _ _ _ _ Hh H2). destruct Hq; congruence.
    + destruct (Hin f H2) as (q2 & Hq & Hh).
      pose proof (po_disjoint _ _ Hok _ _ _ _ _ _ _ Hh H1). destruct Hq; congruence.
  - intros q κ j f [Hq Hf]. destruct (decide (q = p)) as [->|N1].
    { simplify_eq. exists p, Float, (k + 1). split; [apply lookup_insert_eq|lia]. }
    destruct (decide (q = p + 2 ^ k)) as [->|N2].
    { simplify_eq. exists p, Float, (k + 1). split; [apply lookup_insert_eq|lia]. }
    exists q, κ, j. split; [|lia]. rewrite lookup_insert_ne, lookup_delete_ne by congruence. assumption.
Qed.

Lemma pages_split A ps p k :
  pages_ok A ps -> A !! p = Some (Float, k + 1) -> 0 <= k ->
  A !! (p + 2 ^ k) = None /\
  pages_ok (<[p + 2 ^ k := (Float, k)]> (<[p := (Float, k)]> A)) ps.
Proof.
  intros Hok Hp Hk. destruct (po_shape _ _ Hok _ _ _ Hp) as (Hp0 & Hk0 & Ha & _).
  pose proof (pow2_pos k Hk) as Hpos. pose proof (pow2_succ k Hk) as Hs.
  assert (Hwhole : forall f, p <= f < p + 2 ^ (k + 1) -> holds A p Float (k + 1) f)
    by (intros f Hf; split; assumption).
  assert (Hnone : A !! (p + 2 ^ k) = None).
  { destruct (A !! (p + 2 ^ k)) as [[κ j]|] eqn:E; [|reflexivity]. exfalso.
    pose proof (po_disjoint _ _ Hok _ _ _ _ _ _ _ (holds_head _ _ _ _ _ Hok E) (Hwhole (p + 2 ^ k) ltac:(lia))).
    lia. }
  split; [exact Hnone|].
  assert (Ha' : (2 ^ k | p)) by (etransitivity; [apply (pow2_divide k (k + 1)); lia|exact Ha]).
  assert (Hold : forall q κ j f, holds (<[p + 2 ^ k := (Float, k)]> (<[p := (Float, k)]> A)) q κ j f ->
    ((q = p \/ q = p + 2 ^ k) /\ q <= f < q + 2 ^ k /\ holds A p Float (k + 1) f) \/
    (q <> p /\ holds A q κ j f)).
  { intros q κ j f [Hq Hf]. rewrite lookup_insert in Hq. case_decide.
    - subst. simplify_eq. left. split; [auto|]. split; [lia|]. apply Hwhole. lia.
    - rewrite lookup_insert in Hq. case_decide.
      + subst. simplify_eq. left. split; [auto|]. split; [lia|]. apply Hwhole. lia.
      + right. split; [congruence|]. split; assumption. }
  eapply pages_refloat; [exact Hok|..].
  - intros q κ j Hq. rewrite !lookup_insert in Hq. repeat case_decide; simplify_eq; auto; right;
      (repeat split; try assumption; try lia); try (intros f Hf; do 2 eexists; apply Hwhole; lia).
    apply Z.divide_add_r; [assumption|apply Z.divide_refl].
  - intros q κ j q' κ' j' f H1 H2.
    apply Hold in H1 as [(E1 & R1 & H1)|(N1 & H1)]; apply Hold in H2 as [(E2 & R2 & H2)|(N2 & H2)].
    + lia.
    + exfalso. apply N2. symmetry. eapply po_disjoint; eassumption.
    + exfalso. apply N1. eapply po_disjoint; eassumption.
    + eapply po_disjoint; eassumption.
  - intros q κ j f [Hq Hf]. destruct (decide (q = p)) as [->|N1].
    { simplify_eq. destruct (decide (f < p + 2 ^ k)).
      - exists p, Float, k. split; [|lia]. rewrite lookup_insert_ne, lookup_insert_eq by lia. reflexivity.
      - exists (p + 2 ^ k), Float, k. split; [apply lookup_insert_eq|lia]. }
    exists q, κ, j. split; [|lia].
    rewrite !lookup_insert_ne; [assumption|congruence|]. intros <-. congruence.
Qed.

(** *** Lists *)

Lemma lists_retag A l l' p κ κ' k :
  lists_ok A l -> A !! p = Some (κ, k) ->
  (forall h q, q <> p -> q ∈ l' h <-> q ∈ l h) ->
  (forall h, p ∈ l' h <-> listed (<[p := (κ', k)]> A) h p) ->
  (forall h, NoDup (l' h)) ->
  lists_ok (<[p := (κ', k)]> A) l'.
Proof.
  intros Hok Hp Hother Hthis Hnd. split; [|exact Hnd].
  intros h q. destruct (decide (q = p)) as [->|Hne]; [apply Hthis|].
  rewrite (Hother h q Hne), (lo_listed _ _ Hok).
  destruct h; simpl; rewrite lookup_insert_ne by congruence; reflexivity.
Qed.

Lemma lists_remove A l p κ k :
  lists_ok A l -> A !! p = Some (κ, k) ->
  lists_ok (<[p := (Float, k)]> A) (fun h => filter (.≠ p) (l h)).
Proof.
  intros Hok Hp. eapply lists_retag; [eassumption|eassumption|..].
  - intros h q Hne. rewrite list_elem_of_filter. tauto.
  - intros h. rewrite list_elem_of_filter. split; [tauto|].
    destruct h; simpl; rewrite lookup_insert_eq; intros [? _]; discriminate.
  - intros h. apply NoDup_filter, (lo_nodup _ _ Hok).
Qed.

(** The head a block of this kind is linked to. *)
Definition home (p : Z) (κ : kind) (k : Z) : option Head :=
  match κ with
  | Free => Some (FreeList (pmmZoneOfPfn p) k)
  | Cached => Some (CacheList (pmmZoneOfPfn p))
  | _ => None
  end.

Lemma listed_home A p κ k h :
  A !! p = Some (κ, k) -> (κ = Cached -> k = 0) -> listed A h p <-> home p κ k = Some h.
Proof.
  intros Hp Hc. destruct h; simpl; rewrite Hp; destruct κ; simpl; split;
    intros; destruct_and?; simplify_eq; try (rewrite Hc by reflexivity); auto.
Qed.

Lemma lists_push A l p κ k h :
  lists_ok A l -> A !! p = Some (Float, k) -> (κ = Cached -> k = 0) -> home p κ k = Some h ->
  lists_ok (<[p := (κ, k)]> A) (<[h := p :: l h]> l).
Proof.
  intros Hok Hp Hc Hh.
  assert (Hnot : forall h, p ∉ l h).
  { intros h' Hin. apply (lo_listed _ _ Hok) in Hin. destruct h'; simpl in Hin; rewrite Hp in Hin;
      destruct Hin; discriminate. }
  eapply lists_retag; [eassumption|eassumption|..].
  - intros h' q Hne. destruct (decide (h = h')) as [->|Hhh].
    + rewrite fn_lookup_insert, elem_of_cons. tauto.
    + rewrite fn_lookup_insert_ne by assumption. tauto.
  - intros h'. rewrite (listed_home _ p κ k) by (try assumption; apply lookup_insert_eq).
    rewrite Hh. destruct (decide (h = h')) as [->|Hhh].
    + rewrite fn_lookup_insert, elem_of_cons. tauto.
    + rewrite fn_lookup_insert_ne by assumption. split; [|congruence].
      intros Hin. contradiction (Hnot h').
  - intros h'. destruct (decide (h = h')) as [->|Hhh].
    + rewrite fn_lookup_insert. apply NoDup_cons. split; [apply Hnot|apply (lo_nodup _ _ Hok)].
    + rewrite fn_lookup_insert_ne by assumption. apply (lo_nodup _ _ Hok).
Qed.

(** Only the free and the cached blocks matter to the lists. *)
Lemma lists_same A A' l :
  lists_ok A l ->
  (forall p κ k, κ = Free \/ κ = Cached -> A' !! p = Some (κ, k) <-> A !! p = Some (κ, k)) ->
  lists_ok A' l.
Proof.
  intros Hok Hs. split; [|apply (lo_nodup _ _ Hok)].
  intros h p. rewrite (lo_listed _ _ Hok). destruct h; simpl; rewrite Hs by auto; reflexivity.
Qed.

Lemma filter_out_id (p : Z) (l : list Z) : p ∉ l -> filter (.≠ p) l = l.
Proof.
  induction l as [|x l IH]; [reflexivity|]. rewrite not_elem_of_cons. intros [Hx Hl].
  rewrite filter_cons_True by congruence. f_equal. auto.
Qed.

Lemma zlen_filter_out (p : Z) (l : list Z) :
  NoDup l -> zlen (filter (.≠ p) l) = zlen l - (if decide (p ∈ l) then 1 else 0).
Proof.
  induction 1 as [|x l Hx Hnd IH]; [reflexivity|].
  rewrite filter_cons, zlen_cons. destruct (decide (x = p)) as [->|Hne].
  - rewrite decide_False by auto. rewrite IH, decide_False, decide_True by set_solver. lia.
  - rewrite decide_True, zlen_cons, IH by assumption.
    rewrite (decide_ext (p ∈ x :: l) (p ∈ l)); [lia|]. set_solver.
Qed.

(** *** The free-page total of a zone *)

Lemma sum_upd (l l' : Head -> list Z) z k d ks :
  NoDup ks ->
  (forall j, j <> k -> zlen (l' (FreeList z j)) = zlen (l (FreeList z j))) ->
  zlen (l' (FreeList z k)) = zlen (l (FreeList z k)) + d ->
  foldr (fun k acc => 2 ^ k * zlen (l' (FreeList z k)) + acc) 0 ks =
  foldr (fun k acc => 2 ^ k * zlen (l (FreeList z k)) + acc) 0 ks
    + (if decide (k ∈ ks) then d * 2 ^ k else 0).
Proof.
  intros Hnd Ho Hk. induction Hnd as [|x ks Hx Hnd IH]; [reflexivity|]. simpl. rewrite IH.
  destruct (decide (x = k)) as [->|Hne].
  - rewrite Hk. rewrite (decide_False (P := k ∈ ks)), decide_True by (try assumption; set_solver). lia.
  - rewrite Ho by assumption. rewrite (decide_ext (k ∈ x :: ks) (k ∈ ks)); [lia|]. set_solver.
Qed.

Lemma free_sum_upd (l l' : Head -> list Z) z k d :
  0 <= k <= PMM_MAX_ORDER ->
  (forall j, j <> k -> zlen (l' (FreeList z j)) = zlen (l (FreeList z j))) ->
  zlen (l' (FreeList z k)) = zlen (l (FreeList z k)) + d ->
  free_sum l' z = free_sum l z + d * 2 ^ k.
Proof.
  intros Hk Ho He. unfold free_sum. erewrite sum_upd; try eassumption.
  - rewrite decide_True; [reflexivity|]. unfold orders, PMM_ORDER_COUNT. apply elem_of_seqZ. lia.
  - apply NoDup_seqZ.
Qed.

Lemma free_sum_same (l l' : Head -> list Z) z :
  (forall k, zlen (l' (FreeList z k)) = zlen (l (FreeList z k))) -> free_sum l' z = free_sum l z.
Proof. intros H. unfold free_sum. induction orders; simpl; congruence. Qed.

(** *** The two steps of buddy.c *)

(** What block operations leave alone: the ledgers, the caches, the page flags
    and the extent of the page array. *)
Record quiet (st st' : BuddyState) : Prop := {
  q_zone : forall z, (zn_freePages (bs_zone st' z), zn_managedPages (bs_zone st' z),
                      zn_startPfn (bs_zone st' z), zn_endPfn (bs_zone st' z)) =
                     (zn_freePages (bs_zone st z), zn_managedPages (bs_zone st z),
                      zn_startPfn (bs_zone st z), zn_endPfn (bs_zone st z));
  q_cache : forall z, bs_list st' (CacheList z) = bs_list st (CacheList z);
  q_flags : forall q, pg_flags <$> bs_pages st' !! q = pg_flags <$> bs_pages st !! q
}.

#[global] Instance quiet_preorder : PreOrder quiet.
Proof.
  split.
  - intros st. split; reflexivity.
  - intros a b c [H1 H2 H3] [H4 H5 H6]. split; congruence.
Qed.

Lemma in_bits k : 0 <= k <= PMM_MAX_ORDER -> 0 <= k < 64.
Proof. unfold PMM_MAX_ORDER. lia. Qed.

Lemma in_list A st h p : represents A st -> p ∈ bs_list st h -> listed A h p.
Proof. intros Hr. apply (lo_listed _ _ (rep_lists _ _ Hr)). Qed.

Lemma upd_page_flags p f ps pg q :
  ps !! p = Some pg -> pg_flags (f pg) = pg_flags pg ->
  pg_flags <$> (<[p := f pg]> ps : gmap Z Page) !! q = pg_flags <$> ps !! q.
Proof.
  intros Hp Hf. destruct (decide (q = p)) as [->|Hne].
  - rewrite lookup_insert_eq, Hp. simpl. congruence.
  - rewrite lookup_insert_ne by congruence. reflexivity.
Qed.

Lemma counts_upd zs l l' z k d :
  counts_ok zs l ->
  (forall z' j, (z', j) <> (z, k) -> zlen (l' (FreeList z' j)) = zlen (l (FreeList z' j))) ->
  zlen (l' (FreeList z k)) = zlen (l (FreeList z k)) + d ->
  0 <= k <= PMM_MAX_ORDER ->
  counts_ok (<[z := zone_add_blocks k d (zs z)]> zs) l'.
Proof.
  intros Hok Ho Hd Hk z' j Hj. destruct (decide (z = z')) as [<-|Hz].
  - rewrite fn_lookup_insert. simpl. destruct (decide (k = j)) as [<-|Hkj].
    + rewrite fn_lookup_insert, Hok, Hd by assumption. unfold u64. rewrite Zplus_mod_idemp_l. reflexivity.
    + rewrite fn_lookup_insert_ne, Hok, Ho by congruence. reflexivity.
  - rewrite fn_lookup_insert_ne, Hok, Ho by congruence. reflexivity.
Qed.

Lemma zone_upd_quiet z f (zs : PmmZoneId -> PmmZone) z' :
  (zn_freePages (f (zs z)), zn_managedPages (f (zs z)), zn_startPfn (f (zs z)), zn_endPfn (f (zs z))) =
  (zn_freePages (zs z), zn_managedPages (zs z), zn_startPfn (zs z), zn_endPfn (zs z)) ->
  let zs' := <[z := f (zs z)]> zs in
  (zn_freePages (zs' z'), zn_managedPages (zs' z'), zn_startPfn (zs' z'), zn_endPfn (zs' z')) =
  (zn_freePages (zs z'), zn_managedPages (zs z'), zn_startPfn (zs z'), zn_endPfn (zs z')).
Proof.
  intros H zs'. unfold zs'. destruct (decide (z = z')) as [<-|Hz].
  - rewrite fn_lookup_insert. exact H.
  - rewrite fn_lookup_insert_ne by assumption. reflexivity.
Qed.

Lemma unlink_rep A st z p k :
  represents A st -> A !! p = Some (Free, k) -> z = pmmZoneOfPfn p ->
  exists st', unlink_block z p k st = Some st' /\ represents (<[p := (Float, k)]> A) st' /\
    quiet st st' /\
    forall z', free_sum (bs_list st') z' = free_sum (bs_list st) z' - (if decide (z' = z) then 2 ^ k else 0).
Proof.
  intros [Hpg Hl Hc] Hp ->. destruct (po_shape _ _ Hpg _ _ _ Hp) as (_ & Hk & _).
  destruct (head_page _ _ _ _ _ Hpg Hp) as (pg & Epg & _).
  assert (Hlen : forall z' j, zlen (filter (.≠ p) (bs_list st (FreeList z' j))) =
    zlen (bs_list st (FreeList z' j)) - (if decide ((z', j) = (pmmZoneOfPfn p, k)) then 1 else 0)).
  { intros z' j. rewrite zlen_filter_out by apply (lo_nodup _ _ Hl). f_equal.
    apply decide_ext. rewrite (lo_listed _ _ Hl), (listed_home _ _ _ _ _ Hp) by discriminate.
    simpl. split; congruence. }
  unfold unlink_block, upd_page, listRemove, upd_zone, with_lists. simpl. rewrite Epg. simpl.
  eexists. split; [reflexivity|]. split; [split; simpl|split; [split; simpl|simpl]].
  - eapply pages_retag; try eassumption; try reflexivity; congruence.
  - eapply lists_remove; eassumption.
  - eapply counts_upd; [eassumption|..|assumption].
    + intros z' j Hne. rewrite Hlen, decide_False by assumption. lia.
    + rewrite Hlen, decide_True by reflexivity. lia.
  - intros z'. apply zone_upd_quiet. reflexivity.
  - intros z'. apply filter_out_id. intros Hx. apply (lo_listed _ _ Hl) in Hx as [Hx _]. congruence.
  - intros q. apply (upd_page_flags p (fun p => set_order 0 (set_state PAGE_STATE_TAIL p))); [assumption|reflexivity].
  - intros z'. case_decide; subst.
    + rewrite (free_sum_upd (bs_list st) _ _ k (-1)); [lia|assumption|..].
      * intros j Hj. rewrite Hlen, decide_False by congruence. lia.
      * rewrite Hlen, decide_True by reflexivity. lia.
    + rewrite (free_sum_same (bs_list st)); [lia|]. intros j. rewrite Hlen, decide_False by congruence. lia.
Qed.

Lemma link_rep A st z p k :
  represents A st -> A !! p = Some (Float, k) -> z = pmmZoneOfPfn p ->
  exists st', link_block z p k st = Some st' /\ represents (<[p := (Free, k)]> A) st' /\
    quiet st st' /\
    forall z', free_sum (bs_list st') z' = free_sum (bs_list st) z' + (if decide (z' = z) then 2 ^ k else 0).
Proof.
  intros [Hpg Hl Hc] Hp ->. destruct (po_shape _ _ Hpg _ _ _ Hp) as (_ & Hk & _).
  destruct (head_page _ _ _ _ _ Hpg Hp) as (pg & Epg & _).
  set (h := FreeList (pmmZoneOfPfn p) k).
  assert (Hlen : forall z' j, zlen ((<[h := p :: bs_list st h]> (bs_list st)) (FreeList z' j)) =
    zlen (bs_list st (FreeList z' j)) + (if decide ((z', j) = (pmmZoneOfPfn p, k)) then 1 else 0)).
  { intros z' j. case_decide as Hz.
    - simplify_eq. unfold h. rewrite fn_lookup_insert, zlen_cons. lia.
    - rewrite fn_lookup_insert_ne by (unfold h; congruence). lia. }
  assert (E8 : u8 k = k) by (apply u8_small; unfold PMM_MAX_ORDER in Hk; words; lia).
  unfold link_block, upd_page, listPushHead, upd_zone, with_lists. rewrite Epg. simpl.
  eexists. split; [reflexivity|]. fold h. split; [split; simpl|split; [split; simpl|simpl]].
  - eapply pages_retag; try eassumption; try reflexivity; try discriminate.
  - apply lists_push; try assumption; [discriminate|reflexivity].
  - eapply counts_upd; [eassumption|..|assumption].
    + intros z' j Hne. rewrite Hlen, decide_False by assumption. lia.
    + rewrite Hlen, decide_True by reflexivity. lia.
  - intros z'. apply zone_upd_quiet. reflexivity.
  - intros z'. rewrite fn_lookup_insert_ne by discriminate. reflexivity.
  - intros q. apply (upd_page_flags p (fun p => set_order (u8 k) (set_state PAGE_STATE_BUDDY p)));
      [assumption|reflexivity].
  - intros z'. case_decide; subst.
    + rewrite (free_sum_upd (bs_list st) _ _ k 1); [lia|assumption|..].
      * intros j Hj. rewrite Hlen, decide_False by congruence. lia.
      * rewrite Hlen, decide_True by reflexivity. lia.
    + rewrite (free_sum_same (bs_list st)); [lia|]. intros j. rewrite Hlen, decide_False by congruence. lia.
Qed.

Lemma buddy_involutive p k : 0 <= k -> buddy_of (buddy_of p k) k = p.
Proof.
  intros Hk. rewrite <- !lxor_pow2 by assumption.
  rewrite Z.lxor_assoc, Z.lxor_nilpotent, Z.lxor_0_r. reflexivity.
Qed.

(** ** Freeing a block *)

Definition free_frame (A : blocks) (f : Z) : Prop := exists q j, holds A q Free j f.
Definition in_block (p k f : Z) : Prop := p <= f < p + 2 ^ k.

(** From the floating block [(p, k)] in [A] to the floating block [(p', k')] in
    [A']: only free blocks were taken in, and all their frames are in it. *)
Record absorbs (A : blocks) (p k : Z) (A' : blocks) (p' k' : Z) : Prop := {
  ab_float : A' !! p' = Some (Float, k');
  ab_keeps : forall q κ j, κ <> Free ->
    (q <> p' /\ A' !! q = Some (κ, j)) <-> (q <> p /\ A !! q = Some (κ, j));
  ab_frames : forall f, free_frame A' f \/ in_block p' k' f <-> free_frame A f \/ in_block p k f;
  ab_free : forall q j, A' !! q = Some (Free, j) -> A !! q = Some (Free, j);
  ab_zone : pmmZoneOfPfn p' = pmmZoneOfPfn p
}.

Lemma absorbs_refl A p k : A !! p = Some (Float, k) -> absorbs A p k A p k.
Proof. intros Hp. split; auto; reflexivity. Qed.

Lemma absorbs_trans A p k A1 p1 k1 A2 p2 k2 :
  absorbs A p k A1 p1 k1 -> absorbs A1 p1 k1 A2 p2 k2 -> absorbs A p k A2 p2 k2.
Proof.
  intros H1 H2. split.
  - apply (ab_float _ _ _ _ _ _ H2).
  - intros q κ j Hκ. rewrite (ab_keeps _ _ _ _ _ _ H2), (ab_keeps _ _ _ _ _ _ H1) by assumption. reflexivity.
  - intros f. rewrite (ab_frames _ _ _ _ _ _ H2), (ab_frames _ _ _ _ _ _ H1). reflexivity.
  - intros q j Hq. apply (ab_free _ _ _ _ _ _ H1), (ab_free _ _ _ _ _ _ H2), Hq.
  - rewrite (ab_zone _ _ _ _ _ _ H2). apply (ab_zone _ _ _ _ _ _ H1).
Qed.

(** One round of the merge loop on the abstract state. *)
Definition join_buddy (A : blocks) (p k : Z) : blocks :=
  <[parent_of p k := (Float, k + 1)]>
    (delete (parent_of p k + 2 ^ k) (<[buddy_of p k := (Float, k)]> A)).

Lemma join_lookup A p k q :
  0 <= k -> join_buddy A p k !! q =
    if decide (q = parent_of p k) then Some (Float, k + 1)
    else if decide (q = p \/ q = buddy_of p k) then None else A !! q.
Proof.
  intros Hk. unfold join_buddy. rewrite lookup_insert, lookup_delete, lookup_insert.
  pose proof (pow2_pos k Hk). destruct (parent_halves p k) as [[? ?]|[? ?]];
  repeat case_decide; try reflexivity; exfalso; lia.
Qed.

Lemma join_absorbs A p k ps :
  pages_ok A ps -> A !! p = Some (Float, k) -> A !! buddy_of p k = Some (Free, k) ->
  k < PMM_MAX_ORDER -> absorbs A p k (join_buddy A p k) (parent_of p k) (k + 1).
Proof.
  intros Hok Hp Hb Hk. destruct (po_shape _ _ Hok _ _ _ Hp) as (Hp0 & Hk0 & Ha & _).
  pose proof (pow2_pos k ltac:(lia)) as Hpos. pose proof (pow2_succ k ltac:(lia)) as Hs.
  pose proof (parent_halves p k) as Hhalf.
  assert (Hblock : forall f, in_block (parent_of p k) (k + 1) f <->
                             in_block p k f \/ in_block (buddy_of p k) k f)
    by (intros f; unfold in_block; lia).
  split.
  - rewrite join_lookup by lia. rewrite decide_True by reflexivity. reflexivity.
  - intros q κ j Hκ. rewrite join_lookup by lia.
    destruct (decide (q = parent_of p k)) as [->|Hq]; [|case_decide as Hq'].
    + split; [intros [? _]; congruence|]. intros [Hne Hq]. destruct Hhalf as [[? _]|[E _]]; [congruence|].
      rewrite E in Hq. congruence.
    + split; [intros [_ ?]; discriminate|]. destruct Hq' as [->| ->]; intros [? ?]; congruence.
    + split; intros [? ?]; split; try assumption; intros ->; apply Hq'; auto.
  - intros f. rewrite Hblock. split.
    + intros [(q & j & Hq & Hf)|[Hf|Hf]]; [left|right; assumption|left].
      * rewrite join_lookup in Hq by lia. repeat case_decide; try discriminate. exists q, j. split; assumption.
      * exists (buddy_of p k), k. split; assumption.
    + intros [(q & j & Hq & Hf)|Hf]; [|auto].
      destruct (decide (q = buddy_of p k)) as [->|Hne].
      * simplify_eq. auto.
      * left. exists q, j. split; [|assumption]. rewrite join_lookup by lia.
        rewrite !decide_False; [assumption|..].
        -- intros [->| ->]; [congruence|contradiction].
        -- intros ->. destruct Hhalf as [[E _]|[E _]]; rewrite E in *; congruence.
  - intros q j Hq. rewrite join_lookup in Hq by lia. repeat case_decide; [discriminate..|assumption].
  - apply chunk_zone. destruct Hhalf as [[-> _]|[-> _]]; [reflexivity|].
    apply chunk_buddy; [lia|assumption].
Qed.

Lemma join_rep A st p k :
  represents (<[buddy_of p k := (Float, k)]> A) st -> A !! p = Some (Float, k) ->
  A !! buddy_of p k = Some (Free, k) -> k < PMM_MAX_ORDER ->
  represents (join_buddy A p k) st.
Proof.
  intros [Hpg Hl Hc] Hp Hb Hk.
  assert (Hne : buddy_of p k <> p) by (intros E; rewrite E in Hb; congruence).
  assert (Hp1 : <[buddy_of p k := (Float, k)]> A !! p = Some (Float, k))
    by (rewrite lookup_insert_ne; assumption).
  destruct (po_shape _ _ Hpg _ _ _ Hp1) as (Hp0 & Hk0 & Ha & _).
  pose proof (lookup_insert_eq A (buddy_of p k) (Float, k)) as Hb1.
  split; [| |assumption].
  - apply pages_join; [assumption|..|lia|].
    + destruct (parent_halves p k) as [[-> _]|[-> _]]; assumption.
    + destruct (parent_halves p k) as [[-> E]|[-> E]]; rewrite <- E; assumption.
    + apply parent_aligned; [lia|assumption].
  - eapply lists_same; [exact Hl|]. intros q κ j Hκ. unfold join_buddy.
    rewrite (lookup_insert (delete _ _)), lookup_delete.
    pose proof (pow2_pos k ltac:(lia)).
    destruct (parent_halves p k) as [[E1 E2]|[E1 E2]]; repeat case_decide; subst;
      split; intros; destruct Hκ; subst; rewrite ?E1, <- ?E2, ?Hb1, ?Hp1 in *; congruence.
Qed.

(** The loop ends with a block whose buddy is not a free block of its order. *)
Lemma merge_rep n A st p k :
  represents A st -> A !! p = Some (Float, k) -> (Z.to_nat (PMM_MAX_ORDER - k) < n)%nat ->
  exists p' k' st' A', merge n (pmmZoneOfPfn p) p k st = Some (p', k', st') /\
    represents A' st' /\ absorbs A p k A' p' k' /\ quiet st st' /\
    (k' < PMM_MAX_ORDER -> A' !! buddy_of p' k' <> Some (Free, k')) /\
    forall z, free_sum (bs_list st') z + (if decide (z = pmmZoneOfPfn p) then 2 ^ k' else 0) =
              free_sum (bs_list st) z + (if decide (z = pmmZoneOfPfn p) then 2 ^ k else 0).
Proof.
  revert A st p k. induction n as [|n IH]; intros A st p k Hr Hp Hn; [lia|].
  destruct (po_shape _ _ (rep_pages _ _ Hr) _ _ _ Hp) as (Hp0 & Hk & Ha & _).
  simpl. destruct (Z.ltb_spec k PMM_MAX_ORDER) as [Hlt|Hge].
  2:{ exists p, k, st, A. repeat (split; [auto using absorbs_refl; try reflexivity|]); [lia|reflexivity]. }
  rewrite shl1_u64, lxor_pow2 by (unfold PMM_MAX_ORDER in *; lia).
  destruct (head_page _ _ _ _ _ (rep_pages _ _ Hr) Hp) as (pg0 & Hpg0 & _).
  destruct (po_backed _ _ (rep_pages _ _ Hr) p ltac:(eauto)) as [Hrange Hchunk].
  destruct (Hchunk (buddy_of p k)) as [pg Hpg]; [apply chunk_buddy; [lia|assumption]|].
  rewrite Hpg. simpl.
  destruct (negb (pg_state pg =? PAGE_STATE_BUDDY) || negb (pg_order pg =? k)) eqn:Etest.
  - exists p, k, st, A. repeat (split; [auto using absorbs_refl; try reflexivity|]); [|reflexivity].
    intros _ Hb. destruct (head_page _ _ _ _ _ (rep_pages _ _ Hr) Hb) as (pg' & Hpg' & Hst).
    pose proof (po_order _ _ (rep_pages _ _ Hr) _ _ _ _ Hb ltac:(discriminate) Hpg) as Hor.
    simplify_eq. rewrite Hst, !Z.eqb_refl in Etest. discriminate.
  - apply orb_false_elim in Etest as [Es Eo]. apply negb_false_iff, Z.eqb_eq in Es, Eo.
    pose proof (state_head _ _ _ _ Free (rep_pages _ _ Hr) Hpg Es ltac:(discriminate)) as Hb.
    rewrite Eo in Hb.
    assert (Hz : pmmZoneOfPfn p = pmmZoneOfPfn (buddy_of p k))
      by (symmetry; apply chunk_zone, chunk_buddy; [lia|assumption]).
    destruct (unlink_rep _ _ _ _ _ Hr Hb Hz) as (st1 & E1 & Hr1 & Hq1 & Hs1).
    rewrite E1. simpl.
    pose proof (join_rep _ _ _ _ Hr1 Hp Hb Hlt) as Hr2.
    pose proof (join_absorbs _ _ _ _ (rep_pages _ _ Hr) Hp Hb Hlt) as Hab.
    rewrite land_not64_pow2 by (unfold PMM_MAX_ORDER in *; words; lia).
    rewrite (u32_small (k + 1)) by (unfold PMM_MAX_ORDER in *; words; lia).
    destruct (IH _ _ _ _ Hr2 (ab_float _ _ _ _ _ _ Hab) ltac:(lia)) as (p' & k' & st' & A' & E & ? & Hab' & Hq & ? & Hsum).
    rewrite (ab_zone _ _ _ _ _ _ Hab) in E, Hsum.
    exists p', k', st', A'. split; [exact E|]. split; [assumption|].
    split; [eapply absorbs_trans; eassumption|]. split; [etransitivity; eassumption|]. split; [assumption|].
    intros z. rewrite Hsum, Hs1, pow2_succ by lia. case_decide; lia.
Qed.

(** What freeing a block does to the abstract state. *)
Record freed (A : blocks) (p k : Z) (A' : blocks) : Prop := {
  fr_others : forall q κ j, κ <> Free -> A' !! q = Some (κ, j) <-> (q <> p /\ A !! q = Some (κ, j));
  fr_frames : forall f, free_frame A' f <-> free_frame A f \/ in_block p k f;
  fr_coalesced : coalesced A -> coalesced A'
}.

Lemma absorbs_freed A p k A' p' k' :
  absorbs A p k A' p' k' -> 0 <= k' ->
  (k' < PMM_MAX_ORDER -> A' !! buddy_of p' k' <> Some (Free, k')) ->
  freed A p k (<[p' := (Free, k')]> A').
Proof.
  intros Hab Hk' Hnb. split.
  - intros q κ j Hκ. rewrite <- (ab_keeps _ _ _ _ _ _ Hab) by assumption.
    rewrite lookup_insert. case_decide; subst; (split; [intros ?; split|intros [? ?]]; congruence).
  - intros f. rewrite <- (ab_frames _ _ _ _ _ _ Hab). split.
    + intros (q & j & Hq & Hf). rewrite lookup_insert in Hq. case_decide; simplify_eq; [auto|].
      left. exists q, j. split; assumption.
    + intros [(q & j & Hq & Hf)|Hf].
      * exists q, j. split; [|assumption]. rewrite lookup_insert_ne; [assumption|].
        intros ->. rewrite (ab_float _ _ _ _ _ _ Hab) in Hq. discriminate.
      * exists p', k'. split; [apply lookup_insert_eq|assumption].
  - intros Hco q j Hq Hj. rewrite lookup_insert in Hq.
    pose proof (pow2_pos k' Hk') as Hpos.
    assert (Hdist : buddy_of p' k' <> p') by (destruct (parent_halves p' k') as [[_ ?]|[_ ?]]; lia).
    case_decide as Hqp.
    + simplify_eq. rewrite lookup_insert_ne by congruence. auto.
    + rewrite lookup_insert. case_decide as Hb.
      * intros [= <-]. rewrite Hb in Hnb. rewrite buddy_involutive in Hnb by assumption.
        exact (Hnb Hj Hq).
      * intros Hq'. apply (Hco q j (ab_free _ _ _ _ _ _ Hab _ _ Hq) Hj).
        apply (ab_free _ _ _ _ _ _ Hab), Hq'.
Qed.

(** [buddyFreeBlock] on a floating block: no fault, the block's frames become
    free frames, nothing else moves, and the ledger follows. *)
Lemma buddyFreeBlock_rep A st p k :
  represents A st -> A !! p = Some (Float, k) ->
  exists st' A', buddyFreeBlock (pmmZoneOfPfn p) p k st = Some st' /\ represents A' st' /\
    freed A p k A' /\
    quiet (upd_zone (pmmZoneOfPfn p) (zone_add_free (2 ^ k)) st) st' /\
    forall z, free_sum (bs_list st') z =
              free_sum (bs_list st) z + (if decide (z = pmmZoneOfPfn p) then 2 ^ k else 0).
Proof.
  intros Hr Hp. destruct (po_shape _ _ (rep_pages _ _ Hr) _ _ _ Hp) as (Hp0 & Hk & Ha & _).
  unfold buddyFreeBlock. rewrite shl1_u64 by (unfold PMM_MAX_ORDER in *; lia).
  set (st0 := upd_zone _ _ st).
  assert (Hr0 : represents A st0).
  { destruct Hr as [? ? Hc]. split; [assumption..|]. intros z j Hj. unfold st0, upd_zone. simpl.
    rewrite <- Hc by assumption. unfold insert, fn_insert. case_decide; subst; reflexivity. }
  destruct (merge_rep 12 _ _ _ _ Hr0 Hp) as (p' & k' & st1 & A' & E & Hr1 & Hab & Hq1 & Hnb & Hs).
  { unfold PMM_MAX_ORDER in *. lia. }
  rewrite E. simpl.
  destruct (link_rep _ _ (pmmZoneOfPfn p) _ _ Hr1 (ab_float _ _ _ _ _ _ Hab)) as (st' & E' & Hr' & Hq' & Hs').
  { symmetry. apply (ab_zone _ _ _ _ _ _ Hab). }
  exists st', (<[p' := (Free, k')]> A'). split; [exact E'|]. split; [exact Hr'|].
  split; [|split; [etransitivity; eassumption|]].
  - apply absorbs_freed; try assumption.
    apply (po_shape _ _ (rep_pages _ _ Hr1) _ _ _ (ab_float _ _ _ _ _ _ Hab)).
  - intros z. rewrite Hs'. specialize (Hs z). simpl in Hs. case_decide; lia.
Qed.

(** ** Allocating a block *)

Lemma aligned_lower p k : 0 <= k -> (2 ^ (k + 1) | p) -> parent_of p k = p /\ buddy_of p k = p + 2 ^ k.
Proof.
  intros Hk [c ->]. unfold parent_of, buddy_of.
  replace (Z.testbit (c * 2 ^ (k + 1)) k) with false; [lia|].
  rewrite Z.mul_pow2_bits_low by lia. reflexivity.
Qed.

(** One round of the split loop on the abstract state. *)
Definition split_upper (A : blocks) (p k : Z) : blocks :=
  <[p + 2 ^ k := (Free, k)]> (<[p := (Float, k)]> A).

Lemma split_step A st p k :
  represents A st -> A !! p = Some (Float, k + 1) -> 0 <= k ->
  exists st', link_block (pmmZoneOfPfn p) (p + 2 ^ k) k st = Some st' /\
    represents (split_upper A p k) st' /\ quiet st st' /\
    absorbs (split_upper A p k) p k A p (k + 1) /\
    (coalesced A -> coalesced (split_upper A p k)) /\
    forall z, free_sum (bs_list st') z =
              free_sum (bs_list st) z + (if decide (z = pmmZoneOfPfn p) then 2 ^ k else 0).
Proof.
  intros [Hpg Hl Hc] Hp Hk. destruct (po_shape _ _ Hpg _ _ _ Hp) as (Hp0 & Hk0 & Ha & _).
  destruct (pages_split _ _ _ _ Hpg Hp Hk) as [Hnone Hpg1].
  pose proof (pow2_pos k Hk) as Hpos. destruct (aligned_lower p k Hk Ha) as [Epar Ebud].
  set (A1 := <[p + 2 ^ k := (Float, k)]> (<[p := (Float, k)]> A)) in *.
  assert (Hr1 : represents A1 st).
  { split; [assumption| |assumption]. eapply lists_same; [exact Hl|]. intros q κ j Hκ. unfold A1.
    rewrite !lookup_insert. repeat case_decide; subst; rewrite ?Hnone, ?Hp; split; intros; destruct Hκ; congruence. }
  assert (Hz : pmmZoneOfPfn p = pmmZoneOfPfn (p + 2 ^ k)).
  { symmetry. apply chunk_zone, (chunk_block _ (k + 1)); try assumption. pose proof (pow2_succ k Hk). lia. }
  destruct (link_rep A1 st (pmmZoneOfPfn p) (p + 2 ^ k) k Hr1 (lookup_insert_eq _ _ _) Hz)
    as (st' & E & Hr' & Hqt & Hs).
  unfold A1 in Hr'. rewrite insert_insert_eq in Hr'. fold (split_upper A p k) in Hr'.
  assert (Hup : split_upper A p k !! p = Some (Float, k)).
  { unfold split_upper. rewrite lookup_insert_ne, lookup_insert_eq by lia. reflexivity. }
  exists st'. split; [exact E|]. split; [exact Hr'|]. split; [exact Hqt|]. split; [|split; [|exact Hs]].
  - assert (Ej : join_buddy (split_upper A p k) p k = A).
    { unfold join_buddy, split_upper. rewrite Epar, Ebud. apply map_eq. intros q.
      rewrite lookup_insert, lookup_delete, !lookup_insert. repeat case_decide; subst; congruence. }
    pose proof (join_absorbs (split_upper A p k) p k _ (rep_pages _ _ Hr') Hup) as Hab.
    rewrite Ej, Epar, Ebud in Hab. apply Hab; [apply lookup_insert_eq|lia].
  - intros Hco q j Hq Hj Hb. unfold split_upper in Hq, Hb.
    assert (Hflip : forall x y, buddy_of x j = y -> buddy_of y j = x).
    { intros x y <-. apply buddy_involutive.
      apply (po_shape _ _ (rep_pages _ _ Hr') q Free j Hq). }
    rewrite lookup_insert in Hq, Hb. destruct (decide (p + 2 ^ k = q)) as [<-|Hq1].
    { simplify_eq. rewrite (Hflip p (p + 2 ^ j) Ebud) in Hb.
      rewrite decide_False, lookup_insert_eq in Hb by lia. discriminate. }
    rewrite lookup_insert_ne in Hq by (intros ->; rewrite lookup_insert_eq in Hq; discriminate).
    case_decide as Hb1.
    + simplify_eq. symmetry in Hb1. apply Hflip in Hb1.
      rewrite (Hflip p (p + 2 ^ j) Ebud) in Hb1. congruence.
    + rewrite lookup_insert in Hb. case_decide; [congruence|]. exact (Hco q j Hq Hj Hb).
Qed.

Lemma split_rep n A st p order k :
  represents A st -> A !! p = Some (Float, k) -> 0 <= order <= k -> (Z.to_nat (k - order) < n)%nat ->
  exists st' A', split_block n (pmmZoneOfPfn p) order k p st = Some st' /\ represents A' st' /\
    quiet st st' /\ A' !! p = Some (Float, order) /\ absorbs A' p order A p k /\
    (coalesced A -> coalesced A') /\
    forall z, free_sum (bs_list st') z =
              free_sum (bs_list st) z + (if decide (z = pmmZoneOfPfn p) then 2 ^ k - 2 ^ order else 0).
Proof.
  revert A st k. induction n as [|n IH]; intros A st k Hr Hp Ho Hn; [lia|].
  destruct (po_shape _ _ (rep_pages _ _ Hr) _ _ _ Hp) as (Hp0 & Hk & Ha & _).
  simpl. destruct (Z.ltb_spec order k) as [Hlt|Hge].
  2:{ assert (order = k) as -> by lia. exists st, A.
      repeat (split; [auto using absorbs_refl; try reflexivity|]). intros z. case_decide; lia. }
  pose proof (head_page _ _ _ _ _ (rep_pages _ _ Hr) Hp) as (pg0 & Hpg0 & _).
  destruct (po_backed _ _ (rep_pages _ _ Hr) p ltac:(eauto)) as [Hrange _].
  rewrite (u32_small (k - 1)), shl1_u64 by (unfold PMM_MAX_ORDER in *; words; lia).
  assert (Hpw : 2 ^ (k - 1) <= 2 ^ 10) by (apply Z.pow_le_mono_r; unfold PMM_MAX_ORDER in *; lia).
  pose proof (pow2_pos (k - 1) ltac:(lia)).
  rewrite (u64_small (p + 2 ^ (k - 1))) by (words; lia).
  destruct (split_step A st p (k - 1) Hr) as (st1 & E1 & Hr1 & Hq1 & Hab1 & Hc1 & Hs1);
    [replace (k - 1 + 1) with k by lia; assumption|lia|].
  rewrite E1. simpl.
  assert (Hp1 : split_upper A p (k - 1) !! p = Some (Float, k - 1)).
  { unfold split_upper. rewrite lookup_insert_ne, lookup_insert_eq by lia. reflexivity. }
  destruct (IH _ _ _ Hr1 Hp1 ltac:(lia) ltac:(lia)) as (st' & A' & E & Hr' & Hq & Hfl & Hab & Hc & Hs).
  exists st', A'. split; [exact E|]. split; [exact Hr'|]. split; [etransitivity; eassumption|].
  split; [exact Hfl|]. split; [|split; [auto|]].
  - replace (k - 1 + 1) with k in Hab1 by lia. eapply absorbs_trans; eassumption.
  - intros z. rewrite Hs, Hs1. pose proof (pow2_succ (k - 1) ltac:(lia)) as Hd.
    replace (k - 1 + 1) with k in Hd by lia. case_decide; lia.
Qed.

Lemma find_order_rep n z k st :
  0 <= k -> (Z.to_nat (PMM_ORDER_COUNT - k) < n)%nat -> k <= PMM_ORDER_COUNT ->
  exists k', find_order n z k st = Some k' /\ k <= k' <= PMM_ORDER_COUNT /\
    (forall j, k <= j < k' -> bs_list st (FreeList z j) = []) /\
    (k' < PMM_ORDER_COUNT -> bs_list st (FreeList z k') <> []).
Proof.
  revert k. induction n as [|n IH]; intros k Hk Hn Hle; [lia|]. simpl.
  destruct (Z.ltb_spec k PMM_ORDER_COUNT) as [Hlt|Hge]; simpl.
  - destruct (bs_list st (FreeList z k)) eqn:E.
    + rewrite (u32_small (k + 1)) by (unfold PMM_ORDER_COUNT, PMM_MAX_ORDER in *; words; lia).
      destruct (IH (k + 1)) as (k' & E' & Hr & Hem & Hne); [lia..|].
      exists k'. split; [exact E'|]. split; [lia|]. split; [|assumption].
      intros j Hj. destruct (decide (j = k)) as [->|]; [assumption|]. apply Hem. lia.
    + exists k. split; [reflexivity|]. split; [lia|]. split; [lia|]. rewrite E. discriminate.
  - exists k. repeat split; lia.
Qed.

#[global] Arguments merge : simpl never.
#[global] Arguments split_block : simpl never.
#[global] Arguments find_order : simpl never.

(** What an allocation does to the abstract state: the block [(p, k)], cut from
    a free block, is now floating, and nothing else moved. *)
Record taken (A : blocks) (p k : Z) (A' : blocks) : Prop := {
  tk_float : A' !! p = Some (Float, k);
  tk_was : exists j, k <= j /\ A !! p = Some (Free, j);
  tk_others : forall q κ j, κ <> Free -> q <> p -> A' !! q = Some (κ, j) <-> A !! q = Some (κ, j);
  tk_frames : forall f, free_frame A f <-> free_frame A' f \/ in_block p k f;
  tk_coalesced : coalesced A -> coalesced A'
}.

Lemma refloat_coalesced A p k : coalesced A -> coalesced (<[p := (Float, k)]> A).
Proof.
  intros Hco q j Hq Hj Hb. rewrite lookup_insert in Hq, Hb. repeat case_decide; try discriminate.
  exact (Hco q j Hq Hj Hb).
Qed.

Lemma absorbs_taken A p j A' k :
  A !! p = Some (Free, j) -> k <= j -> A' !! p = Some (Float, k) ->
  absorbs A' p k (<[p := (Float, j)]> A) p j ->
  (coalesced (<[p := (Float, j)]> A) -> coalesced A') -> taken A p k A'.
Proof.
  intros Hp Hk Hp' Hab Hco. split; [assumption|eauto|..].
  - intros q κ i Hκ Hq. pose proof (ab_keeps _ _ _ _ _ _ Hab q κ i Hκ) as Hk'.
    rewrite lookup_insert_ne in Hk' by congruence. tauto.
  - intros f. rewrite <- (ab_frames _ _ _ _ _ _ Hab). split.
    + intros (q & i & Hq & Hf). destruct (decide (q = p)) as [->|Hne].
      * simplify_eq. auto.
      * left. exists q, i. split; [rewrite lookup_insert_ne by congruence; assumption|assumption].
    + intros [(q & i & Hq & Hf)|Hf].
      * rewrite lookup_insert in Hq. case_decide; [discriminate|]. exists q, i. split; assumption.
      * exists p, j. split; assumption.
  - intros Hc. apply Hco, refloat_coalesced, Hc.
Qed.

Lemma buddyAllocBlock_rep A st z order :
  represents A st -> 0 <= order <= PMM_MAX_ORDER ->
  (exists p st' A', buddyAllocBlock z order st = Some (Some p, st') /\ represents A' st' /\
     taken A p order A' /\ pmmZoneOfPfn p = z /\
     quiet (upd_zone z (zone_add_free (- 2 ^ order)) st) st' /\
     forall z', free_sum (bs_list st') z' =
                free_sum (bs_list st) z' - (if decide (z' = z) then 2 ^ order else 0)) \/
  (buddyAllocBlock z order st = Some (None, st) /\
   forall p k, A !! p = Some (Free, k) -> pmmZoneOfPfn p = z -> k < order).
Proof.
  intros Hr Ho. unfold buddyAllocBlock.
  destruct (find_order_rep 12 z order st) as (k & E & Hk & Hem & Hne);
    try (unfold PMM_ORDER_COUNT, PMM_MAX_ORDER in *; lia).
  rewrite E. simpl. destruct (Z.leb_spec PMM_ORDER_COUNT k) as [Hfull|Hlt].
  - right. split; [reflexivity|]. intros p j Hp Hz.
    destruct (Z.lt_ge_cases j order) as [|Hj]; [assumption|exfalso].
    assert (Hin : p ∈ bs_list st (FreeList z j)) by (apply (lo_listed _ _ (rep_lists _ _ Hr)); split; assumption).
    destruct (po_shape _ _ (rep_pages _ _ Hr) _ _ _ Hp) as (_ & Hj' & _).
    rewrite Hem in Hin by (unfold PMM_ORDER_COUNT in *; lia). inversion Hin.
  - left. destruct (bs_list st (FreeList z k)) as [|p l] eqn:El; [contradiction Hne; auto|].
    assert (Hin : listed A (FreeList z k) p) by (apply (in_list _ _ _ _ Hr); rewrite El; apply elem_of_cons; auto).
    destruct Hin as [Hp Hz]. symmetry in Hz.
    destruct (unlink_rep _ _ _ _ _ Hr Hp Hz) as (st1 & E1 & Hr1 & Hq1 & Hs1).
    rewrite E1. simpl. subst z.
    destruct (split_rep 12 _ _ p order k Hr1 (lookup_insert_eq _ _ _))
      as (st2 & A' & E2 & Hr2 & Hq2 & Hfl & Hab & Hco & Hs2);
      [lia|unfold PMM_ORDER_COUNT, PMM_MAX_ORDER in *; lia|].
    rewrite E2. simpl. rewrite shl1_u64 by (unfold PMM_MAX_ORDER in *; lia).
    eexists p, _, A'. split; [reflexivity|]. split; [|split; [|split; [reflexivity|split]]].
    + destruct Hr2 as [? ? Hc]. split; [assumption..|]. intros z j Hj. unfold upd_zone. simpl.
      rewrite <- Hc by assumption. unfold insert, fn_insert. case_decide; subst; reflexivity.
    + eapply absorbs_taken; try eassumption; lia.
    + pose proof (transitivity Hq1 Hq2) as [Hqz Hqc Hqf]. split; simpl; [|exact Hqc|exact Hqf].
      intros z. specialize (Hqz z). unfold insert, fn_insert.
      case_decide; [subst z|exact Hqz]. simpl. congruence.
    + intros z. rewrite Hs2, Hs1. case_decide; lia.
Qed.

(** ** Coalesced free lists are canonical *)

(** A region of free frames lies in one free block. *)
Lemma coalesced_fill A ps k :
  pages_ok A ps -> coalesced A -> 0 <= k ->
  forall p, k <= PMM_MAX_ORDER -> (2 ^ k | p) -> (forall f, in_block p k f -> free_frame A f) ->
  exists q j, A !! q = Some (Free, j) /\ k <= j /\ q <= p /\ p + 2 ^ k <= q + 2 ^ j.
Proof.
  intros Hok Hco. revert k. apply (natlike_ind (fun k => forall p, k <= PMM_MAX_ORDER -> (2 ^ k | p) ->
    (forall f, in_block p k f -> free_frame A f) ->
    exists q j, A !! q = Some (Free, j) /\ k <= j /\ q <= p /\ p + 2 ^ k <= q + 2 ^ j)).
  - intros p _ _ Hf. destruct (Hf p) as (q & j & Hq & Hr); [unfold in_block; lia|].
    destruct (po_shape _ _ Hok _ _ _ Hq) as (_ & Hj & _). exists q, j. repeat split; try assumption; lia.
  - intros k Hk IH p Hle Ha Hf. unfold Z.succ in *.
    pose proof (pow2_succ k Hk) as Hs. pose proof (pow2_pos k Hk) as Hpos.
    assert (Ha' : (2 ^ k | p)) by (etransitivity; [apply (pow2_divide k (k + 1)); lia|exact Ha]).
    destruct (aligned_lower p k Hk Ha) as [_ Ebud].
    destruct (IH p ltac:(lia) Ha') as (q1 & j1 & Hq1 & Hj1 & Hl1 & Hr1).
    { intros f Hf'. apply Hf. unfold in_block in *. lia. }
    destruct (IH (p + 2 ^ k) ltac:(lia)) as (q2 & j2 & Hq2 & Hj2 & Hl2 & Hr2).
    { apply Z.divide_add_r; [assumption|apply Z.divide_refl]. }
    { intros f Hf'. apply Hf. unfold in_block in *. lia. }
    destruct (po_shape _ _ Hok _ _ _ Hq1) as (_ & _ & Ha1 & _).
    destruct (po_shape _ _ Hok _ _ _ Hq2) as (_ & _ & Ha2 & _).
    destruct (decide (j1 = k)) as [->|N1]; [|exists q1, j1].
    + assert (q1 = p) as -> by lia. destruct (decide (j2 = k)) as [->|N2]; [|exists q2, j2].
      * exfalso. assert (q2 = p + 2 ^ k) as -> by lia.
        apply (Hco p k Hq1 ltac:(lia)). rewrite Ebud. exact Hq2.
      * destruct (aligned_nested p (k + 1) q2 j2) as [? ?]; try assumption; try lia.
        repeat split; try assumption; lia.
    + destruct (aligned_nested p (k + 1) q1 j1) as [? ?]; try assumption; try lia.
      repeat split; try assumption; lia.
Qed.

Lemma free_block_kept A ps A' ps' p k :
  pages_ok A ps -> pages_ok A' ps' -> coalesced A -> coalesced A' ->
  (forall f, free_frame A f <-> free_frame A' f) ->
  A !! p = Some (Free, k) -> A' !! p = Some (Free, k).
Proof.
  intros Hok Hok' Hco Hco' Hf Hp.
  destruct (po_shape _ _ Hok _ _ _ Hp) as (_ & Hk & Ha & _).
  destruct (coalesced_fill A' ps' k Hok' Hco' ltac:(lia) p) as (q & j & Hq & Hj & Hl & Hr); try lia; try assumption.
  { intros f Hin. apply Hf. exists p, k. split; assumption. }
  destruct (po_shape _ _ Hok' _ _ _ Hq) as (_ & Hj' & Ha' & _).
  destruct (coalesced_fill A ps j Hok Hco ltac:(lia) q) as (r & i & Hrr & Hi & Hl' & Hr'); try lia; try assumption.
  { intros f Hin. apply Hf. exists q, j. split; assumption. }
  pose proof (pow2_pos k ltac:(lia)). pose proof (pow2_pos j ltac:(lia)).
  assert (p = r) as <- by (apply (po_disjoint _ _ Hok p Free k r Free i p); split; try assumption; lia).
  simplify_eq. assert (p = q) as <- by lia.
  assert (2 ^ k <= 2 ^ j) by (apply Z.pow_le_mono_r; lia).
  assert (k = j) as -> by (apply (Z.pow_inj_r 2); lia). exact Hq.
Qed.

Lemma coalesced_canonical A ps A' ps' :
  pages_ok A ps -> pages_ok A' ps' -> coalesced A -> coalesced A' ->
  (forall f, free_frame A f <-> free_frame A' f) ->
  (forall q κ j, κ <> Free -> A !! q = Some (κ, j) <-> A' !! q = Some (κ, j)) ->
  A = A'.
Proof.
  intros Hok Hok' Hco Hco' Hf Ho. apply map_eq. intros q. apply option_eq. intros [κ j].
  destruct (decide (κ = Free)) as [->|Hκ]; [|apply Ho, Hκ].
  split; eapply free_block_kept; try eassumption. intros f. symmetry. apply Hf.
Qed.

(** ** The free-page ledger *)

Definition ledger (st : BuddyState) : Prop :=
  forall z, zn_freePages (bs_zone st z) = u64 (free_sum (bs_list st) z).

Lemma ledger_step st st' z d :
  quiet (upd_zone z (zone_add_free d) st) st' ->
  (forall z', free_sum (bs_list st') z' = free_sum (bs_list st) z' + (if decide (z' = z) then d else 0)) ->
  ledger st -> ledger st'.
Proof.
  intros Hq Hs Hl z'. pose proof (q_zone _ _ Hq z') as Hz. rewrite Hs. unfold upd_zone in Hz. simpl in Hz.
  unfold insert, fn_insert in Hz. destruct (decide (z = z')) as [<-|Hne].
  - simpl in Hz. rewrite decide_True by reflexivity. injection Hz as -> _ _ _.
    rewrite Hl. unfold u64. rewrite Zplus_mod_idemp_l. reflexivity.
  - rewrite decide_False by congruence. injection Hz as -> _ _ _. rewrite Z.add_0_r. apply Hl.
Qed.

(** ** Results *)

Lemma taken_in_free A ps p k A' f : pages_ok A ps -> taken A p k A' -> in_block p k f -> free_frame A f.
Proof. intros Hok Ht Hf. apply (tk_frames _ _ _ _ Ht). auto. Qed.

(** C27: [buddyAllocBlock] never faults.  It fails exactly when the zone has no
    free block of the order asked for or above, and then changes nothing.
    Otherwise it returns an aligned block of free frames of the zone, and giving
    that block back with [buddyFreeBlock] restores the block structure that was
    there before, with the page ledger exact at every point. *)
Theorem buddy_alloc_free_restores A st z order :
  represents A st -> coalesced A -> ledger st -> 0 <= order <= PMM_MAX_ORDER ->
  match buddyAllocBlock z order st with
  | Some (Some p, st') =>
      (2 ^ order | p) /\ pmmZoneOfPfn p = z /\ (forall f, in_block p order f -> free_frame A f) /\
      ledger st' /\
      exists st'', buddyFreeBlock z p order st' = Some st'' /\ represents A st'' /\ ledger st''
  | Some (None, st') =>
      st' = st /\ forall p k, A !! p = Some (Free, k) -> pmmZoneOfPfn p = z -> k < order
  | None => False
  end.
Proof.
  intros Hr Hco Hl Ho.
  destruct (buddyAllocBlock_rep A st z order Hr Ho)
    as [(p & st' & A' & -> & Hr' & Ht & Hz & Hq & Hs)|[-> Hnone]]; [|auto].
  destruct (buddyFreeBlock_rep A' st' p order Hr' (tk_float _ _ _ _ Ht))
    as (st'' & A'' & E & Hr'' & Hf & Hq' & Hs').
  assert (Hl' : ledger st').
  { eapply ledger_step; [exact Hq| |exact Hl]. intros z'. rewrite Hs. case_decide; lia. }
  assert (EA : A = A'').
  { eapply coalesced_canonical; [apply (rep_pages _ _ Hr)|apply (rep_pages _ _ Hr'')|assumption| | |].
    - apply (fr_coalesced _ _ _ _ Hf), (tk_coalesced _ _ _ _ Ht), Hco.
    - intros f. rewrite (fr_frames _ _ _ _ Hf), (tk_frames _ _ _ _ Ht). reflexivity.
    - intros q κ j Hκ. rewrite (fr_others _ _ _ _ Hf) by assumption.
      destruct (tk_was _ _ _ _ Ht) as (i & _ & Hp).
      destruct (decide (q = p)) as [->|Hne]; [split; [congruence|tauto]|].
      rewrite (tk_others _ _ _ _ Ht) by assumption. tauto. }
  split; [|split; [assumption|split; [|split; [assumption|]]]].
  - apply (po_shape _ _ (rep_pages _ _ Hr') _ _ _ (tk_float _ _ _ _ Ht)).
  - intros f. eapply taken_in_free; [apply (rep_pages _ _ Hr)|eassumption].
  - exists st''. rewrite <- Hz. split; [exact E|]. split; [congruence|].
    eapply ledger_step; eassumption.
Qed.

(** Coalesced free lists are canonical: two states that agree on which
    frames are free and on the blocks that are not have the same free blocks in
    every list, and the same free-page counters, whatever order of splits and
    merges led to them. *)
Theorem free_lists_canonical A st A' st' :
  represents A st -> represents A' st' -> coalesced A -> coalesced A' -> ledger st -> ledger st' ->
  (forall f, free_frame A f <-> free_frame A' f) ->
  (forall q κ j, κ <> Free -> A !! q = Some (κ, j) <-> A' !! q = Some (κ, j)) ->
  (forall z k, bs_list st (FreeList z k) ≡ₚ bs_list st' (FreeList z k)) /\
  (forall z, zn_freePages (bs_zone st z) = zn_freePages (bs_zone st' z)).
Proof.
  intros Hr Hr' Hco Hco' Hl Hl' Hf Ho.
  assert (A = A') as <-.
  { eapply coalesced_canonical; eauto using rep_pages. }
  assert (Hp : forall h, bs_list st h ≡ₚ bs_list st' h).
  { intros h. apply NoDup_Permutation; [apply (rep_lists _ _ Hr)|apply (rep_lists _ _ Hr')|].
    intros q. rewrite (lo_listed _ _ (rep_lists _ _ Hr)), (lo_listed _ _ (rep_lists _ _ Hr')). reflexivity. }
  split; [intros; apply Hp|]. intros z. rewrite Hl, Hl'. f_equal. apply free_sum_same.
  intros k. unfold zlen. rewrite (Hp (FreeList z k)). reflexivity.
Qed.

(** ** A concrete allocator: one chunk, a single free block of order 10 *)

Definition page_range (lo n : Z) (pg : Page) : gmap Z Page :=
  gset_to_gmap pg (list_to_set (seqZ lo n)).

Lemma page_range_lookup lo n pg q pg' :
  page_range lo n pg !! q = Some pg' <-> lo <= q < lo + n /\ pg' = pg.
Proof.
  unfold page_range. rewrite lookup_gset_to_gmap_Some, elem_of_list_to_set, elem_of_seqZ.
  split; intros [? ?]; subst; split; auto; lia.
Qed.

Definition tailPage : Page := set_state PAGE_STATE_TAIL zeroPage.
Definition freePage (k : Z) : Page := set_order k (set_state PAGE_STATE_BUDDY zeroPage).

Definition sample_buddy : BuddyState :=
  mkBuddy (<[1024 := freePage 10]> (page_range 1024 1024 tailPage))
    (<[FreeList PMM_ZONE_DMA32 10 := [1024]]> (fun _ => []))
    (fun z => match z with
              | PMM_ZONE_DMA32 => mkZone (<[10 := 1]> (fun _ => 0)) 1024 1024 0 (2 ^ 20) "DMA32"
              | PMM_ZONE_NORMAL => mkZone (fun _ => 0) 0 0 (2 ^ 20) (2 ^ 20) "NORMAL"
              end).

Definition sample_blocks : blocks := {[1024 := (Free, 10)]}.

Lemma sample_float : pages_ok {[1024 := (Float, 10)]} (page_range 1024 1024 tailPage).
Proof.
  assert (Hone : forall p κ k q, holds {[1024 := (Float, 10)]} p κ k q ->
    p = 1024 /\ κ = Float /\ k = 10 /\ 1024 <= q < 2048).
  { intros p κ k q [Hp Hq]. apply lookup_singleton_Some in Hp as [<- [= <- <-]]. repeat (split; [reflexivity|]). lia. }
  split.
  - intros p κ k Hp. apply lookup_singleton_Some in Hp as [<- [= <- <-]].
    unfold PMM_MAX_ORDER. repeat split; try lia; [exists 1; reflexivity|discriminate].
  - intros p κ j q κ' k f H1 H2. apply Hone in H1 as (-> & _), H2 as (-> & _). reflexivity.
  - intros p κ k q Hh. apply Hone in Hh as (-> & -> & -> & Hq). exists tailPage.
    split; [apply page_range_lookup; split; [lia|reflexivity]|]. case_decide; reflexivity.
  - intros p κ k pg Hp. apply lookup_singleton_Some in Hp as [<- [= <- <-]]. contradiction.
  - intros q pg Hq _. apply page_range_lookup in Hq as [_ ->]. reflexivity.
  - intros q pg Hq _. apply page_range_lookup in Hq as [Hq _]. exists 1024, Float, 10.
    split; [reflexivity|lia].
  - intros p [pg Hp]. apply page_range_lookup in Hp as [Hp _]. split; [lia|].
    intros q Hc. exists tailPage. apply page_range_lookup. split; [|reflexivity].
    unfold chunk, PMM_MAX_ORDER in Hc. dlia.
Qed.

Lemma sample_rep : represents sample_blocks sample_buddy.
Proof.
  split.
  - unfold sample_blocks. rewrite <- (insert_singleton_eq (M := gmap Z) 1024 (Free, 10) (Float, 10)).
    eapply pages_retag; [apply sample_float|apply lookup_singleton_eq|..]; try reflexivity; discriminate.
  - unfold sample_blocks. rewrite <- (insert_singleton_eq (M := gmap Z) 1024 (Free, 10) (Float, 10)).
    apply (lists_push _ (fun _ => [])); try reflexivity; try discriminate.
    split; [|intros; constructor]. intros h p. split; [set_solver|].
    destruct h; simpl; rewrite lookup_singleton_Some; intros [[_ ?] _]; discriminate.
  - intros [|] k Hk; simpl.
    + destruct (decide (k = 10)) as [->|Hne]; [reflexivity|].
      rewrite !fn_lookup_insert_ne by congruence. reflexivity.
    + reflexivity.
Qed.

Lemma sample_coalesced : coalesced sample_blocks.
Proof. intros p k Hp Hk. unfold sample_blocks in Hp. apply lookup_singleton_Some in Hp as [<- [= <-]]. discriminate Hk. Qed.

Lemma sample_ledger : ledger sample_buddy.
Proof. intros [|]; reflexivity. Qed.

Lemma sample_alloc : fst <$> buddyAllocBlock PMM_ZONE_DMA32 3 sample_buddy = Some (Some 1024).
Proof. vm_compute. reflexivity. Qed.

Lemma buddy_alloc_free_restores_witness :
  exists st' st'', buddyAllocBlock PMM_ZONE_DMA32 3 sample_buddy = Some (Some 1024, st') /\ ledger st' /\
    buddyFreeBlock PMM_ZONE_DMA32 1024 3 st' = Some st'' /\ represents sample_blocks st'' /\ ledger st''.
Proof.
  pose proof (buddy_alloc_free_restores sample_blocks sample_buddy PMM_ZONE_DMA32 3
                sample_rep sample_coalesced sample_ledger ltac:(unfold PMM_MAX_ORDER; lia)) as H.
  pose proof sample_alloc as E. revert H E.
  generalize (buddyAllocBlock PMM_ZONE_DMA32 3 sample_buddy).
  intros [[[p|] st']|] H E; [|discriminate E..].
  injection E as ->. destruct H as (_ & _ & _ & Hl & st'' & Ef & Hr & Hl').
  exists st', st''. auto.
Defined.

Lemma free_lists_canonical_witness :
  (forall z k, bs_list sample_buddy (FreeList z k) ≡ₚ bs_list sample_buddy (FreeList z k)) /\
  (forall z, zn_freePages (bs_zone sample_buddy z) = zn_freePages (bs_zone sample_buddy z)).
Proof.
  apply (free_lists_canonical sample_blocks sample_buddy sample_blocks sample_buddy
           sample_rep sample_rep sample_coalesced sample_coalesced sample_ledger sample_ledger);
    intros; reflexivity.
Defined.
