(* ===== verification/PmmMap.v ===== *)
(** * The pmm's scan of the boot memory map

    Models kernel/mm/pmm-map.c with the types of kernel/mm/pmm-internal.h.  The
    fixed arrays of [PmmMap] are lists whose length is the count field. *)

From stdpp Require Import functions.
From S2P Require Import Prelude BootTypes BootInfoCheck Buddy.

Definition PMM_MAX_SPANS : Z := 128.
Definition PMM_MAX_USABLE_RANGES : Z := 256.
Definition PMM_MAX_RECLAIM_RANGES : Z := 16.

(** Models src/kernel/mm/pmm-internal.h:33-35, PmmSpan. *)
Record PmmSpan := mkSpan { sp_startPfn : Z; sp_endPfn : Z }.
(** Models src/kernel/mm/pmm-internal.h:37-39, PmmUsableRange. *)
Record PmmUsableRange := mkUsable { ur_startPfn : Z; ur_endPfn : Z }.
(** Models src/kernel/mm/pmm-internal.h:41-43, PmmReclaimRange. *)
Record PmmReclaimRange := mkReclaim { rr_physBase : Z; rr_length : Z }.

(** Models src/kernel/mm/pmm-internal.h:45-66, PmmMap. *)
Record PmmMap := mkPmmMap {
  pm_spans : list PmmSpan;
  pm_maxPfn : Z;
  pm_usable : list PmmUsableRange;
  pm_loaderReclaim : list PmmReclaimRange;
  pm_acpiReclaim : list PmmReclaimRange;
  pm_acpiReclaimDroppedPages : Z;
  pm_lowReservedPages : Z;
  pm_unmappedPages : Z;
  pm_typePages : Z -> Z
}.

Definition PMM_LOW_MEM_LIMIT_PFN : Z := 0x100000 >>! 12.
Definition PMM_HHDM_LIMIT_PFN : Z := BOOTINFO_HHDM_SIZE >>! 12.
Definition PMM_SPAN_ALIGN_PFN : Z := 1 <<! PMM_MAX_ORDER.

(** Models src/kernel/mm/pmm-map.c:18-29, pmmMapTypeIsManaged. *)
Definition pmmMapTypeIsManaged (type : Z) : bool :=
  (type =? BOOT_MEM_USABLE) || (type =? BOOT_MEM_LOADER_RECLAIM) || (type =? BOOT_MEM_KERNEL) ||
  (type =? BOOT_MEM_INITRD) || (type =? BOOT_MEM_ACPI_RECLAIM).

(** Models src/kernel/mm/pmm-map.c:31-46, pmmReclaimClip. *)
Definition pmmReclaimClip (r : PmmReclaimRange) : option (Z * Z) :=
  let base := rr_physBase r in
  let e := rr_physBase r +! rr_length r in
  let base := if base <? (PMM_LOW_MEM_LIMIT_PFN <<! 12) then PMM_LOW_MEM_LIMIT_PFN <<! 12 else base in
  let e := if (PMM_HHDM_LIMIT_PFN <<! 12) <? e then PMM_HHDM_LIMIT_PFN <<! 12 else e in
  if e <=? base then None else Some (base, e).

(** Models src/kernel/mm/pmm-map.c:48-50, alignDownPfn. *)
Definition alignDownPfn (pfn : Z) : Z := pfn .& not64 (PMM_SPAN_ALIGN_PFN - 1).
(** Models src/kernel/mm/pmm-map.c:51-53, alignUpPfn. *)
Definition alignUpPfn (pfn : Z) : Z := u64 (pfn + PMM_SPAN_ALIGN_PFN - 1) .& not64 (PMM_SPAN_ALIGN_PFN - 1).
(** Models src/kernel/mm/pmm-map.c:54-56, maxU64. *)
Definition maxU64 (a b : Z) : Z := if b <? a then a else b.
(** Models src/kernel/mm/pmm-map.c:57-59, minU64. *)
Definition minU64 (a b : Z) : Z := if a <? b then a else b.

(** The array updates of the scan. *)
Definition with_spans (sp : list PmmSpan) (m : PmmMap) : PmmMap :=
  mkPmmMap sp (pm_maxPfn m) (pm_usable m) (pm_loaderReclaim m) (pm_acpiReclaim m)
    (pm_acpiReclaimDroppedPages m) (pm_lowReservedPages m) (pm_unmappedPages m) (pm_typePages m).
Definition with_usable (us : list PmmUsableRange) (m : PmmMap) : PmmMap :=
  mkPmmMap (pm_spans m) (pm_maxPfn m) us (pm_loaderReclaim m) (pm_acpiReclaim m)
    (pm_acpiReclaimDroppedPages m) (pm_lowReservedPages m) (pm_unmappedPages m) (pm_typePages m).
Definition with_loader (rs : list PmmReclaimRange) (m : PmmMap) : PmmMap :=
  mkPmmMap (pm_spans m) (pm_maxPfn m) (pm_usable m) rs (pm_acpiReclaim m)
    (pm_acpiReclaimDroppedPages m) (pm_lowReservedPages m) (pm_unmappedPages m) (pm_typePages m).
Definition with_acpi (rs : list PmmReclaimRange) (dropped : Z) (m : PmmMap) : PmmMap :=
  mkPmmMap (pm_spans m) (pm_maxPfn m) (pm_usable m) (pm_loaderReclaim m) rs
    dropped (pm_lowReservedPages m) (pm_unmappedPages m) (pm_typePages m).
Definition with_low (low : Z) (m : PmmMap) : PmmMap :=
  mkPmmMap (pm_spans m) (pm_maxPfn m) (pm_usable m) (pm_loaderReclaim m) (pm_acpiReclaim m)
    (pm_acpiReclaimDroppedPages m) low (pm_unmappedPages m) (pm_typePages m).
Definition with_unmapped (un : Z) (m : PmmMap) : PmmMap :=
  mkPmmMap (pm_spans m) (pm_maxPfn m) (pm_usable m) (pm_loaderReclaim m) (pm_acpiReclaim m)
    (pm_acpiReclaimDroppedPages m) (pm_lowReservedPages m) un (pm_typePages m).
Definition with_types (ty : Z -> Z) (m : PmmMap) : PmmMap :=
  mkPmmMap (pm_spans m) (pm_maxPfn m) (pm_usable m) (pm_loaderReclaim m) (pm_acpiReclaim m)
    (pm_acpiReclaimDroppedPages m) (pm_lowReservedPages m) (pm_unmappedPages m) ty.
Definition with_maxPfn (mx : Z) (m : PmmMap) : PmmMap :=
  mkPmmMap (pm_spans m) mx (pm_usable m) (pm_loaderReclaim m) (pm_acpiReclaim m)
    (pm_acpiReclaimDroppedPages m) (pm_lowReservedPages m) (pm_unmappedPages m) (pm_typePages m).

(** Models src/kernel/mm/pmm-map.c:64-81, pmmAddSpan. *)
Definition pmmAddSpan (m : PmmMap) (startPfn endPfn : Z) : Status * PmmMap :=
  if endPfn <=? startPfn then (STATUS_OK, m)
  else
    let startPfn := alignDownPfn startPfn in
    let endPfn := alignUpPfn endPfn in
    let append :=
      if PMM_MAX_SPANS <=? zlen (pm_spans m) then (STATUS_ERR_INVALID, m)
      else (STATUS_OK, with_spans (pm_spans m ++ [mkSpan startPfn endPfn]) m) in
    match last (pm_spans m) with
    | Some s =>
        if startPfn <=? sp_endPfn s then
          (STATUS_OK, with_spans (removelast (pm_spans m) ++
                                  [mkSpan (sp_startPfn s) (maxU64 (sp_endPfn s) endPfn)]) m)
        else append
    | None => append
    end.

Definition emptyMap : PmmMap := mkPmmMap [] 0 [] [] [] 0 0 0 (fun _ => 0).

(** Early returns of the scan: the map written so far, and the error if any. *)
Definition scan_result := (Status * PmmMap)%type.
Definition then_ (r : scan_result) (k : PmmMap -> scan_result) : scan_result :=
  match r with
  | (STATUS_OK, m) => k m
  | (e, m) => (e, m)
  end.

(** Models src/kernel/mm/pmm-map.c:98-105, pmmMapScan (a LOADER_RECLAIM region). *)
Definition scan_loader (r : BootMemRegion) (m : PmmMap) : scan_result :=
  if mr_type r =? BOOT_MEM_LOADER_RECLAIM then
    if PMM_MAX_RECLAIM_RANGES <=? zlen (pm_loaderReclaim m) then (STATUS_ERR_INVALID, m)
    else (STATUS_OK, with_loader (pm_loaderReclaim m ++ [mkReclaim (mr_base r) (mr_length r)]) m)
  else (STATUS_OK, m).

(** Models src/kernel/mm/pmm-map.c:107-115, pmmMapScan (an ACPI_RECLAIM region). *)
Definition scan_acpi (r : BootMemRegion) (startPfn endPfn : Z) (m : PmmMap) : scan_result :=
  if mr_type r =? BOOT_MEM_ACPI_RECLAIM then
    if PMM_MAX_RECLAIM_RANGES <=? zlen (pm_acpiReclaim m) then
      (STATUS_OK, with_acpi (pm_acpiReclaim m) (pm_acpiReclaimDroppedPages m +! (endPfn -! startPfn)) m)
    else (STATUS_OK, with_acpi (pm_acpiReclaim m ++ [mkReclaim (mr_base r) (mr_length r)])
                       (pm_acpiReclaimDroppedPages m) m)
  else (STATUS_OK, m).

(** Models src/kernel/mm/pmm-map.c:117-136, pmmMapScan (a USABLE region). *)
Definition scan_usable (r : BootMemRegion) (startPfn endPfn : Z) (m : PmmMap) : scan_result :=
  if mr_type r =? BOOT_MEM_USABLE then
    let lowEnd := minU64 endPfn PMM_LOW_MEM_LIMIT_PFN in
    let m := if startPfn <? lowEnd then with_low (pm_lowReservedPages m +! (lowEnd -! startPfn)) m else m in
    let usableStart := maxU64 startPfn PMM_LOW_MEM_LIMIT_PFN in
    let usableEnd := minU64 endPfn PMM_HHDM_LIMIT_PFN in
    then_ (if usableStart <? usableEnd then
             if PMM_MAX_USABLE_RANGES <=? zlen (pm_usable m) then (STATUS_ERR_INVALID, m)
             else (STATUS_OK, with_usable (pm_usable m ++ [mkUsable usableStart usableEnd]) m)
           else (STATUS_OK, m))
      (fun m =>
         let highStart := maxU64 startPfn PMM_HHDM_LIMIT_PFN in
         (STATUS_OK, if highStart <? endPfn
                     then with_unmapped (pm_unmappedPages m +! (endPfn -! highStart)) m else m))
  else (STATUS_OK, m).

(** Models src/kernel/mm/pmm-map.c:138-146, pmmMapScan (a managed region). *)
Definition scan_managed (r : BootMemRegion) (startPfn endPfn : Z) (m : PmmMap) : scan_result :=
  if pmmMapTypeIsManaged (mr_type r) then
    let clipEnd := minU64 endPfn PMM_HHDM_LIMIT_PFN in
    if startPfn <? clipEnd then pmmAddSpan m startPfn clipEnd else (STATUS_OK, m)
  else (STATUS_OK, m).

(** Models src/kernel/mm/pmm-map.c:86-147, pmmMapScan (the loop body). *)
Definition scan_region (r : BootMemRegion) (m : PmmMap) : scan_result :=
  if negb ((mr_base r .& 0xFFF) =? 0) || negb ((mr_length r .& 0xFFF) =? 0) then (STATUS_ERR_INVALID, m)
  else if (mr_type r <? BOOT_MEM_USABLE) || (BOOT_MEM_FRAMEBUFFER <? mr_type r) then (STATUS_ERR_INVALID, m)
  else
    let startPfn := mr_base r >>! 12 in
    let endPfn := (mr_base r +! mr_length r) >>! 12 in
    let m := with_types (<[mr_type r := pm_typePages m (mr_type r) +! (endPfn -! startPfn)]> (pm_typePages m)) m in
    then_ (scan_loader r m) (fun m =>
    then_ (scan_acpi r startPfn endPfn m) (fun m =>
    then_ (scan_usable r startPfn endPfn m) (fun m =>
    scan_managed r startPfn endPfn m))).

Fixpoint scan_regions (rs : list BootMemRegion) (m : PmmMap) : scan_result :=
  match rs with
  | [] => (STATUS_OK, m)
  | r :: rs => then_ (scan_region r m) (scan_regions rs)
  end.

(** Models src/kernel/mm/pmm-map.c:83-151, pmmMapScan. *)
Definition pmmMapScan (regions : list BootMemRegion) : scan_result :=
  then_ (scan_regions regions emptyMap) (fun m =>
    (STATUS_OK, with_maxPfn (match last (pm_spans m) with Some s => sp_endPfn s | None => 0 end) m)).

(** ** Frames and regions *)

Definition rstart (r : BootMemRegion) : Z := mr_base r / 4096.
Definition rend (r : BootMemRegion) : Z := (mr_base r + mr_length r) / 4096.
Definition frame_in (r : BootMemRegion) (f : Z) : Prop := rstart r <= f < rend r.

Definition in_spans (sp : list PmmSpan) (f : Z) : Prop :=
  exists s, s ∈ sp /\ sp_startPfn s <= f < sp_endPfn s.
Definition in_usable (us : list PmmUsableRange) (f : Z) : Prop :=
  exists u, u ∈ us /\ ur_startPfn u <= f < ur_endPfn u.

Definition span_ok (s : PmmSpan) : Prop :=
  0 <= sp_startPfn s < sp_endPfn s /\ sp_endPfn s <= PMM_HHDM_LIMIT_PFN /\
  (1024 | sp_startPfn s) /\ (1024 | sp_endPfn s).
Definition before_span (s t : PmmSpan) : Prop := sp_endPfn s < sp_startPfn t.
Definition before_usable (u v : PmmUsableRange) : Prop := ur_endPfn u <= ur_startPfn v.

(** The frames of a managed region the direct map reaches. *)
Definition managed_frame (rs : list BootMemRegion) (f : Z) : Prop :=
  exists r, r ∈ rs /\ pmmMapTypeIsManaged (mr_type r) = true /\ frame_in r f /\ f < PMM_HHDM_LIMIT_PFN.
Definition usable_frame (rs : list BootMemRegion) (f : Z) : Prop :=
  exists r, r ∈ rs /\ mr_type r = BOOT_MEM_USABLE /\ frame_in r f /\
    PMM_LOW_MEM_LIMIT_PFN <= f < PMM_HHDM_LIMIT_PFN.

Definition type_total (rs : list BootMemRegion) (t : Z) : Z :=
  foldr (fun r acc => (if mr_type r =? t then rend r - rstart r else 0) + acc) 0 rs.
Definition usable_total (us : list PmmUsableRange) : Z :=
  foldr (fun u acc => ur_endPfn u - ur_startPfn u + acc) 0 us.

Lemma type_total_app rs rs' t : type_total (rs ++ rs') t = type_total rs t + type_total rs' t.
Proof. induction rs; simpl; lia. Qed.
Lemma usable_total_app us us' : usable_total (us ++ us') = usable_total us + usable_total us'.
Proof. induction us; simpl; lia. Qed.

(** The page view of a well-formed region. *)
Lemma region_pages r :
  region_wf r -> region_fields r ->
  0 <= rstart r < rend r /\ rend r < 2 ^ 52 /\
  mr_base r >>! 12 = rstart r /\ (mr_base r +! mr_length r) >>! 12 = rend r /\
  mr_base r = 4096 * rstart r /\ mr_base r + mr_length r = 4096 * rend r /\
  mr_base r .& 0xFFF = 0 /\ mr_length r .& 0xFFF = 0.
Proof.
  intros [Hl Hb Hla He Ht Hv] (Hbu & Hlu & _). unfold BOOTINFO_PAGE_SIZE in *.
  rewrite u64_small by (words; lia). rewrite !Z.shiftr_div_pow2 by lia.
  change 0xFFF with (2 ^ 12 - 1). rewrite !land_low by lia. change (2 ^ 12) with 4096.
  unfold rstart, rend. words. repeat split; try assumption; dlia.
Qed.

Lemma low_pow : PMM_LOW_MEM_LIMIT_PFN = 256. Proof. reflexivity. Qed.
Lemma hhdm_pow : PMM_HHDM_LIMIT_PFN = 2 ^ 34. Proof. reflexivity. Qed.
Lemma span_align_pow : PMM_SPAN_ALIGN_PFN = 2 ^ 10. Proof. reflexivity. Qed.

Lemma alignDownPfn_spec p : is_u64 p -> alignDownPfn p = 1024 * (p / 1024).
Proof.
  intros Hp. unfold alignDownPfn. rewrite span_align_pow, land_high64 by (assumption || lia).
  change (2 ^ 10) with 1024. clear Hp. dlia.
Qed.
Lemma alignUpPfn_spec p : 0 <= p <= 2 ^ 52 -> alignUpPfn p = 1024 * ((p + 1023) / 1024).
Proof.
  intros Hp. unfold alignUpPfn. rewrite span_align_pow.
  rewrite (u64_small (p + 2 ^ 10 - 1)), land_high64 by (words; lia).
  replace (p + 2 ^ 10 - 1) with (p + 1023) by lia. change (2 ^ 10) with 1024. clear Hp. dlia.
Qed.
Lemma maxU64_max a b : maxU64 a b = Z.max a b.
Proof. unfold maxU64. destruct (Z.ltb_spec b a); lia. Qed.
Lemma minU64_min a b : minU64 a b = Z.min a b.
Proof. unfold minU64. destruct (Z.ltb_spec a b); lia. Qed.

(** ** Spans *)

(** The frames of a widened range are the ones whose chunk it meets. *)
Lemma widened_chunks s e f :
  s < e -> 1024 * (s / 1024) <= f < 1024 * ((e + 1023) / 1024) <->
           exists f', s <= f' < e /\ chunk f' = chunk f.
Proof.
  intros Hse. unfold chunk, PMM_MAX_ORDER. change (2 ^ 10) with 1024. split.
  - intros Hf. destruct (Z.le_gt_cases s (1024 * (f / 1024))).
    + exists (1024 * (f / 1024)). split; dlia.
    + exists s. split; [lia|]. dlia.
  - intros (f' & Hf' & Hc). dlia.
Qed.

Definition spans_ok (sp : list PmmSpan) : Prop := StronglySorted before_span sp /\ Forall span_ok sp.

Lemma StronglySorted_snoc {A} (R : A -> A -> Prop) l x :
  StronglySorted R (l ++ [x]) <-> StronglySorted R l /\ Forall (fun y => R y x) l.
Proof.
  induction l as [|a l IH]; simpl.
  - split; [split; constructor|intros _; constructor; constructor].
  - split.
    + intros H. apply StronglySorted_inv in H as [H Ha]. apply IH in H as [H1 H2].
      apply Forall_app in Ha as [Ha Hx]. apply Forall_cons in Hx as [Hx _].
      split; constructor; assumption.
    + intros [H Hf]. apply StronglySorted_inv in H as [H Ha]. apply Forall_cons in Hf as [Hax Hf].
      constructor; [apply IH; auto|]. apply Forall_app. split; [assumption|]. constructor; [assumption|constructor].
Qed.

Lemma in_spans_app sp sp' f : in_spans (sp ++ sp') f <-> in_spans sp f \/ in_spans sp' f.
Proof. unfold in_spans. setoid_rewrite elem_of_app. firstorder. Qed.
Lemma in_spans_one s f : in_spans [s] f <-> sp_startPfn s <= f < sp_endPfn s.
Proof. unfold in_spans. setoid_rewrite list_elem_of_singleton. firstorder congruence. Qed.

Lemma pmmAddSpan_spec m s e m' :
  spans_ok (pm_spans m) -> Forall (fun x => sp_startPfn x <= s) (pm_spans m) ->
  0 <= s < e -> e <= PMM_HHDM_LIMIT_PFN ->
  pmmAddSpan m s e = (STATUS_OK, m') ->
  spans_ok (pm_spans m') /\ m' = with_spans (pm_spans m') m /\
  Forall (fun x => sp_startPfn x <= s) (pm_spans m') /\
  (forall f, in_spans (pm_spans m') f <->
     in_spans (pm_spans m) f \/ exists f', s <= f' < e /\ chunk f' = chunk f) /\
  zlen (pm_spans m') <= 1 + zlen (pm_spans m).
Proof.
  intros [Hso Hok] Hst Hse He. unfold pmmAddSpan. rewrite hhdm_pow in *.
  destruct (Z.leb_spec e s); [lia|].
  rewrite alignDownPfn_spec, alignUpPfn_spec by (words; lia).
  set (S := 1024 * (s / 1024)). set (E := 1024 * ((e + 1023) / 1024)).
  assert (HS : 0 <= S <= s /\ (1024 | S)) by (unfold S; split; [dlia|exists (s / 1024); lia]).
  assert (HE : e <= E <= 2 ^ 34 /\ (1024 | E)) by (unfold E; split; [dlia|exists ((e + 1023) / 1024); lia]).
  assert (Hw : forall f, S <= f < E <-> exists f', s <= f' < e /\ chunk f' = chunk f)
    by (intros f; apply widened_chunks; lia).
  assert (Happ : Forall (fun t => sp_endPfn t < S) (pm_spans m) ->
    spans_ok (pm_spans m ++ [mkSpan S E]) /\ Forall (fun x => sp_startPfn x <= s) (pm_spans m ++ [mkSpan S E]) /\
    (forall f, in_spans (pm_spans m ++ [mkSpan S E]) f <->
       in_spans (pm_spans m) f \/ exists f', s <= f' < e /\ chunk f' = chunk f)).
  { intros Hlt. split; [split|split].
    - apply StronglySorted_snoc. split; assumption.
    - apply Forall_app. split; [assumption|]. constructor; [|constructor].
      unfold span_ok. simpl. rewrite hhdm_pow. split; [lia|]. split; [lia|]. tauto.
    - apply Forall_app. split; [assumption|]. constructor; [simpl; lia|constructor].
    - intros f. rewrite in_spans_app, in_spans_one, <- Hw. reflexivity. }
  assert (Hnil : last (pm_spans m) = None -> pm_spans m = []).
  { destruct (list_snoc_cases (pm_spans m)) as [->|(k & x & ->)]; [reflexivity|].
    rewrite last_snoc. discriminate. }
  destruct (last (pm_spans m)) as [t|] eqn:El.
  - assert (Em : pm_spans m = removelast (pm_spans m) ++ [t]).
    { apply last_Some in El as [k Ek]. rewrite Ek, removelast_last. reflexivity. }
    remember (removelast (pm_spans m)) as k eqn:Hk. clear Hk. rewrite Em in Hso, Hok, Hst.
    apply StronglySorted_snoc in Hso as [Hso Hlt]. apply Forall_app in Hok as [Hok Ht].
    apply Forall_app in Hst as [Hst Hts]. apply Forall_cons in Ht as [Ht _]. apply Forall_cons in Hts as [Hts _].
    unfold span_ok in Ht. rewrite hhdm_pow in Ht.
    assert (HtS : sp_startPfn t <= S) by (unfold S; destruct Ht as (_ & _ & [c Hc] & _); dlia).
    destruct (Z.leb_spec S (sp_endPfn t)) as [Hm|Hm].
    + intros [= <-]. simpl. rewrite maxU64_max. split; [split|split; [|split; [|split]]].
      * apply StronglySorted_snoc. split; [assumption|]. eapply Forall_impl; [exact Hlt|].
        intros x Hx. exact Hx.
      * apply Forall_app. split; [assumption|]. constructor; [|constructor].
        unfold span_ok. simpl. rewrite hhdm_pow.
        assert ((1024 | Z.max (sp_endPfn t) E)) by (destruct (Z.max_spec (sp_endPfn t) E) as [[_ ->]|[_ ->]]; tauto).
        split; [lia|]. split; [lia|]. tauto.
      * reflexivity.
      * apply Forall_app. split; [assumption|]. constructor; [simpl; lia|constructor].
      * intros f. rewrite Em. rewrite !in_spans_app, !in_spans_one, <- Hw. simpl.
        assert (sp_startPfn t <= f < Z.max (sp_endPfn t) E <->
                (sp_startPfn t <= f < sp_endPfn t) \/ S <= f < E) by lia. tauto.
      * rewrite Em. rewrite !zlen_app, !zlen_cons. lia.
    + destruct (_ <=? _) eqn:Ec; [discriminate|]. intros [= <-]. simpl.
      destruct Happ as (H1 & H2 & H3).
      { rewrite Em. apply Forall_app. split; [|constructor; [exact Hm|constructor]].
        eapply Forall_impl; [exact Hlt|]. unfold before_span. intros x Hx. simpl in Hx. lia. }
      rewrite zlen_app. change (zlen [_]) with 1. repeat (split; [assumption||reflexivity|]). lia.
  - rewrite (Hnil eq_refl) in Happ |- *. destruct (_ <=? _) eqn:Ec; [discriminate|]. intros [= <-]. simpl.
    destruct Happ as (H1 & H2 & H3); [constructor|].
    repeat (split; [assumption||reflexivity|]). reflexivity.
Qed.

(** ** The scan as a whole *)

Definition reclaim_of (r : BootMemRegion) : PmmReclaimRange := mkReclaim (mr_base r) (mr_length r).
Definition of_type (t : Z) (rs : list BootMemRegion) : list BootMemRegion := filter (fun r => mr_type r = t) rs.

Lemma of_type_snoc t rs r :
  of_type t (rs ++ [r]) = of_type t rs ++ (if mr_type r =? t then [r] else []).
Proof.
  unfold of_type. rewrite filter_app, filter_cons, filter_nil.
  destruct (Z.eqb_spec (mr_type r) t); case_decide; congruence.
Qed.

(** What the map says about the regions scanned so far, all of them ending at
    or below the frame [b]. *)
Record scan_inv (rs : list BootMemRegion) (b : Z) (m : PmmMap) : Prop := {
  si_spans : spans_ok (pm_spans m);
  si_starts : Forall (fun s => sp_startPfn s <= b) (pm_spans m);
  si_in_spans : forall f, in_spans (pm_spans m) f <->
    exists f', managed_frame rs f' /\ chunk f' = chunk f;
  si_usable_sorted : StronglySorted before_usable (pm_usable m);
  si_usable_ok : Forall (fun u => PMM_LOW_MEM_LIMIT_PFN <= ur_startPfn u < ur_endPfn u /\
                           ur_endPfn u <= PMM_HHDM_LIMIT_PFN /\ ur_endPfn u <= b) (pm_usable m);
  si_in_usable : forall f, in_usable (pm_usable m) f <-> usable_frame rs f;
  si_types : forall t, pm_typePages m t = type_total rs t /\ 0 <= type_total rs t <= b;
  si_account : 0 <= pm_lowReservedPages m /\ 0 <= usable_total (pm_usable m) /\ 0 <= pm_unmappedPages m /\
    pm_lowReservedPages m + usable_total (pm_usable m) + pm_unmappedPages m = type_total rs BOOT_MEM_USABLE;
  si_loader : pm_loaderReclaim m = reclaim_of <$> of_type BOOT_MEM_LOADER_RECLAIM rs;
  si_acpi : pm_acpiReclaim m = take 16 (reclaim_of <$> of_type BOOT_MEM_ACPI_RECLAIM rs);
  si_lengths : zlen (pm_usable m) <= zlen (of_type BOOT_MEM_USABLE rs) /\
    zlen (pm_spans m) <= zlen (filter (fun r => pmmMapTypeIsManaged (mr_type r) = true) rs)
}.

(** The record updates of the loop body, one field group at a time. *)
Lemma scan_loader_ok r m m' :
  scan_loader r m = (STATUS_OK, m') ->
  m' = with_loader (pm_loaderReclaim m ++
         (reclaim_of <$> (if mr_type r =? BOOT_MEM_LOADER_RECLAIM then [r] else []))) m.
Proof.
  unfold scan_loader. destruct (mr_type r =? BOOT_MEM_LOADER_RECLAIM) eqn:E; [|].
  - destruct (_ <=? _); [discriminate|]. intros [= <-]. reflexivity.
  - intros [= <-]. simpl. rewrite app_nil_r. destruct m; reflexivity.
Qed.

Lemma take_snoc_acpi (l : list PmmReclaimRange) x :
  zlen (take 16 l) < PMM_MAX_RECLAIM_RANGES -> take 16 l ++ [x] = take 16 (l ++ [x]).
Proof.
  unfold zlen, PMM_MAX_RECLAIM_RANGES. rewrite length_take. intros H.
  rewrite !take_ge by (rewrite ?length_app; simpl; lia). reflexivity.
Qed.

Lemma scan_acpi_ok r s e m m' l :
  scan_acpi r s e m = (STATUS_OK, m') -> pm_acpiReclaim m = take 16 (reclaim_of <$> l) ->
  exists d, m' = with_acpi (take 16 (reclaim_of <$> (l ++ (if mr_type r =? BOOT_MEM_ACPI_RECLAIM then [r] else [])))) d m.
Proof.
  unfold scan_acpi. intros H Hl. destruct (mr_type r =? BOOT_MEM_ACPI_RECLAIM) eqn:E.
  - rewrite fmap_app. simpl. destruct (Z.leb_spec PMM_MAX_RECLAIM_RANGES (zlen (pm_acpiReclaim m))) as [Hge|Hlt].
    + injection H as <-. eexists. rewrite take_app_le; [rewrite <- Hl; reflexivity|].
      rewrite Hl in Hge. unfold zlen, PMM_MAX_RECLAIM_RANGES in Hge. rewrite length_take in Hge. lia.
    + injection H as <-. eexists. rewrite Hl in Hlt |- *. rewrite take_snoc_acpi by assumption. reflexivity.
  - injection H as <-. eexists (pm_acpiReclaimDroppedPages m). rewrite app_nil_r, <- Hl. destruct m; reflexivity.
Qed.

(** The three parts of a USABLE region. *)
Definition low_part (s e : Z) : Z := Z.max 0 (Z.min e 256 - s).
Definition mid_part (s e : Z) : list PmmUsableRange :=
  if Z.max s 256 <? Z.min e (2 ^ 34) then [mkUsable (Z.max s 256) (Z.min e (2 ^ 34))] else [].
Definition high_part (s e : Z) : Z := Z.max 0 (e - Z.max s (2 ^ 34)).

Lemma parts_total s e :
  0 <= s < e -> low_part s e + usable_total (mid_part s e) + high_part s e = e - s.
Proof.
  intros H. unfold low_part, mid_part, high_part.
  destruct (Z.ltb_spec (Z.max s 256) (Z.min e (2 ^ 34))); simpl; lia.
Qed.

Lemma scan_usable_ok r s e m m' :
  0 <= s < e -> e < 2 ^ 52 ->
  0 <= pm_lowReservedPages m < 2 ^ 52 -> 0 <= pm_unmappedPages m < 2 ^ 52 ->
  scan_usable r s e m = (STATUS_OK, m') ->
  m' = (if mr_type r =? BOOT_MEM_USABLE
        then with_unmapped (pm_unmappedPages m + high_part s e)
               (with_usable (pm_usable m ++ mid_part s e) (with_low (pm_lowReservedPages m + low_part s e) m))
        else m).
Proof.
  intros Hse He Hl Hu. unfold scan_usable. destruct (mr_type r =? BOOT_MEM_USABLE); [|intros [= <-]; reflexivity].
  rewrite !minU64_min, !maxU64_max, low_pow, hhdm_pow. unfold low_part, mid_part, high_part.
  destruct m as [sp mx us lo ac dr low un ty]. simpl in *.
  assert (Elow : (if s <? Z.min e 256 then with_low (low +! (Z.min e 256 -! s)) (mkPmmMap sp mx us lo ac dr low un ty)
                  else mkPmmMap sp mx us lo ac dr low un ty) =
                 mkPmmMap sp mx us lo ac dr (low + Z.max 0 (Z.min e 256 - s)) un ty).
  { destruct (Z.ltb_spec s (Z.min e 256)).
    - rewrite (u64_small (Z.min e 256 - s)), (u64_small (low + _)) by (words; lia).
      unfold with_low. simpl. f_equal. lia.
    - f_equal. lia. }
  rewrite Elow.
  assert (Ehigh : forall us', (if Z.max s (2 ^ 34) <? e
      then with_unmapped (un +! (e -! Z.max s (2 ^ 34))) (mkPmmMap sp mx us' lo ac dr (low + Z.max 0 (Z.min e 256 - s)) un ty)
      else mkPmmMap sp mx us' lo ac dr (low + Z.max 0 (Z.min e 256 - s)) un ty) =
      mkPmmMap sp mx us' lo ac dr (low + Z.max 0 (Z.min e 256 - s)) (un + Z.max 0 (e - Z.max s (2 ^ 34))) ty).
  { intros us'. destruct (Z.ltb_spec (Z.max s (2 ^ 34)) e).
    - rewrite (u64_small (e - _)), (u64_small (un + _)) by (words; lia).
      unfold with_unmapped. simpl. f_equal. lia.
    - f_equal. lia. }
  destruct (Z.max s 256 <? Z.min e (2 ^ 34)); simpl.
  - destruct (PMM_MAX_USABLE_RANGES <=? zlen us); [discriminate|]. unfold then_, with_usable. simpl.
    rewrite Ehigh. intros [= <-]. reflexivity.
  - rewrite Ehigh. intros [= <-]. unfold with_unmapped, with_usable, with_low. simpl. rewrite app_nil_r. reflexivity.
Qed.

Lemma managed_snoc rs r f :
  managed_frame (rs ++ [r]) f <->
  managed_frame rs f \/ (pmmMapTypeIsManaged (mr_type r) = true /\ frame_in r f /\ f < PMM_HHDM_LIMIT_PFN).
Proof.
  unfold managed_frame. setoid_rewrite elem_of_app. setoid_rewrite list_elem_of_singleton.
  split; [intros (x & [?| ->] & ?); eauto|]. intros [(x & ? & ?)|?]; eauto.
Qed.

Lemma usable_snoc rs r f :
  usable_frame (rs ++ [r]) f <->
  usable_frame rs f \/ (mr_type r = BOOT_MEM_USABLE /\ frame_in r f /\ PMM_LOW_MEM_LIMIT_PFN <= f < PMM_HHDM_LIMIT_PFN).
Proof.
  unfold usable_frame. setoid_rewrite elem_of_app. setoid_rewrite list_elem_of_singleton.
  split; [intros (x & [?| ->] & ?); eauto|]. intros [(x & ? & ?)|?]; eauto.
Qed.

Lemma in_usable_app us us' f : in_usable (us ++ us') f <-> in_usable us f \/ in_usable us' f.
Proof. unfold in_usable. setoid_rewrite elem_of_app. firstorder. Qed.

Lemma in_usable_mid s e f : in_usable (mid_part s e) f <-> s <= f < e /\ 256 <= f < 2 ^ 34.
Proof.
  unfold in_usable, mid_part. destruct (Z.ltb_spec (Z.max s 256) (Z.min e (2 ^ 34))).
  - setoid_rewrite list_elem_of_singleton. split; [intros (u & -> & ?); simpl in *; lia|].
    intros ?. eexists. split; [reflexivity|]. simpl. lia.
  - split; [intros (u & Hu & _); inversion Hu|lia].
Qed.

Lemma scan_managed_ok rs b r m0 m m' :
  scan_inv rs b m0 -> pm_spans m = pm_spans m0 -> region_wf r -> region_fields r -> b <= rstart r ->
  scan_managed r (rstart r) (rend r) m = (STATUS_OK, m') ->
  m' = with_spans (pm_spans m') m /\ spans_ok (pm_spans m') /\
  Forall (fun s => sp_startPfn s <= rend r) (pm_spans m') /\
  (forall f, in_spans (pm_spans m') f <-> exists f', managed_frame (rs ++ [r]) f' /\ chunk f' = chunk f) /\
  zlen (pm_spans m') <= zlen (filter (fun r => pmmMapTypeIsManaged (mr_type r) = true) (rs ++ [r])).
Proof.
  intros Hi E0 Hw Hf Hb. destruct (region_pages r Hw Hf) as (Hp & _).
  destruct Hi as [Hsp Hst Hin _ _ _ _ _ _ _ [_ Hlen]]. rewrite <- E0 in Hsp, Hst, Hin, Hlen.
  assert (Hst' : forall x, b <= x -> Forall (fun s => sp_startPfn s <= x) (pm_spans m))
    by (intros x Hx; eapply Forall_impl; [exact Hst|]; simpl; lia).
  assert (Hself : m = with_spans (pm_spans m) m) by (destruct m; reflexivity).
  rewrite filter_app, zlen_app.
  pose proof (zlen_nonneg (filter (fun r => pmmMapTypeIsManaged (mr_type r) = true) [r])) as Hnn.
  unfold scan_managed. rewrite minU64_min, hhdm_pow.
  assert (Hskip : (pmmMapTypeIsManaged (mr_type r) = false \/ 2 ^ 34 <= rstart r) ->
    forall f, in_spans (pm_spans m) f <-> exists f', managed_frame (rs ++ [r]) f' /\ chunk f' = chunk f).
  { intros Hno f. rewrite Hin. setoid_rewrite managed_snoc. rewrite hhdm_pow.
    split; [intros (f' & ? & ?); eauto|]. intros (f' & [?|(? & ? & ?)] & ?); [eauto|].
    exfalso. unfold frame_in in *. destruct Hno; [congruence|lia]. }
  destruct (pmmMapTypeIsManaged (mr_type r)) eqn:Em.
  - destruct (Z.ltb_spec (rstart r) (Z.min (rend r) (2 ^ 34))) as [Hlt|Hge].
    + intros Hadd. destruct (pmmAddSpan_spec m (rstart r) (Z.min (rend r) (2 ^ 34)) m' Hsp (Hst' _ Hb) ltac:(lia) ltac:(rewrite hhdm_pow; lia) Hadd)
        as (H1 & H2 & H3 & H4 & H5).
      split; [assumption|]. split; [assumption|]. split; [|split].
      * eapply Forall_impl; [exact H3|]. simpl. lia.
      * intros f. rewrite H4, Hin. setoid_rewrite managed_snoc. rewrite hhdm_pow. unfold frame_in. split.
        -- intros [(f' & ? & ?)|(f' & ? & ?)]; exists f'; split; auto. right. split; [assumption|lia].
        -- intros (f' & [?|(? & ? & ?)] & ?); [left; eauto|right]. exists f'. split; [lia|assumption].
      * rewrite filter_cons_True, filter_nil by assumption. change (zlen [_]) with 1. lia.
    + intros [= <-]. split; [exact Hself|]. split; [exact Hsp|]. split; [apply Hst'; lia|].
      split; [apply Hskip; right; lia|]. lia.
  - intros [= <-]. split; [exact Hself|]. split; [exact Hsp|]. split; [apply Hst'; lia|].
    split; [apply Hskip; left; reflexivity|]. lia.
Qed.

(** The invariant after one more region, from the fields of the new map. *)
Lemma scan_inv_intro rs b r m m' :
  let s := rstart r in let e := rend r in let usable := mr_type r =? BOOT_MEM_USABLE in
  scan_inv rs b m -> 0 <= b -> region_wf r -> region_fields r -> b <= s ->
  spans_ok (pm_spans m') -> Forall (fun x => sp_startPfn x <= e) (pm_spans m') ->
  (forall f, in_spans (pm_spans m') f <-> exists f', managed_frame (rs ++ [r]) f' /\ chunk f' = chunk f) ->
  zlen (pm_spans m') <= zlen (filter (fun r => pmmMapTypeIsManaged (mr_type r) = true) (rs ++ [r])) ->
  pm_typePages m' = <[mr_type r := pm_typePages m (mr_type r) + (e - s)]> (pm_typePages m) ->
  pm_usable m' = pm_usable m ++ (if usable then mid_part s e else []) ->
  pm_lowReservedPages m' = pm_lowReservedPages m + (if usable then low_part s e else 0) ->
  pm_unmappedPages m' = pm_unmappedPages m + (if usable then high_part s e else 0) ->
  pm_loaderReclaim m' = reclaim_of <$> of_type BOOT_MEM_LOADER_RECLAIM (rs ++ [r]) ->
  pm_acpiReclaim m' = take 16 (reclaim_of <$> of_type BOOT_MEM_ACPI_RECLAIM (rs ++ [r])) ->
  scan_inv (rs ++ [r]) e m'.
Proof.
  intros s e usable Hi Hb0 Hw Hf Hb M1 M2 M3 M4 F1 F4 F5 F6 F7 F8.
  destruct (region_pages r Hw Hf) as (Hp & Hp52 & _). fold s e in Hp, Hp52.
  destruct (si_account _ _ _ Hi) as (A1 & A2 & A3 & A4).
  assert (Hmid : usable_total (mid_part s e) + low_part s e + high_part s e = e - s /\
    0 <= low_part s e /\ 0 <= high_part s e /\ 0 <= usable_total (mid_part s e)).
  { pose proof (parts_total s e ltac:(lia)). unfold low_part, high_part in *.
    unfold mid_part in *. destruct (Z.ltb_spec (Z.max s 256) (Z.min e (2 ^ 34))); simpl in *; lia. }
  split; try assumption; rewrite ?F4.
  - unfold usable. destruct (mr_type r =? BOOT_MEM_USABLE); [|rewrite app_nil_r; apply (si_usable_sorted _ _ _ Hi)].
    unfold mid_part. destruct (_ <? _); [|rewrite app_nil_r; apply (si_usable_sorted _ _ _ Hi)].
    apply StronglySorted_snoc. split; [apply (si_usable_sorted _ _ _ Hi)|].
    eapply Forall_impl; [apply (si_usable_ok _ _ _ Hi)|]. unfold before_usable. simpl. intros u Hu. lia.
  - apply Forall_app. split.
    + eapply Forall_impl; [apply (si_usable_ok _ _ _ Hi)|]. simpl. lia.
    + destruct usable; [|constructor]. unfold mid_part. rewrite low_pow, hhdm_pow.
      destruct (Z.ltb_spec (Z.max s 256) (Z.min e (2 ^ 34))); [|constructor].
      constructor; [simpl; lia|constructor].
  - intros f. rewrite usable_snoc, in_usable_app, (si_in_usable _ _ _ Hi), low_pow, hhdm_pow.
    unfold usable, frame_in. fold s e. destruct (Z.eqb_spec (mr_type r) BOOT_MEM_USABLE) as [Et|Et].
    + rewrite in_usable_mid. tauto.
    + split; [intros [?|(u & Hu & _)]; [auto|inversion Hu]|tauto].
  - intros t. rewrite F1, type_total_app. simpl. fold s e. destruct (si_types _ _ _ Hi t) as [E B].
    destruct (Z.eqb_spec (mr_type r) t) as [<-|Hne].
    + rewrite fn_lookup_insert, E. lia.
    + rewrite fn_lookup_insert_ne, E by assumption. lia.
  - rewrite F5, F6, usable_total_app, type_total_app, <- A4. simpl. fold s e usable.
    destruct usable; simpl; lia.
  - split; [|assumption]. rewrite of_type_snoc, !zlen_app. fold usable.
    pose proof (proj1 (si_lengths _ _ _ Hi)). unfold zlen in *.
    destruct usable; [|simpl length; lia]. unfold mid_part. destruct (_ <? _); simpl length; lia.
Qed.

Lemma scan_region_step rs b r m m' :
  scan_inv rs b m -> 0 <= b -> region_wf r -> region_fields r -> b <= rstart r ->
  scan_region r m = (STATUS_OK, m') -> scan_inv (rs ++ [r]) (rend r) m'.
Proof.
  intros Hi Hb0 Hw Hf Hb. destruct (region_pages r Hw Hf) as (Hp & Hp52 & E1 & E2 & _ & _ & E3 & E4).
  unfold scan_region. rewrite E1, E2, E3, E4. simpl negb. cbv iota.
  destruct ((mr_type r <? BOOT_MEM_USABLE) || (BOOT_MEM_FRAMEBUFFER <? mr_type r)); [discriminate|].
  destruct (si_types _ _ _ Hi (mr_type r)) as [Ety Hty].
  rewrite (u64_small (rend r - rstart r)), (u64_small (_ + (rend r - rstart r))) by (words; lia).
  set (m0 := with_types _ m). simpl orb. cbv iota.
  destruct (scan_loader r m0) as [st1 m1] eqn:S1. destruct st1; try discriminate. simpl then_.
  apply scan_loader_ok in S1.
  destruct (scan_acpi r (rstart r) (rend r) m1) as [st2 m2] eqn:S2. destruct st2; try discriminate. simpl then_.
  eapply (scan_acpi_ok _ _ _ _ _ (of_type BOOT_MEM_ACPI_RECLAIM rs)) in S2 as [d S2];
    [|rewrite S1; exact (si_acpi _ _ _ Hi)].
  rewrite <- of_type_snoc in S2.
  destruct (scan_usable r (rstart r) (rend r) m2) as [st3 m3] eqn:S3. destruct st3; try discriminate. simpl then_.
  destruct (si_account _ _ _ Hi) as (A1 & A2 & A3 & A4).
  destruct (si_types _ _ _ Hi BOOT_MEM_USABLE) as [_ HtU].
  apply scan_usable_ok in S3; [|lia|lia|rewrite S2, S1; simpl; lia|rewrite S2, S1; simpl; lia].
  intros S4. eapply (scan_managed_ok rs b r m m3) in S4 as (Em' & M1 & M2 & M3 & M4);
    [|eassumption|rewrite S3, S2, S1; destruct (mr_type r =? BOOT_MEM_USABLE); reflexivity|assumption..].
  assert (F : pm_typePages m' = <[mr_type r := pm_typePages m (mr_type r) + (rend r - rstart r)]> (pm_typePages m) /\
    pm_loaderReclaim m' = pm_loaderReclaim m1 /\ pm_acpiReclaim m' = pm_acpiReclaim m2 /\
    (pm_usable m' = pm_usable m ++ (if mr_type r =? BOOT_MEM_USABLE then mid_part (rstart r) (rend r) else [])) /\
    pm_lowReservedPages m' = pm_lowReservedPages m + (if mr_type r =? BOOT_MEM_USABLE then low_part (rstart r) (rend r) else 0) /\
    pm_unmappedPages m' = pm_unmappedPages m + (if mr_type r =? BOOT_MEM_USABLE then high_part (rstart r) (rend r) else 0)).
  { rewrite Em', S3, S2, S1. destruct (mr_type r =? BOOT_MEM_USABLE); simpl; rewrite ?app_nil_r, ?Z.add_0_r; repeat split. }
  destruct F as (F1 & F2 & F3 & F4 & F5 & F6).
  apply (scan_inv_intro rs b r m m'); try assumption.
  - rewrite F2, S1. simpl. rewrite (si_loader _ _ _ Hi), of_type_snoc, fmap_app. reflexivity.
  - rewrite F3, S2. reflexivity.
Qed.

(** A map the kernel accepted: see [bootMemMapCheck]. *)
Definition map_ok (rs : list BootMemRegion) : Prop :=
  Forall region_wf rs /\ Forall region_fields rs /\ StronglySorted precedes rs.

Lemma scan_inv_empty : scan_inv [] 0 emptyMap.
Proof.
  split; simpl; try reflexivity; try lia; try apply Forall_nil_2; try apply SSorted_nil.
  - split; [apply SSorted_nil|apply Forall_nil_2].
  - intros f. split; [intros (s & Hs & _); inversion Hs|intros (f' & (r & Hr & _) & _); inversion Hr].
  - intros f. split; [intros (s & Hs & _); inversion Hs|intros (r & Hr & _); inversion Hr].
  - split; reflexivity.
Qed.

Lemma map_ok_cons r rs : map_ok (r :: rs) ->
  region_wf r /\ region_fields r /\ map_ok rs /\ Forall (fun x => rend r <= rstart x) rs.
Proof.
  intros (Hw & Hf & Hs). apply Forall_cons in Hw as [Hr Hw]. apply Forall_cons in Hf as [Hfr Hf].
  apply StronglySorted_inv in Hs as [Hs Hp]. repeat (split; [assumption|]). split; [repeat split; assumption|].
  eapply Forall_impl; [exact Hp|]. intros x Hx. unfold precedes, rend, rstart in *.
  apply Z.div_le_mono; lia.
Qed.

Lemma scan_regions_inv rs : forall done b m m',
  scan_inv done b m -> 0 <= b -> map_ok rs -> Forall (fun x => b <= rstart x) rs ->
  scan_regions rs m = (STATUS_OK, m') -> exists b', scan_inv (done ++ rs) b' m'.
Proof.
  induction rs as [|r rs IH]; intros done b m m' Hi Hb Hok Hge.
  - intros [= <-]. exists b. rewrite app_nil_r. assumption.
  - apply map_ok_cons in Hok as (Hw & Hf & Hok & Hlt). apply Forall_cons in Hge as [Hbr Hge].
    simpl. destruct (scan_region r m) as [st m1] eqn:S. destruct st; try discriminate. simpl then_.
    intros Hrest. replace (done ++ r :: rs) with ((done ++ [r]) ++ rs) by (rewrite <- app_assoc; reflexivity).
    pose proof (region_pages r Hw Hf) as (Hp & _).
    eapply IH; [eapply scan_region_step; eassumption|lia|assumption|assumption|exact Hrest].
Qed.

Lemma pmmMapScan_inv rs m :
  map_ok rs -> pmmMapScan rs = (STATUS_OK, m) ->
  exists b m0, scan_inv rs b m0 /\
    m = with_maxPfn (match last (pm_spans m0) with Some s => sp_endPfn s | None => 0 end) m0.
Proof.
  intros Hok. unfold pmmMapScan. destruct (scan_regions rs emptyMap) as [st m0] eqn:S.
  destruct st; try discriminate. simpl then_. intros [= <-].
  destruct (scan_regions_inv rs [] 0 emptyMap m0 scan_inv_empty ltac:(lia) Hok) as [b Hi]; [|exact S|].
  - destruct Hok as (Hw & Hf & _). apply Forall_forall. intros x Hx.
    rewrite Forall_forall in Hw, Hf. pose proof (region_pages x (Hw x Hx) (Hf x Hx)). lia.
  - exists b, m0. auto.
Qed.

(** C30: On a map the kernel's check accepts, a successful scan is exact.  The
    spans are sorted, separated, aligned to the largest block and cover exactly
    the chunks that hold a managed frame the direct map reaches; the usable
    ranges are sorted, disjoint and hold exactly the USABLE frames from 1 MiB up
    to the direct map's end; the page totals are the map's; and the USABLE pages
    are accounted for: withheld below 1 MiB, usable, or out of reach. *)
Theorem pmmMapScan_exact rs m :
  map_ok rs -> pmmMapScan rs = (STATUS_OK, m) ->
  spans_ok (pm_spans m) /\
  (forall f, in_spans (pm_spans m) f <-> exists f', managed_frame rs f' /\ chunk f' = chunk f) /\
  StronglySorted before_usable (pm_usable m) /\
  (forall f, in_usable (pm_usable m) f <-> usable_frame rs f) /\
  (forall t, pm_typePages m t = type_total rs t) /\
  pm_lowReservedPages m + usable_total (pm_usable m) + pm_unmappedPages m = pm_typePages m BOOT_MEM_USABLE /\
  pm_loaderReclaim m = reclaim_of <$> of_type BOOT_MEM_LOADER_RECLAIM rs /\
  pm_acpiReclaim m = take 16 (reclaim_of <$> of_type BOOT_MEM_ACPI_RECLAIM rs) /\
  pm_maxPfn m = match last (pm_spans m) with Some s => sp_endPfn s | None => 0 end.
Proof.
  intros Hok Hs. destruct (pmmMapScan_inv rs m Hok Hs) as (b & m0 & Hi & ->). simpl.
  split; [apply (si_spans _ _ _ Hi)|]. split; [apply (si_in_spans _ _ _ Hi)|].
  split; [apply (si_usable_sorted _ _ _ Hi)|]. split; [apply (si_in_usable _ _ _ Hi)|].
  split; [intros t; apply (si_types _ _ _ Hi)|].
  split; [rewrite (proj1 (si_types _ _ _ Hi BOOT_MEM_USABLE)); apply (si_account _ _ _ Hi)|].
  split; [apply (si_loader _ _ _ Hi)|]. split; [apply (si_acpi _ _ _ Hi)|reflexivity].
Qed.

(** ** When the scan succeeds *)

Lemma scan_region_fits rs b r m :
  scan_inv rs b m -> region_wf r -> region_fields r ->
  zlen (of_type BOOT_MEM_LOADER_RECLAIM (rs ++ [r])) <= PMM_MAX_RECLAIM_RANGES ->
  zlen (of_type BOOT_MEM_USABLE (rs ++ [r])) <= PMM_MAX_USABLE_RANGES ->
  zlen (filter (fun r => pmmMapTypeIsManaged (mr_type r) = true) (rs ++ [r])) <= PMM_MAX_SPANS ->
  fst (scan_region r m) = STATUS_OK.
Proof.
  intros Hi Hw Hf HL HU HM. destruct (region_pages r Hw Hf) as (_ & _ & E1 & E2 & _ & _ & E3 & E4).
  destruct (si_lengths _ _ _ Hi) as [LU LM]. rewrite of_type_snoc, zlen_app in HL, HU.
  rewrite filter_app, zlen_app in HM.
  unfold scan_region. rewrite E1, E2, E3, E4. simpl negb. cbv iota. simpl orb.
  destruct ((mr_type r <? BOOT_MEM_USABLE) || (BOOT_MEM_FRAMEBUFFER <? mr_type r)) eqn:Et.
  { exfalso. pose proof (wf_type _ Hw). apply orb_true_iff in Et as [Et|Et]; bprop; lia. }
  set (m0 := with_types _ m). cbv zeta.
  destruct (scan_loader r m0) as [s1 m1] eqn:S1. assert (s1 = STATUS_OK) as ->.
  { unfold scan_loader in S1. destruct (mr_type r =? BOOT_MEM_LOADER_RECLAIM) eqn:El; [|congruence].
    change (pm_loaderReclaim m0) with (pm_loaderReclaim m) in S1. rewrite (si_loader _ _ _ Hi) in S1.
    unfold zlen in *. rewrite length_fmap in S1. simpl in HL.
    destruct (Z.leb_spec PMM_MAX_RECLAIM_RANGES (Z.of_nat (length (of_type BOOT_MEM_LOADER_RECLAIM rs)))); [lia|congruence]. }
  pose proof (scan_loader_ok _ _ _ S1) as Em1. simpl then_.
  destruct (scan_acpi r (rstart r) (rend r) m1) as [s2 m2] eqn:S2. assert (s2 = STATUS_OK) as ->.
  { unfold scan_acpi in S2. destruct (mr_type r =? BOOT_MEM_ACPI_RECLAIM);
      [destruct (PMM_MAX_RECLAIM_RANGES <=? zlen (pm_acpiReclaim m1))|]; congruence. }
  eapply (scan_acpi_ok _ _ _ _ _ (of_type BOOT_MEM_ACPI_RECLAIM rs)) in S2 as [d Em2];
    [|rewrite Em1; exact (si_acpi _ _ _ Hi)]. simpl then_.
  assert (Eu : pm_usable m2 = pm_usable m /\ pm_spans m2 = pm_spans m) by (rewrite Em2, Em1; split; reflexivity).
  destruct Eu as [Eu Es].
  destruct (scan_usable r (rstart r) (rend r) m2) as [s3 m3] eqn:S3.
  assert (s3 = STATUS_OK /\ pm_spans m3 = pm_spans m) as [-> Es3].
  { unfold scan_usable in S3. destruct (mr_type r =? BOOT_MEM_USABLE) eqn:El; [|split; congruence].
    assert (Hroom : forall mm, pm_usable mm = pm_usable m2 -> (PMM_MAX_USABLE_RANGES <=? zlen (pm_usable mm)) = false).
    { intros mm ->. rewrite Eu. apply Z.leb_gt. unfold zlen in *. simpl in HU. lia. }
    destruct (rstart r <? minU64 (rend r) PMM_LOW_MEM_LIMIT_PFN);
      (destruct (maxU64 (rstart r) PMM_LOW_MEM_LIMIT_PFN <? minU64 (rend r) PMM_HHDM_LIMIT_PFN);
       [rewrite Hroom in S3 by reflexivity|]; simpl then_ in S3;
       destruct (maxU64 (rstart r) PMM_HHDM_LIMIT_PFN <? rend r);
       injection S3 as <- <-; (split; [reflexivity|exact Es])). }
  simpl then_. unfold scan_managed. destruct (pmmMapTypeIsManaged (mr_type r)) eqn:Em; [|reflexivity].
  destruct (rstart r <? minU64 (rend r) PMM_HHDM_LIMIT_PFN); [|reflexivity].
  unfold pmmAddSpan. destruct (minU64 (rend r) PMM_HHDM_LIMIT_PFN <=? rstart r); [reflexivity|].
  rewrite filter_cons_True, filter_nil in HM by assumption. change (zlen [r]) with 1 in HM.
  rewrite Es3. assert ((PMM_MAX_SPANS <=? zlen (pm_spans m)) = false) as -> by (apply Z.leb_gt; lia).
  destruct (last (pm_spans m)) as [t|]; [|reflexivity].
  destruct (alignDownPfn (rstart r) <=? sp_endPfn t); reflexivity.
Qed.

(** Counts never decrease along the map. *)
Lemma zlen_filter_app {A} (P : A -> Prop) `{!forall x, Decision (P x)} (l k : list A) :
  zlen (filter P l) <= zlen (filter P (l ++ k)).
Proof. rewrite filter_app, zlen_app. pose proof (zlen_nonneg (filter P k)). lia. Qed.

(** The scan fails on an accepted map only for want of room: with at most 16
    LOADER_RECLAIM regions, 256 USABLE ones and 128 managed ones it succeeds.
    The number of ACPI_RECLAIM regions, which the firmware controls, never makes
    it fail by itself. *)
Theorem pmmMapScan_capacity rs :
  map_ok rs ->
  zlen (of_type BOOT_MEM_LOADER_RECLAIM rs) <= PMM_MAX_RECLAIM_RANGES ->
  zlen (of_type BOOT_MEM_USABLE rs) <= PMM_MAX_USABLE_RANGES ->
  zlen (filter (fun r => pmmMapTypeIsManaged (mr_type r) = true) rs) <= PMM_MAX_SPANS ->
  fst (pmmMapScan rs) = STATUS_OK.
Proof.
  intros Hok HL HU HM.
  assert (Hgen : forall todo done b m, done ++ todo = rs -> scan_inv done b m -> 0 <= b -> map_ok todo ->
    Forall (fun x => b <= rstart x) todo -> fst (scan_regions todo m) = STATUS_OK).
  { induction todo as [|r todo IH]; intros done b m Ers Hi Hb Hmk Hge; [reflexivity|].
    apply map_ok_cons in Hmk as (Hw & Hf & Hmk & Hlt). apply Forall_cons in Hge as [Hbr Hge].
    assert (Ers' : (done ++ [r]) ++ todo = rs) by (rewrite <- app_assoc; exact Ers).
    assert (Hfit : fst (scan_region r m) = STATUS_OK).
    { apply (scan_region_fits done b); try assumption; unfold of_type in *; rewrite <- Ers' in *;
        etransitivity; [apply zlen_filter_app|eassumption|apply zlen_filter_app|eassumption|apply zlen_filter_app|eassumption]. }
    simpl. destruct (scan_region r m) as [st m1] eqn:S. simpl in Hfit. subst st. simpl then_.
    pose proof (region_pages r Hw Hf) as (Hp & _).
    eapply IH; [exact Ers'|eapply scan_region_step; eassumption|lia|assumption..]. }
  unfold pmmMapScan. assert (H : fst (scan_regions rs emptyMap) = STATUS_OK).
  { apply (Hgen rs [] 0 emptyMap); [reflexivity|apply scan_inv_empty|lia|assumption|].
    destruct Hok as (Hw & Hf & _). apply Forall_forall. intros x Hx.
    rewrite Forall_forall in Hw, Hf. pose proof (region_pages x (Hw x Hx) (Hf x Hx)). lia. }
  destruct (scan_regions rs emptyMap) as [st m]. simpl in H. subst st. reflexivity.
Qed.

(** Clipping a reclaim range leaves exactly its frames from 1 MiB up to the
    end of the direct map, page-aligned, and reports nothing when none are left. *)
Theorem pmmReclaimClip_exact r :
  region_wf r -> region_fields r ->
  match pmmReclaimClip (reclaim_of r) with
  | Some (b, e) => b < e /\ (4096 | b) /\ (4096 | e) /\
      forall f, b <= 4096 * f < e <-> frame_in r f /\ PMM_LOW_MEM_LIMIT_PFN <= f < PMM_HHDM_LIMIT_PFN
  | None => forall f, frame_in r f -> f < PMM_LOW_MEM_LIMIT_PFN \/ PMM_HHDM_LIMIT_PFN <= f
  end.
Proof.
  intros Hw Hf. destruct (region_pages r Hw Hf) as (Hp & Hp52 & _ & _ & Eb & Ee & _).
  destruct Hf as (Hb & Hl & _). pose proof (wf_end _ Hw).
  unfold pmmReclaimClip, reclaim_of, frame_in. simpl.
  rewrite (u64_small (mr_base r + mr_length r)) by (words; lia).
  change (PMM_LOW_MEM_LIMIT_PFN <<! 12) with (4096 * 256). change (PMM_HHDM_LIMIT_PFN <<! 12) with (4096 * 2 ^ 34).
  rewrite low_pow, hhdm_pow, Ee, Eb.
  destruct (Z.ltb_spec (4096 * rstart r) (4096 * 256)), (Z.ltb_spec (4096 * 2 ^ 34) (4096 * rend r));
    (destruct (_ <=? _) eqn:Ec; bprop; [intros f; lia|]);
    (split; [lia|]; split; [|split; [|intros f; lia]]); rewrite Z.mul_comm; apply Z.divide_factor_r || (eexists; reflexivity).
Qed.

(** ** A small machine *)

Definition region (base length type : Z) : BootMemRegion :=
  {| mr_base := base; mr_length := length; mr_type := type; mr_reserved := 0 |}.

Definition sample_pmm_regions : list BootMemRegion :=
  [region 0 0x9F000 BOOT_MEM_USABLE; region 0x9F000 0x1000 BOOT_MEM_RESERVED;
   region 0x100000 0x700000 BOOT_MEM_USABLE; region 0x800000 0x10000 BOOT_MEM_LOADER_RECLAIM;
   region 0x810000 0x8000 BOOT_MEM_ACPI_RECLAIM; region 0x2000000 0x400000 BOOT_MEM_USABLE].

Lemma sample_pmm_regions_ok : map_ok sample_pmm_regions.
Proof.
  split; [|split].
  - repeat constructor; discriminate.
  - repeat constructor; discriminate.
  - repeat constructor; unfold precedes; simpl; lia.
Qed.

Lemma pmmMapScan_exact_witness :
  exists m, pmmMapScan sample_pmm_regions = (STATUS_OK, m) /\
  spans_ok (pm_spans m) /\
  (forall f, in_spans (pm_spans m) f <-> exists f', managed_frame sample_pmm_regions f' /\ chunk f' = chunk f) /\
  StronglySorted before_usable (pm_usable m) /\
  (forall f, in_usable (pm_usable m) f <-> usable_frame sample_pmm_regions f) /\
  (forall t, pm_typePages m t = type_total sample_pmm_regions t) /\
  pm_lowReservedPages m + usable_total (pm_usable m) + pm_unmappedPages m = pm_typePages m BOOT_MEM_USABLE /\
  pm_loaderReclaim m = reclaim_of <$> of_type BOOT_MEM_LOADER_RECLAIM sample_pmm_regions /\
  pm_acpiReclaim m = take 16 (reclaim_of <$> of_type BOOT_MEM_ACPI_RECLAIM sample_pmm_regions) /\
  pm_maxPfn m = match last (pm_spans m) with Some s => sp_endPfn s | None => 0 end.
Proof.
  eexists. split; [vm_compute; reflexivity|].
  apply (pmmMapScan_exact sample_pmm_regions); [apply sample_pmm_regions_ok|vm_compute; reflexivity].
Defined.

Lemma pmmMapScan_capacity_witness : fst (pmmMapScan sample_pmm_regions) = STATUS_OK.
Proof.
  apply (pmmMapScan_capacity sample_pmm_regions); [apply sample_pmm_regions_ok|vm_compute; discriminate..].
Defined.

Lemma pmmReclaimClip_exact_witness :
  pmmReclaimClip (reclaim_of (region 0x800000 0x10000 BOOT_MEM_LOADER_RECLAIM)) = Some (0x800000, 0x810000) /\
  0x800000 < 0x810000 /\ (4096 | 0x800000) /\ (4096 | 0x810000) /\
  (forall f, 0x800000 <= 4096 * f < 0x810000 <->
     frame_in (region 0x800000 0x10000 BOOT_MEM_LOADER_RECLAIM) f /\
     PMM_LOW_MEM_LIMIT_PFN <= f < PMM_HHDM_LIMIT_PFN).
Proof.
  split; [reflexivity|].
  refine (pmmReclaimClip_exact (region 0x800000 0x10000 BOOT_MEM_LOADER_RECLAIM) _ _);
    repeat constructor; discriminate.
Defined.
