(* ===== verification/EarlyAlloc.v ===== *)
(** * The early bump allocator

    Models kernel/mm/early.c.  The allocator works on the usable ranges of the
    [PmmMap] that pmm.c owns (the C code keeps a pointer to it), so every
    operation takes that map and [pmmEarlySeal] gives it back changed.  Memory
    behind the direct map is a function from the address of a 64-bit word to its
    value. *)

From stdpp Require Import strings.
From S2P Require Import Prelude BootTypes Buddy PmmMap.

(** ** Outcomes of kernel code *)

(** Models src/kernel/include/pmm.h:56-68, PmmBugKind. *)
Inductive PmmBugKind :=
| PMM_BUG_NONE | PMM_BUG_INVALID_PAGE | PMM_BUG_BAD_ORDER | PMM_BUG_MISALIGNED
| PMM_BUG_ORDER_MISMATCH | PMM_BUG_DOUBLE_FREE | PMM_BUG_NOT_HEAD | PMM_BUG_RESERVED_FRAME
| PMM_BUG_CORRUPT_STATE | PMM_BUG_POISON | PMM_BUG_OWNED_PAGE.

(** A call returns, panics, reports a pmm bug, or touches memory that is not
    there. *)
Inductive outcome (A : Type) :=
| Ret (a : A) | Panic (msg : string) | Bug (kind : PmmBugKind) (pfn : Z) | Fault.
Arguments Ret {A} a.
Arguments Panic {A} msg.
Arguments Bug {A} kind pfn.
Arguments Fault {A}.

#[global] Instance outcome_bind : MBind outcome := fun A B f m =>
  match m with
  | Ret a => f a
  | Panic msg => Panic msg
  | Bug k p => Bug k p
  | Fault => Fault
  end.

(** A partial memory access. *)
Definition access {A} (o : option A) : outcome A := match o with Some a => Ret a | None => Fault end.

(** ** Memory *)

(** ** early.c *)

(** Models src/kernel/mm/early.c:12-21, the static state of the allocator. *)
Record EarlyState := mkEarly {
  ea_hhdmBase : Z; ea_cursor : list Z; ea_originalEnd : list Z; ea_sealed : bool; ea_usedPages : Z
}.

(** Models src/kernel/mm/early.c:25-34, pmmEarlyInit. *)
Definition pmmEarlyInit (map : PmmMap) (hhdmBase : Z) : EarlyState :=
  mkEarly hhdmBase (ur_endPfn <$> pm_usable map) (ur_endPfn <$> pm_usable map) false 0.

(** Models src/kernel/mm/early.c:40-46, zeroPhysPages. *)
Definition zeroPhysPages (es : EarlyState) (phys count : Z) (mem : Z -> Z) : Z -> Z :=
  let words := (count <<! 12) / 8 in
  fill_words (Z.to_nat words) 0 (ea_hhdmBase es +! phys) 0 mem.

(** The search of [pmmEarlyAllocPages] below range [n]: highest range first. *)
Fixpoint early_find (n : nat) (us : list PmmUsableRange) (cursor : list Z) (count : Z) : option nat :=
  match n with
  | O => None
  | S i =>
      match us !! i, cursor !! i with
      | Some u, Some c => if count <=? u64 (c - ur_startPfn u) then Some i else early_find i us cursor count
      | _, _ => None
      end
  end.

(** Models src/kernel/mm/early.c:48-66, pmmEarlyAllocPages. *)
Definition pmmEarlyAllocPages (map : PmmMap) (count : Z) (es : EarlyState) (mem : Z -> Z)
  : outcome (Status * option Z * EarlyState * (Z -> Z)) :=
  if ea_sealed es then Panic "pmm: pmmEarlyAllocPages() called after pmmEarlySeal()"
  else
    match early_find (length (pm_usable map)) (pm_usable map) (ea_cursor es) count with
    | Some i =>
        c ← access (ea_cursor es !! i);
        let c := c -! count in
        let phys := c <<! 12 in
        let es' := mkEarly (ea_hhdmBase es) (<[i := c]> (ea_cursor es)) (ea_originalEnd es) false
                     (ea_usedPages es +! count) in
        Ret (STATUS_OK, Some phys, es', zeroPhysPages es phys count mem)
    | None => Ret (STATUS_ERR_NO_MEMORY, None, es, mem)
    end.

(** Models src/kernel/mm/early.c:68-79, pmmEarlySeal. *)
Definition pmmEarlySeal (map : PmmMap) (es : EarlyState) : PmmMap * EarlyState :=
  if ea_sealed es then (map, es)
  else
    (with_usable (zip_with (fun u c => mkUsable (ur_startPfn u) c) (pm_usable map) (ea_cursor es)) map,
     mkEarly (ea_hhdmBase es) (ea_cursor es) (ea_originalEnd es) true (ea_usedPages es)).

(** Models src/kernel/mm/early.c:81-83, pmmEarlyUsedPages. *)
Definition pmmEarlyUsedPages (es : EarlyState) : Z := ea_usedPages es.

(** Models src/kernel/mm/early.c:85-101, pmmEarlyWasAllocated. *)
Definition pmmEarlyWasAllocated (map : PmmMap) (es : EarlyState) (pfn : Z) : outcome bool :=
  if negb (ea_sealed es) then Panic "pmm: pmmEarlyWasAllocated() called before pmmEarlySeal()"
  else Ret (existsb (fun '(u, o) => (ur_endPfn u <=? pfn) && (pfn <? o))
              (zip (pm_usable map) (ea_originalEnd es))).

(** ** The invariant *)

Definition usable_ok (us : list PmmUsableRange) : Prop :=
  StronglySorted before_usable us /\
  Forall (fun u => 0 <= ur_startPfn u < ur_endPfn u /\ ur_endPfn u <= PMM_HHDM_LIMIT_PFN) us.

(** The frames handed out: per range, what lies between the cursor and the end. *)
Definition early_frame (us : list PmmUsableRange) (cursor : list Z) (f : Z) : Prop :=
  exists i u c, us !! i = Some u /\ cursor !! i = Some c /\ c <= f < ur_endPfn u.

Definition consumed (us : list PmmUsableRange) (cursor : list Z) : Z :=
  foldr Z.add 0 (zip_with (fun u c => ur_endPfn u - c) us cursor).

Record early_inv (us : list PmmUsableRange) (es : EarlyState) : Prop := {
  ei_orig : ea_originalEnd es = ur_endPfn <$> us;
  ei_len : length (ea_cursor es) = length us;
  ei_cursor : forall i u c, us !! i = Some u -> ea_cursor es !! i = Some c -> ur_startPfn u <= c <= ur_endPfn u;
  ei_used : ea_usedPages es = u64 (consumed us (ea_cursor es))
}.

Lemma consumed_insert us cur i u c c' :
  us !! i = Some u -> cur !! i = Some c -> consumed us (<[i := c']> cur) = consumed us cur + (c - c').
Proof.
  unfold consumed. revert cur i. induction us as [|v us IH]; intros [|d cur] [|i] Hu Hc; simplify_eq/=.
  - lia.
  - rewrite (IH cur i) by assumption. lia.
Qed.

Lemma usable_apart us i j u v :
  usable_ok us -> us !! i = Some u -> us !! j = Some v -> (i < j)%nat -> ur_endPfn u <= ur_startPfn v.
Proof.
  intros [Hs _]. revert i j. induction Hs as [|w us Hs IH Hf]; intros i j Hu Hv Hij; [discriminate|].
  destruct j as [|j]; [lia|]. destruct i as [|i]; simpl in *; simplify_eq.
  - rewrite Forall_forall in Hf. apply (Hf v), list_elem_of_lookup. eauto.
  - apply (IH i j); auto. lia.
Qed.

Lemma early_find_spec us cur count n :
  (n <= length us)%nat -> length cur = length us ->
  match early_find n us cur count with
  | Some i => (i < n)%nat /\
      (exists u c, us !! i = Some u /\ cur !! i = Some c /\ count <= u64 (c - ur_startPfn u)) /\
      forall j u c, (i < j < n)%nat -> us !! j = Some u -> cur !! j = Some c -> u64 (c - ur_startPfn u) < count
  | None => forall i u c, (i < n)%nat -> us !! i = Some u -> cur !! i = Some c -> u64 (c - ur_startPfn u) < count
  end.
Proof.
  induction n as [|n IH]; intros Hn Hl; simpl; [intros i; lia|].
  destruct (lookup_lt_is_Some_2 us n ltac:(lia)) as [u Hu]. rewrite Hu.
  destruct (lookup_lt_is_Some_2 cur n ltac:(lia)) as [c Hc]. rewrite Hc.
  destruct (Z.leb_spec count (u64 (c - ur_startPfn u))) as [Hle|Hgt].
  - split; [lia|]. split; [eauto|]. intros j. lia.
  - specialize (IH ltac:(lia) Hl). destruct (early_find n us cur count) as [i|].
    + destruct IH as (? & IH1 & IH2). split; [lia|]. split; [exact IH1|]. intros j u' c' Hj Hu' Hc'.
      destruct (decide (j = n)) as [->|]; [simplify_eq; lia|]. apply (IH2 j u' c'); auto. lia.
    + intros i u' c' Hi Hu' Hc'. destruct (decide (i = n)) as [->|]; [simplify_eq; lia|].
      apply (IH i u' c'); auto. lia.
Qed.

(** ** One allocation *)

Lemma early_range us u c i :
  usable_ok us -> us !! i = Some u -> ur_startPfn u <= c <= ur_endPfn u -> 0 <= ur_startPfn u /\ 0 <= c <= 2 ^ 34.
Proof.
  intros [_ Hf] Hu Hc. rewrite Forall_forall in Hf.
  destruct (Hf u) as [H1 H2]; [apply list_elem_of_lookup; eauto|]. rewrite hhdm_pow in H2. lia.
Qed.

(** The highest range with [count] frames left, and its cursor. *)
Definition highest_room (us : list PmmUsableRange) (cursor : list Z) (count : Z) (i : nat) (c : Z) : Prop :=
  (exists u, us !! i = Some u /\ cursor !! i = Some c /\ count <= c - ur_startPfn u) /\
  forall j v d, (i < j)%nat -> us !! j = Some v -> cursor !! j = Some d -> d - ur_startPfn v < count.

(** A block of [count] frames from [f0] on: in one usable range, not handed out
    before. *)
Definition fresh_block (us : list PmmUsableRange) (cursor : list Z) (f0 count : Z) : Prop :=
  (exists u, u ∈ us /\ ur_startPfn u <= f0 /\ f0 + count <= ur_endPfn u) /\
  forall f, f0 <= f < f0 + count -> ~ early_frame us cursor f.

Lemma early_frame_insert us cur i u c d :
  usable_ok us -> us !! i = Some u -> cur !! i = Some c -> d <= c ->
  (forall j v e, us !! j = Some v -> cur !! j = Some e -> ur_startPfn v <= e <= ur_endPfn v) ->
  forall f, early_frame us (<[i := d]> cur) f <-> early_frame us cur f \/ (d <= f < c).
Proof.
  intros Hok Hu Hc Hd Hcur f. split.
  - intros (j & v & e & Hv & He & Hf). destruct (decide (j = i)) as [->|Hne].
    + rewrite list_lookup_insert_eq in He by (eapply lookup_lt_Some; eassumption). simplify_eq.
      destruct (decide (c <= f)); [left; exists i, u, c; repeat (split; [assumption|]); lia|right; lia].
    + rewrite list_lookup_insert_ne in He by congruence. left. exists j, v, e. auto.
  - intros [(j & v & e & Hv & He & Hf)|Hf].
    + destruct (decide (j = i)) as [->|Hne].
      * simplify_eq. exists i, u, d. rewrite list_lookup_insert_eq by (eapply lookup_lt_Some; eassumption).
        split; [assumption|]. split; [reflexivity|lia].
      * exists j, v, e. rewrite list_lookup_insert_ne by congruence. auto.
    + exists i, u, d. rewrite list_lookup_insert_eq by (eapply lookup_lt_Some; eassumption).
      pose proof (Hcur i u c Hu Hc). split; [assumption|]. split; [reflexivity|lia].
Qed.

Lemma early_fresh us cur i u c count :
  usable_ok us -> us !! i = Some u -> cur !! i = Some c -> 0 <= count <= c - ur_startPfn u ->
  (forall j v e, us !! j = Some v -> cur !! j = Some e -> ur_startPfn v <= e <= ur_endPfn v) ->
  fresh_block us cur (c - count) count.
Proof.
  intros Hok Hu Hc Hn Hcur. pose proof (Hcur i u c Hu Hc). split.
  - exists u. split; [apply list_elem_of_lookup; eauto|lia].
  - intros f Hf (j & v & e & Hv & He & Hfe). pose proof (Hcur j v e Hv He).
    destruct (lt_eq_lt_dec i j) as [[Hij| <-]|Hij].
    + pose proof (usable_apart us i j u v Hok Hu Hv Hij). lia.
    + simplify_eq. lia.
    + pose proof (usable_apart us j i v u Hok Hv Hu Hij). lia.
Qed.

Lemma pmmEarlyAllocPages_spec map es mem count :
  let us := pm_usable map in
  usable_ok us -> early_inv us es -> ea_sealed es = false -> is_u64 count ->
  (exists f0 es' mem', pmmEarlyAllocPages map count es mem =
       Ret (STATUS_OK, Some (4096 * f0), es', mem') /\
     early_inv us es' /\ ea_sealed es' = false /\ ea_hhdmBase es' = ea_hhdmBase es /\
     (exists i c, highest_room us (ea_cursor es) count i c /\ f0 = c - count /\
        ea_cursor es' = <[i := f0]> (ea_cursor es)) /\
     0 <= f0 /\ f0 + count <= 2 ^ 34 /\ fresh_block us (ea_cursor es) f0 count /\
     consumed us (ea_cursor es') = consumed us (ea_cursor es) + count /\
     (forall f, early_frame us (ea_cursor es') f <-> early_frame us (ea_cursor es) f \/ f0 <= f < f0 + count) /\
     mem' = zeroPhysPages es (4096 * f0) count mem) \/
  (pmmEarlyAllocPages map count es mem = Ret (STATUS_ERR_NO_MEMORY, None, es, mem) /\
   forall i u c, us !! i = Some u -> ea_cursor es !! i = Some c -> c - ur_startPfn u < count).
Proof.
  intros us Hok Hi Hs Hcnt. unfold pmmEarlyAllocPages. rewrite Hs. fold us.
  pose proof (early_find_spec us (ea_cursor es) count (length us) ltac:(lia) (ei_len _ _ Hi)) as Hf.
  assert (Hsub : forall i u c, us !! i = Some u -> ea_cursor es !! i = Some c ->
            u64 (c - ur_startPfn u) = c - ur_startPfn u /\ 0 <= ur_startPfn u <= c /\ c <= 2 ^ 34).
  { intros i u c Hu Hc. pose proof (ei_cursor _ _ Hi i u c Hu Hc) as Hcu.
    pose proof (early_range us u c i Hok Hu Hcu). split; [apply u64_small; words|]; lia. }
  destruct (early_find (length us) us (ea_cursor es) count) as [i|].
  - left. destruct Hf as (_ & (u & c & Hu & Hc & Hle) & Hhigh). destruct (Hsub i u c Hu Hc) as (E & Hr & Hc34).
    rewrite E in Hle. rewrite Hc. simpl.
    rewrite (u64_small (c - count)) by (words; lia).
    rewrite Z.shiftl_mul_pow2, (u64_small (_ * 2 ^ 12)) by (words; lia).
    replace ((c - count) * 2 ^ 12) with (4096 * (c - count)) by lia.
    eexists (c - count), _, _. split; [reflexivity|]. simpl.
    pose proof (consumed_insert us _ i u c (c - count) Hu Hc) as Hci.
    split; [split; simpl|].
    + apply (ei_orig _ _ Hi).
    + rewrite length_insert. apply (ei_len _ _ Hi).
    + intros j v e Hv He. destruct (decide (j = i)) as [->|Hne].
      * rewrite list_lookup_insert_eq in He by (eapply lookup_lt_Some; eassumption). 
        pose proof (ei_cursor _ _ Hi i u c Hu Hc). simplify_eq. words. lia.
      * rewrite list_lookup_insert_ne in He by congruence. apply (ei_cursor _ _ Hi j); assumption.
    + rewrite (ei_used _ _ Hi), Hci. unfold u64. rewrite Zplus_mod_idemp_l. f_equal. lia.
    + repeat (split; [reflexivity|]). split; [|split; [words; lia|split; [words; lia|]]].
      { exists i, c. split; [|done]. split; [eauto|]. intros j v d Hj Hv Hd.
        destruct (Hsub j v d Hv Hd) as [<- _]. apply (Hhigh j v d); [|done..].
        apply lookup_lt_Some in Hv. lia. }
      split; [eapply early_fresh; try eassumption; [words; lia|apply (ei_cursor _ _ Hi)]|].
      split; [lia|]. split; [|reflexivity]. intros f.
      pose proof (early_frame_insert us (ea_cursor es) i u c (c - count) Hok Hu Hc
                    ltac:(words; lia) (ei_cursor _ _ Hi) f) as Hx. rewrite Hx.
      assert (c - count <= f < c <-> c - count <= f < c - count + count) by lia. tauto.
  - right. split; [reflexivity|]. intros i u c Hu Hc.
    pose proof (Hf i u c ltac:(eapply lookup_lt_Some; exact Hu) Hu Hc).
    destruct (Hsub i u c Hu Hc) as [E _]. lia.
Qed.

(** ** Any number of allocations, then the seal *)

(** A sequence of requests; the blocks handed out, oldest first, as first frame
    and count. *)
Fixpoint early_run (map : PmmMap) (requests : list Z) (es : EarlyState) (mem : Z -> Z)
  : outcome (list (Z * Z) * EarlyState * (Z -> Z)) :=
  match requests with
  | [] => Ret ([], es, mem)
  | n :: requests =>
      '(st, phys, es, mem) ← pmmEarlyAllocPages map n es mem;
      '(bs, es, mem) ← early_run map requests es mem;
      Ret (match phys with Some p => (p / 4096, n) :: bs | None => bs end, es, mem)
  end.

Definition in_blocks (bs : list (Z * Z)) (f : Z) : Prop := exists b, b ∈ bs /\ b.1 <= f < b.1 + b.2.
Definition blocks_apart (b c : Z * Z) : Prop := forall f, b.1 <= f < b.1 + b.2 -> ~ (c.1 <= f < c.1 + c.2).

Lemma in_blocks_cons b bs f : in_blocks (b :: bs) f <-> (b.1 <= f < b.1 + b.2) \/ in_blocks bs f.
Proof.
  unfold in_blocks. setoid_rewrite elem_of_cons. split.
  - intros (x & [-> | ?] & ?); eauto.
  - intros [?|(x & ? & ?)]; eauto.
Qed.

Lemma early_run_spec map requests : forall es mem,
  let us := pm_usable map in
  usable_ok us -> early_inv us es -> ea_sealed es = false -> Forall is_u64 requests ->
  exists bs es' mem', early_run map requests es mem = Ret (bs, es', mem') /\
    early_inv us es' /\ ea_sealed es' = false /\
    StronglySorted blocks_apart bs /\
    Forall (fun b => exists u, u ∈ us /\ ur_startPfn u <= b.1 /\ b.1 + b.2 <= ur_endPfn u) bs /\
    (forall f, in_blocks bs f -> ~ early_frame us (ea_cursor es) f) /\
    (forall f, early_frame us (ea_cursor es') f <-> early_frame us (ea_cursor es) f \/ in_blocks bs f) /\
    consumed us (ea_cursor es') = consumed us (ea_cursor es) + foldr (fun b acc => b.2 + acc) 0 bs.
Proof.
  induction requests as [|n requests IH]; intros es mem us Hok Hi Hs Hreq; subst us.
  - exists [], es, mem. simpl. split; [reflexivity|]. split; [assumption|]. split; [assumption|].
    split; [constructor|]. split; [constructor|].
    assert (Hno : forall f, ~ in_blocks [] f) by (intros f (b & Hb & _); inversion Hb).
    split; [intros f Hf; destruct (Hno f Hf)|]. split; [intros f; specialize (Hno f); tauto|lia].
  - apply Forall_cons in Hreq as [Hn Hreq]. simpl.
    destruct (pmmEarlyAllocPages_spec map es mem n Hok Hi Hs Hn)
      as [(f0 & es1 & mem1 & E & Hi1 & Hs1 & _ & _ & Hf0 & _ & [Hin Hfr] & Hc1 & Hfr1 & _)|[E _]]; rewrite E; simpl.
    + destruct (IH es1 mem1 Hok Hi1 Hs1 Hreq) as (bs & es' & mem' & E' & Hi' & Hs' & Hso & Hfa & Hnew & Hall & Hc').
      rewrite E'. simpl. rewrite (Z.mul_comm 4096 f0), Z.div_mul by lia.
      exists ((f0, n) :: bs), es', mem'. split; [reflexivity|]. split; [assumption|]. split; [assumption|].
      split.
      { constructor; [assumption|]. apply Forall_forall. intros b Hb f Hf1 Hf2.
        apply (Hnew f); [exists b; auto|]. apply Hfr1. right. exact Hf1. }
      split; [constructor; assumption|]. split.
      { intros f. rewrite in_blocks_cons. intros [Hf|Hf]; [apply Hfr, Hf|].
        intros Hef. apply (Hnew f Hf), Hfr1. auto. }
      split; [|simpl; lia]. intros f. rewrite Hall, Hfr1, in_blocks_cons. simpl. tauto.
    + destruct (IH es mem Hok Hi Hs Hreq) as (bs & es' & mem' & E' & H). rewrite E'. simpl.
      exists bs, es', mem'. split; [reflexivity|exact H].
Qed.

Lemma early_init_inv map h : usable_ok (pm_usable map) ->
  early_inv (pm_usable map) (pmmEarlyInit map h) /\
  (forall f, ~ early_frame (pm_usable map) (ea_cursor (pmmEarlyInit map h)) f) /\
  consumed (pm_usable map) (ea_cursor (pmmEarlyInit map h)) = 0.
Proof.
  intros [_ Hf]. simpl. set (us := pm_usable map) in *.
  assert (Hlk : forall i u c, us !! i = Some u -> (ur_endPfn <$> us) !! i = Some c -> c = ur_endPfn u).
  { intros i u c Hu Hc. rewrite list_lookup_fmap, Hu in Hc. simpl in Hc. congruence. }
  assert (Hz : consumed us (ur_endPfn <$> us) = 0).
  { unfold consumed. clearbody us. clear. induction us as [|u us IH]; [reflexivity|]. rewrite fmap_cons. cbn [zip_with foldr]. rewrite IH. lia. }
  split; [split; simpl|split; [|exact Hz]].
  - reflexivity.
  - apply length_fmap.
  - intros i u c Hu Hc. rewrite (Hlk i u c Hu Hc). rewrite Forall_forall in Hf.
    destruct (Hf u) as [? _]; [apply list_elem_of_lookup; eauto|lia].
  - fold us. rewrite Hz. reflexivity.
  - intros f (i & u & c & Hu & Hc & Hr). rewrite (Hlk i u c Hu Hc) in Hr. lia.
Qed.

Lemma usable_total_bound us lo :
  StronglySorted before_usable us -> lo <= PMM_HHDM_LIMIT_PFN ->
  Forall (fun u => lo <= ur_startPfn u < ur_endPfn u /\ ur_endPfn u <= PMM_HHDM_LIMIT_PFN) us ->
  0 <= usable_total us <= PMM_HHDM_LIMIT_PFN - lo.
Proof.
  revert lo. induction us as [|u us IH]; intros lo Hs Hlo Hf; simpl; [lia|].
  apply StronglySorted_inv in Hs as [Hs Hu]. apply Forall_cons in Hf as [Hfu Hf].
  destruct (IH (ur_endPfn u) Hs) as [? ?]; [lia| |lia].
  apply Forall_forall. intros v Hv. rewrite Forall_forall in Hu, Hf.
  specialize (Hu v Hv). specialize (Hf v Hv). unfold before_usable in Hu. simpl in Hf. lia.
Qed.

Lemma consumed_bound us cur :
  length cur = length us ->
  (forall i u c, us !! i = Some u -> cur !! i = Some c -> ur_startPfn u <= c <= ur_endPfn u) ->
  0 <= consumed us cur /\
  0 <= usable_total (zip_with (fun u c => mkUsable (ur_startPfn u) c) us cur) /\
  usable_total (zip_with (fun u c => mkUsable (ur_startPfn u) c) us cur) + consumed us cur = usable_total us.
Proof.
  revert cur. induction us as [|u us IH]; intros [|c cur] Hl Hc; 
    [repeat split; discriminate|discriminate..|].
  destruct (IH cur) as (H1 & H1' & H2); [simpl in Hl; lia|intros i v e Hv He; apply (Hc (S i) v e); assumption|].
  specialize (Hc 0%nat u c eq_refl eq_refl). unfold consumed in *. simpl. lia.
Qed.

Lemma sealed_usable us cur f :
  usable_ok us -> length cur = length us ->
  (forall i u c, us !! i = Some u -> cur !! i = Some c -> ur_startPfn u <= c <= ur_endPfn u) ->
  in_usable (zip_with (fun u c => mkUsable (ur_startPfn u) c) us cur) f <->
  in_usable us f /\ ~ early_frame us cur f.
Proof.
  intros Hok Hl Hcur. unfold in_usable. split.
  - intros (v & Hv & Hf). apply list_elem_of_lookup in Hv as [i Hi].
    apply lookup_zip_with_Some in Hi as (u & c & -> & Hu & Hc). simpl in Hf.
    pose proof (Hcur i u c Hu Hc). split.
    + exists u. split; [apply list_elem_of_lookup; eauto|lia].
    + intros (j & w & e & Hw & He & Hfe). pose proof (Hcur j w e Hw He).
      destruct (lt_eq_lt_dec i j) as [[Hij| <-]|Hij].
      * pose proof (usable_apart us i j u w Hok Hu Hw Hij). lia.
      * simplify_eq. lia.
      * pose proof (usable_apart us j i w u Hok Hw Hu Hij). lia.
  - intros [(u & Hu & Hf) Hno]. apply list_elem_of_lookup in Hu as [i Hi].
    destruct (lookup_lt_is_Some_2 cur i) as [c Hc].
    { rewrite Hl. eapply lookup_lt_Some. exact Hi. }
    exists (mkUsable (ur_startPfn u) c). split.
    + apply list_elem_of_lookup. exists i. apply lookup_zip_with_Some. exists u, c. auto.
    + simpl. destruct (decide (f < c)); [lia|]. exfalso. apply Hno. exists i, u, c. repeat split; auto; lia.
Qed.

Lemma wasAllocated_frames us cur f :
  length cur = length us ->
  existsb (fun '(u, o) => (ur_endPfn u <=? f) && (f <? o))
    (zip (zip_with (fun u c => mkUsable (ur_startPfn u) c) us cur) (ur_endPfn <$> us)) = true <->
  early_frame us cur f.
Proof.
  intros Hl. rewrite existsb_exists. split.
  - intros ([v o] & Hin & Ht). apply list_elem_of_In, list_elem_of_lookup in Hin as [i Hi].
    apply lookup_zip_with_Some in Hi as (v' & o' & [= <- <-] & Hv & Ho).
    apply lookup_zip_with_Some in Hv as (u & c & -> & Hu & Hc).
    rewrite list_lookup_fmap, Hu in Ho. injection Ho as <-. simpl in Ht. bprop.
    exists i, u, c. auto.
  - intros (i & u & c & Hu & Hc & Hf). exists (mkUsable (ur_startPfn u) c, ur_endPfn u). split.
    + apply list_elem_of_In, list_elem_of_lookup. exists i. apply lookup_zip_with_Some.
      exists (mkUsable (ur_startPfn u) c), (ur_endPfn u). split; [reflexivity|].
      split; [apply lookup_zip_with_Some; exists u, c; auto|]. rewrite list_lookup_fmap, Hu. reflexivity.
    + simpl. apply andb_true_iff. split; [apply Z.leb_le|apply Z.ltb_lt]; lia.
Qed.

(** Whatever the kernel asks of the bump allocator before sealing it, the
    blocks it got are disjoint and each lies in one usable range; after the seal
    the usable ranges are what is left, page for page, the count of used pages is
    exact, and [pmmEarlyWasAllocated] recognises exactly the frames handed out. *)
Theorem early_alloc_exact map h mem requests :
  usable_ok (pm_usable map) -> Forall is_u64 requests ->
  exists bs es mem', early_run map requests (pmmEarlyInit map h) mem = Ret (bs, es, mem') /\
    StronglySorted blocks_apart bs /\
    Forall (fun b => exists u, u ∈ pm_usable map /\ ur_startPfn u <= b.1 /\ b.1 + b.2 <= ur_endPfn u) bs /\
    let '(map', es') := pmmEarlySeal map es in
    pmmEarlyUsedPages es' = foldr (fun b acc => b.2 + acc) 0 bs /\
    usable_total (pm_usable map') + pmmEarlyUsedPages es' = usable_total (pm_usable map) /\
    (forall f, in_usable (pm_usable map') f <-> in_usable (pm_usable map) f /\ ~ in_blocks bs f) /\
    (forall f, exists b, pmmEarlyWasAllocated map' es' f = Ret b /\ (b = true <-> in_blocks bs f)).
Proof.
  intros Hok Hreq. destruct (early_init_inv map h Hok) as (Hi & Hno & Hz).
  destruct (early_run_spec map requests _ mem Hok Hi eq_refl Hreq)
    as (bs & es & mem' & E & Hi' & Hs & Hso & Hin & _ & Hall & Hc).
  exists bs, es, mem'. split; [exact E|]. split; [exact Hso|]. split; [exact Hin|].
  unfold pmmEarlySeal. rewrite Hs. unfold pmmEarlyUsedPages, pmmEarlyWasAllocated. simpl.
  assert (Hfr : forall f, early_frame (pm_usable map) (ea_cursor es) f <-> in_blocks bs f).
  { intros f. rewrite Hall. specialize (Hno f). tauto. }
  destruct (consumed_bound _ _ (ei_len _ _ Hi') (ei_cursor _ _ Hi')) as (Hc0 & Hr0 & Htot).
  destruct (usable_total_bound (pm_usable map) 0 (proj1 Hok)) as [Hb0 Hb]; [discriminate|apply Hok|].
  rewrite hhdm_pow in Hb. rewrite Hz in Hc. simpl in Hc.
  assert (Hu : ea_usedPages es = consumed (pm_usable map) (ea_cursor es)).
  { rewrite (ei_used _ _ Hi'). apply u64_small. split; [assumption|].
    lia. }
  rewrite Hu. split; [lia|]. split; [lia|]. split.
  - intros f. rewrite <- Hfr. apply sealed_usable; [assumption|apply (ei_len _ _ Hi')|apply (ei_cursor _ _ Hi')].
  - intros f. eexists. split; [reflexivity|]. rewrite (ei_orig _ _ Hi'), wasAllocated_frames by apply (ei_len _ _ Hi').
    apply Hfr.
Qed.

Lemma zeroPhysPages_spec es phys count mem :
  0 <= count <= 2 ^ 34 -> 0 <= phys -> 0 <= ea_hhdmBase es -> ea_hhdmBase es + phys < 2 ^ 64 ->
  let va := ea_hhdmBase es + phys in
  (forall w, 0 <= w < 512 * count -> zeroPhysPages es phys count mem (va + 8 * w) = 0) /\
  (forall x, (forall w, 0 <= w < 512 * count -> x <> va + 8 * w) -> zeroPhysPages es phys count mem x = mem x).
Proof.
  intros Hc Hp Hh Hov va. unfold zeroPhysPages.
  rewrite Z.shiftl_mul_pow2, (u64_small (count * 2 ^ 12)), (u64_small (_ + phys)) by (words; lia).
  replace (count * 2 ^ 12 / 8) with (512 * count) by (replace (count * 2 ^ 12) with (512 * count * 8) by lia; rewrite Z.div_mul; lia).
  split.
  - intros w Hw. apply fill_words_in. lia.
  - intros x Hx. apply fill_words_out. intros j Hj. apply Hx. lia.
Qed.

(** C34: A bump allocation of any size, at any time: after the seal it panics. Before,
    it takes the top frames of the highest usable range that has room, which were
    never handed out before, moves that range's cursor below them and no other, and
    zeroes every word of them and no other word of memory; or no range has that many
    frames left, it says so and changes nothing. *)
Theorem pmmEarlyAllocPages_total map es mem count :
  usable_ok (pm_usable map) -> (ea_sealed es = false -> early_inv (pm_usable map) es) -> is_u64 count ->
  0 <= ea_hhdmBase es -> ea_hhdmBase es + 2 ^ 46 < 2 ^ 64 ->
  match pmmEarlyAllocPages map count es mem with
  | Panic msg => ea_sealed es = true /\ msg = "pmm: pmmEarlyAllocPages() called after pmmEarlySeal()"%string
  | Ret (STATUS_OK, Some phys, es', mem') => ea_sealed es = false /\
      early_inv (pm_usable map) es' /\ ea_sealed es' = false /\
      (exists i c, highest_room (pm_usable map) (ea_cursor es) count i c /\ phys = 4096 * (c - count) /\
         ea_cursor es' = <[i := c - count]> (ea_cursor es) /\
         fresh_block (pm_usable map) (ea_cursor es) (c - count) count) /\
      (forall w, 0 <= w < 512 * count -> mem' (ea_hhdmBase es + phys + 8 * w) = 0) /\
      (forall x, (forall w, 0 <= w < 512 * count -> x <> ea_hhdmBase es + phys + 8 * w) -> mem' x = mem x)
  | Ret (STATUS_ERR_NO_MEMORY, None, es', mem') => ea_sealed es = false /\
      es' = es /\ mem' = mem /\
      forall i u c, pm_usable map !! i = Some u -> ea_cursor es !! i = Some c -> c - ur_startPfn u < count
  | _ => False
  end.
Proof.
  intros Hok Hi Hc Hh Hov. destruct (ea_sealed es) eqn:Hs; [unfold pmmEarlyAllocPages; by rewrite Hs|].
  destruct (pmmEarlyAllocPages_spec map es mem count Hok (Hi eq_refl) Hs Hc) as
    [(f0 & es' & mem' & -> & Hi' & Hs' & _ & (i & c & Hr & -> & Hcur) & Hf0 & Hfe & Hfr & _ & _ & ->)|[-> Hnone]];
    [|auto].
  split_and!; [done..|exists i, c; done| |]; apply zeroPhysPages_spec; words; lia.
Qed.

(** Two usable ranges; three requests, one of which cannot be met. *)
Definition sample_early_map : PmmMap := with_usable [mkUsable 256 260; mkUsable 1024 1026] emptyMap.

Lemma sample_early_ok : usable_ok (pm_usable sample_early_map).
Proof.
  split; [repeat constructor; unfold before_usable; simpl; lia|].
  repeat constructor; simpl; try lia; discriminate.
Qed.

Lemma early_alloc_exact_witness :
  match early_run sample_early_map [1; 8; 3] (pmmEarlyInit sample_early_map 0) (fun _ => 7) with
  | Ret (bs, _, _) => bs = [(1025, 1); (257, 3)]
  | _ => False
  end /\
  exists bs es mem', early_run sample_early_map [1; 8; 3] (pmmEarlyInit sample_early_map 0) (fun _ => 7) = Ret (bs, es, mem') /\
    StronglySorted blocks_apart bs /\
    Forall (fun b => exists u, u ∈ pm_usable sample_early_map /\ ur_startPfn u <= b.1 /\ b.1 + b.2 <= ur_endPfn u) bs /\
    let '(map', es') := pmmEarlySeal sample_early_map es in
    pmmEarlyUsedPages es' = foldr (fun b acc => b.2 + acc) 0 bs /\
    usable_total (pm_usable map') + pmmEarlyUsedPages es' = usable_total (pm_usable sample_early_map) /\
    (forall f, in_usable (pm_usable map') f <-> in_usable (pm_usable sample_early_map) f /\ ~ in_blocks bs f) /\
    (forall f, exists b, pmmEarlyWasAllocated map' es' f = Ret b /\ (b = true <-> in_blocks bs f)).
Proof.
  split; [vm_compute; reflexivity|].
  apply (early_alloc_exact sample_early_map 0 (fun _ => 7) [1; 8; 3] sample_early_ok).
  repeat constructor; discriminate.
Defined.

Lemma pmmEarlyAllocPages_total_witness :
  let es := pmmEarlyInit sample_early_map 0 in
  (exists es' mem', pmmEarlyAllocPages sample_early_map 2 es (fun _ => 7) =
     Ret (STATUS_OK, Some (4096 * 1024), es', mem') /\ mem' (4096 * 1024 + 8) = 0) /\
  exists msg, pmmEarlyAllocPages sample_early_map 2 (pmmEarlySeal sample_early_map es).2 (fun _ => 7) = Panic msg.
Proof.
  intros es. split.
  - pose proof (pmmEarlyAllocPages_total sample_early_map es (fun _ => 7) 2 sample_early_ok
      (fun _ => proj1 (early_init_inv _ _ sample_early_ok)) ltac:(words; lia) ltac:(simpl; lia) ltac:(simpl; lia)) as H.
    destruct (pmmEarlyAllocPages _ _ es _) as [[[[[] [phys|]] es'] mem']|msg|k p|]; try done.
    + destruct H as (_ & _ & _ & (i & c & [(u & Hu & Hc & Hle) Hhigh] & -> & _) & H & _).
      destruct i as [|[|i]]; simpl in Hc; [|injection Hc as <-|by destruct i].
      * specialize (Hhigh 1%nat _ _ ltac:(lia) eq_refl eq_refl). simpl in Hhigh. lia.
      * exists es', mem'. split; [done|]. apply (H 1). lia.
    + destruct H as (_ & _ & _ & H). specialize (H 1%nat _ _ eq_refl eq_refl). simpl in H. lia.
    + by destruct H.
  - pose proof (pmmEarlyAllocPages_total sample_early_map (pmmEarlySeal sample_early_map es).2 (fun _ => 7) 2
      sample_early_ok ltac:(done) ltac:(words; lia) ltac:(simpl; lia) ltac:(simpl; lia)) as H.
    destruct (pmmEarlyAllocPages _ _ _ _) as [[[[[] [phys|]] es'] mem']|msg|k p|]; try done.
    + by destruct H as [? _].
    + by destruct H as [? _].
    + by exists msg.
Defined.
