(* ===== verification/Pmm.v ===== *)
(** * The physical memory manager

    Models kernel/mm/pmm.c on top of the scan (PmmMap), the bump allocator
    (EarlyAlloc) and the buddy core (Buddy): the public operations of
    kernel/include/pmm.h with their per-CPU cache, the validation of every free,
    the memory poisoning of debug builds, reclaim and statistics.  Pointers to
    [Page] entries are addresses; the memory behind the direct map is a function
    from word addresses.  The pmm lock and the log are not part of the model: the
    operations run to completion one after the other, as the irqsave spinlock
    makes them. *)

From stdpp Require Import strings functions.
From S2P Require Import Prelude BootTypes BootInfoCheck Buddy PmmMap EarlyAlloc.

(** ** State *)

Record Pmm := mkPmm {
  p_map : PmmMap;
  p_early : EarlyState;
  p_hhdmBase : Z;
  p_buddy : BuddyState;
  p_cacheCount : PmmZoneId -> Z;
  p_pageArrayPages : Z;
  p_pageTablePages : Z;
  p_reclaimedPages : Z;
  p_acpiReclaimedPages : Z;
  p_loaderReclaimDone : bool;
  p_acpiReclaimDone : bool;
  p_mem : Z -> Z
}.

Definition with_buddy (b : BuddyState) (s : Pmm) : Pmm :=
  mkPmm (p_map s) (p_early s) (p_hhdmBase s) b (p_cacheCount s) (p_pageArrayPages s)
    (p_pageTablePages s) (p_reclaimedPages s) (p_acpiReclaimedPages s) (p_loaderReclaimDone s)
    (p_acpiReclaimDone s) (p_mem s).
Definition with_cache (z : PmmZoneId) (d : Z) (s : Pmm) : Pmm :=
  mkPmm (p_map s) (p_early s) (p_hhdmBase s) (p_buddy s)
    (<[z := u32 (p_cacheCount s z + d)]> (p_cacheCount s)) (p_pageArrayPages s)
    (p_pageTablePages s) (p_reclaimedPages s) (p_acpiReclaimedPages s) (p_loaderReclaimDone s)
    (p_acpiReclaimDone s) (p_mem s).
Definition with_mem (mem : Z -> Z) (s : Pmm) : Pmm :=
  mkPmm (p_map s) (p_early s) (p_hhdmBase s) (p_buddy s) (p_cacheCount s) (p_pageArrayPages s)
    (p_pageTablePages s) (p_reclaimedPages s) (p_acpiReclaimedPages s) (p_loaderReclaimDone s)
    (p_acpiReclaimDone s) mem.
Definition with_reclaim (r a : Z) (ld ad : bool) (s : Pmm) : Pmm :=
  mkPmm (p_map s) (p_early s) (p_hhdmBase s) (p_buddy s) (p_cacheCount s) (p_pageArrayPages s)
    (p_pageTablePages s) r a ld ad (p_mem s).

(** A write through a [Page] pointer, and a buddy operation. *)
Definition upd_pg (pfn : Z) (f : Page -> Page) (s : Pmm) : outcome Pmm :=
  b ← access (upd_page pfn f (p_buddy s)); Ret (with_buddy b s).
Definition get_pg (pfn : Z) (s : Pmm) : outcome Page := access (bs_pages (p_buddy s) !! pfn).

(** Models src/kernel/include/page.h:66-68, pageFromPfn. *)
Definition VM_PAGE_ARRAY_BASE : Z := 0xFFFFE00000000000.
Definition sizeof_Page : Z := 64.
Definition pageFromPfn (pfn : Z) : Z := u64 (VM_PAGE_ARRAY_BASE + pfn *! sizeof_Page).
(** Models src/kernel/include/page.h:69-71, pageToPfn. *)
Definition pageToPfn (page : Z) : Z := (page -! VM_PAGE_ARRAY_BASE) / sizeof_Page.

Definition PAGE_F_POISONED : Z := 1 <<! 0.
Definition PAGE_F_SLAB : Z := 1 <<! 1.
Definition PAGE_F_VMALLOC : Z := 1 <<! 2.
Definition PAGE_F_OWNER_MASK : Z := PAGE_F_SLAB .| PAGE_F_VMALLOC.
Definition PMM_FLAG_DMA32 : Z := 1 <<! 0.
Definition PMM_FLAG_ZERO : Z := 1 <<! 1.
Definition PMM_FLAGS_VALID : Z := PMM_FLAG_DMA32 .| PMM_FLAG_ZERO.
Definition PMM_PCP_BATCH : Z := 32.
Definition PMM_PCP_HIGH : Z := 6 * PMM_PCP_BATCH.
Definition PMM_POISON : Z := 0x6B6B6B6B6B6B6B6B.

(** [for (p = a; p < a + n; p++)] over frame numbers, with an effect. *)
Fixpoint for_frames {S} (n : nat) (p : Z) (body : Z -> S -> outcome S) (s : S) : outcome S :=
  match n with
  | O => Ret s
  | S n => s ← body p s; for_frames n (p +! 1) body s
  end.

(** ** Frames *)

(** Models src/kernel/mm/pmm.c:111-125, pmmPfnValid (the loop). *)
Fixpoint pfn_search (fuel : nat) (spans : list PmmSpan) (pfn lo hi : Z) : option bool :=
  match fuel with
  | O => None
  | S fuel =>
      if lo <? hi then
        let mid := u32 (lo + u32 (hi - lo) / 2) in
        s ← spans !! Z.to_nat mid;
        if pfn <? sp_startPfn s then pfn_search fuel spans pfn lo mid
        else if sp_endPfn s <=? pfn then pfn_search fuel spans pfn (u32 (mid + 1)) hi
        else Some true
      else Some false
  end.

(** Models src/kernel/mm/pmm.c:111-125, pmmPfnValid. *)
Definition pmmPfnValid (pfn : Z) (s : Pmm) : outcome bool :=
  access (pfn_search (S (length (pm_spans (p_map s)))) (pm_spans (p_map s)) pfn 0
            (zlen (pm_spans (p_map s)))).

(** Models src/kernel/mm/pmm.c:127-130, pmmPhysToPage. *)
Definition pmmPhysToPage (phys : Z) (s : Pmm) : outcome (option Z) :=
  v ← pmmPfnValid (phys >>! 12) s;
  Ret (if (v : bool) then Some (pageFromPfn (phys >>! 12)) else None).

(** Models src/kernel/mm/pmm.c:132-134, pmmPhysIsEarlyAlloc. *)
Definition pmmPhysIsEarlyAlloc (phys : Z) (s : Pmm) : outcome bool :=
  pmmEarlyWasAllocated (p_map s) (p_early s) (phys >>! 12).

Section Build.

(** The build flag [KERNEL_DEBUG]. *)
Variable debug : bool.

(** Models src/kernel/mm/pmm.c:63-69, pmmPoisonPage. *)
Definition pmmPoisonPage (pfn : Z) (s : Pmm) : outcome Pmm :=
  let p := p_hhdmBase s +! (pfn <<! 12) in
  upd_pg pfn (fun pg => set_flags (pg_flags pg .| PAGE_F_POISONED) pg)
    (with_mem (fill_words 512 0 p PMM_POISON (p_mem s)) s).

(** The comparison loop of [pmmCheckAndClearPoison]. *)
Fixpoint all_poison (n : nat) (i p : Z) (mem : Z -> Z) : bool :=
  match n with
  | O => true
  | S n => if mem (p + 8 * i) =? PMM_POISON then all_poison n (i + 1) p mem else false
  end.

(** Models src/kernel/mm/pmm.c:94-108, pmmCheckAndClearPoison. *)
Definition pmmCheckAndClearPoison (pfn : Z) (s : Pmm) : outcome Pmm :=
  pg ← get_pg pfn s;
  if (pg_flags pg .& PAGE_F_POISONED) =? 0 then Ret s
  else
    let p := p_hhdmBase s +! (pfn <<! 12) in
    if all_poison 512 0 p (p_mem s) then
      upd_pg pfn (fun pg => set_flags (u16 (pg_flags pg .& not32 PAGE_F_POISONED)) pg) s
    else Bug PMM_BUG_POISON pfn.

(** Models src/kernel/mm/pmm.c:171-175, pmmValidateForFree (the ownership loop). *)
Definition check_unowned (pfn order : Z) (s : Pmm) : outcome unit :=
  for_frames (Z.to_nat (1 <<! order)) pfn
    (fun p _ => pg ← get_pg p s;
                if (pg_flags pg .& PAGE_F_OWNER_MASK) =? 0 then Ret tt else Bug PMM_BUG_OWNED_PAGE p) tt.

(** Models src/kernel/mm/pmm.c:189-195, pmmValidateForFree (the search for a
    free block that covers the page). *)
Fixpoint covered_by_free (n : nat) (k pfn : Z) (s : Pmm) : outcome bool :=
  match n with
  | O => Ret false
  | S n =>
      head ← get_pg (pfn .& not64 ((1 <<! k) - 1)) s;
      if (pg_state head =? PAGE_STATE_BUDDY) && (k <=? pg_order head) then Ret true
      else covered_by_free n (k + 1) pfn s
  end.

(** Models src/kernel/mm/pmm.c:143-203, pmmValidateForFree. *)
Definition pmmValidateForFree (page order : Z) (s : Pmm) : outcome Z :=
  if page =? 0 then Bug PMM_BUG_INVALID_PAGE 0
  else if (page <? VM_PAGE_ARRAY_BASE) || negb ((page - VM_PAGE_ARRAY_BASE) mod sizeof_Page =? 0)
  then Bug PMM_BUG_INVALID_PAGE 0
  else
    let pfn := pageToPfn page in
    v ← pmmPfnValid pfn s;
    if negb v then Bug PMM_BUG_INVALID_PAGE pfn
    else if PMM_MAX_ORDER <? order then Bug PMM_BUG_BAD_ORDER pfn
    else if negb ((pfn .& ((1 <<! order) -! 1)) =? 0) then Bug PMM_BUG_MISALIGNED pfn
    else
      pg ← get_pg pfn s;
      if pg_state pg =? PAGE_STATE_ALLOCATED then
        if negb (pg_order pg =? order) then Bug PMM_BUG_ORDER_MISMATCH pfn
        else check_unowned pfn order s ≫= fun _ => Ret pfn
      else if (pg_state pg =? PAGE_STATE_BUDDY) || (pg_state pg =? PAGE_STATE_PCP) then
        Bug PMM_BUG_DOUBLE_FREE pfn
      else if pg_state pg =? PAGE_STATE_TAIL then
        c ← covered_by_free 11 0 pfn s;
        if (c : bool) then Bug PMM_BUG_DOUBLE_FREE pfn else Bug PMM_BUG_NOT_HEAD pfn
      else if pg_state pg =? PAGE_STATE_RESERVED then Bug PMM_BUG_RESERVED_FRAME pfn
      else Bug PMM_BUG_CORRUPT_STATE pfn.

(** Models src/kernel/mm/pmm.c:205-211, pmmZeroBlock. *)
Definition pmmZeroBlock (pfn order : Z) (s : Pmm) : Pmm :=
  let words := ((1 <<! order) <<! 12) / 8 in
  with_mem (fill_words (Z.to_nat words) 0 (p_hhdmBase s +! (pfn <<! 12)) 0 (p_mem s)) s.

(** Models src/kernel/mm/pmm.c:213-222, pmmZoneListFor. *)
Definition pmmZoneListFor (flags : Z) : list PmmZoneId :=
  if negb ((flags .& PMM_FLAG_DMA32) =? 0) then [PMM_ZONE_DMA32] else [PMM_ZONE_NORMAL; PMM_ZONE_DMA32].

(** Models src/kernel/mm/pmm.c:227-236, pmmCacheAllocLocked (the refill loop). *)
Fixpoint cache_refill (n : nat) (zone : PmmZoneId) (s : Pmm) : outcome Pmm :=
  match n with
  | O => Ret s
  | S n =>
      '(r, b) ← access (buddyAllocBlock zone 0 (p_buddy s));
      match r with
      | None => Ret (with_buddy b s)
      | Some pfn =>
          s ← upd_pg pfn (set_state PAGE_STATE_PCP) (with_buddy b s);
          cache_refill n zone
            (with_cache zone 1 (with_buddy (listPushHead (CacheList zone) pfn (p_buddy s)) s))
      end
  end.

(** Models src/kernel/mm/pmm.c:224-245, pmmCacheAllocLocked. *)
Definition pmmCacheAllocLocked (zone : PmmZoneId) (s : Pmm) : outcome (option Z * Pmm) :=
  s ← (if p_cacheCount s zone =? 0 then cache_refill 32 zone s else Ret s);
  if p_cacheCount s zone =? 0 then Ret (None, s)
  else
    match listPopHead (CacheList zone) (p_buddy s) with
    | (Some pfn, b) => Ret (Some pfn, with_cache zone (-1) (with_buddy b s))
    | (None, _) => Fault
    end.

(** Takes [pfn] off the cache of its zone and gives it back to the buddy core. *)
Definition cache_return (zone : PmmZoneId) (pfn : Z) (s : Pmm) : outcome Pmm :=
  s ← upd_pg pfn (set_state PAGE_STATE_TAIL) (with_cache zone (-1) s);
  b ← access (buddyFreeBlock zone pfn 0 (p_buddy s));
  Ret (with_buddy b s).

(** Models src/kernel/mm/pmm.c:256-265, pmmCacheFreeLocked (the drain loop). *)
Fixpoint cache_trim (n : nat) (zone : PmmZoneId) (s : Pmm) : outcome Pmm :=
  match n with
  | O => Ret s
  | S n =>
      match listPopTail (CacheList zone) (p_buddy s) with
      | (None, _) => Ret s
      | (Some pfn, b) => s ← cache_return zone pfn (with_buddy b s); cache_trim n zone s
      end
  end.

(** Models src/kernel/mm/pmm.c:247-267, pmmCacheFreeLocked. *)
Definition pmmCacheFreeLocked (zone : PmmZoneId) (pfn : Z) (s : Pmm) : outcome Pmm :=
  s ← upd_pg pfn (fun p => set_refcount 0 (set_order 0 (set_state PAGE_STATE_PCP p))) s;
  let s := with_cache zone 1 (with_buddy (listPushHead (CacheList zone) pfn (p_buddy s)) s) in
  if PMM_PCP_HIGH <? p_cacheCount s zone then cache_trim 32 zone s else Ret s.

(** Models src/kernel/mm/pmm.c:274-279, pmmDrainLocalCache (the loop of one zone). *)
Fixpoint drain_zone (fuel : nat) (zone : PmmZoneId) (s : Pmm) : outcome Pmm :=
  match fuel with
  | O => Fault
  | S fuel =>
      match listPopHead (CacheList zone) (p_buddy s) with
      | (None, _) => Ret s
      | (Some pfn, b) => s ← cache_return zone pfn (with_buddy b s); drain_zone fuel zone s
      end
  end.

(** Models src/kernel/mm/pmm.c:269-282, pmmDrainLocalCache. *)
Definition pmmDrainLocalCache (s : Pmm) : outcome Pmm :=
  let fuel z s := S (length (bs_list (p_buddy s) (CacheList z))) in
  s ← drain_zone (fuel PMM_ZONE_DMA32 s) PMM_ZONE_DMA32 s;
  drain_zone (fuel PMM_ZONE_NORMAL s) PMM_ZONE_NORMAL s.

(** Models src/kernel/mm/pmm.c:300-303, pmmAllocPages (the zone loop). *)
Fixpoint alloc_from (zones : list PmmZoneId) (order : Z) (s : Pmm) : outcome (option Z * Pmm) :=
  match zones with
  | [] => Ret (None, s)
  | z :: zones =>
      '(r, s) ← (if order =? 0 then pmmCacheAllocLocked z s
                 else '(r, b) ← access (buddyAllocBlock z order (p_buddy s)); Ret (r, with_buddy b s));
      match r with
      | Some pfn => Ret (Some pfn, s)
      | None => alloc_from zones order s
      end
  end.

(** The fields [pmmAllocPages] sets on the head of the block. *)
Definition alloc_head (order : Z) (p : Page) : Page :=
  mkPage PAGE_STATE_ALLOCATED (u8 order) (pg_flags p) 1 0 0 0 0.

(** Models src/kernel/mm/pmm.c:284-330, pmmAllocPages.  [outPage] is never NULL
    here; the second component is what it receives. *)
Definition pmmAllocPages (order flags : Z) (s : Pmm) : outcome (Status * option Z * Pmm) :=
  if (PMM_MAX_ORDER <? order) || negb ((flags .& not32 PMM_FLAGS_VALID) =? 0) then
    Ret (STATUS_ERR_INVALID, None, s)
  else
    '(r, s) ← alloc_from (pmmZoneListFor flags) order s;
    match r with
    | None => Ret (STATUS_ERR_NO_MEMORY, None, s)
    | Some pfn =>
        s ← upd_pg pfn (alloc_head order) s;
        s ← (if debug then for_frames (Z.to_nat (1 <<! order)) pfn pmmCheckAndClearPoison s else Ret s);
        let s := if negb ((flags .& PMM_FLAG_ZERO) =? 0) then pmmZeroBlock pfn order s else s in
        Ret (STATUS_OK, Some (pageFromPfn pfn), s)
    end.

(** Models src/kernel/mm/pmm.c:332-361, pmmFreePages. *)
Definition pmmFreePages (page order : Z) (s : Pmm) : outcome Pmm :=
  pfn ← pmmValidateForFree page order s;
  s ← (if debug then for_frames (Z.to_nat (1 <<! order)) pfn pmmPoisonPage s else Ret s);
  if order =? 0 then pmmCacheFreeLocked (pmmZoneOfPfn pfn) pfn s
  else
    s ← upd_pg pfn (fun p => set_refcount 0 (set_order 0 (set_state PAGE_STATE_TAIL p))) s;
    b ← access (buddyFreeBlock (pmmZoneOfPfn pfn) pfn order (p_buddy s));
    Ret (with_buddy b s).

(** ** Memory that enters the allocator *)

(** Models src/kernel/mm/pmm.c:380-384, pmmAddFreeRange (the check of every frame). *)
Fixpoint all_reserved (n : nat) (p : Z) (s : Pmm) : outcome bool :=
  match n with
  | O => Ret true
  | S n =>
      v ← pmmPfnValid p s;
      if negb v then Ret false
      else
        pg ← get_pg p s;
        if negb (pg_state pg =? PAGE_STATE_RESERVED) then Ret false else all_reserved n (p +! 1) s
  end.

(** [__builtin_ctzll] of a non-zero operand. *)
Fixpoint ctz_pos (p : positive) : Z :=
  match p with
  | xO p => 1 + ctz_pos p
  | _ => 0
  end.
Definition ctz (x : Z) : Z := match x with Zpos p => ctz_pos p | _ => 0 end.

(** Models src/kernel/mm/pmm.c:389-395, pmmAddFreeRange (the order of the next block). *)
Fixpoint shrink_order (fuel : nat) (order room : Z) : Z :=
  match fuel with
  | O => order
  | S fuel => if room <? (1 <<! order) then shrink_order fuel (u32 (order - 1)) room else order
  end.
Definition next_order (pfn endPfn : Z) : Z :=
  let order := if pfn =? 0 then PMM_MAX_ORDER else ctz pfn in
  let order := if PMM_MAX_ORDER <? order then PMM_MAX_ORDER else order in
  shrink_order 11 order (endPfn -! pfn).

(** Models src/kernel/mm/pmm.c:396-403, pmmAddFreeRange (one block). *)
Definition add_block (pfn order : Z) (s : Pmm) : outcome Pmm :=
  s ← for_frames (Z.to_nat (1 <<! order)) pfn (fun p s => upd_pg p (set_state PAGE_STATE_TAIL) s) s;
  let z := pmmZoneOfPfn pfn in
  b ← access (buddyFreeBlock z pfn order (upd_zone z (zone_add_managed (1 <<! order)) (p_buddy s)));
  Ret (with_buddy b s).

(** Models src/kernel/mm/pmm.c:387-405, pmmAddFreeRange (the block loop). *)
Fixpoint add_blocks (fuel : nat) (pfn endPfn : Z) (s : Pmm) : outcome Pmm :=
  match fuel with
  | O => Fault
  | S fuel =>
      if pfn <? endPfn then
        let order := next_order pfn endPfn in
        s ← add_block pfn order s;
        add_blocks fuel (pfn +! (1 <<! order)) endPfn s
      else Ret s
  end.

(** Models src/kernel/mm/pmm.c:363-408, pmmAddFreeRange. *)
Definition pmmAddFreeRange (physBase length : Z) (s : Pmm) : outcome (Status * Pmm) :=
  if negb (((physBase .| length) .& 0xFFF) =? 0) then Ret (STATUS_ERR_INVALID, s)
  else if length =? 0 then Ret (STATUS_OK, s)
  else
    let startPfn := physBase >>! 12 in
    let endPfn := startPfn +! (length >>! 12) in
    if endPfn <=? startPfn then Ret (STATUS_ERR_INVALID, s)
    else
      ok ← all_reserved (Z.to_nat (endPfn - startPfn)) startPfn s;
      if negb ok then Ret (STATUS_ERR_INVALID, s)
      else s ← add_blocks (S (Z.to_nat (endPfn - startPfn))) startPfn endPfn s; Ret (STATUS_OK, s).

(** Models src/kernel/mm/pmm.c:410-416, pmmZeroRange. *)
Definition pmmZeroRange (physBase length : Z) (s : Pmm) : Pmm :=
  with_mem (fill_words (Z.to_nat (length / 8)) 0 (p_hhdmBase s +! physBase) 0 (p_mem s)) s.

(** Models src/kernel/mm/pmm.c:425-434, pmmRangeAllReserved. *)
Definition pmmRangeAllReserved (base length : Z) (s : Pmm) : outcome bool :=
  let startPfn := base >>! 12 in
  let endPfn := startPfn +! (length >>! 12) in
  all_reserved (Z.to_nat (endPfn - startPfn)) startPfn s.

(** Models src/kernel/mm/pmm.c:443-459, pmmReclaimPiece. *)
Definition pmmReclaimPiece (base length : Z) (s : Pmm) : outcome (Z * Pmm) :=
  if length =? 0 then Ret (0, s)
  else
    ok ← pmmRangeAllReserved base length s;
    if negb ok then Panic "pmm: reclaim: range is not entirely PAGE_STATE_RESERVED"
    else
      '(st, s) ← pmmAddFreeRange base length (pmmZeroRange base length s);
      match st with
      | STATUS_OK => Ret (length >>! 12, s)
      | _ => Panic "pmm: reclaim: pmmAddFreeRange failed"
      end.

(** Models src/kernel/mm/pmm.c:464-473, pmmReclaimRanges. *)
Fixpoint pmmReclaimRanges (ranges : list PmmReclaimRange) (reclaimed : Z) (s : Pmm) : outcome (Z * Pmm) :=
  match ranges with
  | [] => Ret (reclaimed, s)
  | r :: ranges =>
      match pmmReclaimClip r with
      | Some (base, e) =>
          '(n, s) ← pmmReclaimPiece base (e -! base) s;
          pmmReclaimRanges ranges (reclaimed +! n) s
      | None => pmmReclaimRanges ranges reclaimed s
      end
  end.

(** Models src/kernel/mm/pmm.c:475-504, pmmReclaimLoaderMemory.  [active] is what
    [vmmKernelTablesActive] returns. *)
Definition pmmReclaimLoaderMemory (active : bool) (s : Pmm) : outcome Pmm :=
  if p_loaderReclaimDone s then Panic "pmm: pmmReclaimLoaderMemory: called twice"
  else if negb active then
    Panic "pmm: pmmReclaimLoaderMemory: called before the kernel's own page tables are active"
  else
    let s := with_reclaim (p_reclaimedPages s) (p_acpiReclaimedPages s) true (p_acpiReclaimDone s) s in
    '(n, s) ← pmmReclaimRanges (pm_loaderReclaim (p_map s)) 0 s;
    if pm_typePages (p_map s) BOOT_MEM_LOADER_RECLAIM <? n then
      Panic "pmm: reclaim: more pages than ever recorded as LOADER_RECLAIM"
    else Ret (with_reclaim (p_reclaimedPages s +! n) (p_acpiReclaimedPages s) (p_loaderReclaimDone s)
                (p_acpiReclaimDone s) s).

(** Models src/kernel/mm/pmm.c:506-534, pmmReclaimAcpiMemory. *)
Definition pmmReclaimAcpiMemory (active : bool) (s : Pmm) : outcome Pmm :=
  if p_acpiReclaimDone s then Panic "pmm: pmmReclaimAcpiMemory: called twice"
  else if negb active then
    Panic "pmm: pmmReclaimAcpiMemory: called before the kernel's own page tables are active"
  else
    let s := with_reclaim (p_reclaimedPages s) (p_acpiReclaimedPages s) (p_loaderReclaimDone s) true s in
    '(n, s) ← pmmReclaimRanges (pm_acpiReclaim (p_map s)) 0 s;
    if pm_typePages (p_map s) BOOT_MEM_ACPI_RECLAIM <? n then
      Panic "pmm: reclaim: more pages than ever recorded as ACPI_RECLAIM"
    else Ret (with_reclaim (p_reclaimedPages s +! n) n (p_loaderReclaimDone s) (p_acpiReclaimDone s) s).

(** ** Statistics *)

(** Models src/kernel/include/pmm.h:38-54, PmmStats. *)
Record PmmStats := mkStats {
  s_usablePages : Z; s_managedPages : Z; s_freePages : Z; s_cachedPages : Z; s_allocatedPages : Z;
  s_earlyPages : Z; s_pageArrayPages : Z; s_pageTablePages : Z; s_lowReservedPages : Z;
  s_unmappedPages : Z; s_reclaimedPages : Z; s_acpiReclaimedPages : Z;
  s_zoneManagedPages : PmmZoneId -> Z; s_zoneFreePages : PmmZoneId -> Z; s_typePages : Z -> Z
}.

(** Models src/kernel/mm/pmm.c:536-561, pmmGetStats. *)
Definition pmmGetStats (s : Pmm) : PmmStats :=
  let zone z := bs_zone (p_buddy s) z in
  let zoneFree z := zn_freePages (zone z) +! p_cacheCount s z in
  let managed := (0 +! zn_managedPages (zone PMM_ZONE_DMA32)) +! zn_managedPages (zone PMM_ZONE_NORMAL) in
  let free := (0 +! zoneFree PMM_ZONE_DMA32) +! zoneFree PMM_ZONE_NORMAL in
  let cached := (0 +! p_cacheCount s PMM_ZONE_DMA32) +! p_cacheCount s PMM_ZONE_NORMAL in
  mkStats (pm_typePages (p_map s) BOOT_MEM_USABLE) managed free cached (managed -! free)
    (pmmEarlyUsedPages (p_early s)) (p_pageArrayPages s) (p_pageTablePages s)
    (pm_lowReservedPages (p_map s)) (pm_unmappedPages (p_map s)) (p_reclaimedPages s)
    (p_acpiReclaimedPages s) (fun z => zn_managedPages (zone z)) zoneFree (pm_typePages (p_map s)).

(** Models src/kernel/mm/pmm.c:599-611, pmmPrintMeminfo (the self-check). *)
Definition pmmPrintMeminfo (s : Pmm) : outcome unit :=
  let st := pmmGetStats s in
  let sum := ((s_managedPages st +! s_earlyPages st) +! s_lowReservedPages st) +! s_unmappedPages st in
  if sum =? s_usablePages st +! s_reclaimedPages st then Ret tt
  else Panic "pmm: meminfo self-check failed".

End Build.

(** ** The frame lookup *)

Lemma span_at sp i s : spans_ok sp -> sp !! i = Some s -> span_ok s.
Proof. intros [_ Hf] Hs. rewrite Forall_forall in Hf. apply Hf, list_elem_of_lookup. eauto. Qed.

Lemma spans_apart sp i j s t :
  spans_ok sp -> sp !! i = Some s -> sp !! j = Some t -> (i < j)%nat -> sp_endPfn s < sp_startPfn t.
Proof.
  intros [Hs _]. revert i j. induction Hs as [|w sp Hs IH Hf]; intros i j Hi Hj Hij; [discriminate|].
  destruct j as [|j]; [lia|]. destruct i as [|i]; simpl in *; simplify_eq.
  - rewrite Forall_forall in Hf. apply (Hf t), list_elem_of_lookup. eauto.
  - apply (IH i j); auto. lia.
Qed.

(** The search interval always holds the span of [pfn], if there is one. *)
Lemma pfn_search_spec sp pfn fuel : forall lo hi,
  spans_ok sp -> zlen sp <= PMM_MAX_SPANS -> 0 <= lo <= hi -> hi <= zlen sp -> hi - lo < Z.of_nat fuel ->
  (forall i s, sp !! i = Some s -> Z.of_nat i < lo -> sp_endPfn s <= pfn) ->
  (forall i s, sp !! i = Some s -> hi <= Z.of_nat i -> pfn < sp_startPfn s) ->
  exists b, pfn_search fuel sp pfn lo hi = Some b /\ (b = true <-> in_spans sp pfn).
Proof.
  induction fuel as [|fuel IH]; intros lo hi Hok Hlen Hlo Hhi Hfuel Hbelow Habove; [lia|].
  unfold PMM_MAX_SPANS in *. simpl. destruct (Z.ltb_spec lo hi) as [Hlt|Hge].
  - rewrite (u32_small (hi - lo)), (u32_small (lo + _)) by (words; dlia).
    set (mid := lo + (hi - lo) / 2). assert (Hmid : lo <= mid < hi) by (unfold mid; dlia).
    destruct (lookup_lt_is_Some_2 sp (Z.to_nat mid)) as [s Hs]; [unfold zlen in Hhi; lia|].
    rewrite Hs. simpl. pose proof (span_at _ _ _ Hok Hs) as [Hse _].
    destruct (Z.ltb_spec pfn (sp_startPfn s)) as [Hbl|Hbl]; [|destruct (Z.leb_spec (sp_endPfn s) pfn) as [Hab|Hab]].
    + apply IH; try assumption; try lia. intros i t Ht Hi.
      destruct (decide (i = Z.to_nat mid)) as [->|Hne]; [simplify_eq; assumption|].
      pose proof (spans_apart sp (Z.to_nat mid) i s t Hok Hs Ht ltac:(lia)). lia.
    + rewrite (u32_small (mid + 1)) by (words; lia). apply IH; try assumption; try lia. intros i t Ht Hi.
      destruct (decide (i = Z.to_nat mid)) as [->|Hne]; [simplify_eq; assumption|].
      pose proof (span_at _ _ _ Hok Hs) as [? _].
      pose proof (spans_apart sp i (Z.to_nat mid) t s Hok Ht Hs ltac:(lia)). lia.
    + exists true. split; [reflexivity|]. split; [intros _|reflexivity].
      exists s. split; [apply list_elem_of_lookup; eauto|lia].
  - exists false. split; [reflexivity|]. split; [discriminate|]. intros (s & Hin & Hf).
    apply list_elem_of_lookup in Hin as [i Hi]. exfalso.
    destruct (decide (Z.of_nat i < lo)).
    + specialize (Hbelow i s Hi ltac:(lia)). lia.
    + specialize (Habove i s Hi ltac:(lia)). lia.
Qed.

Lemma pmmPfnValid_ok pfn s :
  spans_ok (pm_spans (p_map s)) -> zlen (pm_spans (p_map s)) <= PMM_MAX_SPANS ->
  exists b, pmmPfnValid pfn s = Ret b /\ (b = true <-> in_spans (pm_spans (p_map s)) pfn).
Proof.
  intros Hok Hlen. unfold pmmPfnValid.
  destruct (pfn_search_spec (pm_spans (p_map s)) pfn (S (length (pm_spans (p_map s)))) 0
              (zlen (pm_spans (p_map s)))) as (b & E & Hb); try assumption.
  - pose proof (zlen_nonneg (pm_spans (p_map s))). lia.
  - lia.
  - unfold zlen. lia.
  - lia.
  - intros i t Ht Hi. apply lookup_lt_Some in Ht. unfold zlen in Hi. lia.
  - exists b. rewrite E. auto.
Qed.

#[global] Arguments pfn_search : simpl never.

(** ** The invariant of the manager *)

(** The memory words of a frame. *)
Definition word_at (s : Pmm) (f w : Z) : Z := p_mem s (p_hhdmBase s + 4096 * f + 8 * w).
Definition frame_words (s : Pmm) (f v : Z) : Prop := forall w, 0 <= w < 512 -> word_at s f w = v.

Record core (A : blocks) (s : Pmm) : Prop := {
  c_rep : represents A (p_buddy s);
  c_coalesced : coalesced A;
  c_ledger : ledger (p_buddy s);
  c_cache : forall z, p_cacheCount s z = zlen (bs_list (p_buddy s) (CacheList z));
  c_backed : forall q, is_Some (bs_pages (p_buddy s) !! q) <-> in_spans (pm_spans (p_map s)) q;
  c_spans : spans_ok (pm_spans (p_map s)) /\ zlen (pm_spans (p_map s)) <= PMM_MAX_SPANS;
  c_hhdm : 0 <= p_hhdmBase s /\ p_hhdmBase s + 2 ^ 46 < 2 ^ 64
}.

(** A poison mark is on a free frame, whose memory still holds the pattern. *)
Definition poison_ok (debug : bool) (A : blocks) (s : Pmm) : Prop :=
  forall f pg, bs_pages (p_buddy s) !! f = Some pg ->
    pg_flags pg = 0 \/
    (pg_flags pg = PAGE_F_POISONED /\ debug = true /\ frame_words s f PMM_POISON /\
     exists p κ k, holds A p κ k f /\ (κ = Free \/ κ = Cached)).

Definition held_total (L : list (Z * Z)) (z : PmmZoneId) : Z :=
  foldr (fun b acc => (if decide (pmmZoneOfPfn b.1 = z) then 2 ^ b.2 else 0) + acc) 0 L.

#[global] Arguments held_total : simpl never.

(** [L] is the list of blocks the clients of the pmm hold. *)
Record pmm_inv (debug : bool) (L : list (Z * Z)) (A : blocks) (s : Pmm) : Prop := {
  i_core : core A s;
  i_settled : forall p k, A !! p <> Some (Float, k);
  i_held : forall p k, (p, k) ∈ L <-> A !! p = Some (Held, k);
  i_nodup : NoDup L;
  i_cache : forall z, p_cacheCount s z <= PMM_PCP_HIGH;
  i_account : forall z, zn_managedPages (bs_zone (p_buddy s) z) =
    u64 (free_sum (bs_list (p_buddy s)) z + p_cacheCount s z + held_total L z);
  i_poison : poison_ok debug A s
}.

(** ** Page pointers *)

Lemma pageFromPfn_small p : 0 <= p < 2 ^ 34 ->
  pageFromPfn p = VM_PAGE_ARRAY_BASE + 64 * p /\ pageToPfn (pageFromPfn p) = p.
Proof.
  intros Hp. unfold pageToPfn, pageFromPfn, VM_PAGE_ARRAY_BASE, sizeof_Page.
  rewrite (u64_small (p * 64)), (u64_small (_ + p * 64)), (u64_small (_ - _)) by (words; lia).
  split; [lia|]. replace (0xFFFFE00000000000 + p * 64 - 0xFFFFE00000000000) with (p * 64) by lia.
  apply Z.div_mul. lia.
Qed.

Lemma backed_range A s q : core A s -> is_Some (bs_pages (p_buddy s) !! q) -> 0 <= q < 2 ^ 34.
Proof.
  intros Hc Hq. apply (c_backed _ _ Hc) in Hq as (sp & Hsp & Hr).
  destruct (c_spans _ _ Hc) as [[_ Hf] _]. rewrite Forall_forall in Hf.
  destruct (Hf sp Hsp) as (? & Hl & _). rewrite hhdm_pow in Hl. lia.
Qed.

(** ** Validating a free *)

Lemma get_pg_ok A s q : core A s -> in_spans (pm_spans (p_map s)) q ->
  exists pg, get_pg q s = Ret pg /\ bs_pages (p_buddy s) !! q = Some pg.
Proof.
  intros Hc Hq. apply (c_backed _ _ Hc) in Hq as [pg Hpg]. exists pg. unfold get_pg. rewrite Hpg. auto.
Qed.

Lemma chunk_backed A s p q : core A s -> is_Some (bs_pages (p_buddy s) !! p) -> chunk q = chunk p ->
  is_Some (bs_pages (p_buddy s) !! q).
Proof. intros Hc Hp Hq. apply (po_backed _ _ (rep_pages _ _ (c_rep _ _ Hc)) p Hp). assumption. Qed.

(** The pages of a block that no owner claims. *)
Definition unowned (s : Pmm) (p k : Z) : Prop :=
  forall f pg, in_block p k f -> bs_pages (p_buddy s) !! f = Some pg -> pg_flags pg .& PAGE_F_OWNER_MASK = 0.

Lemma for_frames_read {S} (n : nat) : forall p (body : Z -> S -> outcome S) (good : Z -> Prop) (bad : Z -> Prop) s,
  0 <= p -> p + Z.of_nat n < 2 ^ 64 -> (forall f, p <= f < p + Z.of_nat n -> (good f /\ body f s = Ret s) \/
     (bad f /\ exists k q, body f s = Bug k q /\ q = f /\ k = PMM_BUG_OWNED_PAGE)) ->
  (for_frames n p body s = Ret s /\ forall f, p <= f < p + Z.of_nat n -> good f) \/
  (exists f, p <= f < p + Z.of_nat n /\ bad f /\ for_frames n p body s = Bug PMM_BUG_OWNED_PAGE f).
Proof.
  induction n as [|n IH]; intros p body good bad s Hp Hn Hb; [left; split; [reflexivity|lia]|].
  simpl. destruct (Hb p ltac:(lia)) as [[Hg E]|(Hbad & k & q & E & -> & ->)]; rewrite E; simpl.
  - rewrite u64_small by (words; lia).
    destruct (IH (p + 1) body good bad s) as [[E' Hall]|(f & Hf & Hbf & E')]; try lia.
    + intros f Hf. apply Hb. lia.
    + left. split; [exact E'|]. intros f Hf. destruct (decide (f = p)) as [->|]; [assumption|]. apply Hall. lia.
    + right. exists f. split; [lia|auto].
  - right. exists p. split; [lia|auto].
Qed.

Lemma check_unowned_spec A s p k :
  core A s -> A !! p = Some (Held, k) ->
  (check_unowned p k s = Ret tt /\ unowned s p k) \/
  (exists f pg, in_block p k f /\ bs_pages (p_buddy s) !! f = Some pg /\
     pg_flags pg .& PAGE_F_OWNER_MASK <> 0 /\ check_unowned p k s = Bug PMM_BUG_OWNED_PAGE f).
Proof.
  intros Hc Hp. pose proof (rep_pages _ _ (c_rep _ _ Hc)) as Hpg.
  destruct (po_shape _ _ Hpg _ _ _ Hp) as (Hp0 & Hk & _). pose proof (pow2_pos k ltac:(lia)) as Hpos.
  assert (Hin : forall f, p <= f < p + 2 ^ k -> is_Some (bs_pages (p_buddy s) !! f)).
  { intros f Hf. destruct (po_page _ _ Hpg p Held k f) as (pg & E & _); [split; assumption|eauto]. }
  pose proof (backed_range _ _ _ Hc (Hin (p + 2 ^ k - 1) ltac:(lia))) as Hr.
  unfold check_unowned. rewrite shl1_u64 by (apply in_bits; assumption).
  destruct (for_frames_read (Z.to_nat (2 ^ k)) p
    (fun p _ => pg ← get_pg p s; if (pg_flags pg .& PAGE_F_OWNER_MASK) =? 0 then Ret tt else Bug PMM_BUG_OWNED_PAGE p)
    (fun f => forall pg, bs_pages (p_buddy s) !! f = Some pg -> pg_flags pg .& PAGE_F_OWNER_MASK = 0)
    (fun f => exists pg, bs_pages (p_buddy s) !! f = Some pg /\ pg_flags pg .& PAGE_F_OWNER_MASK <> 0) tt)
    as [[E Hall]|(f & Hf & (pg & Epg & Hfl) & E)]; try lia.
  - intros f Hf. destruct (Hin f ltac:(lia)) as [pg Epg]. unfold get_pg. rewrite Epg. simpl.
    destruct (Z.eqb_spec (pg_flags pg .& PAGE_F_OWNER_MASK) 0) as [E0|E0]; [left|right].
    + split; [intros pg' Epg'; simplify_eq; assumption|reflexivity].
    + split; [eauto|]. eauto 10.
  - left. split; [exact E|]. intros f pg Hf Epg. unfold in_block in Hf. apply (Hall f); [lia|assumption].
  - right. exists f, pg. unfold in_block. split; [lia|auto].
Qed.

Lemma floor_block f k : 0 <= k -> f .& not64 ((1 <<! k) - 1) = f - f mod 2 ^ k \/ ~ (is_u64 f /\ k < 64).
Proof.
  intros Hk. destruct (decide (is_u64 f /\ k < 64)) as [[Hf Hk64]|]; [left|auto].
  rewrite shl1_u64 by lia. apply land_high64; [assumption|lia].
Qed.

(** The loop over the candidate heads finds the free block around a frame. *)
Lemma covered_by_free_spec A s f n : forall k,
  core A s -> is_Some (bs_pages (p_buddy s) !! f) -> 0 <= k -> k + Z.of_nat n = PMM_ORDER_COUNT ->
  exists b, covered_by_free n k f s = Ret b /\
    (b = true <-> exists q j, k <= j /\ holds A q Free j f).
Proof.
  induction n as [|n IH]; intros k Hc Hf Hk Hn.
  - exists false. split; [reflexivity|]. split; [discriminate|]. intros (q & j & Hj & Hq & _). exfalso.
    destruct (po_shape _ _ (rep_pages _ _ (c_rep _ _ Hc)) _ _ _ Hq) as (_ & Hj' & _).
    unfold PMM_ORDER_COUNT in *. lia.
  - pose proof (backed_range _ _ _ Hc Hf) as Hr. pose proof (rep_pages _ _ (c_rep _ _ Hc)) as Hpg.
    assert (Hk10 : 0 <= k <= PMM_MAX_ORDER) by (unfold PMM_ORDER_COUNT in *; lia).
    simpl. destruct (floor_block f k Hk) as [->|Hno];
      [|exfalso; apply Hno; unfold PMM_MAX_ORDER in *; split; [words|]; lia].
    pose proof (pow2_pos k Hk) as Hpos. pose proof (Z.mod_pos_bound f (2 ^ k) Hpos) as Hmod.
    set (h := f - f mod 2 ^ k).
    assert (Hal : (2 ^ k | h)) by (exists (f / 2 ^ k); unfold h; pose proof (Z.div_mod f (2 ^ k)); lia).
    destruct (chunk_backed A s f h Hc Hf) as [pg Epg].
    { symmetry. apply (chunk_block h k); [assumption|assumption|unfold h; lia]. }
    unfold get_pg. rewrite Epg. simpl.
    destruct ((pg_state pg =? PAGE_STATE_BUDDY) && (k <=? pg_order pg)) eqn:Et.
    + exists true. split; [reflexivity|]. split; [intros _|reflexivity]. bprop.
      pose proof (state_head _ _ _ _ Free Hpg Epg ltac:(assumption) ltac:(discriminate)) as Hh.
      exists h, (pg_order pg). split; [assumption|]. split; [assumption|].
      assert (2 ^ k <= 2 ^ pg_order pg) by (apply Z.pow_le_mono_r; lia). unfold h in *. lia.
    + destruct (IH (k + 1) Hc Hf ltac:(lia) ltac:(lia)) as (b & E & Hb). exists b. split; [exact E|].
      rewrite Hb. split; [intros (q & j & ? & ?); exists q, j; split; [lia|assumption]|].
      intros (q & j & Hj & Hq). exists q, j. split; [|assumption].
      destruct (decide (j = k)) as [->|]; [exfalso|lia]. destruct Hq as [Hq Hqf].
      destruct (po_shape _ _ Hpg _ _ _ Hq) as (_ & _ & Haq & _).
      assert (q = h) as ->.
      { destruct (aligned_nested q k h k) as [? ?]; try assumption; unfold h in *; lia. }
      destruct (head_page _ _ _ _ _ Hpg Hq) as (pg' & Epg' & Hst).
      pose proof (po_order _ _ Hpg _ _ _ _ Hq ltac:(discriminate) Epg). simplify_eq.
      rewrite Hst, Z.eqb_refl, Z.leb_refl in Et. discriminate.
Qed.

(** What the diagnosis of a rejected free means. *)
Definition diagnosis (A : blocks) (s : Pmm) (page order : Z) (kind : PmmBugKind) (pfn : Z) : Prop :=
  match kind with
  | PMM_BUG_INVALID_PAGE => forall f, is_Some (bs_pages (p_buddy s) !! f) -> page <> pageFromPfn f
  | PMM_BUG_BAD_ORDER => page = pageFromPfn pfn /\ PMM_MAX_ORDER < order
  | PMM_BUG_MISALIGNED => page = pageFromPfn pfn /\ ~ (2 ^ order | pfn)
  | PMM_BUG_ORDER_MISMATCH => page = pageFromPfn pfn /\ exists k, A !! pfn = Some (Held, k) /\ k <> order
  | PMM_BUG_DOUBLE_FREE => page = pageFromPfn pfn /\
      exists q κ k, holds A q κ k pfn /\ (κ = Free \/ κ = Cached)
  | PMM_BUG_NOT_HEAD => page = pageFromPfn pfn /\ exists q k, holds A q Held k pfn /\ q <> pfn
  | PMM_BUG_RESERVED_FRAME => page = pageFromPfn pfn /\ forall q κ k, ~ holds A q κ k pfn
  | PMM_BUG_OWNED_PAGE => exists p pg, page = pageFromPfn p /\ A !! p = Some (Held, order) /\
      in_block p order pfn /\ bs_pages (p_buddy s) !! pfn = Some pg /\ pg_flags pg .& PAGE_F_OWNER_MASK <> 0
  | PMM_BUG_NONE | PMM_BUG_CORRUPT_STATE | PMM_BUG_POISON => False
  end.

(** The block of a page, from its state. *)
Lemma page_block A s f pg :
  core A s -> (forall p k, A !! p <> Some (Float, k)) -> bs_pages (p_buddy s) !! f = Some pg ->
  (exists κ, κ <> Float /\ pg_state pg = state_of κ /\ A !! f = Some (κ, pg_order pg)) \/
  (pg_state pg = PAGE_STATE_TAIL /\ exists q κ k, holds A q κ k f /\ q <> f) \/
  (pg_state pg = PAGE_STATE_RESERVED /\ forall q κ k, ~ holds A q κ k f).
Proof.
  intros Hc Hset Epg. pose proof (rep_pages _ _ (c_rep _ _ Hc)) as Hpg.
  destruct (decide (pg_state pg = PAGE_STATE_RESERVED)) as [Hr|Hr].
  - right. right. split; [assumption|]. intros q κ k Hh.
    destruct (po_page _ _ Hpg _ _ _ _ Hh) as (pg' & Epg' & Hst). simplify_eq. rewrite Hr in Hst.
    case_decide; [destruct κ|]; discriminate.
  - destruct (po_owned _ _ Hpg _ _ Epg Hr) as (q & κ & k & Hh).
    destruct (po_page _ _ Hpg _ _ _ _ Hh) as (pg' & Epg' & Hst). simplify_eq.
    case_decide as Hq; [subst q; left|right; left].
    + destruct Hh as [Hq _]. assert (κ <> Float) by (intros ->; eapply Hset; eassumption).
      exists κ. split; [assumption|]. split; [assumption|].
      rewrite (po_order _ _ Hpg _ _ _ _ Hq ltac:(assumption) Epg). assumption.
    + split; [assumption|]. exists q, κ, k. split; [assumption|congruence].
Qed.

Lemma aligned_mask pfn order : 0 <= order <= PMM_MAX_ORDER ->
  (pfn .& ((1 <<! order) -! 1)) = 0 <-> (2 ^ order | pfn).
Proof.
  intros Ho. pose proof (pow2_pos order ltac:(lia)).
  assert (2 ^ order <= 2 ^ 10) by (apply Z.pow_le_mono_r; unfold PMM_MAX_ORDER in *; lia).
  rewrite shl1_u64 by (apply in_bits; assumption). rewrite (u64_small (2 ^ order - 1)) by (words; lia).
  rewrite land_low by lia. split.
  - apply Z.mod_divide. lia.
  - apply Z.mod_divide. lia.
Qed.

Lemma page_address page :
  is_u64 page -> VM_PAGE_ARRAY_BASE <= page -> (page - VM_PAGE_ARRAY_BASE) mod sizeof_Page = 0 ->
  0 <= pageToPfn page /\ pageFromPfn (pageToPfn page) = page.
Proof.
  intros Hp Hb Hm. unfold pageToPfn, pageFromPfn, VM_PAGE_ARRAY_BASE, sizeof_Page in *.
  rewrite (u64_small (page - _)) by (words; lia). set (d := page - 0xFFFFE00000000000) in *.
  assert (Hd : d / 64 * 64 = d) by (pose proof (Z.div_mod d 64); lia).
  rewrite Hd, (u64_small d), (u64_small (_ + d)) by (unfold d; words; lia).
  split; [apply Z.div_pos; unfold d; lia|unfold d; lia].
Qed.

Lemma validate_diagnosis A s page order :
  core A s -> (forall p k, A !! p <> Some (Float, k)) -> is_u64 page -> 0 <= order < 2 ^ 32 ->
  match pmmValidateForFree page order s with
  | Ret pfn => page = pageFromPfn pfn /\ A !! pfn = Some (Held, order) /\ unowned s pfn order
  | Bug kind pfn => diagnosis A s page order kind pfn
  | _ => False
  end.
Proof.
  intros Hc Hset Hpage Hord. unfold pmmValidateForFree.
  assert (Hinv : (page < VM_PAGE_ARRAY_BASE \/ (page - VM_PAGE_ARRAY_BASE) mod sizeof_Page <> 0) ->
    diagnosis A s page order PMM_BUG_INVALID_PAGE 0).
  { intros Hbad f Hf ->. pose proof (backed_range _ _ _ Hc Hf) as Hr.
    destruct (pageFromPfn_small f Hr) as [E _]. rewrite E in Hbad. unfold sizeof_Page in Hbad.
    destruct Hbad as [?|Hm]; [lia|]. apply Hm.
    replace (VM_PAGE_ARRAY_BASE + 64 * f - VM_PAGE_ARRAY_BASE) with (f * 64) by lia. apply Z.mod_mul. lia. }
  destruct (Z.eqb_spec page 0) as [->|Hnz]; [apply Hinv; unfold VM_PAGE_ARRAY_BASE; lia|].
  destruct ((page <? VM_PAGE_ARRAY_BASE) || negb ((page - VM_PAGE_ARRAY_BASE) mod sizeof_Page =? 0)) eqn:Eb.
  { apply Hinv. apply orb_true_iff in Eb as [Eb|Eb]; bprop; auto. }
  apply orb_false_elim in Eb as [Eb1 Eb2]. apply Z.ltb_ge in Eb1. apply negb_false_iff, Z.eqb_eq in Eb2.
  destruct (page_address page Hpage Eb1 Eb2) as [Hpfn0 Epage]. set (pfn := pageToPfn page) in *. cbv zeta.
  destruct (c_spans _ _ Hc) as [Hsp Hlen]. destruct (pmmPfnValid_ok pfn s Hsp Hlen) as (v & Ev & Hv).
  rewrite Ev. cbn [mbind outcome_bind]. destruct v; simpl negb; cbv iota.
  2:{ intros f Hf Ef. pose proof (backed_range _ _ _ Hc Hf) as Hr.
      destruct (pageFromPfn_small f Hr) as [_ E2]. rewrite <- Ef in E2. fold pfn in E2. subst f.
      apply (c_backed _ _ Hc) in Hf. apply Hv in Hf. discriminate. }
  assert (Hin : in_spans (pm_spans (p_map s)) pfn) by (apply Hv; reflexivity).
  destruct (Z.ltb_spec PMM_MAX_ORDER order) as [Ho|Ho]; [split; congruence|].
  destruct (Z.eqb_spec (pfn .& ((1 <<! order) -! 1)) 0) as [Ea|Ea]; simpl negb; cbv iota.
  2:{ split; [congruence|]. rewrite <- aligned_mask by lia. assumption. }
  destruct (get_pg_ok A s pfn Hc Hin) as (pg & Eg & Epg). rewrite Eg. cbn [mbind outcome_bind].
  destruct (page_block A s pfn pg Hc Hset Epg) as [(κ & Hκ & Hst & HA)|[(Hst & q & κ & k & Hh & Hne)|(Hst & Hno)]];
    rewrite Hst.
  - pose proof (holds_head _ _ _ _ _ (rep_pages _ _ (c_rep _ _ Hc)) HA) as Hh.
    destruct κ; simpl Z.eqb; cbv iota; simpl orb; cbv iota; try contradiction.
    + split; [congruence|]. exists pfn, Free, (pg_order pg). auto.
    + split; [congruence|]. exists pfn, Cached, (pg_order pg). auto.
    + destruct (Z.eqb_spec (pg_order pg) order) as [Eo|Eo]; simpl negb; cbv iota.
      2:{ split; [congruence|]. eauto. }
      rewrite Eo in HA. destruct (check_unowned_spec A s pfn order Hc HA) as [[E Hu]|(f & pg' & Hf & Ef & Hfl & E)];
        rewrite E; simpl.
      * split; [congruence|auto].
      * exists pfn, pg'. split; [congruence|auto].
  - simpl Z.eqb. cbv iota. simpl orb. cbv iota.
    destruct (covered_by_free_spec A s pfn 11 0 Hc ltac:(eauto) ltac:(lia) eq_refl) as (b & Eb & Hb).
    rewrite Eb. cbn [mbind outcome_bind]. destruct b.
    + split; [congruence|]. destruct (proj1 Hb eq_refl) as (q' & j & _ & Hq'). exists q', Free, j. auto.
    + split; [congruence|]. destruct Hh as [Hq Hr]. destruct κ.
      * exfalso. enough (false = true) by discriminate. apply Hb. exists q, k. split; [|split; assumption].
        apply (po_shape _ _ (rep_pages _ _ (c_rep _ _ Hc)) _ _ _ Hq).
      * exfalso. destruct (po_shape _ _ (rep_pages _ _ (c_rep _ _ Hc)) _ _ _ Hq) as (_ & _ & _ & E0).
        rewrite E0 in Hr by reflexivity. lia.
      * exists q, k. split; [split; assumption|assumption].
      * exfalso. eapply Hset. eassumption.
  - simpl Z.eqb. cbv iota. simpl orb. cbv iota. split; [congruence|assumption].
Qed.

(** ** Moves between the free lists and the caches *)

(** Replaces the page array, the lists and the cache counters. *)
Definition reshape (s : Pmm) (ps : gmap Z Page) (l : Head -> list Z) (c : PmmZoneId -> Z) : Pmm :=
  mkPmm (p_map s) (p_early s) (p_hhdmBase s) (mkBuddy ps l (bs_zone (p_buddy s))) c
    (p_pageArrayPages s) (p_pageTablePages s) (p_reclaimedPages s) (p_acpiReclaimedPages s)
    (p_loaderReclaimDone s) (p_acpiReclaimDone s) (p_mem s).

Definition available (A : blocks) (f : Z) : Prop :=
  exists p κ k, holds A p κ k f /\ (κ = Free \/ κ = Cached).

Definition cached_frame (A : blocks) (f : Z) : Prop := exists p k, holds A p Cached k f.

Lemma available_iff A f : available A f <-> free_frame A f \/ cached_frame A f.
Proof.
  unfold available, free_frame, cached_frame. split.
  - intros (p & κ & k & Hh & [->| ->]); eauto.
  - intros [(p & k & Hh)|(p & k & Hh)]; eauto 6.
Qed.

(** Retagging one block, as seen by the free and the cached frames. *)
Lemma frames_retag κ0 (A : blocks) p κ κ' k f :
  A !! p = Some (κ, k) ->
  (exists q j, holds (<[p := (κ', k)]> A) q κ0 j f) <->
  (exists q j, q <> p /\ holds A q κ0 j f) \/ (κ' = κ0 /\ in_block p k f).
Proof.
  intros Hp. unfold holds. split.
  - intros (q & j & Hq & Hf). rewrite lookup_insert in Hq. case_decide; [subst|].
    + simplify_eq. right. split; [reflexivity|exact Hf].
    + left. exists q, j. auto.
  - intros [(q & j & Hne & Hq & Hf)|[-> Hf]].
    + exists q, j. rewrite lookup_insert_ne by congruence. auto.
    + exists p, k. rewrite lookup_insert_eq. auto.
Qed.

Lemma frames_other κ0 (A : blocks) p κ k f :
  A !! p = Some (κ, k) ->
  (exists q j, holds A q κ0 j f) <-> (exists q j, q <> p /\ holds A q κ0 j f) \/ (κ = κ0 /\ in_block p k f).
Proof.
  intros Hp. rewrite <- (frames_retag κ0 A p κ κ k f Hp). rewrite insert_id by assumption. reflexivity.
Qed.

Lemma taken_cached A p k A' f : taken A p k A' -> cached_frame A' f <-> cached_frame A f.
Proof.
  intros Ht. destruct (tk_was _ _ _ _ Ht) as (j & _ & Hp). pose proof (tk_float _ _ _ _ Ht) as Hp'.
  unfold cached_frame, holds. split; intros (q & i & Hq & Hf); exists q, i; (split; [|assumption]);
    (eapply (tk_others _ _ _ _ Ht); [discriminate|congruence|assumption]).
Qed.

Lemma freed_cached A p k A' f :
  freed A p k A' -> A !! p = Some (Float, k) -> cached_frame A' f <-> cached_frame A f.
Proof.
  intros Hf Hp. unfold cached_frame, holds. split; intros (q & i & Hq & Hr); exists q, i; (split; [|assumption]).
  - eapply (fr_others _ _ _ _ Hf); [discriminate|assumption].
  - eapply (fr_others _ _ _ _ Hf); [discriminate|]. split; [congruence|assumption].
Qed.

Lemma coalesced_retag A p κ k : κ <> Free -> coalesced A -> coalesced (<[p := (κ, k)]> A).
Proof.
  intros Hκ Hco q j Hq Hj Hb. rewrite lookup_insert in Hq, Hb. repeat case_decide; try congruence.
  exact (Hco q j Hq Hj Hb).
Qed.

Lemma is_Some_flags (ps ps' : gmap Z Page) q :
  pg_flags <$> ps' !! q = pg_flags <$> ps !! q -> is_Some (ps' !! q) <-> is_Some (ps !! q).
Proof. destruct (ps' !! q), (ps !! q); simpl; intros H; split; intros [? ?]; simplify_eq; eauto. Qed.

Lemma core_retag A s p κ κ' k pg' l' c' :
  core A s -> A !! p = Some (κ, k) ->
  pg_state pg' = state_of κ' -> pg_order pg' = (if decide (κ' = Float) then 0 else k) -> (κ' = Cached -> k = 0) -> κ' <> Free ->
  lists_ok (<[p := (κ', k)]> A) l' ->
  (forall z j, l' (FreeList z j) = bs_list (p_buddy s) (FreeList z j)) ->
  (forall z, c' z = zlen (l' (CacheList z))) ->
  core (<[p := (κ', k)]> A) (reshape s (<[p := pg']> (bs_pages (p_buddy s))) l' c').
Proof.
  intros [[Hpg Hl Hcnt] Hco Hled Hca Hbk Hsp Hh] Hp Hst Hor Hcz Hκ Hl' Hfree Hc'.
  destruct (head_page _ _ _ _ _ Hpg Hp) as (pg & Epg & _).
  split; simpl; try assumption.
  - split; simpl; [eapply pages_retag; eassumption|assumption|].
    intros z j Hj. rewrite Hfree. apply Hcnt, Hj.
  - apply coalesced_retag; assumption.
  - intros z. simpl. rewrite Hled. f_equal. symmetry. apply free_sum_same. intros j. rewrite Hfree. reflexivity.
  - intros q. rewrite lookup_insert_is_Some', <- Hbk. split; [|auto]. intros [<-|?]; [eauto|assumption].
Qed.

(** The parts of the state no allocator operation touches. *)
Definition same_env (s s' : Pmm) : Prop :=
  p_map s' = p_map s /\ p_early s' = p_early s /\ p_hhdmBase s' = p_hhdmBase s /\ p_mem s' = p_mem s /\
  p_reclaimedPages s' = p_reclaimedPages s /\ p_acpiReclaimedPages s' = p_acpiReclaimedPages s.

#[global] Instance same_env_preorder : PreOrder same_env.
Proof.
  split; [intros s; repeat split|].
  intros a b c (? & ? & ? & ? & ? & ?) (? & ? & ? & ? & ? & ?). repeat split; congruence.
Qed.

(** What internal moves keep: the blocks clients hold, the frames that are
    available, the page flags, the totals, and everything outside the allocator. *)
Record shuffle (A : blocks) (s : Pmm) (A' : blocks) (s' : Pmm) : Prop := {
  sh_core : core A' s';
  sh_others : forall p κ k, κ = Held \/ κ = Float -> A' !! p = Some (κ, k) <-> A !! p = Some (κ, k);
  sh_available : forall f, available A' f <-> available A f;
  sh_flags : forall q, pg_flags <$> bs_pages (p_buddy s') !! q = pg_flags <$> bs_pages (p_buddy s) !! q;
  sh_total : forall z, free_sum (bs_list (p_buddy s')) z + p_cacheCount s' z =
                       free_sum (bs_list (p_buddy s)) z + p_cacheCount s z;
  sh_managed : forall z, zn_managedPages (bs_zone (p_buddy s') z) = zn_managedPages (bs_zone (p_buddy s) z);
  sh_env : same_env s s'
}.


Lemma shuffle_refl A s : core A s -> shuffle A s A s.
Proof. intros Hc. split; try reflexivity. assumption. Qed.

Lemma shuffle_trans A s A1 s1 A2 s2 : shuffle A s A1 s1 -> shuffle A1 s1 A2 s2 -> shuffle A s A2 s2.
Proof.
  intros [? O1 V1 F1 T1 M1 E1] [? O2 V2 F2 T2 M2 E2]. split; try assumption.
  - intros p κ k Hκ. rewrite O2, O1 by assumption. reflexivity.
  - intros f. rewrite V2. apply V1.
  - intros q. rewrite F2. apply F1.
  - intros z. rewrite T2. apply T1.
  - intros z. rewrite M2. apply M1.
  - etransitivity; eassumption.
Qed.

(** The cache counter after a push or a pop. *)
Lemma cache_counts (l l' : Head -> list Z) (c : PmmZoneId -> Z) z d :
  (forall z, c z = zlen (l (CacheList z))) ->
  (forall z', z' <> z -> l' (CacheList z') = l (CacheList z')) ->
  zlen (l' (CacheList z)) = zlen (l (CacheList z)) + d -> zlen (l' (CacheList z)) < 2 ^ 32 ->
  forall z', (<[z := u32 (c z + d)]> c) z' = zlen (l' (CacheList z')).
Proof.
  intros Hc Ho Hd Hb z'. destruct (decide (z = z')) as [<-|Hne].
  - rewrite fn_lookup_insert, Hc, <- Hd. apply u32_small. split; [apply zlen_nonneg|assumption].
  - rewrite fn_lookup_insert_ne, Ho by congruence. apply Hc.
Qed.

Lemma free_sum_lists (l l' : Head -> list Z) z :
  (forall k, l' (FreeList z k) = l (FreeList z k)) -> free_sum l' z = free_sum l z.
Proof. intros H. apply free_sum_same. intros k. rewrite H. reflexivity. Qed.

Lemma quiet_managed z d st st' :
  quiet (upd_zone z (zone_add_free d) st) st' ->
  forall z', zn_managedPages (bs_zone st' z') = zn_managedPages (bs_zone st z').
Proof.
  intros Hq z'. pose proof (q_zone _ _ Hq z') as H. injection H as _ H _ _. rewrite H.
  unfold upd_zone. simpl. unfold insert, fn_insert. case_decide; subst; reflexivity.
Qed.

(** What a call of the buddy core leaves alone. *)
Record buddy_frame (s : Pmm) (b : BuddyState) : Prop := {
  bf_flags : forall q, pg_flags <$> bs_pages b !! q = pg_flags <$> bs_pages (p_buddy s) !! q;
  bf_cache : forall z, bs_list b (CacheList z) = bs_list (p_buddy s) (CacheList z);
  bf_managed : forall z, zn_managedPages (bs_zone b z) = zn_managedPages (bs_zone (p_buddy s) z)
}.

Lemma core_with_buddy A s A' b :
  core A s -> represents A' b -> coalesced A' -> ledger b -> buddy_frame s b -> core A' (with_buddy b s).
Proof.
  intros [_ _ _ Hca Hbk Hsp Hh] Hr Hco Hl Hbf. split; simpl; try assumption.
  - intros z. rewrite (bf_cache _ _ Hbf). apply Hca.
  - intros q. rewrite <- Hbk. apply is_Some_flags, (bf_flags _ _ Hbf).
Qed.

Lemma core_buddyFree A s p k :
  core A s -> A !! p = Some (Float, k) ->
  exists b A', buddyFreeBlock (pmmZoneOfPfn p) p k (p_buddy s) = Some b /\ core A' (with_buddy b s) /\
    freed A p k A' /\ buddy_frame s b /\
    forall z, free_sum (bs_list b) z =
              free_sum (bs_list (p_buddy s)) z + (if decide (z = pmmZoneOfPfn p) then 2 ^ k else 0).
Proof.
  intros Hc Hp. destruct (buddyFreeBlock_rep A (p_buddy s) p k (c_rep _ _ Hc) Hp) as (b & A' & E & Hr & Hf & Hq & Hs).
  assert (Hbf : buddy_frame s b).
  { split; [apply (q_flags _ _ Hq)|apply (q_cache _ _ Hq)|apply (quiet_managed _ _ _ _ Hq)]. }
  exists b, A'. split; [exact E|]. split; [|auto].
  eapply core_with_buddy; try eassumption.
  - apply (fr_coalesced _ _ _ _ Hf), (c_coalesced _ _ Hc).
  - eapply ledger_step; [exact Hq|exact Hs|apply (c_ledger _ _ Hc)].
Qed.

Lemma core_buddyAlloc A s z order :
  core A s -> 0 <= order <= PMM_MAX_ORDER ->
  (exists p b A', buddyAllocBlock z order (p_buddy s) = Some (Some p, b) /\ core A' (with_buddy b s) /\
     taken A p order A' /\ pmmZoneOfPfn p = z /\ buddy_frame s b /\
     forall z', free_sum (bs_list b) z' =
                free_sum (bs_list (p_buddy s)) z' - (if decide (z' = z) then 2 ^ order else 0)) \/
  (buddyAllocBlock z order (p_buddy s) = Some (None, p_buddy s) /\
   forall p k, A !! p = Some (Free, k) -> pmmZoneOfPfn p = z -> k < order).
Proof.
  intros Hc Ho. destruct (buddyAllocBlock_rep A (p_buddy s) z order (c_rep _ _ Hc) Ho)
    as [(p & b & A' & E & Hr & Ht & Hz & Hq & Hs)|[E Hn]]; [left|right; auto].
  assert (Hbf : buddy_frame s b).
  { split; [apply (q_flags _ _ Hq)|apply (q_cache _ _ Hq)|apply (quiet_managed _ _ _ _ Hq)]. }
  exists p, b, A'. split; [exact E|]. split; [|auto].
  eapply core_with_buddy; try eassumption.
  - apply (tk_coalesced _ _ _ _ Ht), (c_coalesced _ _ Hc).
  - eapply ledger_step; [exact Hq| |apply (c_ledger _ _ Hc)]. intros z'. rewrite Hs. case_decide; lia.
Qed.

(** *** Retagging one page *)

Lemma upd_pg_ok A s p κ k f :
  core A s -> A !! p = Some (κ, k) ->
  exists pg, bs_pages (p_buddy s) !! p = Some pg /\
    upd_pg p f s = Ret (reshape s (<[p := f pg]> (bs_pages (p_buddy s))) (bs_list (p_buddy s)) (p_cacheCount s)).
Proof.
  intros Hc Hp. destruct (head_page _ _ _ _ _ (rep_pages _ _ (c_rep _ _ Hc)) Hp) as (pg & Epg & _).
  exists pg. split; [exact Epg|]. unfold upd_pg, upd_page. rewrite Epg. reflexivity.
Qed.

(** Only the kinds of listed blocks matter to the lists. *)
Lemma lists_unlisted A l p κ κ' k :
  lists_ok A l -> A !! p = Some (κ, k) -> (κ = Held \/ κ = Float) -> (κ' = Held \/ κ' = Float) ->
  lists_ok (<[p := (κ', k)]> A) l.
Proof.
  intros Hl Hp H1 H2. eapply lists_same; [exact Hl|]. intros q κ'' j Hκ. rewrite lookup_insert.
  case_decide; [subst q|reflexivity]. rewrite Hp.
  destruct H1, H2, Hκ; subst; split; congruence.
Qed.

(** A page in hand goes to the front of its zone's cache. *)
Lemma core_cache_push A s p κ f :
  core A s -> A !! p = Some (κ, 0) -> κ = Held \/ κ = Float ->
  p_cacheCount s (pmmZoneOfPfn p) < 2 ^ 32 - 1 ->
  (forall pg, pg_state (f pg) = PAGE_STATE_PCP) ->
  (forall pg, bs_pages (p_buddy s) !! p = Some pg -> pg_order (f pg) = 0) ->
  let z := pmmZoneOfPfn p in
  exists s1 s2, upd_pg p f s = Ret s1 /\
    s2 = with_cache z 1 (with_buddy (listPushHead (CacheList z) p (p_buddy s1)) s1) /\
    core (<[p := (Cached, 0)]> A) s2 /\
    p_cacheCount s2 = <[z := p_cacheCount s z + 1]> (p_cacheCount s) /\
    (forall z', free_sum (bs_list (p_buddy s2)) z' = free_sum (bs_list (p_buddy s)) z') /\
    bs_zone (p_buddy s2) = bs_zone (p_buddy s) /\
    (exists pg, bs_pages (p_buddy s) !! p = Some pg /\ bs_pages (p_buddy s2) = <[p := f pg]> (bs_pages (p_buddy s))) /\
    same_env s s2.
Proof.
  intros Hc Hp Hκ Hcnt Hst Hor z. destruct (upd_pg_ok A s p κ 0 f Hc Hp) as (pg & Epg & E).
  eexists _, _. split; [exact E|]. split; [reflexivity|].
  set (l := bs_list (p_buddy s)). set (l' := <[CacheList z := p :: l (CacheList z)]> l).
  set (c' := <[z := u32 (p_cacheCount s z + 1)]> (p_cacheCount s)).
  assert (Ec : c' = <[z := p_cacheCount s z + 1]> (p_cacheCount s)).
  { unfold c'. rewrite u32_small; [reflexivity|]. rewrite (c_cache _ _ Hc) in *. pose proof (zlen_nonneg (bs_list (p_buddy s) (CacheList z))). words. fold z in Hcnt. lia. }
  change (with_cache z 1 _) with (reshape s (<[p := f pg]> (bs_pages (p_buddy s))) l' c').
  split; [|split; [exact Ec|split; [|split; [reflexivity|split; [eexists; split; [exact Epg|reflexivity]|repeat split]]]]].
  - eapply core_retag; try eassumption; try reflexivity; try discriminate.
    + apply Hst.
    + apply Hor, Epg.
    + rewrite <- (insert_insert_eq A p (Cached, 0) (Float, 0)). apply lists_push; try reflexivity.
      * eapply lists_unlisted; [apply (rep_lists _ _ (c_rep _ _ Hc))|exact Hp|assumption|auto].
      * apply lookup_insert_eq.
    + apply (cache_counts l); [apply (c_cache _ _ Hc)|..].
      * intros z' Hz'. unfold l'. rewrite fn_lookup_insert_ne by congruence. reflexivity.
      * unfold l'. rewrite fn_lookup_insert, zlen_cons. lia.
      * unfold l'. rewrite fn_lookup_insert, zlen_cons. rewrite (c_cache _ _ Hc) in Hcnt. fold l z in Hcnt. lia.
  - intros z'. simpl. apply free_sum_lists. intros j. unfold l'. rewrite fn_lookup_insert_ne by discriminate. reflexivity.
Qed.

(** *** Filling the cache *)

Lemma taken_pushed A p A' :
  taken A p 0 A' ->
  (forall q κ k, κ = Held \/ κ = Float -> <[p := (Cached, 0)]> A' !! q = Some (κ, k) <-> A !! q = Some (κ, k)) /\
  (forall f, available (<[p := (Cached, 0)]> A') f <-> available A f).
Proof.
  intros Ht. pose proof (tk_float _ _ _ _ Ht) as Hp'. destruct (tk_was _ _ _ _ Ht) as (j & _ & Hp). split.
  - intros q κ k Hκ. rewrite lookup_insert. case_decide as Hq.
    + subst q. rewrite Hp. destruct Hκ; subst; split; congruence.
    + apply (tk_others _ _ _ _ Ht); [destruct Hκ; subst; discriminate|congruence].
  - intros f. rewrite !available_iff, (tk_frames _ _ _ _ Ht), <- (taken_cached _ _ _ _ f Ht).
    unfold free_frame, cached_frame.
    rewrite (frames_retag Free _ _ _ _ _ f Hp'), (frames_retag Cached _ _ _ _ _ f Hp').
    rewrite (frames_other Free _ _ _ _ f Hp'), (frames_other Cached _ _ _ _ f Hp').
    intuition congruence.
Qed.

Lemma refill_step A s z :
  core A s -> p_cacheCount s z < 2 ^ 32 - 1 ->
  (exists p b s1 s2 A', buddyAllocBlock z 0 (p_buddy s) = Some (Some p, b) /\
     upd_pg p (set_state PAGE_STATE_PCP) (with_buddy b s) = Ret s1 /\
     s2 = with_cache z 1 (with_buddy (listPushHead (CacheList z) p (p_buddy s1)) s1) /\
     shuffle A s A' s2 /\ p_cacheCount s2 = <[z := p_cacheCount s z + 1]> (p_cacheCount s)) \/
  (buddyAllocBlock z 0 (p_buddy s) = Some (None, p_buddy s) /\
   forall p k, A !! p = Some (Free, k) -> pmmZoneOfPfn p <> z).
Proof.
  intros Hc Hcnt. destruct (core_buddyAlloc A s z 0 Hc) as [(p & b & A' & E & Hc' & Ht & Hz & Hbf & Hs)|[E Hn]].
  { unfold PMM_MAX_ORDER. lia. }
  - left. pose proof (tk_float _ _ _ _ Ht) as Hp'.
    destruct (head_page _ _ _ _ _ (rep_pages _ _ (c_rep _ _ Hc')) Hp') as (pg & Epg & Hst).
    destruct (core_cache_push A' (with_buddy b s) p Float (set_state PAGE_STATE_PCP) Hc' Hp')
      as (s1 & s2 & E1 & E2 & Hc2 & Ecnt & Hfs & Hzn & (pg' & Epg' & Eps) & Henv); auto.
    { rewrite Hz. exact Hcnt. }
    { intros pg' Epg'. simplify_eq. simpl. apply (po_zero _ _ (rep_pages _ _ (c_rep _ _ Hc')) p); auto. }
    rewrite Hz in E2, Ecnt. exists p, b, s1, s2, (<[p := (Cached, 0)]> A').
    split; [exact E|]. split; [exact E1|]. split; [exact E2|]. split; [|exact Ecnt].
    destruct (taken_pushed A p A' Ht) as [Ho Ha]. simpl in Hfs, Hzn, Eps, Ecnt.
    split; try assumption.
    + intros q. rewrite Eps. rewrite <- (bf_flags _ _ Hbf q).
      apply (upd_page_flags p (set_state PAGE_STATE_PCP)); [exact Epg'|reflexivity].
    + intros z'. rewrite Hfs, Hs, Ecnt. unfold insert, fn_insert. repeat case_decide; subst; try lia; congruence.
    + intros z'. rewrite Hzn. apply (bf_managed _ _ Hbf).
  - right. split; [exact E|]. intros p k Hp Hz. specialize (Hn p k Hp Hz).
    destruct (po_shape _ _ (rep_pages _ _ (c_rep _ _ Hc)) _ _ _ Hp) as (_ & ? & _). lia.
Qed.

Lemma cache_refill_spec n z : forall A s,
  core A s -> p_cacheCount s z + Z.of_nat n < 2 ^ 32 - 1 ->
  exists A' s', cache_refill n z s = Ret s' /\ shuffle A s A' s' /\
    (forall z', z' <> z -> p_cacheCount s' z' = p_cacheCount s z') /\
    p_cacheCount s z <= p_cacheCount s' z <= p_cacheCount s z + Z.of_nat n /\
    (p_cacheCount s' z = p_cacheCount s z -> n = O \/
       (A' = A /\ s' = s /\ forall p k, A !! p = Some (Free, k) -> pmmZoneOfPfn p <> z)).
Proof.
  induction n as [|n IH]; intros A s Hc Hcnt.
  - exists A, s. simpl. split; [reflexivity|]. split; [apply shuffle_refl, Hc|]. repeat split; auto; lia.
  - simpl. destruct (refill_step A s z Hc ltac:(lia))
      as [(p & b & s1 & s2 & A1 & E & E1 & E2 & Hsh & Ecnt)|[E Hn]]; rewrite E; cbn [access mbind outcome_bind].
    + rewrite E1. cbn [mbind outcome_bind]. rewrite <- E2.
      assert (Ez : p_cacheCount s2 z = p_cacheCount s z + 1) by (rewrite Ecnt; apply fn_lookup_insert).
      destruct (IH A1 s2 (sh_core _ _ _ _ Hsh)) as (A' & s' & E' & Hsh' & Ho & Hb & Hstop); [lia|].
      exists A', s'. split; [exact E'|]. split; [eapply shuffle_trans; eassumption|]. split.
      { intros z' Hz'. rewrite Ho, Ecnt, fn_lookup_insert_ne by congruence. reflexivity. }
      split; [lia|]. intros Heq. lia.
    + exists A, s. assert (Eid : with_buddy (p_buddy s) s = s) by (destruct s; reflexivity). rewrite Eid.
      split; [reflexivity|]. split; [apply shuffle_refl, Hc|]. split; [auto|]. split; [lia|]. auto.
Qed.

(** *** Emptying the cache *)

(** Taking a page off its cache list, with its first page rewritten by [f]. *)
Lemma core_cache_pop A s p κ f :
  core A s -> A !! p = Some (Cached, 0) -> κ = Held \/ κ = Float ->
  p_cacheCount s (pmmZoneOfPfn p) < 2 ^ 32 ->
  (forall pg, pg_state (f pg) = state_of κ) -> (forall pg, pg_order pg = 0 -> pg_order (f pg) = 0) ->
  let z := pmmZoneOfPfn p in
  let s0 := with_cache z (-1) (with_buddy (listRemove p (p_buddy s)) s) in
  exists pg s1, upd_pg p f s0 = Ret s1 /\ bs_pages (p_buddy s) !! p = Some pg /\
    bs_pages (p_buddy s1) = <[p := f pg]> (bs_pages (p_buddy s)) /\
    core (<[p := (κ, 0)]> A) s1 /\
    p_cacheCount s1 = <[z := p_cacheCount s z - 1]> (p_cacheCount s) /\ 0 < p_cacheCount s z /\
    (forall z', free_sum (bs_list (p_buddy s1)) z' = free_sum (bs_list (p_buddy s)) z') /\
    bs_zone (p_buddy s1) = bs_zone (p_buddy s) /\ same_env s s1.
Proof.
  intros Hc Hp Hκ Hcnt Hst Hor z s0. pose proof (rep_lists _ _ (c_rep _ _ Hc)) as Hl.
  destruct (head_page _ _ _ _ _ (rep_pages _ _ (c_rep _ _ Hc)) Hp) as (pg & Epg & _).
  pose proof (po_order _ _ (rep_pages _ _ (c_rep _ _ Hc)) _ _ _ _ Hp ltac:(discriminate) Epg) as Eor.
  set (l := bs_list (p_buddy s)). set (l' := fun h => filter (.≠ p) (l h)).
  assert (Hin : p ∈ l (CacheList z)) by (apply (lo_listed _ _ Hl); split; auto).
  assert (Hlen : zlen (l' (CacheList z)) = zlen (l (CacheList z)) + -1).
  { unfold l'. rewrite zlen_filter_out by apply (lo_nodup _ _ Hl). rewrite decide_True by assumption. lia. }
  assert (Hout : forall h, h <> CacheList z -> l' h = l h).
  { intros h Hh. apply filter_out_id. intros Hi. apply (lo_listed _ _ Hl) in Hi.
    apply (listed_home _ _ _ _ _ Hp) in Hi; [|reflexivity]. simpl in Hi. apply Hh. unfold z. congruence. }
  pose proof (c_cache _ _ Hc z) as Hcz. fold l in Hcz.
  pose proof (zlen_nonneg (l' (CacheList z))) as Hnn.
  set (c' := <[z := u32 (p_cacheCount s z + -1)]> (p_cacheCount s)).
  exists pg, (reshape s (<[p := f pg]> (bs_pages (p_buddy s))) l' c').
  assert (Ec : c' = <[z := p_cacheCount s z - 1]> (p_cacheCount s)).
  { unfold c'. rewrite u32_small; [f_equal; lia|]. fold z in Hcnt. words. lia. }
  split; [unfold upd_pg, upd_page; simpl; rewrite Epg; reflexivity|]. split; [exact Epg|].
  split; [reflexivity|]. split; [|split; [exact Ec|split; [lia|split; [|split; [reflexivity|repeat split]]]]].
  - eapply core_retag; try eassumption.
    + apply Hst.
    + rewrite (Hor pg Eor). destruct Hκ as [->| ->]; reflexivity.
    + reflexivity.
    + destruct Hκ; congruence.
    + destruct Hκ as [->| ->]; [|eapply lists_remove; eassumption].
      rewrite <- (insert_insert_eq A p (Held, 0) (Float, 0)).
      eapply (lists_unlisted _ _ _ Float); [eapply lists_remove; eassumption|apply lookup_insert_eq|auto..].
    + intros z' j. apply Hout. discriminate.
    + apply (cache_counts l); [apply (c_cache _ _ Hc)| |assumption|fold z in Hcnt; lia].
      intros z' Hz'. apply Hout. congruence.
  - intros z'. apply free_sum_lists. intros j. apply Hout. discriminate.
Qed.

Lemma cache_return_spec A s p :
  let z := pmmZoneOfPfn p in
  core A s -> A !! p = Some (Cached, 0) -> p_cacheCount s z < 2 ^ 32 ->
  exists A' s', cache_return z p (with_buddy (listRemove p (p_buddy s)) s) = Ret s' /\ shuffle A s A' s' /\
    p_cacheCount s' = <[z := p_cacheCount s z - 1]> (p_cacheCount s).
Proof.
  intros z Hc Hp Hcnt. unfold cache_return.
  destruct (core_cache_pop A s p Float (set_state PAGE_STATE_TAIL) Hc Hp (or_intror eq_refl) Hcnt)
    as (pg & s1 & E1 & Epg & Eps & Hc1 & Ecnt & Hpos & Hfs & Hzn & Henv); auto.
  fold z in E1, Ecnt. rewrite E1. cbn [mbind outcome_bind].
  destruct (core_buddyFree _ s1 p 0 Hc1 (lookup_insert_eq _ _ _)) as (b & A' & E & Hc' & Hf & Hbf & Hs).
  fold z in E. rewrite E. cbn [access mbind outcome_bind].
  exists A', (with_buddy b s1). split; [reflexivity|]. split; [|exact Ecnt].
  split; simpl; try assumption.
  - intros q κ k Hκ. rewrite (fr_others _ _ _ _ Hf) by (destruct Hκ; subst; discriminate).
    rewrite lookup_insert. destruct (decide (p = q)) as [<-|Hne].
    + rewrite Hp. split; [tauto|]. destruct Hκ; congruence.
    + split; [tauto|]. intros ?. split; [congruence|assumption].
  - intros f. rewrite !available_iff, (fr_frames _ _ _ _ Hf), (freed_cached _ _ _ _ f Hf) by apply lookup_insert_eq.
    unfold free_frame, cached_frame.
    rewrite (frames_retag Free _ _ _ _ _ f Hp), (frames_retag Cached _ _ _ _ _ f Hp).
    rewrite (frames_other Free _ _ _ _ f Hp), (frames_other Cached _ _ _ _ f Hp).
    intuition congruence.
  - intros q. rewrite (bf_flags _ _ Hbf), Eps.
    apply (upd_page_flags p (set_state PAGE_STATE_TAIL)); [exact Epg|reflexivity].
  - intros z'. rewrite Hs, Hfs, Ecnt. fold z. unfold insert, fn_insert. repeat case_decide; subst; try lia; congruence.
  - intros z'. rewrite (bf_managed _ _ Hbf), Hzn. reflexivity.
Qed.

(** The two ends of a cache list. *)
Lemma cache_member A s z p : core A s -> p ∈ bs_list (p_buddy s) (CacheList z) ->
  A !! p = Some (Cached, 0) /\ pmmZoneOfPfn p = z.
Proof. intros Hc Hin. apply (lo_listed _ _ (rep_lists _ _ (c_rep _ _ Hc)) (CacheList z) p), Hin. Qed.

Lemma cache_trim_spec n z : forall A s,
  core A s -> p_cacheCount s z < 2 ^ 32 ->
  exists A' s', cache_trim n z s = Ret s' /\ shuffle A s A' s' /\
    p_cacheCount s' z = Z.max 0 (p_cacheCount s z - Z.of_nat n) /\
    (forall z', z' <> z -> p_cacheCount s' z' = p_cacheCount s z').
Proof.
  induction n as [|n IH]; intros A s Hc Hcnt.
  - exists A, s. split; [reflexivity|]. split; [apply shuffle_refl, Hc|]. split; [|auto].
    rewrite (c_cache _ _ Hc). pose proof (zlen_nonneg (bs_list (p_buddy s) (CacheList z))). lia.
  - simpl. unfold listPopTail. destruct (last (bs_list (p_buddy s) (CacheList z))) as [p|] eqn:El.
    + assert (Hin : p ∈ bs_list (p_buddy s) (CacheList z)).
      { apply last_Some in El as [l' ->]. apply elem_of_app. right. apply list_elem_of_singleton. reflexivity. }
      destruct (cache_member A s z p Hc Hin) as [Hp Hz]. subst z.
      destruct (cache_return_spec A s p Hc Hp Hcnt) as (A1 & s1 & E1 & Hsh1 & Ec1).
      rewrite E1. cbn [mbind outcome_bind].
      assert (Ez : p_cacheCount s1 (pmmZoneOfPfn p) = p_cacheCount s (pmmZoneOfPfn p) - 1)
        by (rewrite Ec1; apply fn_lookup_insert).
      assert (Hpos : 0 < p_cacheCount s (pmmZoneOfPfn p)).
      { rewrite (c_cache _ _ Hc). unfold zlen. destruct (bs_list (p_buddy s) (CacheList (pmmZoneOfPfn p))); [inversion Hin|simpl; lia]. }
      destruct (IH A1 s1 (sh_core _ _ _ _ Hsh1) ltac:(lia)) as (A' & s' & E' & Hsh' & Hc' & Ho').
      exists A', s'. split; [exact E'|]. split; [eapply shuffle_trans; eassumption|]. split; [lia|].
      intros z' Hz'. rewrite Ho', Ec1, fn_lookup_insert_ne by congruence. reflexivity.
    + assert (Enil : bs_list (p_buddy s) (CacheList z) = []).
      { destruct (list_snoc_cases (bs_list (p_buddy s) (CacheList z))) as [E|(k & x & E)]; [exact E|].
        rewrite E, last_snoc in El. discriminate. }
      exists A, s. split; [reflexivity|]. split; [apply shuffle_refl, Hc|]. split; [|auto].
      rewrite (c_cache _ _ Hc), Enil. change (zlen []) with 0. lia.
Qed.

Lemma drain_zone_spec n z : forall A s,
  core A s -> p_cacheCount s z < 2 ^ 32 -> p_cacheCount s z < Z.of_nat n ->
  exists A' s', drain_zone n z s = Ret s' /\ shuffle A s A' s' /\ p_cacheCount s' z = 0 /\
    (forall z', z' <> z -> p_cacheCount s' z' = p_cacheCount s z').
Proof.
  induction n as [|n IH]; intros A s Hc Hcnt Hn.
  { rewrite (c_cache _ _ Hc) in Hn. pose proof (zlen_nonneg (bs_list (p_buddy s) (CacheList z))). lia. }
  simpl. unfold listPopHead. destruct (bs_list (p_buddy s) (CacheList z)) as [|p l] eqn:El.
  - exists A, s. split; [reflexivity|]. split; [apply shuffle_refl, Hc|]. split; [|auto].
    rewrite (c_cache _ _ Hc), El. reflexivity.
  - assert (Hin : p ∈ bs_list (p_buddy s) (CacheList z)) by (rewrite El; apply elem_of_cons; auto).
    destruct (cache_member A s z p Hc Hin) as [Hp Hz]. subst z.
    destruct (cache_return_spec A s p Hc Hp Hcnt) as (A1 & s1 & E1 & Hsh1 & Ec1).
    rewrite E1. cbn [mbind outcome_bind].
    assert (Ez : p_cacheCount s1 (pmmZoneOfPfn p) = p_cacheCount s (pmmZoneOfPfn p) - 1)
      by (rewrite Ec1; apply fn_lookup_insert).
    destruct (IH A1 s1 (sh_core _ _ _ _ Hsh1) ltac:(lia) ltac:(lia)) as (A' & s' & E' & Hsh' & Hc' & Ho').
    exists A', s'. split; [exact E'|]. split; [eapply shuffle_trans; eassumption|]. split; [assumption|].
    intros z' Hz'. rewrite Ho', Ec1, fn_lookup_insert_ne by congruence. reflexivity.
Qed.

(** ** Allocation *)

(** What a successful allocation of [(p, order)] does. *)
Record granted (A : blocks) (s : Pmm) (p order : Z) (A' : blocks) (s' : Pmm) : Prop := {
  gr_core : core A' s';
  gr_held : A' !! p = Some (Held, order);
  gr_new : A !! p <> Some (Held, order);
  gr_others : forall q κ k, κ = Held \/ κ = Float -> q <> p -> A' !! q = Some (κ, k) <-> A !! q = Some (κ, k);
  gr_available : forall f, available A f <-> available A' f \/ in_block p order f;
  gr_flags : forall q, pg_flags <$> bs_pages (p_buddy s') !! q = pg_flags <$> bs_pages (p_buddy s) !! q;
  gr_total : forall z, free_sum (bs_list (p_buddy s')) z + p_cacheCount s' z =
    free_sum (bs_list (p_buddy s)) z + p_cacheCount s z - (if decide (pmmZoneOfPfn p = z) then 2 ^ order else 0);
  gr_managed : forall z, zn_managedPages (bs_zone (p_buddy s') z) = zn_managedPages (bs_zone (p_buddy s) z);
  gr_cache : (forall z, p_cacheCount s z <= PMM_PCP_HIGH) -> forall z, p_cacheCount s' z <= PMM_PCP_HIGH;
  gr_env : same_env s s'
}.

Lemma shuffle_granted A s A1 s1 p order A' s' :
  shuffle A s A1 s1 -> ((forall z, p_cacheCount s z <= PMM_PCP_HIGH) -> forall z, p_cacheCount s1 z <= PMM_PCP_HIGH) ->
  granted A1 s1 p order A' s' -> granted A s p order A' s'.
Proof.
  intros [_ O V F T M E] Hb [Hc Hh Hn Ho Hav Hfl Ht Hm Hca Hen]. split; auto.
  - rewrite <- O by auto. assumption.
  - intros q κ k Hκ Hq. rewrite Ho, O by assumption. reflexivity.
  - intros f. rewrite <- V. apply Hav.
  - intros q. rewrite Hfl. apply F.
  - intros z. rewrite Ht, T. reflexivity.
  - intros z. rewrite Hm. apply M.
  - etransitivity; eassumption.
Qed.

(** No block of this order can be had from zone [z]. *)
Definition exhausted (A : blocks) (s : Pmm) (z : PmmZoneId) (order : Z) : Prop :=
  (forall p k, A !! p = Some (Free, k) -> pmmZoneOfPfn p = z -> k < order) /\
  (order = 0 -> p_cacheCount s z = 0).

(** One round of the zone loop, with the head's fields set as [pmmAllocPages] does. *)
Definition zone_attempt (z : PmmZoneId) (order : Z) (s : Pmm) : outcome (option Z * Pmm) :=
  if order =? 0 then pmmCacheAllocLocked z s
  else '(r, b) ← access (buddyAllocBlock z order (p_buddy s)); Ret (r, with_buddy b s).

Lemma order_u8 order : 0 <= order <= PMM_MAX_ORDER -> u8 order = order.
Proof. unfold PMM_MAX_ORDER. intros. apply u8_small. words. lia. Qed.

Lemma pop_granted A s p :
  core A s -> A !! p = Some (Cached, 0) -> p_cacheCount s (pmmZoneOfPfn p) < 2 ^ 32 ->
  exists s', upd_pg p (alloc_head 0)
      (with_cache (pmmZoneOfPfn p) (-1) (with_buddy (listRemove p (p_buddy s)) s)) = Ret s' /\
    granted A s p 0 (<[p := (Held, 0)]> A) s'.
Proof.
  intros Hc Hp Hcnt.
  destruct (core_cache_pop A s p Held (alloc_head 0) Hc Hp (or_introl eq_refl) Hcnt)
    as (pg & s1 & E1 & Epg & Eps & Hc1 & Ecnt & Hpos & Hfs & Hzn & Henv); auto.
  exists s1. split; [exact E1|]. split; try assumption.
  - apply lookup_insert_eq.
  - congruence.
  - intros q κ k Hκ Hq. rewrite lookup_insert_ne by congruence. reflexivity.
  - intros f. rewrite !available_iff. unfold free_frame, cached_frame.
    rewrite (frames_retag Free _ _ _ _ _ f Hp), (frames_retag Cached _ _ _ _ _ f Hp).
    rewrite (frames_other Free _ _ _ _ f Hp), (frames_other Cached _ _ _ _ f Hp). intuition congruence.
  - intros q. rewrite Eps. apply (upd_page_flags p (alloc_head 0)); [exact Epg|reflexivity].
  - intros z. rewrite Hfs, Ecnt. unfold insert, fn_insert. repeat case_decide; subst; try lia; congruence.
  - intros z. rewrite Hzn. reflexivity.
  - intros Hb z. rewrite Ecnt. unfold insert, fn_insert. case_decide; [subst; specialize (Hb (pmmZoneOfPfn p)); lia|apply Hb].
Qed.

Lemma buddy_granted A s z order p b A1 :
  core A s -> 0 <= order <= PMM_MAX_ORDER -> core A1 (with_buddy b s) -> taken A p order A1 ->
  pmmZoneOfPfn p = z -> buddy_frame s b ->
  (forall z', free_sum (bs_list b) z' = free_sum (bs_list (p_buddy s)) z' - (if decide (z' = z) then 2 ^ order else 0)) ->
  exists s', upd_pg p (alloc_head order) (with_buddy b s) = Ret s' /\ granted A s p order (<[p := (Held, order)]> A1) s'.
Proof.
  intros Hc Ho Hc1 Ht Hz Hbf Hs. pose proof (tk_float _ _ _ _ Ht) as Hp1.
  destruct (tk_was _ _ _ _ Ht) as (j & _ & Hp).
  destruct (upd_pg_ok A1 (with_buddy b s) p Float order (alloc_head order) Hc1 Hp1) as (pg & Epg & E).
  eexists. split; [exact E|]. simpl in Epg. split.
  - eapply core_retag; try eassumption; try reflexivity; try discriminate.
    + simpl. apply order_u8, Ho.
    + eapply lists_unlisted; [apply (rep_lists _ _ (c_rep _ _ Hc1))|exact Hp1|auto|auto].
    + intros z'. apply (c_cache _ _ Hc1).
  - apply lookup_insert_eq.
  - congruence.
  - intros q κ k Hκ Hq. rewrite lookup_insert_ne by congruence.
    apply (tk_others _ _ _ _ Ht); [destruct Hκ; subst; discriminate|assumption].
  - intros f. rewrite !available_iff, (tk_frames _ _ _ _ Ht), <- (taken_cached _ _ _ _ f Ht).
    unfold free_frame, cached_frame.
    rewrite (frames_retag Free _ _ _ _ _ f Hp1), (frames_retag Cached _ _ _ _ _ f Hp1).
    rewrite (frames_other Free _ _ _ _ f Hp1), (frames_other Cached _ _ _ _ f Hp1). intuition congruence.
  - intros q. simpl. rewrite <- (bf_flags _ _ Hbf). apply (upd_page_flags p (alloc_head order)); [exact Epg|reflexivity].
  - intros z'. simpl. rewrite Hs. repeat case_decide; subst; try lia; congruence.
  - intros z'. apply (bf_managed _ _ Hbf).
  - intros Hb z'. apply Hb.
  - repeat split.
Qed.

Lemma zone_attempt_spec A s z order :
  core A s -> 0 <= order <= PMM_MAX_ORDER -> (forall z, p_cacheCount s z <= PMM_PCP_HIGH) ->
  (exists p s1 A' s2, zone_attempt z order s = Ret (Some p, s1) /\ upd_pg p (alloc_head order) s1 = Ret s2 /\
     granted A s p order A' s2 /\ pmmZoneOfPfn p = z) \/
  (zone_attempt z order s = Ret (None, s) /\ exhausted A s z order).
Proof.
  intros Hc Ho Hb. unfold zone_attempt, PMM_PCP_HIGH, PMM_PCP_BATCH in *.
  destruct (Z.eqb_spec order 0) as [->|Hne].
  - unfold pmmCacheAllocLocked.
    assert (Hfill : exists A1 s1, (if p_cacheCount s z =? 0 then cache_refill 32 z s else Ret s) = Ret s1 /\
      shuffle A s A1 s1 /\ (forall z', p_cacheCount s1 z' <= 192) /\
      (p_cacheCount s1 z = 0 -> s1 = s /\ exhausted A s z 0)).
    { destruct (Z.eqb_spec (p_cacheCount s z) 0) as [E0|E0].
      - destruct (cache_refill_spec 32 z A s Hc ltac:(specialize (Hb z); lia)) as (A1 & s1 & E & Hsh & Hoz & Hbz & Hstop).
        exists A1, s1. split; [exact E|]. split; [exact Hsh|]. split.
        + intros z'. destruct (decide (z' = z)) as [->|Hz]; [lia|]. rewrite Hoz by assumption. apply Hb.
        + intros Hz0. destruct Hstop as [?|(_ & -> & Hno)]; [lia|discriminate|]. split; [reflexivity|]. split; [|auto].
          intros p k Hp Hz. destruct (Hno p k Hp Hz).
      - exists A, s. split; [reflexivity|]. split; [apply shuffle_refl, Hc|]. split; [exact Hb|]. lia. }
    destruct Hfill as (A1 & s1 & E & Hsh & Hb1 & Hstop). rewrite E. cbn [mbind outcome_bind].
    destruct (Z.eqb_spec (p_cacheCount s1 z) 0) as [E0|E0].
    { right. destruct (Hstop E0) as [-> Hex]. auto. }
    left. pose proof (sh_core _ _ _ _ Hsh) as Hc1. unfold listPopHead.
    destruct (bs_list (p_buddy s1) (CacheList z)) as [|p l] eqn:El.
    { exfalso. apply E0. rewrite (c_cache _ _ Hc1), El. reflexivity. }
    destruct (cache_member A1 s1 z p Hc1) as [Hp Hz]; [rewrite El; apply elem_of_cons; auto|].
    destruct (pop_granted A1 s1 p Hc1 Hp) as (s2 & E2 & Hg); [specialize (Hb1 (pmmZoneOfPfn p)); lia|].
    rewrite Hz in E2. exists p, (with_cache z (-1) (with_buddy (listRemove p (p_buddy s1)) s1)), (<[p := (Held, 0)]> A1), s2.
    split; [reflexivity|]. split; [exact E2|]. split; [|exact Hz].
    eapply shuffle_granted; [exact Hsh|intros _; exact Hb1|exact Hg].
  - destruct (core_buddyAlloc A s z order Hc Ho) as [(p & b & A1 & E & Hc1 & Ht & Hz & Hbf & Hs)|[E Hn]]; rewrite E;
      cbn [access mbind outcome_bind].
    + left. destruct (buddy_granted A s z order p b A1 Hc Ho Hc1 Ht Hz Hbf Hs) as (s2 & E2 & Hg).
      exists p, (with_buddy b s), (<[p := (Held, order)]> A1), s2. auto.
    + right. split; [destruct s; reflexivity|]. split; [exact Hn|]. intros; lia.
Qed.

Lemma alloc_from_spec A s order zones :
  core A s -> 0 <= order <= PMM_MAX_ORDER -> (forall z, p_cacheCount s z <= PMM_PCP_HIGH) ->
  (exists p s1 A' s2, alloc_from zones order s = Ret (Some p, s1) /\ upd_pg p (alloc_head order) s1 = Ret s2 /\
     granted A s p order A' s2 /\ pmmZoneOfPfn p ∈ zones) \/
  (alloc_from zones order s = Ret (None, s) /\ forall z, z ∈ zones -> exhausted A s z order).
Proof.
  intros Hc Ho Hb. induction zones as [|z zones IH].
  - right. split; [reflexivity|]. intros z Hz. inversion Hz.
  - simpl. fold (zone_attempt z order s).
    destruct (zone_attempt_spec A s z order Hc Ho Hb) as [(p & s1 & A' & s2 & E & E2 & Hg & Hz)|[E Hex]];
      rewrite E; cbn [mbind outcome_bind].
    + left. exists p, s1, A', s2. rewrite <- Hz. repeat (split; [assumption||reflexivity|]). apply elem_of_cons. auto.
    + destruct IH as [(p & s1 & A' & s2 & E' & E2 & Hg & Hz)|[E' Hall]]; rewrite E'.
      * left. exists p, s1, A', s2. repeat (split; [assumption||reflexivity|]). apply elem_of_cons. auto.
      * right. split; [reflexivity|]. intros z' Hz'. apply elem_of_cons in Hz' as [->|Hz']; auto.
Qed.

(** ** Poison and memory *)

Lemma frame_va A s f : core A s -> 0 <= f < 2 ^ 34 -> p_hhdmBase s +! (f <<! 12) = p_hhdmBase s + 4096 * f.
Proof.
  intros Hc Hf. destruct (c_hhdm _ _ Hc) as [Hh0 Hh].
  rewrite Z.shiftl_mul_pow2, (u64_small (f * 2 ^ 12)), u64_small by (words; lia). lia.
Qed.

Lemma all_poison_spec n : forall i p mem,
  all_poison n i p mem = true <-> forall j, i <= j < i + Z.of_nat n -> mem (p + 8 * j) = PMM_POISON.
Proof.
  induction n as [|n IH]; intros i p mem; simpl; [split; [lia|reflexivity]|].
  destruct (Z.eqb_spec (mem (p + 8 * i)) PMM_POISON) as [E|E].
  - rewrite IH. split; intros H j Hj; [|apply H; lia].
    destruct (decide (j = i)) as [->|]; [assumption|apply H; lia].
  - split; [discriminate|]. intros H. contradiction E. apply H. lia.
Qed.

(** Page arrays that differ in the flags only. *)
Definition flags_only (ps ps' : gmap Z Page) : Prop :=
  forall q, (fun pg => set_flags 0 pg) <$> ps' !! q = (fun pg => set_flags 0 pg) <$> ps !! q.

Lemma flags_only_lookup ps ps' q pg' : flags_only ps ps' -> ps' !! q = Some pg' ->
  exists pg, ps !! q = Some pg /\ pg_state pg = pg_state pg' /\ pg_order pg = pg_order pg'.
Proof.
  intros H E. specialize (H q). rewrite E in H. destruct (ps !! q) as [pg|]; simpl in H; [|discriminate].
  exists pg. split; [reflexivity|]. injection H. intros. split; congruence.
Qed.

Lemma flags_only_sym ps ps' : flags_only ps ps' -> flags_only ps' ps.
Proof. intros H q. symmetry. apply H. Qed.

Lemma pages_flags A ps ps' : pages_ok A ps -> flags_only ps ps' -> pages_ok A ps'.
Proof.
  intros [Sh Di Pg Or Ze Ow Ba] Hf.
  assert (Hsome : forall q, is_Some (ps' !! q) <-> is_Some (ps !! q)).
  { intros q. specialize (Hf q). destruct (ps' !! q), (ps !! q); simpl in Hf; split; intros [? ?]; simplify_eq; eauto. }
  split; try assumption.
  - intros p κ k q Hh. destruct (Pg p κ k q Hh) as (pg & E & Hs).
    destruct (flags_only_lookup _ _ _ _ (flags_only_sym _ _ Hf) E) as (pg' & E' & Hs' & _).
    exists pg'. split; [assumption|congruence].
  - intros p κ k pg Hp Hκ E. destruct (flags_only_lookup _ _ _ _ Hf E) as (pg' & E' & _ & <-). eauto.
  - intros q pg E Hs. destruct (flags_only_lookup _ _ _ _ Hf E) as (pg' & E' & Hs' & <-).
    apply (Ze q pg' E'). rewrite Hs'. assumption.
  - intros q pg E Hs. destruct (flags_only_lookup _ _ _ _ Hf E) as (pg' & E' & Hs' & _).
    apply (Ow q pg' E'). congruence.
  - intros p Hp. apply Hsome, Ba in Hp as [Hr Hc]. split; [assumption|]. intros q Hq. apply Hsome, Hc, Hq.
Qed.

(** Changes flags and memory only. *)
Definition remark (s : Pmm) (ps : gmap Z Page) (mem : Z -> Z) : Pmm :=
  with_mem mem (with_buddy (with_pages ps (p_buddy s)) s).

Lemma core_remark A s ps mem : core A s -> flags_only (bs_pages (p_buddy s)) ps -> core A (remark s ps mem).
Proof.
  intros [[Hpg Hl Hcn] Hco Hled Hca Hbk Hsp Hh] Hf. split; simpl; try assumption.
  - split; simpl; [eapply pages_flags; eassumption|assumption|assumption].
  - intros q. rewrite <- Hbk. specialize (Hf q). destruct (ps !! q), (bs_pages (p_buddy s) !! q);
      simpl in Hf; split; intros [? ?]; simplify_eq; eauto.
Qed.

(** The flags of the frames in [[p, p + n)] become [v], the rest stays. *)
Definition flags_in (ps : gmap Z Page) (p n v : Z) (ps' : gmap Z Page) : Prop :=
  forall q, ps' !! q = (if decide (p <= q < p + n) then set_flags v <$> ps !! q else ps !! q).

Lemma flags_in_only ps p n v ps' : flags_in ps p n v ps' -> flags_only ps ps'.
Proof. intros H q. rewrite H. case_decide; [|reflexivity]. destruct (ps !! q); reflexivity. Qed.

Lemma flags_in_nil ps p v : flags_in ps p 0 v ps.
Proof. intros q. rewrite decide_False by lia. reflexivity. Qed.

Lemma flags_in_step ps p n v ps1 pg :
  0 <= n -> ps !! p = Some pg -> flags_in (<[p := set_flags v pg]> ps) (p + 1) n v ps1 -> flags_in ps p (n + 1) v ps1.
Proof.
  intros Hn Hp H q. rewrite H. destruct (decide (q = p)) as [->|Hne].
  - rewrite decide_False, lookup_insert_eq, decide_True, Hp by lia. reflexivity.
  - rewrite lookup_insert_ne by congruence. repeat case_decide; try reflexivity; lia.
Qed.

Lemma clear_loop n : forall A s p,
  core A s -> 0 <= p -> p + Z.of_nat n <= 2 ^ 34 ->
  (forall f pg, p <= f < p + Z.of_nat n -> bs_pages (p_buddy s) !! f = Some pg ->
     pg_flags pg = 0 \/ (pg_flags pg = PAGE_F_POISONED /\ frame_words s f PMM_POISON)) ->
  (forall f, p <= f < p + Z.of_nat n -> is_Some (bs_pages (p_buddy s) !! f)) ->
  exists ps', for_frames n p pmmCheckAndClearPoison s = Ret (remark s ps' (p_mem s)) /\
    flags_in (bs_pages (p_buddy s)) p (Z.of_nat n) 0 ps'.
Proof.
  induction n as [|n IH]; intros A s p Hc Hp Hn Hfl Hbk.
  { exists (bs_pages (p_buddy s)). split; [destruct s as [? ? ? []]; reflexivity|apply flags_in_nil]. }
  destruct (Hbk p ltac:(lia)) as [pg Epg].
  assert (Hone : pmmCheckAndClearPoison p s =
    Ret (remark s (<[p := set_flags 0 pg]> (bs_pages (p_buddy s))) (p_mem s))).
  { unfold pmmCheckAndClearPoison, get_pg. rewrite Epg. cbn [access mbind outcome_bind].
    destruct (Hfl p pg ltac:(lia) Epg) as [E0|[E1 Hw]].
    - rewrite E0. simpl. f_equal. unfold remark. rewrite insert_id; [destruct s as [? ? ? []]; reflexivity|].
      rewrite Epg. f_equal. destruct pg. simpl in *. subst. reflexivity.
    - rewrite E1. simpl Z.eqb. cbv iota. rewrite (frame_va A s p Hc) by lia.
      replace (all_poison 512 0 (p_hhdmBase s + 4096 * p) (p_mem s)) with true.
      + unfold upd_pg, upd_page. rewrite Epg. cbn [mbind option_bind access outcome_bind]. rewrite E1.
        destruct s as [? ? ? []]. reflexivity.
      + symmetry. apply all_poison_spec. intros j Hj. apply Hw. lia. }
  set (ps1 := <[p := set_flags 0 pg]> (bs_pages (p_buddy s))) in *.
  assert (Hf1 : flags_only (bs_pages (p_buddy s)) ps1).
  { apply (flags_in_only _ p (0 + 1) 0), (flags_in_step _ p 0 0 ps1 pg); [lia|assumption|apply flags_in_nil]. }
  cbn [for_frames]. rewrite Hone. cbn [mbind outcome_bind]. rewrite u64_small by (words; lia).
  destruct (IH A (remark s ps1 (p_mem s)) (p + 1)) as (ps' & E' & Hin).
  - apply core_remark; assumption.
  - lia.
  - lia.
  - intros f pg' Hf E. simpl in E. unfold ps1 in E. rewrite lookup_insert_ne in E by lia.
    apply (Hfl f pg'); [lia|assumption].
  - intros f Hf. simpl. unfold ps1. rewrite lookup_insert_ne by lia. apply Hbk. lia.
  - exists ps'. split; [exact E'|]. replace (Z.of_nat (S n)) with (Z.of_nat n + 1) by lia.
    eapply flags_in_step; [lia|exact Epg|exact Hin].
Qed.

(** Writes confined to the words of some frames. *)
Definition mem_confined (s s' : Pmm) (P : Z -> Prop) : Prop :=
  forall f w, 0 <= w < 512 -> ~ P f -> word_at s' f w = word_at s f w.

Lemma pmmZeroBlock_spec A s p order :
  core A s -> 0 <= order <= PMM_MAX_ORDER -> 0 <= p -> p + 2 ^ order <= 2 ^ 34 ->
  exists mem', pmmZeroBlock p order s = with_mem mem' s /\
    (forall f, in_block p order f -> frame_words (with_mem mem' s) f 0) /\
    mem_confined s (with_mem mem' s) (in_block p order).
Proof.
  intros Hc Ho Hp0 Hp. pose proof (pow2_pos order ltac:(lia)) as Hpos.
  unfold pmmZeroBlock. rewrite (frame_va A s p Hc) by lia.
  rewrite shl1_u64 by (apply in_bits; assumption).
  rewrite Z.shiftl_mul_pow2, (u64_small (2 ^ order * 2 ^ 12)) by (words; lia).
  replace (2 ^ order * 2 ^ 12 / 8) with (512 * 2 ^ order)
    by (replace (2 ^ order * 2 ^ 12) with (512 * 2 ^ order * 8) by lia; rewrite Z.div_mul; lia).
  eexists. split; [reflexivity|]. unfold in_block. split.
  - intros f Hf w Hw. unfold word_at. simpl.
    replace (p_hhdmBase s + 4096 * f + 8 * w) with (p_hhdmBase s + 4096 * p + 8 * (512 * (f - p) + w)) by lia.
    apply fill_words_in. lia.
  - intros f w Hw Hf. unfold word_at. simpl. apply fill_words_out. intros j Hj. lia.
Qed.

Lemma held_total_cons p k L z :
  held_total ((p, k) :: L) z = (if decide (pmmZoneOfPfn p = z) then 2 ^ k else 0) + held_total L z.
Proof. reflexivity. Qed.

(** The frames of a block the allocator hands out, before and after. *)
Lemma block_range A s p κ k : core A s -> A !! p = Some (κ, k) ->
  0 <= p /\ p + 2 ^ k <= 2 ^ 34 /\ 0 <= k <= PMM_MAX_ORDER /\ (2 ^ k | p) /\
  forall f, in_block p k f -> is_Some (bs_pages (p_buddy s) !! f).
Proof.
  intros Hc Hp. pose proof (rep_pages _ _ (c_rep _ _ Hc)) as Hpg.
  destruct (po_shape _ _ Hpg _ _ _ Hp) as (Hp0 & Hk & Ha & _). pose proof (pow2_pos k ltac:(lia)) as Hpos.
  assert (Hin : forall f, in_block p k f -> is_Some (bs_pages (p_buddy s) !! f)).
  { intros f Hf. destruct (po_page _ _ Hpg p κ k f) as (pg & E & _); [split; assumption|eauto]. }
  pose proof (backed_range _ _ _ Hc (Hin (p + 2 ^ k - 1) ltac:(unfold in_block; lia))). repeat split; auto; lia.
Qed.

Lemma granted_inv debug L A s p order A' s' ps mem :
  pmm_inv debug L A s -> granted A s p order A' s' ->
  flags_in (bs_pages (p_buddy s')) p (2 ^ order) 0 ps ->
  mem_confined s (remark s' ps mem) (in_block p order) ->
  pmm_inv debug ((p, order) :: L) A' (remark s' ps mem).
Proof.
  intros Hi Hg Hfl Hmem. split; simpl.
  - apply core_remark; [apply (gr_core _ _ _ _ _ _ Hg)|eapply flags_in_only, Hfl].
  - intros q k Hq. destruct (decide (q = p)) as [->|Hne].
    + rewrite (gr_held _ _ _ _ _ _ Hg) in Hq. discriminate.
    + apply (gr_others _ _ _ _ _ _ Hg) in Hq; [|auto|assumption]. eapply (i_settled _ _ _ _ Hi), Hq.
  - intros q k. rewrite elem_of_cons. destruct (decide (q = p)) as [->|Hne].
    + rewrite (gr_held _ _ _ _ _ _ Hg). split.
      * intros [[= ->]|Hin]; [reflexivity|]. exfalso. apply (i_held _ _ _ _ Hi) in Hin.
        pose proof (gr_core _ _ _ _ _ _ Hg) as Hc'. 
        assert (available A p) as Hav.
        { apply (gr_available _ _ _ _ _ _ Hg). right. unfold in_block.
          destruct (block_range A' s' p Held order Hc' (gr_held _ _ _ _ _ _ Hg)) as (_ & _ & ? & _).
          pose proof (pow2_pos order ltac:(lia)). lia. }
        destruct Hav as (q & κ & j & Hh & Hκ).
        pose proof (holds_head _ _ _ _ _ (rep_pages _ _ (c_rep _ _ (i_core _ _ _ _ Hi))) Hin) as Hh'.
        pose proof (po_disjoint _ _ (rep_pages _ _ (c_rep _ _ (i_core _ _ _ _ Hi))) _ _ _ _ _ _ _ Hh Hh'). subst q.
        destruct Hh as [Hh _]. rewrite Hin in Hh. destruct Hκ; congruence.
      * intros [= <-]. auto.
    + rewrite (gr_others _ _ _ _ _ _ Hg), <- (i_held _ _ _ _ Hi) by auto. split; [intros [[= -> ->]|?]; [contradiction|assumption]|auto].
  - apply NoDup_cons. split; [|apply (i_nodup _ _ _ _ Hi)]. intros Hin. apply (i_held _ _ _ _ Hi) in Hin.
    exact (gr_new _ _ _ _ _ _ Hg Hin).
  - apply (gr_cache _ _ _ _ _ _ Hg), (i_cache _ _ _ _ Hi).
  - intros z. rewrite (gr_managed _ _ _ _ _ _ Hg), (i_account _ _ _ _ Hi), (gr_total _ _ _ _ _ _ Hg), held_total_cons.
    f_equal. lia.
  - intros f pg E. simpl in E. rewrite Hfl in E.
    destruct (decide (p <= f < p + 2 ^ order)) as [Hin|Hout].
    + left. destruct (bs_pages (p_buddy s') !! f); simpl in E; [|discriminate]. injection E as <-. reflexivity.
    + pose proof (gr_flags _ _ _ _ _ _ Hg f) as Hff. rewrite E in Hff. simpl in Hff.
      destruct (bs_pages (p_buddy s) !! f) as [pg0|] eqn:E0; [|discriminate]. simpl in Hff. injection Hff as Hff.
      destruct (i_poison _ _ _ _ Hi f pg0 E0) as [Hz|(Hone & Hd & Hw & Hav)]; [left; congruence|right].
      split; [congruence|]. split; [assumption|]. split.
      * intros w Hw'. rewrite Hmem by assumption. apply Hw, Hw'.
      * destruct (proj1 (gr_available _ _ _ _ _ _ Hg f) Hav) as [?|?]; [assumption|contradiction].
Qed.

Lemma remark_word s ps mem f w : word_at (remark s ps mem) f w = mem (p_hhdmBase s + 4096 * f + 8 * w).
Proof. reflexivity. Qed.

(** The outcome of an allocation under the invariant. *)
Definition alloc_ok (debug : bool) (L : list (Z * Z)) (A : blocks) (s : Pmm) (order flags : Z)
    (p : Z) (A' : blocks) (s' : Pmm) : Prop :=
  pmm_inv debug ((p, order) :: L) A' s' /\
  (forall f, available A f <-> available A' f \/ in_block p order f) /\ (2 ^ order | p) /\ 0 <= p < 2 ^ 34 /\
  (flags .& PMM_FLAG_DMA32 <> 0 -> p + 2 ^ order <= PMM_ZONE_DMA32_END_PFN) /\
  (flags .& PMM_FLAG_ZERO <> 0 -> forall f, in_block p order f -> frame_words s' f 0) /\
  mem_confined s s' (in_block p order) /\ same_env s (with_mem (p_mem s) s').

Lemma dma32_zone p order :
  0 <= p -> (2 ^ order | p) -> 0 <= order <= PMM_MAX_ORDER -> pmmZoneOfPfn p = PMM_ZONE_DMA32 ->
  p + 2 ^ order <= PMM_ZONE_DMA32_END_PFN.
Proof.
  intros Hp Ha Ho Hz. unfold pmmZoneOfPfn, PMM_ZONE_DMA32_END_PFN in *.
  destruct (Z.ltb_spec p (2 ^ 20)) as [Hlt|]; [|discriminate].
  pose proof (pow2_pos order ltac:(lia)).
  destruct (Z.le_gt_cases (p + 2 ^ order) (2 ^ 20)) as [|Hgt]; [assumption|exfalso].
  destruct (aligned_nested p order (2 ^ 20) 20) as [? _]; try assumption; try lia.
  - unfold PMM_MAX_ORDER in Ho. lia.
  - apply Z.divide_refl.
Qed.

Lemma pmmAllocPages_spec debug L A s order flags :
  pmm_inv debug L A s -> 0 <= order <= PMM_MAX_ORDER -> flags .& not32 PMM_FLAGS_VALID = 0 ->
  (exists p A' s', pmmAllocPages debug order flags s = Ret (STATUS_OK, Some (pageFromPfn p), s') /\
     alloc_ok debug L A s order flags p A' s') \/
  (pmmAllocPages debug order flags s = Ret (STATUS_ERR_NO_MEMORY, None, s) /\
   forall z, z ∈ pmmZoneListFor flags -> exhausted A s z order).
Proof.
  intros Hi Ho Hfv. unfold pmmAllocPages.
  destruct (Z.ltb_spec PMM_MAX_ORDER order); [lia|]. rewrite Hfv. simpl orb. cbv iota.
  destruct (alloc_from_spec A s order (pmmZoneListFor flags) (i_core _ _ _ _ Hi) Ho (i_cache _ _ _ _ Hi))
    as [(p & s1 & A' & s2 & E & E2 & Hg & Hz)|[E Hex]]; rewrite E; cbn [mbind outcome_bind]; [left|right; auto].
  rewrite E2. cbn [mbind outcome_bind]. pose proof (gr_core _ _ _ _ _ _ Hg) as Hc2.
  destruct (block_range A' s2 p Held order Hc2 (gr_held _ _ _ _ _ _ Hg)) as (Hp0 & Hpe & _ & Hpa & Hbk).
  destruct (gr_env _ _ _ _ _ _ Hg) as (Emap & Eea & Ehh & Emem & Er & Ea).
  pose proof (pow2_pos order ltac:(lia)) as Hpos.
  assert (Hw2 : forall f w, word_at s2 f w = word_at s f w) by (intros; unfold word_at; rewrite Ehh, Emem; reflexivity).
  (* the poison check *)
  assert (Hcl : exists ps, (if debug then for_frames (Z.to_nat (1 <<! order)) p pmmCheckAndClearPoison s2 else Ret s2) =
      Ret (remark s2 ps (p_mem s2)) /\ flags_in (bs_pages (p_buddy s2)) p (2 ^ order) 0 ps).
  { assert (Hfl : forall f pg, bs_pages (p_buddy s2) !! f = Some pg ->
      pg_flags pg = 0 \/ (pg_flags pg = PAGE_F_POISONED /\ debug = true /\ frame_words s2 f PMM_POISON)).
    { intros f pg Epg. pose proof (gr_flags _ _ _ _ _ _ Hg f) as Hff. rewrite Epg in Hff.
      destruct (bs_pages (p_buddy s) !! f) as [pg0|] eqn:E0; [|discriminate]. simpl in Hff. injection Hff as Hff.
      destruct (i_poison _ _ _ _ Hi f pg0 E0) as [?|(? & ? & Hw & _)]; [left; congruence|right].
      split; [congruence|]. split; [assumption|]. intros w Hw'. rewrite Hw2. apply Hw, Hw'. }
    destruct debug.
    - rewrite shl1_u64 by (apply in_bits; assumption).
      destruct (clear_loop (Z.to_nat (2 ^ order)) A' s2 p Hc2 Hp0) as (ps & Ec & Hin); rewrite ?Z2Nat.id by lia; try lia.
      + intros f pg Hf Epg. destruct (Hfl f pg Epg) as [?|(? & _ & ?)]; auto.
      + intros f Hf. apply Hbk. exact Hf.
      + exists ps. rewrite Z2Nat.id in Hin by lia. auto.
    - exists (bs_pages (p_buddy s2)). split; [destruct s2 as [? ? ? []]; reflexivity|].
      intros q. case_decide; [|reflexivity]. destruct (bs_pages (p_buddy s2) !! q) as [pg|] eqn:Epg; [|reflexivity].
      destruct (Hfl q pg Epg) as [E0|(_ & ? & _)]; [|discriminate]. simpl. f_equal. destruct pg. simpl in *. subst. reflexivity. }
  destruct Hcl as (ps & -> & Hfin). cbn [mbind outcome_bind].
  assert (Hfinal : exists mem', (if negb ((flags .& PMM_FLAG_ZERO) =? 0) then pmmZeroBlock p order (remark s2 ps (p_mem s2))
        else remark s2 ps (p_mem s2)) = remark s2 ps mem' /\
      (flags .& PMM_FLAG_ZERO <> 0 -> forall f, in_block p order f -> frame_words (remark s2 ps mem') f 0) /\
      mem_confined s2 (remark s2 ps mem') (in_block p order)).
  { destruct (Z.eqb_spec (flags .& PMM_FLAG_ZERO) 0) as [E0|E0]; simpl negb; cbv iota.
    - exists (p_mem s2). split; [reflexivity|]. split; [congruence|]. intros f w _ _. reflexivity.
    - destruct (pmmZeroBlock_spec A' (remark s2 ps (p_mem s2)) p order) as (mem' & Ez & Hz0 & Hzc); try lia.
      { apply core_remark; [assumption|eapply flags_in_only, Hfin]. }
      exists mem'. rewrite Ez. split; [reflexivity|]. split; [intros _; exact Hz0|exact Hzc]. }
  destruct Hfinal as (mem' & -> & Hzero & Hconf).
  assert (Hconf' : mem_confined s (remark s2 ps mem') (in_block p order)).
  { intros f w Hw Hf. rewrite <- Hw2. apply Hconf; assumption. }
  exists p, A', (remark s2 ps mem'). split; [reflexivity|].
  split; [eapply granted_inv; eassumption|]. split; [apply (gr_available _ _ _ _ _ _ Hg)|].
  split; [assumption|]. split; [lia|]. split; [|split; [assumption|split; [assumption|repeat split; assumption]]].
  intros Hd. apply dma32_zone; try assumption. unfold pmmZoneListFor in Hz.
  destruct (Z.eqb_spec (flags .& PMM_FLAG_DMA32) 0); [contradiction|]. simpl in Hz. apply list_elem_of_singleton in Hz. assumption.
Qed.

(** ** Freeing *)

Lemma pmm_inv_perm debug L L' A s : L ≡ₚ L' -> pmm_inv debug L A s -> pmm_inv debug L' A s.
Proof.
  intros HL [Hc Hs Hh Hn Hca Hac Hpo]. split; try assumption.
  - intros p k. rewrite <- HL. apply Hh.
  - rewrite <- HL. assumption.
  - intros z. rewrite Hac. f_equal. f_equal. unfold held_total. clear -HL.
    induction HL; simpl; lia.
Qed.

(** A held block has no marks left by an owner or by the poisoner. *)
Lemma held_flags debug L A s p k f pg :
  pmm_inv debug L A s -> A !! p = Some (Held, k) -> in_block p k f ->
  bs_pages (p_buddy s) !! f = Some pg -> pg_flags pg = 0.
Proof.
  intros Hi Hp Hf E. destruct (i_poison _ _ _ _ Hi f pg E) as [?|(_ & _ & _ & q & κ & j & Hh & Hκ)]; [assumption|].
  pose proof (po_disjoint _ _ (rep_pages _ _ (c_rep _ _ (i_core _ _ _ _ Hi))) _ _ _ _ _ _ _ Hh (conj Hp Hf)). subst q.
  destruct Hh as [Hh _]. rewrite Hp in Hh. destruct Hκ; congruence.
Qed.

Lemma validate_held debug L A s p order :
  pmm_inv debug L A s -> A !! p = Some (Held, order) -> pmmValidateForFree (pageFromPfn p) order s = Ret p.
Proof.
  intros Hi Hp. pose proof (i_core _ _ _ _ Hi) as Hc.
  destruct (block_range A s p Held order Hc Hp) as (Hp0 & Hpe & Ho & Ha & Hbk).
  pose proof (pow2_pos order ltac:(lia)) as Hpos.
  destruct (pageFromPfn_small p ltac:(lia)) as [Epage Eback]. unfold pmmValidateForFree. rewrite Eback.
  destruct (Z.eqb_spec (pageFromPfn p) 0) as [E0|_]; [rewrite Epage in E0; unfold VM_PAGE_ARRAY_BASE in E0; lia|].
  destruct (Z.ltb_spec (pageFromPfn p) VM_PAGE_ARRAY_BASE) as [E0|_]; [rewrite Epage in E0; lia|].
  replace ((pageFromPfn p - VM_PAGE_ARRAY_BASE) mod sizeof_Page) with 0.
  2:{ rewrite Epage. unfold sizeof_Page.
      replace (VM_PAGE_ARRAY_BASE + 64 * p - VM_PAGE_ARRAY_BASE) with (p * 64) by lia. rewrite Z.mod_mul; lia. }
  simpl orb. cbv iota zeta. destruct (c_spans _ _ Hc) as [Hsp Hlen].
  destruct (pmmPfnValid_ok p s Hsp Hlen) as (v & Ev & Hv). rewrite Ev. cbn [mbind outcome_bind].
  destruct (head_page _ _ _ _ _ (rep_pages _ _ (c_rep _ _ Hc)) Hp) as (pg & Epg & Hst).
  assert (v = true) as -> by (apply Hv, (c_backed _ _ Hc); eauto). simpl negb. cbv iota.
  destruct (Z.ltb_spec PMM_MAX_ORDER order); [lia|].
  rewrite (proj2 (aligned_mask p order Ho) Ha). simpl negb. cbv iota.
  unfold get_pg at 1. rewrite Epg. cbn [access mbind outcome_bind]. rewrite Hst. simpl Z.eqb. cbv iota.
  rewrite (po_order _ _ (rep_pages _ _ (c_rep _ _ Hc)) _ _ _ _ Hp ltac:(discriminate) Epg), Z.eqb_refl. simpl negb. cbv iota.
  destruct (check_unowned_spec A s p order Hc Hp) as [[E _]|(f & pg' & Hf & Ef & Hfl & _)]; [rewrite E; reflexivity|].
  exfalso. apply Hfl. rewrite (held_flags _ _ _ _ _ _ _ _ Hi Hp Hf Ef). reflexivity.
Qed.

Lemma poison_loop n : forall A s p,
  core A s -> 0 <= p -> p + Z.of_nat n <= 2 ^ 34 ->
  (forall f pg, p <= f < p + Z.of_nat n -> bs_pages (p_buddy s) !! f = Some pg -> pg_flags pg = 0) ->
  (forall f, p <= f < p + Z.of_nat n -> is_Some (bs_pages (p_buddy s) !! f)) ->
  exists ps' mem', for_frames n p pmmPoisonPage s = Ret (remark s ps' mem') /\
    flags_in (bs_pages (p_buddy s)) p (Z.of_nat n) PAGE_F_POISONED ps' /\
    (forall f, p <= f < p + Z.of_nat n -> frame_words (remark s ps' mem') f PMM_POISON) /\
    mem_confined s (remark s ps' mem') (fun f => p <= f < p + Z.of_nat n).
Proof.
  induction n as [|n IH]; intros A s p Hc Hp Hn Hfl Hbk.
  { exists (bs_pages (p_buddy s)), (p_mem s). split; [destruct s as [? ? ? []]; reflexivity|].
    split; [apply flags_in_nil|]. split; [lia|]. intros f w _ _. reflexivity. }
  destruct (Hbk p ltac:(lia)) as [pg Epg]. pose proof (Hfl p pg ltac:(lia) Epg) as E0.
  set (ps1 := <[p := set_flags PAGE_F_POISONED pg]> (bs_pages (p_buddy s))).
  set (mem1 := fill_words 512 0 (p_hhdmBase s + 4096 * p) PMM_POISON (p_mem s)).
  assert (Hone : pmmPoisonPage p s = Ret (remark s ps1 mem1)).
  { unfold pmmPoisonPage. rewrite (frame_va A s p Hc) by lia. unfold upd_pg, upd_page. simpl bs_pages. rewrite Epg.
    cbn [mbind option_bind access outcome_bind]. rewrite E0. destruct s as [? ? ? []]. reflexivity. }
  assert (Hf1 : flags_only (bs_pages (p_buddy s)) ps1).
  { apply (flags_in_only _ p (0 + 1) PAGE_F_POISONED), (flags_in_step _ p 0 _ ps1 pg); [lia|assumption|apply flags_in_nil]. }
  cbn [for_frames]. rewrite Hone. cbn [mbind outcome_bind]. rewrite u64_small by (words; lia).
  destruct (IH A (remark s ps1 mem1) (p + 1)) as (ps' & mem' & E' & Hin & Hwd & Hcf).
  - apply core_remark; assumption.
  - lia.
  - lia.
  - intros f pg' Hf E. simpl in E. unfold ps1 in E. rewrite lookup_insert_ne in E by lia.
    apply (Hfl f pg'); [lia|assumption].
  - intros f Hf. simpl. unfold ps1. rewrite lookup_insert_ne by lia. apply Hbk. lia.
  - exists ps', mem'. split; [exact E'|]. replace (Z.of_nat (S n)) with (Z.of_nat n + 1) by lia.
    split; [eapply flags_in_step; [lia|exact Epg|exact Hin]|].
    assert (Hfirst : forall w, 0 <= w < 512 -> word_at (remark s ps1 mem1) p w = PMM_POISON).
    { intros w Hw. unfold word_at. simpl. apply fill_words_in. lia. }
    split.
    + intros f Hf. destruct (decide (f = p)) as [->|Hne]; [|apply Hwd; lia].
      intros w Hw. pose proof (Hcf p w Hw ltac:(cbv beta; lia)) as Hk. rewrite !remark_word in *. simpl in Hk.
      etransitivity; [exact Hk|]. apply Hfirst, Hw.
    + intros f w Hw Hf. pose proof (Hcf f w Hw ltac:(cbv beta in *; lia)) as Hk. rewrite !remark_word in *. simpl in Hk.
      etransitivity; [exact Hk|]. unfold word_at, mem1. apply fill_words_out. intros j Hj. lia.
Qed.

(** What giving the block [(p, order)] back does. *)
Record released (A : blocks) (s : Pmm) (p order : Z) (A' : blocks) (s' : Pmm) : Prop := {
  rl_core : core A' s';
  rl_others : forall q κ k, κ = Held \/ κ = Float -> A' !! q = Some (κ, k) <-> (q <> p /\ A !! q = Some (κ, k));
  rl_available : forall f, available A' f <-> available A f \/ in_block p order f;
  rl_flags : forall q, pg_flags <$> bs_pages (p_buddy s') !! q = pg_flags <$> bs_pages (p_buddy s) !! q;
  rl_total : forall z, free_sum (bs_list (p_buddy s')) z + p_cacheCount s' z =
    free_sum (bs_list (p_buddy s)) z + p_cacheCount s z + (if decide (pmmZoneOfPfn p = z) then 2 ^ order else 0);
  rl_managed : forall z, zn_managedPages (bs_zone (p_buddy s') z) = zn_managedPages (bs_zone (p_buddy s) z);
  rl_cache : forall z, p_cacheCount s' z <= PMM_PCP_HIGH;
  rl_env : same_env s s'
}.

Lemma released_shuffle A s p order A1 s1 A' s' :
  released A s p order A1 s1 -> shuffle A1 s1 A' s' -> (forall z, p_cacheCount s' z <= PMM_PCP_HIGH) ->
  released A s p order A' s'.
Proof.
  intros [Hc Ho Hav Hfl Ht Hm _ Hen] [Hc' O V F T M E] Hb. split; auto.
  - intros q κ k Hκ. rewrite O, Ho by assumption. reflexivity.
  - intros f. rewrite V. apply Hav.
  - intros q. rewrite F. apply Hfl.
  - intros z. rewrite T. apply Ht.
  - intros z. rewrite M. apply Hm.
  - etransitivity; eassumption.
Qed.

Lemma push_released A s p s2 f :
  core A s -> A !! p = Some (Held, 0) -> core (<[p := (Cached, 0)]> A) s2 ->
  p_cacheCount s2 = <[pmmZoneOfPfn p := p_cacheCount s (pmmZoneOfPfn p) + 1]> (p_cacheCount s) ->
  (forall z', free_sum (bs_list (p_buddy s2)) z' = free_sum (bs_list (p_buddy s)) z') ->
  bs_zone (p_buddy s2) = bs_zone (p_buddy s) ->
  (exists pg, bs_pages (p_buddy s) !! p = Some pg /\ bs_pages (p_buddy s2) = <[p := f pg]> (bs_pages (p_buddy s))) ->
  (forall pg, pg_flags (f pg) = pg_flags pg) -> same_env s s2 ->
  (forall z, p_cacheCount s2 z <= PMM_PCP_HIGH) ->
  released A s p 0 (<[p := (Cached, 0)]> A) s2.
Proof.
  intros Hc Hp Hc2 Ecnt Hfs Hzn (pg & Epg & Eps) Hf Henv Hb. split; try assumption.
  - intros q κ k Hκ. rewrite lookup_insert. case_decide as Hq.
    + subst q. split; [destruct Hκ; congruence|tauto].
    + split; [intros ?; split; [congruence|assumption]|tauto].
  - intros f'. rewrite !available_iff. unfold free_frame, cached_frame.
    rewrite (frames_retag Free _ _ _ _ _ f' Hp), (frames_retag Cached _ _ _ _ _ f' Hp).
    rewrite (frames_other Free _ _ _ _ f' Hp), (frames_other Cached _ _ _ _ f' Hp). intuition congruence.
  - intros q. rewrite Eps. apply (upd_page_flags p f); [exact Epg|apply Hf].
  - intros z. rewrite Hfs, Ecnt. unfold insert, fn_insert. repeat case_decide; subst; try lia; congruence.
  - intros z. rewrite Hzn. reflexivity.
Qed.

Lemma pmmCacheFreeLocked_spec A s p :
  core A s -> A !! p = Some (Held, 0) -> (forall z, p_cacheCount s z <= PMM_PCP_HIGH) ->
  exists A' s', pmmCacheFreeLocked (pmmZoneOfPfn p) p s = Ret s' /\ released A s p 0 A' s'.
Proof.
  intros Hc Hp Hb. unfold pmmCacheFreeLocked, PMM_PCP_HIGH, PMM_PCP_BATCH in *.
  set (f := fun p => set_refcount 0 (set_order 0 (set_state PAGE_STATE_PCP p))).
  destruct (core_cache_push A s p Held f Hc Hp) as (s1 & s2 & E1 & E2 & Hc2 & Ecnt & Hfs & Hzn & Hpg & Henv); auto.
  { specialize (Hb (pmmZoneOfPfn p)). lia. }
  rewrite E1. cbn [mbind outcome_bind]. rewrite <- E2.
  assert (Ez : p_cacheCount s2 (pmmZoneOfPfn p) = p_cacheCount s (pmmZoneOfPfn p) + 1) by (rewrite Ecnt; apply fn_lookup_insert).
  assert (Hoz : forall z, z <> pmmZoneOfPfn p -> p_cacheCount s2 z <= 192).
  { intros z Hz. rewrite Ecnt, fn_lookup_insert_ne by congruence. apply Hb. }
  destruct (Z.ltb_spec (6 * 32) (p_cacheCount s2 (pmmZoneOfPfn p))) as [Hgt|Hle].
  - destruct (cache_trim_spec 32 (pmmZoneOfPfn p) _ s2 Hc2) as (A' & s' & E & Hsh & Hz' & Ho').
    { specialize (Hb (pmmZoneOfPfn p)). lia. }
    exists A', s'. split; [exact E|].
    assert (Hb' : forall z, p_cacheCount s' z <= PMM_PCP_HIGH).
    { intros z. unfold PMM_PCP_HIGH, PMM_PCP_BATCH. destruct (decide (z = pmmZoneOfPfn p)) as [->|Hz].
      - rewrite Hz'. specialize (Hb (pmmZoneOfPfn p)). lia.
      - rewrite Ho' by assumption. specialize (Hoz z Hz). lia. }
    destruct Hsh as [Hc' O V F T M E']. destruct Hpg as (pg & Epg & Eps). split; try assumption.
    + intros q κ k Hκ. rewrite O, lookup_insert by assumption. case_decide as Hq.
      * subst q. split; [destruct Hκ; congruence|tauto].
      * split; [intros ?; split; [congruence|assumption]|tauto].
    + intros f'. rewrite V, !available_iff. unfold free_frame, cached_frame.
      rewrite (frames_retag Free _ _ _ _ _ f' Hp), (frames_retag Cached _ _ _ _ _ f' Hp).
      rewrite (frames_other Free _ _ _ _ f' Hp), (frames_other Cached _ _ _ _ f' Hp). intuition congruence.
    + intros q. rewrite F, Eps. apply (upd_page_flags p f); [exact Epg|reflexivity].
    + intros z. rewrite T, Hfs, Ecnt. unfold insert, fn_insert. repeat case_decide; subst; try lia; congruence.
    + intros z. rewrite M, Hzn. reflexivity.
    + etransitivity; eassumption.
  - eexists _, s2. split; [reflexivity|]. eapply push_released; try eassumption; try reflexivity.
    intros z. unfold PMM_PCP_HIGH, PMM_PCP_BATCH. destruct (decide (z = pmmZoneOfPfn p)) as [->|Hz]; [lia|].
    specialize (Hoz z Hz). lia.
Qed.

Lemma buddy_released A s p order :
  core A s -> A !! p = Some (Held, order) -> (forall z, p_cacheCount s z <= PMM_PCP_HIGH) ->
  exists s1 b A', upd_pg p (fun p => set_refcount 0 (set_order 0 (set_state PAGE_STATE_TAIL p))) s = Ret s1 /\
    buddyFreeBlock (pmmZoneOfPfn p) p order (p_buddy s1) = Some b /\
    released A s p order A' (with_buddy b s1).
Proof.
  intros Hc Hp Hb. set (f := fun p => set_refcount 0 (set_order 0 (set_state PAGE_STATE_TAIL p))).
  destruct (upd_pg_ok A s p Held order f Hc Hp) as (pg & Epg & E1).
  set (s1 := reshape s (<[p := f pg]> (bs_pages (p_buddy s))) (bs_list (p_buddy s)) (p_cacheCount s)) in *.
  assert (Hc1 : core (<[p := (Float, order)]> A) s1).
  { eapply core_retag; try eassumption; try reflexivity; try discriminate.
    - eapply lists_unlisted; [apply (rep_lists _ _ (c_rep _ _ Hc))|exact Hp|auto|auto].
    - apply (c_cache _ _ Hc). }
  destruct (core_buddyFree _ s1 p order Hc1 (lookup_insert_eq _ _ _)) as (b & A' & E & Hc' & Hf & Hbf & Hs).
  exists s1, b, A'. split; [exact E1|]. split; [exact E|]. split; try assumption.
  - intros q κ k Hκ. rewrite (fr_others _ _ _ _ Hf) by (destruct Hκ; subst; discriminate).
    rewrite lookup_insert. case_decide; [subst; tauto|]. tauto.
  - intros f'. rewrite !available_iff, (fr_frames _ _ _ _ Hf), (freed_cached _ _ _ _ f' Hf) by apply lookup_insert_eq.
    unfold free_frame, cached_frame.
    rewrite (frames_retag Free _ _ _ _ _ f' Hp), (frames_retag Cached _ _ _ _ _ f' Hp).
    rewrite (frames_other Free _ _ _ _ f' Hp), (frames_other Cached _ _ _ _ f' Hp). intuition congruence.
  - intros q. simpl. rewrite (bf_flags _ _ Hbf). apply (upd_page_flags p f); [exact Epg|reflexivity].
  - intros z. simpl. rewrite Hs. simpl. repeat case_decide; subst; try lia; congruence.
  - intros z. simpl. rewrite (bf_managed _ _ Hbf). reflexivity.
  - repeat split.
Qed.
