(* ===== verification/PmmClient.v ===== *)
(** * Clients of the physical memory manager

    The public operations of Pmm run as their callers run them: a client machine
    that allocates, frees what it holds, and drains the per-CPU cache.  The
    invariant [pmm_inv] is the contract between the manager and its callers; the
    theorems show every operation keeps it and what each caller may rely on. *)

From stdpp Require Import strings functions.
From S2P Require Import Prelude BootTypes BootInfoCheck Buddy PmmMap EarlyAlloc Pmm.

(** ** Freeing *)

(** The block of a held page after the poisoning loop of a debug build. *)
Lemma poison_held debug L A s p order :
  pmm_inv debug L A s -> A !! p = Some (Held, order) ->
  exists ps mem, (if debug then for_frames (Z.to_nat (1 <<! order)) p pmmPoisonPage s else Ret s) =
      Ret (remark s ps mem) /\
    flags_in (bs_pages (p_buddy s)) p (2 ^ order) (if debug then PAGE_F_POISONED else 0) ps /\
    (debug = true -> forall f, in_block p order f -> frame_words (remark s ps mem) f PMM_POISON) /\
    mem_confined s (remark s ps mem) (in_block p order).
Proof.
  intros Hi Hp. pose proof (i_core _ _ _ _ Hi) as Hc.
  destruct (block_range A s p Held order Hc Hp) as (Hp0 & Hpe & Ho & _ & Hbk).
  pose proof (pow2_pos order ltac:(lia)) as Hpos.
  pose proof (fun f pg => held_flags debug L A s p order f pg Hi Hp) as Hfl. unfold in_block in *. destruct debug.
  - rewrite shl1_u64 by (apply in_bits; assumption).
    destruct (poison_loop (Z.to_nat (2 ^ order)) A s p Hc Hp0) as (ps & mem & E & Hin & Hw & Hm);
      rewrite Z2Nat.id in * by lia; auto.
    exists ps, mem. auto.
  - exists (bs_pages (p_buddy s)), (p_mem s). split; [destruct s as [? ? ? []]; reflexivity|].
    split; [|split; [discriminate|intros f w _ _; reflexivity]].
    intros q. case_decide as Hq; [|reflexivity].
    destruct (bs_pages (p_buddy s) !! q) as [pg|] eqn:Eq; [|reflexivity].
    simpl. f_equal. specialize (Hfl q pg Hq Eq). destruct pg. simpl in *. subst. reflexivity.
Qed.

Lemma held_total_nonneg L z : (forall p k, (p, k) ∈ L -> 0 <= k) -> 0 <= held_total L z.
Proof.
  induction L as [|[p k] L IH]; intros H; [unfold held_total; simpl; lia|]. rewrite held_total_cons.
  assert (0 <= held_total L z) by (apply IH; intros q j Hq; apply (H q j), elem_of_cons; auto).
  assert (0 <= k) by (apply (H p k), elem_of_cons; auto). pose proof (pow2_pos k). case_decide; lia.
Qed.

Lemma released_inv debug L A s p order ps mem A' s' :
  pmm_inv debug ((p, order) :: L) A s ->
  flags_in (bs_pages (p_buddy s)) p (2 ^ order) (if debug then PAGE_F_POISONED else 0) ps ->
  (debug = true -> forall f, in_block p order f -> frame_words (remark s ps mem) f PMM_POISON) ->
  mem_confined s (remark s ps mem) (in_block p order) ->
  released A (remark s ps mem) p order A' s' -> pmm_inv debug L A' s'.
Proof.
  intros Hi Hfl Hw Hm Hr. destruct (rl_env _ _ _ _ _ _ Hr) as (_ & _ & Ehh & Emem & _).
  assert (Hwd : forall f w, word_at s' f w = word_at (remark s ps mem) f w).
  { intros f w. unfold word_at. rewrite Ehh, Emem. reflexivity. }
  assert (Hp : A !! p = Some (Held, order)) by (apply (i_held _ _ _ _ Hi), elem_of_cons; auto).
  pose proof (i_nodup _ _ _ _ Hi) as Hnd. apply NoDup_cons in Hnd as [Hnp Hnd]. split.
  - apply (rl_core _ _ _ _ _ _ Hr).
  - intros q k Hq. apply (rl_others _ _ _ _ _ _ Hr) in Hq as [_ Hq]; [|auto]. exact (i_settled _ _ _ _ Hi q k Hq).
  - intros q k. rewrite (rl_others _ _ _ _ _ _ Hr), <- (i_held _ _ _ _ Hi), elem_of_cons by auto. split.
    + intros Hq. split; [|auto]. intros ->. apply Hnp. assert (A !! p = Some (Held, k)) as E.
      { apply (i_held _ _ _ _ Hi), elem_of_cons. auto. }
      rewrite Hp in E. injection E as ->. assumption.
    + intros [Hne [[= -> ->]|Hq]]; [contradiction|assumption].
  - assumption.
  - apply (rl_cache _ _ _ _ _ _ Hr).
  - intros z. rewrite (rl_managed _ _ _ _ _ _ Hr), (rl_total _ _ _ _ _ _ Hr). simpl.
    rewrite (i_account _ _ _ _ Hi), held_total_cons. f_equal. lia.
  - intros f pg E. pose proof (rl_flags _ _ _ _ _ _ Hr f) as Hff. rewrite E in Hff. simpl in Hff. rewrite Hfl in Hff.
    destruct (bs_pages (p_buddy s) !! f) as [pg0|] eqn:E0; [|case_decide; discriminate]. case_decide as Hf.
    + simpl in Hff. injection Hff as ->. destruct debug; [right|left; reflexivity]. split; [reflexivity|].
      split; [reflexivity|]. split; [intros w Hw'; rewrite Hwd; apply Hw; auto|].
      apply (rl_available _ _ _ _ _ _ Hr). auto.
    + simpl in Hff. injection Hff as ->. destruct (i_poison _ _ _ _ Hi f pg0 E0) as [?|(? & ? & Hw0 & Hav)]; [auto|right].
      split; [assumption|]. split; [assumption|]. split; [|apply (rl_available _ _ _ _ _ _ Hr); auto].
      intros w Hw'. rewrite Hwd, Hm by (unfold in_block; assumption). apply Hw0, Hw'.
Qed.

Lemma pmmFreePages_spec debug L A s p order :
  pmm_inv debug ((p, order) :: L) A s ->
  exists A' s', pmmFreePages debug (pageFromPfn p) order s = Ret s' /\ pmm_inv debug L A' s' /\
    (forall f, available A' f <-> available A f \/ in_block p order f) /\
    p_map s' = p_map s /\ mem_confined s s' (in_block p order).
Proof.
  intros Hi. assert (Hp : A !! p = Some (Held, order)) by (apply (i_held _ _ _ _ Hi), elem_of_cons; auto).
  unfold pmmFreePages. rewrite (validate_held _ _ _ _ _ _ Hi Hp). cbn [mbind outcome_bind].
  destruct (poison_held _ _ _ _ _ _ Hi Hp) as (ps & mem & -> & Hfl & Hw & Hm). cbn [mbind outcome_bind].
  assert (Hc1 : core A (remark s ps mem)) by (apply core_remark; [apply Hi|eapply flags_in_only, Hfl]).
  pose proof (i_cache _ _ _ _ Hi) as Hca.
  assert (Hrel : exists A' s', (if order =? 0 then pmmCacheFreeLocked (pmmZoneOfPfn p) p (remark s ps mem)
    else s1 ← upd_pg p (fun p => set_refcount 0 (set_order 0 (set_state PAGE_STATE_TAIL p))) (remark s ps mem);
         b ← access (buddyFreeBlock (pmmZoneOfPfn p) p order (p_buddy s1)); Ret (with_buddy b s1)) = Ret s' /\
    released A (remark s ps mem) p order A' s').
  { destruct (Z.eqb_spec order 0) as [->|Hne]; [apply pmmCacheFreeLocked_spec; assumption|].
    destruct (buddy_released A (remark s ps mem) p order Hc1 Hp Hca) as (s1 & b & A' & -> & E & Hr).
    cbn [mbind outcome_bind]. rewrite E. cbn [access mbind outcome_bind]. eauto. }
  destruct Hrel as (A' & s' & E & Hr). exists A', s'. split; [exact E|]. split; [eapply released_inv; eassumption|].
  destruct (rl_env _ _ _ _ _ _ Hr) as (Emap & _ & Ehh & Emem & _).
  split; [apply (rl_available _ _ _ _ _ _ Hr)|]. split; [exact Emap|].
  intros f w Hw' Hf. rewrite <- (Hm f w Hw' Hf). unfold word_at. rewrite Ehh, Emem. reflexivity.
Qed.

(** ** Draining *)

Lemma shuffle_inv debug L A s A' s' :
  pmm_inv debug L A s -> shuffle A s A' s' -> (forall z, p_cacheCount s' z <= PMM_PCP_HIGH) -> pmm_inv debug L A' s'.
Proof.
  intros Hi [Hc O V F T M (Emap & _ & Ehh & Emem & _)] Hb. split; try assumption.
  - intros p k Hp. apply O in Hp; [|auto]. exact (i_settled _ _ _ _ Hi p k Hp).
  - intros p k. rewrite O by auto. apply (i_held _ _ _ _ Hi).
  - apply (i_nodup _ _ _ _ Hi).
  - intros z. rewrite M, T. apply (i_account _ _ _ _ Hi).
  - intros f pg E. pose proof (F f) as Hff. rewrite E in Hff.
    destruct (bs_pages (p_buddy s) !! f) as [pg0|] eqn:E0; [|discriminate]. simpl in Hff. injection Hff as ->.
    destruct (i_poison _ _ _ _ Hi f pg0 E0) as [?|(? & ? & Hw & Hav)]; [auto|right].
    split; [assumption|]. split; [assumption|]. split; [|apply V, Hav].
    intros w Hw'. unfold word_at. rewrite Ehh, Emem. apply Hw, Hw'.
Qed.

Lemma pmmDrainLocalCache_spec debug L A s :
  pmm_inv debug L A s ->
  exists A' s', pmmDrainLocalCache s = Ret s' /\ pmm_inv debug L A' s' /\ shuffle A s A' s' /\
    (forall z, p_cacheCount s' z = 0) /\ forall p k, A' !! p <> Some (Cached, k).
Proof.
  intros Hi. pose proof (i_core _ _ _ _ Hi) as Hc. pose proof (i_cache _ _ _ _ Hi) as Hb.
  unfold PMM_PCP_HIGH, PMM_PCP_BATCH in Hb. unfold pmmDrainLocalCache.
  destruct (drain_zone_spec (S (length (bs_list (p_buddy s) (CacheList PMM_ZONE_DMA32)))) PMM_ZONE_DMA32 A s Hc)
    as (A1 & s1 & E1 & Hsh1 & Hz1 & Ho1).
  { specialize (Hb PMM_ZONE_DMA32). lia. }
  { rewrite (c_cache _ _ Hc). unfold zlen. lia. }
  rewrite E1. cbn [mbind outcome_bind]. pose proof (sh_core _ _ _ _ Hsh1) as Hc1.
  destruct (drain_zone_spec (S (length (bs_list (p_buddy s1) (CacheList PMM_ZONE_NORMAL)))) PMM_ZONE_NORMAL A1 s1 Hc1)
    as (A2 & s2 & E2 & Hsh2 & Hz2 & Ho2).
  { rewrite Ho1 by discriminate. specialize (Hb PMM_ZONE_NORMAL). lia. }
  { rewrite (c_cache _ _ Hc1). unfold zlen. lia. }
  assert (Hsh : shuffle A s A2 s2) by (eapply shuffle_trans; eassumption).
  assert (Hz : forall z, p_cacheCount s2 z = 0).
  { intros []; [rewrite Ho2 by discriminate; exact Hz1|exact Hz2]. }
  exists A2, s2. split; [exact E2|]. split; [|split; [assumption|split; [assumption|]]].
  - eapply shuffle_inv; [eassumption|assumption|]. intros z. rewrite Hz. unfold PMM_PCP_HIGH, PMM_PCP_BATCH. lia.
  - intros p k Hp. pose proof (sh_core _ _ _ _ Hsh) as Hc2.
    destruct (po_shape _ _ (rep_pages _ _ (c_rep _ _ Hc2)) _ _ _ Hp) as (_ & _ & _ & Hk). rewrite Hk in Hp by reflexivity.
    assert (Hin : p ∈ bs_list (p_buddy s2) (CacheList (pmmZoneOfPfn p))).
    { apply (lo_listed _ _ (rep_lists _ _ (c_rep _ _ Hc2))). split; auto. }
    pose proof (Hz (pmmZoneOfPfn p)) as H0. rewrite (c_cache _ _ Hc2) in H0.
    destruct (bs_list (p_buddy s2) (CacheList (pmmZoneOfPfn p))); [inversion Hin|]. rewrite zlen_cons in H0.
    pose proof (zlen_nonneg l). lia.
Qed.

(** ** The client machine *)

(** The requests a client of the pmm makes: an allocation, the free of its [i]-th
    block, a drain of the caches, and a store into one of its own blocks. *)
Inductive request :=
  | Alloc (order flags : Z)
  | Release (i : nat)
  | Drain
  | Store (i : nat) (word v : Z).

Definition store_word (p word v : Z) (s : Pmm) : Pmm :=
  with_mem (<[p_hhdmBase s + 4096 * p + 8 * word := v]> (p_mem s)) s.

(** The blocks held, as first frame and order, and the manager. *)
Definition serve (debug : bool) (r : request) (st : list (Z * Z) * Pmm) : outcome (list (Z * Z) * Pmm) :=
  let '(L, s) := st in
  match r with
  | Alloc order flags =>
      '(_, page, s) ← pmmAllocPages debug order flags s;
      Ret (match page with Some page => (pageToPfn page, order) :: L | None => L end, s)
  | Release i =>
      match L !! i with
      | Some (p, order) => s ← pmmFreePages debug (pageFromPfn p) order s; Ret (delete i L, s)
      | None => Ret (L, s)
      end
  | Drain => s ← pmmDrainLocalCache s; Ret (L, s)
  | Store i word v =>
      match L !! i with
      | Some (p, order) =>
          Ret (L, if (0 <=? word) && (word <? 512 * 2 ^ order) then store_word p word v s else s)
      | None => Ret (L, s)
      end
  end.

Fixpoint serve_all (debug : bool) (rs : list request) (st : list (Z * Z) * Pmm) : outcome (list (Z * Z) * Pmm) :=
  match rs with
  | [] => Ret st
  | r :: rs => st ← serve debug r st; serve_all debug rs st
  end.

(** The arguments are C unsigned integers. *)
Definition wf_request (r : request) : Prop :=
  match r with Alloc order flags => 0 <= order /\ 0 <= flags | _ => True end.

Definition held_frame (L : list (Z * Z)) (f : Z) : Prop := exists p k, (p, k) ∈ L /\ in_block p k f.

(** No frame is lost and none appears. *)
Definition conserved (L : list (Z * Z)) (A : blocks) (L' : list (Z * Z)) (A' : blocks) : Prop :=
  forall f, available A' f \/ held_frame L' f <-> available A f \/ held_frame L f.

Lemma conserved_trans L A L1 A1 L2 A2 : conserved L A L1 A1 -> conserved L1 A1 L2 A2 -> conserved L A L2 A2.
Proof. intros H1 H2 f. rewrite (H2 f). apply H1. Qed.

Lemma held_frame_cons p k L f : held_frame ((p, k) :: L) f <-> in_block p k f \/ held_frame L f.
Proof.
  unfold held_frame. split.
  - intros (q & j & [[= -> ->]|Hin]%elem_of_cons & Hf); eauto.
  - intros [Hf|(q & j & Hin & Hf)]; [exists p, k|exists q, j]; (split; [apply elem_of_cons; auto|assumption]).
Qed.

Lemma held_frame_perm L L' f : L ≡ₚ L' -> held_frame L f <-> held_frame L' f.
Proof. intros HL. unfold held_frame. setoid_rewrite HL. reflexivity. Qed.

(** Frames of different blocks are different frames. *)
Lemma held_apart debug L A s p k q j f :
  pmm_inv debug L A s -> (p, k) ∈ L -> (q, j) ∈ L -> in_block p k f -> in_block q j f -> p = q /\ k = j.
Proof.
  intros Hi Hp Hq Hf Hf'. apply (i_held _ _ _ _ Hi) in Hp, Hq.
  assert (p = q) as ->.
  { eapply (po_disjoint _ _ (rep_pages _ _ (c_rep _ _ (i_core _ _ _ _ Hi)))); split; eassumption. }
  split; congruence.
Qed.

Lemma held_not_available debug L A s p k f :
  pmm_inv debug L A s -> (p, k) ∈ L -> in_block p k f -> ~ available A f.
Proof.
  intros Hi Hp Hf (q & κ & j & Hh & Hκ). apply (i_held _ _ _ _ Hi) in Hp.
  pose proof (po_disjoint _ _ (rep_pages _ _ (c_rep _ _ (i_core _ _ _ _ Hi))) _ _ _ _ _ _ _ Hh (conj Hp Hf)). subst q.
  destruct Hh as [Hh _]. rewrite Hp in Hh. destruct Hκ; congruence.
Qed.

(** A store of a client stays inside its block. *)
Lemma store_word_confined s p k word v :
  0 <= word < 512 * 2 ^ k -> mem_confined s (store_word p word v s) (in_block p k).
Proof.
  intros Hw f w Hw' Hf. unfold word_at, store_word. simpl. apply fn_lookup_insert_ne. unfold in_block in Hf. lia.
Qed.

(** The contents of frames that are not available are nobody's concern. *)
Lemma pmm_inv_mem debug L A s mem :
  pmm_inv debug L A s ->
  (forall f w, available A f -> 0 <= w < 512 -> word_at (with_mem mem s) f w = word_at s f w) ->
  pmm_inv debug L A (with_mem mem s).
Proof.
  intros [[Hr Hco Hl Hca Hbk Hsp Hh] Hs Hhe Hn Hcl Hac Hpo] Hm. split; try assumption; [split; assumption|].
  intros f pg E. destruct (Hpo f pg E) as [?|(? & ? & Hfw & Hav)]; [auto|right]. split; [assumption|].
  split; [assumption|]. split; [|assumption]. intros w Hw. rewrite Hm by assumption. apply Hfw, Hw.
Qed.

Lemma store_inv debug L A s p k word v :
  pmm_inv debug L A s -> (p, k) ∈ L -> 0 <= word < 512 * 2 ^ k -> pmm_inv debug L A (store_word p word v s).
Proof.
  intros Hi Hp Hw. apply pmm_inv_mem; [assumption|]. intros f w Hav Hw'.
  apply (store_word_confined s p k word v Hw); [assumption|]. intros Hf.
  exact (held_not_available debug L A s p k f Hi Hp Hf Hav).
Qed.

Lemma pmmAllocPages_invalid debug order flags s :
  PMM_MAX_ORDER < order \/ flags .& not32 PMM_FLAGS_VALID <> 0 ->
  pmmAllocPages debug order flags s = Ret (STATUS_ERR_INVALID, None, s).
Proof.
  intros H. unfold pmmAllocPages. destruct H as [H|H].
  - rewrite (proj2 (Z.ltb_lt _ _) H). reflexivity.
  - rewrite (proj2 (Z.eqb_neq _ _) H), orb_true_r. reflexivity.
Qed.

Lemma serve_step debug r L A s :
  pmm_inv debug L A s -> wf_request r ->
  exists L' A' s', serve debug r (L, s) = Ret (L', s') /\ pmm_inv debug L' A' s' /\ conserved L A L' A' /\
    p_map s' = p_map s.
Proof.
  intros Hi Hr. assert (Hid : conserved L A L A) by (intros f; reflexivity).
  destruct r as [order flags|i| |i word v]; cbn [serve wf_request] in *.
  - destruct (decide (order <= PMM_MAX_ORDER /\ flags .& not32 PMM_FLAGS_VALID = 0)) as [[Ho Hf]|Hbad].
    + destruct (pmmAllocPages_spec debug L A s order flags Hi ltac:(lia) Hf) as
        [(p & A' & s' & E & Hi' & Hav & Ha & Hp & _ & _ & _ & Hm & _)|[E _]]; rewrite E; cbn [mbind outcome_bind].
      * destruct (pageFromPfn_small p Hp) as [_ Ep]. rewrite Ep. eexists _, A', s'. split; [reflexivity|].
        split; [assumption|]. split; [|exact Hm]. intros f. rewrite held_frame_cons.
        rewrite (Hav f). tauto.
      * exists L, A, s. auto.
    + rewrite pmmAllocPages_invalid by (destruct (decide (order <= PMM_MAX_ORDER)); [right; tauto|left; lia]).
      exists L, A, s. auto.
  - destruct (L !! i) as [[p order]|] eqn:Ei; [|exists L, A, s; auto].
    pose proof (delete_Permutation L i (p, order) Ei) as HL.
    destruct (pmmFreePages_spec debug (delete i L) A s p order) as (A' & s' & E & Hi' & Hav & Hm & _).
    { eapply pmm_inv_perm; eassumption. }
    rewrite E. cbn [mbind outcome_bind]. exists (delete i L), A', s'. split; [reflexivity|]. split; [assumption|].
    split; [|assumption]. intros f. rewrite (held_frame_perm L _ f HL), held_frame_cons, Hav. tauto.
  - destruct (pmmDrainLocalCache_spec debug L A s Hi) as (A' & s' & E & Hi' & Hsh & _). rewrite E.
    cbn [mbind outcome_bind]. exists L, A', s'. split; [reflexivity|]. split; [assumption|]. split; [|apply Hsh].
    intros f. rewrite (sh_available _ _ _ _ Hsh). reflexivity.
  - destruct (L !! i) as [[p order]|] eqn:Ei; [|exists L, A, s; auto].
    eexists L, A, _. split; [reflexivity|]. destruct ((0 <=? word) && (word <? 512 * 2 ^ order)) eqn:Ew; [|auto].
    bprop. split; [eapply store_inv; [eassumption|apply list_elem_of_lookup; eauto|lia]|]. auto.
Qed.

Lemma serve_all_steps debug rs : forall L A s,
  pmm_inv debug L A s -> Forall wf_request rs ->
  exists L' A' s', serve_all debug rs (L, s) = Ret (L', s') /\ pmm_inv debug L' A' s' /\ conserved L A L' A' /\
    p_map s' = p_map s.
Proof.
  induction rs as [|r rs IH]; intros L A s Hi Hrs.
  - exists L, A, s. split; [reflexivity|]. split; [assumption|]. split; [intros f; reflexivity|reflexivity].
  - inversion Hrs as [|? ? Hr Hrs']; subst.
    destruct (serve_step debug r L A s Hi Hr) as (L1 & A1 & s1 & E1 & Hi1 & Hc1 & Hm1).
    destruct (IH L1 A1 s1 Hi1 Hrs') as (L' & A' & s' & E & Hi' & Hc & Hm).
    exists L', A', s'. cbn [serve_all]. rewrite E1. cbn [mbind outcome_bind].
    split; [exact E|]. split; [assumption|]. split; [eapply conserved_trans; eassumption|congruence].
Qed.

(** What a client may rely on about the blocks it holds. *)
Record blocks_granted (map : PmmMap) (L : list (Z * Z)) : Prop := {
  bg_shape : forall p k, (p, k) ∈ L -> 0 <= p /\ 0 <= k <= PMM_MAX_ORDER /\ (2 ^ k | p);
  bg_backed : forall p k f, (p, k) ∈ L -> in_block p k f -> in_spans (pm_spans map) f;
  bg_apart : forall i j p k q l f, L !! i = Some (p, k) -> L !! j = Some (q, l) ->
    in_block p k f -> in_block q l f -> i = j
}.

Lemma inv_blocks_granted debug L A s : pmm_inv debug L A s -> blocks_granted (p_map s) L.
Proof.
  intros Hi. pose proof (i_core _ _ _ _ Hi) as Hc. split.
  - intros p k Hp. apply (i_held _ _ _ _ Hi) in Hp.
    destruct (block_range A s p Held k Hc Hp) as (? & _ & ? & ? & _). auto.
  - intros p k f Hp Hf. apply (i_held _ _ _ _ Hi) in Hp. apply (c_backed _ _ Hc).
    destruct (block_range A s p Held k Hc Hp) as (_ & _ & _ & _ & H). auto.
  - intros i j p k q l f Ei Ej Hf Hf'.
    destruct (held_apart debug L A s p k q l f Hi) as [-> ->]; try (apply list_elem_of_lookup; eauto); try assumption.
    eapply NoDup_lookup; [apply (i_nodup _ _ _ _ Hi)|eassumption..].
Qed.

(** C1: A machine of clients never breaks the manager.  From a state that
    satisfies the invariant, every sequence of allocations, frees of held blocks,
    drains and stores into held blocks is served to the end without a panic, a
    bug report or a wild access; the invariant holds again, the blocks the
    clients hold are aligned, backed by memory of the map and pairwise disjoint,
    and no frame is lost: available and held frames together are what they were. *)
Theorem pmm_client_safe debug A s rs :
  pmm_inv debug [] A s -> Forall wf_request rs ->
  exists L A' s', serve_all debug rs ([], s) = Ret (L, s') /\ pmm_inv debug L A' s' /\
    blocks_granted (p_map s) L /\ (forall f, available A f <-> available A' f \/ held_frame L f).
Proof.
  intros Hi Hrs. destruct (serve_all_steps debug rs [] A s Hi Hrs) as (L & A' & s' & E & Hi' & Hc & Hm).
  exists L, A', s'. split; [exact E|]. split; [assumption|].
  split; [rewrite <- Hm; eapply inv_blocks_granted, Hi'|]. intros f. rewrite (Hc f).
  split; [auto|]. intros [?|(p & k & Hin & _)]; [assumption|inversion Hin].
Qed.

(** C15: Nothing leaks and nothing fragments for good.  When the clients have
    returned every block and the caches are drained, the free blocks are exactly
    those of the start, however the requests were interleaved. *)
Theorem pmm_all_returned_restores debug A s rs s1 :
  pmm_inv debug [] A s -> (forall p k, A !! p <> Some (Cached, k)) -> Forall wf_request rs ->
  serve_all debug rs ([], s) = Ret ([], s1) ->
  exists s2, pmmDrainLocalCache s1 = Ret s2 /\ pmm_inv debug [] A s2 /\ (forall z, p_cacheCount s2 z = 0).
Proof.
  intros Hi Hnc Hrs E1. destruct (serve_all_steps debug rs [] A s Hi Hrs) as (L & A1 & s1' & E & Hi1 & Hc & _).
  rewrite E1 in E. injection E as <- <-.
  destruct (pmmDrainLocalCache_spec debug [] A1 s1 Hi1) as (A2 & s2 & E2 & Hi2 & Hsh & Hz & Hnc2).
  exists s2. split; [exact E2|]. split; [|exact Hz].
  assert (Hnone : forall B st q κ j, pmm_inv debug [] B st -> (forall p k, B !! p <> Some (Cached, k)) ->
    κ <> Free -> B !! q <> Some (κ, j)).
  { intros B st q κ j Hib Hnb Hκ Hq. destruct κ; try contradiction.
    - exact (Hnb q j Hq).
    - apply (i_held _ _ _ _ Hib) in Hq. inversion Hq.
    - exact (i_settled _ _ _ _ Hib q j Hq). }
  assert (Hfree : forall B f, (forall p k, B !! p <> Some (Cached, k)) -> available B f <-> free_frame B f).
  { intros B f Hnb. rewrite available_iff. split; [|auto]. intros [?|(p & k & Hp & _)]; [assumption|destruct (Hnb p k Hp)]. }
  assert (A2 = A) as ->; [|assumption].
  eapply coalesced_canonical; [apply (rep_pages _ _ (c_rep _ _ (i_core _ _ _ _ Hi2)))
    |apply (rep_pages _ _ (c_rep _ _ (i_core _ _ _ _ Hi)))|apply (c_coalesced _ _ (i_core _ _ _ _ Hi2))
    |apply (c_coalesced _ _ (i_core _ _ _ _ Hi))| |].
  - intros f. rewrite <- !Hfree by assumption. rewrite (sh_available _ _ _ _ Hsh).
    specialize (Hc f). unfold held_frame in Hc. split; intros Ha;
      [destruct (proj1 Hc (or_introl Ha)) as [?|(? & ? & Hin & _)]|destruct (proj2 Hc (or_introl Ha)) as [?|(? & ? & Hin & _)]];
      try assumption; inversion Hin.
  - intros q κ j Hκ. split; intros Hq; exfalso; [eapply (Hnone A2)|eapply (Hnone A)]; eassumption.
Qed.

(** The words of a block. *)
Definition block_words (s s' : Pmm) (p k : Z) : Prop :=
  forall f w, in_block p k f -> 0 <= w < 512 -> word_at s' f w = word_at s f w.

(** C33: Clients do not see each other.  No request but a store changes a word of
    a block that is held before and after it: not the zeroing or the poison check
    of an allocation, not the poisoning of a free, not a drain.  A store changes
    only the block it names. *)
Theorem pmm_client_isolated debug L A s r L' s' p k :
  pmm_inv debug L A s -> wf_request r -> serve debug r (L, s) = Ret (L', s') ->
  (p, k) ∈ L -> (p, k) ∈ L' -> (forall i w v, r = Store i w v -> L !! i <> Some (p, k)) ->
  block_words s s' p k.
Proof.
  intros Hi Hr E Hp Hp' Hst f w Hf Hw.
  assert (Hout : forall s' q j, mem_confined s s' (in_block q j) -> ~ in_block q j f -> word_at s' f w = word_at s f w)
    by (intros ? q j Hm Hn; apply Hm; assumption).
  destruct r as [order flags|i| |i word v]; cbn [serve wf_request] in *.
  - destruct (decide (order <= PMM_MAX_ORDER /\ flags .& not32 PMM_FLAGS_VALID = 0)) as [[Ho Hfl]|Hbad].
    + destruct (pmmAllocPages_spec debug L A s order flags Hi ltac:(lia) Hfl) as
        [(q & A' & s2 & E' & _ & Hav & _ & _ & _ & _ & Hm & _)|[E' _]]; rewrite E' in E; injection E as <- <-; [|reflexivity].
      apply (Hout _ q order); [assumption|]. intros Hq. eapply held_not_available; [eassumption..|]. apply Hav. auto.
    + rewrite pmmAllocPages_invalid in E by (destruct (decide (order <= PMM_MAX_ORDER)); [right; tauto|left; lia]).
      injection E as <- <-. reflexivity.
  - destruct (L !! i) as [[q order]|] eqn:Ei; [|injection E as <- <-; reflexivity].
    pose proof (delete_Permutation L i (q, order) Ei) as HL.
    pose proof (pmm_inv_perm _ _ _ _ _ HL Hi) as Hi0.
    destruct (pmmFreePages_spec debug (delete i L) A s q order Hi0) as (A' & s2 & E' & _ & _ & _ & Hm).
    rewrite E' in E. injection E as <- <-. apply (Hout _ q order); [assumption|]. intros Hq.
    destruct (held_apart debug L A s p k q order f Hi) as [-> ->]; auto; [apply list_elem_of_lookup; eauto|].
    pose proof (i_nodup _ _ _ _ Hi0) as Hnd. apply NoDup_cons in Hnd. tauto.
  - destruct (pmmDrainLocalCache_spec debug L A s Hi) as (A' & s2 & E' & _ & Hsh & _). rewrite E' in E.
    injection E as <- <-. destruct (sh_env _ _ _ _ Hsh) as (_ & _ & Eh & Em & _). unfold word_at. rewrite Eh, Em. reflexivity.
  - destruct (L !! i) as [[q order]|] eqn:Ei; injection E as <- <-; [|reflexivity].
    destruct ((0 <=? word) && (word <? 512 * 2 ^ order)) eqn:Ew; [|reflexivity]. bprop.
    apply (Hout _ q order); [apply store_word_confined; lia|]. intros Hq.
    destruct (held_apart debug L A s p k q order f Hi) as [-> ->]; auto; [apply list_elem_of_lookup; eauto|].
    exact (Hst i word v eq_refl Ei).
Qed.
(** C16: Every call of [pmmFreePages] is judged correctly before anything changes.
    A free passes exactly for the head of an allocated block with its own order
    and no owner mark left on it; every other call is reported as the mistake it
    is: not a page of the array, an order or alignment that cannot be, the wrong
    order, memory that is already free (as a head, in the cache, or inside a
    free block), the inside of a live block, or a frame that was never managed. *)
Theorem pmmValidateForFree_exact A s page order :
  core A s -> (forall p k, A !! p <> Some (Float, k)) -> is_u64 page -> 0 <= order < 2 ^ 32 ->
  match pmmValidateForFree page order s with
  | Ret pfn => page = pageFromPfn pfn /\ A !! pfn = Some (Held, order) /\ unowned s pfn order
  | Bug kind pfn => diagnosis A s page order kind pfn
  | _ => False
  end.
Proof. apply validate_diagnosis. Qed.

(** C28: The outcome of an allocation.  An order above the maximum or an unknown
    flag is refused; otherwise the call fails only when no zone it may use has a
    free block of that size (or, for a single page, a cached page), and a failed
    call changes nothing.  A granted block is aligned to its size, consists of
    frames that were available, respects DMA32, is zeroed on request, and the
    invariant holds with the block added to what clients hold. *)
Theorem pmmAllocPages_exact debug L A s order flags :
  pmm_inv debug L A s -> 0 <= order -> 0 <= flags ->
  exists st page s', pmmAllocPages debug order flags s = Ret (st, page, s') /\
  match st, page with
  | STATUS_OK, Some page => exists p A', page = pageFromPfn p /\ alloc_ok debug L A s order flags p A' s'
  | STATUS_ERR_NO_MEMORY, None =>
      s' = s /\ order <= PMM_MAX_ORDER /\ forall z, z ∈ pmmZoneListFor flags -> exhausted A s z order
  | STATUS_ERR_INVALID, None => s' = s /\ (PMM_MAX_ORDER < order \/ flags .& not32 PMM_FLAGS_VALID <> 0)
  | _, _ => False
  end.
Proof.
  intros Hi Ho Hf.
  destruct (decide (order <= PMM_MAX_ORDER /\ flags .& not32 PMM_FLAGS_VALID = 0)) as [[Hom Hfl]|Hbad].
  - destruct (pmmAllocPages_spec debug L A s order flags Hi ltac:(lia) Hfl) as [(p & A' & s' & -> & Hok)|[-> Hex]].
    + eexists _, _, _. split; [reflexivity|]. exists p, A'. auto.
    + eexists _, _, _. split; [reflexivity|]. cbv beta iota. auto.
  - assert (PMM_MAX_ORDER < order \/ flags .& not32 PMM_FLAGS_VALID <> 0) as Hb
      by (destruct (decide (order <= PMM_MAX_ORDER)); [right; tauto|left; lia]).
    rewrite pmmAllocPages_invalid by assumption. eexists _, _, _. split; [reflexivity|]. cbv beta iota. auto.
Qed.

(** ** Statistics *)

Lemma u64_plus a b : u64 (u64 a + u64 b) = u64 (a + b).
Proof. unfold u64. symmetry. apply Z.add_mod. discriminate. Qed.
Lemma u64_minus a b : u64 (u64 a - u64 b) = u64 (a - b).
Proof. unfold u64. symmetry. apply Zminus_mod. Qed.

(** The counters the manager reports agree with its blocks: a zone's free
    pages are those of its free lists and its cache, and the allocated pages
    are exactly the pages of the blocks clients hold (modulo 2^64). *)
Theorem pmmGetStats_exact debug L A s :
  pmm_inv debug L A s ->
  let st := pmmGetStats s in
  s_allocatedPages st = u64 (held_total L PMM_ZONE_DMA32 + held_total L PMM_ZONE_NORMAL) /\
  s_cachedPages st = zlen (bs_list (p_buddy s) (CacheList PMM_ZONE_DMA32)) +
                     zlen (bs_list (p_buddy s) (CacheList PMM_ZONE_NORMAL)) /\
  (forall z, s_zoneFreePages st z = u64 (free_sum (bs_list (p_buddy s)) z + p_cacheCount s z)) /\
  s_managedPages st = u64 (s_freePages st + s_allocatedPages st).
Proof.
  intros Hi. pose proof (i_core _ _ _ _ Hi) as Hc. pose proof (c_cache _ _ Hc) as Hca.
  pose proof (i_cache _ _ _ _ Hi) as Hb. unfold PMM_PCP_HIGH, PMM_PCP_BATCH in Hb.
  assert (Hc0 : forall z, 0 <= p_cacheCount s z) by (intros z; rewrite Hca; apply zlen_nonneg).
  assert (Hsmall : forall z, u64 (p_cacheCount s z) = p_cacheCount s z).
  { intros z. apply u64_small. specialize (Hb z). specialize (Hc0 z). words. lia. }
  unfold pmmGetStats. cbn [s_allocatedPages s_cachedPages s_zoneFreePages s_managedPages s_freePages].
  rewrite !Z.add_0_l, !(i_account _ _ _ _ Hi), !(c_ledger _ _ Hc).
  assert (Hzf : forall z, u64 (u64 (free_sum (bs_list (p_buddy s)) z) + p_cacheCount s z) =
                          u64 (free_sum (bs_list (p_buddy s)) z + p_cacheCount s z)).
  { intros z. rewrite <- (Hsmall z) at 1. apply u64_plus. }
  rewrite !Hzf, !(u64_small (u64 _)) by apply u64_range. rewrite !u64_plus, u64_minus. split; [f_equal; lia|]. split.
  - rewrite <- !Hca, !Hsmall. apply u64_small. pose proof (Hb PMM_ZONE_DMA32). pose proof (Hb PMM_ZONE_NORMAL).
    pose proof (Hc0 PMM_ZONE_DMA32). pose proof (Hc0 PMM_ZONE_NORMAL). words. lia.
  - split; [intros z; rewrite <- Hzf, (c_ledger _ _ Hc); reflexivity|].
    rewrite <- (u64_plus (_ + (_ + _))), u64_minus, u64_plus. f_equal. lia.
Qed.

(** ** A concrete manager: one chunk of memory, all of it free *)

Definition sample_pmm : Pmm :=
  let map := mkPmmMap [mkSpan 1024 2048] 2048 [mkUsable 1024 2048] [] [] 0 0 0
               (<[BOOT_MEM_USABLE := 1024]> (fun _ => 0)) in
  mkPmm map (pmmEarlyInit map 0xFFFF800000000000) 0xFFFF800000000000 sample_buddy (fun _ => 0) 0 0 0 0
    false false (fun _ => 0).

Lemma sample_pmm_inv debug : pmm_inv debug [] sample_blocks sample_pmm.
Proof.
  assert (Hone : forall p κ k, sample_blocks !! p = Some (κ, k) -> p = 1024 /\ κ = Free /\ k = 10).
  { intros p κ k Hp. unfold sample_blocks in Hp. apply lookup_singleton_Some in Hp as [<- [= <- <-]]. auto. }
  split.
  - split; try apply sample_rep; try apply sample_coalesced; try apply sample_ledger.
    + intros []; reflexivity.
    + intros q. change (bs_pages (p_buddy sample_pmm)) with (<[1024 := freePage 10]> (page_range 1024 1024 tailPage)).
      rewrite lookup_insert_is_Some'. split.
      * intros Hq. exists (mkSpan 1024 2048). split; [apply list_elem_of_singleton; reflexivity|]. simpl.
        destruct Hq as [<-|[pg Hq]]; [lia|]. apply page_range_lookup in Hq. lia.
      * intros (sp & Hsp & Hq). apply list_elem_of_singleton in Hsp as ->. simpl in Hq. right. exists tailPage.
        apply page_range_lookup. split; [lia|reflexivity].
    + split; [|vm_compute; discriminate]. split; [repeat constructor|]. constructor; [|constructor].
      unfold span_ok. rewrite hhdm_pow. simpl. repeat split; try lia; [exists 1|exists 2]; reflexivity.
    + simpl. lia.
  - intros p k Hp. apply Hone in Hp as (_ & ? & _). discriminate.
  - intros p k. split; intros Hp; [inversion Hp|]. apply Hone in Hp as (_ & ? & _). discriminate.
  - constructor.
  - intros z. vm_compute. discriminate.
  - intros []; reflexivity.
  - intros f pg E. left. change (bs_pages (p_buddy sample_pmm)) with (<[1024 := freePage 10]> (page_range 1024 1024 tailPage)) in E.
    rewrite lookup_insert in E. case_decide; [injection E as <-; reflexivity|].
    apply page_range_lookup in E as [_ ->]. reflexivity.
Qed.

(** A trace that splits blocks, fills the cache and returns everything. *)
Definition sample_trace : list request :=
  [Alloc 0 0; Alloc 3 PMM_FLAG_DMA32; Store 0 1 7; Alloc 11 0; Release 1; Alloc 2 PMM_FLAG_ZERO; Release 0; Release 0; Drain].

Lemma sample_trace_wf : Forall wf_request sample_trace.
Proof. repeat constructor; vm_compute; discriminate. Qed.

Lemma pmm_client_safe_witness : exists L A' s',
  serve_all true sample_trace ([], sample_pmm) = Ret (L, s') /\ pmm_inv true L A' s' /\
  blocks_granted (p_map sample_pmm) L /\ (forall f, available sample_blocks f <-> available A' f \/ held_frame L f).
Proof. exact (pmm_client_safe true sample_blocks sample_pmm sample_trace (sample_pmm_inv true) sample_trace_wf). Defined.

Definition held_after (o : outcome (list (Z * Z) * Pmm)) : option (list (Z * Z)) :=
  match o with Ret (L, _) => Some L | _ => None end.

Lemma sample_trace_held : held_after (serve_all true sample_trace ([], sample_pmm)) = Some [].
Proof. vm_compute. reflexivity. Qed.

Lemma held_after_Some o L : held_after o = Some L -> exists s, o = Ret (L, s).
Proof. destruct o as [[L' s]|? |? ?|]; intros [= ->]. eauto. Qed.

Lemma sample_no_cache p k : sample_blocks !! p <> Some (Cached, k).
Proof. unfold sample_blocks. intros Hp. apply lookup_singleton_Some in Hp as [_ ?]. discriminate. Qed.

Lemma pmm_all_returned_restores_witness : exists s1 s2,
  serve_all true sample_trace ([], sample_pmm) = Ret ([], s1) /\
  pmmDrainLocalCache s1 = Ret s2 /\ pmm_inv true [] sample_blocks s2.
Proof.
  destruct (held_after_Some _ _ sample_trace_held) as [s1 E].
  destruct (pmm_all_returned_restores true sample_blocks sample_pmm sample_trace s1 (sample_pmm_inv true)
              sample_no_cache sample_trace_wf E) as (s2 & E2 & Hi & _).
  exists s1, s2. auto.
Defined.

(** The state after a first allocation of order 3. *)
Lemma sample_first : exists A s1, serve true (Alloc 3 0) ([], sample_pmm) = Ret ([(1024, 3)], s1) /\
  pmm_inv true [(1024, 3)] A s1.
Proof.
  destruct (serve_step true (Alloc 3 0) [] sample_blocks sample_pmm (sample_pmm_inv true)) as (L & A & s1 & E & Hi & _).
  { simpl. lia. }
  assert (held_after (serve true (Alloc 3 0) ([], sample_pmm)) = Some [(1024, 3)]) as H by (vm_compute; reflexivity).
  rewrite E in H. injection H as ->. exists A, s1. auto.
Qed.

Lemma pmm_client_isolated_witness : exists s1 s2,
  serve true (Alloc 3 0) ([], sample_pmm) = Ret ([(1024, 3)], s1) /\
  serve true Drain ([(1024, 3)], s1) = Ret ([(1024, 3)], s2) /\ block_words s1 s2 1024 3.
Proof.
  destruct sample_first as (A & s1 & E1 & Hi).
  destruct (pmmDrainLocalCache_spec true _ A s1 Hi) as (A2 & s2 & E2 & _).
  assert (E : serve true Drain ([(1024, 3)], s1) = Ret ([(1024, 3)], s2)) by (cbn [serve]; rewrite E2; reflexivity).
  exists s1, s2. split; [exact E1|]. split; [exact E|].
  apply (pmm_client_isolated true [(1024, 3)] A s1 Drain [(1024, 3)] s2 1024 3 Hi I E).
  - apply list_elem_of_singleton. reflexivity.
  - apply list_elem_of_singleton. reflexivity.
  - discriminate.
Defined.

Lemma pmmValidateForFree_exact_witness : exists A s1,
  pmm_inv true [(1024, 3)] A s1 /\
  match pmmValidateForFree (pageFromPfn 1025) 0 s1 with
  | Ret pfn => pageFromPfn 1025 = pageFromPfn pfn /\ A !! pfn = Some (Held, 0) /\ unowned s1 pfn 0
  | Bug kind pfn => diagnosis A s1 (pageFromPfn 1025) 0 kind pfn
  | _ => False
  end.
Proof.
  destruct sample_first as (A & s1 & _ & Hi). exists A, s1. split; [assumption|].
  apply (pmmValidateForFree_exact A s1 (pageFromPfn 1025) 0); [apply Hi|apply Hi|apply u64_range|lia].
Defined.

Lemma pmmAllocPages_exact_witness : exists st page s',
  pmmAllocPages true 3 PMM_FLAG_ZERO sample_pmm = Ret (st, page, s') /\
  match st, page with
  | STATUS_OK, Some page => exists p A', page = pageFromPfn p /\ alloc_ok true [] sample_blocks sample_pmm 3 PMM_FLAG_ZERO p A' s'
  | STATUS_ERR_NO_MEMORY, None =>
      s' = sample_pmm /\ 3 <= PMM_MAX_ORDER /\ forall z, z ∈ pmmZoneListFor PMM_FLAG_ZERO -> exhausted sample_blocks sample_pmm z 3
  | STATUS_ERR_INVALID, None => s' = sample_pmm /\ (PMM_MAX_ORDER < 3 \/ PMM_FLAG_ZERO .& not32 PMM_FLAGS_VALID <> 0)
  | _, _ => False
  end.
Proof.
  apply (pmmAllocPages_exact true [] sample_blocks sample_pmm 3 PMM_FLAG_ZERO (sample_pmm_inv true)); [lia|].
  vm_compute. discriminate.
Defined.

Lemma pmmGetStats_exact_witness : exists A s1, pmm_inv true [(1024, 3)] A s1 /\ s_allocatedPages (pmmGetStats s1) = 8.
Proof.
  destruct sample_first as (A & s1 & _ & Hi). exists A, s1. split; [assumption|].
  destruct (pmmGetStats_exact true [(1024, 3)] A s1 Hi) as [H _]. rewrite H. reflexivity.
Defined.
