(* ===== verification/PmmRange.v ===== *)
(** * Memory that enters the physical memory manager

    [pmmAddFreeRange] and the reclaim of loader and ACPI memory (Pmm), proved
    against the invariant of the manager: frames that were never managed become
    free blocks, all of a range or none of it. *)

From stdpp Require Import strings functions.
From S2P Require Import Prelude BootTypes BootInfoCheck Buddy PmmMap EarlyAlloc Pmm PmmClient.

(** ** Frames the allocator does not own *)

(** A frame with a page entry that belongs to no block. *)
Definition unmanaged (A : blocks) (s : Pmm) (f : Z) : Prop :=
  is_Some (bs_pages (p_buddy s) !! f) /\ forall q κ k, ~ holds A q κ k f.

Lemma unmanaged_page A s f : core A s -> unmanaged A s f <->
  exists pg, bs_pages (p_buddy s) !! f = Some pg /\ pg_state pg = PAGE_STATE_RESERVED.
Proof.
  intros Hc. pose proof (rep_pages _ _ (c_rep _ _ Hc)) as Hpg. split.
  - intros [[pg E] Hno]. exists pg. split; [exact E|].
    destruct (decide (pg_state pg = PAGE_STATE_RESERVED)) as [|Hne]; [assumption|exfalso].
    destruct (po_owned _ _ Hpg _ _ E Hne) as (q & κ & k & Hh). exact (Hno q κ k Hh).
  - intros (pg & E & Hs). split; [eauto|]. intros q κ k Hh.
    destruct (po_page _ _ Hpg _ _ _ _ Hh) as (pg' & E' & Hs'). simplify_eq. rewrite Hs in Hs'.
    case_decide; [destruct κ|]; discriminate.
Qed.

Lemma all_reserved_spec A s n : forall p,
  core A s -> 0 <= p -> p + Z.of_nat n < 2 ^ 64 ->
  exists b, all_reserved n p s = Ret b /\ (b = true <-> forall f, p <= f < p + Z.of_nat n -> unmanaged A s f).
Proof.
  induction n as [|n IH]; intros p Hc Hp Hn.
  - exists true. split; [reflexivity|]. split; [lia|reflexivity].
  - cbn [all_reserved]. destruct (c_spans _ _ Hc) as [Hsp Hlen].
    destruct (pmmPfnValid_ok p s Hsp Hlen) as (v & -> & Hv). cbn [mbind outcome_bind].
    destruct v; simpl negb; cbv iota.
    2:{ exists false. split; [reflexivity|]. split; [discriminate|]. intros H.
        destruct (H p ltac:(lia)) as [Hb _]. apply (c_backed _ _ Hc), Hv in Hb. discriminate. }
    destruct (get_pg_ok A s p Hc (proj1 Hv eq_refl)) as (pg & -> & Epg). cbn [mbind outcome_bind].
    destruct (Z.eqb_spec (pg_state pg) PAGE_STATE_RESERVED) as [Es|Es]; simpl negb; cbv iota.
    + rewrite u64_small by (words; lia). destruct (IH (p + 1) Hc ltac:(lia) ltac:(lia)) as (b & E & Hb).
      exists b. split; [exact E|]. rewrite Hb. split; intros H f Hf; [|apply H; lia].
      destruct (decide (f = p)) as [->|]; [apply unmanaged_page; eauto|apply H; lia].
    + exists false. split; [reflexivity|]. split; [discriminate|]. intros H.
      specialize (H p ltac:(lia)). apply unmanaged_page in H as (pg' & E' & ?); [|assumption]. congruence.
Qed.

Lemma u64_plus_l a b : u64 (u64 a + b) = u64 (a + b).
Proof. unfold u64. apply Zplus_mod_idemp_l. Qed.

(** ** The order of the next block *)

Lemma ctz_pos_divides p : (2 ^ ctz_pos p | Zpos p) /\ 0 <= ctz_pos p.
Proof.
  induction p as [p IH|p [[a IH] Hn]|]; simpl; [split; [exists (Zpos p~1); lia|lia]| |split; [exists 1; lia|lia]].
  split; [|lia]. exists a. rewrite Z.pow_add_r by lia. change (2 ^ 1) with 2.
  change (Zpos p~0) with (2 * Zpos p). rewrite IH. lia.
Qed.

Lemma shrink_order_fits fuel : forall order room,
  0 <= order <= PMM_MAX_ORDER -> order < Z.of_nat fuel -> 1 <= room ->
  let k := shrink_order fuel order room in 0 <= k <= order /\ 2 ^ k <= room.
Proof.
  induction fuel as [|fuel IH]; intros order room Ho Hf Hr; [lia|]. cbn [shrink_order].
  rewrite shl1_u64 by (apply in_bits; assumption).
  destruct (Z.ltb_spec room (2 ^ order)) as [Hlt|Hge]; [|lia].
  assert (order <> 0) by (intros ->; simpl in Hlt; lia). unfold PMM_MAX_ORDER in *.
  rewrite u32_small by (words; lia).
  destruct (IH (order - 1) room) as [? ?]; try lia.
Qed.

(** The block starts aligned to its size and ends within the range. *)
Lemma next_order_fits pfn endPfn :
  0 <= pfn < endPfn -> endPfn < 2 ^ 64 ->
  let k := next_order pfn endPfn in 0 <= k <= PMM_MAX_ORDER /\ (2 ^ k | pfn) /\ pfn + 2 ^ k <= endPfn.
Proof.
  intros Hp He k. unfold next_order in k.
  set (o := if pfn =? 0 then PMM_MAX_ORDER else ctz pfn) in *.
  set (o' := if PMM_MAX_ORDER <? o then PMM_MAX_ORDER else o) in *.
  assert (Ho : 0 <= o /\ (2 ^ o | pfn)).
  { unfold o. destruct (Z.eqb_spec pfn 0) as [->|]; [split; [vm_compute; discriminate|apply Z.divide_0_r]|].
    destruct pfn as [|q|q]; [lia| |lia]. destruct (ctz_pos_divides q). auto. }
  assert (Ho' : 0 <= o' <= PMM_MAX_ORDER /\ o' <= o).
  { unfold o', PMM_MAX_ORDER. destruct (Z.ltb_spec 10 o); lia. }
  unfold k. rewrite (u64_small (endPfn - pfn)) by (words; lia).
  destruct (shrink_order_fits 11 o' (endPfn - pfn)) as [Hk Hfit]; [lia|unfold PMM_MAX_ORDER in *; lia|lia|].
  split; [lia|]. split; [|lia]. transitivity (2 ^ o); [apply pow2_divide; lia|apply Ho].
Qed.

(** ** Adopting a block *)

(** The pages of [[p, p + n)] are rewritten by [f], the rest stays. *)
Definition pages_in (f : Page -> Page) (ps : gmap Z Page) (p n : Z) (ps' : gmap Z Page) : Prop :=
  forall q, ps' !! q = (if decide (p <= q < p + n) then f <$> ps !! q else ps !! q).

Lemma upd_loop f n : forall s p,
  0 <= p -> p + Z.of_nat n < 2 ^ 64 -> (forall q, p <= q < p + Z.of_nat n -> is_Some (bs_pages (p_buddy s) !! q)) ->
  exists ps, for_frames n p (fun p s => upd_pg p f s) s = Ret (with_buddy (with_pages ps (p_buddy s)) s) /\
    pages_in f (bs_pages (p_buddy s)) p (Z.of_nat n) ps.
Proof.
  induction n as [|n IH]; intros s p Hp Hn Hb.
  - exists (bs_pages (p_buddy s)). split; [destruct s as [? ? ? []]; reflexivity|].
    intros q. rewrite decide_False by lia. reflexivity.
  - destruct (Hb p ltac:(lia)) as [pg Epg]. set (ps1 := <[p := f pg]> (bs_pages (p_buddy s))).
    assert (E1 : upd_pg p f s = Ret (with_buddy (with_pages ps1 (p_buddy s)) s)).
    { unfold upd_pg, upd_page. rewrite Epg. reflexivity. }
    cbn [for_frames]. cbv beta. rewrite E1. cbn [mbind outcome_bind]. rewrite u64_small by (words; lia).
    destruct (IH (with_buddy (with_pages ps1 (p_buddy s)) s) (p + 1)) as (ps & E & Hin); [lia|lia| |].
    + intros q Hq. simpl. unfold ps1. rewrite lookup_insert_ne by lia. apply Hb. lia.
    + exists ps. split; [rewrite E; destruct s; reflexivity|]. intros q. rewrite Hin. simpl. unfold ps1.
      destruct (decide (q = p)) as [->|Hne].
      * rewrite decide_False, decide_True, lookup_insert_eq, Epg by lia. reflexivity.
      * rewrite lookup_insert_ne by congruence. repeat case_decide; try reflexivity; lia.
Qed.

Section Adopt.

Context (A : blocks) (ps ps' : gmap Z Page) (p k : Z).
Hypothesis Hok : pages_ok A ps.
Hypothesis Hshape : 0 <= p /\ 0 <= k <= PMM_MAX_ORDER /\ (2 ^ k | p).
Hypothesis Hres : forall f, in_block p k f ->
  exists pg, ps !! f = Some pg /\ pg_state pg = PAGE_STATE_RESERVED.
Hypothesis Hin : pages_in (set_state PAGE_STATE_TAIL) ps p (2 ^ k) ps'.

Lemma adopt_fresh q κ j f : holds A q κ j f -> ~ in_block p k f.
Proof.
  intros Hh Hf. destruct (Hres f Hf) as (pg & E & Hs). destruct (po_page _ _ Hok _ _ _ _ Hh) as (pg' & E' & Hs').
  simplify_eq. rewrite Hs in Hs'. case_decide; [destruct κ|]; discriminate.
Qed.

Lemma adopt_none : A !! p = None.
Proof.
  destruct (A !! p) as [[κ j]|] eqn:E; [|reflexivity]. exfalso.
  apply (adopt_fresh p κ j p); [apply (holds_head _ _ _ _ _ Hok E)|]. unfold in_block. pose proof (pow2_pos k). lia.
Qed.

Lemma adopt_holds q κ j f :
  holds (<[p := (Float, k)]> A) q κ j f <-> (q = p /\ κ = Float /\ j = k /\ in_block p k f) \/ holds A q κ j f.
Proof.
  unfold holds. rewrite lookup_insert. case_decide as Hq.
  - subst q. rewrite adopt_none. unfold in_block. split.
    + intros [[= -> ->] ?]. auto.
    + intros [(_ & -> & -> & ?)|[? _]]; [auto|discriminate].
  - split; [auto|]. intros [(? & _)|?]; [congruence|assumption].
Qed.

Lemma adopt_outside q : ~ in_block p k q -> ps' !! q = ps !! q.
Proof. intros Hq. rewrite Hin, decide_False by exact Hq. reflexivity. Qed.

Lemma adopt_inside q : in_block p k q -> exists pg, ps !! q = Some pg /\ pg_state pg = PAGE_STATE_RESERVED /\
  ps' !! q = Some (set_state PAGE_STATE_TAIL pg).
Proof.
  intros Hq. destruct (Hres q Hq) as (pg & E & Hs). exists pg. rewrite Hin, decide_True, E by exact Hq. auto.
Qed.

Lemma adopt_some q : is_Some (ps' !! q) <-> is_Some (ps !! q).
Proof. rewrite Hin. case_decide; [apply fmap_is_Some|reflexivity]. Qed.

Lemma pages_adopt : pages_ok (<[p := (Float, k)]> A) ps'.
Proof.
  assert (Hdec : forall q, {in_block p k q} + {~ in_block p k q}) by (intros; apply decide; unfold in_block; apply _).
  split.
  - intros q κ j Hq. rewrite lookup_insert in Hq. case_decide; [|apply (po_shape _ _ Hok _ _ _ Hq)].
    subst. injection Hq as <- <-. destruct Hshape as (? & ? & ?). repeat split; auto; try lia; discriminate.
  - intros q κ j q' κ' j' f H1 H2. apply adopt_holds in H1, H2.
    destruct H1 as [(-> & _ & _ & H1)|H1], H2 as [(-> & _ & _ & H2)|H2].
    + reflexivity.
    + destruct (adopt_fresh _ _ _ _ H2 H1).
    + destruct (adopt_fresh _ _ _ _ H1 H2).
    + apply (po_disjoint _ _ Hok _ _ _ _ _ _ _ H1 H2).
  - intros q κ j f Hh. apply adopt_holds in Hh as [(-> & -> & -> & Hf)|Hh].
    + destruct (adopt_inside f Hf) as (pg & _ & _ & ->). eexists. split; [reflexivity|]. case_decide; reflexivity.
    + rewrite adopt_outside by (eapply adopt_fresh, Hh). apply (po_page _ _ Hok _ _ _ _ Hh).
  - intros q κ j pg Hq Hκ E. rewrite lookup_insert in Hq. case_decide; [simplify_eq|].
    rewrite adopt_outside in E by (eapply adopt_fresh, (holds_head _ _ _ _ _ Hok Hq)).
    apply (po_order _ _ Hok _ _ _ _ Hq Hκ E).
  - intros q pg E Hs. destruct (Hdec q) as [Hq|Hq].
    + destruct (adopt_inside q Hq) as (pg0 & E0 & Hs0 & E'). rewrite E' in E. injection E as <-. simpl.
      apply (po_zero _ _ Hok q pg0 E0). auto.
    + rewrite adopt_outside in E by assumption. apply (po_zero _ _ Hok q pg E Hs).
  - intros q pg E Hs. destruct (Hdec q) as [Hq|Hq].
    + exists p, Float, k. apply adopt_holds. auto.
    + rewrite adopt_outside in E by assumption. destruct (po_owned _ _ Hok q pg E Hs) as (q' & κ & j & Hh).
      exists q', κ, j. apply adopt_holds. auto.
  - intros q Hq. apply adopt_some, (po_backed _ _ Hok) in Hq as [Hr Hc]. split; [assumption|].
    intros q' Hq'. apply adopt_some, Hc, Hq'.
Qed.

End Adopt.

(** The same frames belong to a block before and after, but for [[p, p + 2^k)]. *)
Definition adopted (A : blocks) (p k : Z) (A' : blocks) : Prop :=
  (forall f, available A' f <-> available A f \/ in_block p k f) /\
  (forall q κ j, κ = Held \/ κ = Float -> A' !! q = Some (κ, j) <-> A !! q = Some (κ, j)).

(** What does not change when memory enters. *)
Definition same_rest (s s' : Pmm) : Prop :=
  p_map s' = p_map s /\ p_early s' = p_early s /\ p_hhdmBase s' = p_hhdmBase s /\ p_mem s' = p_mem s /\
  p_reclaimedPages s' = p_reclaimedPages s /\ p_acpiReclaimedPages s' = p_acpiReclaimedPages s /\
  p_loaderReclaimDone s' = p_loaderReclaimDone s /\ p_acpiReclaimDone s' = p_acpiReclaimDone s.

#[global] Instance same_rest_preorder : PreOrder same_rest.
Proof.
  split; [intros s; repeat split|].
  intros a b c (? & ? & ? & ? & ? & ? & ? & ?) (? & ? & ? & ? & ? & ? & ? & ?). repeat split; congruence.
Qed.

Lemma core_adopt A s p k ps' z :
  core A s -> 0 <= p -> 0 <= k <= PMM_MAX_ORDER -> (2 ^ k | p) -> (forall f, in_block p k f -> unmanaged A s f) ->
  pages_in (set_state PAGE_STATE_TAIL) (bs_pages (p_buddy s)) p (2 ^ k) ps' ->
  core (<[p := (Float, k)]> A)
    (with_buddy (upd_zone z (zone_add_managed (2 ^ k)) (with_pages ps' (p_buddy s))) s).
Proof.
  intros Hc Hp Hk Ha Hun Hin. pose proof (rep_pages _ _ (c_rep _ _ Hc)) as Hok.
  assert (Hres : forall f, in_block p k f -> exists pg, bs_pages (p_buddy s) !! f = Some pg /\ pg_state pg = PAGE_STATE_RESERVED).
  { intros f Hf. eapply unmanaged_page; [eassumption|auto]. }
  assert (HA : A !! p = None) by (eapply adopt_none; eauto).
  destruct Hc as [[_ Hl Hcn] Hco Hled Hca Hbk Hsp Hh]. split; simpl; try assumption.
  - split; simpl.
    + eapply pages_adopt; eauto.
    + eapply lists_same; [exact Hl|]. intros q κ j Hκ. rewrite lookup_insert. case_decide; [|reflexivity].
      subst q. rewrite HA. destruct Hκ; subst; split; congruence.
    + intros z' j Hj. unfold insert, fn_insert. case_decide; [subst|]; simpl; apply Hcn, Hj.
  - apply coalesced_retag; [discriminate|assumption].
  - intros z'. simpl. unfold insert, fn_insert. case_decide; [subst; simpl|]; apply Hled.
  - intros q. rewrite <- Hbk. eapply adopt_some; eassumption.
Qed.

Lemma free_adopted A p k A' :
  A !! p = None -> freed (<[p := (Float, k)]> A) p k A' -> adopted A p k A'.
Proof.
  intros HA Hf. split.
  - intros f. rewrite !available_iff, (fr_frames _ _ _ _ Hf), (freed_cached _ _ _ _ f Hf) by apply lookup_insert_eq.
    unfold free_frame, cached_frame, holds. setoid_rewrite lookup_insert.
    assert (Hsame : forall κ, κ <> Float ->
      (exists q j, (if decide (p = q) then Some (Float, k) else A !! q) = Some (κ, j) /\ q <= f < q + 2 ^ j) <->
      (exists q j, A !! q = Some (κ, j) /\ q <= f < q + 2 ^ j)).
    { intros κ Hκ. split; intros (q & j & Hq & Hr); exists q, j; (split; [|assumption]); case_decide; congruence. }
    rewrite !Hsame by discriminate. tauto.
  - intros q κ j Hκ. rewrite (fr_others _ _ _ _ Hf) by (destruct Hκ; subst; discriminate).
    rewrite lookup_insert. case_decide as Hq; [subst q; rewrite HA; split; [tauto|discriminate]|].
    split; [tauto|]. intros ?. split; [congruence|assumption].
Qed.

Lemma add_block_spec debug L A s p k :
  pmm_inv debug L A s -> 0 <= p -> 0 <= k <= PMM_MAX_ORDER -> (2 ^ k | p) ->
  (forall f, in_block p k f -> unmanaged A s f) ->
  exists A' s', add_block p k s = Ret s' /\ pmm_inv debug L A' s' /\ adopted A p k A' /\ same_rest s s' /\
    (forall q, is_Some (bs_pages (p_buddy s') !! q) <-> is_Some (bs_pages (p_buddy s) !! q)).
Proof.
  intros Hi Hp Hk Ha Hun. pose proof (i_core _ _ _ _ Hi) as Hc. pose proof (pow2_pos k ltac:(lia)) as Hpos.
  pose proof (backed_range _ _ _ Hc (proj1 (Hun (p + 2 ^ k - 1) ltac:(unfold in_block; lia)))) as Hr.
  unfold add_block. rewrite shl1_u64 by (apply in_bits; assumption).
  destruct (upd_loop (set_state PAGE_STATE_TAIL) (Z.to_nat (2 ^ k)) s p) as (ps & E & Hin); rewrite ?Z2Nat.id in * by lia; try lia.
  { intros q Hq. apply (Hun q Hq). }
  rewrite E. cbn [mbind outcome_bind]. set (z := pmmZoneOfPfn p).
  set (s2 := with_buddy (upd_zone z (zone_add_managed (2 ^ k)) (with_pages ps (p_buddy s))) s).
  assert (Hc2 : core (<[p := (Float, k)]> A) s2) by (apply core_adopt; assumption).
  destruct (core_buddyFree _ s2 p k Hc2 (lookup_insert_eq _ _ _)) as (b & A' & E2 & Hc' & Hf & Hbf & Hs).
  change (upd_zone z (zone_add_managed (2 ^ k)) (p_buddy (with_buddy (with_pages ps (p_buddy s)) s))) with (p_buddy s2).
  unfold z in E2 |- *. rewrite E2. cbn [access mbind outcome_bind].
  exists A', (with_buddy b s). change (with_buddy b (with_buddy (with_pages ps (p_buddy s)) s)) with (with_buddy b s).
  assert (HA : A !! p = None).
  { destruct (A !! p) as [[κ j]|] eqn:EA; [exfalso|reflexivity].
    apply (proj2 (Hun p ltac:(unfold in_block; lia)) p κ j), (holds_head _ _ _ _ _ (rep_pages _ _ (c_rep _ _ Hc)) EA). }
  pose proof (free_adopted A p k A' HA Hf) as Had. destruct Had as [Hav Hoth].
  assert (Hflags : forall q, pg_flags <$> bs_pages b !! q = pg_flags <$> bs_pages (p_buddy s) !! q).
  { intros q. rewrite (bf_flags _ _ Hbf). simpl. rewrite Hin. case_decide; [|reflexivity].
    destruct (bs_pages (p_buddy s) !! q); reflexivity. }
  split; [reflexivity|]. split; [|split; [split; assumption|split; [repeat split|]]].
  2:{ intros q. apply is_Some_flags, Hflags. }
  split; try apply Hi.
  - exact Hc'.
  - intros q j Hq. apply Hoth in Hq; [|auto]. exact (i_settled _ _ _ _ Hi q j Hq).
  - intros q j. rewrite Hoth by auto. apply (i_held _ _ _ _ Hi).
  - intros z'. simpl. rewrite (bf_managed _ _ Hbf), Hs. simpl. fold z. unfold insert, fn_insert.
    repeat case_decide; subst; try congruence; simpl; rewrite (i_account _ _ _ _ Hi); [|f_equal; lia].
    rewrite u64_plus_l. f_equal. lia.
  - intros f pg Ef. simpl in Ef. pose proof (Hflags f) as Hff. rewrite Ef in Hff. simpl in Hff.
    destruct (bs_pages (p_buddy s) !! f) as [pg0|] eqn:E0; [|discriminate]. simpl in Hff. injection Hff as ->.
    destruct (i_poison _ _ _ _ Hi f pg0 E0) as [?|(? & ? & Hw & Hav0)]; [auto|right].
    split; [assumption|]. split; [assumption|]. split; [exact Hw|]. apply Hav. auto.
Qed.

(** ** A whole range *)

(** The frames in [[lo, hi)] have become available; nothing else has changed. *)
Record entered (debug : bool) (L : list (Z * Z)) (A : blocks) (s : Pmm) (lo hi : Z) (A' : blocks) (s' : Pmm) : Prop := {
  en_inv : pmm_inv debug L A' s';
  en_available : forall f, available A' f <-> available A f \/ lo <= f < hi;
  en_backed : forall q, is_Some (bs_pages (p_buddy s') !! q) <-> is_Some (bs_pages (p_buddy s) !! q);
  en_rest : same_rest s s'
}.

Lemma unmanaged_iff debug L A s f : pmm_inv debug L A s ->
  unmanaged A s f <-> is_Some (bs_pages (p_buddy s) !! f) /\ ~ available A f /\ ~ held_frame L f.
Proof.
  intros Hi. unfold unmanaged. split; intros [Hb H]; (split; [assumption|]).
  - split; [intros (q & κ & k & Hh & _); exact (H _ _ _ Hh)|].
    intros (q & k & Hq & Hf). apply (i_held _ _ _ _ Hi) in Hq. exact (H q Held k (conj Hq Hf)).
  - destruct H as [Ha Hl]. intros q κ k Hh. destruct κ.
    + apply Ha. exists q, Free, k. auto.
    + apply Ha. exists q, Cached, k. auto.
    + apply Hl. destruct Hh as [Hq Hf]. exists q, k. split; [apply (i_held _ _ _ _ Hi), Hq|exact Hf].
    + destruct Hh as [Hq _]. exact (i_settled _ _ _ _ Hi q k Hq).
Qed.

Lemma entered_unmanaged debug L A s lo hi A' s' f :
  pmm_inv debug L A s -> entered debug L A s lo hi A' s' -> unmanaged A s f -> ~ lo <= f < hi -> unmanaged A' s' f.
Proof.
  intros Hi He Hu Hf. apply (unmanaged_iff _ _ _ _ _ Hi) in Hu as (Hb & Ha & Hl).
  apply (unmanaged_iff _ _ _ _ _ (en_inv _ _ _ _ _ _ _ _ He)).
  split; [apply (en_backed _ _ _ _ _ _ _ _ He), Hb|]. split; [|assumption].
  rewrite (en_available _ _ _ _ _ _ _ _ He). tauto.
Qed.

Lemma entered_trans debug L A s lo mid hi A1 s1 A2 s2 :
  lo <= mid <= hi -> entered debug L A s lo mid A1 s1 -> entered debug L A1 s1 mid hi A2 s2 -> entered debug L A s lo hi A2 s2.
Proof.
  intros Hm [I1 V1 B1 R1] [I2 V2 B2 R2]. split; [assumption| | |etransitivity; eassumption].
  - intros f. rewrite V2, V1. destruct (decide (f < mid)); intuition lia.
  - intros q. rewrite B2. apply B1.
Qed.

Lemma entered_nil debug L A s lo hi : pmm_inv debug L A s -> hi <= lo -> entered debug L A s lo hi A s.
Proof. intros Hi Hlo. split; [assumption| |reflexivity|reflexivity]. intros f. split; [auto|]. intros [?|?]; [assumption|lia]. Qed.

Lemma add_blocks_spec debug L fuel : forall A s pfn endPfn,
  pmm_inv debug L A s -> 0 <= pfn <= endPfn -> endPfn < 2 ^ 64 -> endPfn - pfn < Z.of_nat fuel ->
  (forall f, pfn <= f < endPfn -> unmanaged A s f) ->
  exists A' s', add_blocks fuel pfn endPfn s = Ret s' /\ entered debug L A s pfn endPfn A' s'.
Proof.
  induction fuel as [|fuel IH]; intros A s pfn endPfn Hi Hp He Hfuel Hun; [lia|].
  cbn [add_blocks]. destruct (Z.ltb_spec pfn endPfn) as [Hlt|Hge].
  2:{ exists A, s. split; [reflexivity|]. apply entered_nil; [assumption|lia]. }
  destruct (next_order_fits pfn endPfn ltac:(lia) He) as (Hk & Ha & Hfit). cbv zeta. set (k := next_order pfn endPfn) in *.
  pose proof (pow2_pos k ltac:(lia)) as Hpos.
  destruct (add_block_spec debug L A s pfn k Hi ltac:(lia) Hk Ha) as (A1 & s1 & -> & Hi1 & [Hav Hot] & Hr1 & Hb1).
  { intros f Hf. apply Hun. unfold in_block in Hf. lia. }
  cbn [mbind outcome_bind]. rewrite shl1_u64 by (apply in_bits; assumption).
  assert (H1 : entered debug L A s pfn (pfn + 2 ^ k) A1 s1) by (split; assumption).
  rewrite u64_small by (words; lia).
  destruct (IH A1 s1 (pfn + 2 ^ k) endPfn Hi1) as (A' & s' & E & H2); try lia.
  - intros f Hf. eapply entered_unmanaged; [exact Hi|exact H1|apply Hun; lia|lia].
  - exists A', s'. split; [exact E|]. eapply entered_trans; [|exact H1|exact H2]. lia.
Qed.

(** The condition under which a range of physical memory may enter. *)
Definition range_ok (A : blocks) (s : Pmm) (base len : Z) : Prop :=
  (4096 | base) /\ (4096 | len) /\ forall f, base <= 4096 * f < base + len -> unmanaged A s f.

Lemma page_masked base len :
  is_u64 base -> is_u64 len -> ((base .| len) .& 0xFFF) = 0 <-> (4096 | base) /\ (4096 | len).
Proof.
  intros Hb Hl. change 0xFFF with (Z.ones 12). rewrite Z.land_lor_distr_l, Z.lor_eq_0_iff, !Z.land_ones by lia.
  change (2 ^ 12) with 4096. rewrite !Z.mod_divide by lia. reflexivity.
Qed.

Lemma pmmAddFreeRange_spec debug L A s base len :
  pmm_inv debug L A s -> is_u64 base -> is_u64 len ->
  (range_ok A s base len /\ exists A' s', pmmAddFreeRange base len s = Ret (STATUS_OK, s') /\
     entered debug L A s (base / 4096) ((base + len) / 4096) A' s') \/
  (~ range_ok A s base len /\ pmmAddFreeRange base len s = Ret (STATUS_ERR_INVALID, s)).
Proof.
  intros Hi Hb Hl. unfold pmmAddFreeRange. pose proof (page_masked base len Hb Hl) as Hmask.
  destruct (Z.eqb_spec ((base .| len) .& 0xFFF) 0) as [E0|E0]; simpl negb; cbv iota.
  2:{ right. split; [|reflexivity]. intros (? & ? & _). apply E0, Hmask. auto. }
  destruct (proj1 Hmask E0) as [[a ->] [b ->]]. clear Hmask E0. unfold is_u64 in *.
  rewrite <- Z.mul_add_distr_r, !Z.div_mul by lia.
  destruct (Z.eqb_spec (b * 4096) 0) as [Eb|Eb].
  { left. split; [split; [exists a; reflexivity|split; [exists b; reflexivity|lia]]|].
    exists A, s. split; [reflexivity|]. apply entered_nil; [assumption|lia]. }
  rewrite !Z.shiftr_div_pow2 by lia. change (2 ^ 12) with 4096. rewrite !Z.div_mul by lia.
  rewrite (u64_small (a + b)) by (words; lia).
  destruct (Z.leb_spec (a + b) a); [lia|].
  destruct (all_reserved_spec A s (Z.to_nat (a + b - a)) a (i_core _ _ _ _ Hi) ltac:(lia)) as (ok & -> & Hok); [lia|].
  cbn [mbind outcome_bind]. replace (a + Z.of_nat (Z.to_nat (a + b - a))) with (a + b) in Hok by lia.
  assert (Hrange : range_ok A s (a * 4096) (b * 4096) <-> forall f, a <= f < a + b -> unmanaged A s f).
  { split; [intros (_ & _ & Hu) f Hf; apply Hu; lia|].
    intros Hu. split; [exists a; reflexivity|]. split; [exists b; reflexivity|]. intros f Hf. apply Hu. lia. }
  destruct ok; simpl negb; cbv iota.
  - left. split; [apply Hrange, Hok; reflexivity|].
    destruct (add_blocks_spec debug L (S (Z.to_nat (a + b - a))) A s a (a + b) Hi) as (A' & s' & -> & He); try lia.
    + apply Hok. reflexivity.
    + exists A', s'. split; [reflexivity|exact He].
  - right. split; [|reflexivity]. intros Hr. enough (false = true) by discriminate. apply Hok, Hrange, Hr.
Qed.

(** Memory enters the allocator as a whole range or not at all.  The call
    succeeds exactly for a page-aligned range whose frames all have a page entry
    and belong to no block; then exactly these frames become available, split
    into aligned blocks that merge with their free neighbours, and the blocks
    clients hold and all memory contents stay as they are.  Any other call
    changes nothing. *)
Theorem pmmAddFreeRange_exact debug L A s base len :
  pmm_inv debug L A s -> is_u64 base -> is_u64 len ->
  (range_ok A s base len /\ exists A' s', pmmAddFreeRange base len s = Ret (STATUS_OK, s') /\
     entered debug L A s (base / 4096) ((base + len) / 4096) A' s') \/
  (~ range_ok A s base len /\ pmmAddFreeRange base len s = Ret (STATUS_ERR_INVALID, s)).
Proof. apply pmmAddFreeRange_spec. Qed.

(** ** Reclaim *)

(** The frames [P] have been zeroed and have become available. *)
Record recovered (debug : bool) (L : list (Z * Z)) (A : blocks) (s : Pmm) (P : Z -> Prop) (A' : blocks) (s' : Pmm)
    : Prop := {
  rc_inv : pmm_inv debug L A' s';
  rc_available : forall f, available A' f <-> available A f \/ P f;
  rc_backed : forall q, is_Some (bs_pages (p_buddy s') !! q) <-> is_Some (bs_pages (p_buddy s) !! q);
  rc_zero : forall f, P f -> frame_words s' f 0;
  rc_confined : mem_confined s s' P;
  rc_rest : same_rest s (with_mem (p_mem s) s')
}.

Lemma recovered_iff debug L A s P Q A' s' :
  (forall f, P f <-> Q f) -> recovered debug L A s P A' s' -> recovered debug L A s Q A' s'.
Proof.
  intros H [I V B Z C R]. split; try assumption.
  - intros f. rewrite V, H. reflexivity.
  - intros f Hf. apply Z, H, Hf.
  - intros f w Hw Hf. apply C; [assumption|]. rewrite H. assumption.
Qed.

Lemma recovered_trans debug L A s P Q A1 s1 A2 s2 :
  (forall f, P f -> ~ Q f) -> recovered debug L A s P A1 s1 -> recovered debug L A1 s1 Q A2 s2 ->
  recovered debug L A s (fun f => P f \/ Q f) A2 s2.
Proof.
  intros Hd [I1 V1 B1 Z1 C1 R1] [I2 V2 B2 Z2 C2 R2]. split.
  - assumption.
  - intros f. rewrite V2, V1. tauto.
  - intros q. rewrite B2. apply B1.
  - intros f [Hf|Hf] w Hw; [|apply Z2; assumption]. rewrite C2 by auto. apply Z1; assumption.
  - intros f w Hw Hf. rewrite C2, C1 by tauto. reflexivity.
  - destruct R1 as (? & ? & ? & _ & ? & ? & ? & ?), R2 as (? & ? & ? & _ & ? & ? & ? & ?). simpl in *.
    repeat split; simpl; congruence.
Qed.

Lemma recovered_unmanaged debug L A s P A' s' f :
  pmm_inv debug L A s -> recovered debug L A s P A' s' -> unmanaged A s f -> ~ P f -> unmanaged A' s' f.
Proof.
  intros Hi He Hu Hf. apply (unmanaged_iff _ _ _ _ _ Hi) in Hu as (Hb & Ha & Hl).
  apply (unmanaged_iff _ _ _ _ _ (rc_inv _ _ _ _ _ _ _ He)).
  split; [apply (rc_backed _ _ _ _ _ _ _ He), Hb|]. split; [|assumption].
  rewrite (rc_available _ _ _ _ _ _ _ He). tauto.
Qed.

Lemma pmmReclaimPiece_spec debug L A s a b :
  pmm_inv debug L A s -> 0 <= a < b -> b <= 2 ^ 34 -> (forall f, a <= f < b -> unmanaged A s f) ->
  exists A' s', pmmReclaimPiece (4096 * a) (4096 * b - 4096 * a) s = Ret (b - a, s') /\
    recovered debug L A s (fun f => a <= f < b) A' s'.
Proof.
  intros Hi Ha Hb Hun. pose proof (i_core _ _ _ _ Hi) as Hc. destruct (c_hhdm _ _ Hc) as [Hh0 Hh].
  replace (4096 * b - 4096 * a) with ((b - a) * 4096) by lia. rewrite (Z.mul_comm 4096 a).
  unfold pmmReclaimPiece, pmmRangeAllReserved. destruct (Z.eqb_spec ((b - a) * 4096) 0); [lia|].
  rewrite !Z.shiftr_div_pow2 by lia. change (2 ^ 12) with 4096. rewrite !Z.div_mul by lia.
  replace (a + (b - a)) with b by lia. rewrite (u64_small b) by (words; lia).
  destruct (all_reserved_spec A s (Z.to_nat (b - a)) a Hc ltac:(lia)) as (ok & -> & Hok); [lia|]. cbn [mbind outcome_bind].
  assert (ok = true) as -> by (apply Hok; intros f Hf; apply Hun; lia). simpl negb. cbv iota.
  set (s1 := pmmZeroRange (a * 4096) ((b - a) * 4096) s).
  assert (Hz : forall f w, 0 <= w < 512 -> word_at s1 f w = if decide (a <= f < b) then 0 else word_at s f w).
  { intros f w Hw. unfold s1, pmmZeroRange, word_at. simpl. rewrite (u64_small (_ + a * 4096)) by (words; lia).
    replace ((b - a) * 4096 / 8) with (512 * (b - a)) by (replace ((b - a) * 4096) with (512 * (b - a) * 8) by lia; rewrite Z.div_mul; lia).
    case_decide.
    - replace (p_hhdmBase s + 4096 * f + 8 * w) with (p_hhdmBase s + a * 4096 + 8 * (512 * (f - a) + w)) by lia.
      apply fill_words_in. lia.
    - apply fill_words_out. intros j Hj. lia. }
  assert (Hi1 : pmm_inv debug L A s1).
  { apply pmm_inv_mem; [assumption|]. intros f w Hav Hw. change (word_at s1 f w = word_at s f w). rewrite Hz by assumption.
    case_decide as Hf; [|reflexivity]. exfalso. destruct Hav as (q & κ & k & Hh' & _). exact (proj2 (Hun f Hf) q κ k Hh'). }
  destruct (pmmAddFreeRange_spec debug L A s1 (a * 4096) ((b - a) * 4096) Hi1) as [[_ (A' & s' & E & He)]|[Hno _]].
  { words; lia. }
  { words; lia. }
  2:{ exfalso. apply Hno. split; [exists a; lia|]. split; [exists (b - a); lia|]. intros f Hf. apply Hun. lia. }
  rewrite E. cbn [mbind outcome_bind]. exists A', s'. split; [reflexivity|]. destruct He as [I V B R].
  replace (a * 4096 + (b - a) * 4096) with (b * 4096) in V by lia. rewrite !Z.div_mul in V by lia.
  destruct R as (R1 & R2 & R3 & R4 & R5 & R6 & R7 & R8).
  assert (Hw : forall f w, word_at s' f w = word_at s1 f w) by (intros; unfold word_at; rewrite R3, R4; reflexivity).
  split; try assumption.
  - intros f Hf w Hw'. rewrite Hw, Hz, decide_True by assumption. reflexivity.
  - intros f w Hw' Hf. rewrite Hw, Hz, decide_False by assumption. reflexivity.
  - repeat split; simpl; assumption.
Qed.

(** The frames of a recorded range the allocator may take. *)
Definition clip_frame (r : PmmReclaimRange) (f : Z) : Prop :=
  PMM_LOW_MEM_LIMIT_PFN <= f < PMM_HHDM_LIMIT_PFN /\ rr_physBase r <= 4096 * f < rr_physBase r + rr_length r.

(** Ranges as the memory map records them. *)
Definition reclaim_wf (r : PmmReclaimRange) : Prop :=
  0 <= rr_physBase r /\ 0 <= rr_length r /\ rr_physBase r + rr_length r < 2 ^ 64 /\
  (4096 | rr_physBase r) /\ (4096 | rr_length r).

Definition clip_pages (r : PmmReclaimRange) : Z :=
  match pmmReclaimClip r with Some (b, e) => (e - b) / 4096 | None => 0 end.

Lemma clip_cases r : reclaim_wf r ->
  (exists a b, pmmReclaimClip r = Some (4096 * a, 4096 * b) /\ 0 <= a < b /\ b <= 2 ^ 34 /\ clip_pages r = b - a /\
     forall f, clip_frame r f <-> a <= f < b) \/
  (pmmReclaimClip r = None /\ clip_pages r = 0 /\ forall f, ~ clip_frame r f).
Proof.
  intros (Hb & Hl & He & [x Hx] & [y Hy]). unfold clip_pages, pmmReclaimClip, clip_frame.
  rewrite (u64_small (_ + _)) by (words; lia). rewrite low_pow, hhdm_pow.
  change (256 <<! 12) with (4096 * 256). change (2 ^ 34 <<! 12) with (4096 * 2 ^ 34).
  set (b := if rr_physBase r <? 4096 * 256 then 4096 * 256 else rr_physBase r).
  set (e := if 4096 * 2 ^ 34 <? rr_physBase r + rr_length r then 4096 * 2 ^ 34 else rr_physBase r + rr_length r).
  assert (Eb : b = 4096 * Z.max 256 x) by (unfold b; destruct (Z.ltb_spec (rr_physBase r) (4096 * 256)); lia).
  assert (Ee : e = 4096 * Z.min (2 ^ 34) (x + y)) by (unfold e; destruct (Z.ltb_spec (4096 * 2 ^ 34) (rr_physBase r + rr_length r)); lia).
  destruct (Z.leb_spec e b) as [Hle|Hlt].
  - right. split; [reflexivity|]. split; [reflexivity|]. intros f Hf. lia.
  - left. exists (Z.max 256 x), (Z.min (2 ^ 34) (x + y)). rewrite Eb, Ee. split; [reflexivity|].
    split; [lia|]. split; [lia|]. split; [|intros f; lia].
    rewrite <- Z.mul_sub_distr_l, Z.mul_comm, Z.div_mul; lia.
Qed.

Definition before_range (r r' : PmmReclaimRange) : Prop := rr_physBase r + rr_length r <= rr_physBase r'.

Definition in_ranges (rs : list PmmReclaimRange) (f : Z) : Prop := exists r, r ∈ rs /\ clip_frame r f.

Definition ranges_pages (rs : list PmmReclaimRange) : Z := foldr (fun r acc => clip_pages r + acc) 0 rs.

Lemma in_ranges_cons r rs f : in_ranges (r :: rs) f <-> clip_frame r f \/ in_ranges rs f.
Proof.
  unfold in_ranges. split.
  - intros (r' & [->|Hin]%elem_of_cons & Hf); eauto.
  - intros [Hf|(r' & Hin & Hf)]; [exists r|exists r']; (split; [apply elem_of_cons; auto|assumption]).
Qed.

Lemma pmmReclaimRanges_spec debug L rs : forall A s n,
  pmm_inv debug L A s -> Forall reclaim_wf rs -> StronglySorted before_range rs ->
  (forall f, in_ranges rs f -> unmanaged A s f) -> 0 <= n -> n + ranges_pages rs < 2 ^ 64 ->
  exists A' s', pmmReclaimRanges rs n s = Ret (n + ranges_pages rs, s') /\ recovered debug L A s (in_ranges rs) A' s'.
Proof.
  induction rs as [|r rs IH]; intros A s n Hi Hwf Hso Hun Hn Hb.
  - exists A, s. split; [simpl; do 2 f_equal; lia|].
    assert (Hno : forall f, ~ in_ranges [] f) by (intros f (r & Hr & _); inversion Hr).
    split; [assumption| |reflexivity| |intros f w _ _; reflexivity|repeat split].
    + intros f. specialize (Hno f). tauto.
    + intros f Hf. destruct (Hno f Hf).
  - inversion Hwf as [|? ? Hr Hwf']; subst. inversion Hso as [|? ? Hso' Hf]; subst.
    assert (Hpos : 0 <= ranges_pages rs).
    { clear -Hwf'. induction Hwf' as [|r rs Hr _ IH]; simpl; [lia|].
      destruct (clip_cases r Hr) as [(a & b & _ & ? & _ & -> & _)|(_ & -> & _)]; lia. }
    simpl in Hb. cbn [pmmReclaimRanges]. simpl ranges_pages.
    destruct (clip_cases r Hr) as [(a & b & E & Hab & Hb34 & Ep & Hfr)|(E & Ep & Hno)]; rewrite E, Ep in *.
    + rewrite (u64_small (4096 * b - 4096 * a)) by (words; lia).
      destruct (pmmReclaimPiece_spec debug L A s a b Hi Hab Hb34) as (A1 & s1 & -> & H1).
      { intros f Hf'. apply Hun, in_ranges_cons. left. apply Hfr, Hf'. }
      cbn [mbind outcome_bind]. rewrite (u64_small (n + (b - a))) by (words; lia).
      assert (Hdis : forall f, a <= f < b -> ~ in_ranges rs f).
      { intros f Hf1 (r' & Hr' & _ & Hf2). rewrite Forall_forall in Hf. specialize (Hf r' Hr').
        apply Hfr in Hf1 as [_ ?]. unfold before_range in Hf. lia. }
      destruct (IH A1 s1 (n + (b - a)) (rc_inv _ _ _ _ _ _ _ H1) Hwf' Hso') as (A' & s' & E' & H2); try lia.
      * intros f Hf'. eapply recovered_unmanaged; [exact Hi|exact H1|apply Hun, in_ranges_cons; auto|].
        intros Hab'. exact (Hdis f Hab' Hf').
      * exists A', s'. rewrite E'. split; [do 2 f_equal; lia|].
        eapply recovered_iff; [|eapply recovered_trans; [exact Hdis|exact H1|exact H2]].
        intros f. cbv beta. rewrite in_ranges_cons, Hfr. reflexivity.
    + destruct (IH A s n Hi Hwf' Hso') as (A' & s' & E' & H2); try lia.
      * intros f Hf'. apply Hun, in_ranges_cons. auto.
      * exists A', s'. rewrite E'. split; [do 2 f_equal; lia|]. eapply recovered_iff; [|exact H2].
        intros f. rewrite in_ranges_cons. specialize (Hno f). tauto.
Qed.

Lemma pmm_inv_reclaim debug L A s r a ld ad : pmm_inv debug L A s -> pmm_inv debug L A (with_reclaim r a ld ad s).
Proof. intros [[] ? ? ? ? ? ?]. split; try assumption. split; assumption. Qed.

(** Reclaiming the loader's memory, once the kernel's own page tables are
    active, zeroes every recorded frame that lies between 1 MiB and the end of
    the direct map and makes exactly these frames available; the counter grows
    by their number, and a second call panics. *)
Theorem pmmReclaimLoaderMemory_exact debug L A s :
  let rs := pm_loaderReclaim (p_map s) in
  pmm_inv debug L A s -> p_loaderReclaimDone s = false -> Forall reclaim_wf rs -> StronglySorted before_range rs ->
  (forall f, in_ranges rs f -> unmanaged A s f) ->
  ranges_pages rs <= pm_typePages (p_map s) BOOT_MEM_LOADER_RECLAIM < 2 ^ 64 ->
  exists A' s', pmmReclaimLoaderMemory true s = Ret s' /\ pmm_inv debug L A' s' /\
    (forall f, available A' f <-> available A f \/ in_ranges rs f) /\
    (forall f, in_ranges rs f -> frame_words s' f 0) /\ mem_confined s s' (in_ranges rs) /\
    p_reclaimedPages s' = u64 (p_reclaimedPages s + ranges_pages rs) /\
    pmmReclaimLoaderMemory true s' = Panic "pmm: pmmReclaimLoaderMemory: called twice".
Proof.
  intros rs Hi Hd Hwf Hso Hun Hcap. unfold pmmReclaimLoaderMemory at 1. rewrite Hd. simpl negb. cbv iota zeta.
  set (s0 := with_reclaim (p_reclaimedPages s) (p_acpiReclaimedPages s) true (p_acpiReclaimDone s) s).
  change (pm_loaderReclaim (p_map s0)) with rs.
  destruct (pmmReclaimRanges_spec debug L rs A s0 0 (pmm_inv_reclaim _ _ _ _ _ _ _ _ Hi) Hwf Hso) as (A' & s' & E & Hr);
    [exact Hun|lia|lia|]. rewrite E. cbn [mbind outcome_bind]. rewrite Z.add_0_l.
  destruct Hr as [I V B Z C (R1 & R2 & R3 & R4 & R5 & R6 & R7 & R8)]. simpl in R1, R5, R7. rewrite R1.
  destruct (Z.ltb_spec (pm_typePages (p_map s) BOOT_MEM_LOADER_RECLAIM) (ranges_pages rs)); [lia|].
  eexists A', _. split; [reflexivity|]. split; [apply pmm_inv_reclaim, I|]. split; [exact V|]. split; [exact Z|].
  split; [exact C|]. split; [simpl; rewrite R5; reflexivity|]. unfold pmmReclaimLoaderMemory. simpl. rewrite R7. reflexivity.
Qed.

(** ** A concrete manager with nothing in it yet *)

Definition blank_pmm : Pmm :=
  let map := mkPmmMap [mkSpan 1024 2048] 2048 [] [mkReclaim 0x400000 0x10000; mkReclaim 0x420000 0x1000] [] 0 0 0
               (<[BOOT_MEM_LOADER_RECLAIM := 17]> (fun _ => 0)) in
  mkPmm map (pmmEarlyInit map 0xFFFF800000000000) 0xFFFF800000000000
    (mkBuddy (page_range 1024 1024 zeroPage) (fun _ => [])
       (fun _ => mkZone (fun _ => 0) 0 0 0 0 "zone")) (fun _ => 0) 0 0 0 0 false false (fun _ => 5).

Lemma blank_page q : is_Some (bs_pages (p_buddy blank_pmm) !! q) <-> 1024 <= q < 2048.
Proof.
  change (bs_pages (p_buddy blank_pmm)) with (page_range 1024 1024 zeroPage). split.
  - intros [pg Hq]. apply page_range_lookup in Hq. lia.
  - intros Hq. exists zeroPage. apply page_range_lookup. split; [lia|reflexivity].
Qed.

Lemma pages_empty ps :
  (forall q pg, ps !! q = Some pg -> pg_state pg = PAGE_STATE_RESERVED /\ pg_order pg = 0) ->
  (forall p, is_Some (ps !! p) -> 0 <= p < 2 ^ 52 /\ (forall q, chunk q = chunk p -> is_Some (ps !! q))) ->
  pages_ok ∅ ps.
Proof.
  intros Hr Hb. assert (Hno : forall p κ k, (∅ : blocks) !! p <> Some (κ, k)) by (intros; rewrite lookup_empty; discriminate).
  split; try assumption.
  - intros p κ k Hp. destruct (Hno _ _ _ Hp).
  - intros p κ j q κ' k f [Hp _]. destruct (Hno _ _ _ Hp).
  - intros p κ k q [Hp _]. destruct (Hno _ _ _ Hp).
  - intros p κ k pg Hp. destruct (Hno _ _ _ Hp).
  - intros q pg E _. apply (Hr q pg E).
  - intros q pg E Hs. destruct (Hr q pg E). contradiction.
Qed.

Lemma blank_inv debug : pmm_inv debug [] ∅ blank_pmm.
Proof.
  assert (Hz : forall q pg, bs_pages (p_buddy blank_pmm) !! q = Some pg -> pg = zeroPage).
  { intros q pg Hq. change (bs_pages (p_buddy blank_pmm)) with (page_range 1024 1024 zeroPage) in Hq.
    apply page_range_lookup in Hq as [_ ?]. assumption. }
  split.
  - split.
    + split.
      * apply pages_empty.
        -- intros q pg E. rewrite (Hz q pg E). split; reflexivity.
        -- intros p Hp. apply blank_page in Hp. split; [lia|]. intros q Hq. apply blank_page. unfold chunk, PMM_MAX_ORDER in Hq.
           change (2 ^ 10) with 1024 in Hq. dlia.
      * split; [|intros; constructor]. intros h p. split; [intros Hp; inversion Hp|].
        destruct h; simpl; rewrite lookup_empty; intros [? _]; discriminate.
      * intros z k Hk. reflexivity.
    + intros p k Hp. rewrite lookup_empty in Hp. discriminate.
    + intros z. destruct z; reflexivity.
    + intros z. reflexivity.
    + intros q. rewrite blank_page. split.
      * intros Hq. exists (mkSpan 1024 2048). split; [apply list_elem_of_singleton; reflexivity|]. simpl. lia.
      * intros (sp & Hsp & Hq). apply list_elem_of_singleton in Hsp as ->. simpl in Hq. lia.
    + split; [|vm_compute; discriminate]. split; [repeat constructor|]. constructor; [|constructor].
      unfold span_ok. rewrite hhdm_pow. simpl. repeat split; try lia; [exists 1|exists 2]; reflexivity.
    + simpl. lia.
  - intros p k. rewrite lookup_empty. discriminate.
  - intros p k. rewrite lookup_empty. split; intros Hp; [inversion Hp|discriminate].
  - constructor.
  - intros z. vm_compute. discriminate.
  - intros []; reflexivity.
  - intros f pg E. left. rewrite (Hz f pg E). reflexivity.
Qed.

Lemma blank_unmanaged f : 1024 <= f < 2048 -> unmanaged ∅ blank_pmm f.
Proof. intros Hf. split; [apply blank_page, Hf|]. intros q κ k [Hq _]. rewrite lookup_empty in Hq. discriminate. Qed.

Lemma pmmAddFreeRange_exact_witness :
  (range_ok ∅ blank_pmm 0x400000 0x13000 /\ exists A' s', pmmAddFreeRange 0x400000 0x13000 blank_pmm = Ret (STATUS_OK, s') /\
     entered true [] ∅ blank_pmm (0x400000 / 4096) ((0x400000 + 0x13000) / 4096) A' s') /\
  pmmAddFreeRange 0x400000 0x7FFFFFFFF000 blank_pmm = Ret (STATUS_ERR_INVALID, blank_pmm).
Proof.
  split.
  - destruct (pmmAddFreeRange_exact true [] ∅ blank_pmm 0x400000 0x13000 (blank_inv true)) as [H|[Hno _]];
      [words; lia|words; lia|exact H|exfalso; apply Hno].
    split; [exists 1024; reflexivity|]. split; [exists 19; reflexivity|]. intros f Hf. apply blank_unmanaged. lia.
  - destruct (pmmAddFreeRange_exact true [] ∅ blank_pmm 0x400000 0x7FFFFFFFF000 (blank_inv true)) as [[H _]|[_ E]];
      [words; lia|words; lia|exfalso|exact E].
    destruct H as (_ & _ & H). destruct (H 4096 ltac:(lia)) as [Hb _]. apply blank_page in Hb. lia.
Defined.

Lemma pmmReclaimLoaderMemory_exact_witness : exists A' s',
  pmmReclaimLoaderMemory true blank_pmm = Ret s' /\ pmm_inv true [] A' s' /\
  available A' 1024 /\ frame_words s' 1056 0 /\ p_reclaimedPages s' = 17.
Proof.
  assert (Hin : forall f, in_ranges (pm_loaderReclaim (p_map blank_pmm)) f <-> 1024 <= f < 1040 \/ f = 1056).
  { intros f. change (pm_loaderReclaim (p_map blank_pmm)) with [mkReclaim 0x400000 0x10000; mkReclaim 0x420000 0x1000].
    rewrite !in_ranges_cons. unfold in_ranges, clip_frame. rewrite low_pow, hhdm_pow. simpl. split.
    - intros [?|[?|(r & Hr & _)]]; [lia|lia|inversion Hr].
    - intros [?|?]; [left|right; left]; lia. }
  destruct (pmmReclaimLoaderMemory_exact true [] ∅ blank_pmm (blank_inv true)) as (A' & s' & E & Hi & Hav & Hz & _ & Hn & _).
  - reflexivity.
  - repeat constructor; simpl; try lia; [exists 1024|exists 16|exists 1056|exists 1]; reflexivity.
  - repeat constructor. unfold before_range. simpl. lia.
  - intros f Hf. apply Hin in Hf. apply blank_unmanaged. lia.
  - vm_compute. split; [discriminate|reflexivity].
  - exists A', s'. split; [exact E|]. split; [exact Hi|].
    split; [apply Hav; right; apply Hin; lia|]. split; [apply Hz, Hin; lia|]. rewrite Hn. reflexivity.
Defined.
