(* ===== verification/Elf.v ===== *)
(** * The ELF loader

    Models boot/common/elf.c: [elfParse] validates the kernel file and describes
    its segments, [elfLoad] copies them into the destination block.  A file is a
    list of bytes, [None] a read or write outside a buffer; a failed parse yields
    its status and a successful one the image.  The NULL checks of the two entry
    points have no counterpart. *)

From S2P Require Import Prelude BootTypes.

(** ** Data *)

(** Models src/boot/common/elf.c:29-44, RawElfHeader. *)
Record RawElfHeader := {
  eh_ident : list Z; eh_type : Z; eh_machine : Z; eh_version : Z; eh_entry : Z; eh_phoff : Z;
  eh_shoff : Z; eh_flags : Z; eh_ehsize : Z; eh_phentsize : Z; eh_phnum : Z; eh_shentsize : Z;
  eh_shnum : Z; eh_shstrndx : Z }.

(** Models src/boot/common/elf.c:47-56, RawProgramHeader. *)
Record RawProgramHeader := {
  ph_type : Z; ph_flags : Z; ph_offset : Z; ph_vaddr : Z; ph_paddr : Z; ph_filesz : Z;
  ph_memsz : Z; ph_align : Z }.

(** Models src/boot/common/include/elf64.h:20-23, ElfSegment. *)
Record ElfSegment := {
  es_vaddr : Z; es_memsz : Z; es_filesz : Z; es_offset : Z; es_flags : Z }.

(** Models src/boot/common/include/elf64.h:25-31, ElfImage. *)
Record ElfImage := {
  ei_entry : Z; ei_linkBase : Z; ei_span : Z; ei_segs : list ElfSegment }.

Definition ELF_MAX_SEGMENTS : Z := 8.
Definition ELF_PF_X : Z := 1.
Definition ELF_PF_W : Z := 2.
Definition ELF_PF_R : Z := 4.
Definition ELFCLASS64 : Z := 2.
Definition ELFDATA2LSB : Z := 1.
Definition EV_CURRENT : Z := 1.
Definition ET_EXEC : Z := 2.
Definition EM_X86_64 : Z := 62.
Definition PT_LOAD : Z := 1.
Definition PT_DYNAMIC : Z := 2.
Definition PT_INTERP : Z := 3.
Definition PT_TLS : Z := 7.
Definition ELF_PAGE_SIZE : Z := 4096.
Definition sizeof_RawElfHeader : Z := 64.
Definition sizeof_RawProgramHeader : Z := 56.

(** ** Parsing *)

(** Models src/boot/common/elf.c:63-64, elfParse (the copy of the file header). *)
Definition read_header (file : list Z) : option RawElfHeader :=
  ident ← peek file 0 16;
  ty ← peek_le file 16 2; machine ← peek_le file 18 2; version ← peek_le file 20 4;
  entry ← peek_le file 24 8; phoff ← peek_le file 32 8; shoff ← peek_le file 40 8;
  flags ← peek_le file 48 4; ehsize ← peek_le file 52 2; phentsize ← peek_le file 54 2;
  phnum ← peek_le file 56 2; shentsize ← peek_le file 58 2; shnum ← peek_le file 60 2;
  shstrndx ← peek_le file 62 2;
  Some {| eh_ident := ident; eh_type := ty; eh_machine := machine; eh_version := version;
          eh_entry := entry; eh_phoff := phoff; eh_shoff := shoff; eh_flags := flags;
          eh_ehsize := ehsize; eh_phentsize := phentsize; eh_phnum := phnum;
          eh_shentsize := shentsize; eh_shnum := shnum; eh_shstrndx := shstrndx |}.

(** Models src/boot/common/elf.c:95-96, elfParse (the copy of program header [i]). *)
Definition read_phdr (file : list Z) (phoff i : Z) : option RawProgramHeader :=
  let at_ := phoff +! i *! sizeof_RawProgramHeader in
  ty ← peek_le file at_ 4; flags ← peek_le file (at_ + 4) 4; offset ← peek_le file (at_ + 8) 8;
  vaddr ← peek_le file (at_ + 16) 8; paddr ← peek_le file (at_ + 24) 8;
  filesz ← peek_le file (at_ + 32) 8; memsz ← peek_le file (at_ + 40) 8;
  align ← peek_le file (at_ + 48) 8;
  Some {| ph_type := ty; ph_flags := flags; ph_offset := offset; ph_vaddr := vaddr;
          ph_paddr := paddr; ph_filesz := filesz; ph_memsz := memsz; ph_align := align |}.

(** Models src/boot/common/elf.c:66-78, elfParse (the header checks). *)
Definition check_header (h : RawElfHeader) : option BootStatus :=
  let id i := eh_ident h !!! i in
  if negb (id 0%nat =? 0x7F) || negb (id 1%nat =? 0x45) || negb (id 2%nat =? 0x4C) || negb (id 3%nat =? 0x46)
  then Some BOOT_ERR_ELF_HEADER
  else if negb (id 4%nat =? ELFCLASS64) || negb (id 5%nat =? ELFDATA2LSB) || negb (id 6%nat =? EV_CURRENT)
  then Some BOOT_ERR_ELF_HEADER
  else if negb (eh_type h =? ET_EXEC) || negb (eh_machine h =? EM_X86_64) || negb (eh_version h =? EV_CURRENT)
  then Some BOOT_ERR_ELF_HEADER
  else if negb (eh_phentsize h =? sizeof_RawProgramHeader) || (eh_phnum h <? 1) || (16 <? eh_phnum h)
  then Some BOOT_ERR_ELF_PHDR
  else None.

(** Models src/boot/common/elf.c:104-128, elfParse (the checks of one loadable header). *)
Definition check_phdr (fileSize : Z) (segs : list ElfSegment) (ph : RawProgramHeader) : option BootStatus :=
  if ELF_MAX_SEGMENTS <=? zlen segs then Some BOOT_ERR_ELF_SEGMENT
  else if (ph_memsz ph =? 0) || (ph_memsz ph <? ph_filesz ph) then Some BOOT_ERR_ELF_SEGMENT
  else if (fileSize <? ph_offset ph) || (fileSize -! ph_offset ph <? ph_filesz ph) then Some BOOT_ERR_ELF_SEGMENT
  else if negb ((ph_vaddr ph .& (ELF_PAGE_SIZE - 1)) =? 0) then Some BOOT_ERR_ELF_SEGMENT
  else if (ph_flags ph .& ELF_PF_R) =? 0 then Some BOOT_ERR_ELF_SEGMENT
  else if (ph_flags ph .& (ELF_PF_W .| ELF_PF_X)) =? (ELF_PF_W .| ELF_PF_X) then Some BOOT_ERR_ELF_WX
  else if (ph_vaddr ph <? BOOTINFO_KERNEL_WINDOW_BASE) || (BOOTINFO_KERNEL_WINDOW_END <=? ph_vaddr ph)
       || (BOOTINFO_KERNEL_WINDOW_END -! ph_vaddr ph <? ph_memsz ph) then Some BOOT_ERR_ELF_RANGE
  else None.

(** The fields an accepted header fills in. *)
Definition seg_of (ph : RawProgramHeader) : ElfSegment :=
  {| es_vaddr := ph_vaddr ph; es_memsz := ph_memsz ph; es_filesz := ph_filesz ph;
     es_offset := ph_offset ph; es_flags := ph_flags ph |}.

(** Models src/boot/common/elf.c:94-152, elfParse (the loop over the program
    headers).  [maxEnd] is the running maximum of the segment ends; the result
    is the segments and that maximum. *)
Fixpoint parse_phdrs (n : nat) (file : list Z) (phoff i : Z) (segs : list ElfSegment) (maxEnd : Z)
  : option (BootStatus + list ElfSegment * Z) :=
  match n with
  | O => Some (inr (segs, maxEnd))
  | S n =>
      ph ← read_phdr file phoff i;
      if (ph_type ph =? PT_INTERP) || (ph_type ph =? PT_DYNAMIC) || (ph_type ph =? PT_TLS)
      then Some (inl BOOT_ERR_ELF_SEGMENT)
      else if negb (ph_type ph =? PT_LOAD) then parse_phdrs n file phoff (i + 1) segs maxEnd
      else
        match check_phdr (zlen file) segs ph with
        | Some e => Some (inl e)
        | None =>
            let e := ph_vaddr ph +! ph_memsz ph in
            let overlap := match last segs with
                           | Some prev => ph_vaddr ph <? bootAlignUp (es_vaddr prev +! es_memsz prev) ELF_PAGE_SIZE
                           | None => false
                           end in
            if overlap then Some (inl BOOT_ERR_ELF_SEGMENT)
            else parse_phdrs n file phoff (i + 1) (segs ++ [seg_of ph]) (if maxEnd <? e then e else maxEnd)
        end
  end.

(** Models src/boot/common/elf.c:159-169, elfParse (the entry point). *)
Fixpoint check_entry (segs : list ElfSegment) (entry : Z) : bool :=
  match segs with
  | [] => false
  | s :: segs =>
      if (es_vaddr s <=? entry) && (entry <? es_vaddr s +! es_memsz s)
      then negb ((es_flags s .& ELF_PF_X) =? 0)
      else check_entry segs entry
  end.

(** Models src/boot/common/elf.c:59-170, elfParse. *)
Definition elfParse (file : list Z) : option (BootStatus + ElfImage) :=
  if zlen file <? sizeof_RawElfHeader then Some (inl BOOT_ERR_ELF_HEADER)
  else
    h ← read_header file;
    match check_header h with
    | Some e => Some (inl e)
    | None =>
        let phTableBytes := eh_phnum h *! sizeof_RawProgramHeader in
        if (zlen file <? eh_phoff h) || (zlen file -! eh_phoff h <? phTableBytes)
        then Some (inl BOOT_ERR_ELF_PHDR)
        else
          r ← parse_phdrs (Z.to_nat (eh_phnum h)) file (eh_phoff h) 0 [] 0;
          match r with
          | inl e => Some (inl e)
          | inr (segs, maxEnd) =>
              match segs with
              | [] => Some (inl BOOT_ERR_ELF_SEGMENT)
              | first :: _ =>
                  let img := {| ei_entry := eh_entry h; ei_linkBase := es_vaddr first;
                                ei_span := bootAlignUp maxEnd ELF_PAGE_SIZE -! es_vaddr first;
                                ei_segs := segs |} in
                  if check_entry segs (eh_entry h) then Some (inr img) else Some (inl BOOT_ERR_ELF_ENTRY)
              end
          end
    end.

(** ** Loading *)

Section Load.

(** [SIZE_MAX] of the loader's target: 2^32 - 1 in the BIOS loader, 2^64 - 1 under UEFI. *)
Variable SIZE_MAX : Z.

(** Models src/boot/common/elf.c:184-196, elfLoad (the segment loop). *)
Fixpoint load_segs (img : ElfImage) (file : list Z) (segs : list ElfSegment) (dest : list Z)
  : option (BootStatus * list Z) :=
  match segs with
  | [] => Some (BOOT_OK, dest)
  | s :: segs =>
      let destOff := es_vaddr s -! ei_linkBase img in
      if (ei_span img <? destOff) || (ei_span img -! destOff <? es_filesz s) then Some (BOOT_ERR_ELF_SEGMENT, dest)
      else if SIZE_MAX <? es_filesz s then Some (BOOT_ERR_ELF_RANGE, dest)
      else
        bytes ← peek file (es_offset s) (es_filesz s);
        dest ← bootMemcpy dest destOff bytes;
        load_segs img file segs dest
  end.

(** Models src/boot/common/elf.c:172-198, elfLoad. *)
Definition elfLoad (img : ElfImage) (file dest : list Z) : option (BootStatus * list Z) :=
  if SIZE_MAX <? ei_span img then Some (BOOT_ERR_ELF_RANGE, dest)
  else
    dest ← bootMemset dest 0 0 (ei_span img);
    load_segs img file (ei_segs img) dest.

End Load.

(** ** What an accepted image is *)

Definition seg_end (s : ElfSegment) : Z := es_vaddr s + es_memsz s.

(** The first page boundary at or after [x]. *)
Definition page_up (x : Z) : Z := (x + 4095) / 4096 * 4096.

Record seg_ok (file : list Z) (s : ElfSegment) : Prop := {
  so_aligned : (4096 | es_vaddr s);
  so_window : BOOTINFO_KERNEL_WINDOW_BASE <= es_vaddr s /\ seg_end s <= BOOTINFO_KERNEL_WINDOW_END;
  so_sizes : 0 <= es_filesz s <= es_memsz s /\ 0 < es_memsz s;
  so_file : 0 <= es_offset s /\ es_offset s + es_filesz s <= zlen file;
  so_readable : es_flags s .& ELF_PF_R <> 0;
  so_wx : es_flags s .& ELF_PF_W = 0 \/ es_flags s .& ELF_PF_X = 0
}.

(** The segments do not share a page. *)
Definition seg_before (s t : ElfSegment) : Prop := page_up (seg_end s) <= es_vaddr t.

Definition segs_ok (file : list Z) (segs : list ElfSegment) : Prop :=
  Forall (seg_ok file) segs /\ StronglySorted seg_before segs /\ zlen segs <= ELF_MAX_SEGMENTS.

Definition max_end (segs : list ElfSegment) (m : Z) : Prop :=
  match last segs with Some s => m = seg_end s | None => m = 0 end.

Record image_ok (file : list Z) (img : ElfImage) : Prop := {
  io_segs : segs_ok file (ei_segs img);
  io_base : exists first rest, ei_segs img = first :: rest /\ ei_linkBase img = es_vaddr first;
  io_span : exists s, last (ei_segs img) = Some s /\ ei_span img = page_up (seg_end s) - ei_linkBase img;
  io_entry : exists s, s ∈ ei_segs img /\ es_vaddr s <= ei_entry img < seg_end s /\ es_flags s .& ELF_PF_X <> 0
}.

Lemma page_up_range x : x <= page_up x < x + 4096 /\ (4096 | page_up x).
Proof. unfold page_up. split; [dlia|]. exists ((x + 4095) / 4096). reflexivity. Qed.

Lemma alignUp_page x : 0 <= x < 2 ^ 64 - 4096 -> bootAlignUp x ELF_PAGE_SIZE = page_up x.
Proof.
  intros Hx. change ELF_PAGE_SIZE with (2 ^ 12).
  destruct (bootAlignUp_spec 12 ltac:(lia) x) as [H1 H2]; [words; lia|lia|].
  destruct (page_up_range x) as [H3 [a Ha]]. change (2 ^ 12) with 4096 in *.
  apply Z.mod_divide in H1 as [b Hb]; [|lia]. lia.
Qed.

Lemma window_bounds : BOOTINFO_KERNEL_WINDOW_BASE = 2 ^ 64 - 2 ^ 31 /\ BOOTINFO_KERNEL_WINDOW_END = 2 ^ 64 - 2 ^ 31 + 2 ^ 29.
Proof. split; reflexivity. Qed.

(** *** Reading the headers *)

Lemma peek_le_ok file off n :
  is_bytes file -> 0 <= off -> 0 <= n -> off + n <= zlen file ->
  exists v, peek_le file off n = Some v /\ 0 <= v < 256 ^ n.
Proof.
  intros Hb Ho Hn He. destruct (peek_is_Some file off n) as [l Hl]; try assumption.
  unfold peek_le. rewrite Hl. exists (le_val l). split; [reflexivity|].
  apply (peek_le_range file off n); [assumption|]. unfold peek_le. rewrite Hl. reflexivity.
Qed.

Definition phdr_fields (ph : RawProgramHeader) : Prop :=
  is_u32 (ph_type ph) /\ is_u32 (ph_flags ph) /\ is_u64 (ph_offset ph) /\ is_u64 (ph_vaddr ph) /\
  is_u64 (ph_filesz ph) /\ is_u64 (ph_memsz ph).

(** Steps through the reads of a header. *)
Ltac read_fields Hb :=
  repeat match goal with
  | |- context [peek_le ?f ?o ?n] =>
      let v := fresh "v" in let E := fresh "E" in let R := fresh "R" in
      destruct (peek_le_ok f o n Hb) as (v & E & R); [lia|lia|lia|rewrite E; cbn [mbind option_bind]]
  end.

Lemma read_header_ok file : is_bytes file -> 64 <= zlen file ->
  exists h, read_header file = Some h /\ is_u64 (eh_entry h) /\ is_u64 (eh_phoff h) /\ is_u16 (eh_phnum h).
Proof.
  intros Hb Hl. unfold read_header. destruct (peek_is_Some file 0 16) as [id ->]; [lia..|]. cbn [mbind option_bind].
  read_fields Hb. eexists. split; [reflexivity|]. simpl. words. lia.
Qed.

Lemma read_phdr_ok file phoff i :
  is_bytes file -> zlen file < 2 ^ 64 -> 0 <= phoff -> 0 <= i -> phoff + 56 * (i + 1) <= zlen file ->
  exists ph, read_phdr file phoff i = Some ph /\ phdr_fields ph.
Proof.
  intros Hb Hf Hp Hi Hl. unfold read_phdr, sizeof_RawProgramHeader.
  rewrite (u64_small (i * 56)), (u64_small (phoff + _)) by (words; lia).
  read_fields Hb. eexists. split; [reflexivity|]. unfold phdr_fields. simpl. words. lia.
Qed.

(** *** One loadable header *)

Lemma flag_bits f : 0 <= f -> (f .& ELF_PF_W = 0 \/ f .& ELF_PF_X = 0) <-> (f .& (ELF_PF_W .| ELF_PF_X)) <> (ELF_PF_W .| ELF_PF_X).
Proof.
  intros Hf. unfold ELF_PF_W, ELF_PF_X. change (2 .| 1) with (2 ^ 2 - 1). rewrite land_low by lia.
  assert (E1 : f .& 1 = (f mod 4) mod 2) by (change 1 with (2 ^ 1 - 1); rewrite land_low by lia; change (2 ^ 1) with 2; dlia).
  assert (E2 : f .& 2 = if f mod 4 <? 2 then 0 else 2).
  { apply Z.bits_inj'. intros n Hn. rewrite Z.land_spec. destruct (Z.eq_dec n 1) as [->|Hne].
    - change (Z.testbit 2 1) with true. rewrite andb_true_r, Z.testbit_eqb by lia. change (2 ^ 1) with 2.
      destruct (Z.ltb_spec (f mod 4) 2); simpl; [apply Z.eqb_neq|apply Z.eqb_eq]; dlia.
    - replace (Z.testbit 2 n) with false; [rewrite andb_false_r|].
      + destruct (Z.ltb_spec (f mod 4) 2); [rewrite Z.testbit_0_l; reflexivity|].
        change 2 with (2 ^ 1). rewrite Z.pow2_bits_false by lia. reflexivity.
      + change 2 with (2 ^ 1). rewrite Z.pow2_bits_false by lia. reflexivity. }
  rewrite E1, E2. change (2 ^ 2 - 1) with 3. change (2 ^ 2) with 4. pose proof (Z.mod_pos_bound f 4 ltac:(lia)).
  destruct (Z.ltb_spec (f mod 4) 2); split; intros Hx; dlia.
Qed.

Lemma check_phdr_ok file segs ph :
  phdr_fields ph -> zlen file < 2 ^ 64 -> check_phdr (zlen file) segs ph = None ->
  seg_ok file (seg_of ph) /\ zlen segs < ELF_MAX_SEGMENTS.
Proof.
  intros (Ht & Hfl & Ho & Hv & Hfs & Hms) Hf. unfold check_phdr. pose proof (zlen_nonneg file) as Hn. words.
  destruct (Z.leb_spec ELF_MAX_SEGMENTS (zlen segs)); [discriminate|].
  destruct ((ph_memsz ph =? 0) || (ph_memsz ph <? ph_filesz ph)) eqn:E1; [discriminate|].
  destruct ((zlen file <? ph_offset ph) || _) eqn:E2; [discriminate|].
  destruct (Z.eqb_spec (ph_vaddr ph .& (ELF_PAGE_SIZE - 1)) 0) as [E3|]; [|discriminate]. simpl negb. cbv iota.
  destruct (Z.eqb_spec (ph_flags ph .& ELF_PF_R) 0) as [|E4]; [discriminate|].
  destruct (Z.eqb_spec (ph_flags ph .& (ELF_PF_W .| ELF_PF_X)) (ELF_PF_W .| ELF_PF_X)) as [|E5]; [discriminate|].
  destruct ((ph_vaddr ph <? _) || _ || _) eqn:E6; [discriminate|]. intros _.
  bprop. destruct window_bounds as [Ew0 Ew1]. rewrite Ew0, Ew1 in *.
  rewrite Z.mod_small in * by lia. split; [|assumption]. split; simpl; try lia.
  - change (ELF_PAGE_SIZE - 1) with (2 ^ 12 - 1) in E3. rewrite land_low in E3 by lia. apply Z.mod_divide in E3; [assumption|lia].
  - rewrite Ew0, Ew1. unfold seg_end. simpl. lia.
  - apply flag_bits; [lia|assumption].
Qed.

(** *** The loop over the headers *)

Lemma seg_end_bounds file s : seg_ok file s -> 0 <= es_vaddr s < seg_end s /\ seg_end s < 2 ^ 64 - 4096.
Proof. intros [_ [H1 H2] [_ H3] _ _ _]. destruct window_bounds as [E0 E1]. rewrite E0, E1 in *. unfold seg_end in *. lia. Qed.

Lemma sorted_snoc file segs s :
  Forall (seg_ok file) segs -> StronglySorted seg_before segs ->
  (forall prev, last segs = Some prev -> seg_before prev s) -> StronglySorted seg_before (segs ++ [s]).
Proof.
  intros Hok Hs Hlast. induction Hs as [|t segs Hs IH Ht]; [repeat constructor|].
  apply Forall_cons in Hok as [Hto Hok]. simpl. constructor.
  - apply IH; [assumption|]. intros prev Hp. apply Hlast. destruct segs; [discriminate|exact Hp].
  - apply Forall_app. split; [assumption|]. constructor; [|constructor].
    destruct (list_snoc_cases segs) as [->|(k & x & ->)]; [apply Hlast; reflexivity|].
    assert (Hx : seg_before x s) by (apply Hlast; simpl; change (t :: k ++ [x]) with ((t :: k) ++ [x]); apply last_snoc).
    apply Forall_app in Ht as [_ Ht]. inversion Ht as [|? ? Htx _]; subst.
    apply Forall_app in Hok as [_ Hok]. inversion Hok as [|? ? Hxo _]; subst.
    pose proof (seg_end_bounds _ _ Hxo). pose proof (page_up_range (seg_end x)). unfold seg_before in *. lia.
Qed.

(** What the loop builds from the headers it has read. *)
Definition is_load (ph : RawProgramHeader) : bool := ph_type ph =? PT_LOAD.
Definition forbidden (ph : RawProgramHeader) : bool :=
  (ph_type ph =? PT_INTERP) || (ph_type ph =? PT_DYNAMIC) || (ph_type ph =? PT_TLS).

Definition phdrs (file : list Z) (phoff i : Z) (n : nat) : option (list RawProgramHeader) :=
  mapM (read_phdr file phoff) (seqZ i (Z.of_nat n)).

Definition parsed (segs : list ElfSegment) (phs : list RawProgramHeader) (segs' : list ElfSegment) : Prop :=
  segs' = segs ++ (seg_of <$> filter is_load phs) /\ Forall (fun ph => forbidden ph = false) phs.

(** The statuses a rejected file yields. *)
Definition elf_error (e : BootStatus) : Prop :=
  e ∈ [BOOT_ERR_ELF_HEADER; BOOT_ERR_ELF_PHDR; BOOT_ERR_ELF_SEGMENT; BOOT_ERR_ELF_WX; BOOT_ERR_ELF_RANGE; BOOT_ERR_ELF_ENTRY].

Ltac elf_err := unfold elf_error; repeat (first [apply list_elem_of_here | apply list_elem_of_further]).

Lemma check_phdr_error size segs ph e : check_phdr size segs ph = Some e -> elf_error e.
Proof. unfold check_phdr. intros H. repeat (case_match; [injection H as <-; elf_err|]). discriminate. Qed.

Lemma check_header_error h e : check_header h = Some e -> elf_error e.
Proof. unfold check_header. cbv zeta. intros H. repeat (case_match; [injection H as <-; elf_err|]). discriminate. Qed.

Lemma max_end_snoc segs s m :
  max_end segs m -> (forall prev, last segs = Some prev -> seg_end prev <= seg_end s) -> 0 <= seg_end s ->
  max_end (segs ++ [s]) (if m <? seg_end s then seg_end s else m).
Proof.
  unfold max_end. rewrite last_snoc. intros Hm Hp Hs. destruct (last segs) as [prev|]; subst m.
  - specialize (Hp prev eq_refl). destruct (Z.ltb_spec (seg_end prev) (seg_end s)); lia.
  - destruct (Z.ltb_spec 0 (seg_end s)); lia.
Qed.

Lemma parse_phdrs_spec file phoff n : forall i segs m,
  is_bytes file -> zlen file < 2 ^ 64 -> 0 <= phoff -> 0 <= i -> phoff + 56 * (i + Z.of_nat n) <= zlen file ->
  segs_ok file segs -> max_end segs m ->
  exists r, parse_phdrs n file phoff i segs m = Some r /\
  match r with
  | inl e => elf_error e
  | inr (segs', m') => segs_ok file segs' /\ max_end segs' m' /\
      exists phs, phdrs file phoff i n = Some phs /\ parsed segs phs segs'
  end.
Proof.
  induction n as [|n IH]; intros i segs m Hb Hf Hp Hi Hl Hok Hm.
  { eexists. split; [reflexivity|]. split; [assumption|]. split; [assumption|]. exists [].
    split; [reflexivity|]. split; [simpl; rewrite app_nil_r; reflexivity|constructor]. }
  cbn [parse_phdrs]. destruct (read_phdr_ok file phoff i Hb Hf Hp Hi ltac:(lia)) as (ph & Er & Hph). rewrite Er.
  cbn [mbind option_bind]. fold (forbidden ph). destruct (forbidden ph) eqn:Ef; [eexists; split; [reflexivity|elf_err]|].
  assert (Hcons : forall segs0 segs', (if is_load ph then segs0 = segs ++ [seg_of ph] else segs0 = segs) ->
    (exists phs, phdrs file phoff (i + 1) n = Some phs /\ parsed segs0 phs segs') ->
    exists phs, phdrs file phoff i (S n) = Some phs /\ parsed segs phs segs').
  { intros segs0 segs' Hs0 (phs & E & -> & Hfb). exists (ph :: phs). split.
    - unfold phdrs in *. rewrite seqZ_cons by lia. simpl. rewrite Er. cbn [mbind option_bind].
      replace (Z.pred (Z.of_nat (S n))) with (Z.of_nat n) by lia. replace (Z.succ i) with (i + 1) by lia. rewrite E. reflexivity.
    - split; [|constructor; assumption]. rewrite filter_cons. case_decide as El.
      + apply Is_true_true in El. rewrite El in Hs0. subst segs0. simpl. rewrite <- app_assoc. reflexivity.
      + apply Is_true_false in El. rewrite El in Hs0. subst segs0. reflexivity. }
  fold (is_load ph). destruct (is_load ph) eqn:El; simpl negb; cbv iota.
  - destruct (check_phdr (zlen file) segs ph) as [e|] eqn:Ec; [eexists; split; [reflexivity|eapply check_phdr_error, Ec]|].
    destruct (check_phdr_ok _ _ _ Hph Hf Ec) as [Hs Hlen]. destruct Hok as (Hall & Hso & Hcap).
    pose proof (seg_end_bounds _ _ Hs) as Hse. change (ph_vaddr ph + ph_memsz ph) with (seg_end (seg_of ph)).
    rewrite (u64_small (seg_end (seg_of ph))) by (words; lia).
    assert (Hov : match last segs with
      | Some prev => ph_vaddr ph <? bootAlignUp (es_vaddr prev +! es_memsz prev) ELF_PAGE_SIZE
      | None => false end = false -> forall prev, last segs = Some prev -> seg_before prev (seg_of ph)).
    { intros H prev Hpr. rewrite Hpr in H. bprop. apply last_Some in Hpr as [k ->].
      apply Forall_app in Hall as [_ Hall]. inversion Hall as [|? ? Hpo _]; subst.
      pose proof (seg_end_bounds _ _ Hpo). change (es_vaddr prev + es_memsz prev) with (seg_end prev) in H.
      rewrite u64_small, alignUp_page in H by (words; lia). exact H. }
    destruct (match last segs with Some _ => _ | None => false end); [eexists; split; [reflexivity|elf_err]|].
    specialize (Hov eq_refl).
    destruct (IH (i + 1) (segs ++ [seg_of ph]) (if m <? seg_end (seg_of ph) then seg_end (seg_of ph) else m)) as (r & E & Hr);
      try assumption; try lia.
    + split; [apply Forall_app; auto|]. split; [eapply sorted_snoc; eassumption|]. rewrite zlen_app. change (zlen [seg_of ph]) with 1. lia.
    + apply max_end_snoc; [assumption| |lia]. intros prev Hpr. specialize (Hov prev Hpr).
      pose proof (page_up_range (seg_end prev)). unfold seg_before in Hov. lia.
    + exists r. split; [exact E|]. destruct r as [e|[segs' m']]; [assumption|].
      destruct Hr as (H1 & H2 & H3). split; [assumption|]. split; [assumption|]. eapply Hcons; [reflexivity|exact H3].
  - destruct (IH (i + 1) segs m) as (r & E & Hr); try assumption; try lia.
    exists r. split; [exact E|]. destruct r as [e|[segs' m']]; [assumption|].
    destruct Hr as (H1 & H2 & H3). split; [assumption|]. split; [assumption|]. eapply Hcons; [reflexivity|exact H3].
Qed.

Lemma check_entry_ok file segs entry : Forall (seg_ok file) segs -> check_entry segs entry = true ->
  exists s, s ∈ segs /\ es_vaddr s <= entry < seg_end s /\ es_flags s .& ELF_PF_X <> 0.
Proof.
  induction segs as [|s segs IH]; intros Hok H; [discriminate|]. apply Forall_cons in Hok as [Hs Hok]. simpl in H.
  pose proof (seg_end_bounds _ _ Hs). change (es_vaddr s + es_memsz s) with (seg_end s) in H.
  rewrite u64_small in H by (words; lia).
  destruct ((es_vaddr s <=? entry) && (entry <? seg_end s)) eqn:E.
  - bprop. exists s. split; [apply list_elem_of_here|]. split; [lia|assumption].
  - destruct (IH Hok H) as (t & Ht & Hr). exists t. split; [apply list_elem_of_further, Ht|exact Hr].
Qed.

Lemma elfParse_spec file :
  is_bytes file -> zlen file < 2 ^ 64 ->
  exists r, elfParse file = Some r /\
  match r with
  | inl e => elf_error e
  | inr img => image_ok file img /\ exists h phs,
      read_header file = Some h /\ check_header h = None /\ ei_entry img = eh_entry h /\
      phdrs file (eh_phoff h) 0 (Z.to_nat (eh_phnum h)) = Some phs /\ parsed [] phs (ei_segs img)
  end.
Proof.
  intros Hb Hf. unfold elfParse, sizeof_RawElfHeader.
  destruct (Z.ltb_spec (zlen file) 64) as [|Hl]; [eexists; split; [reflexivity|elf_err]|].
  destruct (read_header_ok file Hb Hl) as (h & Eh & Hent & Hoff & Hnum). rewrite Eh. cbn [mbind option_bind].
  destruct (check_header h) as [e|] eqn:Ec; [eexists; split; [reflexivity|eapply check_header_error, Ec]|]. words.
  cbv zeta. rewrite (Z.mod_small (eh_phnum h * _)) by (unfold sizeof_RawProgramHeader; lia).
  destruct ((zlen file <? eh_phoff h) || _) eqn:Eo; [eexists; split; [reflexivity|elf_err]|]. bprop.
  rewrite Z.mod_small in * by lia. unfold sizeof_RawProgramHeader in *.
  destruct (parse_phdrs_spec file (eh_phoff h) (Z.to_nat (eh_phnum h)) 0 [] 0) as (r & E & Hr);
    try assumption; try lia; try reflexivity.
  { split; [constructor|]. split; [constructor|]. vm_compute. discriminate. }
  rewrite E. cbn [mbind option_bind]. destruct r as [e|[segs m]]; [eexists; split; [reflexivity|exact Hr]|].
  destruct Hr as (Hok & Hm & phs & Ep & Hpar).
  destruct segs as [|first segs]; [eexists; split; [reflexivity|elf_err]|].
  destruct (check_entry (first :: segs) (eh_entry h)) eqn:Een; [|eexists; split; [reflexivity|elf_err]].
  eexists. split; [reflexivity|]. split; [|exists h, phs; auto].
  destruct (check_entry_ok file _ _ (proj1 Hok) Een) as (se & Hse). destruct Hok as (Hall & Hso & Hcap).
  split; simpl ei_segs; simpl ei_linkBase; simpl ei_entry; simpl ei_span.
  - split; [assumption|]. split; assumption.
  - exists first, segs. auto.
  - unfold max_end in Hm. destruct (last (first :: segs)) as [s|] eqn:El.
    2:{ destruct (list_snoc_cases (first :: segs)) as [?|(k & x & Ex)]; [discriminate|]. rewrite Ex, last_snoc in El. discriminate. }
    exists s. split; [reflexivity|]. subst m. pose proof El as El'. apply last_Some in El as [k Ek].
    assert (Hs : seg_ok file s) by (rewrite Ek in Hall; apply Forall_app in Hall as [_ Hall]; inversion Hall; assumption).
    pose proof (seg_end_bounds _ _ Hs). rewrite alignUp_page by lia. apply u64_small.
    pose proof (page_up_range (seg_end s)). apply Forall_cons in Hall as [Hfst Hall]. pose proof (seg_end_bounds _ _ Hfst).
    assert (es_vaddr first <= es_vaddr s).
    { destruct k as [|f k]; simpl in Ek; injection Ek as Ef Er; [rewrite Ef; lia|]. subst f segs. inversion Hso as [|? ? _ Hf']; subst.
      apply Forall_app in Hf' as [_ Hf']. inversion Hf' as [|? ? Hfs _]; subst. unfold seg_before in Hfs.
      pose proof (page_up_range (seg_end first)). lia. }
    words. lia.
  - exists se. exact Hse.
Qed.

(** C13: The loader accepts only images it can map safely, and never reads
    outside the file.  Every file gets a verdict; a rejected one an ELF error.
    An accepted image has between one and eight segments, exactly the PT_LOAD
    headers of the table in their order, each page-aligned, inside the kernel
    window, readable, never both writable and executable, backed by bytes of the
    file; no two share a page; the span covers them all and the entry point lies
    in an executable one. *)
Theorem elfParse_sound file :
  is_bytes file -> zlen file < 2 ^ 64 ->
  exists r, elfParse file = Some r /\
  match r with
  | inl e => elf_error e
  | inr img => image_ok file img /\ exists h phs,
      read_header file = Some h /\ check_header h = None /\ ei_entry img = eh_entry h /\
      phdrs file (eh_phoff h) 0 (Z.to_nat (eh_phnum h)) = Some phs /\ parsed [] phs (ei_segs img)
  end.
Proof. apply elfParse_spec. Qed.

(** ** The loaded image *)

(** Position of a segment's file bytes in the destination block. *)
Definition in_file_part (base : Z) (s : ElfSegment) (i : Z) : Prop := es_vaddr s - base <= i < es_vaddr s - base + es_filesz s.

Definition copied (file : list Z) (base : Z) (s : ElfSegment) (dest : list Z) : Prop :=
  forall j, 0 <= j < es_filesz s ->
    dest !! Z.to_nat (es_vaddr s - base + j) = file !! Z.to_nat (es_offset s + j).

Lemma sorted_first first segs s :
  StronglySorted seg_before (first :: segs) -> Forall (fun t => es_vaddr t < seg_end t) (first :: segs) ->
  s ∈ first :: segs -> es_vaddr first <= es_vaddr s.
Proof.
  intros Hs Hok Hin. inversion Hs as [|? ? _ Hf]; subst. apply elem_of_cons in Hin as [->|Hin]; [lia|].
  rewrite Forall_forall in Hf. specialize (Hf s Hin). apply Forall_cons in Hok as [Hfst _].
  pose proof (page_up_range (seg_end first)). unfold seg_before in Hf. lia.
Qed.

Lemma sorted_last segs l s :
  StronglySorted seg_before segs -> Forall (fun t => es_vaddr t < seg_end t) segs ->
  last segs = Some l -> s ∈ segs -> seg_end s <= seg_end l.
Proof.
  induction segs as [|t segs IH]; intros Hs Hok Hl Hin; [discriminate|].
  inversion Hs as [|? ? Hs' Hf]; subst. apply Forall_cons in Hok as [_ Hok]. destruct segs as [|u segs].
  - simpl in Hl. injection Hl as ->. apply list_elem_of_singleton in Hin as ->. lia.
  - change (last (t :: u :: segs)) with (last (u :: segs)) in Hl. apply elem_of_cons in Hin as [->|Hin]; [|auto].
    assert (Hlin : l ∈ u :: segs) by (apply last_Some_elem_of, Hl).
    rewrite Forall_forall in Hf, Hok. specialize (Hf l Hlin). specialize (Hok l Hlin).
    pose proof (page_up_range (seg_end t)). unfold seg_before in Hf. lia.
Qed.

Lemma image_bounds file img s : image_ok file img -> s ∈ ei_segs img ->
  0 <= es_vaddr s - ei_linkBase img /\ seg_end s - ei_linkBase img <= ei_span img.
Proof.
  intros [(Hall & Hso & _) (first & rest & Es & Eb) (l & El & Esp) _] Hin.
  assert (Hpos : Forall (fun t => es_vaddr t < seg_end t) (ei_segs img)).
  { eapply Forall_impl; [exact Hall|]. intros t Ht. pose proof (seg_end_bounds _ _ Ht). lia. }
  pose proof (sorted_last _ _ _ Hso Hpos El Hin). pose proof (page_up_range (seg_end l)).
  rewrite Es in Hso, Hpos, Hin. pose proof (sorted_first _ _ _ Hso Hpos Hin). lia.
Qed.

Lemma load_segs_spec SIZE_MAX img file segs : forall dest,
  Forall (seg_ok file) segs -> StronglySorted seg_before segs -> zlen file < 2 ^ 64 ->
  (forall s, s ∈ segs -> 0 <= es_vaddr s - ei_linkBase img /\ seg_end s - ei_linkBase img <= ei_span img) ->
  0 <= ei_linkBase img -> ei_span img <= SIZE_MAX -> 0 <= ei_span img < 2 ^ 64 -> zlen dest = ei_span img ->
  exists dest', load_segs SIZE_MAX img file segs dest = Some (BOOT_OK, dest') /\ length dest' = length dest /\
    (forall s, s ∈ segs -> copied file (ei_linkBase img) s dest') /\
    (forall i, 0 <= i -> (forall s, s ∈ segs -> ~ in_file_part (ei_linkBase img) s i) -> dest' !! Z.to_nat i = dest !! Z.to_nat i).
Proof.
  set (base := ei_linkBase img). induction segs as [|s segs IH]; intros dest Hall Hso Hf Hb Hb0 Hmax Hsp Hd.
  - exists dest. split; [reflexivity|]. split; [reflexivity|]. split; [intros s Hs; inversion Hs|reflexivity].
  - apply Forall_cons in Hall as [Hs Hall]. inversion Hso as [|? ? Hso' Hfst]; subst.
    destruct (Hb s (list_elem_of_here _ _)) as [Hb1 Hb2]. destruct Hs as [_ Hw [Hsz Hms] Hfile _ _].
    destruct window_bounds as [Ew0 Ew1]. rewrite Ew0, Ew1 in Hw. unfold seg_end in Hb2, Hw. cbn [load_segs]. fold base in Hb1, Hb2 |- *.
    rewrite (u64_small (es_vaddr s - base)), (u64_small (ei_span img - _)) by (words; lia).
    destruct (Z.ltb_spec (ei_span img) (es_vaddr s - base)); [lia|].
    destruct (Z.ltb_spec (ei_span img - (es_vaddr s - base)) (es_filesz s)); [lia|]. simpl orb. cbv iota.
    destruct (Z.ltb_spec SIZE_MAX (es_filesz s)); [lia|].
    destruct (peek_is_Some file (es_offset s) (es_filesz s)) as [bytes Ebytes]; [lia..|]. rewrite Ebytes. cbn [mbind option_bind].
    apply peek_Some in Ebytes as (_ & _ & _ & Hlen & Ebytes).
    destruct (bootMemcpy_is_Some dest (es_vaddr s - base) bytes) as [dest1 E1]; [lia|lia|]. rewrite E1. cbn [mbind option_bind].
    pose proof (bootMemcpy_length _ _ _ _ E1) as Hl1. pose proof (fun i => bootMemcpy_lookup _ _ _ _ i E1) as Hlk.
    destruct (IH dest1 Hall Hso' Hf) as (dest' & E & Hl' & Hcp & Hout); try assumption.
    { intros t Ht. apply Hb, list_elem_of_further, Ht. }
    { unfold zlen in *. lia. }
    assert (Hlen' : length bytes = Z.to_nat (es_filesz s)) by (unfold zlen in Hlen; lia).
    exists dest'. split; [exact E|]. split; [lia|]. split.
    + intros t Ht. apply elem_of_cons in Ht as [->|Ht]; [|apply Hcp, Ht]. intros j Hj.
      rewrite Hout; [|lia|].
      * rewrite Hlk, decide_True by lia. rewrite Ebytes, lookup_take_lt, lookup_drop by lia. f_equal. lia.
      * intros u Hu Hin. rewrite Forall_forall in Hfst. specialize (Hfst u Hu). unfold seg_before, seg_end in Hfst.
        pose proof (page_up_range (es_vaddr s + es_memsz s)). unfold in_file_part in Hin. lia.
    + intros i Hi Hno. rewrite Hout by (auto; intros t Ht; apply Hno, list_elem_of_further, Ht).
      rewrite Hlk, decide_False; [reflexivity|]. specialize (Hno s (list_elem_of_here _ _)). unfold in_file_part in Hno. lia.
Qed.

(** C25: An accepted image is loaded completely and stays inside its block.
    When the span fits the target's [size_t], every byte of the block is either
    the file's byte for the segment that covers it or zero (padding and bss);
    otherwise nothing is written. *)
Theorem elfLoad_exact SIZE_MAX file img dest :
  image_ok file img -> zlen file < 2 ^ 64 -> zlen dest = ei_span img ->
  match elfLoad SIZE_MAX img file dest with
  | Some (BOOT_OK, dest') => ei_span img <= SIZE_MAX /\ zlen dest' = ei_span img /\
      (forall s, s ∈ ei_segs img -> copied file (ei_linkBase img) s dest') /\
      (forall i, 0 <= i < ei_span img -> (forall s, s ∈ ei_segs img -> ~ in_file_part (ei_linkBase img) s i) ->
         dest' !! Z.to_nat i = Some 0)
  | Some (BOOT_ERR_ELF_RANGE, dest') => SIZE_MAX < ei_span img /\ dest' = dest
  | _ => False
  end.
Proof.
  intros Hok Hf Hd. unfold elfLoad. destruct (Z.ltb_spec SIZE_MAX (ei_span img)) as [|Hle]; [auto|].
  pose proof (zlen_nonneg dest) as Hn. destruct (io_base _ _ Hok) as (first & rest & Es & Eb).
  destruct (io_segs _ _ Hok) as (Hall & Hso & _). destruct (io_span _ _ Hok) as (l & El & Esp).
  assert (Hspan : 0 <= ei_linkBase img /\ ei_span img < 2 ^ 64).
  { assert (Hl : seg_ok file l) by (rewrite Forall_forall in Hall; apply Hall, last_Some_elem_of, El).
    assert (Hf0 : seg_ok file first) by (rewrite Es in Hall; apply Forall_cons in Hall as [? _]; assumption).
    pose proof (seg_end_bounds _ _ Hl). pose proof (seg_end_bounds _ _ Hf0). pose proof (page_up_range (seg_end l)). lia. }
  unfold bootMemset. change (u8 0) with 0.
  destruct (bootMemcpy_is_Some dest 0 (replicate (Z.to_nat (ei_span img)) 0)) as [dest0 E0];
    [lia|rewrite zlen_replicate; lia|]. rewrite E0. cbn [mbind option_bind].
  pose proof (bootMemcpy_length _ _ _ _ E0) as Hl0. pose proof (fun i => bootMemcpy_lookup _ _ _ _ i E0) as Hlk.
  destruct (load_segs_spec SIZE_MAX img file (ei_segs img) dest0) as (dest' & -> & Hl' & Hcp & Hout); try assumption; try lia.
  - intros s. apply image_bounds with (1 := Hok).
  - unfold zlen in *. lia.
  - split; [assumption|]. split; [unfold zlen in *; lia|]. split; [exact Hcp|]. intros i Hi Hno.
    rewrite Hout, Hlk, decide_True by (try assumption; rewrite ?length_replicate; lia).
    apply lookup_replicate_2. lia.
Qed.

(** ** A small kernel file *)

Definition phdr_bytes (ty flags offset vaddr filesz memsz : Z) : list Z :=
  le_bytes 4 ty ++ le_bytes 4 flags ++ le_bytes 8 offset ++ le_bytes 8 vaddr ++ le_bytes 8 0 ++
  le_bytes 8 filesz ++ le_bytes 8 memsz ++ le_bytes 8 4096.

Definition sample_elf : list Z :=
  [0x7F; 0x45; 0x4C; 0x46; 2; 1; 1; 0] ++ replicate 8 0 ++ le_bytes 2 ET_EXEC ++ le_bytes 2 EM_X86_64 ++ le_bytes 4 1 ++
  le_bytes 8 (BOOTINFO_KERNEL_WINDOW_BASE + 4) ++ le_bytes 8 64 ++ le_bytes 8 0 ++ le_bytes 4 0 ++ le_bytes 2 64 ++
  le_bytes 2 56 ++ le_bytes 2 3 ++ le_bytes 2 64 ++ le_bytes 2 0 ++ le_bytes 2 0 ++
  phdr_bytes PT_LOAD 5 232 BOOTINFO_KERNEL_WINDOW_BASE 8 16 ++ phdr_bytes 4 4 0 0 0 0 ++
  phdr_bytes PT_LOAD 6 240 (BOOTINFO_KERNEL_WINDOW_BASE + 0x1000) 4 0x20 ++
  [0x90; 0x90; 0x90; 0x90; 0xFA; 0xF4; 0xEB; 0xFD; 1; 2; 3; 4].

Definition sample_image : ElfImage :=
  {| ei_entry := BOOTINFO_KERNEL_WINDOW_BASE + 4; ei_linkBase := BOOTINFO_KERNEL_WINDOW_BASE; ei_span := 0x2000;
     ei_segs := [ {| es_vaddr := BOOTINFO_KERNEL_WINDOW_BASE; es_memsz := 16; es_filesz := 8; es_offset := 232; es_flags := 5 |};
                  {| es_vaddr := BOOTINFO_KERNEL_WINDOW_BASE + 0x1000; es_memsz := 0x20; es_filesz := 4;
                     es_offset := 240; es_flags := 6 |} ] |}.

Lemma sample_elf_bytes : is_bytes sample_elf.
Proof. apply (bool_decide_unpack _). vm_compute. exact I. Qed.

Lemma sample_elf_parses : elfParse sample_elf = Some (inr sample_image).
Proof. vm_compute. reflexivity. Qed.

Lemma sample_image_ok : image_ok sample_elf sample_image.
Proof.
  destruct (elfParse_spec sample_elf sample_elf_bytes) as (r & E & Hr); [vm_compute; reflexivity|].
  rewrite sample_elf_parses in E. injection E as <-. apply Hr.
Qed.

Lemma elfParse_sound_witness :
  exists r, elfParse sample_elf = Some r /\
  match r with inl e => elf_error e | inr img => image_ok sample_elf img end.
Proof.
  destruct (elfParse_sound sample_elf sample_elf_bytes) as (r & E & Hr); [vm_compute; reflexivity|].
  exists r. split; [exact E|]. destruct r; [exact Hr|apply Hr].
Defined.

Definition sample_dest : list Z := replicate (Z.to_nat 0x2000) 7.

Lemma elfLoad_exact_witness :
  match elfLoad (2 ^ 32 - 1) sample_image sample_elf sample_dest with
  | Some (BOOT_OK, dest') => ei_span sample_image <= 2 ^ 32 - 1 /\ zlen dest' = ei_span sample_image /\
      (forall s, s ∈ ei_segs sample_image -> copied sample_elf (ei_linkBase sample_image) s dest') /\
      (forall i, 0 <= i < ei_span sample_image ->
         (forall s, s ∈ ei_segs sample_image -> ~ in_file_part (ei_linkBase sample_image) s i) -> dest' !! Z.to_nat i = Some 0)
  | Some (BOOT_ERR_ELF_RANGE, dest') => 2 ^ 32 - 1 < ei_span sample_image /\ dest' = sample_dest
  | _ => False
  end.
Proof.
  apply (elfLoad_exact (2 ^ 32 - 1) sample_elf sample_image sample_dest sample_image_ok); vm_compute; reflexivity.
Defined.
