(* ===== verification/BootPaging.v ===== *)
(** * The loader's page-table builder

    Models boot/common/paging.c: 4-level tables built from a pool of zeroed
    pages.  Physical memory is a function from the byte address of each 8-byte
    word to its value ([bootPhysToPtr] is the identity, as it is before the jump
    to the kernel); a table is the address of its first word. *)

From S2P Require Import Prelude BootTypes Elf.

(** ** State *)

(** Models src/boot/common/include/paging.h:45-51, PtBuilder, with the memory it
    works on. *)
Record PtBuilder := mkPt {
  pt_poolPhys : Z; pt_poolPages : Z; pt_poolUsed : Z; pt_has1G : bool; pt_pml4Phys : Z;
  pt_mem : Z -> Z }.

Definition pt_write (a v : Z) (b : PtBuilder) : PtBuilder :=
  mkPt (pt_poolPhys b) (pt_poolPages b) (pt_poolUsed b) (pt_has1G b) (pt_pml4Phys b) (write_word a v (pt_mem b)).

Definition PT_P : Z := 2 ^ 0.
Definition PT_W : Z := 2 ^ 1.
Definition PT_PS : Z := 2 ^ 7.
Definition PT_G : Z := 2 ^ 8.
Definition PT_NX : Z := 2 ^ 63.
Definition PT_ADDR_MASK : Z := 0x000FFFFFFFFFF000.
Definition PT_SIZE_4K : Z := 2 ^ 12.
Definition PT_SIZE_2M : Z := 2 ^ 21.
Definition PT_SIZE_1G : Z := 2 ^ 30.
Definition PT_FLAGS_KERNEL_RX : Z := PT_P .| PT_G.
Definition PT_FLAGS_KERNEL_RO : Z := (PT_P .| PT_G) .| PT_NX.
Definition PT_FLAGS_KERNEL_RW : Z := ((PT_P .| PT_W) .| PT_G) .| PT_NX.

(** [entry & flag], as a condition. *)
Definition has (e flag : Z) : bool := negb ((e .& flag) =? 0).

(** [table[idx]]. *)
Definition entry (b : PtBuilder) (table idx : Z) : Z := pt_mem b (table + 8 * idx).

(** The index of [va] in a table whose entries cover [2^shift] bytes. *)
Definition index (shift va : Z) : Z := u32 ((va >>! shift) .& 511).

(** ** Operations *)

(** Models src/boot/common/paging.c:6-17, ptInit, with a 64-bit [size_t]: the i386 loader's is 32 bits wide, which
    matters from a pool of 2^20 pages on. *)
Definition ptInit (poolPhys poolPages : Z) (has1G : bool) (mem : Z -> Z) : BootStatus * option PtBuilder :=
  if poolPages =? 0 then (BOOT_ERR_NO_MEMORY, None)
  else
    let mem := fill_words (Z.to_nat (poolPages *! PT_SIZE_4K / 8)) 0 poolPhys 0 mem in
    (BOOT_OK, Some (mkPt poolPhys poolPages 1 has1G poolPhys mem)).

(** Models src/boot/common/paging.c:19-26, ptAllocPage. *)
Definition ptAllocPage (b : PtBuilder) : option (Z * PtBuilder) :=
  if pt_poolPages b <=? pt_poolUsed b then None
  else Some (pt_poolPhys b +! pt_poolUsed b *! PT_SIZE_4K,
             mkPt (pt_poolPhys b) (pt_poolPages b) (u32 (pt_poolUsed b + 1)) (pt_has1G b) (pt_pml4Phys b) (pt_mem b)).

(** Models src/boot/common/paging.c:34-52, ptGetOrAllocTable. *)
Definition ptGetOrAllocTable (table idx : Z) (b : PtBuilder) : (BootStatus + Z) * PtBuilder :=
  let e := entry b table idx in
  if has e PT_P then
    if has e PT_PS then (inl BOOT_ERR_PT_CONFLICT, b) else (inr (e .& PT_ADDR_MASK), b)
  else
    match ptAllocPage b with
    | None => (inl BOOT_ERR_NO_MEMORY, b)
    | Some (newPhys, b) => (inr newPhys, pt_write (table + 8 * idx) ((newPhys .| PT_P) .| PT_W) b)
    end.

(** Models src/boot/common/paging.c:56-62, ptWriteLeaf. *)
Definition ptWriteLeaf (table idx value : Z) (b : PtBuilder) : BootStatus * PtBuilder :=
  if has (entry b table idx) PT_P then (BOOT_ERR_PT_CONFLICT, b)
  else (BOOT_OK, pt_write (table + 8 * idx) value b).

(** The end of an iteration: the size of the leaf written, or the failure. *)
Definition leaf_result (size : Z) (r : BootStatus * PtBuilder) : (BootStatus + Z) * PtBuilder :=
  match r with (BOOT_OK, b) => (inr size, b) | (e, b) => (inl e, b) end.

(** Models src/boot/common/paging.c:75-129, ptMapRange (one iteration). *)
Definition map_step (leafFlags : Z) (allowLarge : bool) (va pa size : Z) (b : PtBuilder) : (BootStatus + Z) * PtBuilder :=
  match ptGetOrAllocTable (pt_pml4Phys b) (index 39 va) b with
  | (inl e, b) => (inl e, b)
  | (inr pdpt, b) =>
      if allowLarge && pt_has1G b && ((va .& (PT_SIZE_1G - 1)) =? 0) && ((pa .& (PT_SIZE_1G - 1)) =? 0)
         && (PT_SIZE_1G <=? size)
      then leaf_result PT_SIZE_1G (ptWriteLeaf pdpt (index 30 va) ((pa .| leafFlags) .| PT_PS) b)
      else
        match ptGetOrAllocTable pdpt (index 30 va) b with
        | (inl e, b) => (inl e, b)
        | (inr pd, b) =>
            if allowLarge && ((va .& (PT_SIZE_2M - 1)) =? 0) && ((pa .& (PT_SIZE_2M - 1)) =? 0) && (PT_SIZE_2M <=? size)
            then leaf_result PT_SIZE_2M (ptWriteLeaf pd (index 21 va) ((pa .| leafFlags) .| PT_PS) b)
            else
              match ptGetOrAllocTable pd (index 21 va) b with
              | (inl e, b) => (inl e, b)
              | (inr pt, b) => leaf_result PT_SIZE_4K (ptWriteLeaf pt (index 12 va) (pa .| leafFlags) b)
              end
        end
  end.

(** Models src/boot/common/paging.c:74-130, ptMapRange (the loop).  Every
    iteration takes at least one page off [size], so [size / 4096 + 1] rounds
    are enough. *)
Fixpoint map_loop (fuel : nat) (leafFlags : Z) (allowLarge : bool) (va pa size : Z) (b : PtBuilder)
  : option (BootStatus * PtBuilder) :=
  match fuel with
  | O => None
  | S fuel =>
      if 0 <? size then
        match map_step leafFlags allowLarge va pa size b with
        | (inl e, b) => Some (e, b)
        | (inr n, b) => map_loop fuel leafFlags allowLarge (va +! n) (pa +! n) (size -! n) b
        end
      else Some (BOOT_OK, b)
  end.

(** Models src/boot/common/paging.c:64-132, ptMapRange. *)
Definition ptMapRange (va pa size leafFlags : Z) (allowLarge : bool) (b : PtBuilder) : option (BootStatus * PtBuilder) :=
  if negb ((((va .| pa) .| size) .& (PT_SIZE_4K - 1)) =? 0) then Some (BOOT_ERR_PT_UNALIGNED, b)
  else map_loop (S (Z.to_nat (size / PT_SIZE_4K))) leafFlags allowLarge va pa size b.

(** Models src/boot/common/paging.c:140-147, ptMapElfImage (the flags of a segment). *)
Definition seg_flags (s : ElfSegment) : Z :=
  if has (es_flags s) ELF_PF_X then PT_FLAGS_KERNEL_RX
  else if has (es_flags s) ELF_PF_W then PT_FLAGS_KERNEL_RW
  else PT_FLAGS_KERNEL_RO.

(** Models src/boot/common/paging.c:135-152, ptMapElfImage (the loop). *)
Fixpoint map_segs (img : ElfImage) (segs : list ElfSegment) (physBase slide : Z) (b : PtBuilder)
  : option (BootStatus * PtBuilder) :=
  match segs with
  | [] => Some (BOOT_OK, b)
  | s :: segs =>
      '(st, b) ← ptMapRange (es_vaddr s +! slide) (physBase +! (es_vaddr s -! ei_linkBase img))
                   (bootAlignUp (es_memsz s) PT_SIZE_4K) (seg_flags s) false b;
      match st with BOOT_OK => map_segs img segs physBase slide b | e => Some (e, b) end
  end.

(** Models src/boot/common/paging.c:134-154, ptMapElfImage. *)
Definition ptMapElfImage (img : ElfImage) (physBase slide : Z) (b : PtBuilder) : option (BootStatus * PtBuilder) :=
  map_segs img (ei_segs img) physBase slide b.

(** Models src/boot/common/paging.c:156-197, ptLookup.  The result is the
    physical address and the flags; [None] is BOOT_ERR_NOT_MAPPED. *)
Definition ptLookup (b : PtBuilder) (va : Z) : option (Z * Z) :=
  let leaf e mask := Some ((e .& PT_ADDR_MASK) +! (va .& mask), e .& not64 PT_ADDR_MASK) in
  let e4 := entry b (pt_pml4Phys b) (index 39 va) in
  if negb (has e4 PT_P) then None
  else
    let e3 := entry b (e4 .& PT_ADDR_MASK) (index 30 va) in
    if negb (has e3 PT_P) then None
    else if has e3 PT_PS then leaf e3 (PT_SIZE_1G - 1)
    else
      let e2 := entry b (e3 .& PT_ADDR_MASK) (index 21 va) in
      if negb (has e2 PT_P) then None
      else if has e2 PT_PS then leaf e2 (PT_SIZE_2M - 1)
      else
        let e1 := entry b (e2 .& PT_ADDR_MASK) (index 12 va) in
        if negb (has e1 PT_P) then None else leaf e1 (PT_SIZE_4K - 1).

(** ** Entries *)

Lemma addr_mask_bit n : 0 <= n -> Z.testbit PT_ADDR_MASK n = (12 <=? n) && (n <? 52).
Proof.
  intros Hn. change PT_ADDR_MASK with (Z.shiftl (Z.ones 40) 12). rewrite Z.shiftl_spec by lia.
  destruct (Z.leb_spec 12 n).
  - rewrite Z.testbit_ones_nonneg by lia. simpl. destruct (Z.ltb_spec (n - 12) 40), (Z.ltb_spec n 52); lia || reflexivity.
  - rewrite Z.testbit_neg_r by lia. reflexivity.
Qed.

Lemma frame_bits a n : (4096 | a) -> 0 <= a < 2 ^ 52 -> 0 <= n -> Z.testbit a n = Z.testbit a n && ((12 <=? n) && (n <? 52)).
Proof.
  intros [k ->] Ha Hn. destruct (Z.leb_spec 12 n) as [H1|H1]; simpl.
  - destruct (Z.ltb_spec n 52) as [H2|H2]; [rewrite andb_true_r; reflexivity|]. rewrite andb_false_r.
    apply Z.bits_above_log2; [lia|]. destruct (Z.eq_dec (k * 4096) 0) as [->|]; [simpl; lia|].
    apply Z.log2_lt_pow2; [lia|]. apply Z.lt_le_trans with (2 ^ 52); [lia|]. apply Z.pow_le_mono_r; lia.
  - rewrite andb_false_r. change 4096 with (2 ^ 12). rewrite <- Z.shiftl_mul_pow2 by lia.
    rewrite Z.shiftl_spec, Z.testbit_neg_r by lia. reflexivity.
Qed.

(** A frame address: page-aligned and within the address bits of an entry. *)
Definition is_frame (a : Z) : Prop := (4096 | a) /\ 0 <= a < 2 ^ 52.

Lemma frame_masked a : is_frame a -> a .& PT_ADDR_MASK = a.
Proof.
  intros [H1 H2]. apply Z.bits_inj'. intros n Hn. rewrite Z.land_spec, addr_mask_bit by assumption.
  symmetry. apply frame_bits; assumption.
Qed.

Lemma frame_low a : is_frame a -> forall f, 0 <= f -> (f .& PT_ADDR_MASK) = 0 -> (a .& f) = 0.
Proof.
  intros [H1 H2] f Hf Hm. apply Z.bits_inj'. intros n Hn. rewrite Z.land_spec, Z.testbit_0_l, (frame_bits a n) by assumption.
  assert (E : Z.testbit (f .& PT_ADDR_MASK) n = false) by (rewrite Hm; apply Z.testbit_0_l).
  rewrite Z.land_spec, addr_mask_bit in E by assumption. rewrite <- andb_assoc, (andb_comm _ (Z.testbit f n)), E. apply andb_false_r.
Qed.

Lemma masked_frame e : is_frame (e .& PT_ADDR_MASK).
Proof.
  assert (Hb : forall n, 0 <= n -> Z.testbit (e .& PT_ADDR_MASK) n = Z.testbit e n && ((12 <=? n) && (n <? 52)))
    by (intros; rewrite Z.land_spec, addr_mask_bit by assumption; reflexivity).
  split.
  - exists ((e .& PT_ADDR_MASK) / 4096). change 4096 with (2 ^ 12). rewrite <- Z.shiftr_div_pow2, <- Z.shiftl_mul_pow2 by lia.
    rewrite <- Z.ldiff_ones_r by lia. apply Z.bits_inj'. intros n Hn. rewrite Z.ldiff_spec, Z.testbit_ones_nonneg, Hb by lia.
    destruct (Z.leb_spec 12 n), (Z.ltb_spec n 12); try lia; simpl; rewrite ?andb_false_r, ?andb_true_r; reflexivity.
  - split; [apply Z.land_nonneg; right; vm_compute; discriminate|].
    assert (E : e .& PT_ADDR_MASK = (e .& PT_ADDR_MASK) mod 2 ^ 52); [|rewrite E; apply Z.mod_pos_bound; lia].
    rewrite <- Z.land_ones by lia. apply Z.bits_inj'. intros n Hn.
    rewrite (Z.land_spec _ (Z.ones 52)), Z.testbit_ones_nonneg, Hb by lia.
    destruct (Z.ltb_spec n 52); rewrite ?andb_false_r, ?andb_true_r; reflexivity.
Qed.

(** The bits of a leaf besides the address. *)
Definition is_flags (f : Z) : Prop := is_u64 f /\ (f .& PT_ADDR_MASK) = 0 /\ has f PT_P = true.

Lemma entry_addr a f : is_frame a -> (f .& PT_ADDR_MASK) = 0 -> (a .| f) .& PT_ADDR_MASK = a.
Proof. intros Ha Hf. rewrite Z.land_lor_distr_l, Hf, frame_masked by assumption. apply Z.lor_0_r. Qed.

Lemma entry_flags a f : is_frame a -> is_u64 f -> (f .& PT_ADDR_MASK) = 0 -> (a .| f) .& not64 PT_ADDR_MASK = f.
Proof.
  intros [H1 H2] Hf Hm. apply Z.bits_inj'. intros n Hn.
  rewrite Z.land_spec, Z.lor_spec, not64_spec, addr_mask_bit by (try assumption; unfold PT_ADDR_MASK; words; lia).
  rewrite (frame_bits a n) by assumption.
  assert (E : Z.testbit f n && ((12 <=? n) && (n <? 52)) = false).
  { rewrite <- addr_mask_bit, <- Z.land_spec, Hm by assumption. apply Z.testbit_0_l. }
  assert (E2 : 64 <= n -> Z.testbit f n = false).
  { intros Hn64. apply Z.bits_above_log2; [words; lia|]. destruct (Z.eq_dec f 0) as [->|]; [simpl; lia|].
    apply Z.log2_lt_pow2; [words; lia|]. apply Z.lt_le_trans with (2 ^ 64); [words; lia|]. apply Z.pow_le_mono_r; lia. }
  destruct (Z.ltb_spec n 64) as [|Hge]; simpl.
  - destruct ((12 <=? n) && (n <? 52)); simpl; rewrite ?andb_false_r, ?andb_true_r in *; congruence || reflexivity.
  - rewrite E2 by assumption. apply andb_false_r.
Qed.

Lemma has_lor_frame a f flag : is_frame a -> 0 <= flag -> (flag .& PT_ADDR_MASK) = 0 -> has (a .| f) flag = has f flag.
Proof.
  intros Ha Hflag Hm. unfold has. rewrite Z.land_lor_distr_l, (frame_low a Ha) by assumption. reflexivity.
Qed.

(** The pointer entries the builder writes. *)
Lemma pointer_entry a : is_frame a ->
  let e := (a .| PT_P) .| PT_W in has e PT_P = true /\ has e PT_PS = false /\ e .& PT_ADDR_MASK = a.
Proof.
  intros Ha e. unfold e. rewrite <- Z.lor_assoc.
  rewrite !(has_lor_frame a), entry_addr by (try assumption; try reflexivity; vm_compute; discriminate).
  split; [reflexivity|]. split; reflexivity.
Qed.

(** ** Addresses *)

(** The part of [va] above the [2^(3 + 9 l)] bytes an entry of level [l] covers,
    within the 48 bits a walk looks at. *)
Definition shift (l : nat) : Z := 3 + 9 * Z.of_nat l.
Definition region (l : nat) (va : Z) : Z := (va mod 2 ^ 48) / 2 ^ shift l.

Lemma index_range sh va : 0 <= sh -> 0 <= index sh va < 512.
Proof.
  intros Hs. unfold index. change 511 with (2 ^ 9 - 1). rewrite land_low by lia.
  pose proof (Z.mod_pos_bound (va >>! sh) (2 ^ 9) ltac:(lia)). rewrite u32_small by (words; lia). lia.
Qed.

Lemma index_eq sh va : 0 <= sh -> index sh va = va / 2 ^ sh mod 512.
Proof.
  intros Hs. unfold index. change 511 with (2 ^ 9 - 1). rewrite land_low, Z.shiftr_div_pow2 by lia. change (2 ^ 9) with 512.
  apply u32_small. pose proof (Z.mod_pos_bound (va / 2 ^ sh) 512 ltac:(lia)). words. lia.
Qed.

Lemma region_split l va : (1 <= l <= 4)%nat -> region l va = 512 * region (S l) va + index (shift l) va.
Proof.
  intros Hl. unfold region. rewrite index_eq by (unfold shift; lia).
  assert (l = 1 \/ l = 2 \/ l = 3 \/ l = 4)%nat as Hc by lia.
  destruct Hc as [->|[->|[->| ->]]]; unfold shift; simpl Z.of_nat; simpl Z.add; simpl Z.mul; dlia.
Qed.

Lemma region_top va : region 5 va = 0.
Proof. unfold region, shift. apply Z.div_small. apply Z.mod_pos_bound. lia. Qed.

(** ** Walks *)

(** The walk from a table of level [n], as one recursion: the translation, and the level of the
    leaf (1, 2 and 3 for pages of 4 KiB, 2 MiB and 1 GiB). *)
Fixpoint walk (n : nat) (b : PtBuilder) (table va : Z) : option (Z * Z * nat) :=
  match n with
  | O => None
  | S m =>
      let e := entry b table (index (shift n) va) in
      if negb (has e PT_P) then None
      else if (m =? 0)%nat || has e PT_PS then
        Some ((e .& PT_ADDR_MASK) +! (va .& (2 ^ shift n - 1)), e .& not64 PT_ADDR_MASK, n)
      else walk m b (e .& PT_ADDR_MASK) va
  end.

Definition translation (b : PtBuilder) (va : Z) : option (Z * Z * nat) := walk 4 b (pt_pml4Phys b) va.

(** The level of the page that maps [va]. *)
Definition page_level (b : PtBuilder) (va : Z) : option nat := snd <$> translation b va.

(** The tables a walk of [va] passes through, by level. *)
Inductive reach (b : PtBuilder) (va : Z) : nat -> Z -> Prop :=
  | reach_root : reach b va 4 (pt_pml4Phys b)
  | reach_next l t : (1 <= l)%nat -> reach b va (S l) t ->
      has (entry b t (index (shift (S l)) va)) PT_P = true ->
      has (entry b t (index (shift (S l)) va)) PT_PS = false ->
      reach b va l (entry b t (index (shift (S l)) va) .& PT_ADDR_MASK).

Lemma reach_range b va l t : reach b va l t -> (1 <= l <= 4)%nat.
Proof. induction 1; lia. Qed.

(** The tables in use, with their levels. *)
Record tables (T : gmap Z nat) (b : PtBuilder) : Prop := {
  tb_frames : (4096 | pt_poolPhys b) /\ 0 <= pt_poolPhys b /\ pt_poolPhys b + 4096 * pt_poolPages b <= 2 ^ 52;
  tb_used : 1 <= pt_poolUsed b <= pt_poolPages b /\ pt_poolPages b < 2 ^ 32;
  tb_root : T !! pt_pml4Phys b = Some 4%nat;
  tb_pages : forall t l, T !! t = Some l -> (1 <= l <= 4)%nat /\
    exists k, 0 <= k < pt_poolUsed b /\ t = pt_poolPhys b + 4096 * k;
  tb_pointer : forall t l i, T !! t = Some (S l) -> (1 <= l)%nat -> 0 <= i < 512 -> has (entry b t i) PT_P = true ->
    has (entry b t i) PT_PS = false -> T !! (entry b t i .& PT_ADDR_MASK) = Some l;
  tb_top : forall t i, T !! t = Some 4%nat -> 0 <= i < 512 -> has (entry b t i) PT_P = true -> has (entry b t i) PT_PS = false;
  tb_inj : forall t l i t' l' i', T !! t = Some (S l) -> T !! t' = Some (S l') -> (1 <= l)%nat -> (1 <= l')%nat ->
    0 <= i < 512 -> 0 <= i' < 512 ->
    has (entry b t i) PT_P = true -> has (entry b t i) PT_PS = false ->
    has (entry b t' i') PT_P = true -> has (entry b t' i') PT_PS = false ->
    entry b t i .& PT_ADDR_MASK = entry b t' i' .& PT_ADDR_MASK -> t = t' /\ i = i';
  tb_fresh : forall k i, pt_poolUsed b <= k < pt_poolPages b -> 0 <= i < 512 -> entry b (pt_poolPhys b + 4096 * k) i = 0
}.

Lemma shift_pos l : 0 <= shift l.
Proof. unfold shift. lia. Qed.

Lemma reach_level T b va l t : tables T b -> reach b va l t -> T !! t = Some l.
Proof.
  intros HT H. induction H as [|l t Hl H IH H1 H2]; [apply (tb_root _ _ HT)|].
  eapply (tb_pointer _ _ HT); eauto using index_range, shift_pos.
Qed.

(** Two walks that meet in a table agree on the bits above it. *)
Lemma reach_unique T b va va' l l' t :
  tables T b -> reach b va l t -> reach b va' l' t -> l' = l /\ region (S l) va' = region (S l) va.
Proof.
  intros HT H. revert l'. remember t as t0 eqn:Et. revert t Et. induction H as [|l t Hl H IH H1 H2]; intros t0 Et l' H'.
  - pose proof (reach_level _ _ _ _ _ HT H') as HL. rewrite (tb_root _ _ HT) in HL. injection HL as <-.
    split; [reflexivity|]. rewrite !region_top. reflexivity.
  - assert (HL : T !! (entry b t (index (shift (S l)) va) .& PT_ADDR_MASK) = Some l).
    { eapply (reach_level T b va); [assumption|]. constructor; assumption. }
    pose proof (reach_level _ _ _ _ _ HT H') as HL'. rewrite HL in HL'. injection HL' as <-. split; [reflexivity|].
    pose proof (reach_range _ _ _ _ H) as Hr.
    remember (entry b t (index (shift (S l)) va) .& PT_ADDR_MASK) as tgt eqn:Etgt.
    inversion H' as [E1 E2|l' t' Hl' H'' H1' H2' E1 E2]; subst l.
    { lia. }
    destruct (tb_inj _ _ HT t l' (index (shift (S l')) va) t' l' (index (shift (S l')) va')) as [Ett Eii];
      eauto using index_range, shift_pos, reach_level; [congruence|].
    subst t'. destruct (IH t eq_refl (S l') H'') as [_ Hreg].
    rewrite (region_split (S l') va'), (region_split (S l') va), Hreg, Eii by lia. reflexivity.
Qed.

Lemma walk_reach b va l t : (forall i, 0 <= i < 512 -> has (entry b (pt_pml4Phys b) i) PT_P = true ->
    has (entry b (pt_pml4Phys b) i) PT_PS = false) ->
  reach b va l t -> walk 4 b (pt_pml4Phys b) va = walk l b t va.
Proof.
  intros Htop H. induction H as [|l t Hl H IH H1 H2]; [reflexivity|]. rewrite IH. cbn [walk]. rewrite H1, H2.
  destruct l as [|l]; [lia|]. reflexivity.
Qed.

Lemma lookup_walk T b va : tables T b -> ptLookup b va = fst <$> translation b va.
Proof.
  intros HT. unfold ptLookup, translation. cbn [walk]. change (shift 4) with 39. change (shift 3) with 30. change (shift 2) with 21.
  change (shift 1) with 12. simpl Nat.eqb. simpl orb.
  destruct (has (entry b (pt_pml4Phys b) (index 39 va)) PT_P) eqn:E4; [|reflexivity].
  rewrite (tb_top _ _ HT (pt_pml4Phys b) (index 39 va)) by (apply (tb_root _ _ HT) || (apply index_range; lia) || assumption). simpl negb. cbv iota.
  repeat match goal with |- (if negb ?c then _ else _) = _ => destruct c; cbn [negb]; [|reflexivity] | |- (if ?c then _ else _) = _ => destruct c; [reflexivity|] end. reflexivity.
Qed.

Lemma lookup_none T b va : tables T b -> ptLookup b va = None <-> translation b va = None.
Proof. intros HT. rewrite (lookup_walk T) by assumption. destruct (translation b va); simpl; split; congruence. Qed.

(** ** Writing one entry *)

Lemma entry_same b t i v : entry (pt_write (t + 8 * i) v b) t i = v.
Proof. unfold entry, pt_write, write_word. simpl. rewrite Z.eqb_refl. reflexivity. Qed.

Lemma entry_other b t i v t' i' :
  (4096 | t - t') -> 0 <= i < 512 -> 0 <= i' < 512 -> (t', i') <> (t, i) ->
  entry (pt_write (t + 8 * i) v b) t' i' = entry b t' i'.
Proof.
  intros [k Hk] Hi Hi' Hne. unfold entry, pt_write, write_word. simpl.
  destruct (Z.eqb_spec (t' + 8 * i') (t + 8 * i)) as [E|]; [|reflexivity]. exfalso. apply Hne.
  assert (k = 0) by lia. f_equal; lia.
Qed.

Lemma table_frame T b t l : tables T b -> T !! t = Some l -> is_frame t.
Proof.
  intros HT Ht. destruct (tb_pages _ _ HT t l Ht) as (_ & k & Hk & ->). destruct (tb_frames _ _ HT) as ([c Hc] & H0 & H1).
  destruct (tb_used _ _ HT). split; [exists (c + k); lia|lia].
Qed.

Lemma tables_apart T b t l t' l' : tables T b -> T !! t = Some l -> T !! t' = Some l' -> (4096 | t - t').
Proof.
  intros HT H H'. destruct (table_frame _ _ _ _ HT H) as [[a ->] _], (table_frame _ _ _ _ HT H') as [[c ->] _].
  exists (a - c). lia.
Qed.

(** [b'] keeps every present entry of [b]. *)
Definition extends (T : gmap Z nat) (b b' : PtBuilder) : Prop :=
  pt_pml4Phys b' = pt_pml4Phys b /\
  forall t l i, T !! t = Some l -> 0 <= i < 512 -> has (entry b t i) PT_P = true -> entry b' t i = entry b t i.

Lemma reach_extends T b b' va l t : tables T b -> extends T b b' -> reach b va l t -> reach b' va l t.
Proof.
  intros HT [Hr He] H. induction H as [|l t Hl H IH H1 H2]; [rewrite <- Hr; constructor|].
  rewrite <- (He t (S l) (index (shift (S l)) va)) by eauto using index_range, shift_pos, reach_level.
  constructor; try assumption; rewrite (He t (S l)) by eauto using index_range, shift_pos, reach_level; assumption.
Qed.

(** The configuration of the builder, which no operation changes. *)
Definition same_pool (b b' : PtBuilder) : Prop :=
  pt_poolPhys b' = pt_poolPhys b /\ pt_poolPages b' = pt_poolPages b /\ pt_has1G b' = pt_has1G b /\
  pt_pml4Phys b' = pt_pml4Phys b.

Lemma has_0 flag : has 0 flag = false.
Proof. unfold has. rewrite Z.land_0_l. reflexivity. Qed.

Lemma walk_zero n b t va : (forall i, 0 <= i < 512 -> entry b t i = 0) -> walk n b t va = None.
Proof.
  intros Hz. destruct n as [|n]; [reflexivity|]. cbn [walk]. rewrite Hz, has_0 by apply index_range, shift_pos. reflexivity.
Qed.

Section AllocTable.

Context (T : gmap Z nat) (b : PtBuilder) (t i : Z) (l : nat) (np : Z) (b1 : PtBuilder).
Hypothesis HT : tables T b.
Hypothesis Ht : T !! t = Some (S l).
Hypothesis Hl : (1 <= l)%nat.
Hypothesis Hi : 0 <= i < 512.
Hypothesis Habs : has (entry b t i) PT_P = false.
Hypothesis Halloc : ptAllocPage b = Some (np, b1).

Let b' := pt_write (t + 8 * i) ((np .| PT_P) .| PT_W) b1.

Lemma alloc_facts : np = pt_poolPhys b + 4096 * pt_poolUsed b /\ pt_poolUsed b < pt_poolPages b /\
  pt_poolUsed b' = pt_poolUsed b + 1 /\ same_pool b b' /\ is_frame np /\
  (forall t' i', entry b1 t' i' = entry b t' i').
Proof.
  pose proof Halloc as E. unfold ptAllocPage in E. destruct (Z.leb_spec (pt_poolPages b) (pt_poolUsed b)); [discriminate|].
  injection E as <- <-. destruct (tb_frames _ _ HT) as ([c Hc] & H0 & H1). destruct (tb_used _ _ HT) as [H2 H3].
  unfold PT_SIZE_4K. change (2 ^ 12) with 4096. rewrite (u64_small (_ * 4096)), (u64_small (_ + _)) by (words; lia).
  split; [lia|]. split; [assumption|]. split; [simpl; apply u32_small; words; lia|]. split; [repeat split|].
  split; [|reflexivity]. split; [exists (c + pt_poolUsed b); lia|lia].
Qed.

Lemma alloc_fresh : T !! np = None /\ np <> t.
Proof.
  destruct alloc_facts as (-> & _). assert (HN : T !! (pt_poolPhys b + 4096 * pt_poolUsed b) = None).
  { destruct (T !! (pt_poolPhys b + 4096 * pt_poolUsed b)) as [l'|] eqn:E; [exfalso|reflexivity].
    destruct (tb_pages _ _ HT _ _ E) as (_ & k & Hk & ?). lia. }
  split; [assumption|]. intros E. rewrite E, Ht in HN. discriminate.
Qed.

Lemma alloc_at : entry b' t i = (np .| PT_P) .| PT_W.
Proof. apply entry_same. Qed.

Lemma alloc_keeps t' l' i' : T !! t' = Some l' -> 0 <= i' < 512 -> (t', i') <> (t, i) -> entry b' t' i' = entry b t' i'.
Proof.
  intros Ht' Hi' Hne. unfold b'. rewrite entry_other by (eauto using tables_apart).
  destruct alloc_facts as (_ & _ & _ & _ & _ & ->). reflexivity.
Qed.

Lemma alloc_extends : extends T b b'.
Proof.
  split; [apply alloc_facts|]. intros t' l' i' Ht' Hi' Hp. apply alloc_keeps with l'; try assumption.
  intros [= -> ->]. congruence.
Qed.

Lemma alloc_zero i' : 0 <= i' < 512 -> entry b' np i' = 0.
Proof.
  intros Hi'. destruct alloc_facts as (E & Hlt & _ & _ & [[a Ha] _] & He). destruct alloc_fresh as [_ Hne].
  destruct (table_frame _ _ _ _ HT Ht) as [[c Hc] _].
  unfold b'. rewrite entry_other; [|exists (c - a); lia|assumption|assumption|congruence].
  rewrite He, E. apply (tb_fresh _ _ HT); [lia|assumption].
Qed.

Lemma alloc_tables : tables (<[np := l]> T) b'.
Proof.
  destruct alloc_facts as (Enp & Hlt & Hu & (E1 & E2 & E3 & E4) & Hnp & He). destruct alloc_fresh as [HN Hne].
  destruct (pointer_entry np Hnp) as (P1 & P2 & P3). rewrite <- alloc_at in P1, P2, P3.
  destruct (tb_used _ _ HT) as [U1 U2].
  assert (Hno : forall l0 i0, (<[np := l]> T) !! np = Some l0 -> 0 <= i0 < 512 -> has (entry b' np i0) PT_P = true -> False).
  { intros l0 i0 _ Hi0 Hp. rewrite alloc_zero, has_0 in Hp by assumption. discriminate. }
  assert (Hold : forall t0 l0, t0 <> np -> (<[np := l]> T) !! t0 = Some l0 -> T !! t0 = Some l0).
  { intros t0 l0 Hn H. rewrite lookup_insert_ne in H by congruence. exact H. }
  assert (Htgt : forall t0 l0 i0, T !! t0 = Some (S l0) -> (1 <= l0)%nat -> 0 <= i0 < 512 -> (t0, i0) <> (t, i) ->
    has (entry b' t0 i0) PT_P = true -> has (entry b' t0 i0) PT_PS = false ->
    T !! (entry b' t0 i0 .& PT_ADDR_MASK) = Some l0).
  { intros t0 l0 i0 H0 Hl0 Hi0 Hn Hp Hs. rewrite (alloc_keeps t0 (S l0)) in * by assumption.
    eapply (tb_pointer _ _ HT); eassumption. }
  split; rewrite ?E1, ?E2, ?Hu, ?E4; try apply HT; try lia.
  - rewrite lookup_insert_ne; [apply HT|]. intros Ex. rewrite Ex, (tb_root _ _ HT) in HN. discriminate.
  - intros t0 l0 H0. rewrite lookup_insert in H0. case_decide as Hc.
    + injection H0 as <-. destruct (tb_pages _ _ HT t (S l) Ht) as [? _]. split; [lia|]. exists (pt_poolUsed b). split; [lia|congruence].
    + destruct (tb_pages _ _ HT t0 l0 H0) as (? & k & ? & ?). split; [assumption|]. exists k. split; [lia|assumption].
  - intros t0 l0 i0 H0 Hl0 Hi0 Hp Hs. destruct (decide (t0 = np)) as [->|Hn]; [destruct (Hno _ _ H0 Hi0 Hp)|].
    apply Hold in H0; [|assumption]. destruct (decide ((t0, i0) = (t, i))) as [[= -> ->]|Hc].
    + rewrite P3, lookup_insert_eq. rewrite Ht in H0. congruence.
    + pose proof (Htgt t0 l0 i0 H0 Hl0 Hi0 Hc Hp Hs) as Hx. rewrite lookup_insert_ne; [assumption|]. congruence.
  - intros t0 i0 H0 Hi0 Hp. destruct (decide (t0 = np)) as [->|Hn]; [destruct (Hno _ _ H0 Hi0 Hp)|].
    apply Hold in H0; [|assumption]. destruct (decide ((t0, i0) = (t, i))) as [[= -> ->]|Hc]; [assumption|].
    rewrite (alloc_keeps t0 4%nat) in * by assumption. eapply (tb_top _ _ HT); eassumption.
  - intros t0 l0 i0 t1 l1 i1 H0 H1 Hl0 Hl1 Hi0 Hi1 Hp0 Hs0 Hp1 Hs1 Heq.
    destruct (decide (t0 = np)) as [->|Hn0]; [destruct (Hno _ _ H0 Hi0 Hp0)|].
    destruct (decide (t1 = np)) as [->|Hn1]; [destruct (Hno _ _ H1 Hi1 Hp1)|].
    apply Hold in H0; [|assumption]. apply Hold in H1; [|assumption].
    destruct (decide ((t0, i0) = (t, i))) as [[= -> ->]|Hc0], (decide ((t1, i1) = (t, i))) as [[= -> ->]|Hc1].
    + auto.
    + exfalso. pose proof (Htgt t1 l1 i1 H1 Hl1 Hi1 Hc1 Hp1 Hs1) as Hx. rewrite <- Heq, P3, HN in Hx. discriminate.
    + exfalso. pose proof (Htgt t0 l0 i0 H0 Hl0 Hi0 Hc0 Hp0 Hs0) as Hx. rewrite Heq, P3, HN in Hx. discriminate.
    + rewrite (alloc_keeps t0 (S l0)) in * by assumption. rewrite (alloc_keeps t1 (S l1)) in * by assumption.
      apply (tb_inj _ _ HT t0 l0 i0 t1 l1 i1); assumption.
  - intros k i0 Hk Hi0. destruct (table_frame _ _ _ _ HT Ht) as [[c Hc] _]. destruct (tb_frames _ _ HT) as ([a Ha] & _ & _).
    destruct (tb_pages _ _ HT t (S l) Ht) as (_ & kt & Hkt & Et).
    unfold b'. rewrite entry_other; [|exists (c - a - k); lia|assumption|assumption|intros [= ? _]; lia].
    rewrite He. apply (tb_fresh _ _ HT); [lia|assumption].
Qed.

Lemma alloc_walk va n : forall t0, T !! t0 = Some n -> walk n b' t0 va = walk n b t0 va.
Proof.
  destruct alloc_facts as (_ & _ & _ & _ & Hnp & _). destruct (pointer_entry np Hnp) as (P1 & P2 & P3). rewrite <- alloc_at in P1, P2, P3.
  induction n as [|n IH]; intros t0 H0; [reflexivity|]. cbn [walk]. pose proof (index_range (shift (S n)) va (shift_pos _)) as Hix.
  destruct (decide ((t0, index (shift (S n)) va) = (t, i))) as [[= -> Ei]|Hc].
  - rewrite Ht in H0. injection H0 as <-. rewrite Ei, P1, P2, P3, Habs, (proj2 (Nat.eqb_neq l 0)) by lia.
    apply walk_zero, alloc_zero.
  - rewrite (alloc_keeps t0 (S n)) by assumption.
    destruct (has (entry b t0 (index (shift (S n)) va)) PT_P) eqn:Ep; [|reflexivity]. simpl negb. cbv iota.
    destruct ((n =? 0)%nat || has (entry b t0 (index (shift (S n)) va)) PT_PS) eqn:Es; [reflexivity|].
    apply orb_false_elim in Es as [En Es]. apply Nat.eqb_neq in En. apply IH.
    eapply (tb_pointer _ _ HT); try eassumption. lia.
Qed.

Lemma alloc_lookup va : translation b' va = translation b va.
Proof.
  unfold translation. destruct alloc_facts as (_ & _ & _ & (_ & _ & _ & ->) & _). apply alloc_walk, (tb_root _ _ HT).
Qed.

End AllocTable.

Section WriteLeaf.

Context (T : gmap Z nat) (b : PtBuilder) (va t v : Z) (l : nat).
Hypothesis HT : tables T b.
Hypothesis Hr : reach b va l t.
Hypothesis Hl : (l <= 3)%nat.
Hypothesis Habs : has (entry b t (index (shift l) va)) PT_P = false.
Hypothesis Hp : has v PT_P = true.
Hypothesis Hps : l = 1%nat \/ has v PT_PS = true.

Let i := index (shift l) va.
Let b' := pt_write (t + 8 * i) v b.

Lemma leaf_table : T !! t = Some l /\ (1 <= l <= 3)%nat /\ 0 <= i < 512.
Proof.
  split; [eapply reach_level; eassumption|]. pose proof (reach_range _ _ _ _ Hr). split; [lia|]. apply index_range, shift_pos.
Qed.

Lemma leaf_keeps t' l' i' : T !! t' = Some l' -> 0 <= i' < 512 -> (t', i') <> (t, i) -> entry b' t' i' = entry b t' i'.
Proof.
  intros Ht' Hi' Hne. destruct leaf_table as (Ht & _ & Hi). apply entry_other; eauto using tables_apart.
Qed.

Lemma leaf_extends : extends T b b'.
Proof.
  split; [reflexivity|]. intros t' l' i' Ht' Hi' Hpr. apply leaf_keeps with l'; try assumption.
  intros [= -> ->]. unfold i in Hpr. congruence.
Qed.

(** A pointer entry is not the one just written. *)
Lemma leaf_pointer t' l' i' : T !! t' = Some (S l') -> (1 <= l')%nat -> has (entry b' t' i') PT_PS = false -> (t', i') <> (t, i).
Proof.
  intros Ht' Hl' Hs [= -> ->]. destruct leaf_table as (Ht & _). rewrite Ht in Ht'. injection Ht' as ->.
  unfold b' in Hs. rewrite entry_same in Hs. destruct Hps; [lia|congruence].
Qed.

Lemma leaf_tables : tables T b'.
Proof.
  destruct leaf_table as (Ht & Hl' & Hi). split; try apply HT.
  - intros t0 l0 i0 H0 Hl0 Hi0 Hp0 Hs0. pose proof (leaf_pointer _ _ _ H0 Hl0 Hs0) as Hne.
    rewrite (leaf_keeps t0 (S l0)) in * by assumption. eapply (tb_pointer _ _ HT); eassumption.
  - intros t0 i0 H0 Hi0 Hp0. assert (Hne : (t0, i0) <> (t, i)) by (intros [= -> _]; rewrite Ht in H0; injection H0; lia).
    rewrite (leaf_keeps t0 4%nat) in * by assumption. eapply (tb_top _ _ HT); eassumption.
  - intros t0 l0 i0 t1 l1 i1 H0 H1 Hl0 Hl1 Hi0 Hi1 Hp0 Hs0 Hp1 Hs1 Heq.
    pose proof (leaf_pointer _ _ _ H0 Hl0 Hs0). pose proof (leaf_pointer _ _ _ H1 Hl1 Hs1).
    rewrite (leaf_keeps t0 (S l0)) in * by assumption. rewrite (leaf_keeps t1 (S l1)) in * by assumption.
    apply (tb_inj _ _ HT t0 l0 i0 t1 l1 i1); assumption.
  - intros k i0 Hk Hi0. change (pt_poolPhys b') with (pt_poolPhys b). unfold b' in Hk. simpl in Hk. destruct (table_frame _ _ _ _ HT Ht) as [[c Hc] _].
    destruct (tb_frames _ _ HT) as ([a Ha] & _ & _). destruct (tb_pages _ _ HT t l Ht) as (_ & kt & Hkt & Et).
    unfold b'. rewrite entry_other; [|exists (c - a - k); lia|assumption|assumption|intros [= ? _]; lia].
    apply (tb_fresh _ _ HT); assumption.
Qed.

(** Addresses that agree above an entry take the same walk to it. *)
Lemma reach_region va' m u : reach b va m u -> region (S m) va' = region (S m) va -> reach b va' m u.
Proof.
  intros H. induction H as [|m u Hm H IH H1 H2]; intros Hreg; [constructor|].
  pose proof (reach_range _ _ _ _ H) as Hrg.
  rewrite (region_split (S m) va'), (region_split (S m) va) in Hreg by lia.
  pose proof (index_range (shift (S m)) va (shift_pos _)). pose proof (index_range (shift (S m)) va' (shift_pos _)).
  assert (Ei : index (shift (S m)) va' = index (shift (S m)) va) by lia.
  rewrite <- Ei. constructor; [assumption|apply IH; lia| |]; rewrite Ei; assumption.
Qed.

Lemma leaf_walk va' n : forall t0, reach b va' n t0 -> region l va' <> region l va -> walk n b' t0 va' = walk n b t0 va'.
Proof.
  induction n as [|n IH]; intros t0 H0 Hne; [reflexivity|]. cbn [walk].
  pose proof (index_range (shift (S n)) va' (shift_pos _)) as Hix. pose proof (reach_level _ _ _ _ _ HT H0) as Ht0.
  assert (Hc : (t0, index (shift (S n)) va') <> (t, i)).
  { intros [= -> Ei]. destruct (reach_unique T b va va' l (S n) t HT Hr H0) as [El Hreg]. apply Hne.
    destruct leaf_table as (_ & Hrg & _). rewrite !(region_split l), Hreg by lia. rewrite El in Ei. unfold i in Ei. rewrite Ei. reflexivity. }
  rewrite (leaf_keeps t0 (S n)) by assumption.
  destruct (has (entry b t0 (index (shift (S n)) va')) PT_P) eqn:Ep; [|reflexivity]. simpl negb. cbv iota.
  destruct ((n =? 0)%nat || has (entry b t0 (index (shift (S n)) va')) PT_PS) eqn:Es; [reflexivity|].
  apply orb_false_elim in Es as [En Es]. apply Nat.eqb_neq in En. apply IH; [|assumption]. constructor; try assumption. lia.
Qed.

Lemma leaf_lookup va' :
  translation b' va' = if decide (region l va' = region l va)
                       then Some ((v .& PT_ADDR_MASK) +! (va' .& (2 ^ shift l - 1)), v .& not64 PT_ADDR_MASK, l)
                       else translation b va'.
Proof.
  unfold translation. destruct leaf_table as (Ht & Hrg & Hi). case_decide as Hreg.
  - pose proof Hreg as Hreg'. rewrite !(region_split l) in Hreg' by lia.
    pose proof (index_range (shift l) va' (shift_pos _)) as Hix. fold i in Hreg'.
    assert (Hr' : reach b' va' l t).
    { apply (reach_extends T b); [assumption|apply leaf_extends|]. eapply reach_region; [eassumption|lia]. }
    rewrite (walk_reach b' va' l t); [|intros j Hj; apply (tb_top _ _ leaf_tables), Hj; apply (tb_root _ _ leaf_tables)|assumption].
    assert (Ei : index (shift l) va' = i) by lia. revert Ei. destruct leaf_table as (_ & _ & _). generalize (entry_same b t i v). fold b'.
    intros Ee Ei. assert (El : exists m, l = S m) by (exists (pred l); lia). destruct El as [m El].
    rewrite El at 1. cbn [walk]. rewrite <- El, Ei, Ee, Hp. simpl negb. cbv iota.
    replace ((m =? 0)%nat || has v PT_PS) with true; [reflexivity|].
    destruct Hps as [H1|H2]; [|rewrite H2, orb_true_r; reflexivity]. assert (m = O) as -> by lia. reflexivity.
  - apply leaf_walk; [constructor|assumption].
Qed.

(** No address of the region was mapped before. *)
Lemma leaf_unmapped va' : region l va' = region l va -> translation b va' = None.
Proof.
  intros Hreg. destruct leaf_table as (Ht & Hrg & Hi). rewrite !(region_split l) in Hreg by lia.
  pose proof (index_range (shift l) va' (shift_pos _)) as Hix. fold i in Hreg.
  assert (Hr' : reach b va' l t) by (eapply reach_region; [eassumption|lia]).
  unfold translation. rewrite (walk_reach b va' l t); [|intros j Hj; apply (tb_top _ _ HT), Hj; apply (tb_root _ _ HT)|assumption].
  assert (El : exists m, l = S m) by (exists (pred l); lia). destruct El as [m El]. rewrite El at 1. cbn [walk]. rewrite <- El.
  assert (Ei : index (shift l) va' = i) by lia. rewrite Ei. unfold i. rewrite Habs. reflexivity.
Qed.

End WriteLeaf.

(** ** The operations *)

(** The entry for the page of level [l] at [va] is in use, as a leaf or as a table. *)
Definition slot_used (b : PtBuilder) (l : nat) (va : Z) : Prop :=
  exists t, reach b va l t /\ has (entry b t (index (shift l) va)) PT_P = true.

(** Only entries on the way to [va], in tables of level [k] and above, have come into use. *)
Definition touches (k : nat) (va : Z) (b b' : PtBuilder) : Prop :=
  forall m va', (m < k)%nat \/ region m va' <> region m va -> slot_used b' m va' -> slot_used b m va'.

Lemma touches_write T b b' va k t :
  tables T b -> reach b va k t -> pt_pml4Phys b' = pt_pml4Phys b -> let e := entry b' t (index (shift k) va) in
  (forall t' l' i', T !! t' = Some l' -> 0 <= i' < 512 -> (t', i') <> (t, index (shift k) va) -> entry b' t' i' = entry b t' i') ->
  k = 1%nat \/ has e PT_PS = true \/ (forall j, 0 <= j < 512 -> entry b' (e .& PT_ADDR_MASK) j = 0) -> touches k va b b'.
Proof.
  intros HT Hr Hroot e Hkeep Hnew m va' Hne (u & Hu & Hp). pose proof (reach_level _ _ _ _ _ HT Hr) as Ht. pose proof (reach_range _ _ _ _ Hr) as Hk.
  assert (Hold : forall m u, reach b' va' m u -> reach b va' m u \/ forall j, 0 <= j < 512 -> entry b' u j = 0).
  { clear m u Hu Hp Hne. intros m u H. induction H as [|m u Hm H IH H1 H2]; [left; rewrite Hroot; constructor|].
    pose proof (index_range (shift (S m)) va' (shift_pos _)) as Hi. destruct IH as [IH|Hz]; [|rewrite Hz, has_0 in H1 by assumption; discriminate].
    pose proof (reach_level _ _ _ _ _ HT IH) as Hlev. destruct (decide ((u, index (shift (S m)) va') = (t, index (shift k) va))) as [[= Eu Ei]|Hc].
    - subst u. rewrite Ht in Hlev. injection Hlev as ->. rewrite Ei in *. fold e in H1, H2 |- *. destruct Hnew as [?|[?|Hz]]; [lia|congruence|]. right. exact Hz.
    - left. rewrite (Hkeep _ _ _ Hlev Hi Hc) in *. constructor; assumption. }
  pose proof (index_range (shift m) va' (shift_pos _)) as Hi. destruct (Hold m u Hu) as [Hu'|Hz]; [|rewrite Hz, has_0 in Hp by assumption; discriminate].
  pose proof (reach_level _ _ _ _ _ HT Hu') as Hlev. exists u. split; [assumption|]. rewrite <- (Hkeep u m); [assumption..|]. intros [= -> Ei]. rewrite Ht in Hlev. injection Hlev as ->.
  destruct Hne as [Hne|Hne]; [lia|]. apply Hne. destruct (reach_unique T b va va' m m t HT Hr Hu') as [_ Hreg]. rewrite !(region_split m), Hreg, Ei by lia. reflexivity.
Qed.

(** The tables may have grown on the way to [va], the translation is the same. *)
Definition evolves (k : nat) (va : Z) (b b' : PtBuilder) : Prop :=
  (exists T, tables T b') /\ same_pool b b' /\ touches k va b b' /\ forall va', translation b' va' = translation b va'.

#[global] Instance same_pool_preorder : PreOrder same_pool.
Proof.
  split; [intros b; repeat split|]. intros a b c (? & ? & ? & ?) (? & ? & ? & ?). repeat split; congruence.
Qed.

#[global] Instance touches_preorder k va : PreOrder (touches k va).
Proof. split; [intros b m va' _ H; exact H|]. intros a b c H1 H2 m va' Hne H. auto. Qed.

Lemma evolves_weaken k j va b b' : (j <= k)%nat -> evolves k va b b' -> evolves j va b b'.
Proof. intros Hj (HT & Hs & Ho & Hl). split; [assumption|]. split; [assumption|]. split; [|assumption]. intros m va' Hm. apply Ho. destruct Hm; [left; lia|auto]. Qed.

Lemma evolves_trans k va b b1 b2 : evolves k va b b1 -> evolves k va b1 b2 -> evolves k va b b2.
Proof.
  intros (_ & S1 & O1 & L1) (T2 & S2 & O2 & L2). split; [assumption|]. split; [etransitivity; eassumption|]. split; [etransitivity; eassumption|].
  intros va'. rewrite L2. apply L1.
Qed.

Lemma present_mapped T b va l t :
  tables T b -> reach b va l t -> has (entry b t (index (shift l) va)) PT_P = true ->
  l = 1%nat \/ has (entry b t (index (shift l) va)) PT_PS = true -> translation b va <> None.
Proof.
  intros HT Hr Hp Hs. unfold translation. rewrite (walk_reach b va l t); [|intros j Hj; apply (tb_top _ _ HT), Hj; apply (tb_root _ _ HT)|assumption].
  pose proof (reach_range _ _ _ _ Hr). destruct l as [|l]; [lia|]. cbn [walk]. rewrite Hp. simpl negb. cbv iota.
  replace ((l =? 0)%nat || has (entry b t (index (shift (S l)) va)) PT_PS) with true; [discriminate|].
  destruct Hs as [[= ->]| ->]; [reflexivity|rewrite orb_true_r; reflexivity].
Qed.

Lemma get_table_spec T b va l t :
  tables T b -> reach b va (S l) t -> (1 <= l)%nat ->
  let '(r, b') := ptGetOrAllocTable t (index (shift (S l)) va) b in
  evolves (S l) va b b' /\
  match r with
  | inr t' => exists T', tables T' b' /\ reach b' va l t'
  | inl BOOT_ERR_PT_CONFLICT => translation b va <> None
  | inl BOOT_ERR_NO_MEMORY => pt_poolUsed b' = pt_poolPages b'
  | inl _ => False
  end.
Proof.
  intros HT Hr Hl. unfold ptGetOrAllocTable. set (i := index (shift (S l)) va). cbv zeta.
  assert (Hid : evolves (S l) va b b) by (split; [eauto|]; split; [reflexivity|]; split; reflexivity).
  assert (Hi : 0 <= i < 512) by (apply index_range, shift_pos).
  pose proof (reach_level _ _ _ _ _ HT Hr) as Ht.
  destruct (has (entry b t i) PT_P) eqn:Ep.
  - destruct (has (entry b t i) PT_PS) eqn:Es; (split; [assumption|]).
    + eapply present_mapped; eauto.
    + exists T. split; [assumption|]. constructor; assumption.
  - destruct (ptAllocPage b) as [[np b1]|] eqn:Ea.
    + pose proof (alloc_tables T b t i l np b1 HT Ht Hl Hi Ea) as HT'.
      destruct (alloc_facts T b t i l np b1) as (_ & _ & _ & Hsp & Hnp & _); try assumption.
      destruct (pointer_entry np Hnp) as (P1 & P2 & P3).
      pose proof (alloc_at t i np b1) as Ee.
      pose proof (alloc_extends T b t i l np b1 HT Ht Hl Hi Ep Ea) as Hex.
      pose proof (alloc_keeps T b t i l np b1 HT Ht Hl Hi Ea) as Hkeep.
      pose proof (alloc_zero T b t i l np b1 HT Ht Hl Hi Ea) as Hz.
      pose proof (alloc_lookup T b t i l np b1 HT Ht Hl Hi Ep Ea) as Hlk.
      set (b2 := pt_write _ _ b1) in *. rewrite <- Ee in P1, P2, P3.
      split.
      { split; [eauto|]. split; [assumption|]. split; [|assumption].
        apply (touches_write T b b2 va (S l) t); try assumption; [apply Hsp|]. right. right. fold i. rewrite P3. exact Hz. }
      exists (<[np := l]> T). split; [assumption|]. rewrite <- P3.
      apply reach_next; [assumption| |assumption..]. apply (reach_extends T b); assumption.
    + split; [assumption|]. unfold ptAllocPage in Ea. destruct (Z.leb_spec (pt_poolPages b) (pt_poolUsed b)); [|discriminate].
      pose proof (tb_used _ _ HT). lia.
Qed.

(** ** Page sizes *)

Definition low (va : Z) : Z := va mod 2 ^ 48.
Definition in_range (va size va' : Z) : Prop := low va <= low va' < low va + size.

#[global] Instance in_range_dec va size va' : Decision (in_range va size va').
Proof. unfold in_range. apply _. Defined.

(** Pages of level [l] may be used at all. *)
Definition allowed (has1G allowLarge : bool) (l : nat) : bool :=
  match l with 1%nat => true | 2%nat => allowLarge | 3%nat => allowLarge && has1G | _ => false end.

(** The page of level [l] around [va'] lies inside the range, and its frames are aligned like it. *)
Definition fits (l : nat) (va pa size va' : Z) : bool :=
  let page := 2 ^ shift l * (low va' / 2 ^ shift l) in
  (va mod 2 ^ shift l =? pa mod 2 ^ shift l) && (low va <=? page) && (page + 2 ^ shift l <=? low va + size).

(** The level of the largest page that can map [va'] when [size] bytes from [va] on are mapped to [pa]. *)
Definition best_level (has1G allowLarge : bool) (va pa size va' : Z) : nat :=
  if allowed has1G allowLarge 3 && fits 3 va pa size va' then 3%nat
  else if allowed has1G allowLarge 2 && fits 2 va pa size va' then 2%nat
  else 1%nat.

(** The choice of the loop: the largest page allowed at the start of what is left. *)
Record greedy (has1G allowLarge : bool) (va pa size : Z) (l : nat) : Prop := {
  gr_level : (1 <= l <= 3)%nat /\ allowed has1G allowLarge l = true;
  gr_aligned : (2 ^ shift l | va) /\ (2 ^ shift l | pa);
  gr_size : 2 ^ shift l <= size;
  gr_best : forall k, (l < k <= 3)%nat -> allowed has1G allowLarge k = true -> (2 ^ shift k | va) -> (2 ^ shift k | pa) -> size < 2 ^ shift k
}.

Lemma shift_cases l : (1 <= l <= 3)%nat -> (l = 1%nat /\ 2 ^ shift l = 4096) \/ (l = 2%nat /\ 2 ^ shift l = 2097152) \/ (l = 3%nat /\ 2 ^ shift l = 1073741824).
Proof. intros Hl. assert (l = 1 \/ l = 2 \/ l = 3)%nat as [->|[->| ->]] by lia; auto. Qed.

Lemma page_sizes k l : (1 <= k <= 3)%nat -> (1 <= l <= 3)%nat -> 0 < 2 ^ shift k /\ (2 ^ shift k | 2 ^ 48) /\ ((k <= l)%nat -> (2 ^ shift k | 2 ^ shift l)).
Proof.
  intros Hk Hl. destruct (shift_cases k Hk) as [[-> ->]|[[-> ->]|[-> ->]]]; (split; [lia|]); (split; [by apply Z.mod_divide|]); intros H;
    destruct (shift_cases l Hl) as [[-> ->]|[[-> ->]|[-> ->]]]; try lia; by apply Z.mod_divide.
Qed.

Lemma low_divide P va : 0 < P -> (P | 2 ^ 48) -> (P | va) <-> (P | low va).
Proof.
  intros HP [q Hq]. unfold low. rewrite Z.mod_eq by lia. split; intros [x Hx].
  - exists (x - q * (va / 2 ^ 48)). rewrite Hx at 1. rewrite Hq at 1. lia.
  - exists (x + q * (va / 2 ^ 48)). rewrite Hq in Hx at 1. lia.
Qed.

(** A page that starts in the aligned block of [N] bytes at [v] and is at least as large starts at [v]. *)
Lemma page_here P N v v' : 0 < P -> 0 < N -> (N | P) -> (N | v) -> v <= v' < v + N -> v <= P * (v' / P) -> P * (v' / P) = v.
Proof.
  intros HP HN [q Hq] [x Hx] Hv Hge. pose proof (Z.mul_div_le v' P HP). assert (Hm : P * (v' / P) = (q * (v' / P)) * N) by (rewrite Hq at 1; lia).
  rewrite Hm, Hx in *. assert (x <= q * (v' / P) < x + 1); [|f_equal; lia]. split; [apply (Z.mul_le_mono_pos_r _ _ N); lia|apply (Z.mul_lt_mono_pos_r N); lia].
Qed.

(** A page behind that block starts behind it, or is larger and starts with it. *)
Lemma page_next P N v v' : 0 < P -> 0 < N -> (P | N) \/ (N | P) -> (N | v) -> v + N <= v' -> v <= P * (v' / P) ->
  v + N <= P * (v' / P) \/ P * (v' / P) = v /\ (N | P).
Proof.
  intros HP HN Hdiv [x Hx] Hv Hge. destruct Hdiv as [[q Hq]|[q Hq]].
  - left. assert (Hm : v + N = P * ((x + 1) * q)) by (rewrite Hx, Hq; lia). rewrite Hm in *. apply Z.mul_le_mono_nonneg_l; [lia|].
    apply Z.div_le_lower_bound; lia.
  - assert (Hm : P * (v' / P) = (q * (v' / P)) * N) by (rewrite Hq at 1; lia). rewrite Hm, Hx in *. destruct (Z.eq_dec (q * (v' / P)) x) as [E|E]; [right; split; [lia|exists q; lia]|left].
    assert (x <= q * (v' / P)) by (apply (Z.mul_le_mono_pos_r _ _ N); lia). replace (x * N + N) with ((x + 1) * N) by lia. apply Z.mul_le_mono_nonneg_r; lia.
Qed.

Lemma fits_iff l va pa size va' : fits l va pa size va' = true <->
  va mod 2 ^ shift l = pa mod 2 ^ shift l /\ low va <= 2 ^ shift l * (low va' / 2 ^ shift l) /\ 2 ^ shift l * (low va' / 2 ^ shift l) + 2 ^ shift l <= low va + size.
Proof. unfold fits. rewrite !andb_true_iff, Z.eqb_eq, !Z.leb_le. tauto. Qed.

(** A larger page than the loop chose does not start where the loop stands. *)
Lemma greedy_larger has1G al va pa size l k : greedy has1G al va pa size l -> (l < k <= 3)%nat -> allowed has1G al k = true ->
  va mod 2 ^ shift k = pa mod 2 ^ shift k -> (2 ^ shift k | low va) -> low va + 2 ^ shift k <= low va + size -> False.
Proof.
  intros [[Hl _] _ _ Hbest] Hk Hal Hmod Hd Hsz. destruct (page_sizes k l) as (Hp & H48 & _); [lia..|]. apply low_divide in Hd; [|assumption..].
  specialize (Hbest k Hk Hal Hd). rewrite <- Z.mod_divide in Hbest by lia. rewrite <- Hmod, Z.mod_divide in Hbest by lia. specialize (Hbest Hd). lia.
Qed.

Lemma greedy_here has1G al va pa size l va' : greedy has1G al va pa size l -> in_range va (2 ^ shift l) va' -> best_level has1G al va pa size va' = l.
Proof.
  intros G Hin. pose proof G as [[Hl Hal] [Hva Hpa] Hsz _]. unfold in_range in Hin. destruct (page_sizes l l Hl Hl) as (Hp & H48 & _). pose proof (proj1 (low_divide _ _ Hp H48) Hva) as Hlow.
  assert (Hfit : fits l va pa size va' = true).
  { apply fits_iff. rewrite (page_here (2 ^ shift l) (2 ^ shift l) (low va)); [|lia|lia|reflexivity|assumption|assumption|].
    - split; [transitivity 0; [|symmetry]; apply Z.mod_divide; assumption || lia|lia].
    - destruct Hlow as [x Hx]. rewrite Hx in Hin |- *. rewrite (Z.mul_comm x). apply Z.mul_le_mono_nonneg_l; [lia|]. apply Z.div_le_lower_bound; lia. }
  assert (Hno : forall k, (l < k <= 3)%nat -> allowed has1G al k && fits k va pa size va' = false).
  { intros k Hk. destruct (allowed has1G al k) eqn:Hak; [|reflexivity]. destruct (fits k va pa size va') eqn:Hf; [exfalso|reflexivity]. apply fits_iff in Hf as (Hm & H1 & H2).
    destruct (page_sizes l k) as (_ & _ & Hdv); [lia..|]. destruct (page_sizes k l) as (Hpk & _); [lia..|].
    rewrite (page_here (2 ^ shift k) (2 ^ shift l) (low va) (low va')) in H2 by (auto with lia).
    apply (greedy_larger has1G al va pa size l k G Hk Hak Hm); [|assumption]. rewrite <- (page_here (2 ^ shift k) (2 ^ shift l) (low va) (low va')) by (auto with lia). apply Z.divide_factor_l. }
  unfold best_level. destruct (shift_cases l Hl) as [[-> _]|[[-> _]|[-> _]]].
  - rewrite !Hno by lia. reflexivity.
  - rewrite Hno, Hal, Hfit by lia. reflexivity.
  - rewrite Hal, Hfit. reflexivity.
Qed.

Lemma greedy_next has1G al va pa size l va' : greedy has1G al va pa size l -> low (va + 2 ^ shift l) = low va + 2 ^ shift l -> low va + 2 ^ shift l <= low va' ->
  best_level has1G al (va + 2 ^ shift l) (pa + 2 ^ shift l) (size - 2 ^ shift l) va' = best_level has1G al va pa size va'.
Proof.
  intros G Hlow Hv. pose proof G as [[Hl Hal] [Hva Hpa] Hsz _]. destruct (page_sizes l l Hl Hl) as (Hp & H48 & _). pose proof (proj1 (low_divide _ _ Hp H48) Hva) as Hdl.
  assert (Hf : forall k, (1 <= k <= 3)%nat -> allowed has1G al k = true -> fits k (va + 2 ^ shift l) (pa + 2 ^ shift l) (size - 2 ^ shift l) va' = fits k va pa size va').
  { intros k Hk Hak. destruct (page_sizes k l Hk Hl) as (Hpk & _ & Hkl). destruct (page_sizes l k Hl Hk) as (_ & _ & Hlk). apply eq_true_iff_eq. rewrite !fits_iff, Hlow.
    assert (Hm : (va + 2 ^ shift l) mod 2 ^ shift k = (pa + 2 ^ shift l) mod 2 ^ shift k <-> va mod 2 ^ shift k = pa mod 2 ^ shift k).
    { rewrite !Z.cong_iff_0. replace (va + 2 ^ shift l - (pa + 2 ^ shift l)) with (va - pa) by lia. reflexivity. }
    rewrite Hm. split; intros (H1 & H2 & H3); (split; [assumption|]); [lia|]. split; [|lia].
    destruct (page_next (2 ^ shift k) (2 ^ shift l) (low va) (low va')) as [H|[H Hlp]]; try assumption; try lia.
    { destruct (le_ge_dec k l); [left; auto|right; auto]. }
    exfalso. destruct (le_lt_dec k l) as [Hle|Hlt].
    - assert (2 ^ shift k <= 2 ^ shift l) by (apply Z.divide_pos_le; [lia|auto]). pose proof (Z.mod_pos_bound (low va') (2 ^ shift k) Hpk). pose proof (Z_div_mod_eq_full (low va') (2 ^ shift k)). lia.
    - apply (greedy_larger has1G al va pa size l k G); [lia|assumption..| |lia]. rewrite <- H. apply Z.divide_factor_l. }
  unfold best_level. f_equal. destruct (allowed has1G al 3) eqn:H3, (allowed has1G al 2) eqn:H2; cbn [andb]; rewrite ?Hf by (assumption || lia); reflexivity.
Qed.

(** ** Mapping a range *)

Lemma region_range l va va' : (1 <= l <= 3)%nat -> (2 ^ shift l | va) ->
  region l va' = region l va <-> in_range va (2 ^ shift l) va'.
Proof.
  intros Hl [k ->]. unfold region, in_range, low.
  assert (l = 1 \/ l = 2 \/ l = 3)%nat as Hc by lia.
  destruct Hc as [->|[->| ->]]; unfold shift; simpl Z.of_nat; simpl Z.add; simpl Z.mul;
    [change (2 ^ 12) with 4096|change (2 ^ 21) with 2097152|change (2 ^ 30) with 1073741824]; dlia.
Qed.

Lemma leaf_offset l va va' : (1 <= l <= 3)%nat -> (2 ^ shift l | va) -> in_range va (2 ^ shift l) va' ->
  va' .& (2 ^ shift l - 1) = low va' - low va.
Proof.
  intros Hl [k ->]. rewrite land_low by apply shift_pos. unfold in_range, low.
  assert (l = 1 \/ l = 2 \/ l = 3)%nat as Hc by lia.
  destruct Hc as [->|[->| ->]]; unfold shift; simpl Z.of_nat; simpl Z.add; simpl Z.mul;
    [change (2 ^ 12) with 4096|change (2 ^ 21) with 2097152|change (2 ^ 30) with 1073741824]; dlia.
Qed.

(** The flags of a leaf of level [l]. *)
Definition leaf_flags (flags : Z) (l : nat) : Z := if (l =? 1)%nat then flags else flags .| PT_PS.

(** Exactly the addresses of [[va, va + size)] have become mapped, to [[pa, pa + size)], by pages of the levels [lev]
    says and with [flags]. *)
Definition walks_to (lev : Z -> nat) (flags : Z) (b : PtBuilder) (va pa size : Z) (b' : PtBuilder) : Prop :=
  forall va', if decide (in_range va size va')
              then translation b va' = None /\ translation b' va' = Some (pa + (low va' - low va), leaf_flags flags (lev va'), lev va')
              else translation b' va' = translation b va'.

(** The same for what the loader looks up, and for the sizes of the pages. *)
Definition mapped (lev : Z -> nat) (flags : Z) (b : PtBuilder) (va pa size : Z) (b' : PtBuilder) : Prop :=
  forall va', if decide (in_range va size va')
              then ptLookup b va' = None /\ page_level b' va' = Some (lev va') /\
                   ptLookup b' va' = Some (pa + (low va' - low va), leaf_flags flags (lev va'))
              else ptLookup b' va' = ptLookup b va' /\ page_level b' va' = page_level b va'.

Lemma walks_mapped T T' lev flags b va pa size b' : tables T b -> tables T' b' -> walks_to lev flags b va pa size b' -> mapped lev flags b va pa size b'.
Proof.
  intros HT HT' H va'. specialize (H va'). rewrite !(lookup_walk T b), !(lookup_walk T' b') by assumption. unfold page_level. case_decide; [destruct H as [-> ->]|rewrite H]; auto.
Qed.

Lemma flags_large f : is_flags f -> is_flags (f .| PT_PS) /\ has (f .| PT_PS) PT_PS = true.
Proof.
  intros (Hu & Hm & Hp). unfold is_flags. rewrite Z.land_lor_distr_l, Hm. split; [split; [|split]|].
  - apply lor_u64; [assumption|]. unfold PT_PS. words. lia.
  - reflexivity.
  - unfold has in *. rewrite Z.land_lor_distr_l. change (PT_PS .& PT_P) with 0. rewrite Z.lor_0_r. assumption.
  - unfold has. rewrite Z.land_lor_distr_l. change (PT_PS .& PT_PS) with 128. apply negb_true_iff, Z.eqb_neq.
    intros E. apply Z.lor_eq_0_iff in E as [_ E]. discriminate.
Qed.

Lemma leaf_step T b va pa flags l t :
  tables T b -> reach b va l t -> (l <= 3)%nat -> (2 ^ shift l | va) -> is_frame pa -> pa + 2 ^ shift l <= 2 ^ 52 -> is_flags flags ->
  let '(r, b') := leaf_result (2 ^ shift l) (ptWriteLeaf t (index (shift l) va) (pa .| leaf_flags flags l) b) in
  (exists T', tables T' b') /\ same_pool b b' /\
  match r with
  | inr n => n = 2 ^ shift l /\ walks_to (fun _ => l) flags b va pa n b' /\ touches l va b b'
  | inl BOOT_ERR_PT_CONFLICT => b' = b /\ slot_used b l va /\ (l = 1%nat -> translation b va <> None)
  | inl _ => False
  end.
Proof.
  intros HT Hr Hl Hva Hpa Hpe Hflags. set (fl := leaf_flags flags l). assert (Hfl : is_flags fl /\ (l = 1%nat \/ has fl PT_PS = true)).
  { unfold fl, leaf_flags. destruct (Nat.eqb_spec l 1); [auto|]. destruct (flags_large flags Hflags). auto. }
  destruct Hfl as ((Hu & Hm & Hp) & Hps). pose proof (reach_range _ _ _ _ Hr) as Hrg. unfold ptWriteLeaf.
  destruct (has (entry b t (index (shift l) va)) PT_P) eqn:Ep; cbn [leaf_result].
  - split; [eauto|]. split; [reflexivity|]. split; [reflexivity|]. split; [exists t; auto|]. intros ->. eapply present_mapped; eauto.
  - assert (Hvp : has (pa .| fl) PT_P = true) by (rewrite has_lor_frame by (try assumption; try reflexivity; vm_compute; discriminate); assumption).
    assert (Hvs : l = 1%nat \/ has (pa .| fl) PT_PS = true).
    { destruct Hps; [auto|right]. rewrite has_lor_frame by (try assumption; try reflexivity; vm_compute; discriminate). assumption. }
    split; [exists T; apply (leaf_tables T b va t _ l); assumption|]. split; [repeat split|]. split; [reflexivity|]. split.
    2: { apply (touches_write T b _ va l t); try assumption; [reflexivity|intros t' l' i' H1 H2 H3; apply (leaf_keeps T b va t (pa .| fl) l HT Hr Hl Hvs t' l' i'); assumption|].
         rewrite entry_same. tauto. }
    intros va'. pose proof (leaf_lookup T b va t (pa .| fl) l HT Hr Hl Ep Hvp Hvs va') as Elk.
    pose proof (region_range l va va' ltac:(lia) Hva) as Hreg. destruct (decide (in_range va (2 ^ shift l) va')) as [Hin|Hin].
    + split; [apply (leaf_unmapped T b va t (pa .| fl) l); try assumption; apply Hreg, Hin|].
      rewrite Elk, decide_True by (apply Hreg, Hin).
      rewrite entry_addr, entry_flags, (leaf_offset l va va') by (try assumption; lia).
      unfold in_range in Hin. destruct Hpa as [_ Hpa]. rewrite u64_small by (words; lia). reflexivity.
    + rewrite Elk, decide_False by (rewrite Hreg; assumption). reflexivity.
Qed.

Lemma walks_ext lev lev' flags b va pa size b' : (forall va', in_range va size va' -> lev va' = lev' va') -> walks_to lev flags b va pa size b' -> walks_to lev' flags b va pa size b'.
Proof. intros He H va'. specialize (H va'). case_decide; [|assumption]. rewrite <- He by assumption. exact H. Qed.

Lemma walks_evolves k lev flags b b1 va pa size b' : evolves k va b b1 -> walks_to lev flags b1 va pa size b' -> walks_to lev flags b va pa size b'.
Proof. intros (_ & _ & _ & HL) H va'. specialize (H va'). rewrite HL in H. exact H. Qed.

Lemma walks_none lev flags b va pa b' : (forall va', translation b' va' = translation b va') -> walks_to lev flags b va pa 0 b'.
Proof. intros H va'. rewrite decide_False by (unfold in_range; lia). apply H. Qed.

Lemma walks_app lev flags b va va1 pa n m b1 b2 :
  0 <= n -> 0 <= m -> low va1 = low va + n -> walks_to lev flags b va pa n b1 -> walks_to lev flags b1 va1 (pa + n) m b2 -> walks_to lev flags b va pa (n + m) b2.
Proof.
  intros Hn Hm Hlow H1 H2 va'. specialize (H1 va'). specialize (H2 va').
  destruct (decide (in_range va n va')) as [Hin1|Hout1], (decide (in_range va1 m va')) as [Hin2|Hout2];
    unfold in_range in * |-; rewrite Hlow in * |-.
  - lia.
  - rewrite decide_True by (unfold in_range; lia). rewrite H2. assumption.
  - rewrite decide_True by (unfold in_range; lia). rewrite H1 in H2. destruct H2 as (H3 & H4). split; [assumption|].
    rewrite H4. do 3 f_equal. lia.
  - rewrite decide_False by (unfold in_range; lia). rewrite H2. assumption.
Qed.

(** The place of the page of level [l] at [va] is taken: [va] is mapped, or a table stands for the page. *)
Definition page_taken (b : PtBuilder) (l : nat) (va : Z) : Prop :=
  ptLookup b va <> None \/ (1 < l)%nat /\ (2 ^ shift l | va) /\ slot_used b l va.

(** The outcome of an attempt to map [size] bytes: [done] of them are mapped. *)
Definition map_outcome (allowLarge : bool) (b : PtBuilder) (va pa size done : Z) (st : BootStatus) (b' : PtBuilder) : Prop :=
  match st with
  | BOOT_OK => done = size
  | BOOT_ERR_PT_CONFLICT => done < size /\ page_taken b (best_level (pt_has1G b) allowLarge va pa size (va + done)) (va + done)
  | BOOT_ERR_NO_MEMORY => done < size /\ pt_poolUsed b' = pt_poolPages b'
  | _ => False
  end.

(** What one iteration of the loop achieves from [b]. *)
Definition step_ok (flags : Z) (allowLarge : bool) (va pa size : Z) (b : PtBuilder) (res : (BootStatus + Z) * PtBuilder) : Prop :=
  let '(r, b') := res in
  (exists T', tables T' b') /\ same_pool b b' /\
  match r with
  | inr n => exists l, n = 2 ^ shift l /\ greedy (pt_has1G b) allowLarge va pa size l /\ walks_to (fun _ => l) flags b va pa n b' /\ touches 1 va b b'
  | inl e => (forall va', translation b' va' = translation b va') /\ e <> BOOT_OK /\ map_outcome allowLarge b va pa size 0 e b'
  end.

Lemma step_leaf T0 T flags allowLarge va pa size b b1 l t :
  tables T0 b -> evolves (S l) va b b1 -> tables T b1 -> reach b1 va l t -> is_frame pa -> pa + size <= 2 ^ 52 -> is_flags flags ->
  greedy (pt_has1G b) allowLarge va pa size l ->
  step_ok flags allowLarge va pa size b (leaf_result (2 ^ shift l) (ptWriteLeaf t (index (shift l) va) (pa .| leaf_flags flags l) b1)).
Proof.
  intros HT0 He HT Hr Hfr Hpe Hfl G. pose proof G as [[Hl Hal] [Hva Hpa] Hsz _].
  pose proof (leaf_step T b1 va pa flags l t HT Hr ltac:(lia) Hva Hfr ltac:(lia) Hfl) as L. unfold step_ok, map_outcome. destruct (page_sizes l l Hl Hl) as (Hpos & _).
  destruct (leaf_result _ _) as [[e|n] b2]; destruct L as (HT2 & Hs2 & L); (split; [assumption|]);
    (split; [etransitivity; [apply He|assumption]|]).
  - destruct e; try contradiction. destruct L as (-> & Hslot & L1). split; [apply He|]. split; [discriminate|]. split; [lia|]. rewrite Z.add_0_r.
    rewrite (greedy_here _ _ _ _ _ l va G) by (unfold in_range; lia). unfold page_taken. destruct (decide (l = 1%nat)) as [->|Hl1].
    + left. rewrite (lookup_none T0), <- (proj2 (proj2 (proj2 He))) by assumption. auto.
    + right. split; [lia|]. split; [assumption|]. apply He; [left; lia|assumption].
  - destruct L as (-> & L1 & L2). exists l. split; [reflexivity|]. split; [assumption|]. split; [eapply walks_evolves; eassumption|].
    transitivity b1; [apply (evolves_weaken (S l) 1); [lia|assumption]|]. intros m va' Hm. apply L2. destruct Hm; [left; lia|auto].
Qed.

Lemma step_fail T0 k flags allowLarge va pa size b b1 e :
  tables T0 b -> evolves k va b b1 -> 0 < size ->
  match e with
  | BOOT_ERR_PT_CONFLICT => translation b va <> None
  | BOOT_ERR_NO_MEMORY => pt_poolUsed b1 = pt_poolPages b1
  | _ => False
  end -> step_ok flags allowLarge va pa size b (inl e, b1).
Proof.
  intros HT0 He Hs H. unfold step_ok, map_outcome. split; [apply He|]. split; [apply He|]. split; [apply He|].
  destruct e; try contradiction; (split; [discriminate|]); (split; [lia|]); [assumption|].
  rewrite Z.add_0_r. left. rewrite (lookup_none T0) by assumption. assumption.
Qed.

Lemma mask_divide x k : 0 <= k -> (x .& (2 ^ k - 1) =? 0) = true <-> (2 ^ k | x).
Proof. intros Hk. rewrite Z.eqb_eq, land_low, Z.mod_divide by lia. reflexivity. Qed.

(** The tests of the loop for a large page. *)
Lemma large_test (c : bool) va pa size k : 0 <= k ->
  c && ((va .& (2 ^ k - 1)) =? 0) && ((pa .& (2 ^ k - 1)) =? 0) && (2 ^ k <=? size) = true <-> c = true /\ (2 ^ k | va) /\ (2 ^ k | pa) /\ 2 ^ k <= size.
Proof. intros Hk. rewrite !andb_true_iff, !mask_divide, Z.leb_le by assumption. tauto. Qed.

Lemma map_step_spec T b flags allowLarge va pa size :
  tables T b -> (4096 | va) -> (4096 | pa) -> 0 <= pa -> pa + size <= 2 ^ 52 -> 4096 <= size -> is_flags flags ->
  step_ok flags allowLarge va pa size b (map_step flags allowLarge va pa size b).
Proof.
  intros HT Hva Hpa Hp0 Hpe Hsz Hfl. unfold map_step. assert (Hframe : is_frame pa) by (split; [assumption|lia]).
  pose proof (get_table_spec T b va 3 (pt_pml4Phys b) HT (reach_root b va) ltac:(lia)) as G4. change (shift 4) with 39 in G4.
  destruct (ptGetOrAllocTable (pt_pml4Phys b) (index 39 va) b) as [[e|pdpt] b1]; destruct G4 as [He G4];
    [apply (step_fail T 4); [assumption..|lia|destruct e; auto]|].
  destruct G4 as (T1 & HT1 & Hr3). pose proof (large_test (allowLarge && pt_has1G b1) va pa size 30 ltac:(lia)) as L1. fold PT_SIZE_1G in L1.
  assert (E1G : pt_has1G b1 = pt_has1G b) by apply (proj1 (proj2 He)). rewrite E1G in L1 |- *. destruct (allowLarge && pt_has1G b && _ && _ && _) eqn:Et1.
  { destruct (proj1 L1 eq_refl) as (Hc & Hd1 & Hd2 & Hs). rewrite <- Z.lor_assoc. change PT_SIZE_1G with (2 ^ shift 3). apply (step_leaf T T1 flags allowLarge va pa size b b1 3); try assumption.
    split; [auto|auto|assumption|lia]. }
  pose proof (get_table_spec T1 b1 va 2 pdpt HT1 Hr3 ltac:(lia)) as G3. change (shift 3) with 30 in G3.
  destruct (ptGetOrAllocTable pdpt (index 30 va) b1) as [[e|pd] b2]; destruct G3 as [He2 G3]; pose proof (evolves_trans 3 _ _ _ _ (evolves_weaken 4 3 _ _ _ ltac:(lia) He) He2) as He'.
  { apply (step_fail T 3); [assumption..|lia|]. destruct e; auto. rewrite <- (proj2 (proj2 (proj2 He))). assumption. }
  destruct G3 as (T2 & HT2 & Hr2). pose proof (large_test allowLarge va pa size 21 ltac:(lia)) as L2. fold PT_SIZE_2M in L2.
  assert (Hno3 : allowed (pt_has1G b) allowLarge 3 = true -> (2 ^ shift 3 | va) -> (2 ^ shift 3 | pa) -> size < 2 ^ shift 3).
  { intros H1 H2 H3. destruct (Z.lt_ge_cases size (2 ^ shift 3)); [assumption|]. discriminate (proj2 L1 (conj H1 (conj H2 (conj H3 H)))). }
  clear Et1. destruct (allowLarge && (va .& (PT_SIZE_2M - 1) =? 0) && _ && _) eqn:Et2.
  { destruct (proj1 L2 eq_refl) as (Hc & Hd1 & Hd2 & Hs). rewrite <- Z.lor_assoc. change PT_SIZE_2M with (2 ^ shift 2). apply (step_leaf T T2 flags allowLarge va pa size b b2 2); try assumption.
    split; [auto|auto|assumption|]. intros k Hk. assert (k = 3%nat) as -> by lia. assumption. }
  pose proof (get_table_spec T2 b2 va 1 pd HT2 Hr2 ltac:(lia)) as G2. change (shift 2) with 21 in G2.
  destruct (ptGetOrAllocTable pd (index 21 va) b2) as [[e|pt] b3]; destruct G2 as [He3 G2]; pose proof (evolves_trans 2 _ _ _ _ (evolves_weaken 3 2 _ _ _ ltac:(lia) He') He3) as He''.
  { apply (step_fail T 2); [assumption..|lia|]. destruct e; auto. rewrite <- (proj2 (proj2 (proj2 He'))). assumption. }
  destruct G2 as (T3 & HT3 & Hr1). change PT_SIZE_4K with (2 ^ shift 1). apply (step_leaf T T3 flags allowLarge va pa size b b3 1); try assumption.
  split; [auto|auto|assumption|]. intros k Hk H1 H2 H3. assert (k = 2%nat \/ k = 3%nat) as [->| ->] by lia; [|auto].
  destruct (Z.lt_ge_cases size (2 ^ shift 2)); [assumption|]. discriminate (proj2 L2 (conj H1 (conj H2 (conj H3 H)))).
Qed.

(** A page behind [va] is not on the way to [va]. *)
Lemma region_after l va n p : (1 <= l <= 3)%nat -> 0 < n -> (2 ^ shift l | p) -> low p = low va + n -> region l p <> region l va.
Proof.
  intros Hl Hn Hd Hlow. destruct (page_sizes l l Hl Hl) as (Hp & H48 & _). apply (low_divide _ _ Hp H48) in Hd as [x Hx]. unfold region. change (p mod 2 ^ 48) with (low p). change (va mod 2 ^ 48) with (low va).
  rewrite Hx, Z.div_mul by lia. assert (low va / 2 ^ shift l < x); [|lia]. apply Z.div_lt_upper_bound; lia.
Qed.

Lemma best_range has1G al va pa size va' : (1 <= best_level has1G al va pa size va' <= 3)%nat.
Proof. unfold best_level. repeat case_match; lia. Qed.

(** An outcome after one page is an outcome of the whole. *)
Lemma outcome_next T T1 flags al b va pa size l b1 dn st b' :
  tables T b -> tables T1 b1 -> greedy (pt_has1G b) al va pa size l -> let n := 2 ^ shift l in walks_to (fun _ => l) flags b va pa n b1 -> touches 1 va b b1 -> pt_has1G b1 = pt_has1G b ->
  low (va + n) = low va + n -> 0 <= dn <= size - n -> low va + size <= 2 ^ 48 ->
  map_outcome al b1 (va + n) (pa + n) (size - n) dn st b' -> map_outcome al b va pa size (n + dn) st b'.
Proof.
  intros HT HT1 G n Hw Ht H1G Hlow Hdn Hend Ho. pose proof G as [[Hl _] _ _ _]. destruct (page_sizes l l Hl Hl) as (Hp & _). fold n in Hp. unfold map_outcome in *. destruct st; try contradiction; try lia.
  destruct Ho as [Hlt Ho]. split; [lia|]. rewrite Z.add_assoc. set (p := va + n + dn) in *. assert (Hlp : low p = low va + n + dn) by (unfold p, low in *; dlia).
  rewrite H1G in Ho. unfold n in Ho. rewrite (greedy_next _ _ _ _ _ l p G) in Ho by (assumption || (fold n; lia)). destruct Ho as [Ho|(Hl2 & Hd & Hs)].
  - left. rewrite (lookup_none T) by assumption. rewrite (lookup_none T1) in Ho by assumption. specialize (Hw p). rewrite decide_False in Hw by (unfold in_range; lia). congruence.
  - right. split; [assumption|]. split; [assumption|]. apply Ht; [right|assumption]. apply (region_after _ va (n + dn)); [apply best_range|lia|assumption|lia].
Qed.

Lemma map_loop_spec flags allowLarge fuel : forall T b va pa size,
  tables T b -> is_u64 va -> (4096 | va) -> (4096 | pa) -> (4096 | size) -> 0 <= pa -> 0 <= size -> pa + size <= 2 ^ 52 ->
  low va + size <= 2 ^ 48 -> is_flags flags -> size / 4096 < Z.of_nat fuel ->
  exists st b' done, map_loop fuel flags allowLarge va pa size b = Some (st, b') /\ (exists T', tables T' b') /\ same_pool b b' /\
    0 <= done <= size /\ (4096 | done) /\ walks_to (best_level (pt_has1G b) allowLarge va pa size) flags b va pa done b' /\ map_outcome allowLarge b va pa size done st b'.
Proof.
  induction fuel as [|fuel IH]; intros T b va pa size HT Hu Hva Hpa Hsz Hp0 Hs0 Hpe Hlow Hfl Hfuel.
  { pose proof (Z.div_pos size 4096). lia. }
  cbn [map_loop]. destruct (Z.ltb_spec 0 size) as [Hpos|Hz].
  2:{ exists BOOT_OK, b, 0. split; [reflexivity|]. split; [eauto|]. split; [reflexivity|]. split; [lia|]. split; [exists 0; reflexivity|].
      split; [apply walks_none; reflexivity|]. simpl. lia. }
  assert (Hmin : 4096 <= size) by (destruct Hsz as [k ->]; lia).
  pose proof (map_step_spec T b flags allowLarge va pa size HT Hva Hpa Hp0 Hpe Hmin Hfl) as S. unfold step_ok in S.
  destruct (map_step flags allowLarge va pa size b) as [[e|n] b1]; destruct S as ((T1 & HT1) & Hs1 & S).
  - destruct S as (He & _ & Ho). exists e, b1, 0. split; [reflexivity|]. split; [eauto|]. split; [assumption|]. split; [lia|].
    split; [exists 0; reflexivity|]. split; [apply walks_none, He|assumption].
  - destruct S as (l & -> & G & Hm & Ht). pose proof G as [[Hl _] _ Hn _]. set (n := 2 ^ shift l) in *.
    assert (Hdn : 0 < n /\ (4096 | n)) by (destruct (page_sizes 1 l) as (_ & _ & H1); [lia..|]; destruct (page_sizes l l Hl Hl); split; [assumption|apply H1; lia]).
    destruct Hdn as [Hn0 Hdn]. apply (walks_ext _ (best_level (pt_has1G b) allowLarge va pa size)) in Hm; [|intros va' Hin; symmetry; by apply greedy_here].
    words. rewrite (Z.mod_small (size - n)), (Z.mod_small (pa + n)) by lia. destruct (Z.eq_dec n size) as [Heq|Hne].
    { rewrite Heq, Z.sub_diag. destruct fuel as [|fuel]; [exfalso; destruct Hsz as [k ->]; rewrite Z.div_mul in Hfuel; lia|].
      exists BOOT_OK, b1, size. split; [reflexivity|]. split; [eauto|]. split; [assumption|]. split; [lia|]. split; [assumption|].
      split; [rewrite <- Heq at 2; assumption|]. reflexivity. }
    assert (Hva' : va + n < 2 ^ 64 /\ low (va + n) = low va + n) by (unfold low in *; dlia). destruct Hva' as [Hva1 Hva2].
    rewrite (Z.mod_small (va + n)) by lia.
    destruct (IH T1 b1 (va + n) (pa + n) (size - n)) as (st & b' & dn & E & HT' & Hs' & Hdn' & Hdd & Hm' & Ho); try assumption; try lia; try (apply Z.divide_add_r; assumption); try (apply Z.divide_sub_r; assumption).
    + destruct Hsz as [ks Hks], Hdn as [kn Hkn]. rewrite Hks, Hkn in *. replace (ks * 4096 - kn * 4096) with ((ks - kn) * 4096) by lia. rewrite Z.div_mul in * by lia. lia.
    + assert (H1G : pt_has1G b1 = pt_has1G b) by apply Hs1. exists st, b', (n + dn). split; [exact E|]. split; [assumption|]. split; [etransitivity; eassumption|]. split; [lia|].
      split; [apply Z.divide_add_r; assumption|]. split.
      * eapply walks_app; [lia| |exact Hva2|exact Hm|]; [lia|]. eapply walks_ext; [|exact Hm']. intros va' Hin. rewrite H1G. unfold in_range in Hin. apply (greedy_next _ _ _ _ _ l va' G); [assumption|fold n; lia].
      * apply (outcome_next T T1 flags allowLarge b va pa size l b1); try assumption.
        eapply walks_ext; [|exact Hm]. intros va' Hin. apply greedy_here; assumption.
Qed.

Lemma best_small has1G va pa size va' : best_level has1G false va pa size va' = 1%nat.
Proof. reflexivity. Qed.

Lemma mask_4k x y z : (((x .| y) .| z) .& (PT_SIZE_4K - 1)) = 0 <-> (4096 | x) /\ (4096 | y) /\ (4096 | z).
Proof.
  change (PT_SIZE_4K - 1) with (Z.ones 12). rewrite !Z.land_lor_distr_l, !Z.lor_eq_0_iff, !Z.land_ones by lia.
  change (2 ^ 12) with 4096. rewrite !Z.mod_divide by lia. tauto.
Qed.

Lemma ptMapRange_spec T b va pa size flags allowLarge :
  tables T b -> is_u64 va -> is_u64 pa -> is_u64 size -> pa + size <= 2 ^ 52 -> low va + size <= 2 ^ 48 -> is_flags flags ->
  if decide (va mod 4096 = 0 /\ pa mod 4096 = 0 /\ size mod 4096 = 0) then
    exists st b' done, ptMapRange va pa size flags allowLarge b = Some (st, b') /\ (exists T', tables T' b') /\ same_pool b b' /\
      0 <= done <= size /\ (4096 | done) /\ mapped (best_level (pt_has1G b) allowLarge va pa size) flags b va pa done b' /\
      map_outcome allowLarge b va pa size done st b'
  else ptMapRange va pa size flags allowLarge b = Some (BOOT_ERR_PT_UNALIGNED, b).
Proof.
  intros HT Hva Hpa Hsz Hpe Hlow Hfl. unfold ptMapRange. pose proof (mask_4k va pa size) as Hmask.
  rewrite <- !Z.mod_divide in Hmask by lia. destruct (decide _) as [(H1 & H2 & H3)|Hn].
  - rewrite (proj2 Hmask) by auto. apply Z.mod_divide in H1, H2, H3; try lia. simpl negb. cbv iota. change PT_SIZE_4K with 4096.
    destruct (map_loop_spec flags allowLarge (S (Z.to_nat (size / 4096))) T b va pa size) as (st & b' & dn & E & (T' & HT') & Hs & Hd & Hdd & Hm & Ho); try assumption; try (words; lia).
    exists st, b', dn. split; [exact E|]. split; [eauto|]. split; [assumption|]. split; [assumption|]. split; [assumption|]. split; [by apply (walks_mapped T T')|assumption].
  - destruct (Z.eqb_spec (((va .| pa) .| size) .& (PT_SIZE_4K - 1)) 0) as [E|]; [|reflexivity].
    exfalso. apply Hn, Hmask, E.
Qed.

(** C24: Mapping a range maps exactly that range, with the largest pages that fit.  A misaligned request changes
    nothing.  Otherwise whole pages are mapped from the front: when the call succeeds every address of the range, and no
    other, has become mapped, to the physical address at the same offset with the requested flags; when it fails, exactly
    the part before the failure is.  Each address is mapped by the largest page, of 1 GiB (if the CPU has them), 2 MiB
    or 4 KiB, that lies inside the requested range and whose frames are aligned like it, with PS set on the large ones,
    and by a 4 KiB page when large pages are not allowed.  A failure is an exhausted pool, or that the next of these
    pages was taken before the call: its address was mapped or, for a large page, a table stood in its place.  No
    existing mapping changes, nor does the size of its page, and the tables stay well formed. *)
Theorem ptMapRange_exact T b va pa size flags allowLarge :
  tables T b -> is_u64 va -> is_u64 pa -> is_u64 size -> pa + size <= 2 ^ 52 -> low va + size <= 2 ^ 48 -> is_flags flags ->
  if decide (va mod 4096 = 0 /\ pa mod 4096 = 0 /\ size mod 4096 = 0) then
    exists st b' done, ptMapRange va pa size flags allowLarge b = Some (st, b') /\ (exists T', tables T' b') /\ same_pool b b' /\
      0 <= done <= size /\ (4096 | done) /\ mapped (best_level (pt_has1G b) allowLarge va pa size) flags b va pa done b' /\
      map_outcome allowLarge b va pa size done st b'
  else ptMapRange va pa size flags allowLarge b = Some (BOOT_ERR_PT_UNALIGNED, b).
Proof. apply ptMapRange_spec. Qed.

(** ** A fresh builder *)

Lemma ptInit_spec poolPhys poolPages has1G mem :
  (4096 | poolPhys) -> 0 <= poolPhys -> 0 < poolPages < 2 ^ 32 -> poolPhys + 4096 * poolPages <= 2 ^ 52 ->
  exists b, ptInit poolPhys poolPages has1G mem = (BOOT_OK, Some b) /\ tables {[poolPhys := 4%nat]} b /\
    pt_poolPhys b = poolPhys /\ pt_poolPages b = poolPages /\ forall va, ptLookup b va = None.
Proof.
  intros Hal H0 Hp He. unfold ptInit. destruct (Z.eqb_spec poolPages 0); [lia|]. eexists. split; [reflexivity|].
  set (b := mkPt _ _ _ _ _ _).
  assert (Hz : forall k i, 0 <= k < poolPages -> 0 <= i < 512 -> entry b (poolPhys + 4096 * k) i = 0).
  { intros k i Hk Hi. unfold entry, b. simpl. unfold PT_SIZE_4K. change (2 ^ 12) with 4096. rewrite u64_small by (words; lia).
    replace (poolPages * 4096 / 8) with (512 * poolPages) by (replace (poolPages * 4096) with (512 * poolPages * 8) by lia; rewrite Z.div_mul; lia).
    replace (poolPhys + 4096 * k + 8 * i) with (poolPhys + 8 * (512 * k + i)) by lia. apply fill_words_in. lia. }
  assert (Hz0 : forall i, 0 <= i < 512 -> entry b poolPhys i = 0).
  { intros i Hi. specialize (Hz 0 i ltac:(lia) Hi). rewrite Z.mul_0_r, Z.add_0_r in Hz. exact Hz. }
  assert (Hone : forall t l, ({[poolPhys := 4%nat]} : gmap Z nat) !! t = Some l -> t = poolPhys /\ l = 4%nat).
  { intros t l H. apply lookup_singleton_Some in H as [<- <-]. auto. }
  assert (Hno : forall t l i, ({[poolPhys := 4%nat]} : gmap Z nat) !! t = Some l -> 0 <= i < 512 -> has (entry b t i) PT_P = true -> False).
  { intros t l i H Hi Hp'. apply Hone in H as [-> _]. rewrite Hz0, has_0 in Hp' by assumption. discriminate. }
  assert (HT : tables {[poolPhys := 4%nat]} b).
  { split; simpl; try lia; auto.
    - apply lookup_singleton_eq.
    - intros t l H. apply Hone in H as [-> ->]. split; [lia|]. exists 0. lia.
    - intros t l i H _ Hi Hp' _. destruct (Hno _ _ _ H Hi Hp').
    - intros t i H Hi Hp'. destruct (Hno _ _ _ H Hi Hp').
    - intros t l i t' l' i' H _ _ _ Hi _ Hp' _ _ _ _. destruct (Hno _ _ _ H Hi Hp').
    - intros k i Hk Hi. apply Hz; [lia|assumption]. }
  split; [assumption|]. split; [reflexivity|]. split; [reflexivity|]. intros va.
  apply (lookup_none _ _ _ HT), walk_zero. exact Hz0.
Qed.

(** ** The kernel image *)

Definition seg_pages (s : ElfSegment) : Z := page_up (es_memsz s).

Lemma seg_pages_end file s : seg_ok file s -> page_up (seg_end s) = es_vaddr s + seg_pages s.
Proof. intros [[k Hk] _ _ _ _ _]. unfold seg_pages, page_up, seg_end. rewrite Hk. dlia. Qed.

Lemma seg_flags_ok s : is_flags (seg_flags s).
Proof.
  unfold seg_flags. destruct (has (es_flags s) ELF_PF_X), (has (es_flags s) ELF_PF_W);
    (split; [vm_compute; split; [discriminate|reflexivity]|split; reflexivity]).
Qed.

(** What a program header grants: the page is present and global, writable exactly with PF_W and executable
    exactly with PF_X, and no other bit of the leaf is set. *)
Record grants (pflags fl : Z) : Prop := {
  gt_present : has fl PT_P = true /\ has fl PT_G = true;
  gt_write : has fl PT_W = has pflags ELF_PF_W;
  gt_exec : has fl PT_NX = negb (has pflags ELF_PF_X);
  gt_only : Z.ldiff fl (((PT_P .| PT_G) .| PT_W) .| PT_NX) = 0
}.

Lemma seg_flags_grant s : ~ (has (es_flags s) ELF_PF_W = true /\ has (es_flags s) ELF_PF_X = true) -> grants (es_flags s) (seg_flags s).
Proof.
  intros Hwx. unfold seg_flags. destruct (has (es_flags s) ELF_PF_X) eqn:Ex, (has (es_flags s) ELF_PF_W) eqn:Ew; [destruct Hwx; auto|..];
    (split; rewrite ?Ex, ?Ew; [split|..]; vm_compute; reflexivity).
Qed.

(** Addresses of the kernel window. *)
Definition in_window (x : Z) : Prop := BOOTINFO_KERNEL_WINDOW_BASE <= x <= BOOTINFO_KERNEL_WINDOW_END.

Lemma low_window x : in_window x -> low x = x - (2 ^ 64 - 2 ^ 48).
Proof. unfold in_window, low. destruct window_bounds as [-> ->]. intros Hx. dlia. Qed.

(** The virtual pages segment [s] occupies at this slide. *)
Definition seg_range (slide : Z) (s : ElfSegment) (va : Z) : Prop := in_range (es_vaddr s + slide) (seg_pages s) va.

Section MapImage.

Context (file : list Z) (img : ElfImage) (physBase slide : Z).
Hypothesis Hok : image_ok file img.
Hypothesis Hphys : (4096 | physBase) /\ 0 <= physBase /\ physBase + ei_span img <= 2 ^ 52.
Hypothesis Hslide : (4096 | slide) /\ 0 <= slide /\ ei_linkBase img + ei_span img + slide <= BOOTINFO_KERNEL_WINDOW_END.

Lemma seg_placed s : s ∈ ei_segs img ->
  seg_ok file s /\ in_window (es_vaddr s + slide) /\ in_window (es_vaddr s + slide + seg_pages s) /\
  ei_linkBase img <= es_vaddr s /\ es_vaddr s + seg_pages s <= ei_linkBase img + ei_span img /\ in_window (ei_linkBase img) /\
  (4096 | seg_pages s) /\ es_memsz s <= seg_pages s.
Proof.
  intros Hs. pose proof (image_bounds file img s Hok Hs) as [Hb1 Hb2].
  destruct (io_segs _ _ Hok) as (Hall & _ & _). rewrite Forall_forall in Hall. pose proof (Hall s Hs) as Hso.
  destruct (io_base _ _ Hok) as (f & r & Er & Ebase). assert (Hf : seg_ok file f) by (apply Hall; rewrite Er; apply list_elem_of_here).
  destruct (io_span _ _ Hok) as (l & El & Esp). pose proof (seg_pages_end file s Hso) as Ep.
  pose proof (page_up_range (es_memsz s)) as [Hpu Hpd].
  assert (Hspan : (4096 | ei_linkBase img + ei_span img)).
  { rewrite Esp. replace (ei_linkBase img + (page_up (seg_end l) - ei_linkBase img)) with (page_up (seg_end l)) by lia. apply page_up_range. }
  assert (Hend : es_vaddr s + seg_pages s <= ei_linkBase img + ei_span img).
  { rewrite <- Ep. destruct Hspan as [k Hk]. rewrite Hk in *. unfold page_up. dlia. }
  destruct Hf as [_ [Hfw1 Hfw2] [_ Hfm] _ _ _]. unfold seg_end in Hfw2. unfold in_window, seg_pages in *.
  pose proof (seg_end_bounds _ _ Hso). destruct Hslide as (_ & Hs0 & Hs1). rewrite Ebase in *.
  unfold seg_end in *. split; [assumption|]. do 5 (split; [lia|]). split; [assumption|lia].
Qed.

Definition seg_mapped (s : ElfSegment) (b : PtBuilder) : Prop :=
  forall va, seg_range slide s va ->
    ptLookup b va = Some (physBase + (low va - low (ei_linkBase img + slide)), seg_flags s).

Lemma map_segs_spec segs : forall T b,
  (forall s, s ∈ segs -> s ∈ ei_segs img) -> StronglySorted seg_before segs -> tables T b ->
  (forall s va, s ∈ segs -> seg_range slide s va -> ptLookup b va = None) ->
  exists st b', map_segs img segs physBase slide b = Some (st, b') /\ (exists T', tables T' b') /\ same_pool b b' /\
    (st = BOOT_OK \/ (st = BOOT_ERR_NO_MEMORY /\ pt_poolUsed b' = pt_poolPages b')) /\
    (forall va, (forall s, s ∈ segs -> ~ seg_range slide s va) -> ptLookup b' va = ptLookup b va) /\
    (st = BOOT_OK -> forall s, s ∈ segs -> seg_mapped s b').
Proof.
  induction segs as [|s segs IH]; intros T b Hsub Hso HT Hfree.
  { exists BOOT_OK, b. split; [reflexivity|]. split; [eauto|]. split; [reflexivity|]. split; [auto|].
    split; [reflexivity|]. intros _ s Hs. inversion Hs. }
  inversion Hso as [|? ? Hso' Hbef]; subst.
  destruct (seg_placed s (Hsub s (list_elem_of_here _ _))) as (Hs & Hw1 & Hw2 & Hlb & Hle & Hwb & Hpd & Hmp).
  pose proof Hphys as ([kp Hkp] & Hp0 & Hp1). pose proof Hslide as ([ks Hks] & Hs0 & Hs1).
  pose proof (fun s' H => seg_placed s' (Hsub s' (list_elem_of_further _ _ _ H))) as Hplaced.
  assert (Hwl : in_window (ei_linkBase img + slide)) by (unfold in_window in *; lia).
  pose proof (low_window _ Hw1) as Hl1. pose proof (low_window _ Hwl) as Hl2.
  pose proof (seg_end_bounds _ _ Hs) as Hse. pose proof (so_aligned _ _ Hs) as [kv Hkv]. pose proof (so_sizes _ _ Hs) as [_ Hms].
  destruct window_bounds as [Ew0 Ew1]. unfold in_window in Hw1, Hw2, Hwb, Hwl. rewrite Ew0, Ew1 in Hw1, Hw2, Hwb, Hwl. rewrite Ew1 in Hs1.
  cbn [map_segs]. rewrite (u64_small (es_vaddr s + slide)), (u64_small (es_vaddr s - _)), (u64_small (physBase + _)) by (words; lia).
  change PT_SIZE_4K with ELF_PAGE_SIZE. rewrite alignUp_page by (unfold seg_pages in *; unfold page_up in *; lia).
  change (page_up (es_memsz s)) with (seg_pages s).
  pose proof (seg_flags_ok s) as Hfl. destruct (io_base _ _ Hok) as (f & r & Er & Ebase).
  assert (Hf : seg_ok file f).
  { destruct (io_segs _ _ Hok) as (Hall & _). rewrite Er in Hall. apply Forall_cons in Hall as [? _]. assumption. }
  destruct (so_aligned _ _ Hf) as [kf Hkf]. rewrite Hkf in Ebase. destruct Hpd as [kd Hkd].
  pose proof (ptMapRange_spec T b (es_vaddr s + slide) (physBase + (es_vaddr s - ei_linkBase img)) (seg_pages s) (seg_flags s) false HT) as M.
  rewrite decide_True in M by (rewrite !Z.mod_divide by lia; split; [exists (kv + ks); lia|split; [exists (kp + kv - kf); lia|exists kd; lia]]).
  destruct M as (st & b1 & dn & E & (T1 & HT1) & Hsp1 & Hdn & Hdd & Hm & Ho); try assumption; try (words; lia).
  rewrite E. cbn [mbind option_bind].
  assert (Hsame : forall va, ~ seg_range slide s va -> ptLookup b1 va = ptLookup b va).
  { intros va Hva. specialize (Hm va). rewrite decide_False in Hm; [apply Hm|]. intros Hin. apply Hva. unfold seg_range, in_range in *. lia. }
  destruct st; unfold map_outcome in Ho; try contradiction.
  - subst dn. assert (Hmine : seg_mapped s b1).
    { intros va Hva. specialize (Hm va). rewrite decide_True in Hm by exact Hva. destruct Hm as (_ & _ & Hlk). rewrite best_small in Hlk.
      rewrite Hlk. do 2 f_equal. unfold seg_range in Hva. lia. }
    assert (Hdis : forall s' va, s' ∈ segs -> seg_range slide s' va -> ~ seg_range slide s va).
    { intros s' va Hs' H1 H2. rewrite Forall_forall in Hbef. specialize (Hbef s' Hs'). unfold seg_before in Hbef.
      rewrite (seg_pages_end file s Hs) in Hbef.
      destruct (Hplaced s' Hs') as (_ & Hw' & _).
      pose proof (low_window _ Hw'). unfold seg_range, in_range in *. lia. }
    destruct (IH T1 b1) as (st & b' & E' & HT' & Hsp' & Hst & Hout & Hall); try assumption.
    { intros s' Hs'. apply Hsub, list_elem_of_further, Hs'. }
    { intros s' va Hs' Hva. rewrite Hsame by (eapply Hdis; eassumption). eapply Hfree; [apply list_elem_of_further, Hs'|exact Hva]. }
    exists st, b'. split; [exact E'|]. split; [assumption|]. split; [etransitivity; eassumption|]. split; [assumption|]. split.
    + intros va Hva. rewrite Hout, Hsame; [reflexivity|apply Hva, list_elem_of_here|].
      intros s' Hs'. apply Hva, list_elem_of_further, Hs'.
    + intros Est s' Hs'. apply elem_of_cons in Hs' as [->|Hs']; [|apply Hall; assumption].
      intros va Hva. rewrite Hout; [apply Hmine, Hva|]. intros s' Hs' Hva'. exact (Hdis s' va Hs' Hva' Hva).
  - exists BOOT_ERR_NO_MEMORY, b1. split; [reflexivity|]. split; [eauto|]. split; [assumption|]. split; [right; split; [reflexivity|apply Ho]|].
    split; [|discriminate]. intros va Hva. apply Hsame, Hva, list_elem_of_here.
  - exfalso. destruct Ho as [Hlt Hc]. rewrite best_small in Hc. destruct Hc as [Hc|[Hc _]]; [|lia]. apply Hc. apply (Hfree s); [apply list_elem_of_here|].
    unfold seg_range, in_range. assert (low (es_vaddr s + slide + dn) = low (es_vaddr s + slide) + dn); [|lia].
    rewrite Hl1, low_window; [lia|]. unfold in_window. rewrite Ew0, Ew1. lia.
Qed.

End MapImage.

(** C9: Mapping the kernel image gives each segment exactly its own rights.  For an accepted image, a slide that keeps
    it inside the kernel window and tables in which its place is still free, the call fails only with an exhausted
    pool.  When it succeeds, every address in the pages of a segment translates to the byte of the physical block at
    the same offset from the link base; the page is present and global, it is writable exactly when the segment's header
    has PF_W and executable exactly when it has PF_X, no other bit is set, and no page is both writable and
    executable.  Every other address translates as before. *)
Theorem ptMapElfImage_exact file img physBase slide T b :
  image_ok file img -> tables T b ->
  (4096 | physBase) /\ 0 <= physBase /\ physBase + ei_span img <= 2 ^ 52 ->
  (4096 | slide) /\ 0 <= slide /\ ei_linkBase img + ei_span img + slide <= BOOTINFO_KERNEL_WINDOW_END ->
  (forall va, in_range (ei_linkBase img + slide) (ei_span img) va -> ptLookup b va = None) ->
  exists st b', ptMapElfImage img physBase slide b = Some (st, b') /\ (exists T', tables T' b') /\
    (st = BOOT_OK \/ (st = BOOT_ERR_NO_MEMORY /\ pt_poolUsed b' = pt_poolPages b')) /\
    (forall va, (forall s, s ∈ ei_segs img -> ~ seg_range slide s va) -> ptLookup b' va = ptLookup b va) /\
    (st = BOOT_OK -> forall s va, s ∈ ei_segs img -> seg_range slide s va ->
       exists fl, ptLookup b' va = Some (physBase + (low va - low (ei_linkBase img + slide)), fl) /\ grants (es_flags s) fl /\
         (has fl PT_W = true -> has fl PT_NX = true)).
Proof.
  intros Hok HT Hphys Hslide Hfree.
  destruct (map_segs_spec file img physBase slide Hok Hphys Hslide (ei_segs img) T b) as (st & b' & E & HT' & Hsp & Hst & Hout & Hall);
    try assumption; auto.
  - apply (io_segs _ _ Hok).
  - intros s va Hs Hva. apply Hfree.
    destruct (seg_placed file img slide Hok Hslide s Hs) as (_ & Hw1 & Hw2 & Hlb & Hle & Hwb & _ & _).
    destruct Hslide as (_ & Hs0 & Hs1). unfold in_window in *.
    assert (Hwl : in_window (ei_linkBase img + slide)) by (unfold in_window; lia).
    pose proof (low_window _ Hw1). pose proof (low_window _ Hwl). unfold seg_range, in_range in *. lia.
  - exists st, b'. split; [exact E|]. split; [assumption|]. split; [assumption|]. split; [assumption|].
    intros Est s va Hs Hva. exists (seg_flags s). split; [apply Hall; assumption|].
    assert (G : grants (es_flags s) (seg_flags s)) by (apply seg_flags_grant; destruct (seg_placed file img slide Hok Hslide s Hs) as ([_ _ _ _ _ Hwx] & _); unfold has; destruct Hwx as [-> | ->]; simpl; intuition congruence).
    split; [exact G|]. destruct (seg_placed file img slide Hok Hslide s Hs) as ([_ _ _ _ _ Hwx] & _). destruct G as [_ -> -> _]. unfold has. destruct Hwx as [-> | ->]; [discriminate|reflexivity].
Qed.

(** ** A small builder *)

Definition sample_pt : PtBuilder :=
  mkPt 0x100000 16 1 true 0x100000 (fill_words (Z.to_nat (16 *! PT_SIZE_4K / 8)) 0 0x100000 0 (fun _ => 7)).

Lemma sample_pt_init : ptInit 0x100000 16 true (fun _ => 7) = (BOOT_OK, Some sample_pt).
Proof. unfold ptInit, sample_pt. simpl Z.eqb. reflexivity. Qed.

Lemma sample_tables : tables {[0x100000 := 4%nat]} sample_pt /\ forall va, ptLookup sample_pt va = None.
Proof.
  destruct (ptInit_spec 0x100000 16 true (fun _ => 7)) as (b & E & HT & _ & _ & Hn); [exists 256; reflexivity|lia|lia|lia|].
  rewrite sample_pt_init in E. assert (sample_pt = b) as -> by congruence. split; [exact HT|exact Hn].
Qed.

(** One 1 GiB page, one 2 MiB page and one 4 KiB page. *)
Lemma ptMapRange_exact_witness :
  if decide (0xFFFF800000000000 mod 4096 = 0 /\ 0 mod 4096 = 0 /\ 0x40201000 mod 4096 = 0) then
    exists st b' done, ptMapRange 0xFFFF800000000000 0 0x40201000 PT_FLAGS_KERNEL_RW true sample_pt = Some (st, b') /\
      (exists T', tables T' b') /\ same_pool sample_pt b' /\ 0 <= done <= 0x40201000 /\ (4096 | done) /\
      mapped (best_level true true 0xFFFF800000000000 0 0x40201000) PT_FLAGS_KERNEL_RW sample_pt 0xFFFF800000000000 0 done b' /\
      map_outcome true sample_pt 0xFFFF800000000000 0 0x40201000 done st b'
  else ptMapRange 0xFFFF800000000000 0 0x40201000 PT_FLAGS_KERNEL_RW true sample_pt = Some (BOOT_ERR_PT_UNALIGNED, sample_pt).
Proof.
  apply (ptMapRange_exact {[0x100000 := 4%nat]} sample_pt 0xFFFF800000000000 0 0x40201000 PT_FLAGS_KERNEL_RW true (proj1 sample_tables));
    try (words; lia); [vm_compute; discriminate|].
  split; [vm_compute; split; [discriminate|reflexivity]|split; reflexivity].
Defined.

Example sample_levels : map (best_level true true 0xFFFF800000000000 0 0x40201000) [0xFFFF800000123000; 0xFFFF800040100000; 0xFFFF800040200123] = [3; 2; 1]%nat.
Proof. vm_compute. reflexivity. Qed.

Lemma ptMapElfImage_exact_witness : exists st b',
  ptMapElfImage sample_image 0x200000 0x400000 sample_pt = Some (st, b') /\ (exists T', tables T' b') /\
  (st = BOOT_OK \/ (st = BOOT_ERR_NO_MEMORY /\ pt_poolUsed b' = pt_poolPages b')).
Proof.
  destruct (ptMapElfImage_exact sample_elf sample_image 0x200000 0x400000 _ sample_pt sample_image_ok (proj1 sample_tables))
    as (st & b' & E & HT & Hst & _).
  - split; [exists 512; reflexivity|]. simpl. lia.
  - split; [exists 1024; reflexivity|]. simpl. unfold BOOTINFO_KERNEL_WINDOW_BASE, BOOTINFO_KERNEL_WINDOW_END. lia.
  - intros va _. apply sample_tables.
  - exists st, b'. auto.
Defined.
