(* ===== verification/Lockdep.v ===== *)
(** * The lock validator's core

    Models kernel/sync/lockdep-core.c: lock classes, the acquisition-order graph
    as a bit matrix with a table of edges, the breadth-first search over it, the
    stack of held locks and the checks made when a lock is acquired or released.
    Addresses are numbers ([0] is NULL).  An access outside one of the fixed-size
    arrays, or a loop that outlives its fuel, makes an operation [None]. *)

From stdpp Require Import strings relations.
From S2P Require Import Prelude.

(** ** Data *)

Definition LOCKDEP_MAX_CLASSES : Z := 256.
Definition LOCKDEP_MAX_EDGES : Z := 512.
Definition LOCKDEP_MAX_HELD : Z := 16.
Definition LOCKDEP_TRACE_DEPTH : Z := 10.
Definition LOCKDEP_MAX_PATH : Z := 16.
Definition LOCKDEP_USAGE_IN_HARDIRQ : Z := 0.
Definition LOCKDEP_USAGE_IRQS_ON : Z := 1.

(** Models src/kernel/include/lockdep-core.h:22-25, LockdepTrace. *)
Record LockdepTrace := mkTrace { tr_pc : list Z; tr_count : Z }.

(** Models src/kernel/include/lockdep-core.h:29-34, LockdepClass. *)
Record LockdepClass := mkClass {
  cl_key : Z; cl_name : option string; cl_usageMask : Z; cl_usageTrace : list LockdepTrace }.

(** Models src/kernel/include/lockdep-core.h:36-39, LockdepEdge. *)
Record LockdepEdge := mkEdge { e_from : Z; e_to : Z; e_trace : LockdepTrace }.

(** Models src/kernel/include/lockdep-core.h:41-48, LockdepHeld. *)
Record LockdepHeld := mkHeld {
  h_instance : Z; h_classId : Z; h_irqCtx : Z; h_trylock : bool; h_irqsOn : bool; h_ip : Z }.

(** Models src/kernel/include/lockdep-core.h:50-53, LockdepHeldStack. *)
Record LockdepHeldStack := mkStack { hs_held : list LockdepHeld; hs_depth : Z }.

(** The scratch arrays of the search. *)
Record Scratch := mkScratch { bfsQueue : list Z; bfsParent : list Z; bfsSeen : list Z }.

(** Models src/kernel/include/lockdep-core.h:55-63, LockdepGraph. *)
Record LockdepGraph := mkGraph {
  g_classCount : Z; g_edgeCount : Z; g_classes : list LockdepClass; g_adj : list (list Z);
  g_edges : list LockdepEdge; g_scratch : Scratch }.

(** Models src/kernel/include/lockdep-core.h:65-74, LockdepVerdict. *)
Inductive LockdepVerdict :=
| LOCKDEP_OK | LOCKDEP_REPORT_INVERSION | LOCKDEP_REPORT_RECURSION | LOCKDEP_REPORT_IRQ_INCONSISTENT
| LOCKDEP_REPORT_NOT_HELD | LOCKDEP_REPORT_HELD_OVERFLOW | LOCKDEP_REPORT_BAD_INIT | LOCKDEP_FULL.

#[global] Instance LockdepVerdict_eq_dec : EqDecision LockdepVerdict.
Proof. solve_decision. Defined.

(** Models src/kernel/include/lockdep-core.h:76-86, LockdepFinding. *)
Record LockdepFinding := mkFinding {
  f_kind : LockdepVerdict; f_newClass : Z; f_heldClass : Z; f_heldIndex : Z; f_usageNew : Z; f_usageOld : Z;
  f_sameInstance : bool; f_pathLen : Z; f_pathTruncated : bool; f_pathClass : list Z }.

(** Models src/kernel/include/lockdep-core.h:90-90, LockdepCaptureFn: the stack capture
    is a function of the trace it overwrites, [None] for a NULL pointer. *)
Definition LockdepCaptureFn : Type := option (LockdepTrace -> LockdepTrace).

Definition with_scratch (sc : Scratch) (g : LockdepGraph) : LockdepGraph :=
  mkGraph (g_classCount g) (g_edgeCount g) (g_classes g) (g_adj g) (g_edges g) sc.
Definition with_classes (cs : list LockdepClass) (g : LockdepGraph) : LockdepGraph :=
  mkGraph (g_classCount g) (g_edgeCount g) cs (g_adj g) (g_edges g) (g_scratch g).

(** [mask & (1u << bit)], as a condition. *)
Definition has_bit (mask bit : Z) : bool := negb ((mask .& (1 <<! bit)) =? 0).

(** ** The graph *)

(** Models src/kernel/sync/lockdep-core.c:7-9, adjTest. *)
Definition adjTest (g : LockdepGraph) (from to : Z) : option bool :=
  row ← aget (g_adj g) (from - 1);
  w ← aget row ((to - 1) / 64);
  Some (negb (((w >>! ((to - 1) mod 64)) .& 1) =? 0)).

(** Models src/kernel/sync/lockdep-core.c:11-13, adjSet. *)
Definition adjSet (g : LockdepGraph) (from to : Z) : option LockdepGraph :=
  row ← aget (g_adj g) (from - 1);
  w ← aget row ((to - 1) / 64);
  row ← aset row ((to - 1) / 64) (w .| (1 <<! ((to - 1) mod 64)));
  adj ← aset (g_adj g) (from - 1) row;
  Some (mkGraph (g_classCount g) (g_edgeCount g) (g_classes g) adj (g_edges g) (g_scratch g)).

(** The registered class with key [key], from index [i] on. *)
Fixpoint class_find (n : nat) (i key : Z) (classes : list LockdepClass) : option (option Z) :=
  match n with
  | O => Some None
  | S n =>
      c ← aget classes i;
      if cl_key c =? key then Some (Some (i + 1)) else class_find n (i + 1) key classes
  end.

(** Models src/kernel/sync/lockdep-core.c:15-36, lockdepCoreClassOf. *)
Definition lockdepCoreClassOf (key : Z) (name : option string) (g : LockdepGraph)
  : option (LockdepVerdict * option Z * LockdepGraph) :=
  if (key =? 0) || bool_decide (name = None) then Some (LOCKDEP_REPORT_BAD_INIT, None, g)
  else
    found ← class_find (Z.to_nat (g_classCount g)) 0 key (g_classes g);
    match found with
    | Some id => Some (LOCKDEP_OK, Some (u16 id), g)
    | None =>
        if g_classCount g =? LOCKDEP_MAX_CLASSES then Some (LOCKDEP_FULL, None, g)
        else
          c ← aget (g_classes g) (g_classCount g);
          cs ← aset (g_classes g) (g_classCount g) (mkClass key name 0 (cl_usageTrace c));
          let count := u32 (g_classCount g + 1) in
          Some (LOCKDEP_OK, Some (u16 count),
                mkGraph count (g_edgeCount g) cs (g_adj g) (g_edges g) (g_scratch g))
    end.

(** [id] is not a registered class. *)
Definition bad_id (g : LockdepGraph) (id : Z) : bool := (id =? 0) || (g_classCount g <? id).

(** Models src/kernel/sync/lockdep-core.c:38-43, lockdepCoreHasEdge. *)
Definition lockdepCoreHasEdge (g : LockdepGraph) (from to : Z) : option bool :=
  if bad_id g from || bad_id g to then Some false else adjTest g from to.

Fixpoint edge_find (n : nat) (i from to : Z) (edges : list LockdepEdge) : option Z :=
  match n with
  | O => Some (-1)
  | S n =>
      e ← aget edges i;
      if (e_from e =? from) && (e_to e =? to) then Some i else edge_find n (i + 1) from to edges
  end.

(** Models src/kernel/sync/lockdep-core.c:45-52, lockdepCoreEdgeFind. *)
Definition lockdepCoreEdgeFind (g : LockdepGraph) (from to : Z) : option Z :=
  edge_find (Z.to_nat (g_edgeCount g)) 0 from to (g_edges g).

(** ** The search *)

(** Models src/kernel/sync/lockdep-core.c:74-77, bfsFind: class [w * 64 + b + 1] is marked seen,
    gets the parent [cur] and enters the queue. *)
Definition bfs_push (cur w b tail : Z) (sc : Scratch) : option (Z * Scratch) :=
  let next := u16 (w * 64 + b + 1) in
  s ← aget (bfsSeen sc) w;
  seen ← aset (bfsSeen sc) w (s .| (1 <<! b));
  parent ← aset (bfsParent sc) (next - 1) cur;
  queue ← aset (bfsQueue sc) tail next;
  Some (tail + 1, mkScratch queue parent seen).

(** Models src/kernel/sync/lockdep-core.c:70-78, bfsFind's loop over the bits of a word. *)
Fixpoint bfs_bits (fuel : nat) (bits cur w tail : Z) (sc : Scratch) : option (Z * Scratch) :=
  if bits =? 0 then Some (tail, sc)
  else match fuel with
  | O => None
  | S fuel =>
      '(tail', sc') ← bfs_push cur w (ctz bits) tail sc;
      bfs_bits fuel (bits .& (bits - 1)) cur w tail' sc'
  end.

(** Models src/kernel/sync/lockdep-core.c:69-79, bfsFind's loop over the words of a row, from
    word [w] on. *)
Fixpoint bfs_words (n : nat) (row : list Z) (cur w tail : Z) (sc : Scratch) : option (Z * Scratch) :=
  match n with
  | O => Some (tail, sc)
  | S n =>
      r ← aget row w;
      s ← aget (bfsSeen sc) w;
      '(tail, sc) ← bfs_bits 64 (r .& not64 s) cur w tail sc;
      bfs_words n row cur (w + 1) tail sc
  end.

(** Models src/kernel/sync/lockdep-core.c:64-80, bfsFind's loop over the queue. *)
Fixpoint bfs_loop (fuel : nat) (adj : list (list Z)) (dst head tail : Z) (sc : Scratch)
  : option (bool * Scratch) :=
  if tail <=? head then Some (false, sc)
  else match fuel with
  | O => None
  | S fuel =>
      cur ← aget (bfsQueue sc) head;
      if cur =? dst then Some (true, sc)
      else
        row ← aget adj (cur - 1);
        '(tail, sc) ← bfs_words 4 row cur 0 tail sc;
        bfs_loop fuel adj dst (head + 1) tail sc
  end.

(** Models src/kernel/sync/lockdep-core.c:56-82, bfsFind. *)
Definition bfsFind (src dst : Z) (g : LockdepGraph) : option (bool * LockdepGraph) :=
  let sc := g_scratch g in
  let seen := replicate 4 0 in
  queue ← aset (bfsQueue sc) 0 src;
  parent ← aset (bfsParent sc) (src - 1) 0;
  s ← aget seen ((src - 1) / 64);
  seen ← aset seen ((src - 1) / 64) (s .| (1 <<! ((src - 1) mod 64)));
  '(r, sc) ← bfs_loop 256 (g_adj g) dst 0 1 (mkScratch queue parent seen);
  Some (r, with_scratch sc g).

(** Models src/kernel/sync/lockdep-core.c:84-89, lockdepCoreDependsOn. *)
Definition lockdepCoreDependsOn (from to : Z) (g : LockdepGraph) : option (bool * LockdepGraph) :=
  if bad_id g from || bad_id g to || (from =? to) then Some (false, g) else bfsFind from to g.

(** ** Checks *)

(** Models src/kernel/sync/lockdep-core.c:93-96, segmentBase's loop. *)
Fixpoint segment_base (n : nat) (held : list LockdepHeld) (irqCtx : Z) : option Z :=
  match n with
  | O => Some 0
  | S m =>
      h ← aget held (Z.of_nat m);
      if h_irqCtx h =? irqCtx then segment_base m held irqCtx else Some (Z.of_nat n)
  end.

(** Models src/kernel/sync/lockdep-core.c:92-98, segmentBase. *)
Definition segmentBase (hs : LockdepHeldStack) (irqCtx : Z) : option Z :=
  segment_base (Z.to_nat (hs_depth hs)) (hs_held hs) irqCtx.

(** Models src/kernel/sync/lockdep-core.c:106-114, buildPath's walk: the nodes from [x] back to
    [src], the first [LOCKDEP_MAX_PATH + 1] of them kept, and how many there are. *)
Fixpoint path_walk (fuel : nat) (parent : list Z) (src x : Z) (rev : list Z) (total : Z) : option (list Z * Z) :=
  if x =? 0 then Some (rev, total)
  else match fuel with
  | O => None
  | S fuel =>
      let rev := if zlen rev <? LOCKDEP_MAX_PATH + 1 then rev ++ [x] else rev in
      if x =? src then Some (rev, total + 1)
      else
        p ← aget parent (x - 1);
        path_walk fuel parent src p rev (total + 1)
  end.

(** Models src/kernel/sync/lockdep-core.c:102-120, buildPath. *)
Definition buildPath (g : LockdepGraph) (src dst : Z) (f : LockdepFinding) : option LockdepFinding :=
  '(rev, total) ← path_walk 256 (bfsParent (g_scratch g)) src dst [] 0;
  let n := zlen rev in
  Some (mkFinding (f_kind f) (f_newClass f) (f_heldClass f) (f_heldIndex f) (f_usageNew f) (f_usageOld f)
          (f_sameInstance f) (u32 (n - 1)) (n <? total)
          (reverse rev ++ drop (Z.to_nat n) (f_pathClass f))).

(** Models src/kernel/sync/lockdep-core.c:122-126, findingInit. *)
Definition findingInit (kind : LockdepVerdict) (newClass : Z) : LockdepFinding :=
  mkFinding kind newClass 0 0 0 0 false 0 false (replicate 17 0).

(** The finding about the held entry [i] of class [heldClass]. *)
Definition held_finding (kind : LockdepVerdict) (newClass heldClass i : Z) (same : bool) : LockdepFinding :=
  mkFinding kind newClass heldClass i 0 0 same 0 false (replicate 17 0).
Definition usage_finding (newClass i new old : Z) : LockdepFinding :=
  mkFinding LOCKDEP_REPORT_IRQ_INCONSISTENT newClass 0 i new old false 0 false (replicate 17 0).

(** The first of the [n] held entries from [i] on that satisfies [p]. *)
Fixpoint held_scan (n : nat) (p : LockdepHeld -> bool) (i : Z) (held : list LockdepHeld) : option (option Z) :=
  match n with
  | O => Some None
  | S n => h ← aget held i; if p h then Some (Some i) else held_scan n p (i + 1) held
  end.

(** Models src/kernel/sync/lockdep-core.c:171-183, lockdepCoreCheckAcquire's search for an
    inversion among the [n] entries from [i] on. *)
Fixpoint inversion_scan (n : nat) (held : list LockdepHeld) (classId i : Z) (g : LockdepGraph)
  : option (option LockdepFinding * LockdepGraph) :=
  match n with
  | O => Some (None, g)
  | S n =>
      e ← aget held i;
      let h := h_classId e in
      skip ← (if h =? classId then Some true else adjTest g h classId);
      if (skip : bool) then inversion_scan n held classId (i + 1) g
      else
        '(r, g) ← bfsFind classId h g;
        if (r : bool) then
          f ← buildPath g classId h (held_finding LOCKDEP_REPORT_INVERSION classId h i false);
          Some (Some f, g)
        else inversion_scan n held classId (i + 1) g
  end.

(** Models src/kernel/sync/lockdep-core.c:156-185, lockdepCoreCheckAcquire once no held lock is
    the same: the usage checks, then the search for an inversion above [base]. *)
Definition check_usage_order (hs : LockdepHeldStack) (classId irqCtx : Z) (irqsOn trylock : bool) (base : Z)
  (g : LockdepGraph) : option (LockdepVerdict * option LockdepFinding * LockdepGraph) :=
  cls ← aget (g_classes g) (classId - 1);
  if negb (irqCtx =? 0) && has_bit (cl_usageMask cls) LOCKDEP_USAGE_IRQS_ON then
    Some (LOCKDEP_REPORT_IRQ_INCONSISTENT,
          Some (usage_finding classId 0 LOCKDEP_USAGE_IN_HARDIRQ LOCKDEP_USAGE_IRQS_ON), g)
  else if (irqCtx =? 0) && irqsOn && has_bit (cl_usageMask cls) LOCKDEP_USAGE_IN_HARDIRQ then
    Some (LOCKDEP_REPORT_IRQ_INCONSISTENT,
          Some (usage_finding classId 0 LOCKDEP_USAGE_IRQS_ON LOCKDEP_USAGE_IN_HARDIRQ), g)
  else if trylock then Some (LOCKDEP_OK, None, g)
  else
    '(f, g) ← inversion_scan (Z.to_nat (hs_depth hs - base)) (hs_held hs) classId base g;
    match f with
    | Some f => Some (LOCKDEP_REPORT_INVERSION, Some f, g)
    | None => Some (LOCKDEP_OK, None, g)
    end.

(** Models src/kernel/sync/lockdep-core.c:128-186, lockdepCoreCheckAcquire; the finding is filled
    only when the verdict is not [LOCKDEP_OK]. *)
Definition lockdepCoreCheckAcquire (hs : LockdepHeldStack) (instance classId irqCtx : Z) (irqsOn trylock : bool)
  (g : LockdepGraph) : option (LockdepVerdict * option LockdepFinding * LockdepGraph) :=
  let depth := Z.to_nat (hs_depth hs) in
  if LOCKDEP_MAX_HELD <=? hs_depth hs then
    Some (LOCKDEP_REPORT_HELD_OVERFLOW, Some (findingInit LOCKDEP_REPORT_HELD_OVERFLOW classId), g)
  else
    same ← held_scan depth (fun h => h_instance h =? instance) 0 (hs_held hs);
    match same with
    | Some i =>
        Some (LOCKDEP_REPORT_RECURSION,
              Some (held_finding LOCKDEP_REPORT_RECURSION classId classId i true), g)
    | None =>
        base ← segmentBase hs irqCtx;
        let n := Z.to_nat (hs_depth hs - base) in
        sameClass ← (if trylock then Some None
                     else held_scan n (fun h => h_classId h =? classId) base (hs_held hs));
        match sameClass with
        | Some i =>
            Some (LOCKDEP_REPORT_RECURSION,
                  Some (held_finding LOCKDEP_REPORT_RECURSION classId classId i false), g)
        | None =>
            check_usage_order hs classId irqCtx irqsOn trylock base g
        end
    end.

(** ** Commits *)

Definition run_capture (capture : LockdepCaptureFn) (t : LockdepTrace) : LockdepTrace :=
  match capture with Some c => c t | None => t end.

(** Models src/kernel/sync/lockdep-core.c:188-195, markUsage, on the class [classId]. *)
Definition markUsage (classId usage : Z) (capture : LockdepCaptureFn) (g : LockdepGraph) : option LockdepGraph :=
  c ← aget (g_classes g) (classId - 1);
  if has_bit (cl_usageMask c) usage then Some g
  else
    t ← aget (cl_usageTrace c) usage;
    ts ← aset (cl_usageTrace c) usage (run_capture capture t);
    cs ← aset (g_classes g) (classId - 1)
           (mkClass (cl_key c) (cl_name c) (u8 (cl_usageMask c .| (1 <<! usage))) ts);
    Some (with_classes cs g).

(** Models src/kernel/sync/lockdep-core.c:208-225, lockdepCoreCommitAcquire's loop that records
    the order edges of the [n] entries from [i] on. *)
Fixpoint add_edges (n : nat) (held : list LockdepHeld) (classId i : Z) (capture : LockdepCaptureFn)
  (result : LockdepVerdict) (g : LockdepGraph) : option (LockdepVerdict * LockdepGraph) :=
  match n with
  | O => Some (result, g)
  | S n =>
      e ← aget held i;
      let h := h_classId e in
      skip ← (if h =? classId then Some true else adjTest g h classId);
      if (skip : bool) then add_edges n held classId (i + 1) capture result g
      else if g_edgeCount g =? LOCKDEP_MAX_EDGES then add_edges n held classId (i + 1) capture LOCKDEP_FULL g
      else
        old ← aget (g_edges g) (g_edgeCount g);
        es ← aset (g_edges g) (g_edgeCount g)
               (mkEdge h classId (run_capture capture (mkTrace (tr_pc (e_trace old)) 0)));
        g ← adjSet (mkGraph (g_classCount g) (u32 (g_edgeCount g + 1)) (g_classes g) (g_adj g) es (g_scratch g)) h classId;
        add_edges n held classId (i + 1) capture result g
  end.

(** Models src/kernel/sync/lockdep-core.c:197-238, lockdepCoreCommitAcquire. *)
Definition lockdepCoreCommitAcquire (hs : LockdepHeldStack) (instance classId irqCtx : Z)
  (irqsOn trylock addEdges : bool) (ip : Z) (capture : LockdepCaptureFn) (g : LockdepGraph)
  : option (LockdepVerdict * LockdepHeldStack * LockdepGraph) :=
  _ ← aget (g_classes g) (classId - 1);
  g ← (if negb (irqCtx =? 0) then markUsage classId LOCKDEP_USAGE_IN_HARDIRQ capture g
       else if irqsOn then markUsage classId LOCKDEP_USAGE_IRQS_ON capture g
       else Some g);
  '(result, g) ← (if negb trylock && addEdges then
                    base ← segmentBase hs irqCtx;
                    add_edges (Z.to_nat (hs_depth hs - base)) (hs_held hs) classId base capture LOCKDEP_OK g
                  else Some (LOCKDEP_OK, g));
  if hs_depth hs <? LOCKDEP_MAX_HELD then
    held ← aset (hs_held hs) (hs_depth hs) (mkHeld instance classId irqCtx trylock irqsOn ip);
    Some (result, mkStack held (u32 (hs_depth hs + 1)), g)
  else Some (result, hs, g).

(** The topmost of the first [n] entries that holds [instance], or [-1]. *)
Fixpoint held_find (n : nat) (held : list LockdepHeld) (instance : Z) : option Z :=
  match n with
  | O => Some (-1)
  | S m =>
      h ← aget held (Z.of_nat m);
      if h_instance h =? instance then Some (Z.of_nat m) else held_find m held instance
  end.

(** Models src/kernel/sync/lockdep-core.c:241-248, heldFind. *)
Definition heldFind (hs : LockdepHeldStack) (instance : Z) : option Z :=
  held_find (Z.to_nat (hs_depth hs)) (hs_held hs) instance.

(** Models src/kernel/sync/lockdep-core.c:250-267, lockdepCoreCheckRelease. *)
Definition lockdepCoreCheckRelease (g : LockdepGraph) (hs : LockdepHeldStack) (instance : Z) (irqsOn : bool)
  : option (LockdepVerdict * option LockdepFinding) :=
  idx ← heldFind hs instance;
  if idx <? 0 then Some (LOCKDEP_REPORT_NOT_HELD, Some (findingInit LOCKDEP_REPORT_NOT_HELD 0))
  else
    h ← aget (hs_held hs) idx;
    conflict ← (if (h_irqCtx h =? 0) && negb (h_irqsOn h) && irqsOn then
                  c ← aget (g_classes g) (h_classId h - 1);
                  Some (has_bit (cl_usageMask c) LOCKDEP_USAGE_IN_HARDIRQ)
                else Some false);
    if (conflict : bool) then
      Some (LOCKDEP_REPORT_IRQ_INCONSISTENT,
            Some (usage_finding (h_classId h) idx LOCKDEP_USAGE_IRQS_ON LOCKDEP_USAGE_IN_HARDIRQ))
    else Some (LOCKDEP_OK, None).

(** Models src/kernel/sync/lockdep-core.c:279-281, lockdepCoreCommitRelease's loop: entries
    [i + 1] to [i + n] move down by one. *)
Fixpoint shift_down (n : nat) (i : Z) (held : list LockdepHeld) : option (list LockdepHeld) :=
  match n with
  | O => Some held
  | S n => h ← aget held (i + 1); held ← aset held i h; shift_down n (i + 1) held
  end.

(** Models src/kernel/sync/lockdep-core.c:269-283, lockdepCoreCommitRelease. *)
Definition lockdepCoreCommitRelease (hs : LockdepHeldStack) (instance : Z) (irqsOn : bool)
  (capture : LockdepCaptureFn) (g : LockdepGraph) : option (LockdepHeldStack * LockdepGraph) :=
  idx ← heldFind hs instance;
  if idx <? 0 then Some (hs, g)
  else
    h ← aget (hs_held hs) idx;
    g ← (if (h_irqCtx h =? 0) && irqsOn then markUsage (h_classId h) LOCKDEP_USAGE_IRQS_ON capture g else Some g);
    held ← shift_down (Z.to_nat (hs_depth hs - 1 - idx)) idx (hs_held hs);
    Some (mkStack held (u32 (hs_depth hs - 1)), g).

(** ** Bit rows *)

(** A row of the matrix, or the seen set: 256 bits in four words. *)
Definition row_ok (l : list Z) : Prop := length l = 4%nat /\ Forall is_u64 l.

(** The bit of class [x]. *)
Definition bit_at (l : list Z) (x : Z) : bool :=
  match aget l ((x - 1) / 64) with Some w => Z.testbit w ((x - 1) mod 64) | None => false end.

Definition id_ok (x : Z) : Prop := 1 <= x <= 256.

Lemma id_split x : id_ok x -> 0 <= (x - 1) / 64 < 4 /\ 0 <= (x - 1) mod 64 < 64.
Proof. unfold id_ok. intros. dlia. Qed.

Lemma id_join w b : 0 <= b < 64 -> (w * 64 + b + 1 - 1) / 64 = w /\ (w * 64 + b + 1 - 1) mod 64 = b.
Proof. intros. dlia. Qed.

Lemma row_get l w : row_ok l -> 0 <= w < 4 -> exists v, aget l w = Some v /\ is_u64 v.
Proof.
  intros [Hl Hu] Hw. destruct (aget_Some l w) as (v & H & Hv); [unfold zlen; lia|].
  exists v. split; [assumption|]. by eapply Forall_lookup_1.
Qed.

Lemma row_zlen l : row_ok l -> zlen l = 4.
Proof. intros [H _]. unfold zlen. by rewrite H. Qed.

Lemma bit_at_word l w b v : 0 <= b < 64 -> aget l w = Some v -> bit_at l (w * 64 + b + 1) = Z.testbit v b.
Proof. intros Hb Hv. unfold bit_at. destruct (id_join w b Hb) as [-> ->]. by rewrite Hv. Qed.

Lemma testbit_pow b n : 0 <= b -> 0 <= n -> Z.testbit (2 ^ b) n = (n =? b).
Proof. intros. rewrite Z.pow2_bits_eqb by lia. apply Z.eqb_sym. Qed.

(** Setting a bit of a row. *)
Lemma row_set l w b v :
  row_ok l -> 0 <= w < 4 -> 0 <= b < 64 -> aget l w = Some v ->
  row_ok (<[Z.to_nat w := v .| (1 <<! b)]> l) /\
  forall x, bit_at (<[Z.to_nat w := v .| (1 <<! b)]> l) x = bit_at l x || (x =? w * 64 + b + 1).
Proof.
  intros Hl Hw Hb Hv. pose proof (row_zlen l Hl) as Hz. split.
  - destruct Hl as [Hl Hu]. split; [by rewrite length_insert|]. apply Forall_insert; [assumption|].
    apply lor_u64; [|apply u64_range]. apply aget_lookup in Hv as [_ Hv]. by eapply Forall_lookup_1.
  - intros x. unfold bit_at. rewrite aget_insert by lia.
    destruct (Z.eqb_spec ((x - 1) / 64) w) as [Hx|Hx].
    + rewrite Hx, Hv, Z.lor_spec, shl1_u64, testbit_pow by dlia. f_equal.
      destruct (Z.eqb_spec ((x - 1) mod 64) b), (Z.eqb_spec x (w * 64 + b + 1)); dlia || reflexivity.
    + destruct (Z.eqb_spec x (w * 64 + b + 1)); [dlia|]. by rewrite orb_false_r.
Qed.

(** ** The relation the matrix holds *)

Definition adj_ok (adj : list (list Z)) : Prop := length adj = 256%nat /\ Forall row_ok adj.

Definition arc (adj : list (list Z)) (a b : Z) : Prop :=
  id_ok b /\ exists row, aget adj (a - 1) = Some row /\ bit_at row b = true.

Lemma adj_row adj a : adj_ok adj -> id_ok a -> exists row, aget adj (a - 1) = Some row /\ row_ok row.
Proof.
  intros [Hl Hr] Ha. unfold id_ok in Ha. destruct (aget_Some adj (a - 1)) as (row & H & Hv); [unfold zlen; lia|].
  exists row. split; [assumption|]. by eapply Forall_lookup_1.
Qed.

Lemma arc_id adj a b : adj_ok adj -> arc adj a b -> id_ok a /\ id_ok b.
Proof.
  intros [Hl _] (Hb & row & Hr & _). apply aget_bound in Hr. unfold zlen, id_ok in *. lia.
Qed.

Lemma shiftr_odd w k : 0 <= k -> negb (((w >>! k) .& 1) =? 0) = Z.testbit w k.
Proof.
  intros Hk. change 1 with (Z.ones 1) at 1. rewrite Z.land_ones by lia. change (2 ^ 1) with 2.
  rewrite Zmod_odd, <- Z.bit0_odd, Z.shiftr_spec, Z.add_0_l by lia. by destruct (Z.testbit w k).
Qed.

Lemma adjTest_spec g a b :
  adj_ok (g_adj g) -> id_ok a -> id_ok b ->
  exists v, adjTest g a b = Some v /\ (v = true <-> arc (g_adj g) a b).
Proof.
  intros Hg Ha Hb. destruct (adj_row _ _ Hg Ha) as (row & Hr & Hro). destruct (id_split b Hb) as [Hw Hm].
  destruct (row_get row _ Hro Hw) as (w & Hwd & _). unfold adjTest. rewrite Hr. cbn [mbind option_bind].
  rewrite Hwd. cbn [mbind option_bind]. eexists. split; [reflexivity|]. rewrite shiftr_odd by lia. unfold arc. split.
  - intros H. split; [assumption|]. exists row. split; [assumption|]. unfold bit_at. by rewrite Hwd.
  - intros (_ & row' & Hr' & H). assert (row' = row) as -> by congruence. unfold bit_at in H. by rewrite Hwd in H.
Qed.

(** ** The breadth-first search *)

Section Bfs.
Context (adj : list (list Z)) (src : Z).
Context (Hadj : adj_ok adj) (Hsrc : id_ok src).

(** [q] is the part of the queue in use: the classes seen so far, each reached from
    [src], each but the first with a parent that entered the queue before it. *)
Record bfs_inv (q : list Z) (sc : Scratch) : Prop := {
  bi_queue : length (bfsQueue sc) = 256%nat;
  bi_parent : length (bfsParent sc) = 256%nat;
  bi_seen : row_ok (bfsSeen sc);
  bi_prefix : take (length q) (bfsQueue sc) = q;
  bi_nodup : NoDup q;
  bi_ids : Forall id_ok q;
  bi_seen_iff : forall x, id_ok x -> bit_at (bfsSeen sc) x = true <-> x ∈ q;
  bi_reach : Forall (rtc (arc adj) src) q;
  bi_head : q !! 0%nat = Some src;
  bi_chain : forall i x, q !! S i = Some x ->
    exists p j, aget (bfsParent sc) (x - 1) = Some p /\ (j <= i)%nat /\ q !! j = Some p /\ arc adj p x
}.

Lemma nodup_ids_bound (q : list Z) : NoDup q -> Forall id_ok q -> (length q <= 256)%nat.
Proof.
  intros Hn Hf. assert (Hs : q ⊆ seqZ 1 256).
  { intros x Hx. apply elem_of_seqZ. rewrite Forall_forall in Hf. specialize (Hf x Hx). unfold id_ok in Hf. lia. }
  apply NoDup_submseteq in Hs; [|assumption]. apply submseteq_length in Hs. by rewrite length_seqZ in Hs.
Qed.

Lemma take_insert_end {A} (l q : list A) x :
  take (length q) l = q -> (length q < length l)%nat -> take (length (q ++ [x])) (<[length q := x]> l) = q ++ [x].
Proof.
  intros Hq Hl. rewrite length_app, Nat.add_1_r, (take_S_r _ (length q) x).
  - rewrite take_insert_ge by lia. by rewrite Hq.
  - by rewrite list_lookup_insert_eq.
Qed.

Lemma bfs_push_inv q sc cur w b :
  bfs_inv q sc -> cur ∈ q -> 0 <= w < 4 -> 0 <= b < 64 -> arc adj cur (w * 64 + b + 1) ->
  bit_at (bfsSeen sc) (w * 64 + b + 1) = false ->
  exists sc', bfs_push cur w b (zlen q) sc = Some (zlen (q ++ [w * 64 + b + 1]), sc') /\
    bfs_inv (q ++ [w * 64 + b + 1]) sc' /\
    forall x, bit_at (bfsSeen sc') x = bit_at (bfsSeen sc) x || (x =? w * 64 + b + 1).
Proof.
  intros I Hcur Hw Hb Harc Hns. assert (Hid : id_ok (w * 64 + b + 1)) by (unfold id_ok; lia).
  set (nx := w * 64 + b + 1) in *. assert (Hnq : nx ∉ q) by (rewrite <- (bi_seen_iff _ _ I nx Hid); congruence).
  assert (Hnd : NoDup (q ++ [nx])).
  { apply NoDup_app. split; [apply I|]. split; [|apply NoDup_singleton].
    intros x Hx ->%list_elem_of_singleton. done. }
  assert (Hids : Forall id_ok (q ++ [nx])) by (apply Forall_app; split; [apply I|by apply Forall_singleton]).
  pose proof (nodup_ids_bound _ Hnd Hids) as Hlen. rewrite length_app in Hlen. simpl in Hlen.
  destruct (row_get _ w (bi_seen _ _ I) Hw) as (s & Hs & _).
  destruct (row_set _ w b s (bi_seen _ _ I) Hw Hb Hs) as [Hrow Hset].
  unfold bfs_push. cbv zeta. fold nx. rewrite (u16_small nx) by (unfold id_ok in Hid; words; lia). rewrite Hs. cbn [mbind option_bind].
  rewrite (aset_Some (bfsSeen sc)) by (rewrite row_zlen by apply I; lia). cbn [mbind option_bind].
  rewrite (aset_Some (bfsParent sc)) by (unfold zlen; rewrite (bi_parent _ _ I); unfold id_ok in Hid; lia). cbn [mbind option_bind].
  rewrite aset_Some by (unfold zlen; rewrite (bi_queue _ _ I); lia). cbn [mbind option_bind].
  eexists. split; [f_equal; f_equal; rewrite zlen_app; reflexivity|]. split; [|exact Hset].
  unfold zlen. rewrite Nat2Z.id. split; simpl.
  - rewrite length_insert. apply I.
  - rewrite length_insert. apply I.
  - exact Hrow.
  - apply take_insert_end; [apply I|]. rewrite (bi_queue _ _ I). lia.
  - exact Hnd.
  - exact Hids.
  - intros x Hx. rewrite Hset, orb_true_iff, (bi_seen_iff _ _ I x Hx), Z.eqb_eq, elem_of_snoc. reflexivity.
  - apply Forall_app. split; [apply I|]. apply Forall_singleton. apply rtc_r with cur; [|assumption].
    pose proof (bi_reach _ _ I) as Hr. rewrite Forall_forall in Hr. by apply Hr.
  - apply lookup_app_l_Some, I.
  - intros i x Hx. apply lookup_app_Some in Hx as [Hx|[Hi Hx]].
    + destruct (bi_chain _ _ I i x Hx) as (p & j & Hp & Hj & Hq & Ha). exists p, j.
      split; [|split; [assumption|split; [by apply lookup_app_l_Some|assumption]]].
      assert (x <> nx) by (intros ->; apply Hnq; by eapply list_elem_of_lookup_2).
      rewrite aget_insert by (unfold zlen; rewrite (bi_parent _ _ I); unfold id_ok in Hid; lia).
      destruct (Z.eqb_spec (x - 1) (nx - 1)); [lia|assumption].
    + apply list_lookup_singleton_Some in Hx as [Hx0 <-]. apply list_elem_of_lookup in Hcur as [j Hj].
      exists cur, j. rewrite aget_insert, Z.eqb_refl by (unfold zlen; rewrite (bi_parent _ _ I); unfold id_ok in Hid; lia).
      pose proof (lookup_lt_Some _ _ _ Hj). split; [done|]. split; [lia|]. split; [by apply lookup_app_l_Some|assumption].
Qed.

Lemma bfs_bits_inv fuel : forall bits k q sc cur w,
  bfs_inv q sc -> cur ∈ q -> 0 <= w < 4 -> 0 <= k <= 64 -> 64 - k <= Z.of_nat fuel -> 0 <= bits ->
  (forall n, 0 <= n -> Z.testbit bits n = true ->
     k <= n < 64 /\ arc adj cur (w * 64 + n + 1) /\ bit_at (bfsSeen sc) (w * 64 + n + 1) = false) ->
  exists new sc', bfs_bits fuel bits cur w (zlen q) sc = Some (zlen (q ++ new), sc') /\ bfs_inv (q ++ new) sc' /\
    forall n, 0 <= n -> Z.testbit bits n = true -> w * 64 + n + 1 ∈ q ++ new.
Proof.
  induction fuel as [|fuel IH]; intros bits k q sc cur w I Hc Hw Hk Hf Hb Hbits; cbn [bfs_bits];
    destruct (Z.eqb_spec bits 0) as [->|Hnz].
  1,3: exists [], sc; rewrite app_nil_r; split; [reflexivity|]; split; [assumption|]; intros n _; by rewrite Z.testbit_0_l.
  - destruct (ctz_spec bits ltac:(lia)) as (H0 & H1 & _). specialize (Hbits _ H0 H1). lia.
  - destruct (ctz_spec bits ltac:(lia)) as (H0 & H1 & H2 & H3).
    destruct (Hbits _ H0 H1) as (Hr & Ha & Hs).
    destruct (bfs_push_inv q sc cur w (ctz bits) I Hc Hw ltac:(lia) Ha Hs) as (sc1 & -> & I1 & Hset).
    cbn [mbind option_bind].
    destruct (IH (bits .& (bits - 1)) (ctz bits + 1) _ sc1 cur w I1) as (new & sc2 & -> & I2 & Hin); [|lia..| | |].
    + apply elem_of_snoc. by left.
    + apply Z.land_nonneg. lia.
    + intros n Hn Ht. rewrite H3 in Ht by assumption. apply andb_true_iff in Ht as [Ht Hne]. bprop.
      destruct (Hbits n Hn Ht) as (Hr' & Ha' & Hs'). split; [|split; [assumption|]].
      * assert (~ n < ctz bits); [|lia]. intros Hlt. rewrite H2 in Ht by lia. done.
      * rewrite Hset, Hs'. destruct (Z.eqb_spec (w * 64 + n + 1) (w * 64 + ctz bits + 1)); [lia|reflexivity].
    + rewrite <- app_assoc in *. eexists _, sc2. split; [reflexivity|]. split; [assumption|]. intros n Hn Ht.
      destruct (Z.eqb_spec n (ctz bits)) as [->|Hne]; [rewrite !elem_of_app; right; left; apply list_elem_of_here|].
      apply Hin; [assumption|]. rewrite H3, Ht by assumption. by rewrite (proj2 (Z.eqb_neq _ _) Hne).
Qed.

Lemma bits_mask r s : is_u64 s -> forall m, 0 <= m -> Z.testbit (r .& not64 s) m = Z.testbit r m && ((m <? 64) && negb (Z.testbit s m)).
Proof. intros Hsu m Hm. rewrite Z.land_spec, not64_spec by assumption. reflexivity. Qed.

Lemma bfs_word_inv q sc cur w row r s: bfs_inv q sc -> cur ∈ q -> 0 <= w < 4 -> row_ok row -> aget adj (cur - 1) = Some row ->
  aget row w = Some r -> aget (bfsSeen sc) w = Some s -> is_u64 r -> is_u64 s ->
  exists new sc', bfs_bits 64 (r .& not64 s) cur w (zlen q) sc = Some (zlen (q ++ new), sc') /\ bfs_inv (q ++ new) sc' /\
    forall x, id_ok x -> (x - 1) / 64 = w -> bit_at row x = true -> x ∈ q ++ new.
Proof.
  intros I Hc Hw Hro Hrow Hr Hs Hru Hsu. pose proof (bits_mask r s Hsu) as Hbit.
  destruct (bfs_bits_inv 64 (r .& not64 s) 0 q sc cur w I Hc Hw ltac:(lia) ltac:(lia)) as (new & sc1 & E & I1 & Hin).
  - apply Z.land_nonneg. left. words. lia.
  - intros m Hm Ht. rewrite Hbit in Ht by assumption. apply andb_true_iff in Ht as [Ht1 Ht2]. bprop.
    split; [lia|]. split.
    + split; [unfold id_ok; lia|]. exists row. split; [assumption|]. rewrite (bit_at_word _ _ _ r) by (lia || assumption). assumption.
    + rewrite (bit_at_word _ _ _ s) by (lia || assumption). assumption.
  - exists new, sc1. split; [exact E|]. split; [exact I1|]. intros x Hx Hxw Hxb.
    destruct (id_split x Hx) as [_ Hm]. unfold bit_at in Hxb. rewrite Hxw, Hr in Hxb.
    assert (Hxe : x = w * 64 + (x - 1) mod 64 + 1) by dlia.
    destruct (Z.testbit s ((x - 1) mod 64)) eqn:Hts.
    + apply elem_of_app. left. apply (bi_seen_iff _ _ I); [assumption|]. rewrite Hxe, (bit_at_word _ _ _ s) by assumption. assumption.
    + rewrite Hxe. apply Hin; [lia|]. rewrite Hbit, Hxb, Hts by lia. rewrite (proj2 (Z.ltb_lt _ 64)) by lia. reflexivity.
Qed.

Lemma bfs_words_step n row cur w tail sc r s tail' sc' :
  aget row w = Some r -> aget (bfsSeen sc) w = Some s ->
  bfs_bits 64 (r .& not64 s) cur w tail sc = Some (tail', sc') ->
  bfs_words (S n) row cur w tail sc = bfs_words n row cur (w + 1) tail' sc'.
Proof.
  cbn [bfs_words]. generalize (bfs_bits 64). intros f -> ->. cbn [mbind option_bind]. intros ->. reflexivity.
Qed.

Lemma bfs_words_inv n : forall q sc cur w row,
  bfs_inv q sc -> cur ∈ q -> 0 <= w -> w + Z.of_nat n = 4 -> row_ok row -> aget adj (cur - 1) = Some row ->
  exists new sc', bfs_words n row cur w (zlen q) sc = Some (zlen (q ++ new), sc') /\ bfs_inv (q ++ new) sc' /\
    forall x, id_ok x -> w <= (x - 1) / 64 -> bit_at row x = true -> x ∈ q ++ new.
Proof.
  induction n as [|n IH]; intros q sc cur w row I Hc Hw Hn Hro Hrow.
  { exists [], sc. rewrite app_nil_r. split; [reflexivity|]. split; [assumption|]. intros x Hx. pose proof (id_split x Hx). lia. }
  destruct (row_get row w Hro ltac:(lia)) as (r & Hr & Hru). destruct (row_get _ w (bi_seen _ _ I) ltac:(lia)) as (s & Hs & Hsu).
  destruct (bfs_word_inv q sc cur w row r s I Hc ltac:(lia) Hro Hrow Hr Hs Hru Hsu) as (new & sc1 & E & I1 & Hin).
  rewrite (bfs_words_step _ _ _ _ _ _ _ _ _ _ Hr Hs E).
  destruct (IH _ sc1 cur (w + 1) row I1) as (new2 & sc2 & -> & I2 & Hin2); [apply elem_of_app; by left|lia..|assumption|assumption|].
  exists (new ++ new2), sc2. rewrite app_assoc. split; [reflexivity|]. split; [assumption|]. intros x Hx Hge Hxb.
  destruct (decide (w + 1 <= (x - 1) / 64)); [by apply Hin2|].
  apply elem_of_app. left. apply Hin; [assumption|lia|assumption].
Qed.

(** The first [head] entries of the queue are expanded. *)
Definition expanded (dst : Z) (head : nat) (q : list Z) : Prop :=
  forall i x, (i < head)%nat -> q !! i = Some x -> x <> dst /\ forall y, arc adj x y -> y ∈ q.

Lemma expanded_closed dst q sc :
  bfs_inv q sc -> expanded dst (length q) q -> ~ rtc (arc adj) src dst.
Proof.
  intros I Hx Hr.
  assert (Hcl : forall x y, rtc (arc adj) x y -> x ∈ q -> y ∈ q).
  { induction 1 as [x|x y z Hxy _ IH]; intros Hq; [assumption|]. apply IH.
    apply list_elem_of_lookup in Hq as [i Hi]. by apply (Hx i x (lookup_lt_Some _ _ _ Hi) Hi). }
  assert (Hq : dst ∈ q) by (eapply Hcl; [exact Hr|]; eapply list_elem_of_lookup_2, I).
  apply list_elem_of_lookup in Hq as [i Hi]. by apply (Hx i dst (lookup_lt_Some _ _ _ Hi) Hi).
Qed.

Lemma bfs_loop_inv dst fuel : forall head q sc,
  bfs_inv q sc -> (head <= length q)%nat -> (256 <= head + fuel)%nat -> expanded dst head q ->
  exists r sc' q', bfs_loop fuel adj dst (Z.of_nat head) (zlen q) sc = Some (r, sc') /\ bfs_inv q' sc' /\
    (if r : bool then dst ∈ q' else ~ rtc (arc adj) src dst).
Proof.
  induction fuel as [|fuel IH]; intros head q sc I Hh Hf Hx; cbn [bfs_loop];
    pose proof (nodup_ids_bound q (bi_nodup _ _ I) (bi_ids _ _ I)) as Hlen;
    destruct (Z.leb_spec (zlen q) (Z.of_nat head)) as [Hle|Hlt]; unfold zlen in *; try lia.
  1,2: exists false, sc, q; split; [reflexivity|]; split; [assumption|]; apply (expanded_closed dst q sc I);
    by replace (length q) with head by lia.
  destruct (lookup_lt_is_Some_2 q head ltac:(lia)) as [cur Hcur].
  assert (Hcq : cur ∈ q) by (by eapply list_elem_of_lookup_2).
  assert (Hget : aget (bfsQueue sc) (Z.of_nat head) = Some cur).
  { apply aget_lookup. split; [lia|]. rewrite Nat2Z.id, <- Hcur, <- (bi_prefix _ _ I) at 1.
    rewrite lookup_take by lia. destruct (decide _); [reflexivity|lia]. }
  rewrite Hget. cbn [mbind option_bind]. destruct (Z.eqb_spec cur dst) as [->|Hne].
  { exists true, sc, q. auto. }
  assert (Hci : id_ok cur) by (pose proof (bi_ids _ _ I) as Hi; rewrite Forall_forall in Hi; auto).
  destruct (adj_row adj cur Hadj Hci) as (row & Hrow & Hro). rewrite Hrow. cbn [mbind option_bind].
  destruct (bfs_words_inv 4 q sc cur 0 row I Hcq ltac:(lia) ltac:(lia) Hro Hrow) as (new & sc1 & Hw & I1 & Hin).
  unfold zlen in Hw. rewrite Hw. cbn [mbind option_bind].
  replace (Z.of_nat head + 1) with (Z.of_nat (S head)) by lia.
  apply (IH (S head) (q ++ new) sc1 I1); [rewrite length_app; lia|lia|].
  intros i x Hi Hxi. destruct (decide (i = head)) as [->|].
  - rewrite lookup_app_l in Hxi by lia. assert (x = cur) as -> by congruence. split; [assumption|].
    intros y (Hy & row' & Hr' & Hb). assert (row' = row) as -> by congruence.
    apply Hin; [assumption| |assumption]. pose proof (id_split y Hy). lia.
  - rewrite lookup_app_l in Hxi by lia. destruct (Hx i x ltac:(lia) Hxi) as [H1 H2]. split; [assumption|].
    intros y Hy. apply elem_of_app. left. by apply H2.
Qed.
End Bfs.

Definition scratch_ok (sc : Scratch) : Prop := length (bfsQueue sc) = 256%nat /\ length (bfsParent sc) = 256%nat.

Lemma row_zero : row_ok (replicate 4 0).
Proof. split; [reflexivity|]. repeat constructor; lia. Qed.

Lemma bit_zero x : bit_at (replicate 4 0) x = false.
Proof.
  unfold bit_at. destruct (aget (replicate 4 0) ((x - 1) / 64)) as [v|] eqn:E; [|reflexivity].
  apply aget_lookup in E as [_ E]. apply lookup_replicate in E as [-> _]. apply Z.testbit_0_l.
Qed.

Lemma bfs_start adj src sc :
  id_ok src -> scratch_ok sc ->
  exists s, aget (replicate 4 0) ((src - 1) / 64) = Some s /\
    bfs_inv adj src [src] (mkScratch (<[0%nat := src]> (bfsQueue sc)) (<[Z.to_nat (src - 1) := 0]> (bfsParent sc))
      (<[Z.to_nat ((src - 1) / 64) := s .| (1 <<! ((src - 1) mod 64))]> (replicate 4 0))).
Proof.
  intros Hs [Hq Hp]. destruct (id_split src Hs) as [Hw Hm].
  pose proof row_zero as Hr.
  assert (Hz : aget (replicate 4 0) ((src - 1) / 64) = Some 0).
  { apply aget_lookup. split; [lia|]. apply lookup_replicate_2. lia. }
  destruct (row_set _ _ _ _ Hr Hw Hm Hz) as [Hrow Hset].
  exists 0. split; [exact Hz|]. split; cbn [bfsQueue bfsParent bfsSeen].
  - by rewrite length_insert.
  - by rewrite length_insert.
  - exact Hrow.
  - destruct (bfsQueue sc) as [|c l]; [discriminate|]. reflexivity.
  - apply NoDup_singleton.
  - by apply Forall_singleton.
  - intros x Hx. rewrite Hset, bit_zero, list_elem_of_singleton. simpl. rewrite Z.eqb_eq.
    split; intros H; dlia.
  - apply Forall_singleton. apply rtc_refl.
  - reflexivity.
  - intros i x [=].
Qed.

(** The search decides reachability, inside its arrays and within its fuel, and
    changes nothing but its scratch. *)
Lemma bfsFind_spec src dst g :
  adj_ok (g_adj g) -> scratch_ok (g_scratch g) -> id_ok src ->
  exists r sc q, bfsFind src dst g = Some (r, with_scratch sc g) /\ bfs_inv (g_adj g) src q sc /\
    if r : bool then dst ∈ q else ~ rtc (arc (g_adj g)) src dst.
Proof.
  intros Ha Hsc Hs. destruct (bfs_start (g_adj g) src (g_scratch g) Hs Hsc) as (s & Hg & I).
  destruct (bfs_loop_inv (g_adj g) src Ha dst 256 0 [src] _ I) as (r & sc & q & E & I' & Hr);
    [simpl; lia|lia|intros i x Hi; lia|].
  destruct Hsc as [Hq Hp]. destruct (id_split src Hs) as [Hw Hm].
  exists r, sc, q. split; [|split; assumption]. unfold bfsFind. cbv zeta.
  change (Z.of_nat 0) with 0 in E. change (zlen [src]) with 1 in E. revert E. generalize (bfs_loop 256). intros f E.
  rewrite (aset_Some (bfsQueue _)) by (unfold zlen; lia). cbn [mbind option_bind].
  rewrite (aset_Some (bfsParent _)) by (unfold zlen, id_ok in *; lia). cbn [mbind option_bind].
  rewrite Hg. cbn [mbind option_bind].
  rewrite (aset_Some (replicate 4 0)) by (unfold zlen; rewrite length_replicate; lia). cbn [mbind option_bind].
  change (Z.to_nat 0) with 0%nat. rewrite E. reflexivity.
Qed.

Lemma inv_reach adj src q sc x : bfs_inv adj src q sc -> x ∈ q -> rtc (arc adj) src x.
Proof. intros I Hx. pose proof (bi_reach _ _ _ _ I) as H. rewrite Forall_forall in H. by apply H. Qed.

Lemma inv_scratch adj src q sc : bfs_inv adj src q sc -> scratch_ok sc.
Proof. intros I. split; apply I. Qed.

(** ** Chains *)

(** Neighbours in [l] are related. *)
Fixpoint linked (R : Z -> Z -> Prop) (l : list Z) : Prop :=
  match l with
  | x :: r => match r with y :: _ => R x y /\ linked R r | [] => True end
  | [] => True
  end.

(** [l] leads from [src] to [dst] along [R]. *)
Definition is_chain (R : Z -> Z -> Prop) (src dst : Z) (l : list Z) : Prop :=
  head l = Some src /\ last l = Some dst /\ linked R l.

Lemma linked_snoc R l x y : linked R (l ++ [x]) -> R x y -> linked R ((l ++ [x]) ++ [y]).
Proof.
  intros H Hxy. induction l as [|a l IH]; [simpl; auto|]. destruct l as [|b l]; simpl in *; [tauto|].
  destruct H as [H1 H2]. split; [assumption|]. by apply IH.
Qed.

(** The walk back from the [i]-th class of the queue. *)
Lemma path_walk_spec adj src q sc fuel : bfs_inv adj src q sc -> forall i x rev total,
  q !! i = Some x -> (i < fuel)%nat ->
  exists l, is_chain (arc adj) src x l /\
    path_walk fuel (bfsParent sc) src x rev total =
      Some (rev ++ take (17 - length rev) (reverse l), total + zlen l).
Proof.
  intros I. induction fuel as [|fuel IH]; intros i x rev total Hx Hi; [lia|]. cbn [path_walk].
  assert (Hid : id_ok x).
  { pose proof (bi_ids _ _ _ _ I) as H. rewrite Forall_forall in H. eapply H, list_elem_of_lookup_2, Hx. }
  rewrite (proj2 (Z.eqb_neq x 0)) by (unfold id_ok in Hid; lia).
  set (rev' := if zlen rev <? _ then _ else _).
  assert (Hrev : forall k, rev' ++ take (17 - length rev') k = rev ++ take (17 - length rev) (x :: k)).
  { intros k. unfold rev', zlen, LOCKDEP_MAX_PATH. destruct (Z.ltb_spec (Z.of_nat (length rev)) (16 + 1)).
    - rewrite length_app. simpl. replace (17 - length rev)%nat with (S (17 - (length rev + 1))) by lia.
      rewrite <- app_assoc. reflexivity.
    - replace (17 - length rev)%nat with 0%nat by lia. by rewrite !take_0. }
  destruct (Z.eqb_spec x src) as [->|Hne].
  - exists [src]. split; [by repeat split|]. specialize (Hrev []). rewrite take_nil, app_nil_r in Hrev. rewrite Hrev. reflexivity.
  - destruct i as [|i]; [pose proof (bi_head _ _ _ _ I); congruence|].
    destruct (bi_chain _ _ _ _ I i x Hx) as (p & j & Hp & Hj & Hq & Ha). rewrite Hp. cbn [mbind option_bind].
    destruct (IH j p rev' (total + 1) Hq ltac:(lia)) as (l & (Hh & Hl & Hk) & ->).
    exists (l ++ [x]). rewrite reverse_snoc, Hrev, zlen_app. split; [|do 2 f_equal; change (zlen [x]) with 1; lia].
    apply last_Some in Hl as [l' ->]. split; [|split].
    + destruct l'; assumption.
    + apply last_snoc.
    + by apply linked_snoc.
Qed.

(** What the finding records of the chain [l]: its last [LOCKDEP_MAX_PATH] edges. *)
Definition path_of (l : list Z) (f : LockdepFinding) : Prop :=
  f_pathTruncated f = (17 <? zlen l) /\ f_pathLen f + 1 = Z.min 17 (zlen l) /\ length (f_pathClass f) = 17%nat /\
  take (Z.to_nat (f_pathLen f + 1)) (f_pathClass f) = drop (length l - 17) l.

Lemma buildPath_spec adj src q sc g dst f :
  bfs_inv adj src q sc -> g_scratch g = sc -> dst ∈ q -> f_pathClass f = replicate 17 0 ->
  exists l f', is_chain (arc adj) src dst l /\ buildPath g src dst f = Some f' /\ path_of l f' /\
    f_kind f' = f_kind f /\ f_newClass f' = f_newClass f /\ f_heldClass f' = f_heldClass f /\
    f_heldIndex f' = f_heldIndex f.
Proof.
  intros I Hg Hd Hf. apply list_elem_of_lookup in Hd as [i Hi].
  pose proof (nodup_ids_bound q (bi_nodup _ _ _ _ I) (bi_ids _ _ _ _ I)) as Hlen. pose proof (lookup_lt_Some _ _ _ Hi) as Hlt.
  destruct (path_walk_spec adj src q sc 256 I i dst [] 0 Hi ltac:(lia)) as (l & Hl & Hw).
  assert (Hne : (0 < length l)%nat) by (destruct l; [destruct Hl as [[=] _]|apply Nat.lt_0_succ]).
  unfold buildPath. rewrite Hg. revert Hw. generalize (path_walk 256). intros w ->.
  cbn [mbind option_bind app]. eexists l, _. split; [assumption|]. split; [reflexivity|]. split; [|cbn; auto].
  set (rv := take (17 - length []) (reverse l)).
  assert (Hrl : length rv = (17 `min` length l)%nat) by (unfold rv; rewrite length_take, length_reverse; reflexivity).
  unfold path_of, zlen. cbn [f_pathTruncated f_pathLen f_pathClass]. rewrite Hf, Hrl.
  rewrite u32_small by (words; lia). split_and!.
  - destruct (Z.ltb_spec (Z.of_nat (17 `min` length l)) (0 + Z.of_nat (length l))), (Z.ltb_spec 17 (Z.of_nat (length l))); lia || reflexivity.
  - lia.
  - rewrite length_app, length_reverse, length_drop, length_replicate. lia.
  - rewrite take_app_le by (rewrite length_reverse; lia).
    rewrite take_ge by (rewrite length_reverse; lia). unfold rv.
    rewrite <- (reverse_involutive l) at 3. rewrite drop_reverse. f_equal. rewrite length_reverse. simpl length.
    destruct (decide (length l <= 17)%nat).
    + rewrite !take_ge by (rewrite length_reverse; lia). reflexivity.
    + f_equal. lia.
Qed.

(** ** Adding one arc to an acyclic relation *)

Definition acyclic (R : Z -> Z -> Prop) : Prop := forall x, ~ tc R x x.

Section AddArc.
Context (R R' : Z -> Z -> Prop) (h c : Z).
Context (Hsub : forall x y, R' x y -> R x y \/ (x = h /\ y = c)).
Context (Hno : ~ rtc R c h).

Lemma reach_after z : rtc R' c z -> rtc R c z.
Proof.
  apply (rtc_ind_r (fun z => rtc R c z) c); [apply rtc_refl|]. intros y w _ Hyw IH.
  destruct (Hsub y w Hyw) as [H|[-> ->]]; [by apply rtc_r with y|contradiction].
Qed.

Lemma tc_after x y : tc R' x y -> tc R x y \/ (rtc R' x h /\ rtc R' c y).
Proof.
  induction 1 as [x y H|x y z H Ht IH].
  - destruct (Hsub x y H) as [|[-> ->]]; [left; by apply tc_once|right; split; apply rtc_refl].
  - destruct (Hsub x y H) as [H1|[-> ->]].
    + destruct IH as [H2|[H2 H3]]; [left; by apply tc_l with y|right]. split; [by apply rtc_l with y|assumption].
    + right. split; [apply rtc_refl|by apply tc_rtc].
Qed.

Lemma acyclic_after : acyclic R -> acyclic R'.
Proof.
  intros Ha x Hx. destruct (tc_after x x Hx) as [H|[H1 H2]]; [by apply (Ha x)|].
  apply Hno, reach_after. by apply rtc_trans with x.
Qed.
End AddArc.

(** An acyclic arc cannot be closed into a cycle. *)
Lemma arc_no_back R h c : acyclic R -> R h c -> ~ rtc R c h.
Proof. intros Ha H Hr. apply (Ha h). eapply tc_rtc_r; [apply tc_once, H|assumption]. Qed.

(** ** Invariants *)

Definition class_ok (c : LockdepClass) : Prop := length (cl_usageTrace c) = 2%nat /\ is_u8 (cl_usageMask c).

Definition registered (g : LockdepGraph) (x : Z) : Prop := 1 <= x <= g_classCount g.

(** The edges recorded in the table. *)
Definition edge_pairs (g : LockdepGraph) : list (Z * Z) :=
  (fun e => (e_from e, e_to e)) <$> take (Z.to_nat (g_edgeCount g)) (g_edges g).

Record graph_ok (g : LockdepGraph) : Prop := {
  go_count : 0 <= g_classCount g <= 256;
  go_classes : length (g_classes g) = 256%nat /\ Forall class_ok (g_classes g);
  go_keys : NoDup (cl_key <$> take (Z.to_nat (g_classCount g)) (g_classes g));
  go_names : Forall (fun n => n <> None) (cl_name <$> take (Z.to_nat (g_classCount g)) (g_classes g));
  go_adj : adj_ok (g_adj g);
  go_ids : forall a b, arc (g_adj g) a b -> registered g a /\ registered g b;
  go_edges : length (g_edges g) = 512%nat;
  go_edgeCount : 0 <= g_edgeCount g <= 512;
  go_pairs : forall a b, arc (g_adj g) a b <-> (a, b) ∈ edge_pairs g;
  go_nodup : NoDup (edge_pairs g);
  go_scratch : scratch_ok (g_scratch g);
  go_acyclic : acyclic (arc (g_adj g))
}.

(** The held locks, bottom first. *)
Definition active (hs : LockdepHeldStack) : list LockdepHeld := take (Z.to_nat (hs_depth hs)) (hs_held hs).

Record stack_ok (g : LockdepGraph) (hs : LockdepHeldStack) : Prop := {
  so_depth : 0 <= hs_depth hs <= 16;
  so_held : length (hs_held hs) = 16%nat;
  so_ids : Forall (fun h => registered g (h_classId h)) (active hs)
}.

Lemma registered_id g x : graph_ok g -> registered g x -> id_ok x.
Proof. intros G H. pose proof (go_count g G). unfold registered, id_ok in *. lia. Qed.

Lemma scratch_graph_ok g sc : graph_ok g -> scratch_ok sc -> graph_ok (with_scratch sc g).
Proof. intros G H. split; try apply G. exact H. Qed.

Lemma active_length g hs : stack_ok g hs -> length (active hs) = Z.to_nat (hs_depth hs).
Proof. intros S. unfold active. rewrite length_take, (so_held g hs S). pose proof (so_depth g hs S). lia. Qed.

Lemma active_get hs i h : active hs !! i = Some h -> aget (hs_held hs) (Z.of_nat i) = Some h.
Proof.
  intros H. apply aget_lookup. split; [lia|]. rewrite Nat2Z.id. unfold active in H.
  apply lookup_take_Some in H as [H _]. assumption.
Qed.

(** ** Segments *)

Fixpoint take_while {A} (p : A -> bool) (l : list A) : list A :=
  match l with x :: l => if p x then x :: take_while p l else [] | [] => [] end.

(** The topmost run of held locks taken in the context [irqCtx]. *)
Definition segment (hs : LockdepHeldStack) (irqCtx : Z) : list LockdepHeld :=
  reverse (take_while (fun h => h_irqCtx h =? irqCtx) (reverse (active hs))).

Lemma segment_base_spec held ctx n :
  (n <= length held)%nat ->
  exists b, segment_base n held ctx = Some (Z.of_nat b) /\ (b <= n)%nat /\
    drop b (take n held) = reverse (take_while (fun h => h_irqCtx h =? ctx) (reverse (take n held))).
Proof.
  induction n as [|m IH]; intros Hn; [by exists 0%nat|].
  destruct (lookup_lt_is_Some_2 held m ltac:(lia)) as [h Hh].
  cbn [segment_base]. assert (Hg : aget held (Z.of_nat m) = Some h) by (apply aget_lookup; rewrite Nat2Z.id; split; [lia|assumption]).
  rewrite Hg. cbn [mbind option_bind]. rewrite (take_S_r _ _ _ Hh), reverse_snoc. cbn [take_while].
  destruct (h_irqCtx h =? ctx).
  - destruct (IH ltac:(lia)) as (b & -> & Hb & Hd). exists b. split; [reflexivity|]. split; [lia|].
    rewrite reverse_cons, <- Hd, drop_app_le; [reflexivity|]. rewrite length_take. lia.
  - exists (S m). split; [reflexivity|]. split; [lia|]. rewrite drop_ge; [reflexivity|].
    rewrite length_app, length_take. simpl. lia.
Qed.

Lemma segmentBase_spec g hs ctx :
  stack_ok g hs ->
  exists b, segmentBase hs ctx = Some b /\ 0 <= b <= hs_depth hs /\
    drop (Z.to_nat b) (active hs) = segment hs ctx /\ Z.to_nat (hs_depth hs - b) = length (segment hs ctx).
Proof.
  intros S. pose proof (so_depth g hs S). pose proof (so_held g hs S) as Hl.
  destruct (segment_base_spec (hs_held hs) ctx (Z.to_nat (hs_depth hs)) ltac:(lia)) as (b & Hb & Hle & Hd).
  exists (Z.of_nat b). rewrite Nat2Z.id. split; [exact Hb|]. split; [lia|]. split; [exact Hd|].
  unfold segment, active. rewrite <- Hd, length_drop, length_take. lia.
Qed.

Lemma segment_in hs ctx h : h ∈ segment hs ctx -> h ∈ active hs /\ h_irqCtx h = ctx.
Proof.
  unfold segment. rewrite elem_of_reverse. intros H.
  assert (H' : h ∈ reverse (active hs) /\ (h_irqCtx h =? ctx) = true).
  { revert H. induction (reverse (active hs)) as [|x l IH]; cbn [take_while]; [by intros ?%elem_of_nil|].
    destruct (h_irqCtx x =? ctx) eqn:E; [|by intros ?%elem_of_nil]. rewrite !elem_of_cons. intros [->|H]; [auto|].
    destruct (IH H) as [H1 H2]. auto. }
  rewrite elem_of_reverse in H'. destruct H' as [H1 H2]. split; [assumption|]. by apply Z.eqb_eq.
Qed.

(** [l] is the part of the held array from index [i] on. *)
Definition window (held : list LockdepHeld) (i : Z) (l : list LockdepHeld) : Prop :=
  0 <= i /\ forall k h, l !! k = Some h -> aget held (i + Z.of_nat k) = Some h.

Lemma window_cons held i h l : window held i (h :: l) -> aget held i = Some h /\ window held (i + 1) l.
Proof.
  intros [Hi H]. split.
  - specialize (H 0%nat h eq_refl). by rewrite Z.add_0_r in H.
  - split; [lia|]. intros k x Hk. specialize (H (S k) x Hk). by replace (i + 1 + Z.of_nat k) with (i + Z.of_nat (S k)) by lia.
Qed.

Lemma window_drop hs b l : 0 <= b -> drop (Z.to_nat b) (active hs) = l -> window (hs_held hs) b l.
Proof.
  intros Hb <-. split; [assumption|]. intros k h Hk. rewrite lookup_drop in Hk. apply active_get in Hk.
  by replace (b + Z.of_nat k) with (Z.of_nat (Z.to_nat b + k)) by lia.
Qed.

Lemma held_scan_spec p held l : forall i,
  window held i l ->
  exists r, held_scan (length l) p i held = Some r /\
    match r with
    | Some j => exists k h, j = i + Z.of_nat k /\ l !! k = Some h /\ p h = true
    | None => forall h, h ∈ l -> p h = false
    end.
Proof.
  induction l as [|x l IH]; intros i W; cbn [length held_scan].
  { exists None. split; [reflexivity|]. by intros h ?%elem_of_nil. }
  apply window_cons in W as [-> W]. cbn [mbind option_bind]. destruct (p x) eqn:E.
  - exists (Some i). split; [reflexivity|]. exists 0%nat, x. split; [lia|]. auto.
  - destruct (IH _ W) as (r & -> & Hr). exists r. split; [reflexivity|]. destruct r as [j|].
    + destruct Hr as (k & h & -> & Hk & Hp). exists (S k), h. split; [lia|]. auto.
    + intros h [->|Hh]%elem_of_cons; [assumption|by apply Hr].
Qed.

(** ** Checking an acquire *)

(** The inversion [f] reports: a chain of recorded edges from the class being
    acquired to the class of a held lock. *)
Definition inversion_ok (g : LockdepGraph) (c : Z) (l : list LockdepHeld) (base : Z) (f : LockdepFinding) : Prop :=
  exists k h path, l !! k = Some h /\ h_classId h <> c /\ is_chain (arc (g_adj g)) c (h_classId h) path /\
    path_of path f /\ f_kind f = LOCKDEP_REPORT_INVERSION /\ f_newClass f = c /\
    f_heldClass f = h_classId h /\ f_heldIndex f = base + Z.of_nat k /\ rtc (arc (g_adj g)) c (h_classId h).

Lemma inversion_ok_cons g c x l base f : inversion_ok g c l (base + 1) f -> inversion_ok g c (x :: l) base f.
Proof.
  intros (k & h & path & Hk & H1 & H2 & H3 & H4 & H5 & H6 & H7 & H8). exists (S k), h, path.
  split_and!; try assumption. lia.
Qed.

Lemma inversion_scan_spec held c l : forall i g,
  graph_ok g -> id_ok c -> Forall (fun h => registered g (h_classId h)) l -> window held i l ->
  exists r sc, inversion_scan (length l) held c i g = Some (r, with_scratch sc g) /\ scratch_ok sc /\
    match r with
    | Some f => inversion_ok g c l i f
    | None => forall h, h ∈ l -> h_classId h <> c -> ~ rtc (arc (g_adj g)) c (h_classId h)
    end.
Proof.
  induction l as [|x l IH]; intros i g G Hc Hf W; cbn [length inversion_scan].
  { exists None, (g_scratch g). split; [by destruct g|]. split; [apply G|]. by intros h ?%elem_of_nil. }
  apply window_cons in W as [-> W]. apply Forall_cons_1 in Hf as [Hx Hf]. cbn [mbind option_bind]. cbv zeta.
  pose proof (registered_id g _ G Hx) as Hxi.
  destruct (adjTest_spec g (h_classId x) c (go_adj g G) Hxi Hc) as (v & Hv & Hva).
  destruct (IH (i + 1) g G Hc Hf W) as (r & sc & Er & Hsc & Hr).
  assert (Hnext : (h_classId x <> c -> ~ rtc (arc (g_adj g)) c (h_classId x)) ->
    match r with
    | Some f => inversion_ok g c (x :: l) i f
    | None => forall h, h ∈ x :: l -> h_classId h <> c -> ~ rtc (arc (g_adj g)) c (h_classId h)
    end).
  { intros Hn. destruct r as [f|]; [by apply inversion_ok_cons|]. intros h [->|Hh]%elem_of_cons; [assumption|by apply Hr]. }
  destruct (Z.eqb_spec (h_classId x) c) as [He|Hne]; [|rewrite Hv]; cbn [mbind option_bind].
  { exists r, sc. split; [exact Er|]. split; [assumption|]. apply Hnext. intros ?; contradiction. }
  destruct v.
  { exists r, sc. split; [exact Er|]. split; [assumption|]. apply Hnext. intros _.
    apply arc_no_back; [apply G|]. by apply Hva. }
  destruct (bfsFind_spec c (h_classId x) g (go_adj g G) (go_scratch g G) Hc) as (b & sc1 & q & -> & I & Hb).
  cbn [mbind option_bind]. destruct b.
  - destruct (buildPath_spec _ c q sc1 (with_scratch sc1 g) (h_classId x)
      (held_finding LOCKDEP_REPORT_INVERSION c (h_classId x) i false) I eq_refl Hb eq_refl)
      as (p & f & Hp & -> & Hpf & H1 & H2 & H3 & H4).
    cbn [mbind option_bind]. exists (Some f), sc1. split; [reflexivity|]. split; [by eapply inv_scratch|].
    exists 0%nat, x, p. split_and!; try assumption; [reflexivity|rewrite H4; simpl; lia|by eapply inv_reach].
  - destruct (IH (i + 1) (with_scratch sc1 g)) as (r' & sc' & -> & Hsc' & Hr');
      [apply scratch_graph_ok; [assumption|by eapply inv_scratch]|assumption..|].
    exists r', sc'. split; [reflexivity|]. split; [assumption|]. destruct r' as [f|]; [by apply inversion_ok_cons|].
    intros h [->|Hh]%elem_of_cons; [by intros _|by apply Hr'].
Qed.

(** The class [c] was seen taken in a hard IRQ, or with interrupts on. *)
Definition used (g : LockdepGraph) (c usage : Z) : Prop :=
  exists cls, aget (g_classes g) (c - 1) = Some cls /\ has_bit (cl_usageMask cls) usage = true.

(** The verdict on an acquire, in the order of the documented checks. *)
Section Verdict.
Context (g : LockdepGraph) (hs : LockdepHeldStack) (instance c ctx : Z) (irqsOn trylock : bool).

Definition overflowing : Prop := hs_depth hs = 16.
Definition same_instance : Prop := exists h, h ∈ active hs /\ h_instance h = instance.
Definition same_class : Prop := trylock = false /\ exists h, h ∈ segment hs ctx /\ h_classId h = c.
Definition irq_conflict : Prop :=
  (ctx <> 0 /\ used g c LOCKDEP_USAGE_IRQS_ON) \/ (ctx = 0 /\ irqsOn = true /\ used g c LOCKDEP_USAGE_IN_HARDIRQ).
Definition inverted : Prop :=
  trylock = false /\ exists h, h ∈ segment hs ctx /\ rtc (arc (g_adj g)) c (h_classId h).

Inductive acquire_verdict : LockdepVerdict -> option LockdepFinding -> Prop :=
| av_overflow f : overflowing -> f_kind f = LOCKDEP_REPORT_HELD_OVERFLOW ->
    acquire_verdict LOCKDEP_REPORT_HELD_OVERFLOW (Some f)
| av_instance f k h : ~ overflowing -> active hs !! k = Some h -> h_instance h = instance ->
    f = held_finding LOCKDEP_REPORT_RECURSION c c (Z.of_nat k) true ->
    acquire_verdict LOCKDEP_REPORT_RECURSION (Some f)
| av_class f i : ~ overflowing -> ~ same_instance -> same_class ->
    f = held_finding LOCKDEP_REPORT_RECURSION c c i false -> acquire_verdict LOCKDEP_REPORT_RECURSION (Some f)
| av_irq f : ~ overflowing -> ~ same_instance -> ~ same_class -> irq_conflict ->
    f_kind f = LOCKDEP_REPORT_IRQ_INCONSISTENT -> acquire_verdict LOCKDEP_REPORT_IRQ_INCONSISTENT (Some f)
| av_inversion f base : ~ overflowing -> ~ same_instance -> ~ same_class -> ~ irq_conflict -> inverted ->
    inversion_ok g c (segment hs ctx) base f -> acquire_verdict LOCKDEP_REPORT_INVERSION (Some f)
| av_ok : ~ overflowing -> ~ same_instance -> ~ same_class -> ~ irq_conflict -> ~ inverted ->
    acquire_verdict LOCKDEP_OK None.
End Verdict.

Lemma class_get g c : graph_ok g -> registered g c -> exists cls, aget (g_classes g) (c - 1) = Some cls /\ class_ok cls.
Proof.
  intros G Hc. destruct (go_classes g G) as [Hl Hf]. pose proof (go_count g G). unfold registered in Hc.
  destruct (aget_Some (g_classes g) (c - 1)) as (cls & H1 & H2); [unfold zlen; lia|].
  exists cls. split; [assumption|]. by eapply Forall_lookup_1.
Qed.

Lemma used_spec g c cls u : aget (g_classes g) (c - 1) = Some cls -> used g c u <-> has_bit (cl_usageMask cls) u = true.
Proof. intros H. split; [intros (cls' & H' & Hb); congruence|]. intros Hb. by exists cls. Qed.

Lemma check_usage_order_spec g hs instance c ctx irqsOn trylock base :
  graph_ok g -> stack_ok g hs -> registered g c -> 0 <= base ->
  drop (Z.to_nat base) (active hs) = segment hs ctx -> Z.to_nat (hs_depth hs - base) = length (segment hs ctx) ->
  ~ overflowing hs -> ~ same_instance hs instance -> ~ same_class hs c ctx trylock ->
  exists v f sc, check_usage_order hs c ctx irqsOn trylock base g = Some (v, f, with_scratch sc g) /\
    scratch_ok sc /\ acquire_verdict g hs instance c ctx irqsOn trylock v f.
Proof.
  intros G S Hc Hb Hd Hn Ho Hi Hs. assert (Hg : g = with_scratch (g_scratch g) g) by (by destruct g).
  destruct (class_get g c G Hc) as (cls & Hcls & _). unfold check_usage_order. rewrite Hcls, Hn. cbn [mbind option_bind].
  assert (Hirq : irq_conflict g c ctx irqsOn <->
      negb (ctx =? 0) && has_bit (cl_usageMask cls) LOCKDEP_USAGE_IRQS_ON = true \/
      (ctx =? 0) && irqsOn && has_bit (cl_usageMask cls) LOCKDEP_USAGE_IN_HARDIRQ = true).
  { unfold irq_conflict. rewrite !(used_spec g c cls) by assumption.
    rewrite !andb_true_iff, negb_true_iff, Z.eqb_neq, Z.eqb_eq. tauto. }
  destruct (negb (ctx =? 0) && _).
  { eexists _, _, (g_scratch g). rewrite <- Hg. split; [reflexivity|]. split; [apply G|]. apply av_irq; try assumption; [|reflexivity]. tauto. }
  destruct ((ctx =? 0) && irqsOn && _).
  { eexists _, _, (g_scratch g). rewrite <- Hg. split; [reflexivity|]. split; [apply G|]. apply av_irq; try assumption; [|reflexivity]. tauto. }
  assert (Hq : ~ irq_conflict g c ctx irqsOn) by (rewrite Hirq; intros [|]; discriminate).
  destruct trylock.
  { eexists _, _, (g_scratch g). rewrite <- Hg. split; [reflexivity|]. split; [apply G|]. apply av_ok; try assumption. by intros [[=] _]. }
  destruct (inversion_scan_spec (hs_held hs) c (segment hs ctx) base g G) as (f & sc & -> & Hsc & Hf).
  - by eapply registered_id.
  - rewrite Forall_forall. intros h Hh. apply segment_in in Hh as [Hh _].
    pose proof (so_ids g hs S) as Hids. rewrite Forall_forall in Hids. by apply Hids.
  - by apply window_drop.
  - cbn [mbind option_bind]. destruct f as [f|]; eexists _, _, sc; (split; [reflexivity|]); (split; [assumption|]).
    + apply av_inversion with base; try assumption. destruct Hf as (k & h & path & Hk & _ & _ & _ & _ & _ & _ & _ & Hr).
      split; [reflexivity|]. exists h. split; [by eapply list_elem_of_lookup_2|assumption].
    + apply av_ok; try assumption. intros (_ & h & Hh & Hr). apply (Hf h Hh); [|assumption].
      intros He. apply Hs. split; [reflexivity|]. by exists h.
Qed.

Lemma class_scan_spec hs c ctx (trylock : bool) b :
  0 <= b -> drop (Z.to_nat b) (active hs) = segment hs ctx -> Z.to_nat (hs_depth hs - b) = length (segment hs ctx) ->
  exists r, (if trylock then Some None
             else held_scan (Z.to_nat (hs_depth hs - b)) (fun h => h_classId h =? c) b (hs_held hs)) = Some r /\
    (is_Some r <-> same_class hs c ctx trylock).
Proof.
  intros Hb Hd Hn. destruct trylock; [exists None; split; [reflexivity|]; split; [by intros [? [=]]|by intros [[=] _]]|].
  destruct (held_scan_spec (fun h => h_classId h =? c) (hs_held hs) (segment hs ctx) b) as (r & E & H).
  { by apply window_drop. }
  exists r. rewrite Hn. split; [exact E|]. destruct r as [i|].
  - destruct H as (k & h & _ & Hk & Hi). bprop. split; [|eauto]. split; [reflexivity|]. exists h.
    split; [by eapply list_elem_of_lookup_2|assumption].
  - split; [by intros [? [=]]|]. intros (_ & h & Hh & He). specialize (H h Hh). simpl in H. bprop. contradiction.
Qed.

Lemma lockdepCoreCheckAcquire_spec g hs instance c ctx irqsOn trylock :
  graph_ok g -> stack_ok g hs -> registered g c ->
  exists v f sc, lockdepCoreCheckAcquire hs instance c ctx irqsOn trylock g = Some (v, f, with_scratch sc g) /\
    scratch_ok sc /\ acquire_verdict g hs instance c ctx irqsOn trylock v f.
Proof.
  intros G S Hc. assert (Hg : g = with_scratch (g_scratch g) g) by (by destruct g).
  pose proof (so_depth g hs S) as Hdep. unfold lockdepCoreCheckAcquire, LOCKDEP_MAX_HELD. cbv zeta.
  destruct (Z.leb_spec 16 (hs_depth hs)) as [Ho|Ho].
  { eexists _, _, (g_scratch g). rewrite <- Hg. split; [reflexivity|]. split; [apply G|].
    constructor; [unfold overflowing; lia|reflexivity]. }
  assert (Hno : ~ overflowing hs) by (unfold overflowing; lia).
  rewrite <- (active_length g hs S).
  destruct (held_scan_spec (fun h => h_instance h =? instance) (hs_held hs) (active hs) 0) as (r1 & -> & H1).
  { by apply window_drop. }
  cbn [mbind option_bind]. destruct r1 as [j|].
  { destruct H1 as (k & h & -> & Hk & Hi). bprop. eexists _, _, (g_scratch g). rewrite <- Hg. split; [reflexivity|].
    split; [apply G|]. by apply av_instance with k h. }
  assert (Hns : ~ same_instance hs instance).
  { intros (h & Hh & Hi). specialize (H1 h Hh). simpl in H1. bprop. contradiction. }
  destruct (segmentBase_spec g hs ctx S) as (b & -> & Hb & Hd & Hn). cbn [mbind option_bind].
  destruct (class_scan_spec hs c ctx trylock b ltac:(lia) Hd Hn) as (r & -> & Hr). cbn [mbind option_bind].
  destruct r as [i|].
  { eexists _, _, (g_scratch g). rewrite <- Hg. split; [reflexivity|]. split; [apply G|]. by apply av_class with i; [..|apply Hr; eauto|]. }
  apply check_usage_order_spec; try (assumption || lia). rewrite <- Hr. by intros [? [=]].
Qed.

(** ** Committing an acquire *)

Lemma adjSet_spec g h c :
  adj_ok (g_adj g) -> id_ok h -> id_ok c ->
  exists adj, adjSet g h c = Some (mkGraph (g_classCount g) (g_edgeCount g) (g_classes g) adj (g_edges g) (g_scratch g)) /\
    adj_ok adj /\ forall a b, arc adj a b <-> arc (g_adj g) a b \/ (a = h /\ b = c).
Proof.
  intros Ha Hh Hc. destruct (adj_row _ _ Ha Hh) as (row & Hr & Hro). destruct (id_split c Hc) as [Hw Hm].
  destruct (row_get row _ Hro Hw) as (v & Hv & _). destruct (row_set row _ _ v Hro Hw Hm Hv) as [Hro' Hset].
  pose proof (aget_bound _ _ _ Hr) as Hbd. pose proof Ha as [Hlen Hrows].
  unfold adjSet. rewrite Hr. cbn [mbind option_bind]. rewrite Hv. cbn [mbind option_bind].
  rewrite (aset_Some row) by (rewrite row_zlen by assumption; lia). cbn [mbind option_bind].
  rewrite aset_Some by assumption. cbn [mbind option_bind]. eexists. split; [reflexivity|]. split.
  { split; [by rewrite length_insert|]. by apply Forall_insert. }
  assert (Hsplit : (c - 1) / 64 * 64 + (c - 1) mod 64 + 1 = c) by dlia. rewrite Hsplit in Hset.
  intros a b. unfold arc. rewrite aget_insert by assumption. destruct (Z.eqb_spec (a - 1) (h - 1)) as [He|Hne].
  - assert (a = h) as -> by lia. rewrite Hr. split.
    + intros (Hb & row' & [= <-] & Hbit). rewrite Hset in Hbit. apply orb_true_iff in Hbit as [Hbit|He'%Z.eqb_eq]; [left|by right].
      split; [assumption|]. by exists row.
    + intros [(Hb & row' & [= <-] & Hbit)|[_ ->]]; (split; [assumption|]); eexists; (split; [reflexivity|]); rewrite Hset.
      * by rewrite Hbit.
      * by rewrite Z.eqb_refl, orb_true_r.
  - split; [by left|]. intros [H|[-> _]]; [assumption|lia].
Qed.

Lemma mask_mark m u : is_u8 m -> 0 <= u < 2 ->
  is_u8 (u8 (m .| (1 <<! u))) /\
  forall k, 0 <= k < 2 -> has_bit (u8 (m .| (1 <<! u))) k = has_bit m k || (k =? u).
Proof.
  intros Hm Hu. split; [apply u8_range|]. intros k Hk.
  assert (Hb : forall x j, 0 <= j < 2 -> has_bit x j = Z.testbit x j).
  { intros x j Hj. unfold has_bit. rewrite shl1_u64 by lia. rewrite <- (Z.shiftl_1_l j).
    rewrite <- (shiftr_odd x j) by lia. f_equal.
    replace (x .& Z.shiftl 1 j) with (Z.shiftl ((x >>! j) .& 1) j).
    - rewrite Z.shiftl_mul_pow2 by lia. assert (0 < 2 ^ j) by (apply Z.pow_pos_nonneg; lia).
      destruct (Z.eqb_spec ((x >>! j) .& 1) 0) as [->|Hne]; [reflexivity|]. apply Z.eqb_neq. nia.
    - apply Z.bits_inj'. intros n Hn. rewrite Z.land_spec, !Z.shiftl_spec by lia.
      destruct (Z.ltb_spec n j); [by rewrite !(Z.testbit_neg_r _ (n - j)), andb_false_r by lia|].
      rewrite Z.land_spec, Z.shiftr_spec by lia. by replace (n - j + j) with n by lia. }
  rewrite !Hb by assumption. unfold u8. rewrite Z.testbit_mod_pow2 by lia.
  rewrite (proj2 (Z.ltb_lt k 8)) by lia. simpl andb. rewrite Z.lor_spec, shl1_u64, testbit_pow by lia. reflexivity.
Qed.

Lemma fmap_take_insert {A B} (f : A -> B) (l : list A) n i y x :
  l !! i = Some x -> f y = f x -> f <$> take n (<[i := y]> l) = f <$> take n l.
Proof.
  intros Hx Hy. rewrite !fmap_take. f_equal. rewrite list_fmap_insert. apply list_insert_id.
  rewrite list_lookup_fmap, Hx, Hy. reflexivity.
Qed.

Lemma markUsage_spec g c u cap :
  graph_ok g -> registered g c -> 0 <= u < 2 ->
  exists cs, markUsage c u cap g = Some (with_classes cs g) /\ graph_ok (with_classes cs g) /\
    forall x k, 0 <= k < 2 -> used (with_classes cs g) x k <-> used g x k \/ (x = c /\ k = u).
Proof.
  intros G Hc Hu. destruct (class_get g c G Hc) as (cls & Hcls & [Ht Hm]). unfold markUsage. rewrite Hcls. cbn [mbind option_bind].
  destruct (has_bit (cl_usageMask cls) u) eqn:Hb.
  { exists (g_classes g). assert (Hg : with_classes (g_classes g) g = g) by (by destruct g). rewrite Hg.
    split; [reflexivity|]. split; [assumption|]. intros x k Hk. split; [by left|]. intros [H|[-> ->]]; [assumption|].
    by exists cls. }
  destruct (aget_Some (cl_usageTrace cls) u) as (t & -> & _); [unfold zlen; lia|]. cbn [mbind option_bind].
  rewrite aset_Some by (unfold zlen; lia). cbn [mbind option_bind].
  pose proof (aget_bound _ _ _ Hcls) as Hbd. rewrite aset_Some by assumption. cbn [mbind option_bind].
  destruct (mask_mark (cl_usageMask cls) u Hm Hu) as [Hm' Hbits].
  eexists. split; [reflexivity|]. split.
  - destruct (go_classes g G) as [Hl Hf].
    split; try apply G; unfold with_classes; cbn [g_classes g_classCount].
    + split; [by rewrite length_insert|]. apply Forall_insert; [assumption|]. split; simpl; [by rewrite length_insert|assumption].
    + rewrite (fmap_take_insert cl_key _ _ _ _ cls); [apply G|apply aget_lookup in Hcls as [_ Hcls]; assumption|reflexivity].
    + rewrite (fmap_take_insert cl_name _ _ _ _ cls); [apply G|apply aget_lookup in Hcls as [_ Hcls]; assumption|reflexivity].
  - intros x k Hk. unfold used, with_classes. cbn [g_classes]. rewrite aget_insert by assumption.
    destruct (Z.eqb_spec (x - 1) (c - 1)) as [He|Hne].
    + assert (x = c) as -> by lia. split.
      * intros (cls' & [= <-] & H). simpl in H. rewrite Hbits in H by assumption.
        apply orb_true_iff in H as [H|He'%Z.eqb_eq]; [left; by exists cls|by right].
      * intros [(cls' & Hcls' & H)|[_ ->]]; eexists; (split; [reflexivity|]); simpl; rewrite Hbits by assumption.
        -- assert (cls' = cls) as -> by congruence. by rewrite H.
        -- by rewrite Z.eqb_refl, orb_true_r.
    + split; [by left|]. intros [H|[-> _]]; [assumption|lia].
Qed.

(** [g'] is [g] with more arcs, all of them into [c]. *)
Record extends (g g' : LockdepGraph) (c : Z) (froms : list Z) : Prop := {
  ex_count : g_classCount g' = g_classCount g;
  ex_classes : g_classes g' = g_classes g;
  ex_old : forall a b, arc (g_adj g) a b -> arc (g_adj g') a b;
  ex_new : forall a b, arc (g_adj g') a b -> arc (g_adj g) a b \/ (b = c /\ a ∈ froms)
}.

Lemma add_edge_spec g h c e old :
  graph_ok g -> registered g h -> registered g c -> ~ rtc (arc (g_adj g)) c h -> ~ arc (g_adj g) h c ->
  g_edgeCount g <> 512 -> e_from e = h -> e_to e = c -> aget (g_edges g) (g_edgeCount g) = Some old ->
  exists g', (es ← aset (g_edges g) (g_edgeCount g) e;
     adjSet (mkGraph (g_classCount g) (u32 (g_edgeCount g + 1)) (g_classes g) (g_adj g) es (g_scratch g)) h c) = Some g' /\
    graph_ok g' /\ extends g g' c [h] /\ arc (g_adj g') h c.
Proof.
  intros G Hh Hc Hno Hna Hne Hf Ht Hold. pose proof (go_edgeCount g G) as Hec. pose proof (go_edges g G) as Hel.
  rewrite aset_Some by (unfold zlen; lia). cbn [mbind option_bind]. rewrite u32_small by (words; lia).
  set (es := <[Z.to_nat (g_edgeCount g) := e]> (g_edges g)).
  destruct (adjSet_spec (mkGraph (g_classCount g) (g_edgeCount g + 1) (g_classes g) (g_adj g) es (g_scratch g)) h c)
    as (adj & -> & Hadj & Harc); [apply G|by eapply registered_id..|]. cbn [g_adj g_classCount g_edgeCount g_classes g_edges g_scratch] in *.
  eexists. split; [reflexivity|].
  set (g' := mkGraph _ _ _ _ _ _).
  assert (Hp : edge_pairs g' = edge_pairs g ++ [(h, c)]).
  { unfold edge_pairs, g', es. cbn [g_edgeCount g_edges]. replace (Z.to_nat (g_edgeCount g + 1)) with (S (Z.to_nat (g_edgeCount g))) by lia.
    rewrite (take_S_r _ _ e) by (apply list_lookup_insert_eq; lia). rewrite take_insert_ge by lia.
    rewrite fmap_app, <- Hf, <- Ht. reflexivity. }
  split; [|split].
  - split; unfold g'; cbn [g_adj g_classCount g_edgeCount g_classes g_edges g_scratch]; try apply G; try assumption.
    + intros a b [H|[-> ->]]%Harc; [by apply (go_ids g G)|split; assumption].
    + unfold es. by rewrite length_insert.
    + lia.
    + intros a b. fold g'. rewrite Hp, elem_of_snoc, <- (go_pairs g G), Harc. split; intros [H|H]; auto; right.
      * destruct H as [-> ->]. reflexivity.
      * by simplify_eq.
    + fold g'. rewrite Hp. apply NoDup_app. split; [apply G|]. split; [|apply NoDup_singleton].
      intros p Hp1 ->%list_elem_of_singleton. by apply Hna, (go_pairs g G).
    + apply (acyclic_after (arc (g_adj g)) _ h c); [|assumption|apply G]. intros x y. apply Harc.
  - split; try reflexivity; unfold g'; cbn [g_adj].
    + intros a b H. apply Harc. by left.
    + intros a b [H|[-> ->]]%Harc; [by left|right]. split; [reflexivity|]. apply list_elem_of_here.
  - apply Harc. by right.
Qed.

Lemma extends_trans g1 g2 g3 c l1 l2 :
  extends g1 g2 c l1 -> extends g2 g3 c l2 -> extends g1 g3 c (l1 ++ l2).
Proof.
  intros A B. split.
  - rewrite (ex_count _ _ _ _ B). apply A.
  - rewrite (ex_classes _ _ _ _ B). apply A.
  - intros a b H. apply B. by apply A.
  - intros a b H. apply (ex_new _ _ _ _ B) in H as [H|[-> H]]; [apply (ex_new _ _ _ _ A) in H as [H|[-> H]]|].
    + by left.
    + right. split; [reflexivity|]. apply elem_of_app. by left.
    + right. split; [reflexivity|]. apply elem_of_app. by right.
Qed.

Lemma extends_refl g c : extends g g c [].
Proof. split; auto. Qed.

Lemma extends_mono g g' c l k : extends g g' c l -> l ⊆ k -> extends g g' c k.
Proof.
  intros E H. split; try apply E. intros a b Hab. apply (ex_new _ _ _ _ E) in Hab as [|[-> ?]]; [by left|right; auto].
Qed.

(** New arcs into [c] open no path out of [c]. *)
Lemma extends_reach g g' c l z :
  extends g g' c l -> (forall h, h ∈ l -> ~ rtc (arc (g_adj g)) c h) ->
  rtc (arc (g_adj g')) c z -> rtc (arc (g_adj g)) c z.
Proof.
  intros E Hl. apply (rtc_ind_r (fun z => rtc (arc (g_adj g)) c z) c); [apply rtc_refl|]. intros y w _ Hyw IH.
  apply (ex_new _ _ _ _ E) in Hyw as [H|[-> H]]; [by apply rtc_r with y|]. by destruct (Hl y H).
Qed.

Lemma extends_registered g g' c l x : extends g g' c l -> registered g x <-> registered g' x.
Proof. intros E. unfold registered. by rewrite (ex_count _ _ _ _ E). Qed.

(** The classes of [l] other than [c]. *)
Definition others (c : Z) (l : list LockdepHeld) : list Z := filter (fun x => x <> c) (h_classId <$> l).

Lemma elem_of_others c l x : x ∈ others c l <-> x <> c /\ exists h, h ∈ l /\ h_classId h = x.
Proof.
  unfold others. rewrite list_elem_of_filter, list_elem_of_fmap. split; intros [H (h & H1 & H2)]; split; auto; exists h; auto.
Qed.

Lemma others_cons_eq c x l : h_classId x = c -> others c (x :: l) = others c l.
Proof. intros H. unfold others. rewrite fmap_cons, filter_cons_False; [reflexivity|]. by intros []. Qed.
Lemma others_cons_ne c x l : h_classId x <> c -> others c (x :: l) = h_classId x :: others c l.
Proof. intros H. unfold others. by rewrite fmap_cons, filter_cons_True. Qed.

Lemma add_edges_spec held c cap l : forall i g result,
  graph_ok g -> registered g c -> Forall (fun h => registered g (h_classId h)) l -> window held i l ->
  (forall x, x ∈ others c l -> ~ rtc (arc (g_adj g)) c x) -> result = LOCKDEP_OK \/ result = LOCKDEP_FULL ->
  exists r g', add_edges (length l) held c i cap result g = Some (r, g') /\ graph_ok g' /\ extends g g' c (others c l) /\
    (r = LOCKDEP_FULL \/ (r = LOCKDEP_OK /\ result = LOCKDEP_OK /\ forall x, x ∈ others c l -> arc (g_adj g') x c)).
Proof.
  induction l as [|x l IH]; intros i g result G Hc Hf W Hno Hres; cbn [length add_edges].
  { exists result, g. split; [reflexivity|]. split; [assumption|]. split; [apply extends_refl|].
    destruct Hres; [right|by left]. split_and!; try assumption. by intros y ?%elem_of_nil. }
  apply window_cons in W as [-> W]. apply Forall_cons_1 in Hf as [Hx Hf]. cbn [mbind option_bind]. cbv zeta.
  destruct (Z.eqb_spec (h_classId x) c) as [He|Hne]; cbn [mbind option_bind].
  { rewrite others_cons_eq in * by assumption. by apply IH. }
  rewrite others_cons_ne in * by assumption.
  destruct (adjTest_spec g (h_classId x) c (go_adj g G)) as (v & -> & Hv); [by eapply registered_id..|]. cbn [mbind option_bind].
  assert (Htl : forall y, y ∈ others c l -> ~ rtc (arc (g_adj g)) c y) by (intros y Hy; apply Hno; by right).
  destruct v.
  { destruct (IH (i + 1) g result G Hc Hf W Htl Hres) as (r & g' & -> & G' & E & Hr). exists r, g'.
    split; [reflexivity|]. split; [assumption|]. split; [eapply extends_mono; [exact E|intros y Hy; by apply list_elem_of_further]|].
    destruct Hr as [|(H1 & H2 & H3)]; [by left|right]. split_and!; try assumption.
    intros y [->|Hy]%elem_of_cons; [|by apply H3]. apply E. by apply Hv. }
  unfold LOCKDEP_MAX_EDGES. destruct (Z.eqb_spec (g_edgeCount g) 512) as [Hfull|Hnf].
  { destruct (IH (i + 1) g LOCKDEP_FULL G Hc Hf W Htl) as (r & g' & -> & G' & E & Hr); [by right|]. exists r, g'.
    split; [reflexivity|]. split; [assumption|]. split; [eapply extends_mono; [exact E|intros y Hy; by apply list_elem_of_further]|]. left.
    by destruct Hr as [|(_ & [=] & _)]. }
  pose proof (go_edgeCount g G) as Hec. pose proof (go_edges g G) as Hel.
  destruct (aget_Some (g_edges g) (g_edgeCount g)) as (old & Hold & _); [unfold zlen; lia|]. rewrite Hold. cbn [mbind option_bind].
  set (e := mkEdge _ _ _).
  destruct (add_edge_spec g (h_classId x) c e old G Hx Hc) as (g1 & E1 & G1 & X1 & A1); try assumption; try reflexivity.
  { apply Hno. apply list_elem_of_here. }
  { intros H. apply Hv in H. discriminate. }
  rewrite aset_Some in E1 |- * by (unfold zlen; lia). cbn [mbind option_bind] in E1 |- *. rewrite E1. cbn [mbind option_bind].
  destruct (IH (i + 1) g1 result G1) as (r & g' & -> & G' & E & Hr).
  - by apply (extends_registered _ _ _ _ _ X1).
  - eapply Forall_impl; [exact Hf|]. intros h. apply (extends_registered _ _ _ _ _ X1).
  - assumption.
  - intros y Hy Hr. apply (Htl y Hy). eapply extends_reach; [exact X1| |exact Hr].
    intros h ->%list_elem_of_singleton. apply Hno, list_elem_of_here.
  - assumption.
  - exists r, g'. split; [reflexivity|]. split; [assumption|]. split; [apply (extends_trans _ _ _ _ _ _ X1 E)|].
    destruct Hr as [|(H1 & H2 & H3)]; [by left|right]. split_and!; try assumption.
    intros y [->|Hy]%elem_of_cons; [by apply E|by apply H3].
Qed.

(** Pushing a held lock. *)
Lemma push_held g hs h :
  stack_ok g hs -> registered g (h_classId h) ->
  exists hs', (if hs_depth hs <? LOCKDEP_MAX_HELD then
      held ← aset (hs_held hs) (hs_depth hs) h; Some (mkStack held (u32 (hs_depth hs + 1)))
    else Some hs) = Some hs' /\ stack_ok g hs' /\
    active hs' = if hs_depth hs <? 16 then active hs ++ [h] else active hs.
Proof.
  intros K Hh. pose proof (so_depth g hs K) as Hd. pose proof (so_held g hs K) as Hl. unfold LOCKDEP_MAX_HELD.
  destruct (Z.ltb_spec (hs_depth hs) 16); [|by exists hs].
  rewrite aset_Some by (unfold zlen; lia). cbn [mbind option_bind]. rewrite u32_small by (words; lia).
  eexists. split; [reflexivity|].
  assert (Ha : active (mkStack (<[Z.to_nat (hs_depth hs):=h]> (hs_held hs)) (hs_depth hs + 1)) = active hs ++ [h]).
  { unfold active. cbn [hs_depth hs_held]. replace (Z.to_nat (hs_depth hs + 1)) with (S (Z.to_nat (hs_depth hs))) by lia.
    rewrite (take_S_r _ _ h) by (apply list_lookup_insert_eq; lia). by rewrite take_insert_ge by lia. }
  split; [|exact Ha]. split.
  - cbn [hs_depth]. lia.
  - cbn [hs_held]. by rewrite length_insert.
  - rewrite Ha. apply Forall_app. split; [apply K|by apply Forall_singleton].
Qed.

(** The class state after the usage of an acquire is recorded. *)
Definition usage_after (g g' : LockdepGraph) (c ctx : Z) (irqsOn : bool) : Prop :=
  forall x k, 0 <= k < 2 -> used g' x k <-> used g x k \/
    (x = c /\ ((k = LOCKDEP_USAGE_IN_HARDIRQ /\ ctx <> 0) \/ (k = LOCKDEP_USAGE_IRQS_ON /\ ctx = 0 /\ irqsOn = true))).

Lemma mark_acquire_spec g c ctx (irqsOn : bool) cap :
  graph_ok g -> registered g c ->
  exists cs, (if negb (ctx =? 0) then markUsage c LOCKDEP_USAGE_IN_HARDIRQ cap g
       else if irqsOn then markUsage c LOCKDEP_USAGE_IRQS_ON cap g else Some g) = Some (with_classes cs g) /\
    graph_ok (with_classes cs g) /\ usage_after g (with_classes cs g) c ctx irqsOn.
Proof.
  intros G Hc. unfold usage_after. destruct (Z.eqb_spec ctx 0) as [->|Hz]; simpl negb; [destruct irqsOn|].
  - destruct (markUsage_spec g c LOCKDEP_USAGE_IRQS_ON cap G Hc ltac:(unfold LOCKDEP_USAGE_IRQS_ON; lia)) as (cs & -> & G' & Hu).
    exists cs. split; [reflexivity|]. split; [assumption|]. intros x k Hk. rewrite Hu by assumption. intuition congruence.
  - exists (g_classes g). assert (Hg : with_classes (g_classes g) g = g) by (by destruct g). rewrite Hg.
    split; [reflexivity|]. split; [assumption|]. intros x k Hk. intuition congruence.
  - destruct (markUsage_spec g c LOCKDEP_USAGE_IN_HARDIRQ cap G Hc ltac:(unfold LOCKDEP_USAGE_IN_HARDIRQ; lia)) as (cs & -> & G' & Hu).
    exists cs. split; [reflexivity|]. split; [assumption|]. intros x k Hk. rewrite Hu by assumption. intuition congruence.
Qed.

Lemma stack_ok_count g g' hs : g_classCount g' = g_classCount g -> stack_ok g hs -> stack_ok g' hs.
Proof. intros H K. split; try apply K. eapply Forall_impl; [apply K|]. intros h. unfold registered. by rewrite H. Qed.

Lemma segment_registered g hs ctx : stack_ok g hs -> Forall (fun h => registered g (h_classId h)) (segment hs ctx).
Proof.
  intros K. rewrite Forall_forall. intros h Hh. apply segment_in in Hh as [Hh _].
  pose proof (so_ids g hs K) as Hids. rewrite Forall_forall in Hids. by apply Hids.
Qed.

(** What committing an acquire of [c] does to the graph. *)
Record acquired (g g' : LockdepGraph) (hs hs' : LockdepHeldStack) (h : LockdepHeld) (r : LockdepVerdict) (edges : bool) : Prop := {
  aq_graph : graph_ok g';
  aq_stack : stack_ok g' hs';
  aq_count : g_classCount g' = g_classCount g;
  aq_active : active hs' = if hs_depth hs <? 16 then active hs ++ [h] else active hs;
  aq_usage : usage_after g g' (h_classId h) (h_irqCtx h) (h_irqsOn h);
  aq_old : forall a b, arc (g_adj g) a b -> arc (g_adj g') a b;
  aq_new : forall a b, arc (g_adj g') a b ->
    arc (g_adj g) a b \/ (edges = true /\ b = h_classId h /\ a ∈ others (h_classId h) (segment hs (h_irqCtx h)));
  aq_edges : r = LOCKDEP_FULL \/
    (r = LOCKDEP_OK /\ (edges = true -> forall x, x ∈ others (h_classId h) (segment hs (h_irqCtx h)) ->
       arc (g_adj g') x (h_classId h)))
}.

Lemma lockdepCoreCommitAcquire_spec g hs instance c ctx irqsOn trylock addEdges ip cap :
  graph_ok g -> stack_ok g hs -> registered g c ->
  (trylock = false -> addEdges = true -> forall x, x ∈ others c (segment hs ctx) -> ~ rtc (arc (g_adj g)) c x) ->
  exists r hs' g', lockdepCoreCommitAcquire hs instance c ctx irqsOn trylock addEdges ip cap g = Some (r, hs', g') /\
    acquired g g' hs hs' (mkHeld instance c ctx trylock irqsOn ip) r (negb trylock && addEdges).
Proof.
  intros G K Hc Hno. unfold lockdepCoreCommitAcquire. destruct (class_get g c G Hc) as (cls & -> & _). cbn [mbind option_bind].
  destruct (mark_acquire_spec g c ctx irqsOn cap G Hc) as (cs & -> & G1 & Hu). cbn [mbind option_bind].
  set (h := mkHeld instance c ctx trylock irqsOn ip).
  assert (Hedges : exists r g',
     (if negb trylock && addEdges then
        base ← segmentBase hs ctx;
        add_edges (Z.to_nat (hs_depth hs - base)) (hs_held hs) c base cap LOCKDEP_OK (with_classes cs g)
      else Some (LOCKDEP_OK, with_classes cs g)) = Some (r, g') /\ graph_ok g' /\
     extends (with_classes cs g) g' c (if negb trylock && addEdges then others c (segment hs ctx) else []) /\
     (r = LOCKDEP_FULL \/ (r = LOCKDEP_OK /\ (negb trylock && addEdges = true -> forall x, x ∈ others c (segment hs ctx) -> arc (g_adj g') x c)))).
  { destruct (negb trylock && addEdges) eqn:Ee.
    - apply andb_true_iff in Ee as [Ht Ha]. apply negb_true_iff in Ht.
      destruct (segmentBase_spec g hs ctx K) as (b & -> & Hb & Hd & Hn). cbn [mbind option_bind]. rewrite Hn.
      destruct (add_edges_spec (hs_held hs) c cap (segment hs ctx) b (with_classes cs g) LOCKDEP_OK G1 Hc
        (segment_registered g hs ctx K)) as (r & g' & -> & G' & E & Hr); [apply window_drop; [lia|assumption]|by apply Hno|by left|].
      exists r, g'. split; [reflexivity|]. split; [assumption|]. split; [assumption|].
      destruct Hr as [|(H1 & _ & H2)]; [by left|right]. by split.
    - eexists _, _. split; [reflexivity|]. split; [assumption|]. split; [apply extends_refl|]. right. by split. }
  destruct Hedges as (r & g' & -> & G' & E & Hr). cbn [mbind option_bind].
  assert (K' : stack_ok g' hs) by (apply (stack_ok_count g); [apply (ex_count _ _ _ _ E)|assumption]).
  destruct (push_held g' hs h K') as (hs' & Hp & K'' & Hact); [by apply (extends_registered _ _ _ _ _ E)|].
  exists r, hs', g'. split.
  { destruct (hs_depth hs <? LOCKDEP_MAX_HELD); [|by simplify_eq].
    destruct (aset (hs_held hs) (hs_depth hs) h); [|discriminate]. cbn [mbind option_bind] in *. by simplify_eq. }
  split; try assumption.
  - rewrite (ex_count _ _ _ _ E). reflexivity.
  - intros x k Hk. unfold used. rewrite (ex_classes _ _ _ _ E). by apply Hu.
  - apply E.
  - intros a b H. apply (ex_new _ _ _ _ E) in H as [H|[-> H]]; [by left|right].
    destruct (negb trylock && addEdges); [by split|by apply elem_of_nil in H].
Qed.

(** ** Releasing *)

Lemma held_find_spec held inst n :
  (n <= length held)%nat ->
  exists r, held_find n held inst = Some r /\
    ((r = -1 /\ forall h, h ∈ take n held -> h_instance h <> inst) \/
     exists i h, r = Z.of_nat i /\ (i < n)%nat /\ held !! i = Some h /\ h_instance h = inst /\
       forall j h', (i < j < n)%nat -> held !! j = Some h' -> h_instance h' <> inst).
Proof.
  induction n as [|m IH]; intros Hn; cbn [held_find].
  { exists (-1). split; [reflexivity|]. left. split; [reflexivity|]. by intros h ?%elem_of_nil. }
  destruct (lookup_lt_is_Some_2 held m ltac:(lia)) as [h Hh].
  assert (Hg : aget held (Z.of_nat m) = Some h) by (apply aget_lookup; rewrite Nat2Z.id; split; [lia|assumption]).
  rewrite Hg. cbn [mbind option_bind]. destruct (Z.eqb_spec (h_instance h) inst) as [He|Hne].
  - eexists. split; [reflexivity|]. right. exists m, h. split_and!; [reflexivity|lia|assumption..|]. intros j h' Hj. lia.
  - destruct (IH ltac:(lia)) as (r & -> & Hr). exists r. split; [reflexivity|]. destruct Hr as [[-> Hr]|(i & x & -> & Hi & Hx & He & Ha)].
    + left. split; [reflexivity|]. intros y. rewrite (take_S_r _ _ _ Hh), elem_of_snoc. intros [Hy| ->]; [by apply Hr|assumption].
    + right. exists i, x. split_and!; [reflexivity|lia|assumption..|]. intros j h' Hj Hl. destruct (decide (j = m)) as [->|]; [congruence|].
      apply (Ha j h'); [lia|assumption].
Qed.

Lemma shift_down_spec n : forall i held,
  (i + n < length held)%nat ->
  exists held', shift_down n (Z.of_nat i) held = Some held' /\ length held' = length held /\
    forall k, held' !! k = if decide (i <= k < i + n)%nat then held !! S k else held !! k.
Proof.
  induction n as [|n IH]; intros i held Hl; cbn [shift_down].
  { exists held. split; [reflexivity|]. split; [reflexivity|]. intros k. destruct (decide _); [lia|reflexivity]. }
  destruct (aget_Some held (Z.of_nat i + 1)) as (h & -> & Hh); [unfold zlen; lia|]. cbn [mbind option_bind].
  rewrite aset_Some by (unfold zlen; lia). cbn [mbind option_bind]. rewrite Nat2Z.id.
  replace (Z.of_nat i + 1) with (Z.of_nat (S i)) in * by lia. rewrite Nat2Z.id in Hh.
  destruct (IH (S i) (<[i := h]> held)) as (held' & -> & Hlen & Hk); [rewrite length_insert; lia|].
  exists held'. split; [reflexivity|]. rewrite length_insert in Hlen. split; [assumption|]. intros k. rewrite Hk.
  destruct (decide (S i <= k < S i + n)%nat), (decide (i <= k < i + S n)%nat); try lia.
  - by rewrite list_lookup_insert_ne by lia.
  - assert (k = i) as -> by lia. rewrite list_lookup_insert_eq by lia. by rewrite Hh.
  - by rewrite list_lookup_insert_ne by lia.
Qed.

(** Entry [i] is the topmost held entry of [inst]. *)
Definition topmost (hs : LockdepHeldStack) (inst : Z) (i : nat) (h : LockdepHeld) : Prop :=
  active hs !! i = Some h /\ h_instance h = inst /\
  forall j h', (i < j)%nat -> active hs !! j = Some h' -> h_instance h' <> inst.

Definition not_held (hs : LockdepHeldStack) (inst : Z) : Prop := forall h, h ∈ active hs -> h_instance h <> inst.

Lemma heldFind_spec g hs inst :
  stack_ok g hs ->
  exists r, heldFind hs inst = Some r /\
    ((r = -1 /\ not_held hs inst) \/ exists i h, r = Z.of_nat i /\ Z.of_nat i < hs_depth hs /\ topmost hs inst i h).
Proof.
  intros K. pose proof (so_depth g hs K) as Hd. pose proof (so_held g hs K) as Hl.
  destruct (held_find_spec (hs_held hs) inst (Z.to_nat (hs_depth hs)) ltac:(lia)) as (r & Hr & H).
  exists r. split; [exact Hr|]. destruct H as [H|(i & h & -> & Hi & Hh & He & Ht)]; [by left|right].
  exists i, h. split; [reflexivity|]. split; [lia|]. unfold topmost, active. split.
  - rewrite lookup_take. destruct (decide _); [assumption|lia].
  - split; [assumption|]. intros j h' Hj Hl'. apply lookup_take_Some in Hl' as [Hl' Hjn]. by apply (Ht j h').
Qed.

Lemma active_shift g hs i held' :
  stack_ok g hs -> Z.of_nat i < hs_depth hs ->
  shift_down (Z.to_nat (hs_depth hs - 1 - Z.of_nat i)) (Z.of_nat i) (hs_held hs) = Some held' ->
  length held' = 16%nat /\ active (mkStack held' (hs_depth hs - 1)) = delete i (active hs).
Proof.
  intros K Hi E. pose proof (so_depth g hs K) as Hd. pose proof (so_held g hs K) as Hl.
  destruct (shift_down_spec (Z.to_nat (hs_depth hs - 1 - Z.of_nat i)) i (hs_held hs) ltac:(lia)) as (k & E' & Hk & Hs).
  assert (k = held') as -> by congruence. split; [congruence|]. unfold active. cbn [hs_held hs_depth].
  apply list_eq. intros j. rewrite lookup_take, Hs.
  destruct (decide (j < Z.to_nat (hs_depth hs - 1))%nat).
  - destruct (decide (i <= j)%nat).
    + rewrite list_lookup_delete_ge, lookup_take by lia. destruct (decide (i <= j < _)%nat); [|lia]. destruct (decide _); [reflexivity|lia].
    + rewrite list_lookup_delete_lt, lookup_take by lia. destruct (decide (i <= j < _)%nat); [lia|]. destruct (decide _); [reflexivity|lia].
  - symmetry. apply lookup_ge_None. rewrite length_delete; [|apply lookup_lt_is_Some; rewrite length_take; lia].
    rewrite length_take. lia.
Qed.

Lemma lockdepCoreCommitRelease_spec g hs inst irqsOn cap :
  graph_ok g -> stack_ok g hs ->
  exists hs' g', lockdepCoreCommitRelease hs inst irqsOn cap g = Some (hs', g') /\ graph_ok g' /\ stack_ok g' hs' /\
    g_classCount g' = g_classCount g /\ g_adj g' = g_adj g /\
    ((not_held hs inst /\ hs' = hs /\ g' = g) \/
     exists i h, topmost hs inst i h /\ active hs' = delete i (active hs) /\
       forall x k, 0 <= k < 2 -> used g' x k <-> used g x k \/
         (x = h_classId h /\ k = LOCKDEP_USAGE_IRQS_ON /\ h_irqCtx h = 0 /\ irqsOn = true)).
Proof.
  intros G K. unfold lockdepCoreCommitRelease. destruct (heldFind_spec g hs inst K) as (r & -> & [[-> Hn]|(i & h & -> & Hi & Ht)]);
    cbn [mbind option_bind].
  { exists hs, g. split_and!; auto. }
  destruct (Z.ltb_spec (Z.of_nat i) 0); [lia|]. pose proof Ht as (Ha & _ & _). rewrite (active_get hs i h Ha). cbn [mbind option_bind].
  assert (Hreg : registered g (h_classId h)) by (pose proof (so_ids g hs K) as Hf; by apply (Forall_lookup_1 _ _ _ _ Hf Ha)).
  assert (Hm : exists cs, (if (h_irqCtx h =? 0) && irqsOn then markUsage (h_classId h) LOCKDEP_USAGE_IRQS_ON cap g else Some g)
      = Some (with_classes cs g) /\ graph_ok (with_classes cs g) /\
      forall x k, 0 <= k < 2 -> used (with_classes cs g) x k <-> used g x k \/
         (x = h_classId h /\ k = LOCKDEP_USAGE_IRQS_ON /\ h_irqCtx h = 0 /\ irqsOn = true)).
  { destruct (Z.eqb_spec (h_irqCtx h) 0) as [Hz|Hz]; [destruct irqsOn|]; simpl andb; cbv iota.
    1: destruct (markUsage_spec g (h_classId h) LOCKDEP_USAGE_IRQS_ON cap G Hreg ltac:(unfold LOCKDEP_USAGE_IRQS_ON; lia)) as (cs & -> & G' & Hu);
       exists cs; split_and!; [reflexivity|assumption|]; intros x k Hk; rewrite Hu by assumption; intuition congruence.
    all: exists (g_classes g); assert (Hg : with_classes (g_classes g) g = g) by (by destruct g); rewrite Hg;
       split_and!; [reflexivity|assumption|]; intros x k Hk; intuition congruence. }
  destruct Hm as (cs & -> & G' & Hu). cbn [mbind option_bind]. pose proof (so_depth g hs K). pose proof (so_held g hs K).
  destruct (shift_down_spec (Z.to_nat (hs_depth hs - 1 - Z.of_nat i)) i (hs_held hs) ltac:(lia)) as (held' & E & _ & _).
  rewrite E. cbn [mbind option_bind]. destruct (active_shift g hs i held' K Hi E) as [Hl Hact].
  rewrite u32_small by (words; lia). eexists _, _. split; [reflexivity|]. split; [assumption|]. split; [|split; [reflexivity|split; [reflexivity|]]].
  - split; [simpl; lia|assumption|]. rewrite Hact. apply Forall_delete. apply (so_ids g hs K).
  - right. exists i, h. auto.
Qed.

(** The verdict on a release. *)
Inductive release_verdict (g : LockdepGraph) (hs : LockdepHeldStack) (inst : Z) (irqsOn : bool) : LockdepVerdict -> Prop :=
| rv_not_held : not_held hs inst -> release_verdict g hs inst irqsOn LOCKDEP_REPORT_NOT_HELD
| rv_irq i h : topmost hs inst i h -> h_irqCtx h = 0 -> h_irqsOn h = false -> irqsOn = true ->
    used g (h_classId h) LOCKDEP_USAGE_IN_HARDIRQ -> release_verdict g hs inst irqsOn LOCKDEP_REPORT_IRQ_INCONSISTENT
| rv_ok i h : topmost hs inst i h ->
    ~ (h_irqCtx h = 0 /\ h_irqsOn h = false /\ irqsOn = true /\ used g (h_classId h) LOCKDEP_USAGE_IN_HARDIRQ) ->
    release_verdict g hs inst irqsOn LOCKDEP_OK.

Lemma lockdepCoreCheckRelease_spec g hs inst irqsOn :
  graph_ok g -> stack_ok g hs ->
  exists v f, lockdepCoreCheckRelease g hs inst irqsOn = Some (v, f) /\ release_verdict g hs inst irqsOn v /\
    (if decide (v = LOCKDEP_OK) then f = None else exists x, f = Some x /\ f_kind x = v).
Proof.
  intros G K. unfold lockdepCoreCheckRelease. destruct (heldFind_spec g hs inst K) as (r & -> & [[-> Hn]|(i & h & -> & Hi & Ht)]);
    cbn [mbind option_bind].
  { eexists _, _. split; [reflexivity|]. split; [by apply rv_not_held|]. simpl. eauto. }
  destruct (Z.ltb_spec (Z.of_nat i) 0); [lia|]. pose proof Ht as (Ha & _ & _). rewrite (active_get hs i h Ha). cbn [mbind option_bind].
  assert (Hreg : registered g (h_classId h)) by (pose proof (so_ids g hs K) as Hf; by apply (Forall_lookup_1 _ _ _ _ Hf Ha)).
  destruct (class_get g _ G Hreg) as (cls & Hcls & _). rewrite Hcls. pose proof (used_spec g _ cls LOCKDEP_USAGE_IN_HARDIRQ Hcls) as Hu.
  destruct ((h_irqCtx h =? 0) && negb (h_irqsOn h) && irqsOn) eqn:Hcond; cbn [mbind option_bind].
  - apply andb_true_iff in Hcond as [[H1%Z.eqb_eq H2%negb_true_iff]%andb_true_iff H3].
    destruct (has_bit (cl_usageMask cls) LOCKDEP_USAGE_IN_HARDIRQ); eexists _, _; (split; [reflexivity|]).
    + split; [|simpl; eauto]. apply rv_irq with i h; try assumption. by apply Hu.
    + split; [|reflexivity]. apply rv_ok with i h; [assumption|]. intros (_ & _ & _ & H4%Hu). discriminate.
  - eexists _, _. split; [reflexivity|]. split; [|reflexivity]. apply rv_ok with i h; [assumption|].
    intros (H1 & H2 & H3 & _). rewrite H1, H2, H3 in Hcond. discriminate.
Qed.

(** ** Registering classes *)

Lemma class_find_spec classes key n : forall i,
  0 <= i -> i + Z.of_nat n <= zlen classes ->
  exists r, class_find n i key classes = Some r /\
    match r with
    | Some id => exists k c, id = i + Z.of_nat k + 1 /\ (k < n)%nat /\ aget classes (i + Z.of_nat k) = Some c /\ cl_key c = key
    | None => forall k c, (k < n)%nat -> aget classes (i + Z.of_nat k) = Some c -> cl_key c <> key
    end.
Proof.
  induction n as [|n IH]; intros i Hi Hn; cbn [class_find].
  { exists None. split; [reflexivity|]. intros k c Hk. lia. }
  destruct (aget_Some classes i ltac:(lia)) as (c & Hc & _). rewrite Hc. cbn [mbind option_bind].
  destruct (Z.eqb_spec (cl_key c) key) as [He|Hne].
  - eexists. split; [reflexivity|]. exists 0%nat, c. rewrite Z.add_0_r. split_and!; [reflexivity|lia|assumption..].
  - destruct (IH (i + 1) ltac:(lia) ltac:(lia)) as (r & -> & Hr). exists r. split; [reflexivity|]. destruct r as [id|].
    + destruct Hr as (k & x & -> & Hk & Hx & He). exists (S k), x. replace (i + Z.of_nat (S k)) with (i + 1 + Z.of_nat k) by lia.
      split_and!; [reflexivity|lia|assumption..].
    + intros [|k] x Hk Hx; [rewrite Z.add_0_r in Hx; congruence|]. apply (Hr k x); [lia|].
      by replace (i + 1 + Z.of_nat k) with (i + Z.of_nat (S k)) by lia.
Qed.

(** The key of a registered class. *)
Definition key_of (g : LockdepGraph) (id : Z) : option Z :=
  if (1 <=? id) && (id <=? g_classCount g) then cl_key <$> aget (g_classes g) (id - 1) else None.

(** Finding or registering the class of [key]. *)
Inductive class_of (g : LockdepGraph) (key : Z) (name : option string) : LockdepVerdict -> option Z -> LockdepGraph -> Prop :=
| co_bad : key = 0 \/ name = None -> class_of g key name LOCKDEP_REPORT_BAD_INIT None g
| co_found id : key <> 0 -> name <> None -> key_of g id = Some key -> class_of g key name LOCKDEP_OK (Some id) g
| co_full : key <> 0 -> name <> None -> (forall id, key_of g id <> Some key) -> g_classCount g = 256 ->
    class_of g key name LOCKDEP_FULL None g
| co_new g' : key <> 0 -> name <> None -> (forall id, key_of g id <> Some key) ->
    g_classCount g' = g_classCount g + 1 -> g_adj g' = g_adj g -> key_of g' (g_classCount g') = Some key ->
    (forall id, id <> g_classCount g' -> key_of g' id = key_of g id) ->
    (forall k, ~ used g' (g_classCount g') k) ->
    class_of g key name LOCKDEP_OK (Some (g_classCount g')) g'.

Lemma new_class_ok g key name t :
  graph_ok g -> name <> None -> length t = 2%nat -> g_classCount g < 256 -> (forall id, key_of g id <> Some key) ->
  graph_ok (mkGraph (g_classCount g + 1) (g_edgeCount g) (<[Z.to_nat (g_classCount g) := mkClass key name 0 t]> (g_classes g))
    (g_adj g) (g_edges g) (g_scratch g)).
Proof.
  intros G Hname Ht Hc Hk. pose proof (go_count g G) as Hcnt. destruct (go_classes g G) as [Hl Hf].
  split; cbn [g_classCount g_classes g_adj g_edges g_edgeCount g_scratch]; try apply G.
  - lia.
  - split; [by rewrite length_insert|]. apply Forall_insert; [assumption|]. split; [exact Ht|]. simpl. words. lia.
  - replace (Z.to_nat (g_classCount g + 1)) with (S (Z.to_nat (g_classCount g))) by lia.
    rewrite (take_S_r _ _ (mkClass key name 0 t)) by (apply list_lookup_insert_eq; lia). rewrite take_insert_ge by lia.
    rewrite fmap_app. apply NoDup_app. split; [apply G|]. split; [|apply NoDup_singleton].
    intros x Hx ->%list_elem_of_singleton. simpl in Hx. apply list_elem_of_fmap in Hx as (c & He & Hin).
    apply list_elem_of_lookup in Hin as [i Hi]. apply lookup_take_Some in Hi as [Hi Hlt].
    apply (Hk (Z.of_nat i + 1)). unfold key_of. rewrite (proj2 (Z.leb_le 1 _)), (proj2 (Z.leb_le _ (g_classCount g))) by lia.
    simpl. replace (Z.of_nat i + 1 - 1) with (Z.of_nat i) by lia.
    assert (Hg : aget (g_classes g) (Z.of_nat i) = Some c) by (apply aget_lookup; rewrite Nat2Z.id; split; [lia|assumption]).
    rewrite Hg. simpl. congruence.
  - replace (Z.to_nat (g_classCount g + 1)) with (S (Z.to_nat (g_classCount g))) by lia.
    rewrite (take_S_r _ _ (mkClass key name 0 t)) by (apply list_lookup_insert_eq; lia). rewrite take_insert_ge by lia.
    rewrite fmap_app. apply Forall_app. split; [apply G|by apply Forall_singleton].
  - intros a b H. apply (go_ids g G) in H as [H1 H2]. unfold registered in *. cbn [g_classCount]. lia.
Qed.

Lemma new_class_of g key name t :
  graph_ok g -> g_classCount g < 256 -> key <> 0 -> name <> None -> (forall id, key_of g id <> Some key) ->
  class_of g key name LOCKDEP_OK (Some (g_classCount g + 1))
    (mkGraph (g_classCount g + 1) (g_edgeCount g) (<[Z.to_nat (g_classCount g) := mkClass key name 0 t]> (g_classes g))
      (g_adj g) (g_edges g) (g_scratch g)).
Proof.
  intros G Hlt Hk Hn Hfresh. pose proof (go_count g G) as Hcnt. destruct (go_classes g G) as [Hl _].
  apply (co_new g key name (mkGraph (g_classCount g + 1) _ _ _ _ _)); try assumption; try reflexivity; cbn [g_classCount].
  - unfold key_of. cbn [g_classCount g_classes]. rewrite (proj2 (Z.leb_le 1 _)), Z.leb_refl by lia. simpl andb. cbv iota.
    rewrite aget_insert by (unfold zlen; lia). replace (g_classCount g + 1 - 1) with (g_classCount g) by lia. by rewrite Z.eqb_refl.
  - intros id Hid. unfold key_of. cbn [g_classCount g_classes]. rewrite aget_insert by (unfold zlen; lia).
    replace (id <=? g_classCount g + 1) with (id <=? g_classCount g)
      by (destruct (Z.leb_spec id (g_classCount g)), (Z.leb_spec id (g_classCount g + 1)); lia || reflexivity).
    destruct (Z.eqb_spec (id - 1) (g_classCount g)); [lia|reflexivity].
  - intros k (cls & Hcls & Hb). cbn [g_classes] in Hcls. rewrite aget_insert in Hcls by (unfold zlen; lia).
    replace (g_classCount g + 1 - 1) with (g_classCount g) in Hcls by lia. rewrite Z.eqb_refl in Hcls. simplify_eq.
Qed.

Lemma lockdepCoreClassOf_spec g key name :
  graph_ok g ->
  exists v id g', lockdepCoreClassOf key name g = Some (v, id, g') /\ class_of g key name v id g' /\ graph_ok g' /\
    (forall hs, stack_ok g hs -> stack_ok g' hs) /\ (forall x, id = Some x -> registered g' x).
Proof.
  intros G. pose proof (go_count g G) as Hcnt. destruct (go_classes g G) as [Hl Hf].
  unfold lockdepCoreClassOf. destruct ((key =? 0) || bool_decide (name = None)) eqn:Hbad.
  { eexists _, _, g. split; [reflexivity|]. split; [|split; [assumption|split; [auto|by intros x [=]]]].
    apply co_bad. apply orb_true_iff in Hbad as [H|H]; [left; by apply Z.eqb_eq|right; by apply bool_decide_eq_true in H]. }
  apply orb_false_iff in Hbad as [Hk%Z.eqb_neq Hn%bool_decide_eq_false].
  destruct (class_find_spec (g_classes g) key (Z.to_nat (g_classCount g)) 0 ltac:(lia) ltac:(unfold zlen; lia)) as (r & -> & Hr).
  cbn [mbind option_bind]. destruct r as [id|].
  { destruct Hr as (k & c & -> & Hk' & Hc & He). rewrite u16_small by (words; lia).
    eexists _, _, g. split; [reflexivity|]. split; [|split; [assumption|split; [auto|intros x [= <-]; unfold registered; lia]]].
    apply co_found; try assumption. unfold key_of. rewrite (proj2 (Z.leb_le 1 _)), (proj2 (Z.leb_le _ (g_classCount g))) by lia.
    simpl andb. cbv iota. replace (0 + Z.of_nat k + 1 - 1) with (0 + Z.of_nat k) by lia. rewrite Hc. simpl. congruence. }
  assert (Hfresh : forall id, key_of g id <> Some key).
  { intros id H. unfold key_of in H. destruct ((1 <=? id) && (id <=? g_classCount g)) eqn:E; [|discriminate]. bprop.
    destruct (aget (g_classes g) (id - 1)) as [c|] eqn:Hc; [|discriminate]. simpl in H. simplify_eq.
    apply (Hr (Z.to_nat (id - 1)) c); [lia| |reflexivity]. by replace (0 + Z.of_nat (Z.to_nat (id - 1))) with (id - 1) by lia. }
  unfold LOCKDEP_MAX_CLASSES. destruct (Z.eqb_spec (g_classCount g) 256) as [Hfull|Hnf].
  { eexists _, _, g. split; [reflexivity|]. split; [by apply co_full|]. split; [assumption|]. split; [auto|by intros x [=]]. }
  destruct (aget_Some (g_classes g) (g_classCount g)) as (c & Hc & Hcl); [unfold zlen; lia|]. rewrite Hc. cbn [mbind option_bind].
  rewrite aset_Some by (unfold zlen; lia). cbn [mbind option_bind]. rewrite u32_small, u16_small by (words; lia).
  eexists _, _, _. split; [reflexivity|]. pose proof (Forall_lookup_1 _ _ _ _ Hf Hcl) as [Ht _].
  split; [|split; [apply new_class_ok; assumption || lia|split]].
  - apply new_class_of; assumption || lia.
  - intros hs K. split; try apply K. eapply Forall_impl; [apply K|]. intros h. unfold registered. cbn [g_classCount]. lia.
  - intros x [= <-]. unfold registered. cbn [g_classCount]. lia.
Qed.

(** ** Ranking the classes *)

(** An order graph has a ranking that every recorded edge increases. *)
Lemma graph_rank g :
  graph_ok g -> exists rank : Z -> nat, forall a b, arc (g_adj g) a b -> (rank a < rank b)%nat.
Proof.
  intros G.
  set (below := fun a b => match bfsFind a b g with Some (r, _) => r && negb (a =? b) | None => false end).
  assert (Hb : forall a b, id_ok a -> below a b = true <-> rtc (arc (g_adj g)) a b /\ a <> b).
  { intros a b Ha. unfold below.
    destruct (bfsFind_spec a b g (go_adj g G) (go_scratch g G) Ha) as (r & sc & q & -> & I & H).
    rewrite andb_true_iff, negb_true_iff, Z.eqb_neq. destruct r; [|by split; intros [? ?]].
    pose proof (inv_reach _ _ _ _ _ I H). tauto. }
  exists (fun x => length (filter (fun y => below y x = true) (seqZ 1 256))). intros a b Hab.
  destruct (arc_id _ _ _ (go_adj g G) Hab) as [Ha _].
  assert (Hin : forall y, y ∈ seqZ 1 256 <-> id_ok y) by (intros y; rewrite elem_of_seqZ; unfold id_ok; lia).
  assert (Hne : a <> b) by (intros ->; by apply (go_acyclic g G b), tc_once).
  set (la := filter (fun y => below y a = true) (seqZ 1 256)). set (lb := filter (fun y => below y b = true) (seqZ 1 256)).
  enough (Hs : a :: la ⊆+ lb) by (apply submseteq_length in Hs; simpl in Hs; lia).
  apply NoDup_submseteq.
  - apply NoDup_cons. split; [|apply NoDup_filter, NoDup_seqZ]. unfold la. rewrite list_elem_of_filter.
    intros [H%Hb _]; [|assumption]. by destruct H.
  - intros y [->|Hy]%elem_of_cons; unfold lb; apply list_elem_of_filter.
    + split; [|by apply Hin]. apply Hb; [assumption|]. split; [by apply rtc_once|assumption].
    + unfold la in Hy. apply list_elem_of_filter in Hy as [Hy Hyi]. split; [|assumption]. apply Hin in Hyi.
      apply Hb in Hy as [Hy Hya]; [|assumption]. apply Hb; [assumption|]. split; [by apply rtc_r with a|].
      intros ->. by apply (arc_no_back _ _ _ (go_acyclic g G) Hab).
Qed.

(** ** The core's contracts *)

(** A graph with two classes and the order 1 before 2, held by nobody. *)
Definition sample_graph : LockdepGraph :=
  mkGraph 2 1
    ([mkClass 100 (Some "a"%string) 0 (replicate 2 (mkTrace [] 0)); mkClass 200 (Some "b"%string) 0 (replicate 2 (mkTrace [] 0))]
      ++ replicate 254 (mkClass 0 None 0 (replicate 2 (mkTrace [] 0))))
    ([2; 0; 0; 0] :: replicate 255 (replicate 4 0))
    (mkEdge 1 2 (mkTrace [] 0) :: replicate 511 (mkEdge 0 0 (mkTrace [] 0)))
    (mkScratch (replicate 256 0) (replicate 256 0) (replicate 4 0)).

Lemma arc_first row n a b :
  arc (row :: replicate n (replicate 4 0)) a b -> a = 1 /\ id_ok b /\ bit_at row b = true.
Proof.
  intros (Hb & r & Hr & Hbit). apply aget_lookup in Hr as [Ha Hr].
  destruct (decide (a = 1)) as [->|]; [change (Z.to_nat (1 - 1)) with 0%nat in Hr; simpl in Hr; by simplify_eq|].
  destruct (Z.to_nat (a - 1)) as [|k] eqn:E; [lia|]. simpl in Hr. apply lookup_replicate in Hr as [-> _].
  by rewrite bit_zero in Hbit.
Qed.

Lemma sample_arc a b : arc (g_adj sample_graph) a b <-> a = 1 /\ b = 2.
Proof.
  split.
  - intros (-> & Hb & Hbit)%arc_first. split; [reflexivity|]. unfold bit_at in Hbit. pose proof (id_split b Hb) as [H1 H2].
    apply (f_equal id) in Hbit. destruct (Z.eq_dec ((b - 1) / 64) 0) as [E|E].
    + rewrite E in Hbit. cbn [aget] in Hbit. change (Z.testbit 2 ((b - 1) mod 64) = true) in Hbit.
      rewrite (testbit_pow 1) in Hbit by lia. bprop. dlia.
    + exfalso. destruct (aget [2; 0; 0; 0] ((b - 1) / 64)) as [w|] eqn:Ew; [|discriminate].
      apply aget_lookup in Ew as [_ Ew]. destruct (Z.to_nat ((b - 1) / 64)) as [|[|[|[|k]]]] eqn:Ek; simpl in Ew; [lia| | | |discriminate];
        simplify_eq; unfold id in Hbit; rewrite Z.testbit_0_l in Hbit; discriminate.
  - intros [-> ->]. split; [unfold id_ok; lia|]. exists [2; 0; 0; 0]. split; reflexivity.
Qed.

Lemma sample_graph_ok : graph_ok sample_graph.
Proof.
  split.
  - simpl. lia.
  - split; [reflexivity|]. change (Forall class_ok (g_classes sample_graph)).
    unfold sample_graph. cbn [g_classes]. apply Forall_app. split.
    + repeat constructor; simpl; lia.
    + apply Forall_replicate. split; [reflexivity|]. simpl. words. lia.
  - apply (bool_decide_unpack _). vm_compute. exact I.
  - simpl. repeat constructor; discriminate.
  - split; [reflexivity|]. cbn [sample_graph g_adj]. constructor; [|apply Forall_replicate, row_zero].
    split; [reflexivity|]. repeat constructor; lia.
  - intros a b [-> ->]%sample_arc. unfold registered. simpl. lia.
  - reflexivity.
  - simpl. lia.
  - intros a b. rewrite sample_arc. change (edge_pairs sample_graph) with [(1, 2)]. rewrite list_elem_of_singleton.
    split; [by intros [-> ->]|by intros [= -> ->]].
  - change (edge_pairs sample_graph) with [(1, 2)]. apply NoDup_singleton.
  - split; reflexivity.
  - intros x Hx. assert (H : forall y z, tc (arc (g_adj sample_graph)) y z -> y = 1 /\ z = 2).
    { induction 1 as [y z H|y z w H _ [IH1 IH2]]; apply sample_arc in H as [-> ->]; [auto|discriminate]. }
    apply H in Hx as [-> ?]. discriminate.
Qed.

(** The lock "b" held in process context. *)
Definition sample_stack : LockdepHeldStack :=
  mkStack (mkHeld 0x5000 2 0 false true 7 :: replicate 15 (mkHeld 0 0 0 false false 0)) 1.

Lemma sample_stack_ok : stack_ok sample_graph sample_stack.
Proof. split; [simpl; lia|reflexivity|]. change (active sample_stack) with [mkHeld 0x5000 2 0 false true 7]. apply Forall_singleton. unfold registered. simpl. lia. Qed.

(** C26: [lockdepCoreDependsOn] is exact: on a well-formed graph and any two ids it stays
    inside its arrays, terminates, changes nothing but the search's scratch, and answers
    [true] exactly when both classes are registered, differ, and a chain of recorded
    order edges leads from the first to the second. *)
Theorem lockdepCoreDependsOn_exact g from to :
  graph_ok g -> 0 <= from -> 0 <= to ->
  exists b sc, lockdepCoreDependsOn from to g = Some (b, with_scratch sc g) /\ scratch_ok sc /\
    (b = true <-> registered g from /\ registered g to /\ from <> to /\ tc (arc (g_adj g)) from to).
Proof.
  intros G Hf Ht. unfold lockdepCoreDependsOn, bad_id. destruct (_ || _) eqn:Hbad.
  - exists false, (g_scratch g). split; [by destruct g|]. split; [apply G|]. split; [done|].
    intros (H1 & H2 & H3 & _). exfalso. unfold registered in *. repeat rewrite orb_true_iff in Hbad.
    rewrite !Z.eqb_eq, !Z.ltb_lt in Hbad. lia.
  - repeat (apply orb_false_iff in Hbad as [Hbad ?]). bprop.
    assert (Hr : registered g from) by (unfold registered; lia).
    destruct (bfsFind_spec from to g (go_adj g G) (go_scratch g G) (registered_id g from G Hr)) as (r & sc & q & -> & I & Hq).
    exists r, sc. split; [reflexivity|]. split; [by eapply inv_scratch|]. destruct r.
    + pose proof (inv_reach _ _ _ _ _ I Hq) as Hreach. apply rtc_tc in Hreach as [|Hreach]; [contradiction|].
      split; [|done]. intros _. unfold registered. split_and!; lia || assumption.
    + split; [done|]. intros (_ & _ & _ & H'). exfalso. apply Hq. by apply tc_rtc.
Qed.

Lemma lockdepCoreDependsOn_exact_witness :
  exists b sc, lockdepCoreDependsOn 1 2 sample_graph = Some (b, with_scratch sc sample_graph) /\ scratch_ok sc /\
    (b = true <-> registered sample_graph 1 /\ registered sample_graph 2 /\ 1 <> 2 /\ tc (arc (g_adj sample_graph)) 1 2).
Proof. apply lockdepCoreDependsOn_exact; [apply sample_graph_ok|lia..]. Defined.

(** C23: [lockdepCoreCheckAcquire] returns the first finding of the documented order and no
    other: held-stack overflow, then the same lock held anywhere, then (unless a trylock)
    its class held in the current context, then a clash between hard-IRQ use and use with
    interrupts on, then (unless a trylock) an inversion, i.e. a chain of recorded orders from
    the new class to one its context holds; OK exactly when none applies.  An inversion's
    finding carries a real chain of recorded edges, cut to its last sixteen. *)
Theorem lockdepCoreCheckAcquire_exact g hs instance c ctx irqsOn trylock :
  graph_ok g -> stack_ok g hs -> registered g c ->
  exists v f sc, lockdepCoreCheckAcquire hs instance c ctx irqsOn trylock g = Some (v, f, with_scratch sc g) /\
    scratch_ok sc /\ acquire_verdict g hs instance c ctx irqsOn trylock v f.
Proof. apply lockdepCoreCheckAcquire_spec. Qed.

Lemma lockdepCoreCheckAcquire_exact_witness :
  exists v f sc, lockdepCoreCheckAcquire sample_stack 0x6000 1 0 true false sample_graph = Some (v, f, with_scratch sc sample_graph) /\
    scratch_ok sc /\ acquire_verdict sample_graph sample_stack 0x6000 1 0 true false v f.
Proof.
  apply lockdepCoreCheckAcquire_exact; [apply sample_graph_ok|apply sample_stack_ok|unfold registered; simpl; lia].
Defined.

(** Taking "a" while holding "b" is the inversion the sample graph forbids. *)
Example sample_inversion :
  option_map (fun r => (r.1.1, option_map f_pathClass r.1.2))
    (lockdepCoreCheckAcquire sample_stack 0x6000 1 0 true false sample_graph) =
  Some (LOCKDEP_REPORT_INVERSION, Some ([1; 2] ++ replicate 15 0)).
Proof. vm_compute. reflexivity. Qed.
