(* ===== verification/LockdepRun.v ===== *)
(** * The lock validator in the kernel

    Models kernel/sync/lockdep.c over the core of [Lockdep]: the state the
    validator keeps beside the graph, the hooks a spinlock calls, what a report
    does (a panic, or a swallowed report while a test expects it), the switches of
    the test runner and the queries.  The hooks run with interrupts off and the
    graph lock held, so one call is one step; what they sample from the machine
    (the interrupt flag, the handler depth, whether a panic is in progress, the
    stack capture) is an argument.  The text of a report is not modelled. *)

From stdpp Require Import strings relations.
From S2P Require Import Prelude Lockdep.

(** ** State *)

(** Models src/kernel/include/lockdep.h:22-26, LockdepMap. *)
Record LockdepMap := mkMap { m_name : option string; m_key : Z; m_classId : Z }.

(** Models src/kernel/sync/lockdep.c:29-34, expect. *)
Record Expect := mkExpect { ex_armed : bool; ex_kind : LockdepVerdict; ex_reports : Z; ex_totalExpected : Z }.

(** Models src/kernel/include/preempt.h:15-23, CpuSync: what the validator keeps for the CPU. *)
Record CpuSync := mkCpu { cs_lockdepRecursion : Z; cs_held : LockdepHeldStack }.

(** Models src/kernel/sync/lockdep.c:26-34, the validator's statics (with [testOff], the CPU's
    state and the validator's part of every lock). *)
Record Validator := mkVal {
  v_graph : LockdepGraph; v_lockdepOff : bool; v_expect : Expect; v_testOff : bool;
  v_cpu : CpuSync; v_maps : Z -> LockdepMap }.

(** What a hook samples from the machine. *)
Record Env := mkEnv {
  env_panicInProgress : bool; env_interruptsEnabled : bool; env_irqDepth : Z; env_inKtest : bool;
  env_capture : LockdepTrace -> LockdepTrace }.

Definition set_graph (g : LockdepGraph) (v : Validator) : Validator :=
  mkVal g (v_lockdepOff v) (v_expect v) (v_testOff v) (v_cpu v) (v_maps v).
Definition set_off (off : bool) (v : Validator) : Validator :=
  mkVal (v_graph v) off (v_expect v) (v_testOff v) (v_cpu v) (v_maps v).
Definition set_expect (e : Expect) (v : Validator) : Validator :=
  mkVal (v_graph v) (v_lockdepOff v) e (v_testOff v) (v_cpu v) (v_maps v).
Definition set_testOff (t off : bool) (v : Validator) : Validator :=
  mkVal (v_graph v) off (v_expect v) t (v_cpu v) (v_maps v).
Definition set_held (hs : LockdepHeldStack) (v : Validator) : Validator :=
  mkVal (v_graph v) (v_lockdepOff v) (v_expect v) (v_testOff v) (mkCpu (cs_lockdepRecursion (v_cpu v)) hs) (v_maps v).
Definition set_map (m : Z) (d : LockdepMap) (v : Validator) : Validator :=
  mkVal (v_graph v) (v_lockdepOff v) (v_expect v) (v_testOff v) (v_cpu v) (fun x => if x =? m then d else v_maps v x).

(** A call gives a new state or panics; [Fault] is an access out of bounds. *)
Inductive result (A : Type) := Done (a : A) | Panic (msg : string) | Fault.
Arguments Done {A} a.
Arguments Panic {A} msg.
Arguments Fault {A}.

#[global] Instance result_bind : MBind result := fun A B f r =>
  match r with Done a => f a | Panic msg => Panic msg | Fault => Fault end.
Definition lift {A} (o : option A) : result A := match o with Some a => Done a | None => Fault end.

(** ** Reports *)

(** Models src/kernel/sync/lockdep.c:40-57, kindName. *)
Definition kindName (k : LockdepVerdict) : string :=
  match k with
  | LOCKDEP_REPORT_INVERSION => "lock order inversion"
  | LOCKDEP_REPORT_RECURSION => "recursive locking"
  | LOCKDEP_REPORT_IRQ_INCONSISTENT => "inconsistent IRQ lock state"
  | LOCKDEP_REPORT_NOT_HELD => "unlock of a lock not held"
  | LOCKDEP_REPORT_HELD_OVERFLOW => "too many locks held"
  | LOCKDEP_REPORT_BAD_INIT => "bad lock init"
  | _ => "?"
  end.

(** Models src/kernel/sync/lockdep.c:106-107, report's test for an expected report. *)
Definition expected (e : Expect) (f : LockdepFinding) : bool :=
  ex_armed e && bool_decide (ex_kind e = f_kind f) &&
  negb (bool_decide (f_kind f = LOCKDEP_REPORT_RECURSION) && f_sameInstance f).

(** Models src/kernel/sync/lockdep.c:152-158, report: what follows the text of the report. *)
Definition report (f : LockdepFinding) (v : Validator) : result Validator :=
  let e := v_expect v in
  if expected e f then
    Done (set_expect (mkExpect (ex_armed e) (ex_kind e) (u32 (ex_reports e + 1)) (u32 (ex_totalExpected e + 1))) v)
  else Panic (String.append "lockdep: " (String.append (kindName (f_kind f)) " (report above)")).

(** Models src/kernel/sync/lockdep.c:160-164, disable. *)
Definition disable (v : Validator) : Validator := set_off true v.

(** ** The hooks *)

Section Hooks.
Context (kernelDataStart kernelDataEnd : Z).

(** Models src/kernel/sync/lockdep.c:166-169, inKernelData. *)
Definition inKernelData (p : Z) : bool := (kernelDataStart <=? p) && (p <? kernelDataEnd).

(** Models src/kernel/sync/lockdep.c:172-186, resolveClass. *)
Definition resolveClass (m : Z) (v : Validator) : option (LockdepVerdict * option Z * Validator) :=
  let d := v_maps v m in
  if negb (m_classId d =? 0) then Some (LOCKDEP_OK, Some (m_classId d), v)
  else
    let key := if negb (m_key d =? 0) then m_key d else m in
    if ((m_key d =? 0) && negb (inKernelData m)) || bool_decide (m_name d = None) then
      Some (LOCKDEP_REPORT_BAD_INIT, None, v)
    else
      '(r, id, g) ← lockdepCoreClassOf key (m_name d) (v_graph v);
      let v := set_graph g v in
      Some (r, id, match r, id with
                   | LOCKDEP_OK, Some i => set_map m (mkMap (m_name d) (m_key d) i) v
                   | _, _ => v
                   end).

Definition env_ctx (env : Env) : Z := if env_irqDepth env =? 0 then 0 else 1.

(** Models src/kernel/sync/lockdep.c:212-221, lockdepAcquire on a resolved class. *)
Definition acquire_class (env : Env) (m id : Z) (trylock : bool) (ip : Z) (v : Validator) : result Validator :=
  let hs := cs_held (v_cpu v) in
  '(r, f, g) ← lift (lockdepCoreCheckAcquire hs m id (env_ctx env) (env_interruptsEnabled env) trylock (v_graph v));
  v ← (match f with Some f => report f (set_graph g v) | None => Done (set_graph g v) end);
  '(full, hs, g) ← lift (lockdepCoreCommitAcquire hs m id (env_ctx env) (env_interruptsEnabled env) trylock
                             (bool_decide (r = LOCKDEP_OK)) ip (Some (env_capture env)) (v_graph v));
  let v := set_held hs (set_graph g v) in
  Done (if decide (full = LOCKDEP_FULL) then disable v else v).

(** Models src/kernel/sync/lockdep.c:188-226, lockdepAcquire. *)
Definition lockdepAcquire (env : Env) (m : Z) (trylock : bool) (ip : Z) (v : Validator) : result Validator :=
  if v_lockdepOff v || env_panicInProgress env then Done v
  else if negb (cs_lockdepRecursion (v_cpu v) =? 0) then Done v
  else
    '(r, id, v) ← lift (resolveClass m v);
    match r, id with
    | LOCKDEP_FULL, _ => Done (disable v)
    | LOCKDEP_OK, Some id => acquire_class env m id trylock ip v
    | _, _ => report (findingInit r 0) v
    end.

(** Models src/kernel/sync/lockdep.c:228-262, lockdepRelease. *)
Definition lockdepRelease (env : Env) (m : Z) (v : Validator) : result Validator :=
  let hs := cs_held (v_cpu v) in
  if env_panicInProgress env then Done v
  else if negb (cs_lockdepRecursion (v_cpu v) =? 0) then Done v
  else if v_lockdepOff v then
    '(hs, g) ← lift (lockdepCoreCommitRelease hs m false None (v_graph v));
    Done (set_held hs (set_graph g v))
  else
    '(r, f) ← lift (lockdepCoreCheckRelease (v_graph v) hs m (env_interruptsEnabled env));
    v ← (match f with Some f => report f v | None => Done v end);
    '(hs, g) ← lift (lockdepCoreCommitRelease hs m (env_interruptsEnabled env) (Some (env_capture env)) (v_graph v));
    Done (set_held hs (set_graph g v)).

(** Models src/kernel/sync/spinlock.c:17-27, spinInitKeyed: the lock's part of the validator. *)
Definition spinInitKeyed (m : Z) (name : option string) (key : Z) (v : Validator) : Validator :=
  set_map m (mkMap name key 0) v.

(** ** Queries and the test switches *)

(** Models src/kernel/sync/lockdep.c:264-266, lockdepActive. *)
Definition lockdepActive (env : Env) (v : Validator) : bool := negb (v_lockdepOff v) && negb (env_panicInProgress env).

Fixpoint is_held (n : nat) (i m : Z) (held : list LockdepHeld) (r : bool) : option bool :=
  match n with
  | O => Some r
  | S n => h ← aget held i; is_held n (i + 1) m held (if h_instance h =? m then true else r)
  end.

(** Models src/kernel/sync/lockdep.c:268-279, lockdepIsHeld. *)
Definition lockdepIsHeld (m : Z) (v : Validator) : option bool :=
  let hs := cs_held (v_cpu v) in is_held (Z.to_nat (hs_depth hs)) 0 m (hs_held hs) false.

(** Models src/kernel/sync/lockdep.c:281-283, lockdepHeldDepth. *)
Definition lockdepHeldDepth (v : Validator) : Z := hs_depth (cs_held (v_cpu v)).

(** Models src/kernel/sync/lockdep.c:285-296, lockdepExpectBegin. *)
Definition lockdepExpectBegin (env : Env) (kind : LockdepVerdict) (v : Validator) : result Validator :=
  let e := v_expect v in
  if negb (env_inKtest env) || negb (env_irqDepth env =? 0) || ex_armed e ||
     negb (bool_decide (kind = LOCKDEP_REPORT_INVERSION)) && negb (bool_decide (kind = LOCKDEP_REPORT_RECURSION)) &&
     negb (bool_decide (kind = LOCKDEP_REPORT_IRQ_INCONSISTENT)) && negb (bool_decide (kind = LOCKDEP_REPORT_NOT_HELD))
  then Panic "lockdepExpectBegin: not in a ktest, in a handler, already armed, or bad kind"
  else Done (set_expect (mkExpect true kind 0 (ex_totalExpected e)) v).

(** Models src/kernel/sync/lockdep.c:298-305, lockdepExpectEnd. *)
Definition lockdepExpectEnd (v : Validator) : Z * Validator :=
  let e := v_expect v in (ex_reports e, set_expect (mkExpect false (ex_kind e) 0 (ex_totalExpected e)) v).

(** Models src/kernel/sync/lockdep.c:313-320, lockdepTestOff. *)
Definition lockdepTestOff (env : Env) (v : Validator) : result Validator :=
  if negb (env_inKtest env) || negb (env_irqDepth env =? 0) || v_testOff v || v_lockdepOff v
  then Panic "lockdepTestOff: not in a ktest, in a handler, or the validator is already off"
  else Done (set_testOff true true v).

(** Models src/kernel/sync/lockdep.c:322-328, lockdepTestOn. *)
Definition lockdepTestOn (env : Env) (v : Validator) : result Validator :=
  if negb (env_inKtest env) || negb (env_irqDepth env =? 0) || negb (v_testOff v)
  then Panic "lockdepTestOn: not in a ktest, in a handler, or not turned off by lockdepTestOff"
  else Done (set_testOff false false v).

(** Models src/kernel/sync/lockdep.c:330-337, lockdepTestOffReset. *)
Definition lockdepTestOffReset (v : Validator) : bool * Validator :=
  if negb (v_testOff v) then (false, v) else (true, set_testOff false false v).

(** Models src/kernel/sync/lockdep.c:339-345, nameEq. *)
Fixpoint nameEq (a b : string) : bool :=
  match a, b with
  | EmptyString, EmptyString => true
  | String x a, String y b => if Ascii.eqb x y then nameEq a b else false
  | _, _ => false
  end.

Fixpoint class_by_name (n : nat) (i : Z) (name : string) (cs : list LockdepClass) : option Z :=
  match n with
  | O => Some 0
  | S n =>
      c ← aget cs i;
      s ← cl_name c;
      if nameEq s name then Some (u16 (i + 1)) else class_by_name n (i + 1) name cs
  end.

(** Models src/kernel/sync/lockdep.c:348-355, classByName. *)
Definition classByName (name : string) (v : Validator) : option Z :=
  class_by_name (Z.to_nat (g_classCount (v_graph v))) 0 name (g_classes (v_graph v)).

(** Models src/kernel/sync/lockdep.c:357-364, lockdepClassRegistered. *)
Definition lockdepClassRegistered (name : string) (v : Validator) : option bool :=
  id ← classByName name v; Some (negb (id =? 0)).

(** Models src/kernel/sync/lockdep.c:366-374, lockdepDependsOn. *)
Definition lockdepDependsOn (fromName toName : string) (v : Validator) : option (bool * Validator) :=
  from ← classByName fromName v;
  to ← classByName toName v;
  if negb (from =? 0) && negb (to =? 0) then
    '(r, g) ← lockdepCoreDependsOn from to (v_graph v); Some (r, set_graph g v)
  else Some (false, v).

(** ** Runs *)

Inductive op :=
| OpInit (m : Z) (name : option string) (key : Z)
| OpAcquire (env : Env) (m : Z) (trylock : bool) (ip : Z)
| OpRelease (env : Env) (m : Z)
| OpExpectBegin (env : Env) (kind : LockdepVerdict) | OpExpectEnd
| OpTestOff (env : Env) | OpTestOn (env : Env) | OpTestOffReset
| OpDependsOn (from to : string).

Definition step (o : op) (v : Validator) : result Validator :=
  match o with
  | OpInit m name key => Done (spinInitKeyed m name key v)
  | OpAcquire env m trylock ip => lockdepAcquire env m trylock ip v
  | OpRelease env m => lockdepRelease env m v
  | OpExpectBegin env kind => lockdepExpectBegin env kind v
  | OpExpectEnd => Done (lockdepExpectEnd v).2
  | OpTestOff env => lockdepTestOff env v
  | OpTestOn env => lockdepTestOn env v
  | OpTestOffReset => Done (lockdepTestOffReset v).2
  | OpDependsOn from to => '(_, v) ← lift (lockdepDependsOn from to v); Done v
  end.

Fixpoint run (ops : list op) (v : Validator) : result Validator :=
  match ops with
  | [] => Done v
  | o :: ops => v ← step o v; run ops v
  end.

(** The orders an acquire obeys: the pairs (held class, class acquired) of a lock
    acquired without a report, not by a trylock, over the locks its context holds. *)
Definition observed (o : op) (v : Validator) : list (Z * Z) :=
  match o with
  | OpAcquire env m false ip =>
      if v_lockdepOff v || env_panicInProgress env || negb (cs_lockdepRecursion (v_cpu v) =? 0) then []
      else match resolveClass m v with
      | Some (LOCKDEP_OK, Some id, v) =>
          let hs := cs_held (v_cpu v) in
          match lockdepCoreCheckAcquire hs m id (env_ctx env) (env_interruptsEnabled env) false (v_graph v) with
          | Some (LOCKDEP_OK, _, _) => (fun x => (x, id)) <$> others id (segment hs (env_ctx env))
          | _ => []
          end
      | _ => []
      end
  | _ => []
  end.

Fixpoint orders (ops : list op) (v : Validator) : list (Z * Z) :=
  match ops with
  | [] => []
  | o :: ops => observed o v ++ match step o v with Done v => orders ops v | _ => [] end
  end.
End Hooks.

(** Models src/kernel/sync/lockdep.c:26-34, the validator at boot: statics are zero. *)
Definition boot_graph : LockdepGraph :=
  mkGraph 0 0 (replicate 256 (mkClass 0 None 0 (replicate 2 (mkTrace (replicate 10 0) 0))))
    (replicate 256 (replicate 4 0)) (replicate 512 (mkEdge 0 0 (mkTrace (replicate 10 0) 0)))
    (mkScratch (replicate 256 0) (replicate 256 0) (replicate 4 0)).
Definition boot_stack : LockdepHeldStack := mkStack (replicate 16 (mkHeld 0 0 0 false false 0)) 0.
Definition boot_validator (maps : Z -> LockdepMap) : Validator :=
  mkVal boot_graph false (mkExpect false LOCKDEP_OK 0 0) false (mkCpu 0 boot_stack) maps.

(** ** The invariant *)

Record val_ok (v : Validator) : Prop := {
  vo_graph : graph_ok (v_graph v);
  vo_stack : stack_ok (v_graph v) (cs_held (v_cpu v));
  vo_maps : forall m, m_classId (v_maps v m) = 0 \/ registered (v_graph v) (m_classId (v_maps v m));
  vo_testOff : v_testOff v = true -> v_lockdepOff v = true
}.

(** A table filled up: the validator is off for good. *)
Definition disabled (v : Validator) : Prop := v_lockdepOff v = true /\ v_testOff v = false.

(** From [v] to [v'] no order is forgotten, and a full table stays one. *)
Record grows (v v' : Validator) : Prop := {
  gr_arcs : forall a b, arc (g_adj (v_graph v)) a b -> arc (g_adj (v_graph v')) a b;
  gr_disabled : disabled v -> disabled v'
}.

#[global] Instance grows_po : PreOrder grows.
Proof.
  split; [by split; auto|]. intros v1 v2 v3 [A1 D1] [A2 D2]. split; auto.
Qed.

Section Proofs.
Context (ds de : Z).
#[local] Abbreviation resolveClass := (resolveClass ds de).
#[local] Abbreviation step := (step ds de).

Lemma resolveClass_spec m v :
  val_ok v -> v_lockdepOff v = false ->
  exists r id v', resolveClass m v = Some (r, id, v') /\ val_ok v' /\ grows v v' /\ v_lockdepOff v' = false /\
    v_cpu v' = v_cpu v /\ (r = LOCKDEP_OK -> exists i, id = Some i /\ registered (v_graph v') i).
Proof.
  intros V Hoff. unfold LockdepRun.resolveClass. cbv zeta. destruct (Z.eqb_spec (m_classId (v_maps v m)) 0) as [Hz|Hnz]; simpl negb; cbv iota.
  2: { eexists _, _, v. split_and!; try done. intros _. eexists. split; [reflexivity|]. by destruct (vo_maps v V m). }
  destruct (_ || _) eqn:Hbad.
  { eexists _, _, v. split_and!; done. }
  set (key := if negb _ then _ else _).
  destruct (lockdepCoreClassOf_spec (v_graph v) key (m_name (v_maps v m)) (vo_graph v V)) as (r & id & g' & -> & Hc & G' & Hst & Hreg).
  cbn [mbind option_bind]. eexists _, _, _. split; [reflexivity|].
  assert (Hmono : forall x, registered (v_graph v) x -> registered g' x).
  { intros x. unfold registered. inversion Hc; simplify_eq; auto. lia. }
  assert (Harc : g_adj g' = g_adj (v_graph v)) by (by inversion Hc; simplify_eq).
  assert (V1 : val_ok (set_graph g' v)).
  { split; [exact G'|by apply Hst, V| |apply V]. intros m'. destruct (vo_maps v V m'); [by left|right; by apply Hmono]. }
  assert (Gr : grows v (set_graph g' v)) by (split; [simpl; by rewrite Harc|done]).
  destruct id as [i|]; [|destruct r; split_and!; try done; inversion Hc].
  destruct r; split_and!; try done; try (by inversion Hc).
  - split; try apply V1. intros m'. simpl. destruct (m' =? m); [right; by apply Hreg|apply V1].
  - split; [exact (gr_arcs _ _ Gr)|exact (gr_disabled _ _ Gr)].
  - intros _. exists i. split; [reflexivity|]. by apply Hreg.
Qed.

Lemma report_spec f v :
  (exists msg, report f v = Panic msg) \/
  (exists e, report f v = Done (set_expect e v)).
Proof. unfold report. destruct (expected _ _); [right|left]; eauto. Qed.

Lemma set_expect_ok e v : val_ok v -> val_ok (set_expect e v) /\ grows v (set_expect e v).
Proof. intros V. split; [split; apply V|split; auto]. Qed.

(** An acquire of a resolved class panics, or keeps the invariant and, when it was
    not reported, records its orders or turns the validator off. *)
Lemma acquire_class_spec env m id trylock ip v :
  val_ok v -> v_lockdepOff v = false -> registered (v_graph v) id ->
  let hs := cs_held (v_cpu v) in
  (exists msg, acquire_class env m id trylock ip v = Panic msg) \/
  exists v', acquire_class env m id trylock ip v = Done v' /\ val_ok v' /\ grows v v' /\
    (trylock = false ->
     (exists f g, lockdepCoreCheckAcquire hs m id (env_ctx env) (env_interruptsEnabled env) trylock (v_graph v) = Some (LOCKDEP_OK, f, g)) ->
     disabled v' \/ forall x, x ∈ others id (segment hs (env_ctx env)) -> arc (g_adj (v_graph v')) x id).
Proof.
  intros V Hoff Hid hs. unfold acquire_class. fold hs.
  assert (Ht : v_testOff v = false) by (destruct (v_testOff v) eqn:E; [pose proof (vo_testOff v V E); congruence|done]).
  destruct (lockdepCoreCheckAcquire_spec (v_graph v) hs m id (env_ctx env) (env_interruptsEnabled env) trylock
    (vo_graph v V) (vo_stack v V) Hid) as (r & f & sc & -> & Hsc & Hver).
  cbn [lift mbind result_bind]. set (g1 := with_scratch sc (v_graph v)). set (v1 := set_graph g1 v).
  assert (G1 : graph_ok g1) by (apply scratch_graph_ok; [apply V|assumption]).
  assert (Hrep : (exists msg, match f with Some f => report f v1 | None => Done v1 end = Panic msg) \/
    exists e, match f with Some f => report f v1 | None => Done v1 end = Done (set_expect e v1)).
  { destruct f; [apply report_spec|right]. exists (v_expect v1). by destruct v. }
  destruct Hrep as [[msg ->]|[e ->]]; [left; by exists msg|]. right. cbn [mbind result_bind].
  destruct (lockdepCoreCommitAcquire_spec g1 hs m id (env_ctx env) (env_interruptsEnabled env) trylock
    (bool_decide (r = LOCKDEP_OK)) ip (Some (env_capture env)) G1 (stack_ok_count (v_graph v) g1 hs eq_refl (vo_stack v V)) Hid) as (full & hs' & g' & E & A).
  { intros -> Hr%bool_decide_eq_true x Hx Hreach. apply elem_of_others in Hx as [_ (h & Hh & <-)]. inversion Hver; simplify_eq.
    match goal with H : ~ inverted _ _ _ _ _ |- _ => apply H end. split; [reflexivity|]. by exists h. }
  change (v_graph (set_expect e v1)) with g1. rewrite E. cbn [lift mbind result_bind]. eexists. split; [reflexivity|].
  assert (V2 : val_ok (set_held hs' (set_graph g' (set_expect e v1)))).
  { split; [apply A|apply A| |apply V]. intros m'. destruct (vo_maps v V m') as [|H]; [by left|right].
    unfold registered in *. simpl. rewrite (aq_count _ _ _ _ _ _ _ A). exact H. }
  assert (Gr : grows v (set_held hs' (set_graph g' (set_expect e v1)))) by (split; [exact (aq_old _ _ _ _ _ _ _ A)|done]).
  split; [destruct (decide _); [split; apply V2 || done|exact V2]|].
  split; [destruct (decide _); [split; [apply Gr|intros _; by split]|exact Gr]|].
  intros -> (f' & g0 & Hok). destruct (aq_edges _ _ _ _ _ _ _ A) as [->|[-> Hed]].
  - left. by destruct (decide _).
  - right. destruct (decide _); [done|]. simplify_eq. by apply Hed.
Qed.

(** What a step promises. *)
Definition step_ok (v : Validator) (seen : list (Z * Z)) (r : result Validator) : Prop :=
  match r with
  | Done v' => val_ok v' /\ grows v v' /\ (disabled v' \/ forall p, p ∈ seen -> arc (g_adj (v_graph v')) p.1 p.2)
  | Panic _ => True
  | Fault => False
  end.

Lemma step_ok_nil v v' : val_ok v' -> grows v v' -> step_ok v [] (Done v').
Proof. intros. split_and!; [assumption..|]. right. by intros p ?%elem_of_nil. Qed.

Lemma acquire_step env m trylock ip v :
  val_ok v -> step_ok v (observed ds de (OpAcquire env m trylock ip) v) (lockdepAcquire ds de env m trylock ip v).
Proof.
  intros V. unfold lockdepAcquire, observed. destruct (v_lockdepOff v || env_panicInProgress env) eqn:Hon.
  { destruct trylock; by apply step_ok_nil. }
  apply orb_false_iff in Hon as [Hoff Hp]. destruct (negb _); [destruct trylock; by apply step_ok_nil|].
  destruct (resolveClass_spec m v V Hoff) as (r & id & v1 & -> & V1 & Gr & Hoff1 & Hcpu & Hok). cbn [lift mbind result_bind orb].
  assert (Hrep : forall f, step_ok v [] (report f v1)).
  { intros f. destruct (report_spec f v1) as [[msg ->]|[e ->]]; [exact I|].
    destruct (set_expect_ok e v1 V1) as [V2 G2]. apply step_ok_nil; [assumption|]. by transitivity v1. }
  destruct r; try (destruct trylock; apply Hrep).
  2: { assert (Hd : v_testOff v1 = false) by (destruct (v_testOff v1) eqn:E; [pose proof (vo_testOff v1 V1 E); congruence|done]).
       destruct trylock; (split; [split; apply V1 || done|]); (split; [|left; by split]);
         (transitivity v1; [assumption|]); split; auto; by split. }
  destruct Hok as (i & -> & Hreg); [reflexivity|].
  destruct (acquire_class_spec env m i trylock ip v1 V1 Hoff1 Hreg) as [[msg ->]|(v2 & -> & V2 & G2 & Hord)]; [exact I|].
  split; [assumption|]. split; [by transitivity v1|].
  destruct trylock; [right; by intros p ?%elem_of_nil|].
  destruct (lockdepCoreCheckAcquire _ _ _ _ _ _ _) as [[[[] f] g]|]; try (right; by intros p ?%elem_of_nil).
  destruct Hord as [Hd|Hord]; [reflexivity|by eauto|by left|right].
  intros p (x & -> & Hx)%list_elem_of_fmap. by apply Hord.
Qed.

Lemma release_step env m v : val_ok v -> step_ok v [] (lockdepRelease env m v).
Proof.
  intros V. unfold lockdepRelease. destruct (env_panicInProgress env); [by apply step_ok_nil|].
  destruct (negb _); [by apply step_ok_nil|].
  assert (Hcommit : forall irqsOn cap v1, val_ok v1 -> grows v v1 -> v_cpu v1 = v_cpu v ->
    step_ok v [] ('(hs, g) ← lift (lockdepCoreCommitRelease (cs_held (v_cpu v)) m irqsOn cap (v_graph v1)); Done (set_held hs (set_graph g v1)))).
  { intros irqsOn cap v1 V1 Gr Hcpu. pose proof (vo_stack v1 V1) as K. rewrite Hcpu in K.
    destruct (lockdepCoreCommitRelease_spec (v_graph v1) (cs_held (v_cpu v)) m irqsOn cap (vo_graph v1 V1) K)
      as (hs & g & -> & G & K' & Hcnt & Hadj & _).
    cbn [lift mbind result_bind]. apply step_ok_nil.
    - split; [assumption|assumption| |apply V1]. intros x. destruct (vo_maps v1 V1 x) as [|H]; [by left|right].
      unfold registered in *. simpl. by rewrite Hcnt.
    - transitivity v1; [assumption|]. split; [simpl; by rewrite Hadj|auto]. }
  destruct (v_lockdepOff v) eqn:Hoff; [by apply Hcommit|].
  destruct (lockdepCoreCheckRelease_spec (v_graph v) (cs_held (v_cpu v)) m (env_interruptsEnabled env) (vo_graph v V) (vo_stack v V))
    as (r & f & -> & _). cbn [lift mbind result_bind].
  destruct f as [f|]; [|cbn [mbind result_bind]; by apply Hcommit].
  destruct (report_spec f v) as [[msg ->]|[e ->]]; [exact I|]. cbn [mbind result_bind].
  destruct (set_expect_ok e v V) as [V2 G2]. by apply Hcommit.
Qed.

Lemma class_by_name_spec (g : LockdepGraph) name n : forall i,
  graph_ok g -> 0 <= i -> i + Z.of_nat n <= g_classCount g ->
  exists id, class_by_name n i name (g_classes g) = Some id /\ (id = 0 \/ registered g id).
Proof.
  induction n as [|n IH]; intros i G Hi Hn; cbn [class_by_name]; [exists 0; auto|].
  pose proof (go_count g G) as Hc. destruct (go_classes g G) as [Hl _].
  destruct (aget_Some (g_classes g) i) as (c & -> & Hci); [unfold zlen; lia|]. cbn [mbind option_bind].
  pose proof (go_names g G) as Hf. destruct (cl_name c) as [s|] eqn:Hname.
  - cbn [mbind option_bind]. destruct (nameEq s name); [|by apply IH; lia || assumption].
    eexists. split; [reflexivity|]. right. rewrite u16_small by (words; lia). unfold registered. lia.
  - exfalso. rewrite Forall_fmap in Hf. assert (H : take (Z.to_nat (g_classCount g)) (g_classes g) !! Z.to_nat i = Some c).
    { rewrite lookup_take. destruct (decide _); [assumption|lia]. }
    by apply (Forall_lookup_1 _ _ _ _ Hf) in H.
Qed.

Lemma dependsOn_step from to v : val_ok v -> step_ok v [] (step (OpDependsOn from to) v).
Proof.
  intros V. unfold LockdepRun.step, lockdepDependsOn, classByName. pose proof (vo_graph v V) as G. pose proof (go_count _ G).
  destruct (class_by_name_spec (v_graph v) from (Z.to_nat (g_classCount (v_graph v))) 0 G) as (i & -> & Hi); [lia..|].
  destruct (class_by_name_spec (v_graph v) to (Z.to_nat (g_classCount (v_graph v))) 0 G) as (j & -> & Hj); [lia..|].
  cbn [mbind option_bind]. destruct (negb (i =? 0) && negb (j =? 0)) eqn:E; [|by apply step_ok_nil]. bprop.
  unfold lockdepCoreDependsOn. destruct (_ || _); [cbn; by destruct v; apply step_ok_nil|].
  destruct Hi as [|Hi]; [contradiction|]. pose proof (registered_id _ _ G Hi).
  destruct (bfsFind_spec i j (v_graph v)) as (r & sc & q & -> & Iq & _); [apply G|apply G|assumption|].
  cbn [lift mbind option_bind result_bind]. apply step_ok_nil; [|by split; auto].
  split; [apply scratch_graph_ok; [assumption|by eapply inv_scratch]| |apply V|apply V].
  eapply stack_ok_count; [|apply V]. reflexivity.
Qed.

Lemma step_spec o v : val_ok v -> step_ok v (observed ds de o v) (step o v).
Proof.
  intros V. destruct o as [m name key|env m t ip|env m|env kind| |env|env| |from to].
  - apply step_ok_nil; [|by split; auto]. split; try apply V. intros x. simpl. destruct (x =? m); [by left|apply V].
  - by apply acquire_step.
  - by apply release_step.
  - simpl. unfold lockdepExpectBegin. destruct (_ || _); [exact I|]. by apply step_ok_nil; apply set_expect_ok.
  - apply step_ok_nil; apply set_expect_ok, V.
  - simpl. unfold lockdepTestOff. destruct (_ || v_lockdepOff v) eqn:E; [exact I|]. apply orb_false_iff in E as [_ E].
    apply step_ok_nil; [split; apply V || done|]. split; [auto|]. intros [H _]. congruence.
  - simpl. unfold lockdepTestOn. destruct (_ || negb (v_testOff v)) eqn:E; [exact I|]. apply orb_false_iff in E as [_ E]. bprop.
    apply step_ok_nil; [split; apply V || done|]. split; [auto|]. intros [_ H]. congruence.
  - unfold LockdepRun.step, lockdepTestOffReset. destruct (v_testOff v) eqn:E; cbn [negb snd observed]; [|by apply step_ok_nil].
    apply step_ok_nil; [split; apply V || done|]. split; [auto|]. intros [_ H]. congruence.
  - by apply dependsOn_step.
Qed.

Lemma run_spec ops : forall v, val_ok v -> step_ok v (orders ds de ops v) (run ds de ops v).
Proof.
  induction ops as [|o ops IH]; intros v V; cbn [run orders]; [by apply step_ok_nil|].
  pose proof (step_spec o v V) as Hs. destruct (step o v) as [v1|msg|]; [|exact I|contradiction].
  destruct Hs as (V1 & G1 & H1). cbn [mbind result_bind]. specialize (IH v1 V1).
  destruct (run ds de ops v1) as [v2|msg|]; [|exact I|contradiction]. destruct IH as (V2 & G2 & H2).
  split; [assumption|]. split; [by transitivity v1|].
  destruct H1 as [H1|H1]; [left; by apply G2|]. destruct H2 as [H2|H2]; [by left|right].
  intros p [Hp|Hp]%elem_of_app; [by apply G2, H1|by apply H2].
Qed.
End Proofs.

(** ** From boot *)

Lemma boot_ok maps : (forall m, m_classId (maps m) = 0) -> val_ok (boot_validator maps).
Proof.
  intros Hm. assert (Hz : forall a b, ~ arc (replicate 256 (replicate 4 0)) a b).
  { intros a b H. change (replicate 256 (replicate 4 0)) with (replicate 4 0 :: replicate 255 (replicate 4 0)) in H.
    apply arc_first in H as (_ & _ & H). by rewrite bit_zero in H. }
  split; [|split; [simpl; lia|reflexivity|constructor]|intros m; left; apply Hm|done].
  split; cbn [v_graph boot_validator boot_graph g_classCount g_edgeCount g_classes g_adj g_edges g_scratch];
    try lia; try reflexivity; try (split; reflexivity); try apply NoDup_nil_2; try constructor.
  - reflexivity.
  - apply Forall_replicate. split; [reflexivity|]. simpl. words. lia.
  - reflexivity.
  - apply Forall_replicate, row_zero.
  - exfalso. eapply Hz. eassumption.
  - exfalso. eapply Hz. eassumption.
  - intros H. exfalso. eapply Hz. eassumption.
  - intros H. by apply elem_of_nil in H.
  - intros x Hx. destruct Hx as [x y H|x y z H _]; by eapply Hz.
Qed.

(** ** Orders are consistent *)

(** C5: Over any sequence of lock initialisations, acquires, releases, test switches and
    queries from boot, the validator never leaves its arrays, and every state it reaches is
    well formed; as long as no table filled up, one ranking of the lock classes explains
    every acquire but trylocks (which cannot wait) that it let pass without a report: each
    class a context held was ranked below the class it acquired, so the acquires it saw
    cannot deadlock by order. *)
Theorem lockdep_run_ordered ds de ops maps :
  (forall m, m_classId (maps m) = 0) ->
  match run ds de ops (boot_validator maps) with
  | Done v =>
      val_ok v /\
      (~ disabled v -> exists rank : Z -> nat,
         forall h c, (h, c) ∈ orders ds de ops (boot_validator maps) -> (rank h < rank c)%nat)
  | Panic _ => True
  | Fault => False
  end.
Proof.
  intros Hm. pose proof (run_spec ds de ops _ (boot_ok maps Hm)) as H.
  destruct (run ds de ops (boot_validator maps)) as [v|msg|]; [|exact I|exact H].
  destruct H as (V & _ & Hs). split; [assumption|]. intros Hd. destruct Hs as [|Hs]; [contradiction|].
  destruct (graph_rank (v_graph v) (vo_graph v V)) as (rank & Hrank). exists rank. intros h c Hp.
  apply Hrank. exact (Hs (h, c) Hp).
Qed.

Definition sample_env : Env := mkEnv false true 0 true (fun t => t).
Definition sample_maps : Z -> LockdepMap := fun m => mkMap (Some "lock"%string) 0 0.

(** Two static locks taken in turn, released, then taken in the other order. *)
Definition sample_ops : list op :=
  [OpAcquire sample_env 100 false 1; OpAcquire sample_env 200 false 2; OpRelease sample_env 200; OpRelease sample_env 100].

Lemma lockdep_run_ordered_witness :
  match run 0 1000 sample_ops (boot_validator sample_maps) with
  | Done v =>
      val_ok v /\
      (~ disabled v -> exists rank : Z -> nat,
         forall h c, (h, c) ∈ orders 0 1000 sample_ops (boot_validator sample_maps) -> (rank h < rank c)%nat)
  | Panic _ => True
  | Fault => False
  end.
Proof. apply lockdep_run_ordered. intros m. reflexivity. Defined.

Example sample_orders : orders 0 1000 sample_ops (boot_validator sample_maps) = [(1, 2)].
Proof. vm_compute. reflexivity. Qed.

(** The reverse order panics, whether or not a lock was released in between. *)
Example sample_reverse :
  match run 0 1000 (sample_ops ++ [OpAcquire sample_env 200 false 3; OpAcquire sample_env 100 false 4]) (boot_validator sample_maps) with
  | Panic msg => msg = "lockdep: lock order inversion (report above)"%string
  | _ => False
  end.
Proof. vm_compute. reflexivity. Qed.
