(* ===== verification/Inflate.v ===== *)
(** * DEFLATE decompression

    Models libs/compress/inflate.c: the bit reader, canonical Huffman tables, the
    three block types and the raw decompressor.  The input is the list of its
    bytes, the output the list of the bytes produced so far with the capacity of
    the buffer; the functions return C's [-1] where the code does.  [None] is an
    access outside a buffer, a read of a table entry that was never written, or a loop
    that outlives its fuel. *)

From S2P Require Import Prelude BootTypes.

(** ** The bit reader *)

(** Models src/libs/compress/inflate.c:8-14, BitReader. *)
Record BitReader := mkBr { br_data : list Z; br_bytePos : Z; br_bitBuf : Z; br_bitCount : Z }.
Definition br_size (br : BitReader) : Z := zlen (br_data br).

(** Models src/libs/compress/inflate.c:17-29, brBit. *)
Definition brBit (br : BitReader) : option (Z * BitReader) :=
  if (br_bitCount br =? 0) && (br_size br <=? br_bytePos br) then Some (-1, br)
  else
    br ← (if br_bitCount br =? 0 then
            b ← aget (br_data br) (br_bytePos br); Some (mkBr (br_data br) (br_bytePos br + 1) b 8)
          else Some br);
    Some (br_bitBuf br .& 1, mkBr (br_data br) (br_bytePos br) (br_bitBuf br >>! 1) (br_bitCount br - 1)).

(** Models src/libs/compress/inflate.c:34-40, brBits's loop over the [n] bits from [i] on. *)
Fixpoint br_bits (n : nat) (i v : Z) (br : BitReader) : option (Z * BitReader) :=
  match n with
  | O => Some (v, br)
  | S n =>
      '(bit, br) ← brBit br;
      if bit <? 0 then Some (-1, br) else br_bits n (i + 1) (v .| Z.shiftl bit i) br
  end.

(** Models src/libs/compress/inflate.c:32-42, brBits. *)
Definition brBits (n : Z) (br : BitReader) : option (Z * BitReader) := br_bits (Z.to_nat n) 0 0 br.

(** ** Huffman tables *)

Definition HUFF_MAX_BITS : Z := 15.
Definition HUFF_MAX_SYMS : Z := 288.

(** Models src/libs/compress/inflate.c:49-52, HuffTree; an entry of [symbols] is [None] until it
    is written. *)
Record HuffTree := mkHuff { h_counts : list Z; h_symbols : list (option Z) }.

(** Models src/libs/compress/inflate.c:63-68, huffBuild's count of the code lengths; the inner
    [None] is the return of false. *)
Fixpoint huff_count (n : nat) (i : Z) (lengths counts : list Z) : option (option (list Z)) :=
  match n with
  | O => Some (Some counts)
  | S n =>
      len ← aget lengths i;
      if HUFF_MAX_BITS <? len then Some None
      else
        c ← aget counts len;
        counts ← aset counts len (u16 (c + 1));
        huff_count n (i + 1) lengths counts
  end.

(** Models src/libs/compress/inflate.c:70-76, huffBuild's search for the longest length, from
    [len] down. *)
Fixpoint huff_max (len : nat) (counts : list Z) : option Z :=
  match len with
  | O => Some 0
  | S m =>
      c ← aget counts (Z.of_nat len);
      if negb (c =? 0) then Some (Z.of_nat len) else huff_max m counts
  end.

(** Models src/libs/compress/inflate.c:79-85, huffBuild's count of the unused codes. *)
Fixpoint huff_left (n : nat) (len left : Z) (counts : list Z) : option (option Z) :=
  match n with
  | O => Some (Some left)
  | S n =>
      c ← aget counts len;
      let left := Z.shiftl left 1 - c in
      if left <? 0 then Some None else huff_left n (len + 1) left counts
  end.

(** Models src/libs/compress/inflate.c:92-94, huffBuild's offsets. *)
Fixpoint huff_offs (n : nat) (len : Z) (counts offs : list Z) : option (list Z) :=
  match n with
  | O => Some offs
  | S n =>
      o ← aget offs len;
      c ← aget counts len;
      offs ← aset offs (len + 1) (u16 (o + c));
      huff_offs n (len + 1) counts offs
  end.

(** Models src/libs/compress/inflate.c:95-99, huffBuild's distribution of the symbols. *)
Fixpoint huff_fill (n : nat) (i : Z) (lengths offs : list Z) (symbols : list (option Z)) : option (list (option Z)) :=
  match n with
  | O => Some symbols
  | S n =>
      len ← aget lengths i;
      if negb (len =? 0) then
        o ← aget offs len;
        symbols ← aset symbols o (Some (u16 i));
        offs ← aset offs len (u16 (o + 1));
        huff_fill n (i + 1) lengths offs symbols
      else huff_fill n (i + 1) lengths offs symbols
  end.

(** Models src/libs/compress/inflate.c:58-101, huffBuild; the inner [None] is the return of
    false. *)
Definition huffBuild (lengths : list Z) (n : Z) (isCodeLengths : bool) : option (option HuffTree) :=
  if HUFF_MAX_SYMS <? n then Some None
  else
    counted ← huff_count (Z.to_nat n) 0 lengths (replicate 16 0);
    match counted with
    | None => Some None
    | Some counts =>
        counts ← aset counts 0 0;
        maxLen ← huff_max 15 counts;
        ok ← (if negb (maxLen =? 0) then
                r ← huff_left 15 1 1 counts;
                match r with
                | None => Some false
                | Some l => Some (negb ((0 <? l) && (isCodeLengths || negb (maxLen =? 1))))
                end
              else Some true);
        if (ok : bool) then
          offs ← huff_offs 15 1 counts (replicate 17 0);
          symbols ← huff_fill (Z.to_nat n) 0 lengths offs (replicate 288 None);
          Some (Some (mkHuff counts symbols))
        else Some None
    end.

(** Models src/libs/compress/inflate.c:109-123, huffDecode's loop over the [n] lengths from [len]
    on. *)
Fixpoint huff_decode (n : nat) (len code first index : Z) (h : HuffTree) (br : BitReader) : option (Z * BitReader) :=
  match n with
  | O => Some (-1, br)
  | S n =>
      '(bit, br) ← brBit br;
      if bit <? 0 then Some (-1, br)
      else
        let code := code .| bit in
        count ← aget (h_counts h) len;
        if code - first <? count then
          s ← aget (h_symbols h) (index + (code - first));
          sym ← s;
          Some (sym, br)
        else
          huff_decode n (len + 1) (Z.shiftl code 1) (Z.shiftl (first + count) 1) (index + count) h br
  end.

(** Models src/libs/compress/inflate.c:107-125, huffDecode. *)
Definition huffDecode (h : HuffTree) (br : BitReader) : option (Z * BitReader) := huff_decode 15 1 0 0 0 h br.

(** ** Tables *)

(** Models src/libs/compress/inflate.c:127-129, LENGTH_BASE. *)
Definition LENGTH_BASE : list Z :=
  [3; 4; 5; 6; 7; 8; 9; 10; 11; 13; 15; 17; 19; 23; 27; 31; 35; 43; 51; 59; 67; 83; 99; 115; 131; 163; 195; 227; 258].
(** Models src/libs/compress/inflate.c:130-131, LENGTH_EXTRA. *)
Definition LENGTH_EXTRA : list Z :=
  [0; 0; 0; 0; 0; 0; 0; 0; 1; 1; 1; 1; 2; 2; 2; 2; 3; 3; 3; 3; 4; 4; 4; 4; 5; 5; 5; 5; 0].
(** Models src/libs/compress/inflate.c:132-134, DIST_BASE. *)
Definition DIST_BASE : list Z :=
  [1; 2; 3; 4; 5; 7; 9; 13; 17; 25; 33; 49; 65; 97; 129; 193; 257; 385; 513; 769; 1025; 1537; 2049; 3073; 4097;
   6145; 8193; 12289; 16385; 24577].
(** Models src/libs/compress/inflate.c:135-136, DIST_EXTRA. *)
Definition DIST_EXTRA : list Z :=
  [0; 0; 0; 0; 1; 1; 2; 2; 3; 3; 4; 4; 5; 5; 6; 6; 7; 7; 8; 8; 9; 9; 10; 10; 11; 11; 12; 12; 13; 13].

(** Models src/libs/compress/inflate.c:138-162, buildFixedTrees. *)
Definition buildFixedTrees : option (HuffTree * HuffTree) :=
  lit ← huffBuild (replicate 144 8 ++ replicate 112 9 ++ replicate 24 7 ++ replicate 8 8) 288 false;
  dist ← huffBuild (replicate 32 5) 32 false;
  lit ← lit;
  dist ← dist;
  Some (lit, dist).

(** Models src/libs/compress/inflate.c:164-165, CLC_ORDER. *)
Definition CLC_ORDER : list Z := [16; 17; 18; 0; 8; 7; 9; 6; 10; 5; 11; 4; 12; 3; 13; 2; 14; 1; 15].

(** Models src/libs/compress/inflate.c:183-189, buildDynamicTrees's code-length lengths. *)
Fixpoint read_cl (n : nat) (i : Z) (cl : list Z) (br : BitReader) : option (option (list Z) * BitReader) :=
  match n with
  | O => Some (Some cl, br)
  | S n =>
      '(v, br) ← brBits 3 br;
      if v <? 0 then Some (None, br)
      else
        k ← aget CLC_ORDER i;
        cl ← aset cl k (u8 v);
        read_cl n (i + 1) cl br
  end.

(** Models src/libs/compress/inflate.c:219-224, buildDynamicTrees's repetition (and the
    same loop at 231-236): [rep] copies of [v] from [n] on, [None] when they leave the [total]. *)
Fixpoint repeat_length (rep : nat) (v n total : Z) (lengths : list Z) : option (option (Z * list Z)) :=
  match rep with
  | O => Some (Some (n, lengths))
  | S rep =>
      if total <=? n then Some None
      else lengths ← aset lengths n v; repeat_length rep v (n + 1) total lengths
  end.

(** Models src/libs/compress/inflate.c:202-240, buildDynamicTrees's loop over the code lengths. *)
Fixpoint read_lengths (fuel : nat) (n total : Z) (clTree : HuffTree) (lengths : list Z) (br : BitReader)
  : option (option (list Z) * BitReader) :=
  if total <=? n then Some (Some lengths, br)
  else match fuel with
  | O => None
  | S fuel =>
      '(sym, br) ← huffDecode clTree br;
      if sym <? 0 then Some (None, br)
      else if sym <? 16 then
        lengths ← aset lengths n (u8 sym);
        read_lengths fuel (n + 1) total clTree lengths br
      else if sym =? 16 then
        if n =? 0 then Some (None, br)
        else
          '(rep, br) ← brBits 2 br;
          if rep <? 0 then Some (None, br)
          else
            prev ← aget lengths (n - 1);
            r ← repeat_length (Z.to_nat (rep + 3)) prev n total lengths;
            match r with
            | None => Some (None, br)
            | Some (n, lengths) => read_lengths fuel n total clTree lengths br
            end
      else if (sym =? 17) || (sym =? 18) then
        '(rep, br) ← brBits (if sym =? 17 then 3 else 7) br;
        if rep <? 0 then Some (None, br)
        else
          r ← repeat_length (Z.to_nat (rep + (if sym =? 17 then 3 else 11))) 0 n total lengths;
          match r with
          | None => Some (None, br)
          | Some (n, lengths) => read_lengths fuel n total clTree lengths br
          end
      else Some (None, br)
  end.

(** Models src/libs/compress/inflate.c:167-245, buildDynamicTrees; the inner [None] is the return
    of false. *)
Definition buildDynamicTrees (br : BitReader) : option (option (HuffTree * HuffTree) * BitReader) :=
  '(hlitField, br) ← brBits 5 br;
  '(hdistField, br) ← brBits 5 br;
  '(hclenField, br) ← brBits 4 br;
  if (hlitField <? 0) || (hdistField <? 0) || (hclenField <? 0) then Some (None, br)
  else
    let hlit := hlitField + 257 in
    let hdist := hdistField + 1 in
    let hclen := hclenField + 4 in
    if (286 <? hlit) || (30 <? hdist) then Some (None, br)
    else
      '(cl, br) ← read_cl (Z.to_nat hclen) 0 (replicate 19 0) br;
      match cl with
      | None => Some (None, br)
      | Some clLengths =>
          t ← huffBuild clLengths 19 true;
          match t with
          | None => Some (None, br)
          | Some clTree =>
              let total := hlit + hdist in
              if 320 <? total then Some (None, br)
              else
                '(ls, br) ← read_lengths 320 0 total clTree (replicate 320 0) br;
                match ls with
                | None => Some (None, br)
                | Some lengths =>
                    eob ← aget lengths 256;
                    if eob =? 0 then Some (None, br)
                    else
                      lit ← huffBuild lengths hlit false;
                      match lit with
                      | None => Some (None, br)
                      | Some lit =>
                          dist ← huffBuild (drop (Z.to_nat hlit) lengths) hdist false;
                          match dist with
                          | None => Some (None, br)
                          | Some dist => Some (Some (lit, dist), br)
                          end
                      end
                end
          end
      end.

(** ** Blocks *)

(** [out[*outLen] = b; *outLen += 1]. *)
Definition out_push (cap b : Z) (out : list Z) : option (list Z) :=
  if zlen out <? cap then Some (out ++ [b]) else None.

(** Models src/libs/compress/inflate.c:288-292, inflateBlockData's copy of a match. *)
Fixpoint copy_match (n : nat) (srcPos cap : Z) (out : list Z) : option (list Z) :=
  match n with
  | O => Some out
  | S n => b ← aget out srcPos; out ← out_push cap b out; copy_match n (srcPos + 1) cap out
  end.

(** Models src/libs/compress/inflate.c:262-293, inflateBlockData on a length symbol: the match is
    read and copied. *)
Definition inflate_match (lsym cap : Z) (dist : HuffTree) (br : BitReader) (out : list Z)
  : option (Status * BitReader * list Z) :=
  if 29 <=? lsym then Some (STATUS_ERR_INVALID, br, out)
  else
    bits ← aget LENGTH_EXTRA lsym;
    '(extra, br) ← brBits bits br;
    if extra <? 0 then Some (STATUS_ERR_INVALID, br, out)
    else
      base ← aget LENGTH_BASE lsym;
      let length := base + extra in
      '(dsym, br) ← huffDecode dist br;
      if (dsym <? 0) || (30 <=? dsym) then Some (STATUS_ERR_INVALID, br, out)
      else
        dbits ← aget DIST_EXTRA dsym;
        '(dextra, br) ← brBits dbits br;
        if dextra <? 0 then Some (STATUS_ERR_INVALID, br, out)
        else
          dbase ← aget DIST_BASE dsym;
          let distance := dbase + dextra in
          if (distance =? 0) || (zlen out <? distance) then Some (STATUS_ERR_INVALID, br, out)
          else if cap - zlen out <? length then Some (STATUS_ERR_NO_MEMORY, br, out)
          else
            out ← copy_match (Z.to_nat length) (zlen out - distance) cap out;
            Some (STATUS_OK, br, out).

(** Models src/libs/compress/inflate.c:247-295, inflateBlockData. *)
Fixpoint inflateBlockData (fuel : nat) (lit dist : HuffTree) (cap : Z) (br : BitReader) (out : list Z)
  : option (Status * BitReader * list Z) :=
  match fuel with
  | O => None
  | S fuel =>
      '(sym, br) ← huffDecode lit br;
      if sym <? 0 then Some (STATUS_ERR_INVALID, br, out)
      else if sym <? 256 then
        if cap <=? zlen out then Some (STATUS_ERR_NO_MEMORY, br, out)
        else
          out ← out_push cap (u8 sym) out;
          inflateBlockData fuel lit dist cap br out
      else if sym =? 256 then Some (STATUS_OK, br, out)
      else
        '(st, br, out) ← inflate_match (sym - 257) cap dist br out;
        match st with
        | STATUS_OK => inflateBlockData fuel lit dist cap br out
        | st => Some (st, br, out)
        end
  end.

(** Models src/libs/compress/inflate.c:309-335, compressInflateRaw on a stored block. *)
Definition inflate_stored (cap : Z) (br : BitReader) (out : list Z) : option (Status * BitReader * list Z) :=
  let br := mkBr (br_data br) (br_bytePos br) (br_bitBuf br) 0 in
  if br_size br - br_bytePos br <? 4 then Some (STATUS_ERR_INVALID, br, out)
  else
    b0 ← aget (br_data br) (br_bytePos br);
    b1 ← aget (br_data br) (br_bytePos br + 1);
    b2 ← aget (br_data br) (br_bytePos br + 2);
    b3 ← aget (br_data br) (br_bytePos br + 3);
    let len := u16 (b0 .| Z.shiftl b1 8) in
    let nlen := u16 (b2 .| Z.shiftl b3 8) in
    if negb (u16 (Z.lnot len) =? nlen) then Some (STATUS_ERR_INVALID, br, out)
    else
      let br := mkBr (br_data br) (br_bytePos br + 4) (br_bitBuf br) 0 in
      if br_size br - br_bytePos br <? len then Some (STATUS_ERR_INVALID, br, out)
      else if cap - zlen out <? len then Some (STATUS_ERR_NO_MEMORY, br, out)
      else
        bytes ← peek (br_data br) (br_bytePos br) len;
        Some (STATUS_OK, mkBr (br_data br) (br_bytePos br + len) (br_bitBuf br) 0, out ++ bytes).

(** Models src/libs/compress/inflate.c:309-351, compressInflateRaw on a block of type [btype]. *)
Definition inflate_block (btype cap : Z) (br : BitReader) (out : list Z) : option (Status * BitReader * list Z) :=
  let fuel := Z.to_nat (8 * br_size br + 1) in
  if btype =? 0 then inflate_stored cap br out
  else if btype =? 1 then
    '(lit, dist) ← buildFixedTrees;
    inflateBlockData fuel lit dist cap br out
  else if btype =? 2 then
    '(trees, br) ← buildDynamicTrees br;
    match trees with
    | None => Some (STATUS_ERR_INVALID, br, out)
    | Some (lit, dist) => inflateBlockData fuel lit dist cap br out
    end
  else Some (STATUS_ERR_INVALID, br, out).

(** Models src/libs/compress/inflate.c:302-355, compressInflateRaw's loop over the blocks. *)
Fixpoint inflate_blocks (fuel : nat) (cap : Z) (br : BitReader) (out : list Z) : option (Status * BitReader * list Z) :=
  match fuel with
  | O => None
  | S fuel =>
      '(bfinal, br) ← brBit br;
      '(btype, br) ← brBits 2 br;
      if (bfinal <? 0) || (btype <? 0) then Some (STATUS_ERR_INVALID, br, out)
      else
        '(st, br, out) ← inflate_block btype cap br out;
        match st with
        | STATUS_OK => if negb (bfinal =? 0) then Some (STATUS_OK, br, out) else inflate_blocks fuel cap br out
        | st => Some (st, br, out)
        end
  end.

(** Models src/libs/compress/inflate.c:297-363, compressInflateRaw: the status, the bytes
    produced and the bytes of the input used. *)
Definition compressInflateRaw (input : list Z) (outCap : Z) : option (Status * list Z * Z) :=
  '(st, br, out) ← inflate_blocks (Z.to_nat (8 * zlen input + 1)) outCap (mkBr input 0 0 0) [];
  Some (st, out, match st with STATUS_OK => br_bytePos br | _ => 0 end).

(** ** Bits *)

(** The [n] low bits of [v], lowest first. *)
Fixpoint bits_of (n : nat) (v : Z) : list bool :=
  match n with O => [] | S n => Z.odd v :: bits_of n (Z.div2 v) end.

Definition byte_bits (l : list Z) : list bool := flat_map (bits_of 8) l.

(** The number with the bits [l], lowest first. *)
Fixpoint bits_val (l : list bool) : Z :=
  match l with [] => 0 | b :: l => Z.b2z b + 2 * bits_val l end.

Lemma length_bits_of n : forall v, length (bits_of n v) = n.
Proof. induction n as [|n IH]; intros v; simpl; [done|by rewrite IH]. Qed.

Lemma length_byte_bits l : length (byte_bits l) = (8 * length l)%nat.
Proof. induction l as [|b l IH]; [done|]. unfold byte_bits in *. cbn [flat_map]. rewrite length_app, IH, length_bits_of. simpl length. lia. Qed.

Lemma byte_bits_app l k : byte_bits (l ++ k) = byte_bits l ++ byte_bits k.
Proof. apply flat_map_app. Qed.

Lemma bits_val_range l : 0 <= bits_val l < 2 ^ Z.of_nat (length l).
Proof.
  induction l as [|b l IH]; [simpl; lia|]. simpl length. rewrite Nat2Z.inj_succ, Z.pow_succ_r by lia.
  cbn [bits_val]. destruct b; simpl Z.b2z; lia.
Qed.

Lemma bits_val_of n v : 0 <= v < 2 ^ Z.of_nat n -> bits_val (bits_of n v) = v.
Proof.
  revert v. induction n as [|n IH]; intros v Hv; [simpl in *; lia|]. cbn [bits_of bits_val].
  rewrite Nat2Z.inj_succ, Z.pow_succ_r in Hv by lia. rewrite IH by (rewrite Z.div2_div; dlia).
  rewrite (Z.div2_odd v) at 3. lia.
Qed.

(** ** The reader as a list of bits *)

Record br_ok (br : BitReader) : Prop := {
  bo_bytes : is_bytes (br_data br);
  bo_pos : 0 <= br_bytePos br <= br_size br;
  bo_count : 0 <= br_bitCount br <= 7;
  bo_buf : is_u8 (br_bitBuf br);
  bo_begun : 0 < br_bitCount br -> 1 <= br_bytePos br
}.

(** The bits still to be read. *)
Definition rbits (br : BitReader) : list bool :=
  bits_of (Z.to_nat (br_bitCount br)) (br_bitBuf br) ++ byte_bits (drop (Z.to_nat (br_bytePos br)) (br_data br)).

Lemma rbits_length br :
  br_ok br -> Z.of_nat (length (rbits br)) = br_bitCount br + 8 * (br_size br - br_bytePos br).
Proof.
  intros B. unfold rbits. rewrite length_app, length_bits_of, length_byte_bits, length_drop.
  pose proof (bo_pos br B). pose proof (bo_count br B). unfold br_size, zlen in *. lia.
Qed.

Lemma div2_u8 v : is_u8 v -> is_u8 (v >>! 1) /\ Z.div2 v = v >>! 1.
Proof. intros Hv. split; [by apply (shiftr_range 8)|]. by rewrite Z.div2_spec. Qed.

(** One bit. *)
Lemma brBit_spec br :
  br_ok br ->
  match rbits br with
  | [] => brBit br = Some (-1, br)
  | b :: r => exists br', brBit br = Some (Z.b2z b, br') /\ br_ok br' /\ br_data br' = br_data br /\ rbits br' = r
  end.
Proof.
  intros B. pose proof (bo_pos br B) as Hp. pose proof (bo_count br B) as Hc.
  assert (Hodd : forall v, v .& 1 = Z.b2z (Z.odd v)).
  { intros v. change 1 with (Z.ones 1) at 1. rewrite Z.land_ones by lia. change (2 ^ 1) with 2. by rewrite Zmod_odd. }
  unfold brBit. destruct (Z.eqb_spec (br_bitCount br) 0) as [Hz|Hnz]; simpl andb.
  - unfold rbits. rewrite Hz. change (bits_of (Z.to_nat 0) (br_bitBuf br)) with (@nil bool). rewrite app_nil_l.
    destruct (Z.leb_spec (br_size br) (br_bytePos br)) as [Hle|Hlt].
    + rewrite drop_ge by (unfold br_size, zlen in *; lia). reflexivity.
    + destruct (aget_Some (br_data br) (br_bytePos br)) as (b & -> & Hb); [unfold br_size in *; lia|]. cbn [mbind option_bind].
      rewrite (drop_S _ _ _ Hb). cbn [byte_bits flat_map bits_of app].
      assert (Hu : is_u8 b) by (by apply (Forall_lookup_1 _ _ _ _ (bo_bytes br B) Hb)). destruct (div2_u8 b Hu) as [H1 H2].
      eexists. split; [by rewrite <- Hodd|]. split; [split; simpl; [apply B|unfold br_size in *; simpl; lia|lia|exact H1|pose proof (bo_begun br B); lia]|].
      split; [reflexivity|]. cbn [br_bitBuf br_bitCount br_bytePos br_data]. rewrite <- H2. change (Z.to_nat (8 - 1)) with 7%nat.
      replace (Z.to_nat (br_bytePos br + 1)) with (S (Z.to_nat (br_bytePos br))) by lia. reflexivity.
  - cbn [mbind option_bind]. unfold rbits.
    destruct (Z.to_nat (br_bitCount br)) as [|k] eqn:Hk; [lia|]. cbn [bits_of app].
    destruct (div2_u8 _ (bo_buf br B)) as [H1 H2].
    eexists. split; [by rewrite <- Hodd|]. split; [split; simpl; [apply B|unfold br_size in *; simpl; lia|lia|exact H1|pose proof (bo_begun br B); lia]|].
    split; [reflexivity|]. cbn [br_bitBuf br_bitCount br_bytePos br_data]. rewrite <- H2.
    by replace (Z.to_nat (br_bitCount br - 1)) with k by lia.
Qed.

(** [br'] is [br] some bits, at least [k], further on. *)
Record advances (k : nat) (br br' : BitReader) : Prop := {
  ad_ok : br_ok br';
  ad_data : br_data br' = br_data br;
  ad_bits : exists used, rbits br = used ++ rbits br' /\ (k <= length used)%nat
}.

Lemma advances_refl br : br_ok br -> advances 0 br br.
Proof. intros B. split; [assumption|reflexivity|]. by exists []. Qed.

Lemma advances_trans j k br1 br2 br3 : advances j br1 br2 -> advances k br2 br3 -> advances (j + k) br1 br3.
Proof.
  intros [_ D1 (u1 & E1 & L1)] [O D2 (u2 & E2 & L2)]. split; [assumption|congruence|].
  exists (u1 ++ u2). rewrite E1, E2, app_assoc. split; [reflexivity|]. rewrite length_app. lia.
Qed.

Lemma advances_weaken j k br1 br2 : advances j br1 br2 -> (k <= j)%nat -> advances k br1 br2.
Proof. intros [O D (u & E & L)] H. split; [assumption..|]. exists u. split; [assumption|lia]. Qed.

Lemma advances_length k br br' : advances k br br' -> (k + length (rbits br') <= length (rbits br))%nat.
Proof. intros [_ _ (u & E & L)]. rewrite E, length_app. lia. Qed.

(** What brBits reads. *)
Lemma br_bits_read n : forall i v br l r,
  br_ok br -> rbits br = l ++ r -> length l = n -> 0 <= i -> 0 <= v < 2 ^ i ->
  exists br', br_bits n i v br = Some (v + 2 ^ i * bits_val l, br') /\ br_ok br' /\ br_data br' = br_data br /\ rbits br' = r.
Proof.
  induction n as [|n IH]; intros i v br l r B Hl Hn Hi Hv; cbn [br_bits].
  { destruct l; [|discriminate]. exists br. simpl. rewrite Z.mul_0_r, Z.add_0_r. auto. }
  destruct l as [|b l]; [discriminate|]. simpl in Hn. pose proof (brBit_spec br B) as Hb. rewrite Hl in Hb. cbn [app] in Hb.
  destruct Hb as (br1 & -> & B1 & D1 & R1). cbn [mbind option_bind].
  destruct (Z.ltb_spec (Z.b2z b) 0); [destruct b; simpl in *; lia|].
  assert (Hor : v .| Z.shiftl (Z.b2z b) i = v + 2 ^ i * Z.b2z b).
  { rewrite Z.lor_comm, Z.shiftl_mul_pow2 by lia. rewrite (add_lor_disjoint _ _ i); [lia|lia| |lia].
    rewrite Z.mod_mul; [reflexivity|]. apply Z.pow_nonzero; lia. }
  rewrite Hor. destruct (IH (i + 1) (v + 2 ^ i * Z.b2z b) br1 l r B1 R1) as (br' & E & B' & D' & R'); [lia|lia| |].
  { rewrite Z.pow_add_r by lia. change (2 ^ 1) with 2. destruct b; simpl Z.b2z; lia. }
  exists br'. split; [|split; [assumption|split; [congruence|assumption]]]. rewrite E. f_equal. f_equal.
  cbn [bits_val]. rewrite Z.pow_add_r by lia. change (2 ^ 1) with 2. lia.
Qed.

Lemma br_bits_eof n : forall i v br,
  br_ok br -> (length (rbits br) < n)%nat -> exists br', br_bits n i v br = Some (-1, br') /\ advances 0 br br'.
Proof.
  induction n as [|n IH]; intros i v br B Hn; [lia|]. cbn [br_bits]. pose proof (brBit_spec br B) as Hb.
  destruct (rbits br) as [|b r] eqn:Hr; [rewrite Hb; exists br; split; [reflexivity|by apply advances_refl]|].
  destruct Hb as (br1 & -> & B1 & D1 & R1). cbn [mbind option_bind].
  destruct (Z.ltb_spec (Z.b2z b) 0); [destruct b; simpl in *; lia|].
  destruct (IH (i + 1) (v .| Z.shiftl (Z.b2z b) i) br1 B1) as (br' & -> & A); [rewrite R1; simpl in Hn; lia|].
  exists br'. split; [reflexivity|]. assert (A1 : advances 1 br br1) by (split; [assumption..|]; exists [b]; rewrite Hr, R1; auto).
  eapply advances_weaken; [eapply advances_trans; [exact A1|exact A]|lia].
Qed.

Lemma brBits_spec n br :
  br_ok br -> 0 <= n ->
  exists v br', brBits n br = Some (v, br') /\
    ((v = -1 /\ advances 0 br br') \/ (0 <= v < 2 ^ n /\ advances (Z.to_nat n) br br')).
Proof.
  intros B Hn. unfold brBits. destruct (decide (length (rbits br) < Z.to_nat n)%nat) as [Hlt|Hge].
  - destruct (br_bits_eof _ 0 0 br B Hlt) as (br' & E & A). exists (-1), br'. auto.
  - set (l := take (Z.to_nat n) (rbits br)). assert (Hl : length l = Z.to_nat n) by (unfold l; rewrite length_take; lia).
    assert (Hsp : rbits br = l ++ drop (Z.to_nat n) (rbits br)) by (unfold l; by rewrite take_drop).
    destruct (br_bits_read _ 0 0 br l _ B Hsp Hl) as (br' & E & B' & D' & R'); [lia|simpl; lia|].
    exists (bits_val l), br'. split; [rewrite E; do 2 f_equal; lia|]. right. pose proof (bits_val_range l) as Hr. rewrite Hl in Hr.
    rewrite Z2Nat.id in Hr by lia. split; [assumption|]. split; [assumption..|]. exists l. split; [by rewrite R'|lia].
Qed.

(** ** Building a table *)

(** The array [l] of [k] elements holds [f]. *)
Definition holds_fun {A} (k : Z) (l : list A) (f : Z -> A) : Prop :=
  zlen l = k /\ forall i, 0 <= i < k -> aget l i = Some (f i).

Lemma holds_replicate {A} n (x : A) : holds_fun (Z.of_nat n) (replicate n x) (fun _ => x).
Proof.
  split; [apply zlen_replicate|]. intros i Hi. apply aget_lookup. split; [lia|]. apply lookup_replicate_2. lia.
Qed.

Lemma holds_set {A} k (l : list A) f i v :
  holds_fun k l f -> 0 <= i < k ->
  aset l i v = Some (<[Z.to_nat i := v]> l) /\ holds_fun k (<[Z.to_nat i := v]> l) (fun j => if j =? i then v else f j).
Proof.
  intros [Hl Hf] Hi. split; [by rewrite aset_Some by lia|]. split; [by rewrite zlen_insert|].
  intros j Hj. rewrite aget_insert by lia. destruct (j =? i); [reflexivity|by apply Hf].
Qed.

Lemma holds_ext {A} k (l : list A) f g : holds_fun k l f -> (forall i, 0 <= i < k -> f i = g i) -> holds_fun k l g.
Proof. intros [Hl Hf] H. split; [assumption|]. intros i Hi. by rewrite Hf, H. Qed.

(** How many of [l] are [x]. *)
Fixpoint occ (x : Z) (l : list Z) : Z :=
  match l with [] => 0 | y :: l => (if y =? x then 1 else 0) + occ x l end.

Lemma occ_app x l k : occ x (l ++ k) = occ x l + occ x k.
Proof. induction l as [|y l IH]; simpl; lia. Qed.

Lemma occ_range x l : 0 <= occ x l <= zlen l.
Proof.
  induction l as [|y l IH]; [unfold zlen; simpl; lia|]. cbn [occ]. rewrite zlen_cons. destruct (y =? x); lia.
Qed.

(** Code lengths: the first [n] of a buffer of non-negative numbers. *)
Definition lens_ok (lengths : list Z) (n : Z) : Prop := 0 <= n <= zlen lengths /\ Forall (fun x => 0 <= x) lengths.

Lemma lens_next lengths n i k :
  lens_ok lengths n -> 0 <= i -> i + Z.of_nat (S k) = n ->
  exists x, aget lengths i = Some x /\ 0 <= x /\ take (Z.to_nat (i + 1)) lengths = take (Z.to_nat i) lengths ++ [x] /\
    exists rest, take (Z.to_nat n) lengths = take (Z.to_nat i) lengths ++ x :: rest.
Proof.
  intros [Hn Hp] Hi Hk. destruct (aget_Some lengths i) as (x & Hx & Hl); [lia|]. exists x. split; [assumption|].
  split; [by apply (Forall_lookup_1 _ _ _ _ Hp Hl)|]. replace (Z.to_nat (i + 1)) with (S (Z.to_nat i)) by lia. split; [by apply take_S_r|].
  exists (drop (S (Z.to_nat i)) (take (Z.to_nat n) lengths)).
  rewrite <- (take_drop (S (Z.to_nat i)) (take (Z.to_nat n) lengths)) at 1. rewrite take_take, Nat.min_l by lia.
  rewrite (take_S_r _ _ _ Hl), <- app_assoc. reflexivity.
Qed.

Lemma huff_count_spec lengths n k : forall i counts,
  lens_ok lengths n -> n <= 288 -> 0 <= i -> i + Z.of_nat k = n ->
  holds_fun 16 counts (fun len => occ len (take (Z.to_nat i) lengths)) -> Forall (fun x => x <= 15) (take (Z.to_nat i) lengths) ->
  exists r, huff_count k i lengths counts = Some r /\
    match r with
    | Some counts' => holds_fun 16 counts' (fun len => occ len (take (Z.to_nat n) lengths)) /\
        Forall (fun x => x <= 15) (take (Z.to_nat n) lengths)
    | None => ~ Forall (fun x => x <= 15) (take (Z.to_nat n) lengths)
    end.
Proof.
  induction k as [|k IH]; intros i counts L Hn Hi Hk C F; cbn [huff_count].
  { exists (Some counts). split; [reflexivity|]. by replace n with i by lia. }
  destruct (lens_next lengths n i k L Hi Hk) as (x & -> & Hx & Ht & rest & Hrest). cbn [mbind option_bind].
  unfold HUFF_MAX_BITS. destruct (Z.ltb_spec 15 x) as [Hgt|Hle].
  { exists None. split; [reflexivity|]. rewrite Hrest. intros [_ [Hf _]%Forall_cons_1]%Forall_app. lia. }
  destruct C as [Cl Cf]. rewrite Cf by lia. cbn [mbind option_bind].
  destruct (holds_set 16 counts _ x (u16 (occ x (take (Z.to_nat i) lengths) + 1)) (conj Cl Cf)) as [-> C']; [lia|]. cbn [mbind option_bind].
  apply IH; [assumption..|lia|lia| |].
  - eapply holds_ext; [exact C'|]. intros j Hj. simpl. rewrite Ht, occ_app. simpl. rewrite (Z.eqb_sym x j).
    destruct (Z.eqb_spec j x) as [->|]; [|lia]. pose proof (occ_range x (take (Z.to_nat i) lengths)) as Ho.
    unfold zlen in Ho. rewrite length_take in Ho. rewrite u16_small by (words; lia). lia.
  - rewrite Ht. apply Forall_app. split; [assumption|]. by apply Forall_singleton.
Qed.

(** The number of codes shorter than [len]. *)
Fixpoint shorter (f : Z -> Z) (len : nat) : Z :=
  match len with O => 0 | S O => 0 | S (S _ as m) => shorter f m + f (Z.of_nat m) end.

Lemma shorter_S f len : (1 <= len)%nat -> shorter f (S len) = shorter f len + f (Z.of_nat len).
Proof. destruct len; [lia|]. reflexivity. Qed.

(** The total over the lengths 1 to 15 is the number of non-zero lengths. *)
Lemma shorter_occ l m : (m <= 16)%nat -> Forall (fun x => 0 <= x) l -> 0 <= shorter (fun len => occ len l) m <= zlen l.
Proof.
  intros Hm Hp. induction l as [|y l IH].
  { assert (H : forall k, shorter (fun _ => 0) k = 0) by (induction k as [|[|k] IHk]; [done..|]; rewrite shorter_S by lia; lia).
    unfold zlen. simpl. rewrite H. lia. }
  apply Forall_cons_1 in Hp as [Hy Hp]. specialize (IH Hp). rewrite zlen_cons.
  assert (Hs : forall k, shorter (fun len => occ len (y :: l)) k =
    shorter (fun len => occ len l) k + (if (1 <=? y) && (y <? Z.of_nat k) then 1 else 0)).
  { induction k as [|k IHk]; [cbn [shorter]; destruct (Z.leb_spec 1 y), (Z.ltb_spec y (Z.of_nat 0)); simpl; lia|].
    destruct (decide (k = 0)%nat) as [->|]; [cbn [shorter]; destruct (Z.leb_spec 1 y), (Z.ltb_spec y (Z.of_nat 1)); simpl; lia|].
    rewrite !shorter_S, IHk by lia. cbn [occ].
    destruct (Z.leb_spec 1 y), (Z.ltb_spec y (Z.of_nat k)), (Z.ltb_spec y (Z.of_nat (S k))), (Z.eqb_spec y (Z.of_nat k)); simpl; lia. }
  rewrite Hs. destruct (_ && _); lia.
Qed.

Lemma shorter_mono f a b : (forall i, 0 <= f i) -> (a <= b)%nat -> shorter f a <= shorter f b.
Proof.
  intros Hf Hab. induction Hab as [|b Hab IH]; [lia|]. destruct (decide (b = 0)%nat) as [->|]; [simpl in *; destruct a; simpl; lia|].
  rewrite shorter_S by lia. specialize (Hf (Z.of_nat b)). lia.
Qed.

Lemma huff_max_total counts f len : holds_fun 16 counts f -> (len <= 15)%nat -> exists m, huff_max len counts = Some m.
Proof.
  intros [Hl Hf]. induction len as [|m IH]; intros Hm; cbn [huff_max]; [eauto|].
  rewrite Hf by lia. cbn [mbind option_bind]. destruct (negb _); [eauto|]. apply IH. lia.
Qed.

Lemma huff_left_total counts f n : holds_fun 16 counts f -> forall len left,
  1 <= len -> len + Z.of_nat n <= 16 -> exists r, huff_left n len left counts = Some r.
Proof.
  intros [Hl Hf]. induction n as [|n IH]; intros len left H1 Hn; cbn [huff_left]; [eauto|].
  rewrite Hf by lia. cbn [mbind option_bind]. cbv zeta. destruct (_ <? 0); [eauto|]. apply IH; lia.
Qed.

Section Table.
Context (counts : list Z) (f : Z -> Z).
Context (C : holds_fun 16 counts f) (Hpos : forall i, 0 <= f i) (Htot : shorter f 16 <= 288).

Lemma shorter_range m : (m <= 16)%nat -> 0 <= shorter f m <= 288.
Proof.
  intros Hm. pose proof (shorter_mono f m 16 Hpos Hm). pose proof (shorter_mono f 0 m Hpos ltac:(lia)) as H0.
  change (shorter f 0) with 0 in H0. lia.
Qed.

Lemma huff_offs_spec n : forall (len : nat) offs,
  (1 <= len)%nat -> (len + n = 16)%nat -> zlen offs = 17 ->
  (forall j, (1 <= j <= len)%nat -> aget offs (Z.of_nat j) = Some (shorter f j)) ->
  exists offs', huff_offs n (Z.of_nat len) counts offs = Some offs' /\ zlen offs' = 17 /\
    forall j, (1 <= j <= 16)%nat -> aget offs' (Z.of_nat j) = Some (shorter f j).
Proof.
  induction n as [|n IH]; intros len offs H1 Hn Hl Ho; cbn [huff_offs].
  { exists offs. split; [reflexivity|]. split; [assumption|]. intros j Hj. apply Ho. lia. }
  rewrite Ho by lia. cbn [mbind option_bind]. destruct C as [_ Cf]. rewrite Cf by lia. cbn [mbind option_bind].
  rewrite <- shorter_S by lia. pose proof (shorter_range (S len) ltac:(lia)). rewrite u16_small by (words; lia).
  rewrite aset_Some by lia. cbn [mbind option_bind]. replace (Z.of_nat len + 1) with (Z.of_nat (S len)) by lia.
  apply IH; [lia|lia|by rewrite zlen_insert|]. intros j Hj. rewrite aget_insert by lia.
  destruct (Z.eqb_spec (Z.of_nat j) (Z.of_nat (S len))) as [He|Hne]; [by replace j with (S len) by lia|]. apply Ho. lia.
Qed.

(** Entries of every length written so far are symbols below [n]. *)
Definition filled (n : Z) (o : Z -> Z) (symbols : list (option Z)) : Prop :=
  zlen symbols = 288 /\
  forall (j : nat) k, (1 <= j <= 15)%nat -> shorter f j <= k < o (Z.of_nat j) ->
    exists s, aget symbols k = Some (Some s) /\ 0 <= s < n.

Lemma filled_set n o symbols len v :
  filled n o symbols -> (1 <= len <= 15)%nat -> shorter f len <= o (Z.of_nat len) < 288 -> 0 <= v < n ->
  (forall j, (1 <= j <= 15)%nat -> o (Z.of_nat j) <= shorter f (S j)) -> o (Z.of_nat len) < shorter f (S len) ->
  filled n (fun j => if j =? Z.of_nat len then o (Z.of_nat len) + 1 else o j) (<[Z.to_nat (o (Z.of_nat len)) := Some v]> symbols).
Proof.
  intros [Hl Hf] Hlen Ho Hv Hcap Hlt. pose proof (shorter_range len ltac:(lia)). split; [by rewrite zlen_insert|].
  intros j k Hj Hk. rewrite aget_insert by lia. destruct (Z.eqb_spec k (o (Z.of_nat len))) as [->|Hne]; [by exists v|].
  apply (Hf j k Hj). destruct (Z.eqb_spec (Z.of_nat j) (Z.of_nat len)) as [He|Hn]; [|assumption].
  assert (j = len) as -> by lia. lia.
Qed.

Lemma huff_fill_spec lengths n k : forall i offs symbols,
  lens_ok lengths n -> n <= 288 -> Forall (fun x => x <= 15) (take (Z.to_nat n) lengths) ->
  (forall len, (1 <= len <= 15)%nat -> f (Z.of_nat len) = occ (Z.of_nat len) (take (Z.to_nat n) lengths)) ->
  0 <= i -> i + Z.of_nat k = n -> zlen offs = 17 ->
  (forall len, (1 <= len <= 15)%nat -> aget offs (Z.of_nat len) = Some (shorter f len + occ (Z.of_nat len) (take (Z.to_nat i) lengths))) ->
  filled n (fun len => shorter f (Z.to_nat len) + occ len (take (Z.to_nat i) lengths)) symbols ->
  exists symbols', huff_fill k i lengths offs symbols = Some symbols' /\
    filled n (fun len => shorter f (Z.to_nat len) + occ len (take (Z.to_nat n) lengths)) symbols'.
Proof.
  induction k as [|k IH]; intros i offs symbols L Hn H15 Hf Hi Hk Hol Ho F; cbn [huff_fill].
  { exists symbols. split; [reflexivity|]. assert (i = n) as -> by lia. exact F. }
  destruct (lens_next lengths n i k L Hi Hk) as (x & Hx & Hx0 & Ht & rest & Hrest). rewrite Hx. cbn [mbind option_bind].
  assert (Hpre : forall y, occ y (take (Z.to_nat i) lengths) + (if x =? y then 1 else 0) <= occ y (take (Z.to_nat n) lengths)).
  { intros y. rewrite Hrest, occ_app. cbn [occ]. pose proof (occ_range y rest). lia. }
  destruct (Z.eqb_spec x 0) as [->|Hnz]; cbn [negb].
  { apply IH; try assumption; try lia.
    - intros len Hlen. rewrite Ho, Ht, occ_app by assumption. cbn [occ]. destruct (Z.eqb_spec 0 (Z.of_nat len)); [lia|]. f_equal. lia.
    - destruct F as [Fl Ff]. split; [assumption|]. intros j y Hj Hy. apply (Ff j y Hj). rewrite Ht, occ_app in Hy. cbn [occ] in Hy.
      destruct (Z.eqb_spec 0 (Z.of_nat j)); [lia|]. lia. }
  assert (Hx15 : x <= 15).
  { rewrite Hrest in H15. apply Forall_app in H15 as [_ [H15 _]%Forall_cons_1]. assumption. }
  set (len := Z.to_nat x). assert (Hlen : (1 <= len <= 15)%nat) by lia. replace x with (Z.of_nat len) in * by lia.
  pose proof (Hpre (Z.of_nat len)) as Hp. rewrite Z.eqb_refl, <- (Hf len Hlen) in Hp.
  pose proof (shorter_range (S len) ltac:(lia)) as Hs. rewrite shorter_S in Hs by lia. pose proof (shorter_range len ltac:(lia)).
  pose proof (occ_range (Z.of_nat len) (take (Z.to_nat i) lengths)).
  rewrite Ho by assumption. cbn [mbind option_bind]. destruct F as [Fl Ff]. rewrite aset_Some by lia. cbn [mbind option_bind].
  rewrite aset_Some by lia. cbn [mbind option_bind]. rewrite u16_small, u16_small by (words; lia).
  apply IH; try assumption; try lia; [by rewrite zlen_insert| |].
  - intros j Hj. rewrite aget_insert, Ht, occ_app by lia. cbn [occ]. rewrite (Z.eqb_sym (Z.of_nat len)).
    destruct (Z.eqb_spec (Z.of_nat j) (Z.of_nat len)) as [He|]; [replace j with len by lia; f_equal; lia|]. rewrite Ho by assumption. f_equal. lia.
  - pose proof (filled_set n (fun l => shorter f (Z.to_nat l) + occ l (take (Z.to_nat i) lengths)) symbols len i (conj Fl Ff) Hlen) as FS. cbv beta in FS. rewrite Nat2Z.id in FS.
    destruct FS as [Gl Gf]; try lia.
    { intros j Hj. rewrite Nat2Z.id, shorter_S by lia. pose proof (Hpre (Z.of_nat j)) as Hpj. rewrite Hf by assumption.
      destruct (Z.of_nat len =? Z.of_nat j); lia. }
    { rewrite shorter_S by lia. lia. }
    split; [assumption|]. intros j y Hj Hy. apply (Gf j y Hj). rewrite Ht, occ_app in Hy. cbn [occ] in Hy.
    rewrite (Z.eqb_sym (Z.of_nat j)). destruct (Z.eqb_spec (Z.of_nat len) (Z.of_nat j)) as [He|]; [|lia].
    replace j with len in * by lia. rewrite Nat2Z.id in Hy. lia.
Qed.
End Table.

(** A table whose codes all lead to a symbol below [n]. *)
Definition tree_ok (n : Z) (h : HuffTree) : Prop :=
  exists f, holds_fun 16 (h_counts h) f /\ (forall i, 0 <= f i) /\ shorter f 16 <= 288 /\
    forall k, 0 <= k < shorter f 16 -> exists s, aget (h_symbols h) k = Some (Some s) /\ 0 <= s < n.

Lemma shorter_between f m k : 0 <= k < shorter f m -> exists j, (1 <= j < m)%nat /\ shorter f j <= k < shorter f (S j).
Proof.
  induction m as [|m IH]; intros Hk; [change (shorter f 0) with 0 in Hk; lia|].
  destruct (decide (m = 0)%nat) as [->|]; [change (shorter f 1) with 0 in Hk; lia|].
  destruct (Z.lt_ge_cases k (shorter f m)) as [Hlt|Hge].
  - destruct IH as (j & Hj & Hr); [lia|]. exists j. split; [lia|assumption].
  - exists m. split; [lia|]. lia.
Qed.

Lemma shorter_ext f g m : (forall j, (1 <= j < m)%nat -> f (Z.of_nat j) = g (Z.of_nat j)) -> shorter f m = shorter g m.
Proof.
  induction m as [|m IH]; intros H; [reflexivity|]. destruct (decide (m = 0)%nat) as [->|]; [reflexivity|].
  rewrite !shorter_S, IH, H by (try lia; intros; apply H; lia). reflexivity.
Qed.

Lemma huffBuild_spec lengths n cl :
  lens_ok lengths n -> n <= 288 ->
  exists r, huffBuild lengths n cl = Some r /\ match r with Some h => tree_ok n h | None => True end.
Proof.
  intros L Hn. unfold huffBuild, HUFF_MAX_SYMS. destruct (Z.ltb_spec 288 n); [lia|].
  destruct (huff_count_spec lengths n (Z.to_nat n) 0 (replicate 16 0) L Hn) as (r & -> & Hr); [lia|destruct L; lia| |constructor|].
  { eapply holds_ext; [apply (holds_replicate 16)|]. reflexivity. }
  cbn [mbind option_bind]. destruct r as [counts|]; [|by exists None]. destruct Hr as [C H15].
  set (ls := take (Z.to_nat n) lengths) in *.
  destruct (holds_set 16 counts _ 0 0 C) as [-> C']; [lia|]. cbn [mbind option_bind].
  set (counts' := <[Z.to_nat 0 := 0]> counts) in *. set (f := fun j => if j =? 0 then 0 else occ j ls) in *.
  destruct (huff_max_total counts' f 15 C') as (m & ->); [lia|]. cbn [mbind option_bind].
  assert (Hok : exists b : bool, (if negb (m =? 0) then
      r ← huff_left 15 1 1 counts';
      match r with None => Some false | Some l => Some (negb ((0 <? l) && (cl || negb (m =? 1)))) end
    else Some true) = Some b).
  { destruct (negb _); [|eauto]. destruct (huff_left_total counts' f 15 C' 1 1) as (r & ->); [lia..|].
    cbn [mbind option_bind]. destruct r; eauto. }
  destruct Hok as (b & ->). cbn [mbind option_bind]. destruct b; [|by exists None].
  assert (Hpos : forall i, 0 <= f i) by (intros i; unfold f; destruct (i =? 0); [lia|apply occ_range]).
  assert (Hsh : forall k, shorter f k = shorter (fun j => occ j ls) k).
  { intros k. apply shorter_ext. intros j Hj. unfold f. destruct (Z.eqb_spec (Z.of_nat j) 0); [lia|reflexivity]. }
  assert (Htot : shorter f 16 <= 288).
  { rewrite Hsh. pose proof (shorter_occ ls 16 ltac:(lia)) as Hb. unfold zlen in Hb. subst ls. rewrite length_take in Hb.
    destruct L as [_ Hp]. specialize (Hb (Forall_take _ _ _ Hp)). lia. }
  destruct (huff_offs_spec counts' f C' Hpos Htot 15 1 (replicate 17 0)) as (offs & Eo & Hol & Ho); [lia|lia|reflexivity| |].
  { intros j Hj. replace j with 1%nat by lia. reflexivity. }
  change (Z.of_nat 1) with 1 in Eo. rewrite Eo. cbn [mbind option_bind].
  destruct (huff_fill_spec f Hpos Htot lengths n (Z.to_nat n) 0 offs (replicate 288 None) L Hn H15) as (syms & -> & Fl & Ff);
    [| |destruct L; lia|assumption| | |].
  - intros len Hlen. unfold f. fold ls. destruct (Z.eqb_spec (Z.of_nat len) 0); [lia|reflexivity].
  - lia.
  - intros len Hlen. rewrite Ho by lia. simpl. f_equal. lia.
  - split; [reflexivity|]. intros j k Hj Hk. exfalso. rewrite Nat2Z.id in Hk. simpl in Hk. lia.
  - cbn [mbind option_bind]. eexists. split; [reflexivity|]. exists f. split_and!; [assumption..|].
    intros k Hk. destruct (shorter_between f 16 k Hk) as (j & Hj & Hr). apply (Ff j k); [lia|].
    rewrite Nat2Z.id. rewrite shorter_S in Hr by lia. fold ls.
    replace (occ (Z.of_nat j) ls) with (f (Z.of_nat j)); [assumption|].
    unfold f. destruct (Z.eqb_spec (Z.of_nat j) 0); [lia|reflexivity].
Qed.

Lemma huff_decode_spec h n k : tree_ok n h -> forall (len : nat) code first index br f,
  br_ok br -> holds_fun 16 (h_counts h) f -> (forall i, 0 <= f i) ->
  (forall j, 0 <= j < shorter f 16 -> exists s, aget (h_symbols h) j = Some (Some s) /\ 0 <= s < n) ->
  (1 <= len)%nat -> (len + k = 16)%nat -> index = shorter f len -> first <= code -> code mod 2 = 0 ->
  exists v br', huff_decode k (Z.of_nat len) code first index h br = Some (v, br') /\
    ((v = -1 /\ advances 0 br br') \/ (0 <= v < n /\ advances 1 br br')).
Proof.
  intros _. induction k as [|k IH]; intros len code first index br f B C Hpos Hs H1 Hk Hi Hfc He; cbn [huff_decode].
  { exists (-1), br. split; [reflexivity|]. left. split; [reflexivity|by apply advances_refl]. }
  pose proof (brBit_spec br B) as Hb. destruct (rbits br) as [|b r] eqn:Hr.
  { rewrite Hb. cbn [mbind option_bind]. exists (-1), br. split; [reflexivity|]. left. split; [reflexivity|by apply advances_refl]. }
  destruct Hb as (br1 & -> & B1 & D1 & R1). cbn [mbind option_bind]. cbv zeta.
  assert (A1 : advances 1 br br1) by (split; [assumption..|]; exists [b]; rewrite Hr, R1; auto).
  assert (Hbz : 0 <= Z.b2z b < 2) by (destruct b; simpl; lia). destruct (Z.ltb_spec (Z.b2z b) 0); [lia|].
  rewrite (add_lor_disjoint code (Z.b2z b) 1) by (assumption || lia).
  pose proof C as [_ Cf]. rewrite Cf by lia. cbn [mbind option_bind].
  pose proof (shorter_mono f (S len) 16 Hpos ltac:(lia)) as Hle. rewrite shorter_S in Hle by lia.
  pose proof (shorter_mono f 0 len Hpos ltac:(lia)) as H0. change (shorter f 0) with 0 in H0.
  destruct (Z.ltb_spec (code + Z.b2z b - first) (f (Z.of_nat len))) as [Hlt|Hge].
  - destruct (Hs (index + (code + Z.b2z b - first))) as (s & -> & Hsn); [lia|]. cbn [mbind option_bind].
    exists s, br1. split; [reflexivity|]. right. auto.
  - replace (Z.of_nat len + 1) with (Z.of_nat (S len)) by lia. rewrite !Z.shiftl_mul_pow2 by lia. change (2 ^ 1) with 2.
    destruct (IH (S len) ((code + Z.b2z b) * 2) ((first + f (Z.of_nat len)) * 2) (index + f (Z.of_nat len)) br1 f)
      as (v & br' & -> & Hv); [assumption..|lia|lia|rewrite shorter_S by lia; lia|lia|apply Z.mod_mul; lia|].
    exists v, br'. split; [reflexivity|].
    destruct Hv as [[-> A]|[Hv A]]; [left|right]; (split; [done|]);
      (eapply advances_weaken; [eapply advances_trans; [exact A1|exact A]|lia]).
Qed.

Lemma huffDecode_spec h n br :
  tree_ok n h -> br_ok br ->
  exists v br', huffDecode h br = Some (v, br') /\ ((v = -1 /\ advances 0 br br') \/ (0 <= v < n /\ advances 1 br br')).
Proof.
  intros T B. pose proof T as (f & C & Hpos & _ & Hs).
  apply (huff_decode_spec h n 15 T 1 0 0 0 br f); try assumption; try lia; reflexivity.
Qed.

(** ** Dynamic tables *)

(** A reader step that leaves a value of some kind. *)
Definition reads {A} (P : A -> Prop) (br : BitReader) (r : option (A * BitReader)) : Prop :=
  exists a br', r = Some (a, br') /\ P a /\ advances 0 br br'.

Definition opt_ok {A} (P : A -> Prop) (o : option A) : Prop := match o with Some a => P a | None => True end.

Lemma reads_after {A} (P : A -> Prop) j br br1 r : advances j br br1 -> reads P br1 r -> reads P br r.
Proof.
  intros A1 (a & br' & E & Ha & A2). exists a, br'. split_and!; [assumption..|].
  eapply advances_weaken; [eapply advances_trans; [exact A1|exact A2]|lia].
Qed.

Lemma reads_fail {A} (P : A -> Prop) j br br1 : advances j br br1 -> reads (opt_ok P) br (Some (None, br1)).
Proof. intros A1. exists None, br1. split_and!; [reflexivity|exact I|]. eapply advances_weaken; [exact A1|lia]. Qed.

Definition lens_range (k : Z) (l : list Z) : Prop := zlen l = k /\ Forall (fun x => 0 <= x) l.

Lemma lens_set k l i v : lens_range k l -> 0 <= i < k -> 0 <= v ->
  exists l', aset l i v = Some l' /\ lens_range k l'.
Proof.
  intros [Hl Hf] Hi Hv. rewrite aset_Some by lia. eexists. split; [reflexivity|]. split; [by rewrite zlen_insert|].
  by apply Forall_insert.
Qed.

Lemma read_cl_spec n : forall i cl br,
  br_ok br -> lens_range 19 cl -> 0 <= i -> i + Z.of_nat n <= 19 ->
  reads (opt_ok (lens_range 19)) br (read_cl n i cl br).
Proof.
  induction n as [|n IH]; intros i cl br B L Hi Hn; cbn [read_cl].
  { exists (Some cl), br. split_and!; [reflexivity|exact L|by apply advances_refl]. }
  destruct (brBits_spec 3 br B) as (v & br1 & -> & Hv); [lia|]. cbn [mbind option_bind].
  destruct Hv as [[-> A]|[Hv A]]; [by apply (reads_fail _ 0)|]. destruct (Z.ltb_spec v 0); [lia|].
  assert (Hk : exists k, aget CLC_ORDER i = Some k /\ 0 <= k < 19).
  { destruct (aget_Some CLC_ORDER i) as (k & Hk & Hl); [change (zlen CLC_ORDER) with 19; lia|]. exists k. split; [assumption|].
    assert (Hf : Forall (fun x => 0 <= x < 19) CLC_ORDER) by (repeat constructor; lia). by apply (Forall_lookup_1 _ _ _ _ Hf Hl). }
  destruct Hk as (k & -> & Hk). cbn [mbind option_bind].
  destruct (lens_set 19 cl k (u8 v) L Hk) as (cl' & -> & L'); [apply u8_range|]. cbn [mbind option_bind].
  apply (reads_after _ (Z.to_nat 3) br br1 _ A). apply IH; [apply A|assumption|lia|lia].
Qed.

Lemma repeat_length_spec v total rep : forall n lengths,
  lens_range 320 lengths -> 0 <= n <= total -> total <= 320 -> 0 <= v ->
  exists r, repeat_length rep v n total lengths = Some r /\
    match r with Some (n', l') => n' = n + Z.of_nat rep /\ n' <= total /\ lens_range 320 l' | None => True end.
Proof.
  induction rep as [|rep IH]; intros n lengths L Hn Ht Hv; cbn [repeat_length].
  { exists (Some (n, lengths)). split; [reflexivity|]. split_and!; [lia|lia|assumption]. }
  destruct (Z.leb_spec total n); [by exists None|].
  destruct (lens_set 320 lengths n v L) as (l' & -> & L'); [lia|assumption|]. cbn [mbind option_bind].
  destruct (IH (n + 1) l' L') as (r & -> & Hr); [lia..|]. exists r. split; [reflexivity|].
  destruct r as [[n' l'']|]; [|exact I]. split_and!; [lia|lia|apply Hr].
Qed.

Lemma read_lengths_spec clTree total fuel : tree_ok 19 clTree -> total <= 320 -> forall n lengths br,
  br_ok br -> lens_range 320 lengths -> 0 <= n <= total -> total - n <= Z.of_nat fuel ->
  reads (opt_ok (lens_range 320)) br (read_lengths fuel n total clTree lengths br).
Proof.
  intros T Ht. induction fuel as [|fuel IH]; intros n lengths br B L Hn Hf; cbn [read_lengths];
    (destruct (Z.leb_spec total n); [exists (Some lengths), br; split_and!; [reflexivity|exact L|by apply advances_refl]|]); [lia|].
  destruct (huffDecode_spec clTree 19 br T B) as (sym & br1 & -> & Hs). cbn [mbind option_bind].
  destruct Hs as [[-> A]|[Hs A]]; [by apply (reads_fail _ 0)|]. destruct (Z.ltb_spec sym 0); [lia|].
  assert (Hrep : forall bits off v, 0 <= bits -> 0 <= v -> 1 <= off ->
    reads (opt_ok (lens_range 320)) br
      ('(rep, br2) ← brBits bits br1;
       if rep <? 0 then Some (None, br2)
       else r ← repeat_length (Z.to_nat (rep + off)) v n total lengths;
            match r with None => Some (None, br2) | Some (n, l) => read_lengths fuel n total clTree l br2 end)).
  { intros bits off v Hb Hv Ho. destruct (brBits_spec bits br1 (ad_ok _ _ _ A) Hb) as (rep & br2 & -> & Hr). cbn [mbind option_bind].
    apply (reads_after _ 1 br br1 _ A). destruct Hr as [[-> A2]|[Hr A2]]; [by apply (reads_fail _ 0)|].
    destruct (Z.ltb_spec rep 0); [lia|].
    destruct (repeat_length_spec v total (Z.to_nat (rep + off)) n lengths L) as (r & -> & Hr'); [lia..|]. cbn [mbind option_bind].
    destruct r as [[n' l']|]; [|by eapply reads_fail]. destruct Hr' as (Hn' & Hle & L').
    eapply reads_after; [exact A2|]. apply IH; [apply A2|assumption|lia|lia]. }
  destruct (Z.ltb_spec sym 16).
  { destruct (lens_set 320 lengths n (u8 sym) L) as (l' & -> & L'); [lia|apply u8_range|]. cbn [mbind option_bind].
    apply (reads_after _ 1 br br1 _ A). apply IH; [apply A|assumption|lia|lia]. }
  destruct (Z.eqb_spec sym 16).
  { destruct (Z.eqb_spec n 0); [by eapply reads_fail|].
    destruct (aget_Some lengths (n - 1)) as (prev & Hp & Hpl); [destruct L; lia|].
    assert (Hp0 : 0 <= prev) by (destruct L as [_ Hf']; by apply (Forall_lookup_1 _ _ _ _ Hf' Hpl)).
    rewrite Hp. cbn [mbind option_bind]. apply Hrep; lia. }
  destruct (Z.eqb_spec sym 17) as [->|]; simpl orb; cbv iota; [apply Hrep; lia|].
  destruct (sym =? 18); [apply Hrep; lia|]. by eapply reads_fail.
Qed.

(** The tables of a block. *)
Definition trees_ok (t : HuffTree * HuffTree) : Prop := tree_ok 288 t.1 /\ tree_ok 288 t.2.

Lemma tree_ok_mono n m h : tree_ok n h -> n <= m -> tree_ok m h.
Proof.
  intros (f & C & Hp & Ht & Hs) H. exists f. split_and!; [assumption..|]. intros k Hk. destruct (Hs k Hk) as (s & E & Hs').
  exists s. split; [assumption|lia].
Qed.

Lemma brBits_any n br :
  br_ok br -> 0 <= n -> exists v br', brBits n br = Some (v, br') /\ (v < 0 \/ 0 <= v < 2 ^ n) /\ advances 0 br br'.
Proof.
  intros B Hn. destruct (brBits_spec n br B Hn) as (v & br' & E & [[-> A]|[Hv A]]); eexists _, br';
    (split; [exact E|]); (split; [lia|]); [assumption|]. eapply advances_weaken; [exact A|lia].
Qed.

Lemma buildDynamicTrees_spec br : br_ok br -> reads (opt_ok trees_ok) br (buildDynamicTrees br).
Proof.
  intros B. unfold buildDynamicTrees.
  destruct (brBits_any 5 br B) as (v1 & br1 & -> & H1 & A1); [lia|]. cbn [mbind option_bind].
  destruct (brBits_any 5 br1 (ad_ok _ _ _ A1)) as (v2 & br2 & -> & H2 & A2); [lia|]. cbn [mbind option_bind].
  destruct (brBits_any 4 br2 (ad_ok _ _ _ A2)) as (v3 & br3 & -> & H3 & A3); [lia|]. cbn [mbind option_bind].
  pose proof (advances_trans _ _ _ _ _ (advances_trans _ _ _ _ _ A1 A2) A3) as A. apply (reads_after _ _ br br3 _ A).
  pose proof (ad_ok _ _ _ A3) as B3. pose proof (advances_refl br3 B3) as R3.
  destruct ((v1 <? 0) || (v2 <? 0) || (v3 <? 0)) eqn:Hneg; [by eapply reads_fail|].
  repeat (apply orb_false_iff in Hneg as [Hneg ?]). bprop. cbv zeta.
  destruct ((286 <? v1 + 257) || (30 <? v2 + 1)) eqn:Hbig; [by eapply reads_fail|]. apply orb_false_iff in Hbig as [Hb1 Hb2]. bprop.
  destruct (read_cl_spec (Z.to_nat (v3 + 4)) 0 (replicate 19 0) br3 B3) as (cl & br4 & -> & Hcl & A4);
    [split; [reflexivity|by apply Forall_replicate]|lia|lia|]. cbn [mbind option_bind].
  apply (reads_after _ _ br3 br4 _ A4). pose proof (advances_refl br4 (ad_ok _ _ _ A4)) as R4.
  destruct cl as [cl|]; [|by eapply reads_fail]. destruct Hcl as [Hcl1 Hcl2].
  destruct (huffBuild_spec cl 19 true) as (t & -> & Ht); [split; [lia|assumption]|lia|]. cbn [mbind option_bind].
  destruct t as [t|]; [|by eapply reads_fail]. destruct (Z.ltb_spec 320 (v1 + 257 + (v2 + 1))); [lia|].
  destruct (read_lengths_spec t (v1 + 257 + (v2 + 1)) 320 Ht ltac:(lia) 0 (replicate 320 0) br4 (ad_ok _ _ _ A4))
    as (ls & br5 & E5 & Hls & A5); [split; [reflexivity|by apply Forall_replicate]|lia|lia|].
  revert E5. generalize (read_lengths 320). intros rl ->. cbn [mbind option_bind].
  apply (reads_after _ _ br4 br5 _ A5). pose proof (advances_refl br5 (ad_ok _ _ _ A5)) as R5.
  destruct ls as [ls|]; [|by eapply reads_fail]. destruct Hls as [Hl1 Hl2].
  destruct (aget_Some ls 256) as (eob & -> & _); [lia|]. cbn [mbind option_bind]. destruct (eob =? 0); [by eapply reads_fail|].
  destruct (huffBuild_spec ls (v1 + 257) false) as (lit & -> & Hlit); [split; [lia|assumption]|lia|]. cbn [mbind option_bind].
  destruct lit as [lit|]; [|by eapply reads_fail].
  destruct (huffBuild_spec (drop (Z.to_nat (v1 + 257)) ls) (v2 + 1) false) as (dist & -> & Hd).
  { split; [unfold zlen in *; rewrite length_drop; lia|by apply Forall_drop]. } { lia. }
  cbn [mbind option_bind]. destruct dist as [dist|]; [|by eapply reads_fail].
  exists (Some (lit, dist)), br5. split_and!; [reflexivity| |assumption].
  split; [eapply tree_ok_mono; [exact Hlit|lia]|eapply tree_ok_mono; [exact Hd|lia]].
Qed.

(** ** Blocks *)

(** Produced output: bytes within the capacity, extending [out]. *)
Record grown (cap : Z) (out out' : list Z) : Prop := {
  gw_bytes : is_bytes out';
  gw_cap : zlen out' <= cap;
  gw_prefix : exists new, out' = out ++ new
}.

Lemma grown_refl cap out : is_bytes out -> zlen out <= cap -> grown cap out out.
Proof. intros Hb Hc. split; [assumption..|]. exists []. by rewrite app_nil_r. Qed.

Lemma grown_trans cap o1 o2 o3 : grown cap o1 o2 -> grown cap o2 o3 -> grown cap o1 o3.
Proof. intros [_ _ [n1 ->]] [Hb Hc [n2 ->]]. split; [assumption..|]. exists (n1 ++ n2). by rewrite app_assoc. Qed.

Lemma out_push_spec cap b out :
  is_bytes out -> zlen out < cap -> is_u8 b -> out_push cap b out = Some (out ++ [b]) /\ grown cap out (out ++ [b]).
Proof.
  intros Ho Hc Hb. unfold out_push. destruct (Z.ltb_spec (zlen out) cap); [|lia]. split; [reflexivity|].
  split; [apply Forall_app; split; [assumption|by apply Forall_singleton]|rewrite zlen_app; change (zlen [b]) with 1; lia|eauto].
Qed.

Lemma copy_match_spec cap n : forall src out,
  is_bytes out -> 0 <= src < zlen out -> zlen out + Z.of_nat n <= cap ->
  exists out', copy_match n src cap out = Some out' /\ grown cap out out'.
Proof.
  induction n as [|n IH]; intros src out Ho Hs Hc; cbn [copy_match].
  { exists out. split; [reflexivity|]. apply grown_refl; [assumption|lia]. }
  destruct (aget_Some out src Hs) as (b & -> & Hb). cbn [mbind option_bind].
  destruct (out_push_spec cap b out Ho) as [-> G]; [lia|by apply (Forall_lookup_1 _ _ _ _ Ho Hb)|]. cbn [mbind option_bind].
  destruct (IH (src + 1) (out ++ [b]) (gw_bytes _ _ _ G)) as (out' & -> & G').
  - rewrite zlen_app. change (zlen [b]) with 1. lia.
  - rewrite zlen_app. change (zlen [b]) with 1. lia.
  - exists out'. split; [reflexivity|]. by eapply grown_trans.
Qed.

(** What a block leaves: a status, the reader further on, more output. *)
Definition block_ok (k : nat) (cap : Z) (br : BitReader) (out : list Z) (r : option (Status * BitReader * list Z)) : Prop :=
  exists st br' out', r = Some (st, br', out') /\ grown cap out out' /\ advances (if decide (st = STATUS_OK) then k else 0) br br' /\
    st <> STATUS_ERR_NOT_FOUND /\ st <> STATUS_ERR_UNSUPPORTED.

Lemma block_stop k cap br br' out st :
  is_bytes out -> zlen out <= cap -> advances k br br' -> st = STATUS_ERR_INVALID \/ st = STATUS_ERR_NO_MEMORY ->
  block_ok 0 cap br out (Some (st, br', out)).
Proof.
  intros Ho Hc A H. exists st, br', out. split_and!; [reflexivity|by apply grown_refl| | |]; try (by destruct H as [-> | ->]).
  eapply advances_weaken; [exact A|]. destruct (decide _); lia.
Qed.

Lemma block_after k j cap br br1 out out1 r :
  advances k br br1 -> grown cap out out1 -> block_ok j cap br1 out1 r -> block_ok j cap br out r.
Proof.
  intros A G (st & br' & out' & E & G' & A' & H1 & H2). exists st, br', out'. split_and!; [assumption|by eapply grown_trans| |assumption..].
  eapply advances_weaken; [eapply advances_trans; [exact A|exact A']|]. destruct (decide _); lia.
Qed.

Lemma table_get l (P : Z -> Prop) i : Forall P l -> 0 <= i < zlen l -> exists v, aget l i = Some v /\ P v.
Proof. intros Hf Hi. destruct (aget_Some l i Hi) as (v & H & Hl). exists v. split; [assumption|]. by apply (Forall_lookup_1 _ _ _ _ Hf Hl). Qed.

Lemma inflate_match_spec lsym cap dist br out :
  br_ok br -> tree_ok 288 dist -> is_bytes out -> zlen out <= cap -> 0 <= lsym ->
  block_ok 0 cap br out (inflate_match lsym cap dist br out).
Proof.
  intros B T Ho Hc Hl. unfold inflate_match. pose proof (advances_refl br B) as R.
  destruct (Z.leb_spec 29 lsym); [apply (block_stop 0); auto|].
  destruct (table_get LENGTH_EXTRA (fun x => 0 <= x) lsym) as (bits & -> & Hbits); [repeat constructor; lia|change (zlen LENGTH_EXTRA) with 29; lia|].
  cbn [mbind option_bind]. destruct (brBits_any bits br B Hbits) as (extra & br1 & -> & He & A1). cbn [mbind option_bind].
  destruct (Z.ltb_spec extra 0); [apply (block_stop 0); auto|].
  destruct (table_get LENGTH_BASE (fun x => 3 <= x) lsym) as (base & -> & Hbase); [repeat constructor; lia|change (zlen LENGTH_BASE) with 29; lia|].
  cbn [mbind option_bind]. cbv zeta.
  destruct (huffDecode_spec dist 288 br1 T (ad_ok _ _ _ A1)) as (dsym & br2 & -> & Hd). cbn [mbind option_bind].
  assert (A2 : advances 0 br1 br2) by (destruct Hd as [[_ ?]|[_ ?]]; [assumption|eapply advances_weaken; [eassumption|lia]]).
  pose proof (advances_trans _ _ _ _ _ A1 A2) as A12.
  destruct ((dsym <? 0) || (30 <=? dsym)) eqn:Hds; [apply (block_stop 0); auto|]. apply orb_false_iff in Hds as [Hd1 Hd2]. bprop.
  destruct (table_get DIST_EXTRA (fun x => 0 <= x) dsym) as (dbits & -> & Hdb); [repeat constructor; lia|change (zlen DIST_EXTRA) with 30; lia|].
  cbn [mbind option_bind]. destruct (brBits_any dbits br2 (ad_ok _ _ _ A2) Hdb) as (dextra & br3 & -> & Hde & A3). cbn [mbind option_bind].
  pose proof (advances_trans _ _ _ _ _ A12 A3) as A.
  destruct (Z.ltb_spec dextra 0); [apply (block_stop 0); auto|].
  destruct (table_get DIST_BASE (fun x => 1 <= x) dsym) as (dbase & -> & Hdbase); [repeat constructor; lia|change (zlen DIST_BASE) with 30; lia|].
  cbn [mbind option_bind]. destruct ((dbase + dextra =? 0) || (zlen out <? dbase + dextra)) eqn:Hdist; [apply (block_stop 0); auto|].
  apply orb_false_iff in Hdist as [Hz Hlt]. bprop.
  destruct (Z.ltb_spec (cap - zlen out) (base + extra)); [apply (block_stop 0); auto|].
  destruct (copy_match_spec cap (Z.to_nat (base + extra)) (zlen out - (dbase + dextra)) out Ho) as (out' & -> & G); [lia|lia|].
  cbn [mbind option_bind]. exists STATUS_OK, br3, out'. split_and!; try done.
Qed.

Lemma inflateBlockData_spec lit dist cap fuel : tree_ok 288 lit -> tree_ok 288 dist -> forall br out,
  br_ok br -> is_bytes out -> zlen out <= cap -> (length (rbits br) < fuel)%nat ->
  block_ok 0 cap br out (inflateBlockData fuel lit dist cap br out).
Proof.
  intros TL TD. induction fuel as [|fuel IH]; intros br out B Ho Hc Hf; [lia|]. cbn [inflateBlockData].
  destruct (huffDecode_spec lit 288 br TL B) as (sym & br1 & -> & Hs). cbn [mbind option_bind].
  destruct Hs as [[-> A]|[Hs A]]; [apply (block_stop 0); auto|]. destruct (Z.ltb_spec sym 0); [lia|].
  pose proof (advances_length _ _ _ A) as Hlen. pose proof (ad_ok _ _ _ A) as B1.
  destruct (Z.ltb_spec sym 256).
  { destruct (Z.leb_spec cap (zlen out)); [apply (block_stop 1); auto|].
    destruct (out_push_spec cap (u8 sym) out Ho) as [-> G]; [lia|apply u8_range|]. cbn [mbind option_bind].
    eapply block_after; [exact A|exact G|]. apply IH; [assumption|apply G|apply G|lia]. }
  destruct (Z.eqb_spec sym 256).
  { exists STATUS_OK, br1, out. split_and!; try done; [by apply grown_refl|]. eapply advances_weaken; [exact A|]. destruct (decide _); lia. }
  destruct (inflate_match_spec (sym - 257) cap dist br1 out B1 TD Ho Hc) as (st & br2 & out2 & -> & G2 & A2 & H1 & H2); [lia|].
  cbn [mbind option_bind]. destruct st; try (by exfalso).
  - simpl decide in A2. eapply block_after; [exact A|exact G2|]. eapply block_after; [exact A2|apply grown_refl; apply G2|].
    apply IH; [apply A2|apply G2|apply G2|]. pose proof (advances_length _ _ _ A2). lia.
  - eexists _, br2, out2. split_and!; try done. eapply advances_weaken; [eapply advances_trans; [exact A|exact A2]|]. simpl. lia.
  - eexists _, br2, out2. split_and!; try done. eapply advances_weaken; [eapply advances_trans; [exact A|exact A2]|]. simpl. lia.
Qed.

(** Moving to a later byte boundary. *)
Lemma advances_bytes br p :
  br_ok br -> br_bytePos br <= p <= br_size br -> advances 0 br (mkBr (br_data br) p (br_bitBuf br) 0).
Proof.
  intros B Hp. pose proof (bo_pos br B). split.
  - split; simpl; [apply B|unfold br_size in *; simpl; lia|lia|apply B|lia].
  - reflexivity.
  - exists (bits_of (Z.to_nat (br_bitCount br)) (br_bitBuf br) ++
      byte_bits (take (Z.to_nat (p - br_bytePos br)) (drop (Z.to_nat (br_bytePos br)) (br_data br)))). split; [|lia].
    unfold rbits. cbn [br_data br_bytePos br_bitBuf br_bitCount]. change (bits_of (Z.to_nat 0) (br_bitBuf br)) with (@nil bool).
    rewrite <- app_assoc, app_nil_l, <- byte_bits_app. do 2 f_equal.
    replace (Z.to_nat p) with (Z.to_nat (br_bytePos br) + Z.to_nat (p - br_bytePos br))%nat by lia.
    by rewrite <- drop_drop, take_drop.
Qed.

Lemma inflate_stored_spec cap br out :
  br_ok br -> is_bytes out -> zlen out <= cap -> block_ok 0 cap br out (inflate_stored cap br out).
Proof.
  intros B Ho Hc. unfold inflate_stored, br_size. cbn [br_data br_bytePos br_bitBuf br_bitCount]. cbv zeta.
  pose proof (bo_pos br B) as Hp. unfold br_size in Hp.
  pose proof (advances_bytes br (br_bytePos br) B ltac:(unfold br_size; lia)) as A0.
  destruct (Z.ltb_spec (zlen (br_data br) - br_bytePos br) 4); [apply (block_stop 0); auto|].
  destruct (aget_Some (br_data br) (br_bytePos br)) as (b0 & -> & _); [lia|].
  destruct (aget_Some (br_data br) (br_bytePos br + 1)) as (b1 & -> & _); [lia|].
  destruct (aget_Some (br_data br) (br_bytePos br + 2)) as (b2 & -> & _); [lia|].
  destruct (aget_Some (br_data br) (br_bytePos br + 3)) as (b3 & -> & _); [lia|]. cbn [mbind option_bind].
  set (len := u16 (b0 .| Z.shiftl b1 8)). assert (Hlen : is_u16 len) by apply u16_range. destruct (negb _); [apply (block_stop 0); auto|].
  pose proof (advances_bytes br (br_bytePos br + 4) B ltac:(unfold br_size; lia)) as A4.
  destruct (Z.ltb_spec (zlen (br_data br) - (br_bytePos br + 4)) len); [apply (block_stop 0); auto|].
  destruct (Z.ltb_spec (cap - zlen out) len); [apply (block_stop 0); auto|].
  destruct (peek_is_Some (br_data br) (br_bytePos br + 4) len) as [bytes Hb]; [words; lia..|]. rewrite Hb. cbn [mbind option_bind].
  pose proof (peek_Some _ _ _ _ Hb) as (_ & _ & _ & Hz & _).
  eexists _, _, _. split; [reflexivity|]. split_and!; try done.
  - split; [apply Forall_app; split; [assumption|by eapply peek_bytes; [apply B|]]|rewrite zlen_app; lia|eauto].
  - apply advances_bytes; [assumption|]. unfold br_size. words. lia.
Qed.

(** The tables of a fixed block, computed. *)
Definition fixed_trees : HuffTree * HuffTree :=
  Eval vm_compute in match buildFixedTrees with Some t => t | None => (mkHuff [] [], mkHuff [] []) end.

Lemma buildFixedTrees_eq : buildFixedTrees = Some fixed_trees.
Proof. vm_compute. reflexivity. Qed.

Lemma fixed_trees_ok : trees_ok fixed_trees.
Proof.
  pose proof buildFixedTrees_eq as E. unfold buildFixedTrees in E.
  destruct (huffBuild_spec (replicate 144 8 ++ replicate 112 9 ++ replicate 24 7 ++ replicate 8 8) 288 false) as (t1 & E1 & H1);
    [split; [vm_compute; split; congruence|rewrite !Forall_app; split_and!; by apply Forall_replicate]|lia|].
  destruct (huffBuild_spec (replicate 32 5) 32 false) as (t2 & E2 & H2); [split; [vm_compute; split; congruence|by apply Forall_replicate]|lia|].
  rewrite E1, E2 in E. clear E1 E2. generalize dependent fixed_trees. intros t E. cbn [mbind option_bind] in E.
  destruct t1 as [lit|], t2 as [dist|]; cbn [mbind option_bind] in E; try discriminate E. injection E as <-.
  split; [exact H1|]. eapply tree_ok_mono; [exact H2|lia].
Qed.

Lemma rbits_bound br : br_ok br -> (length (rbits br) < Z.to_nat (8 * br_size br + 1))%nat.
Proof.
  intros B. pose proof (rbits_length br B). pose proof (bo_pos br B). pose proof (bo_count br B). pose proof (bo_begun br B). lia.
Qed.

Lemma inflate_block_spec btype cap br out :
  br_ok br -> is_bytes out -> zlen out <= cap -> block_ok 0 cap br out (inflate_block btype cap br out).
Proof.
  intros B Ho Hc. unfold inflate_block. cbv zeta. pose proof (advances_refl br B) as R.
  destruct (btype =? 0); [by apply inflate_stored_spec|].
  destruct (btype =? 1).
  { rewrite buildFixedTrees_eq. pose proof fixed_trees_ok as [H1 H2]. destruct fixed_trees as [lit dist]. cbn [mbind option_bind].
    apply inflateBlockData_spec; try assumption. pose proof (rbits_bound br B). lia. }
  destruct (btype =? 2); [|apply (block_stop 0); auto].
  destruct (buildDynamicTrees_spec br B) as (t & br1 & -> & Ht & A). cbn [mbind option_bind].
  destruct t as [[lit dist]|]; [|apply (block_stop 0); auto]. destruct Ht as [H1 H2]. pose proof (ad_ok _ _ _ A) as B1.
  eapply block_after; [exact A|by apply grown_refl|]. apply inflateBlockData_spec; try assumption.
  pose proof (rbits_bound br1 B1) as Hb. unfold br_size in *. rewrite (ad_data _ _ _ A) in Hb. lia.
Qed.

Lemma inflate_blocks_spec cap fuel : forall br out,
  br_ok br -> is_bytes out -> zlen out <= cap -> (length (rbits br) < fuel)%nat ->
  block_ok 0 cap br out (inflate_blocks fuel cap br out).
Proof.
  induction fuel as [|fuel IH]; intros br out B Ho Hc Hf; [lia|]. cbn [inflate_blocks].
  pose proof (brBit_spec br B) as Hb. destruct (rbits br) as [|b r] eqn:Hr.
  { rewrite Hb. cbn [mbind option_bind]. destruct (brBits_any 2 br B) as (v & br1 & -> & _ & A); [lia|]. cbn [mbind option_bind].
    apply (block_stop 0); auto. }
  destruct Hb as (br1 & -> & B1 & D1 & R1). cbn [mbind option_bind].
  assert (A1 : advances 1 br br1) by (split; [assumption..|]; exists [b]; rewrite Hr, R1; auto).
  destruct (brBits_any 2 br1 B1) as (v & br2 & -> & _ & A2); [lia|]. cbn [mbind option_bind].
  pose proof (advances_trans _ _ _ _ _ A1 A2) as A12. pose proof (advances_length _ _ _ A12) as Hlen. rewrite Hr in Hlen.
  destruct (_ || _); [apply (block_stop 1); auto|].
  destruct (inflate_block_spec v cap br2 out (ad_ok _ _ _ A2) Ho Hc) as (st & br3 & out3 & -> & G & A3 & H1 & H2).
  cbn [mbind option_bind].
  assert (A : advances 1 br br3) by (eapply advances_weaken; [eapply advances_trans; [exact A12|exact A3]|lia]).
  assert (A0 : advances 0 br br3) by (eapply advances_weaken; [exact A|lia]).
  destruct st; try (by exfalso).
  - destruct (negb _); [by exists STATUS_OK, br3, out3|].
    eapply block_after; [exact A|exact G|]. apply IH; [apply A3|apply G|apply G|].
    pose proof (advances_length _ _ _ A3). simpl in *. lia.
  - by exists STATUS_ERR_INVALID, br3, out3.
  - by exists STATUS_ERR_NO_MEMORY, br3, out3.
Qed.

Lemma start_ok input : is_bytes input -> br_ok (mkBr input 0 0 0) /\ rbits (mkBr input 0 0 0) = byte_bits input.
Proof.
  intros Hi. split; [|reflexivity]. split; simpl; [assumption|split; [lia|apply zlen_nonneg]|lia|words; lia|lia].
Qed.

(** C12: [compressInflateRaw] is safe on any input: it terminates, never reads outside the
    input or a table entry that was not built, never writes outside the output buffer,
    produces at most [outCap] bytes, and reports success, malformed input or a full buffer;
    on success it has used a prefix of the input. *)
Theorem compressInflateRaw_safe input outCap :
  is_bytes input -> 0 <= outCap ->
  exists st out used, compressInflateRaw input outCap = Some (st, out, used) /\
    is_bytes out /\ zlen out <= outCap /\ 0 <= used <= zlen input /\
    (st = STATUS_OK \/ ((st = STATUS_ERR_INVALID \/ st = STATUS_ERR_NO_MEMORY) /\ used = 0)).
Proof.
  intros Hi Hc. destruct (start_ok input Hi) as [B R]. pose proof (rbits_bound _ B) as Hb. unfold br_size in Hb. simpl br_data in Hb.
  destruct (inflate_blocks_spec outCap (Z.to_nat (8 * zlen input + 1)) (mkBr input 0 0 0) [] B) as (st & br & out & E & G & A & H1 & H2);
    [constructor|exact Hc|lia|].
  unfold compressInflateRaw. rewrite E. cbn [mbind option_bind]. eexists _, _, _. split; [reflexivity|].
  pose proof (bo_pos _ (ad_ok _ _ _ A)) as Hp. unfold br_size in Hp. rewrite (ad_data _ _ _ A) in Hp. simpl br_data in Hp.
  split; [apply G|]. split; [apply G|]. destruct st; try (by exfalso); (split; [lia|]); tauto.
Qed.

Lemma compressInflateRaw_safe_witness :
  exists st out used, compressInflateRaw [203; 72; 205; 201; 201; 87; 200; 64; 144; 0] 100 = Some (st, out, used) /\
    is_bytes out /\ zlen out <= 100 /\ 0 <= used <= zlen [203; 72; 205; 201; 201; 87; 200; 64; 144; 0] /\
    (st = STATUS_OK \/ ((st = STATUS_ERR_INVALID \/ st = STATUS_ERR_NO_MEMORY) /\ used = 0)).
Proof. apply compressInflateRaw_safe; [repeat constructor; lia|lia]. Defined.
