(* ===== verification/Deflate.v ===== *)
(** * DEFLATE compression and the zlib format

    Models libs/compress/deflate.c (one fixed-Huffman block with a greedy match
    search over two distances) and zlib.c (the header, the Adler-32 trailer), over
    the tables of [Inflate].  The output buffer is the list of the bytes written so
    far with its capacity. *)

From S2P Require Import Prelude BootTypes Inflate.

(** ** The bit writer *)

(** Models src/libs/compress/deflate.c:8-15, BitWriter. *)
Record BitWriter := mkBw { bw_out : list Z; bw_cap : Z; bw_bitBuf : Z; bw_bitCount : Z; bw_overflow : bool }.

(** Models src/libs/compress/deflate.c:17-29, bwPutBit. *)
Definition bwPutBit (bit : Z) (bw : BitWriter) : BitWriter :=
  let buf := bw_bitBuf bw .| u32 (Z.shiftl (bit .& 1) (bw_bitCount bw)) in
  let count := bw_bitCount bw + 1 in
  if count =? 8 then
    if bw_cap bw <=? zlen (bw_out bw) then mkBw (bw_out bw) (bw_cap bw) 0 0 true
    else mkBw (bw_out bw ++ [u8 buf]) (bw_cap bw) 0 0 (bw_overflow bw)
  else mkBw (bw_out bw) (bw_cap bw) buf count (bw_overflow bw).

(** Models src/libs/compress/deflate.c:33-35, bwBits's loop over the [n] bits from [i] on. *)
Fixpoint bw_bits (n : nat) (i value : Z) (bw : BitWriter) : BitWriter :=
  match n with
  | O => bw
  | S n => bw_bits n (i + 1) value (bwPutBit ((value >>! i) .& 1) bw)
  end.

(** Models src/libs/compress/deflate.c:32-36, bwBits. *)
Definition bwBits (value n : Z) (bw : BitWriter) : BitWriter := bw_bits (Z.to_nat n) 0 value bw.

(** Models src/libs/compress/deflate.c:41-43, bwHuffman's loop, from bit [n - 1] down. *)
Fixpoint bw_huffman (n : nat) (code : Z) (bw : BitWriter) : BitWriter :=
  match n with
  | O => bw
  | S m => bw_huffman m code (bwPutBit ((code >>! Z.of_nat m) .& 1) bw)
  end.

(** Models src/libs/compress/deflate.c:40-44, bwHuffman. *)
Definition bwHuffman (code len : Z) (bw : BitWriter) : BitWriter := bw_huffman (Z.to_nat len) code bw.

Fixpoint bw_flush (fuel : nat) (bw : BitWriter) : option BitWriter :=
  if bw_bitCount bw =? 0 then Some bw
  else match fuel with O => None | S fuel => bw_flush fuel (bwPutBit 0 bw) end.

(** Models src/libs/compress/deflate.c:46-50, bwFlushByte. *)
Definition bwFlushByte (bw : BitWriter) : option BitWriter := bw_flush 8 bw.

(** ** Codes *)

(** Models src/libs/compress/deflate.c:53-67, fixedLitCode: the code and its length. *)
Definition fixedLitCode (sym : Z) : Z * Z :=
  if sym <=? 143 then (0x30 + sym, 8)
  else if sym <=? 255 then (0x190 + (sym - 144), 9)
  else if sym <=? 279 then (sym - 256, 7)
  else (0xC0 + (sym - 280), 8).

(** Models src/libs/compress/deflate.c:71-74, fixedDistCode. *)
Definition fixedDistCode (sym : Z) : Z * Z := (sym, 5).

(** The largest [i < n] with [x >= base[i]], or [-1]. *)
Fixpoint base_index (n : nat) (x : Z) (base : list Z) : option Z :=
  match n with
  | O => Some (-1)
  | S m => b ← aget base (Z.of_nat m); if b <=? x then Some (Z.of_nat m) else base_index m x base
  end.

(** Models src/libs/compress/deflate.c:87-99, emitLength. *)
Definition emitLength (length : Z) (bw : BitWriter) : option BitWriter :=
  i ← base_index 29 length LENGTH_BASE;
  let '(code, len) := fixedLitCode (257 + i) in
  let bw := bwHuffman code len bw in
  base ← aget LENGTH_BASE i;
  extra ← aget LENGTH_EXTRA i;
  Some (bwBits (u32 (length - base)) extra bw).

(** Models src/libs/compress/deflate.c:101-113, emitDistance. *)
Definition emitDistance (distance : Z) (bw : BitWriter) : option BitWriter :=
  i ← base_index 30 distance DIST_BASE;
  let '(code, len) := fixedDistCode i in
  let bw := bwHuffman code len bw in
  base ← aget DIST_BASE i;
  extra ← aget DIST_EXTRA i;
  Some (bwBits (u32 (distance - base)) extra bw).

(** ** Compression *)

(** Models src/libs/compress/deflate.c:119-125, matchLength: [n] is what is left of [maxLen]. *)
Fixpoint matchLength (n : nat) (data : list Z) (pos dist len : Z) : option Z :=
  match n with
  | O => Some len
  | S n =>
      a ← aget data (pos + len);
      b ← aget data (pos + len - dist);
      if a =? b then matchLength n data pos dist (len + 1) else Some len
  end.

(** Models src/libs/compress/deflate.c:140-144, compressDeflateFixed's trial (and 147-151) of the distance
    [dist]: the better of it and the best match so far. *)
Definition try_match (data : list Z) (pos dist remaining : Z) (best : Z * Z) : option (Z * Z) :=
  len ← matchLength (Z.to_nat remaining) data pos dist 0;
  Some (if (3 <=? len) && (best.1 <? len) then (len, dist) else best).

(** Models src/libs/compress/deflate.c:136-153, compressDeflateFixed's choice of a match at
    [pos]: its length and distance, [(0, 0)] if there is none. *)
Definition best_match (data : list Z) (pos rowStride : Z) : option (Z * Z) :=
  let remaining := if 258 <? zlen data - pos then 258 else zlen data - pos in
  if 3 <=? remaining then
    best ← (if 3 <=? pos then try_match data pos 3 remaining (0, 0) else Some (0, 0));
    if negb (rowStride =? 0) && (rowStride <=? 32768) && (rowStride <=? pos)
    then try_match data pos rowStride remaining best else Some best
  else Some (0, 0).

(** Models src/libs/compress/deflate.c:135-168, compressDeflateFixed's loop; [None] inside is the
    return of STATUS_ERR_NO_MEMORY. *)
Fixpoint deflate_loop (fuel : nat) (data : list Z) (rowStride pos : Z) (bw : BitWriter) : option (option BitWriter) :=
  if zlen data <=? pos then Some (Some bw)
  else match fuel with
  | O => None
  | S fuel =>
      '(bestLen, bestDist) ← best_match data pos rowStride;
      '(bw, pos) ← (if 3 <=? bestLen then
                      bw ← emitLength bestLen bw;
                      bw ← emitDistance bestDist bw;
                      Some (bw, pos + bestLen)
                    else
                      b ← aget data pos;
                      let '(code, len) := fixedLitCode b in
                      Some (bwHuffman code len bw, pos + 1));
      if bw_overflow bw then Some None else deflate_loop fuel data rowStride pos bw
  end.

(** Models src/libs/compress/deflate.c:127-181, compressDeflateFixed: the status and the bytes
    written. *)
Definition compressDeflateFixed (data : list Z) (rowStride outCap : Z) : option (Status * list Z) :=
  let bw := bwBits 1 2 (bwBits 1 1 (mkBw [] outCap 0 0 false)) in
  r ← deflate_loop (length data) data rowStride 0 bw;
  match r with
  | None => Some (STATUS_ERR_NO_MEMORY, [])
  | Some bw =>
      let '(code, len) := fixedLitCode 256 in
      bw ← bwFlushByte (bwHuffman code len bw);
      if bw_overflow bw then Some (STATUS_ERR_NO_MEMORY, []) else Some (STATUS_OK, bw_out bw)
  end.

(** ** The zlib format *)

Definition ADLER_MOD : Z := 65521.

(** Models src/libs/compress/zlib.c:6-14, compressAdler32. *)
Definition compressAdler32 (adler : Z) (p : list Z) : Z :=
  let '(a, b) := fold_left (fun '(a, b) x => let a := u32 (a + x) mod ADLER_MOD in (a, u32 (b + a) mod ADLER_MOD))
                   p (adler .& 0xFFFF, adler >>! 16) in
  u32 (Z.shiftl b 16) .| a.

(** Models src/libs/compress/zlib.c:16-57, compressZlibInflate: the status, the output and the
    bytes of the input used. *)
Definition compressZlibInflate (input : list Z) (outCap : Z) : option (Status * list Z * Z) :=
  if zlen input <? 6 then Some (STATUS_ERR_INVALID, [], 0)
  else
    cmf ← aget input 0;
    flg ← aget input 1;
    if negb ((cmf .& 0x0F) =? 8) then Some (STATUS_ERR_INVALID, [], 0)
    else if 7 <? (cmf >>! 4) then Some (STATUS_ERR_INVALID, [], 0)
    else if negb (u32 (cmf * 256 + flg) mod 31 =? 0) then Some (STATUS_ERR_INVALID, [], 0)
    else if negb ((flg .& 0x20) =? 0) then Some (STATUS_ERR_INVALID, [], 0)
    else
      '(st, out, rawUsed) ← compressInflateRaw (drop 2 input) outCap;
      match st with
      | STATUS_OK =>
          let trailer := 2 + rawUsed in
          if zlen input - trailer <? 4 then Some (STATUS_ERR_INVALID, out, 0)
          else
            b0 ← aget input trailer;
            b1 ← aget input (trailer + 1);
            b2 ← aget input (trailer + 2);
            b3 ← aget input (trailer + 3);
            let stored := ((u32 (Z.shiftl b0 24) .| u32 (Z.shiftl b1 16)) .| u32 (Z.shiftl b2 8)) .| b3 in
            if negb (compressAdler32 1 out =? stored) then Some (STATUS_ERR_INVALID, out, 0)
            else Some (STATUS_OK, out, trailer + 4)
      | st => Some (st, out, 0)
      end.

(** Models src/libs/compress/zlib.c:59-79, compressZlibDeflate. *)
Definition compressZlibDeflate (input : list Z) (rowStride outCap : Z) : option (Status * list Z) :=
  if outCap <? 6 then Some (STATUS_ERR_NO_MEMORY, [])
  else
    '(st, payload) ← compressDeflateFixed input rowStride (outCap - 6);
    match st with
    | STATUS_OK =>
        let adler := compressAdler32 1 input in
        Some (STATUS_OK, [0x78; 0x01] ++ payload ++ [u8 (adler >>! 24); u8 (adler >>! 16); u8 (adler >>! 8); u8 adler])
    | st => Some (st, [])
    end.

(** ** The writer as a list of bits *)

Record bw_ok (bw : BitWriter) : Prop := {
  bw_bytes : is_bytes (bw_out bw);
  bw_room : zlen (bw_out bw) <= bw_cap bw;
  bw_count : 0 <= bw_bitCount bw <= 7;
  bw_buf : 0 <= bw_bitBuf bw < 2 ^ bw_bitCount bw
}.

(** The bits written so far. *)
Definition wbits (bw : BitWriter) : list bool :=
  byte_bits (bw_out bw) ++ bits_of (Z.to_nat (bw_bitCount bw)) (bw_bitBuf bw).

(** Unless the buffer overflows, the step from [bw] to [bw'] appends [l]. *)
Record writes (l : list bool) (bw bw' : BitWriter) : Prop := {
  wr_ok : bw_ok bw';
  wr_cap : bw_cap bw' = bw_cap bw;
  wr_bits : bw_overflow bw' = false -> bw_overflow bw = false /\ wbits bw' = wbits bw ++ l;
  wr_fits : bw_overflow bw = false -> zlen (wbits bw) + zlen l <= 8 * bw_cap bw -> bw_overflow bw' = false
}.

Lemma writes_nil bw : bw_ok bw -> writes [] bw bw.
Proof. intros B. split; [assumption|reflexivity| |done]. intros H. by rewrite app_nil_r. Qed.

Lemma writes_app l k bw1 bw2 bw3 : writes l bw1 bw2 -> writes k bw2 bw3 -> writes (l ++ k) bw1 bw3.
Proof.
  intros [_ C1 W1 F1] [O C2 W2 F2]. split; [assumption|congruence| |].
  - intros H. destruct (W2 H) as [H2 E2]. destruct (W1 H2) as [H1 E1]. split; [assumption|]. by rewrite E2, E1, app_assoc.
  - intros H Hf. rewrite zlen_app in Hf. pose proof (zlen_nonneg k). assert (H2 : bw_overflow bw2 = false) by (apply F1; [assumption|lia]).
    apply F2; [assumption|]. destruct (W1 H2) as [_ E1]. rewrite E1, zlen_app, C1. lia.
Qed.

Lemma bits_of_snoc n b : forall v, 0 <= v < 2 ^ Z.of_nat n -> bits_of (S n) (v + Z.b2z b * 2 ^ Z.of_nat n) = bits_of n v ++ [b].
Proof.
  induction n as [|n IH]; intros v Hv.
  - simpl in Hv. assert (v = 0) as -> by lia. destruct b; reflexivity.
  - rewrite Nat2Z.inj_succ, Z.pow_succ_r in * by lia.
    assert (Ho : Z.odd (v + Z.b2z b * (2 * 2 ^ Z.of_nat n)) = Z.odd v).
    { replace (v + Z.b2z b * (2 * 2 ^ Z.of_nat n)) with (v + 2 * (Z.b2z b * 2 ^ Z.of_nat n)) by lia. apply Z.odd_add_mul_2. }
    assert (Hd : Z.div2 (v + Z.b2z b * (2 * 2 ^ Z.of_nat n)) = Z.div2 v + Z.b2z b * 2 ^ Z.of_nat n).
    { rewrite !Z.div2_div. replace (v + Z.b2z b * (2 * 2 ^ Z.of_nat n)) with (v + (Z.b2z b * 2 ^ Z.of_nat n) * 2) by lia.
      by rewrite Z.div_add by lia. }
    change (bits_of (S (S n)) (v + Z.b2z b * (2 * 2 ^ Z.of_nat n))) with
      (Z.odd (v + Z.b2z b * (2 * 2 ^ Z.of_nat n)) :: bits_of (S n) (Z.div2 (v + Z.b2z b * (2 * 2 ^ Z.of_nat n)))).
    rewrite Ho, Hd, IH by (rewrite Z.div2_div; dlia). reflexivity.
Qed.

Lemma zlen_wbits bw : bw_ok bw -> zlen (wbits bw) = 8 * zlen (bw_out bw) + bw_bitCount bw.
Proof.
  intros B. pose proof (bw_count bw B). unfold wbits, zlen. rewrite length_app, length_byte_bits, length_bits_of. lia.
Qed.

Lemma bwPutBit_spec b bw : bw_ok bw -> writes [b] bw (bwPutBit (Z.b2z b) bw).
Proof.
  intros B. pose proof (bw_count bw B) as Hc. pose proof (bw_buf bw B) as Hb.
  assert (Hand : Z.b2z b .& 1 = Z.b2z b) by (by destruct b).
  assert (Hp : 2 ^ bw_bitCount bw <= 2 ^ 7) by (apply Z.pow_le_mono_r; lia).
  assert (H0 : 0 < 2 ^ bw_bitCount bw) by (apply Z.pow_pos_nonneg; lia).
  assert (Hbuf : bw_bitBuf bw .| u32 (Z.shiftl (Z.b2z b) (bw_bitCount bw)) = bw_bitBuf bw + Z.b2z b * 2 ^ bw_bitCount bw).
  { rewrite Z.shiftl_mul_pow2 by lia. rewrite u32_small by (words; destruct b; simpl Z.b2z; lia).
    rewrite Z.lor_comm, (add_lor_disjoint _ _ (bw_bitCount bw)); [lia|lia| |assumption]. apply Z.mod_mul. lia. }
  assert (Hlt : 0 <= bw_bitBuf bw + Z.b2z b * 2 ^ bw_bitCount bw < 2 ^ (bw_bitCount bw + 1)).
  { rewrite Z.pow_add_r by lia. change (2 ^ 1) with 2. destruct b; simpl Z.b2z; lia. }
  assert (Hsn : bits_of (S (Z.to_nat (bw_bitCount bw))) (bw_bitBuf bw + Z.b2z b * 2 ^ bw_bitCount bw) =
    bits_of (Z.to_nat (bw_bitCount bw)) (bw_bitBuf bw) ++ [b]).
  { rewrite <- (bits_of_snoc _ b) by (rewrite Z2Nat.id by lia; assumption). by rewrite Z2Nat.id by lia. }
  unfold bwPutBit. rewrite Hand, Hbuf. cbv zeta. destruct (Z.eqb_spec (bw_bitCount bw + 1) 8) as [H8|H8].
  - destruct (Z.leb_spec (bw_cap bw) (zlen (bw_out bw))).
    + split; [split; simpl; [apply B|apply B|lia|lia]|reflexivity|discriminate|]. intros _. rewrite (zlen_wbits bw B).
      change (zlen [b]) with 1. lia.
    + assert (bw_bitCount bw = 7) as H7 by lia. rewrite H7 in *. change (2 ^ (7 + 1)) with 256 in Hlt.
      rewrite u8_small by (words; lia). split; [|reflexivity| |done].
      * split; simpl; [apply Forall_app; split; [apply B|apply Forall_singleton; words; lia]|rewrite zlen_app; change (zlen [_]) with 1; lia|lia|lia].
      * simpl. intros H'. split; [assumption|]. unfold wbits. cbn [bw_out bw_bitCount bw_bitBuf]. rewrite H7, byte_bits_app.
        unfold byte_bits at 2. cbn [flat_map]. change (bits_of (Z.to_nat 0) 0) with (@nil bool). rewrite !app_nil_r, <- app_assoc. f_equal.
        exact Hsn.
  - split; [split; simpl; [apply B|apply B|lia|assumption]|reflexivity| |done]. simpl. intros H'. split; [assumption|].
    unfold wbits. cbn [bw_out bw_bitCount bw_bitBuf]. replace (Z.to_nat (bw_bitCount bw + 1)) with (S (Z.to_nat (bw_bitCount bw))) by lia.
    by rewrite Hsn, app_assoc.
Qed.

Lemma land1_b2z v : v .& 1 = Z.b2z (Z.odd v).
Proof. change 1 with (Z.ones 1) at 1. rewrite Z.land_ones by lia. change (2 ^ 1) with 2. by rewrite Zmod_odd. Qed.

Lemma bw_bits_spec n : forall i v bw, bw_ok bw -> 0 <= i -> writes (bits_of n (v >>! i)) bw (bw_bits n i v bw).
Proof.
  induction n as [|n IH]; intros i v bw B Hi; cbn [bw_bits bits_of]; [by apply writes_nil|].
  rewrite land1_b2z. pose proof (bwPutBit_spec (Z.odd (v >>! i)) bw B) as W1.
  apply (writes_app [Z.odd (v >>! i)] _ _ _ _ W1). rewrite Z.div2_spec, Z.shiftr_shiftr by lia. apply IH; [apply W1|lia].
Qed.

Lemma bwBits_spec v n bw : bw_ok bw -> writes (bits_of (Z.to_nat n) v) bw (bwBits v n bw).
Proof. intros B. pose proof (bw_bits_spec (Z.to_nat n) 0 v bw B ltac:(lia)) as W. by rewrite Z.shiftr_0_r in W. Qed.

(** The bits of a code, highest first. *)
Fixpoint code_bits (n : nat) (code : Z) : list bool :=
  match n with O => [] | S m => Z.odd (code >>! Z.of_nat m) :: code_bits m code end.

Definition huff_bits (c : Z * Z) : list bool := code_bits (Z.to_nat c.2) c.1.

Lemma bw_huffman_spec n code : forall bw, bw_ok bw -> writes (code_bits n code) bw (bw_huffman n code bw).
Proof.
  induction n as [|n IH]; intros bw B; cbn [bw_huffman code_bits]; [by apply writes_nil|].
  rewrite land1_b2z. pose proof (bwPutBit_spec (Z.odd (code >>! Z.of_nat n)) bw B) as W1.
  apply (writes_app [Z.odd (code >>! Z.of_nat n)] _ _ _ _ W1). apply IH, W1.
Qed.

Lemma bw_flush_spec fuel : forall bw, bw_ok bw -> 8 - bw_bitCount bw <= Z.of_nat fuel ->
  exists pad bw', bw_flush fuel bw = Some bw' /\ writes pad bw bw' /\ bw_bitCount bw' = 0 /\
    zlen pad = if bw_bitCount bw =? 0 then 0 else 8 - bw_bitCount bw.
Proof.
  induction fuel as [|fuel IH]; intros bw B Hf; pose proof (bw_count bw B) as Hc; [lia|]. cbn [bw_flush].
  destruct (Z.eqb_spec (bw_bitCount bw) 0) as [Hz|Hnz].
  { exists [], bw. split_and!; [reflexivity|by apply writes_nil|assumption|reflexivity]. }
  pose proof (bwPutBit_spec false bw B) as W1. change (Z.b2z false) with 0 in W1.
  assert (Hcnt : bw_bitCount (bwPutBit 0 bw) = if bw_bitCount bw + 1 =? 8 then 0 else bw_bitCount bw + 1).
  { unfold bwPutBit. cbv zeta. destruct (_ =? 8); [destruct (_ <=? _)|]; reflexivity. }
  destruct (Z.eqb_spec (bw_bitCount bw + 1) 8) as [H8|H8].
  - exists [false], (bwPutBit 0 bw). split_and!; [|assumption|assumption|change (zlen [false]) with 1; lia].
    destruct fuel; cbn [bw_flush]; by rewrite Hcnt.
  - destruct (IH (bwPutBit 0 bw) (wr_ok _ _ _ W1)) as (pad & bw' & -> & W & Hz & Hl); [lia|].
    exists (false :: pad), bw'. split_and!; [reflexivity|apply (writes_app [false] _ _ _ _ W1 W)|assumption|]. rewrite zlen_cons, Hl, Hcnt.
    destruct (Z.eqb_spec (bw_bitCount bw + 1) 0); lia.
Qed.

(** ** Decoding the fixed codes *)

(** huffDecode on a list of bits that is exactly one code. *)
Fixpoint decode_bits (n : nat) (len code first index : Z) (h : HuffTree) (l : list bool) : option Z :=
  match n, l with
  | S n, b :: l =>
      let code := code .| Z.b2z b in
      count ← aget (h_counts h) len;
      if code - first <? count then
        match l with [] => s ← aget (h_symbols h) (index + (code - first)); s | _ => None end
      else decode_bits n (len + 1) (Z.shiftl code 1) (Z.shiftl (first + count) 1) (index + count) h l
  | _, _ => None
  end.

Lemma huff_decode_bits h n : forall len code first index l r br sym,
  br_ok br -> rbits br = l ++ r -> decode_bits n len code first index h l = Some sym ->
  exists br', huff_decode n len code first index h br = Some (sym, br') /\ br_ok br' /\ br_data br' = br_data br /\ rbits br' = r.
Proof.
  induction n as [|n IH]; intros len code first index l r br sym B Hl Hd; [discriminate|].
  destruct l as [|b l]; [discriminate|]. cbn [decode_bits] in Hd. cbn [huff_decode].
  pose proof (brBit_spec br B) as Hb. rewrite Hl in Hb. cbn [app] in Hb. destruct Hb as (br1 & -> & B1 & D1 & R1). cbn [mbind option_bind].
  destruct (Z.ltb_spec (Z.b2z b) 0); [destruct b; simpl in *; lia|]. cbv zeta in *.
  destruct (aget (h_counts h) len) as [count|]; [|discriminate]. cbn [mbind option_bind] in *.
  destruct (_ <? count).
  - destruct l; [|discriminate]. destruct (aget (h_symbols h) _) as [s|]; [|discriminate]. cbn [mbind option_bind] in *. rewrite Hd.
    cbn [mbind option_bind]. by exists br1.
  - destruct (IH _ _ _ _ l r br1 sym B1 R1 Hd) as (br' & -> & B' & D' & R'). exists br'. split_and!; congruence || assumption.
Qed.

Definition lit_decodes (sym : Z) : bool :=
  bool_decide (decode_bits 15 1 0 0 0 fixed_trees.1 (huff_bits (fixedLitCode sym)) = Some sym).
Definition dist_decodes (sym : Z) : bool :=
  bool_decide (decode_bits 15 1 0 0 0 fixed_trees.2 (huff_bits (fixedDistCode sym)) = Some sym).

Lemma lit_decode_all : forallb lit_decodes (seqZ 0 288) = true.
Proof. vm_compute. reflexivity. Qed.
Lemma dist_decode_all : forallb dist_decodes (seqZ 0 32) = true.
Proof. vm_compute. reflexivity. Qed.

Lemma read_code h c sym br r :
  decode_bits 15 1 0 0 0 h (huff_bits c) = Some sym -> br_ok br -> rbits br = huff_bits c ++ r ->
  exists br', huffDecode h br = Some (sym, br') /\ br_ok br' /\ br_data br' = br_data br /\ rbits br' = r.
Proof. intros Hd B Hr. by apply (huff_decode_bits h 15 1 0 0 0 (huff_bits c) r br sym). Qed.

Lemma read_lit sym br r :
  0 <= sym < 288 -> br_ok br -> rbits br = huff_bits (fixedLitCode sym) ++ r ->
  exists br', huffDecode fixed_trees.1 br = Some (sym, br') /\ br_ok br' /\ br_data br' = br_data br /\ rbits br' = r.
Proof.
  intros Hs B Hr. apply (read_code _ (fixedLitCode sym) sym br r); try assumption.
  pose proof lit_decode_all as H. rewrite forallb_forall in H. specialize (H sym). unfold lit_decodes in H.
  apply bool_decide_eq_true in H; [assumption|]. apply list_elem_of_In, elem_of_seqZ. lia.
Qed.

Lemma read_dist sym br r :
  0 <= sym < 32 -> br_ok br -> rbits br = huff_bits (fixedDistCode sym) ++ r ->
  exists br', huffDecode fixed_trees.2 br = Some (sym, br') /\ br_ok br' /\ br_data br' = br_data br /\ rbits br' = r.
Proof.
  intros Hs B Hr. apply (read_code _ (fixedDistCode sym) sym br r); try assumption.
  pose proof dist_decode_all as H. rewrite forallb_forall in H. specialize (H sym). unfold dist_decodes in H.
  apply bool_decide_eq_true in H; [assumption|]. apply list_elem_of_In, elem_of_seqZ. lia.
Qed.

Lemma read_extra n v br r :
  0 <= n -> 0 <= v < 2 ^ n -> br_ok br -> rbits br = bits_of (Z.to_nat n) v ++ r ->
  exists br', brBits n br = Some (v, br') /\ br_ok br' /\ br_data br' = br_data br /\ rbits br' = r.
Proof.
  intros Hn Hv B Hr. destruct (br_bits_read (Z.to_nat n) 0 0 br (bits_of (Z.to_nat n) v) r B Hr) as (br' & E & B' & D' & R');
    [apply length_bits_of|lia|simpl; lia|].
  exists br'. split; [|auto]. unfold brBits. rewrite E, bits_val_of by (rewrite Z2Nat.id by lia; assumption). do 2 f_equal. lia.
Qed.

(** ** The base tables *)

(** Between [base[i]] and the next base, or the limit, the extra bits suffice. *)
Definition span_ok (base extra : list Z) (limit : Z) (i : nat) : bool :=
  match base !! i, extra !! i, base !! S i with
  | Some b, Some e, Some b' => (b' <=? b + 2 ^ e) && (0 <=? e)
  | Some b, Some e, None => (limit <? b + 2 ^ e) && (0 <=? e)
  | _, _, _ => false
  end.

Lemma base_index_spec base x n :
  (n <= length base)%nat -> (exists b, base !! 0%nat = Some b /\ b <= x) -> (1 <= n)%nat ->
  exists (i : nat) b, base_index n x base = Some (Z.of_nat i) /\ (i < n)%nat /\ base !! i = Some b /\ b <= x /\
    forall b', base !! S i = Some b' -> (S i < n)%nat -> x < b'.
Proof.
  intros Hn (b0 & Hb0 & Hx). induction n as [|m IH]; intros H1; [lia|]. cbn [base_index].
  destruct (lookup_lt_is_Some_2 base m ltac:(lia)) as [b Hb].
  assert (Hg : aget base (Z.of_nat m) = Some b) by (apply aget_lookup; rewrite Nat2Z.id; split; [lia|assumption]).
  rewrite Hg. cbn [mbind option_bind]. destruct (Z.leb_spec b x) as [Hle|Hgt].
  - exists m, b. split_and!; try assumption; [reflexivity|lia|]. intros b' _ Hlt. lia.
  - destruct (decide (m = 0)%nat) as [->|]; [replace b0 with b in Hx by congruence; lia|].
    destruct (IH ltac:(lia) ltac:(lia)) as (i & c & E & Hi & Hc & Hcx & Hnext).
    exists i, c. split_and!; try assumption; [lia|]. intros b' Hb' Hlt. destruct (decide (S i = m)) as [<-|]; [congruence|].
    apply Hnext; [assumption|lia].
Qed.

Lemma base_split base extra limit x :
  forallb (span_ok base extra limit) (seq 0 (length base)) = true -> (exists b, base !! 0%nat = Some b /\ b <= x) -> x <= limit ->
  exists i b e, base_index (length base) x base = Some i /\ 0 <= i < zlen base /\ aget base i = Some b /\ aget extra i = Some e /\
    0 <= e /\ 0 <= x - b < 2 ^ e.
Proof.
  intros Ht H0 Hx. assert (1 <= length base)%nat by (destruct H0 as (b & Hb & _); apply lookup_lt_Some in Hb; lia).
  destruct (base_index_spec base x (length base)) as (i & b & E & Hi & Hb & Hle & Hnext); [lia|assumption|lia|].
  rewrite forallb_forall in Ht. specialize (Ht i). rewrite in_seq in Ht. specialize (Ht ltac:(lia)). unfold span_ok in Ht.
  rewrite Hb in Ht. destruct (extra !! i) as [e|] eqn:He; [|discriminate].
  exists (Z.of_nat i), b, e. rewrite !aget_lookup, Nat2Z.id. unfold zlen.
  destruct (base !! S i) as [b'|] eqn:Hb'; apply andb_true_iff in Ht as [Ht1 Ht2]; bprop; split_and!; try assumption; try lia.
  apply lookup_lt_Some in Hb' as Hlt. specialize (Hnext b' eq_refl Hlt). lia.
Qed.

(** ** Tokens *)

Inductive token := Lit (b : Z) | Match (len dist : Z).

Definition len_bits (len : Z) (l : list bool) : Prop :=
  exists i b e, 0 <= i < 29 /\ aget LENGTH_BASE i = Some b /\ aget LENGTH_EXTRA i = Some e /\ 0 <= e /\ 0 <= len - b < 2 ^ e /\
    l = huff_bits (fixedLitCode (257 + i)) ++ bits_of (Z.to_nat e) (len - b).
Definition dist_bits (dist : Z) (l : list bool) : Prop :=
  exists i b e, 0 <= i < 30 /\ aget DIST_BASE i = Some b /\ aget DIST_EXTRA i = Some e /\ 0 <= e /\ 0 <= dist - b < 2 ^ e /\
    l = huff_bits (fixedDistCode i) ++ bits_of (Z.to_nat e) (dist - b).

(** [l] spells the token. *)
Inductive spells : token -> list bool -> Prop :=
| sp_lit b : 0 <= b < 256 -> spells (Lit b) (huff_bits (fixedLitCode b))
| sp_match len dist l1 l2 : 3 <= len <= 258 -> 1 <= dist <= 32768 -> len_bits len l1 -> dist_bits dist l2 ->
    spells (Match len dist) (l1 ++ l2).

Lemma zlen_huff_bits c : 0 <= c.2 -> zlen (huff_bits c) = c.2.
Proof.
  intros Hc. assert (H : forall n code, length (code_bits n code) = n) by (induction n; intros; simpl; auto).
  unfold huff_bits, zlen. rewrite H. lia.
Qed.

Lemma lit_code_len sym : 7 <= (fixedLitCode sym).2 <= 9.
Proof. unfold fixedLitCode. destruct (sym <=? 143), (sym <=? 255), (sym <=? 279); simpl; lia. Qed.

(** A match of the lengths from [LENGTH_BASE[i]] on costs no more than its literals could. *)
Definition match_cheap (i : Z) : bool :=
  match aget LENGTH_BASE i, aget LENGTH_EXTRA i with
  | Some b, Some e => (fixedLitCode (257 + i)).2 + e + 18 <=? 9 * b
  | _, _ => false
  end.

Lemma match_cheap_all : forallb match_cheap (seqZ 0 29) = true.
Proof. vm_compute. reflexivity. Qed.

(** A token that stands for [n] bytes takes at most [9 n] bits, and at least one. *)
Definition token_bytes (t : token) : Z := match t with Lit _ => 1 | Match len _ => len end.

Lemma spells_length t l : spells t l -> 1 <= zlen l <= 9 * token_bytes t.
Proof.
  intros [b Hb|len d l1 l2 Hlen Hd (i & b & e & Hi & Hb & He & He0 & Hx & ->) (j & db & de & Hj & Hdb & Hde & Hde0 & Hdx & ->)]; cbn [token_bytes].
  - pose proof (lit_code_len b). rewrite zlen_huff_bits by lia. lia.
  - pose proof (lit_code_len (257 + i)). rewrite !zlen_app, !zlen_huff_bits by (simpl; lia). unfold zlen. rewrite !length_bits_of.
    pose proof match_cheap_all as H'. rewrite forallb_forall in H'. specialize (H' i). unfold match_cheap in H'. rewrite Hb, He in H'.
    specialize (H' ltac:(apply list_elem_of_In, elem_of_seqZ; lia)). bprop.
    assert (Hf : Forall (fun x => x <= 13) DIST_EXTRA) by (repeat constructor; lia). apply aget_lookup in Hde as [_ Hde].
    pose proof (Forall_lookup_1 _ _ _ _ Hf Hde). simpl in *. lia.
Qed.

Lemma emitLength_spec len bw :
  bw_ok bw -> 3 <= len <= 258 -> exists l bw', emitLength len bw = Some bw' /\ len_bits len l /\ writes l bw bw'.
Proof.
  intros B Hl. destruct (base_split LENGTH_BASE LENGTH_EXTRA 258 len) as (i & b & e & E & Hi & Hb & He & He0 & Hx);
    [vm_compute; reflexivity|exists 3; split; [reflexivity|lia]|lia|].
  change (length LENGTH_BASE) with 29%nat in E. change (zlen LENGTH_BASE) with 29 in Hi.
  unfold emitLength. rewrite E. cbn [mbind option_bind]. destruct (fixedLitCode (257 + i)) as [code cl] eqn:Hc. rewrite Hb, He.
  cbn [mbind option_bind].
  assert (Hu : u32 (len - b) = len - b).
  { apply u32_small. words. assert (2 ^ e <= 2 ^ 32); [|lia]. apply Z.pow_le_mono_r; [lia|].
    assert (Hf : Forall (fun x => x <= 32) LENGTH_EXTRA) by (repeat constructor; lia). apply aget_lookup in He as [_ He].
    by apply (Forall_lookup_1 _ _ _ _ Hf He). }
  rewrite Hu. eexists _, _. split; [reflexivity|]. split.
  - exists i, b, e. split_and!; try assumption; try lia. reflexivity.
  - rewrite Hc. unfold huff_bits. cbn [fst snd]. pose proof (bw_huffman_spec (Z.to_nat cl) code bw B) as W1.
    apply (writes_app _ _ _ _ _ W1). apply bwBits_spec, W1.
Qed.

Lemma emitDistance_spec dist bw :
  bw_ok bw -> 1 <= dist <= 32768 -> exists l bw', emitDistance dist bw = Some bw' /\ dist_bits dist l /\ writes l bw bw'.
Proof.
  intros B Hl. destruct (base_split DIST_BASE DIST_EXTRA 32768 dist) as (i & b & e & E & Hi & Hb & He & He0 & Hx);
    [vm_compute; reflexivity|exists 1; split; [reflexivity|lia]|lia|].
  change (length DIST_BASE) with 30%nat in E. change (zlen DIST_BASE) with 30 in Hi.
  unfold emitDistance, fixedDistCode. rewrite E. cbn [mbind option_bind]. rewrite Hb, He. cbn [mbind option_bind].
  assert (Hb1 : 1 <= b).
  { assert (Hf : Forall (fun x => 1 <= x) DIST_BASE) by (repeat constructor; lia). apply aget_lookup in Hb as [_ Hb].
    by apply (Forall_lookup_1 _ _ _ _ Hf Hb). }
  assert (Hu : u32 (dist - b) = dist - b) by (apply u32_small; words; lia).
  rewrite Hu. eexists _, _. split; [reflexivity|]. split.
  - exists i, b, e. split_and!; try assumption; try lia. reflexivity.
  - unfold huff_bits, fixedDistCode. cbn [fst snd]. pose proof (bw_huffman_spec (Z.to_nat 5) i bw B) as W1.
    apply (writes_app _ _ _ _ _ W1). apply bwBits_spec, W1.
Qed.

(** The tokens from [pos] on reproduce [data]. *)
Inductive parses (data : list Z) : Z -> list token -> Prop :=
| pa_end : parses data (zlen data) []
| pa_lit pos b toks : aget data pos = Some b -> parses data (pos + 1) toks -> parses data pos (Lit b :: toks)
| pa_match pos len dist toks : 3 <= len <= 258 -> 1 <= dist <= 32768 -> dist <= pos -> pos + len <= zlen data ->
    (forall k, 0 <= k < len -> aget data (pos + k) = aget data (pos + k - dist)) ->
    parses data (pos + len) toks -> parses data pos (Match len dist :: toks).

(** The bits of a list of tokens. *)
Inductive spelled : list token -> list bool -> Prop :=
| sd_nil : spelled [] []
| sd_cons t toks l k : spells t l -> spelled toks k -> spelled (t :: toks) (l ++ k).

(** Data that agree with themselves [dist] bytes back, for [len] bytes. *)
Definition repeats (data : list Z) (pos dist len : Z) : Prop :=
  forall k, 0 <= k < len -> aget data (pos + k) = aget data (pos + k - dist).

Lemma matchLength_spec data pos dist n : forall len,
  0 <= len -> 1 <= dist <= pos -> pos + len + Z.of_nat n <= zlen data -> repeats data pos dist len ->
  exists r, matchLength n data pos dist len = Some r /\ len <= r <= len + Z.of_nat n /\ repeats data pos dist r.
Proof.
  induction n as [|n IH]; intros len Hl Hd Hn Hr; cbn [matchLength]; [exists len; split_and!; [reflexivity|lia|lia|assumption]|].
  destruct (aget_Some data (pos + len)) as (a & Ha & _); [lia|]. destruct (aget_Some data (pos + len - dist)) as (b & Hb & _); [lia|].
  rewrite Ha, Hb. cbn [mbind option_bind]. destruct (Z.eqb_spec a b) as [->|]; [|exists len; split_and!; [reflexivity|lia|lia|assumption]].
  destruct (IH (len + 1)) as (r & -> & Hr1 & Hr2); [lia|lia|lia| |exists r; split_and!; [reflexivity|lia|lia|assumption]].
  intros k Hk. destruct (Z.eq_dec k len) as [->|]; [congruence|]. apply Hr. lia.
Qed.

(** A match, or none. *)
Definition match_ok (data : list Z) (pos : Z) (m : Z * Z) : Prop :=
  m = (0, 0) \/ (3 <= m.1 <= 258 /\ 1 <= m.2 <= 32768 /\ m.2 <= pos /\ pos + m.1 <= zlen data /\ repeats data pos m.2 m.1).

Lemma try_match_spec data pos dist remaining best :
  match_ok data pos best -> 1 <= dist <= 32768 -> dist <= pos -> 0 <= remaining <= 258 -> pos + remaining <= zlen data ->
  exists m, try_match data pos dist remaining best = Some m /\ match_ok data pos m.
Proof.
  intros Hb Hd Hp Hr Hlen. unfold try_match.
  destruct (matchLength_spec data pos dist (Z.to_nat remaining) 0) as (r & -> & Hr1 & Hr2); [lia..|intros k Hk; lia|].
  cbn [mbind option_bind]. eexists. split; [reflexivity|]. destruct ((3 <=? r) && (best.1 <? r)) eqn:E; [|assumption]. bprop.
  right. simpl. split_and!; try assumption; lia.
Qed.

Lemma best_match_spec data pos rowStride :
  0 <= pos < zlen data -> 0 <= rowStride -> exists m, best_match data pos rowStride = Some m /\ match_ok data pos m.
Proof.
  intros Hp Hs. unfold best_match. cbv zeta. set (remaining := if _ <? _ then _ else _).
  assert (Hr : 0 <= remaining <= 258 /\ pos + remaining <= zlen data).
  { unfold remaining. destruct (Z.ltb_spec 258 (zlen data - pos)); lia. }
  assert (H0 : match_ok data pos (0, 0)) by (by left).
  destruct (3 <=? remaining); [|by exists (0, 0)].
  assert (H3 : exists m, (if 3 <=? pos then try_match data pos 3 remaining (0, 0) else Some (0, 0)) = Some m /\ match_ok data pos m).
  { destruct (Z.leb_spec 3 pos); [apply try_match_spec; assumption || lia|by exists (0, 0)]. }
  destruct H3 as (best & -> & Hb). cbn [mbind option_bind].
  destruct (negb (rowStride =? 0) && (rowStride <=? 32768) && (rowStride <=? pos)) eqn:E; [|by exists best].
  apply andb_true_iff in E as [E E3]. apply andb_true_iff in E as [E1 E2]. bprop. apply try_match_spec; assumption || lia.
Qed.

(** One token is written. *)
Lemma emit_token data pos m bw :
  is_bytes data -> 0 <= pos < zlen data -> match_ok data pos m -> bw_ok bw ->
  exists t l bw' pos',
    (if 3 <=? m.1 then bw ← emitLength m.1 bw; bw ← emitDistance m.2 bw; Some (bw, pos + m.1)
     else b ← aget data pos; let '(code, len) := fixedLitCode b in Some (bwHuffman code len bw, pos + 1)) = Some (bw', pos') /\
    spells t l /\ writes l bw bw' /\ pos < pos' <= zlen data /\ pos' = pos + token_bytes t /\ (forall toks, parses data pos' toks -> parses data pos (t :: toks)).
Proof.
  intros Hd Hp Hm B. destruct (Z.leb_spec 3 m.1) as [H3|H3].
  - destruct Hm as [->|(H1 & H2 & H4 & H5 & H6)]; [simpl in H3; lia|].
    destruct (emitLength_spec m.1 bw B H1) as (l1 & bw1 & -> & L1 & W1). cbn [mbind option_bind].
    destruct (emitDistance_spec m.2 bw1 (wr_ok _ _ _ W1) H2) as (l2 & bw2 & -> & L2 & W2). cbn [mbind option_bind].
    exists (Match m.1 m.2), (l1 ++ l2), bw2, (pos + m.1). split_and!; [reflexivity|by constructor|by eapply writes_app|lia|lia|reflexivity|].
    intros toks Ht. by apply pa_match.
  - destruct (aget_Some data pos Hp) as (b & Hb & Hl). rewrite Hb. cbn [mbind option_bind].
    assert (Hu : is_u8 b) by (by apply (Forall_lookup_1 _ _ _ _ Hd Hl)). destruct (fixedLitCode b) as [code len] eqn:Hc.
    exists (Lit b), (huff_bits (fixedLitCode b)), (bwHuffman code len bw), (pos + 1).
    split_and!; [reflexivity|constructor; exact Hu| |lia|lia|reflexivity|].
    + rewrite Hc. by apply bw_huffman_spec.
    + intros toks Ht. by apply pa_lit.
Qed.

Lemma deflate_loop_spec data rowStride fuel : is_bytes data -> 0 <= rowStride -> forall pos bw,
  0 <= pos <= zlen data -> zlen data - pos <= Z.of_nat fuel -> bw_ok bw ->
  exists r, deflate_loop fuel data rowStride pos bw = Some r /\
    match r with
    | Some bw' => exists toks l, parses data pos toks /\ spelled toks l /\ writes l bw bw' /\ zlen l <= 9 * (zlen data - pos)
    | None => exists l bw', writes l bw bw' /\ bw_overflow bw' = true /\ zlen l <= 9 * (zlen data - pos)
    end.
Proof.
  intros Hd Hs. induction fuel as [|fuel IH]; intros pos bw Hp Hf B; cbn [deflate_loop];
    (destruct (Z.leb_spec (zlen data) pos);
      [exists (Some bw); split; [reflexivity|]; exists [], []; change (zlen []) with 0; split_and!;
         [replace pos with (zlen data) by lia; constructor|constructor|by apply writes_nil|lia]|]); [lia|].
  destruct (best_match_spec data pos rowStride) as ([ml md] & -> & Hm); [lia|assumption|]. cbn [mbind option_bind].
  destruct (emit_token data pos (ml, md) bw Hd) as (t & l & bw1 & pos1 & E & Ht & W & Hpos & Hstep & Hpar); [lia|assumption|assumption|].
  cbn [fst snd] in E. rewrite E. cbn [mbind option_bind]. pose proof (spells_length t l Ht) as Hl.
  destruct (bw_overflow bw1) eqn:Ho; [exists None; split; [reflexivity|]; exists l, bw1; split_and!; [assumption..|lia]|].
  destruct (IH pos1 bw1) as (r & -> & Hr); [lia|lia|apply W|]. exists r. split; [reflexivity|]. destruct r as [bw'|].
  - destruct Hr as (toks & k & P & S & W' & Hk). exists (t :: toks), (l ++ k). rewrite zlen_app.
    split_and!; [by apply Hpar|by constructor|by eapply writes_app|lia].
  - destruct Hr as (k & bw' & W' & Ho' & Hk). exists (l ++ k), bw'. rewrite zlen_app. split_and!; [by eapply writes_app|assumption|lia].
Qed.

(** ** Replaying the tokens *)

Lemma take_grow (data : list Z) pos b : aget data pos = Some b -> take (Z.to_nat pos) data ++ [b] = take (Z.to_nat (pos + 1)) data.
Proof.
  intros H. apply aget_lookup in H as [Hp H]. replace (Z.to_nat (pos + 1)) with (S (Z.to_nat pos)) by lia. by rewrite (take_S_r _ _ _ H).
Qed.

Lemma copy_replay data cap dist n : forall pos,
  1 <= dist <= pos -> pos + Z.of_nat n <= zlen data -> zlen data <= cap ->
  (forall k, 0 <= k < Z.of_nat n -> aget data (pos + k) = aget data (pos + k - dist)) ->
  copy_match n (pos - dist) cap (take (Z.to_nat pos) data) = Some (take (Z.to_nat (pos + Z.of_nat n)) data).
Proof.
  induction n as [|n IH]; intros pos Hd Hn Hc Hr; cbn [copy_match]; [by rewrite Z.add_0_r|].
  destruct (aget_Some data (pos - dist)) as (b & Hb & Hl); [lia|].
  assert (Hg : aget (take (Z.to_nat pos) data) (pos - dist) = Some b).
  { apply aget_lookup. split; [lia|]. rewrite lookup_take. destruct (decide _); [assumption|lia]. }
  rewrite Hg. cbn [mbind option_bind]. unfold out_push. rewrite zlen_take by lia. destruct (Z.ltb_spec pos cap); [|lia]. cbn [mbind option_bind].
  assert (Hb' : aget data pos = Some b).
  { specialize (Hr 0 ltac:(lia)). rewrite Z.add_0_r in Hr. by rewrite Hr. }
  rewrite (take_grow data pos b Hb'). replace (pos - dist + 1) with (pos + 1 - dist) by lia. rewrite IH; [|lia|lia|lia|].
  - do 3 f_equal. lia.
  - intros k Hk. specialize (Hr (k + 1) ltac:(lia)). by replace (pos + 1 + k) with (pos + (k + 1)) by lia.
Qed.

Section Replay.
Context (lit dist : HuffTree) (data : list Z) (cap : Z).
Context (Hlit : forall sym br r, 0 <= sym < 288 -> br_ok br -> rbits br = huff_bits (fixedLitCode sym) ++ r ->
  exists br', huffDecode lit br = Some (sym, br') /\ br_ok br' /\ br_data br' = br_data br /\ rbits br' = r).
Context (Hdist : forall sym br r, 0 <= sym < 32 -> br_ok br -> rbits br = huff_bits (fixedDistCode sym) ++ r ->
  exists br', huffDecode dist br = Some (sym, br') /\ br_ok br' /\ br_data br' = br_data br /\ rbits br' = r).
Context (Hcap : zlen data <= cap).

Lemma match_replay pos len d i b e l2 r br :
  br_ok br -> 0 <= i < 29 -> aget LENGTH_BASE i = Some b -> aget LENGTH_EXTRA i = Some e -> 0 <= e -> 0 <= len - b < 2 ^ e ->
  dist_bits d l2 -> 1 <= d <= pos -> 0 <= len -> pos + len <= zlen data -> repeats data pos d len ->
  rbits br = bits_of (Z.to_nat e) (len - b) ++ l2 ++ r ->
  exists br', inflate_match i cap dist br (take (Z.to_nat pos) data) = Some (STATUS_OK, br', take (Z.to_nat (pos + len)) data) /\
    br_ok br' /\ br_data br' = br_data br /\ rbits br' = r.
Proof.
  intros B Hi Hb He He0 Hx (j & db & de & Hj & Hdb & Hde & Hde0 & Hdx & ->) Hd Hl0 Hlen Hrep Hr.
  unfold inflate_match. destruct (Z.leb_spec 29 i); [lia|]. rewrite He. cbn [mbind option_bind].
  destruct (read_extra e (len - b) br _ He0 Hx B Hr) as (br1 & -> & B1 & D1 & R1). cbn [mbind option_bind].
  destruct (Z.ltb_spec (len - b) 0); [lia|]. rewrite Hb. cbn [mbind option_bind]. cbv zeta. rewrite <- app_assoc in R1.
  destruct (Hdist j br1 _ ltac:(lia) B1 R1) as (br2 & -> & B2 & D2 & R2). cbn [mbind option_bind].
  destruct (Z.ltb_spec j 0); [lia|]. destruct (Z.leb_spec 30 j); [lia|]. cbn [orb]. rewrite Hde. cbn [mbind option_bind].
  destruct (read_extra de (d - db) br2 _ Hde0 Hdx B2 R2) as (br3 & -> & B3 & D3 & R3). cbn [mbind option_bind].
  destruct (Z.ltb_spec (d - db) 0); [lia|]. rewrite Hdb. cbn [mbind option_bind]. rewrite zlen_take by lia.
  replace (db + (d - db)) with d by lia. replace (b + (len - b)) with len by lia.
  destruct (Z.eqb_spec d 0); [lia|]. destruct (Z.ltb_spec pos d); [lia|]. cbn [orb].
  destruct (Z.ltb_spec (cap - pos) len); [lia|].
  rewrite copy_replay by (try lia; intros k Hk; apply Hrep; lia). cbn [mbind option_bind].
  exists br3. rewrite Z2Nat.id by lia. split_and!; [reflexivity|assumption|congruence|assumption].
Qed.

Lemma tokens_replay toks : forall pos l r br fuel,
  parses data pos toks -> spelled toks l -> 0 <= pos -> br_ok br ->
  rbits br = l ++ huff_bits (fixedLitCode 256) ++ r -> (length toks < fuel)%nat ->
  exists br', inflateBlockData fuel lit dist cap br (take (Z.to_nat pos) data) = Some (STATUS_OK, br', data) /\
    br_ok br' /\ br_data br' = br_data br /\ rbits br' = r.
Proof.
  induction toks as [|t toks IH]; intros pos l r br fuel P S Hp B Hr Hf; (destruct fuel as [|fuel]; [lia|]); cbn [inflateBlockData].
  { inversion P; subst. inversion S; subst. destruct (Hlit 256 br r ltac:(lia) B Hr) as (br1 & -> & B1 & D1 & R1).
    cbn [mbind option_bind]. simpl Z.ltb. simpl Z.eqb. cbv iota. exists br1. rewrite firstn_all2 by (unfold zlen; lia). auto. }
  inversion S as [|t' toks' lt k Ht Hs]; subst. rewrite <- app_assoc in Hr.
  inversion P as [|p b ts Hb Hpar|p len d ts Hlen Hd Hdp Hend Hrep Hpar]; subst; inversion Ht; subst.
  - destruct (Hlit b br _ ltac:(lia) B Hr) as (br1 & -> & B1 & D1 & R1). cbn [mbind option_bind].
    destruct (Z.ltb_spec b 0); [lia|]. destruct (Z.ltb_spec b 256); [|lia]. pose proof (aget_bound _ _ _ Hb) as Hbd.
    rewrite zlen_take by lia. destruct (Z.leb_spec cap pos); [lia|]. unfold out_push. rewrite zlen_take by lia.
    destruct (Z.ltb_spec pos cap); [|lia]. cbn [mbind option_bind]. rewrite u8_small by (words; lia).
    rewrite (take_grow data pos b Hb). destruct (IH (pos + 1) k r br1 fuel Hpar Hs) as (br' & -> & B' & D' & R'); [lia|assumption|assumption|simpl in Hf; lia|].
    exists br'. split_and!; [reflexivity|assumption|congruence|assumption].
  - match goal with H : len_bits _ _ |- _ => destruct H as (i & lb & le & Hi & Hlb & Hle & Hle0 & Hlx & ->) end.
    rewrite <- !app_assoc in Hr. destruct (Hlit (257 + i) br _ ltac:(lia) B Hr) as (br1 & -> & B1 & D1 & R1). cbn [mbind option_bind].
    destruct (Z.ltb_spec (257 + i) 0); [lia|]. destruct (Z.ltb_spec (257 + i) 256); [lia|]. destruct (Z.eqb_spec (257 + i) 256); [lia|].
    replace (257 + i - 257) with i by lia.
    match goal with H : dist_bits _ _ |- _ =>
      destruct (match_replay pos len d i lb le _ _ br1 B1 Hi Hlb Hle Hle0 Hlx H ltac:(lia) ltac:(lia) Hend Hrep R1) as (br2 & -> & B2 & D2 & R2) end.
    cbn [mbind option_bind]. destruct (IH (pos + len) k r br2 fuel Hpar Hs) as (br' & -> & B' & D' & R'); [lia|assumption|assumption|simpl in Hf; lia|].
    exists br'. split_and!; [reflexivity|assumption|congruence|assumption].
Qed.
End Replay.

(** ** Round trips *)

Lemma spelled_length toks l : spelled toks l -> (length toks <= length l)%nat.
Proof.
  induction 1 as [|t toks l k Ht _ IH]; [simpl; lia|]. pose proof (spells_length t l Ht). unfold zlen in *.
  rewrite length_app. simpl. lia.
Qed.

(** What a compressed block looks like. *)
Definition encodes (data payload : list Z) : Prop :=
  exists toks l pad, parses data 0 toks /\ spelled toks l /\ (length pad < 8)%nat /\ is_bytes payload /\
    byte_bits payload = [true; true; false] ++ l ++ huff_bits (fixedLitCode 256) ++ pad.

Lemma deflate_spec data rowStride outCap :
  is_bytes data -> 0 <= rowStride -> 0 <= outCap ->
  exists st payload, compressDeflateFixed data rowStride outCap = Some (st, payload) /\
    ((st = STATUS_OK /\ encodes data payload /\ zlen payload <= outCap) \/
     (st = STATUS_ERR_NO_MEMORY /\ 8 * outCap < 9 * zlen data + 10)).
Proof.
  intros Hd Hs Hc. unfold compressDeflateFixed. set (bw0 := mkBw [] outCap 0 0 false).
  assert (B0 : bw_ok bw0) by (split; simpl; [constructor|exact Hc|lia|lia]).
  pose proof (bwBits_spec 1 1 bw0 B0) as W1. pose proof (bwBits_spec 1 2 _ (wr_ok _ _ _ W1)) as W2.
  set (bw2 := bwBits 1 2 (bwBits 1 1 bw0)) in *. pose proof (writes_app _ _ _ _ _ W1 W2) as W.
  change (bits_of (Z.to_nat 1) 1 ++ bits_of (Z.to_nat 2) 1) with [true; true; false] in W.
  pose proof (zlen_nonneg data). cbv zeta.
  destruct (deflate_loop_spec data rowStride (length data) Hd Hs 0 bw2) as (r & -> & Hr); [lia|unfold zlen; lia|apply W|].
  cbn [mbind option_bind]. destruct r as [bw3|].
  2: { eexists _, _. split; [reflexivity|]. right. split; [reflexivity|]. destruct Hr as (l & bw' & W' & Ho & Hl).
       destruct (Z.lt_ge_cases (8 * outCap) (9 * zlen data + 10)); [assumption|]. exfalso.
       pose proof (wr_fits _ _ _ (writes_app _ _ _ _ _ W W') eq_refl) as Hfit. rewrite zlen_app, Ho in Hfit.
       change (zlen (wbits bw0)) with 0 in Hfit. change (zlen [true; true; false]) with 3 in Hfit. change (bw_cap bw0) with outCap in Hfit.
       discriminate Hfit. lia. }
  destruct Hr as (toks & l & P & S & W3 & Hl). destruct (fixedLitCode 256) as [code len] eqn:Hcode.
  pose proof (bw_huffman_spec (Z.to_nat len) code bw3 (wr_ok _ _ _ W3)) as W4. fold (bwHuffman code len bw3) in W4.
  set (bw4 := bwHuffman code len bw3) in *. fold (huff_bits (code, len)) in W4. change (code_bits (Z.to_nat len) code) with (huff_bits (code, len)) in W4.
  rewrite <- Hcode in W4.
  destruct (bw_flush_spec 8 bw4 (wr_ok _ _ _ W4)) as (pad & bw5 & E5 & W5 & Hz & Hpad); [pose proof (bw_count bw4 (wr_ok _ _ _ W4)); lia|].
  unfold bwFlushByte. rewrite E5. cbn [mbind option_bind].
  pose proof (writes_app _ _ _ _ _ (writes_app _ _ _ _ _ W W3) W4) as W04. pose proof (writes_app _ _ _ _ _ W04 W5) as W05.
  pose proof (bw_count bw4 (wr_ok _ _ _ W4)) as Hc4. pose proof (wr_ok _ _ _ W5) as B5.
  destruct (bw_overflow bw5) eqn:Ho; eexists _, _; (split; [reflexivity|]).
  - right. split; [reflexivity|]. destruct (Z.lt_ge_cases (8 * outCap) (9 * zlen data + 10)) as [|Hge]; [assumption|]. exfalso.
    assert (Hlen : zlen (([true; true; false] ++ l) ++ huff_bits (fixedLitCode 256)) <= 8 * outCap).
    { rewrite !zlen_app, Hcode, zlen_huff_bits by (pose proof (lit_code_len 256); rewrite Hcode in *; lia).
      change (zlen [true; true; false]) with 3. assert (len = 7) by (unfold fixedLitCode in Hcode; simpl in Hcode; congruence). simpl. lia. }
    assert (Ho4 : bw_overflow bw4 = false) by (apply (wr_fits _ _ _ W04 eq_refl); exact Hlen).
    destruct (wr_bits _ _ _ W04 Ho4) as [_ E4]. change (wbits bw0) with (@nil bool) in E4. rewrite app_nil_l in E4.
    pose proof (zlen_wbits bw4 (wr_ok _ _ _ W4)) as Hz4. rewrite E4 in Hz4.
    pose proof (wr_fits _ _ _ W5 Ho4) as Hfit. rewrite Ho, E4, Hpad, (wr_cap _ _ _ W04) in Hfit. change (bw_cap bw0) with outCap in Hfit.
    discriminate Hfit. destruct (Z.eqb_spec (bw_bitCount bw4) 0); lia.
  - left. split; [reflexivity|]. destruct (wr_bits _ _ _ W05 Ho) as [_ E]. change (wbits bw0) with (@nil bool) in E. rewrite app_nil_l in E.
    unfold wbits in E. rewrite Hz in E. change (bits_of (Z.to_nat 0) (bw_bitBuf bw5)) with (@nil bool) in E. rewrite app_nil_r in E.
    pose proof (bw_room bw5 B5) as Hroom. rewrite (wr_cap _ _ _ W05) in Hroom. split; [|exact Hroom].
    exists toks, l, pad. split_and!; [assumption..| |apply B5|by rewrite E, !app_assoc].
    unfold zlen in Hpad. destruct (Z.eqb_spec (bw_bitCount bw4) 0); lia.
Qed.

(** A compressed block followed by anything is read back. *)
Lemma inflate_encoded data payload rest outCap :
  is_bytes data -> is_bytes rest -> zlen data <= outCap -> encodes data payload ->
  compressInflateRaw (payload ++ rest) outCap = Some (STATUS_OK, data, zlen payload).
Proof.
  intros Hd Hrest Hc (toks & l & pad & P & Sp & Hpad & Hpl & E).
  assert (Hin : is_bytes (payload ++ rest)) by (by apply Forall_app).
  destruct (start_ok _ Hin) as [B R]. set (br := mkBr (payload ++ rest) 0 0 0) in *. rewrite byte_bits_app, E in R.
  assert (Hfuel : exists f, Z.to_nat (8 * zlen (payload ++ rest) + 1) = S f).
  { pose proof (zlen_nonneg (payload ++ rest)). exists (Z.to_nat (8 * zlen (payload ++ rest))). lia. }
  destruct Hfuel as (f & Hfuel). unfold compressInflateRaw. fold br. rewrite Hfuel. cbn [inflate_blocks].
  pose proof (brBit_spec br B) as Hb. rewrite R in Hb. cbn [app] in Hb. destruct Hb as (br1 & -> & B1 & D1 & R1). cbn [mbind option_bind].
  assert (R1' : rbits br1 = bits_of (Z.to_nat 2) 1 ++ l ++ huff_bits (fixedLitCode 256) ++ pad ++ byte_bits rest).
  { rewrite R1, <- !app_assoc. reflexivity. }
  destruct (read_extra 2 1 br1 _ ltac:(lia) ltac:(simpl; lia) B1 R1') as (br2 & -> & B2 & D2 & R2). cbn [mbind option_bind].
  simpl Z.ltb. cbn [orb]. unfold inflate_block. cbv zeta. simpl Z.eqb. cbv iota. rewrite buildFixedTrees_eq.
  pose proof read_lit as Hlit. pose proof read_dist as Hdist. destruct fixed_trees as [lit dist]. cbn [fst snd] in *. cbn [mbind option_bind].
  assert (Hsz : br_size br2 = zlen (payload ++ rest)) by (unfold br_size; rewrite D2, D1; reflexivity).
  destruct (tokens_replay lit dist data outCap Hlit Hdist Hc toks 0 l (pad ++ byte_bits rest) br2 (Z.to_nat (8 * br_size br2 + 1)) P Sp)
    as (br3 & E3 & B3 & D3 & R3); [lia|assumption|assumption| |].
  { pose proof (rbits_bound br2 B2) as Hb. rewrite R2, length_app in Hb. pose proof (spelled_length _ _ Sp). lia. }
  change (take (Z.to_nat 0) data) with (@nil Z) in E3. rewrite E3. cbn [mbind option_bind negb].
  simpl Z.eqb. cbv iota. cbn [mbind option_bind negb].
  pose proof (rbits_length br3 B3) as Hl. rewrite R3, length_app, length_byte_bits in Hl. pose proof (bo_count br3 B3).
  assert (Hs3 : br_size br3 = zlen payload + zlen rest) by (unfold br_size; rewrite D3; fold (br_size br2); rewrite Hsz; apply zlen_app).
  change (Some (STATUS_OK, data, br_bytePos br3) = Some (STATUS_OK, data, zlen payload)). do 2 f_equal. unfold zlen in *. lia.
Qed.

(** ** The checksum's bytes *)

Lemma adler_range p : forall a b, 0 <= a < ADLER_MOD -> 0 <= b < ADLER_MOD ->
  let '(a', b') := fold_left (fun '(a, b) x => let a := u32 (a + x) mod ADLER_MOD in (a, u32 (b + a) mod ADLER_MOD)) p (a, b) in
  0 <= a' < ADLER_MOD /\ 0 <= b' < ADLER_MOD.
Proof.
  induction p as [|x p IH]; intros a b Ha Hb; cbn [fold_left]; [lia|].
  apply IH; apply Z.mod_pos_bound; unfold ADLER_MOD; lia.
Qed.

Lemma adler_u32 p : is_u32 (compressAdler32 1 p).
Proof.
  unfold compressAdler32. change (1 .& 0xFFFF, 1 >>! 16) with (1, 0).
  pose proof (adler_range p 1 0 ltac:(unfold ADLER_MOD; lia) ltac:(unfold ADLER_MOD; lia)) as H.
  destruct (fold_left _ p (1, 0)) as [a b]. unfold ADLER_MOD in H. rewrite Z.shiftl_mul_pow2 by lia.
  rewrite u32_small by (words; lia). rewrite (add_lor_disjoint _ _ 16); [words; lia|lia|by apply Z.mod_mul|lia].
Qed.

(** The four bytes, highest first, make the word again. *)
Lemma be32_bytes v : is_u32 v ->
  ((u32 (Z.shiftl (u8 (v >>! 24)) 24) .| u32 (Z.shiftl (u8 (v >>! 16)) 16)) .| u32 (Z.shiftl (u8 (v >>! 8)) 8)) .| u8 v = v.
Proof.
  intros Hv. words. rewrite !Z.shiftr_div_pow2, !Z.shiftl_mul_pow2 by lia.
  rewrite !(Z.mod_small (_ * _)) by dlia.
  rewrite (add_lor_disjoint (_ * 2 ^ 24) _ 24) by dlia. rewrite (add_lor_disjoint (_ + _) (_ * 2 ^ 8) 16) by dlia.
  rewrite (add_lor_disjoint (_ + _) _ 8) by dlia. dlia.
Qed.

Lemma is_bytes_be32 v : is_bytes [u8 (v >>! 24); u8 (v >>! 16); u8 (v >>! 8); u8 v].
Proof. repeat constructor; words; dlia. Qed.

Lemma aget_app_r (l k : list Z) i : 0 <= i -> aget (l ++ k) (zlen l + i) = aget k i.
Proof.
  intros Hi. unfold aget. pose proof (zlen_nonneg l). destruct (Z.ltb_spec (zlen l + i) 0); [lia|]. destruct (Z.ltb_spec i 0); [lia|].
  rewrite lookup_app_r by (unfold zlen in *; lia). f_equal. unfold zlen. lia.
Qed.

(** A well-formed zlib stream, with anything after it, is decompressed. *)
Lemma zlib_inflate_encoded data payload t cap v :
  is_bytes data -> is_bytes t -> zlen data <= cap -> encodes data payload -> v = compressAdler32 1 data ->
  compressZlibInflate ([0x78; 0x01] ++ payload ++ [u8 (v >>! 24); u8 (v >>! 16); u8 (v >>! 8); u8 v] ++ t) cap =
    Some (STATUS_OK, data, zlen payload + 6).
Proof.
  intros Hd Ht Hc He Hv. pose proof (is_bytes_be32 v) as Hb. pose proof (be32_bytes v) as Hw. rewrite Hv in Hw at 1. specialize (Hw (adler_u32 data)).
  revert Hb Hw. generalize (u8 (v >>! 24)) (u8 (v >>! 16)) (u8 (v >>! 8)) (u8 v). intros c0 c1 c2 c3 Hb Hw.
  assert (Hin : is_bytes ([c0; c1; c2; c3] ++ t)) by (by apply Forall_app).
  unfold compressZlibInflate. set (input := [0x78; 0x01] ++ _).
  assert (Hlen : zlen input = zlen payload + 6 + zlen t) by (unfold input; rewrite !zlen_app; change (zlen [0x78; 0x01]) with 2; change (zlen [c0; c1; c2; c3]) with 4; lia).
  pose proof (zlen_nonneg payload) as Hp0. pose proof (zlen_nonneg t) as Ht0. destruct (Z.ltb_spec (zlen input) 6); [lia|].
  change (aget input 0) with (Some 0x78). change (aget input 1) with (Some 0x01). cbn [mbind option_bind].
  change (negb ((0x78 .& 0x0F) =? 8)) with false. change (7 <? (0x78 >>! 4)) with false.
  change (negb (u32 (0x78 * 256 + 0x01) mod 31 =? 0)) with false. change (negb ((0x01 .& 0x20) =? 0)) with false. cbv iota.
  change (drop 2 input) with (payload ++ [c0; c1; c2; c3] ++ t). rewrite (inflate_encoded data payload _ cap Hd Hin Hc He). cbn [mbind option_bind]. cbv zeta.
  assert (Hat : forall i, 0 <= i -> aget input (2 + zlen payload + i) = aget ([c0; c1; c2; c3] ++ t) i).
  { intros i Hi. unfold input. replace (2 + zlen payload + i) with (zlen [0x78; 0x01] + (zlen payload + i)) by (change (zlen [0x78; 0x01]) with 2; lia).
    by rewrite !aget_app_r by lia. }
  rewrite <- (Z.add_0_r (2 + zlen payload)) at 2. rewrite !Hat by lia. rewrite Hlen. destruct (Z.ltb_spec (zlen payload + 6 + zlen t - (2 + zlen payload)) 4); [lia|].
  change (aget ([c0; c1; c2; c3] ++ t) 0) with (Some c0). change (aget ([c0; c1; c2; c3] ++ t) 1) with (Some c1).
  change (aget ([c0; c1; c2; c3] ++ t) 2) with (Some c2). change (aget ([c0; c1; c2; c3] ++ t) 3) with (Some c3). cbn [mbind option_bind].
  rewrite Hw, <- Hv, Z.eqb_refl. cbn [negb]. do 2 f_equal. lia.
Qed.

(** What compressZlibDeflate returns. *)
Lemma zlib_deflate_spec data rowStride outCap :
  is_bytes data -> 0 <= rowStride -> 0 <= outCap ->
  exists st z, compressZlibDeflate data rowStride outCap = Some (st, z) /\
    ((st = STATUS_ERR_NO_MEMORY /\ 8 * (outCap - 6) < 9 * zlen data + 10) \/
     (st = STATUS_OK /\ exists payload v, v = compressAdler32 1 data /\ encodes data payload /\ zlen payload + 6 <= outCap /\
        z = [0x78; 0x01] ++ payload ++ [u8 (v >>! 24); u8 (v >>! 16); u8 (v >>! 8); u8 v])).
Proof.
  intros Hd Hs Hc. pose proof (zlen_nonneg data). unfold compressZlibDeflate. destruct (Z.ltb_spec outCap 6).
  { eexists _, _. split; [reflexivity|]. left. split; [reflexivity|lia]. }
  destruct (deflate_spec data rowStride (outCap - 6) Hd Hs) as (st & payload & -> & [(-> & He & Hl)|(-> & Hl)]); [lia| |]; cbn [mbind option_bind];
    eexists _, _; (split; [reflexivity|]).
  - right. split; [reflexivity|]. exists payload, (compressAdler32 1 data). split_and!; [reflexivity|assumption|lia|reflexivity].
  - left. split; [reflexivity|assumption].
Qed.

(** C10: compressing into a buffer and decompressing gives the data back.  compressZlibDeflate
    always ends, with STATUS_OK or STATUS_ERR_NO_MEMORY, and with STATUS_OK whenever the buffer
    holds nine bits per byte of input, ten more bits and the six bytes of header and trailer.
    What it wrote fits the buffer, and compressZlibInflate of it, whatever follows it and
    whatever capacity of at least the data's size it is given, returns STATUS_OK, exactly the
    data, and exactly the bytes that were written as used. *)
Theorem zlib_roundtrip data rowStride outCap :
  is_bytes data -> 0 <= rowStride -> 0 <= outCap ->
  exists st z, compressZlibDeflate data rowStride outCap = Some (st, z) /\
    (st = STATUS_OK \/ st = STATUS_ERR_NO_MEMORY) /\
    (9 * zlen data + 10 <= 8 * (outCap - 6) -> st = STATUS_OK) /\
    (st = STATUS_OK -> zlen z <= outCap /\
       forall t cap, is_bytes t -> zlen data <= cap -> compressZlibInflate (z ++ t) cap = Some (STATUS_OK, data, zlen z)).
Proof.
  intros Hd Hs Hc. destruct (zlib_deflate_spec data rowStride outCap Hd Hs Hc) as (st & z & -> & [(-> & Hl)|(-> & payload & v & Hv & He & Hl & ->)]);
    eexists _, _; (split_and!; [reflexivity|auto|intros; reflexivity || lia|]); [discriminate|].
  assert (Hz : zlen ([0x78; 0x01] ++ payload ++ [u8 (v >>! 24); u8 (v >>! 16); u8 (v >>! 8); u8 v]) = zlen payload + 6).
  { rewrite !zlen_app. change (zlen [0x78; 0x01]) with 2. change (zlen [_; _; _; _]) with 4. lia. }
  intros _. rewrite Hz. split; [lia|]. intros t cap Ht Hcap. rewrite <- !app_assoc. by apply zlib_inflate_encoded.
Qed.

(** Nine bytes with a run, followed by a byte that is not the stream's. *)
Lemma zlib_roundtrip_witness :
  exists st z, compressZlibDeflate [1; 2; 3; 1; 2; 3; 1; 2; 200] 0 64 = Some (st, z) /\ st = STATUS_OK /\
    compressZlibInflate (z ++ [7]) 9 = Some (STATUS_OK, [1; 2; 3; 1; 2; 3; 1; 2; 200], zlen z).
Proof.
  destruct (zlib_roundtrip [1; 2; 3; 1; 2; 3; 1; 2; 200] 0 64) as (st & z & E & _ & Hok & Hz);
    [repeat constructor; words; lia|lia|lia|]. exists st, z. assert (st = STATUS_OK) as -> by (apply Hok; vm_compute; discriminate).
  split; [exact E|]. split; [reflexivity|]. apply (Hz eq_refl); [repeat constructor; words; lia|vm_compute; discriminate].
Defined.
