(* ===== verification/SlabCore.v ===== *)
(** * The slab allocator's layout, free lists and debug checks

    Models kernel/mm/slab-core.c and slab-debug.c with their types of
    slab-internal.h.  The header of a slab and the bufctl array behind it are one
    record; the bytes of the objects are a function from addresses. *)

From S2P Require Import Prelude BootTypes.

(** ** Types and constants *)

Definition SLAB_MAGIC : Z := 0x51AB51AB51AB51AB.
Definition SLAB_BUFCTL_END : Z := 0xFFFF.
Definition SLAB_BUFCTL_BUSY : Z := 0xFFFE.
Definition SLAB_MAX_OBJECTS : Z := 1024.
Definition SLAB_MAX_ORDER : Z := 3.
Definition SLAB_REDZONE_SIZE : Z := 16.
Definition SLAB_POISON_BYTE : Z := 0x6B.
Definition SLAB_REDZONE_BYTE : Z := 0xBB.
Definition KMALLOC_MAX_SIZE : Z := 8192.
Definition SLAB_KMALLOC_CLASS_COUNT : Z := 12.
Definition UINT32_MAX : Z := 2 ^ 32 - 1.

(** The size of the header: seven words, the last of three halves and two bytes. *)
Definition sizeof_Slab : Z := 48.

(** Models src/kernel/mm/slab-internal.h:30-35, SlabListKind. *)
Inductive SlabListKind := SLAB_LIST_NONE | SLAB_LIST_PARTIAL | SLAB_LIST_FULL | SLAB_LIST_EMPTY.

#[global] Instance SlabListKind_eq_dec : EqDecision SlabListKind.
Proof. solve_decision. Defined.

(** Models src/kernel/mm/slab-internal.h:42-52, Slab, with the bufctl array that follows the
    header in memory; the [link] is a place in one of the lists of its cache. *)
Record Slab := mkSlab {
  sl_magic : Z; sl_cache : Z; sl_objBase : Z; sl_objCount : Z; sl_freeCount : Z; sl_freeHead : Z;
  sl_list : SlabListKind; sl_order : Z; sl_bufctl : list Z
}.

Definition set_free (count head : Z) (bufctl : list Z) (s : Slab) : Slab :=
  mkSlab (sl_magic s) (sl_cache s) (sl_objBase s) (sl_objCount s) count head (sl_list s) (sl_order s) bufctl.

(** Models src/kernel/mm/slab-internal.h:62-68, SlabLayout. *)
Record SlabLayout := mkLayout { ly_order : Z; ly_objsPerSlab : Z; ly_stride : Z; ly_objOffset : Z; ly_rzLeft : Z }.

(** ** Size classes *)

(** Models src/kernel/mm/slab-core.c:7-8, slabKmallocClassSizes. *)
Definition slabKmallocClassSizes : list Z := [16; 32; 64; 96; 128; 192; 256; 512; 1024; 2048; 4096; 8192].

(** Models src/kernel/mm/slab-core.c:14-18, slabClassIndexForSize's loop over the classes from [i] on. *)
Fixpoint class_scan (sizes : list Z) (i size : Z) : Z :=
  match sizes with
  | [] => UINT32_MAX
  | c :: sizes => if size <=? c then i else class_scan sizes (i + 1) size
  end.

(** Models src/kernel/mm/slab-core.c:10-20, slabClassIndexForSize. *)
Definition slabClassIndexForSize (size : Z) : Z :=
  if (size =? 0) || (KMALLOC_MAX_SIZE <? size) then UINT32_MAX else class_scan slabKmallocClassSizes 0 size.

(** ** Layout *)

(** Models src/kernel/mm/slab-core.c:22-24, alignUp32. *)
Definition alignUp32 (v a : Z) : Z := u32 (v + (a - 1)) .& not32 (a - 1).

(** Models src/kernel/mm/slab-core.c:32-34, slabMinObjOffset. *)
Definition slabMinObjOffset (n rzLeft align : Z) : Z := alignUp32 (u32 (sizeof_Slab + u32 (n * 2) + rzLeft)) align.

(** Models src/kernel/mm/slab-core.c:48-54, slabComputeLayout's search for the number of objects,
    from [n] down. *)
Fixpoint fit_count (n : nat) (stride rzLeft align slabBytes : Z) : Z :=
  match n with
  | O => 0
  | S m =>
      let objOffset := slabMinObjOffset (Z.of_nat n) rzLeft align in
      if objOffset +! (Z.of_nat n *! stride) <=? slabBytes then Z.of_nat n
      else fit_count m stride rzLeft align slabBytes
  end.

(** Models src/kernel/mm/slab-core.c:41-63, slabComputeLayout's loop over the [todo] orders from
    [order] on; [None] when it ends without a layout. *)
Fixpoint layout_loop (todo : nat) (order stride rzLeft align : Z) : option SlabLayout :=
  match todo with
  | O => None
  | S todo =>
      let slabBytes := u32 (Z.shiftl 4096 order) in
      let nMax := slabBytes / stride in
      let nMax := if SLAB_MAX_OBJECTS <? nMax then SLAB_MAX_OBJECTS else nMax in
      let n := fit_count (Z.to_nat nMax) stride rzLeft align slabBytes in
      if (1 <=? n) && ((4 <=? n) || (order =? SLAB_MAX_ORDER))
      then Some (mkLayout order n stride (slabMinObjOffset n rzLeft align) rzLeft)
      else layout_loop todo (order + 1) stride rzLeft align
  end.

(** Models src/kernel/mm/slab-core.c:36-69, slabComputeLayout; [None] leaves the layout unset. *)
Definition slabComputeLayout (objSize align : Z) (debug : bool) : option SlabLayout :=
  let rzLeft := if debug then (if SLAB_REDZONE_SIZE <? align then align else SLAB_REDZONE_SIZE) else 0 in
  let rzRight := if debug then SLAB_REDZONE_SIZE else 0 in
  let stride := alignUp32 (u32 (rzLeft + objSize + rzRight)) align in
  layout_loop 4 0 stride rzLeft align.

(** Models src/kernel/mm/slab-core.c:71-80, slabIndexForOffset. *)
Definition slabIndexForOffset (layout : SlabLayout) (off : Z) : Z :=
  if (ly_stride layout =? 0) || negb (off mod ly_stride layout =? 0) then -1
  else
    let index := off / ly_stride layout in
    if ly_objsPerSlab layout <=? index then -1 else index.

(** Models src/kernel/mm/slab-internal.h:128-130, slabSlot, for a cache of that stride. *)
Definition slabSlot (slab : Slab) (stride index : Z) : Z := sl_objBase slab +! (index *! stride).

(** ** Free lists *)

(** Models src/kernel/mm/slab-core.c:85-87, slabCarve's loop. *)
Definition carve_bufctl (n : Z) : list Z :=
  (fun i => if i + 1 <? n then i + 1 else SLAB_BUFCTL_END) <$> seqZ 0 n.

(** Models src/kernel/mm/slab-core.c:82-90, slabCarve. *)
Definition slabCarve (slab : Slab) : Slab :=
  let n := sl_objCount slab in
  set_free n (if 0 <? n then 0 else SLAB_BUFCTL_END) (carve_bufctl n) slab.

(** Models src/kernel/mm/slab-core.c:92-99, slabFreeListPop. *)
Definition slabFreeListPop (slab : Slab) : option (Z * Slab) :=
  let idx := sl_freeHead slab in
  next ← aget (sl_bufctl slab) idx;
  bufctl ← aset (sl_bufctl slab) idx SLAB_BUFCTL_BUSY;
  Some (idx, set_free (u16 (sl_freeCount slab - 1)) next bufctl slab).

(** Models src/kernel/mm/slab-core.c:101-106, slabFreeListPush. *)
Definition slabFreeListPush (slab : Slab) (index : Z) : option Slab :=
  bufctl ← aset (sl_bufctl slab) index (sl_freeHead slab);
  Some (set_free (u16 (sl_freeCount slab + 1)) index bufctl slab).

(** ** Debug checks *)

(** [for (i = 0; i < n; i++) p[i] = v] on bytes, from index [i] on. *)
Fixpoint fill_bytes (n : nat) (i p v : Z) (mem : Z -> Z) : Z -> Z :=
  match n with
  | O => mem
  | S n => fill_bytes n (i + 1) p v (write_word (p + i) v mem)
  end.

(** Whether the [n] bytes of [p] from index [i] on are all [v]. *)
Fixpoint bytes_are (n : nat) (i p v : Z) (mem : Z -> Z) : bool :=
  match n with
  | O => true
  | S n => if negb (mem (p + i) =? v) then false else bytes_are n (i + 1) p v mem
  end.

(** Models src/kernel/mm/slab-debug.c:10-12, slabDebugLeftBase (and 13-15, its const form). *)
Definition slabDebugLeftBase (layout : SlabLayout) (slot : Z) : Z := slot - ly_rzLeft layout.

(** Models src/kernel/mm/slab-debug.c:16-18, slabDebugRightLen. *)
Definition slabDebugRightLen (layout : SlabLayout) (objSize : Z) : Z := u32 (ly_stride layout - ly_rzLeft layout - objSize).

(** Models src/kernel/mm/slab-debug.c:55-63, slabDebugPoisonFree; [ctor] tells whether the cache
    has a constructor. *)
Definition slabDebugPoisonFree (ctor : bool) (objSize slot : Z) (mem : Z -> Z) : Z -> Z :=
  if ctor then mem else fill_bytes (Z.to_nat objSize) 0 slot SLAB_POISON_BYTE mem.

(** Models src/kernel/mm/slab-debug.c:20-36, slabDebugCarveFill. *)
Definition slabDebugCarveFill (layout : SlabLayout) (ctor : bool) (objSize slot : Z) (mem : Z -> Z) : Z -> Z :=
  let mem := fill_bytes (Z.to_nat (ly_rzLeft layout)) 0 (slabDebugLeftBase layout slot) SLAB_REDZONE_BYTE mem in
  let mem := fill_bytes (Z.to_nat (slabDebugRightLen layout objSize)) 0 (slot + objSize) SLAB_REDZONE_BYTE mem in
  if ctor then mem else fill_bytes (Z.to_nat objSize) 0 slot SLAB_POISON_BYTE mem.

(** Models src/kernel/mm/slab-debug.c:38-53, slabDebugCheckRedzones. *)
Definition slabDebugCheckRedzones (layout : SlabLayout) (objSize slot : Z) (mem : Z -> Z) : bool :=
  if negb (bytes_are (Z.to_nat (ly_rzLeft layout)) 0 (slabDebugLeftBase layout slot) SLAB_REDZONE_BYTE mem) then false
  else bytes_are (Z.to_nat (slabDebugRightLen layout objSize)) 0 (slot + objSize) SLAB_REDZONE_BYTE mem.

(** Models src/kernel/mm/slab-debug.c:65-76, slabDebugCheckPoison. *)
Definition slabDebugCheckPoison (ctor : bool) (objSize slot : Z) (mem : Z -> Z) : bool :=
  if ctor then true else bytes_are (Z.to_nat objSize) 0 slot SLAB_POISON_BYTE mem.

(** ** Layouts, as a reference *)

(** The least multiple of [2 ^ k] from [v] up. *)
Definition up (k v : Z) : Z := (v + 2 ^ k - 1) / 2 ^ k * 2 ^ k.

Lemma up_spec k v : 0 <= k -> 0 <= v -> v <= up k v < v + 2 ^ k /\ up k v mod 2 ^ k = 0.
Proof.
  intros Hk Hv. unfold up. pose proof (Z.pow_pos_nonneg 2 k ltac:(lia) Hk). rewrite Z.mod_mul by lia.
  pose proof (Z_div_mod_eq_full (v + 2 ^ k - 1) (2 ^ k)). pose proof (Z.mod_pos_bound (v + 2 ^ k - 1) (2 ^ k) ltac:(lia)). lia.
Qed.

Lemma up_mono k v w : 0 <= k -> v <= w -> up k v <= up k w.
Proof.
  intros Hk Hv. unfold up. pose proof (Z.pow_pos_nonneg 2 k ltac:(lia) Hk). apply Z.mul_le_mono_nonneg_r; [lia|]. apply Z.div_le_mono; lia.
Qed.

Lemma alignUp32_up k v : 0 <= k <= 32 -> 0 <= v -> v + 2 ^ k <= 2 ^ 32 -> alignUp32 v (2 ^ k) = up k v.
Proof.
  intros Hk Hv Hw. pose proof (Z.pow_pos_nonneg 2 k ltac:(lia) ltac:(lia)). unfold alignUp32, not32.
  rewrite u32_small by (words; lia). rewrite (land_high 32) by lia. unfold up.
  replace (v + (2 ^ k - 1)) with (v + 2 ^ k - 1) by lia. pose proof (Z_div_mod_eq_full (v + 2 ^ k - 1) (2 ^ k)). lia.
Qed.

(** [m] objects of that stride fit a slab of that order, behind the header, the bufctl
    array and the first object's left redzone. *)
Definition fits (k stride rzLeft order m : Z) : Prop := up k (sizeof_Slab + 2 * m + rzLeft) + m * stride <= 4096 * 2 ^ order.

Lemma fits_anti k stride rzLeft order m m' : 0 <= k -> 0 <= stride -> m' <= m -> fits k stride rzLeft order m -> fits k stride rzLeft order m'.
Proof.
  unfold fits. intros Hk Hs Hm H. pose proof (up_mono k (sizeof_Slab + 2 * m' + rzLeft) (sizeof_Slab + 2 * m + rzLeft) Hk ltac:(lia)). nia.
Qed.

Section Layout.
Context (k : Z) (Hk : 3 <= k <= 12).
Context (rzLeft : Z) (Hrz : 0 <= rzLeft <= 4096) (stride : Z) (Hst : 1 <= stride <= 2 ^ 20).

Lemma pow_k : 8 <= 2 ^ k <= 4096.
Proof. split; [change 8 with (2 ^ 3)|change 4096 with (2 ^ 12)]; apply Z.pow_le_mono_r; lia. Qed.

Lemma min_offset n : 0 <= n <= 1024 -> slabMinObjOffset n rzLeft (2 ^ k) = up k (sizeof_Slab + 2 * n + rzLeft).
Proof.
  intros Hn. pose proof pow_k. unfold slabMinObjOffset, sizeof_Slab. rewrite (u32_small (n * 2)) by (words; lia).
  rewrite u32_small by (words; lia). rewrite alignUp32_up by lia. f_equal. lia.
Qed.

Lemma fit_count_spec order n : Z.of_nat n <= 1024 -> 0 <= order <= 3 ->
  let c := fit_count n stride rzLeft (2 ^ k) (4096 * 2 ^ order) in
  0 <= c <= Z.of_nat n /\ (0 < c -> fits k stride rzLeft order c) /\
  forall m, c < m <= Z.of_nat n -> ~ fits k stride rzLeft order m.
Proof.
  intros Hn Ho. pose proof pow_k. induction n as [|n IH]; [simpl; split; [lia|split; [lia|intros; lia]]|]. cbn [fit_count]. cbv zeta.
  rewrite min_offset by lia. pose proof (up_spec k (sizeof_Slab + 2 * Z.of_nat (S n) + rzLeft) ltac:(lia) ltac:(unfold sizeof_Slab; lia)) as [Hu _].
  unfold sizeof_Slab in Hu at 2. rewrite (u64_small (Z.of_nat (S n) * stride)) by (words; nia).
  assert (Hb : Z.of_nat (S n) * stride <= 1024 * 2 ^ 20) by nia. rewrite u64_small by (words; unfold sizeof_Slab in *; nia).
  destruct (Z.leb_spec (up k (sizeof_Slab + 2 * Z.of_nat (S n) + rzLeft) + Z.of_nat (S n) * stride) (4096 * 2 ^ order)) as [Hf|Hf].
  - split; [lia|]. split; [intros _; exact Hf|intros; lia].
  - cbv zeta in IH. destruct IH as (H1 & H2 & H3); [lia|]. split; [lia|]. split; [assumption|]. intros m Hm.
    destruct (decide (m = Z.of_nat (S n))) as [->|]; [unfold fits; lia|apply H3; lia].
Qed.

(** The greatest number of objects, at most 1024, that fit a slab of that order. *)
Definition most (order n : Z) : Prop :=
  0 <= n <= SLAB_MAX_OBJECTS /\ (0 < n -> fits k stride rzLeft order n) /\
  forall m, n < m <= SLAB_MAX_OBJECTS -> ~ fits k stride rzLeft order m.

Lemma order_most order : 0 <= order <= 3 ->
  let nMax := 4096 * 2 ^ order / stride in
  most order (fit_count (Z.to_nat (if SLAB_MAX_OBJECTS <? nMax then SLAB_MAX_OBJECTS else nMax)) stride rzLeft (2 ^ k) (4096 * 2 ^ order)).
Proof.
  intros Ho. cbv zeta. assert (Hn : 0 <= 4096 * 2 ^ order / stride) by (apply Z.div_pos; lia).
  assert (Hover : forall m, 4096 * 2 ^ order / stride < m -> ~ fits k stride rzLeft order m).
  { intros m Hm Hf. unfold fits in Hf. pose proof (up_spec k (sizeof_Slab + 2 * m + rzLeft) ltac:(lia) ltac:(unfold sizeof_Slab; lia)) as [Hu _].
    unfold sizeof_Slab in Hu at 1. assert (m <= 4096 * 2 ^ order / stride) by (apply Z.div_le_lower_bound; nia). lia. }
  destruct (Z.ltb_spec SLAB_MAX_OBJECTS (4096 * 2 ^ order / stride)) as [H|H]; unfold SLAB_MAX_OBJECTS in *; [
    destruct (fit_count_spec order (Z.to_nat 1024) ltac:(lia) Ho) as (H1 & H2 & H3)|
    destruct (fit_count_spec order (Z.to_nat (4096 * 2 ^ order / stride)) ltac:(lia) Ho) as (H1 & H2 & H3)];
    rewrite Z2Nat.id in * by lia; unfold most, SLAB_MAX_OBJECTS; (split; [lia|]; split; [assumption|]); [assumption|].
  intros m Hm. destruct (decide (m <= 4096 * 2 ^ order / stride)); [apply H3; lia|apply Hover; lia].
Qed.

(** The smallest order whose slabs hold four objects, or the largest order, and as many
    objects as fit. *)
Definition chosen (o n : Z) : Prop :=
  0 <= o <= SLAB_MAX_ORDER /\ 1 <= n /\ most o n /\ (4 <= n \/ o = SLAB_MAX_ORDER) /\
  forall o' m, 0 <= o' < o -> most o' m -> m < 4.

Lemma most_unique o n m : most o n -> most o m -> n = m.
Proof.
  intros (H1 & H2 & H3) (H4 & H5 & H6). destruct (Z.lt_trichotomy n m) as [H|[H|H]]; [|assumption|]; exfalso.
  - apply (H3 m); [lia|]. apply H5. lia.
  - apply (H6 n); [lia|]. apply H2. lia.
Qed.

Lemma layout_loop_spec todo : forall order, 0 <= order -> order + Z.of_nat todo = 4 -> (0 < todo)%nat -> fits k stride rzLeft 3 1 ->
  (forall o' m, 0 <= o' < order -> most o' m -> m < 4) ->
  exists o n, layout_loop todo order stride rzLeft (2 ^ k) = Some (mkLayout o n stride (up k (sizeof_Slab + 2 * n + rzLeft)) rzLeft) /\ chosen o n.
Proof.
  induction todo as [|todo IH]; intros order Ho Ht Hpos Hone Hprev; [lia|]. cbn [layout_loop]. cbv zeta.
  assert (Hp : 1 <= 2 ^ order <= 8) by (split; [change 1 with (2 ^ 0)|change 8 with (2 ^ 3)]; apply Z.pow_le_mono_r; lia).
  rewrite Z.shiftl_mul_pow2, u32_small by (words; lia). pose proof (order_most order ltac:(lia)) as Hm. cbv zeta in Hm.
  set (n := fit_count _ stride rzLeft (2 ^ k) (4096 * 2 ^ order)) in *.
  assert (Hlast : order = 3 -> 1 <= n).
  { intros ->. destruct (Z.le_gt_cases 1 n); [assumption|]. exfalso. destruct Hm as (_ & _ & Hm). apply (Hm 1); [unfold SLAB_MAX_OBJECTS; lia|exact Hone]. }
  destruct ((1 <=? n) && ((4 <=? n) || (order =? SLAB_MAX_ORDER))) eqn:E.
  - apply andb_true_iff in E as [E1 E2]. bprop. destruct Hm as (Hn & Hm). exists order, n. rewrite min_offset by (unfold SLAB_MAX_OBJECTS in *; lia).
    split; [reflexivity|]. unfold chosen, most, SLAB_MAX_ORDER in *. split; [lia|]. split; [assumption|]. split; [split; assumption|]. split; [|assumption].
    apply orb_true_iff in E2 as [E2|E2]; bprop; auto.
  - assert (Hsmall : n < 4 /\ order <> 3).
    { apply andb_false_iff in E as [E|E]; bprop; unfold SLAB_MAX_ORDER in *; split; try lia; intros ->; specialize (Hlast eq_refl); lia. }
    apply IH; [lia|lia|lia|assumption|]. intros o' m Ho' Hm'. destruct (decide (o' = order)) as [->|]; [|apply (Hprev o'); auto; lia].
    rewrite (most_unique order m n Hm' Hm). lia.
Qed.
End Layout.

(** What a layout must satisfy: slots and strides are aligned, a slot's payload and its
    redzones do not reach its neighbours, the first left redzone lies behind the header and the
    bufctl array, and the last slot ends in the slab. *)
Record layout_ok (k objSize : Z) (debug : bool) (l : SlabLayout) : Prop := {
  ly_order_ok : 0 <= ly_order l <= SLAB_MAX_ORDER;
  ly_count_ok : 1 <= ly_objsPerSlab l <= SLAB_MAX_OBJECTS;
  ly_align_ok : ly_stride l mod 2 ^ k = 0 /\ ly_objOffset l mod 2 ^ k = 0;
  ly_rz_ok : ly_rzLeft l = if debug then Z.max (2 ^ k) SLAB_REDZONE_SIZE else 0;
  ly_room_ok : ly_rzLeft l + objSize + (if debug then SLAB_REDZONE_SIZE else 0) <= ly_stride l <= 2 ^ 15;
  ly_header_ok : sizeof_Slab + 2 * ly_objsPerSlab l + ly_rzLeft l <= ly_objOffset l;
  ly_end_ok : ly_objOffset l + ly_objsPerSlab l * ly_stride l <= 4096 * 2 ^ ly_order l
}.

Lemma slabComputeLayout_spec objSize k (debug : bool) :
  1 <= objSize <= KMALLOC_MAX_SIZE -> 3 <= k <= 12 ->
  exists l, slabComputeLayout objSize (2 ^ k) debug = Some l /\ layout_ok k objSize debug l /\
    ly_stride l = up k (ly_rzLeft l + objSize + (if debug then SLAB_REDZONE_SIZE else 0)) /\
    chosen k (ly_rzLeft l) (ly_stride l) (ly_order l) (ly_objsPerSlab l).
Proof.
  intros Hs Hk. pose proof (pow_k k Hk) as Hp. unfold KMALLOC_MAX_SIZE in Hs. unfold slabComputeLayout.
  set (rz := if debug then (if SLAB_REDZONE_SIZE <? 2 ^ k then 2 ^ k else SLAB_REDZONE_SIZE) else 0).
  set (rzr := if debug then SLAB_REDZONE_SIZE else 0).
  assert (Hrz : rz = if debug then Z.max (2 ^ k) SLAB_REDZONE_SIZE else 0).
  { unfold rz. destruct debug; [|reflexivity]. destruct (Z.ltb_spec SLAB_REDZONE_SIZE (2 ^ k)); lia. }
  assert (Hb : 0 <= rz <= 4096 /\ 0 <= rzr <= 16) by (rewrite Hrz; unfold rzr, SLAB_REDZONE_SIZE; destruct debug; lia).
  assert (Hrzr : rzr = if debug then SLAB_REDZONE_SIZE else 0) by reflexivity. clearbody rz rzr.
  cbv zeta. rewrite u32_small by (words; lia). rewrite alignUp32_up by lia.
  destruct (up_spec k (rz + objSize + rzr) ltac:(lia) ltac:(lia)) as [Hu1 Hu2]. set (stride := up k (rz + objSize + rzr)) in *.
  assert (Hone : fits k stride rz 3 1).
  { unfold fits. destruct (up_spec k (sizeof_Slab + 2 * 1 + rz) ltac:(lia) ltac:(unfold sizeof_Slab; lia)) as [H _]. unfold sizeof_Slab in *. lia. }
  destruct (layout_loop_spec k Hk rz ltac:(lia) stride ltac:(lia) 4 0) as (o & n & -> & Hc); [lia..|exact Hone|intros; lia|].
  eexists. split; [reflexivity|]. simpl. pose proof Hc as (Ho & Hn & (Hmax & Hf & _) & _). specialize (Hf ltac:(lia)).
  destruct (up_spec k (sizeof_Slab + 2 * n + rz) ltac:(lia) ltac:(unfold sizeof_Slab; lia)) as [Hv1 Hv2].
  split; [|split; [reflexivity|exact Hc]]. split; simpl; rewrite <- ?Hrzr; auto; lia.
Qed.

(** C19: slabComputeLayout finds a layout for every object size and alignment that
    slabCacheCreate admits, in both builds: everything fits the slab without overlap and aligned,
    the order is the smallest that holds four objects (or the largest one), and the slab holds as
    many objects as fit it. *)
Theorem slabComputeLayout_exact objSize k (debug : bool) :
  1 <= objSize <= KMALLOC_MAX_SIZE -> 3 <= k <= 12 ->
  exists l, slabComputeLayout objSize (2 ^ k) debug = Some l /\ layout_ok k objSize debug l /\
    ly_stride l = up k (ly_rzLeft l + objSize + (if debug then SLAB_REDZONE_SIZE else 0)) /\
    chosen k (ly_rzLeft l) (ly_stride l) (ly_order l) (ly_objsPerSlab l).
Proof. apply slabComputeLayout_spec. Qed.

Lemma slabComputeLayout_exact_witness :
  exists l, slabComputeLayout 1024 (2 ^ 4) true = Some l /\ layout_ok 4 1024 true l.
Proof.
  destruct (slabComputeLayout_exact 1024 4 true) as (l & E & H & _); [unfold KMALLOC_MAX_SIZE; lia|lia|].
  exists l. split; assumption.
Defined.

(** ** Slots *)

(** The slots of a slab, by their addresses. *)
Lemma slot_index l s i :
  1 <= ly_stride l <= 2 ^ 15 -> ly_objsPerSlab l <= SLAB_MAX_OBJECTS -> 0 <= i < ly_objsPerSlab l ->
  0 <= sl_objBase s -> sl_objBase s + ly_objsPerSlab l * ly_stride l < 2 ^ 64 ->
  slabSlot s (ly_stride l) i = sl_objBase s + i * ly_stride l /\
  slabIndexForOffset l (slabSlot s (ly_stride l) i - sl_objBase s) = i.
Proof.
  unfold SLAB_MAX_OBJECTS. intros Hs Hn Hi Hb He. unfold slabSlot. rewrite (u64_small (i * _)) by (words; nia).
  rewrite u64_small by (words; nia). split; [reflexivity|]. unfold slabIndexForOffset.
  replace (sl_objBase s + i * ly_stride l - sl_objBase s) with (i * ly_stride l) by lia.
  rewrite Z.mod_mul, Z.div_mul by lia. destruct (Z.eqb_spec (ly_stride l) 0); [lia|]. simpl.
  destruct (Z.leb_spec (ly_objsPerSlab l) i); [lia|reflexivity].
Qed.

(** slabIndexForOffset is the inverse of the slots: everything else is refused. *)
Lemma index_slot l off :
  1 <= ly_stride l -> 0 <= off ->
  (slabIndexForOffset l off = -1 /\ forall i, 0 <= i < ly_objsPerSlab l -> off <> i * ly_stride l) \/
  (0 <= slabIndexForOffset l off < ly_objsPerSlab l /\ off = slabIndexForOffset l off * ly_stride l).
Proof.
  intros Hs Ho. unfold slabIndexForOffset. destruct (Z.eqb_spec (ly_stride l) 0); [lia|].
  destruct (Z.eqb_spec (off mod ly_stride l) 0) as [Hz|Hz]; simpl.
  - pose proof (Z_div_mod_eq_full off (ly_stride l)) as Hd. rewrite Hz in Hd. assert (0 <= off / ly_stride l) by (apply Z.div_pos; lia).
    destruct (Z.leb_spec (ly_objsPerSlab l) (off / ly_stride l)); [left|right; lia]. split; [reflexivity|]. intros i Hi ->.
    rewrite Z.div_mul in * by lia. lia.
  - left. split; [reflexivity|]. intros i Hi ->. apply Hz, Z.mod_mul. lia.
Qed.

(** The class of a size is the smallest that holds it. *)
Lemma slabClassIndexForSize_spec size :
  0 <= size ->
  (slabClassIndexForSize size = UINT32_MAX /\ (size = 0 \/ KMALLOC_MAX_SIZE < size)) \/
  exists c, aget slabKmallocClassSizes (slabClassIndexForSize size) = Some c /\ 1 <= size <= c /\
    forall j d, 0 <= j < slabClassIndexForSize size -> aget slabKmallocClassSizes j = Some d -> d < size.
Proof.
  intros Hs. unfold slabClassIndexForSize. destruct (Z.eqb_spec size 0) as [->|Hnz]; [left; auto|].
  destruct (Z.ltb_spec KMALLOC_MAX_SIZE size); [left; auto|]. right. cbn [orb]. unfold KMALLOC_MAX_SIZE in *.
  assert (Hscan : forall sizes i, (exists c, c ∈ sizes /\ size <= c) -> exists n c,
    class_scan sizes i size = i + Z.of_nat n /\ sizes !! n = Some c /\ size <= c /\ forall m d, (m < n)%nat -> sizes !! m = Some d -> d < size).
  { induction sizes as [|c sizes IH]; intros i (c' & Hc & Hle); [inversion Hc|]. cbn [class_scan]. destruct (Z.leb_spec size c) as [H'|H'].
    - exists 0%nat, c. split_and!; [lia|reflexivity|assumption|intros; lia].
    - apply elem_of_cons in Hc as [->|Hc]; [lia|]. destruct (IH (i + 1)) as (n & c1 & E & Hl & Hs1 & Hb); [eauto|].
      exists (S n), c1. split_and!; [lia|assumption|assumption|]. intros [|m] d Hm Hd; simpl in Hd; [congruence|apply (Hb m); [lia|assumption]]. }
  destruct (Hscan slabKmallocClassSizes 0) as (n & c & -> & Hl & Hle & Hb).
  { exists 8192. split; [|lia]. unfold slabKmallocClassSizes. repeat (apply list_elem_of_here || apply list_elem_of_further). }
  exists c. split; [apply aget_lookup; split; [lia|]; by rewrite Z.add_0_l, Nat2Z.id|]. split; [lia|].
  intros j d Hj Hd. apply aget_lookup in Hd as [_ Hd]. apply (Hb (Z.to_nat j)); [lia|assumption].
Qed.

(** ** Free lists refine sequences *)

(** The list of indices that starts at [h]. *)
Fixpoint chain (bufctl : list Z) (h : Z) (l : list Z) : Prop :=
  match l with
  | [] => h = SLAB_BUFCTL_END
  | i :: l => h = i /\ exists next, aget bufctl i = Some next /\ chain bufctl next l
  end.

(** The free objects of a slab, in the order they are handed out; the others are marked. *)
Record free_list (s : Slab) (l : list Z) : Prop := {
  fl_length : zlen (sl_bufctl s) = sl_objCount s;
  fl_range : 0 <= sl_objCount s <= SLAB_MAX_OBJECTS;
  fl_chain : chain (sl_bufctl s) (sl_freeHead s) l;
  fl_nodup : NoDup l;
  fl_count : sl_freeCount s = zlen l;
  fl_busy : forall i, 0 <= i < sl_objCount s -> i ∉ l <-> aget (sl_bufctl s) i = Some SLAB_BUFCTL_BUSY
}.

Lemma chain_bound bufctl l : forall h i, chain bufctl h l -> i ∈ l -> 0 <= i < zlen bufctl.
Proof.
  induction l as [|j l IH]; intros h i Hc Hi; [inversion Hi|]. destruct Hc as (-> & next & Hn & Hc).
  apply elem_of_cons in Hi as [->|Hi]; [by eapply aget_bound|by eapply IH].
Qed.

Lemma chain_insert bufctl l j v : forall h, 0 <= j < zlen bufctl -> j ∉ l -> chain bufctl h l -> chain (<[Z.to_nat j := v]> bufctl) h l.
Proof.
  induction l as [|i l IH]; intros h Hj Hni Hc; [exact Hc|]. destruct Hc as (-> & next & Hn & Hc). apply not_elem_of_cons in Hni as [Hne Hni].
  split; [reflexivity|]. exists next. rewrite aget_insert by assumption. destruct (Z.eqb_spec i j); [congruence|]. auto.
Qed.

Lemma free_list_length s l : free_list s l -> zlen l <= sl_objCount s.
Proof.
  intros F. pose proof (fl_length s l F) as Hlen. unfold zlen in *.
  assert (Hsub : l ⊆+ seqZ 0 (sl_objCount s)).
  { apply NoDup_submseteq; [apply F|]. intros i Hi. apply elem_of_seqZ. pose proof (chain_bound _ _ _ _ (fl_chain _ _ F) Hi). unfold zlen in *. lia. }
  apply submseteq_length in Hsub. rewrite length_seqZ in Hsub. pose proof (fl_range _ _ F). lia.
Qed.

Lemma pop_spec s i l :
  free_list s (i :: l) ->
  exists s', slabFreeListPop s = Some (i, s') /\ free_list s' l /\
    s' = set_free (sl_freeCount s') (sl_freeHead s') (sl_bufctl s') s.
Proof.
  intros F. pose proof F as [Hl Hr (Hh & next & Hn & Hc) Hnd Hcnt Hb]. apply NoDup_cons in Hnd as [Hni Hnd].
  pose proof (aget_bound _ _ _ Hn) as Hi. pose proof (free_list_length s _ F) as Hlen. rewrite zlen_cons in *. pose proof (zlen_nonneg l).
  unfold slabFreeListPop. rewrite Hh. cbv zeta. rewrite Hn. cbn [mbind option_bind]. rewrite aset_Some by assumption. cbn [mbind option_bind].
  eexists. split; [reflexivity|]. split; [|reflexivity]. unfold SLAB_MAX_OBJECTS in *. split; simpl; rewrite ?zlen_insert; auto.
  - by apply chain_insert.
  - rewrite Hcnt, u16_small by (words; lia). lia.
  - intros j Hj. rewrite aget_insert by assumption. destruct (Z.eqb_spec j i) as [->|Hne]; [tauto|].
    rewrite <- (Hb j Hj), not_elem_of_cons. tauto.
Qed.

Lemma push_spec s i l :
  free_list s l -> 0 <= i < sl_objCount s -> i ∉ l ->
  exists s', slabFreeListPush s i = Some s' /\ free_list s' (i :: l) /\
    s' = set_free (sl_freeCount s') (sl_freeHead s') (sl_bufctl s') s.
Proof.
  intros F Hi Hni. pose proof F as [Hl Hr Hc Hnd Hcnt Hb]. unfold slabFreeListPush. rewrite aset_Some by lia. cbn [mbind option_bind].
  pose proof (free_list_length s _ F). pose proof (zlen_nonneg l). unfold SLAB_MAX_OBJECTS in *. eexists. split; [reflexivity|]. split; [|reflexivity].
  split; simpl; rewrite ?zlen_insert; auto.
  - split; [reflexivity|]. eexists. rewrite aget_insert, Z.eqb_refl by lia. split; [reflexivity|]. apply chain_insert; [lia|assumption|assumption].
  - by constructor.
  - rewrite Hcnt, zlen_cons, u16_small by (words; lia). lia.
  - intros j Hj. rewrite aget_insert, not_elem_of_cons by lia. destruct (Z.eqb_spec j i) as [->|Hne].
    + split; [tauto|]. intros [= E]. exfalso. destruct l as [|h l]; simpl in Hc; [rewrite Hc in E; discriminate|].
      destruct Hc as (Hh & next & Hn & _). apply aget_bound in Hn. rewrite Hh in E. unfold SLAB_BUFCTL_BUSY in E. lia.
    + rewrite <- (Hb j Hj). tauto.
Qed.

Lemma carve_get n i : 0 <= i < n -> aget (carve_bufctl n) i = Some (if i + 1 <? n then i + 1 else SLAB_BUFCTL_END).
Proof.
  intros Hi. apply aget_lookup. split; [lia|]. unfold carve_bufctl. rewrite list_lookup_fmap.
  rewrite (proj2 (lookup_seqZ 0 n (Z.to_nat i) i)) by lia. reflexivity.
Qed.

Lemma carve_chain n k : forall i, 0 <= i < n -> i + Z.of_nat k = n -> chain (carve_bufctl n) i (seqZ i (Z.of_nat k)).
Proof.
  induction k as [|k IH]; intros i Hi He; [lia|]. rewrite seqZ_cons by lia. replace (Z.pred (Z.of_nat (S k))) with (Z.of_nat k) by lia.
  split; [reflexivity|]. eexists. split; [by apply carve_get|]. destruct (Z.ltb_spec (i + 1) n).
  - replace (Z.succ i) with (i + 1) by lia. apply IH; lia.
  - assert (k = 0%nat) as -> by lia. reflexivity.
Qed.

Lemma carve_spec s : 0 <= sl_objCount s <= SLAB_MAX_OBJECTS ->
  free_list (slabCarve s) (seqZ 0 (sl_objCount s)) /\ slabCarve s = set_free (sl_objCount s) (sl_freeHead (slabCarve s)) (sl_bufctl (slabCarve s)) s.
Proof.
  intros Hn. split; [|reflexivity]. unfold slabCarve. cbv zeta. unfold SLAB_MAX_OBJECTS in *. split; simpl; auto.
  - unfold carve_bufctl, zlen. rewrite length_fmap, length_seqZ. lia.
  - destruct (Z.ltb_spec 0 (sl_objCount s)).
    + pose proof (carve_chain (sl_objCount s) (Z.to_nat (sl_objCount s)) 0 ltac:(lia) ltac:(lia)) as Hch. by rewrite Z2Nat.id in Hch by lia.
    + replace (sl_objCount s) with 0 by lia. reflexivity.
  - apply NoDup_seqZ.
  - unfold zlen. rewrite length_seqZ. lia.
  - intros i Hi. rewrite carve_get by assumption. rewrite elem_of_seqZ. unfold SLAB_BUFCTL_BUSY, SLAB_BUFCTL_END.
    split; [lia|]. destruct (_ <? _); intros [= E]; lia.
Qed.

(** ** Redzones and poison *)

Lemma fill_bytes_spec n : forall i p v mem a,
  fill_bytes n i p v mem a = if (p + i <=? a) && (a <? p + i + Z.of_nat n) then v else mem a.
Proof.
  induction n as [|n IH]; intros i p v mem a; cbn [fill_bytes].
  - destruct (Z.leb_spec (p + i) a), (Z.ltb_spec a (p + i + Z.of_nat 0)); simpl; lia || reflexivity.
  - rewrite IH. unfold write_word.
    destruct (Z.leb_spec (p + (i + 1)) a), (Z.ltb_spec a (p + (i + 1) + Z.of_nat n)), (Z.leb_spec (p + i) a),
      (Z.ltb_spec a (p + i + Z.of_nat (S n))), (Z.eqb_spec a (p + i)); simpl; lia || reflexivity.
Qed.

Lemma bytes_are_spec n : forall i p v mem,
  bytes_are n i p v mem = true <-> forall a, p + i <= a < p + i + Z.of_nat n -> mem a = v.
Proof.
  induction n as [|n IH]; intros i p v mem; cbn [bytes_are]; [split; [intros; lia|reflexivity]|].
  destruct (Z.eqb_spec (mem (p + i)) v) as [E|E]; cbn [negb].
  - rewrite IH. split; intros H a Ha; [|apply H; lia]. destruct (decide (a = p + i)) as [->|]; [assumption|apply H; lia].
  - split; [discriminate|]. intros H. exfalso. apply E, H. lia.
Qed.

(** The bytes around the object at [slot] that no one may write. *)
Definition redzone (l : SlabLayout) (objSize slot a : Z) : Prop :=
  slot - ly_rzLeft l <= a < slot \/ slot + objSize <= a < slot - ly_rzLeft l + ly_stride l.

Section Debug.
Context (l : SlabLayout) (objSize : Z).
Context (Hrz : 0 <= ly_rzLeft l) (Hobj : 0 <= objSize) (Hroom : ly_rzLeft l + objSize <= ly_stride l < 2 ^ 32).

Lemma right_len : slabDebugRightLen l objSize = ly_stride l - ly_rzLeft l - objSize.
Proof. unfold slabDebugRightLen. apply u32_small. words. lia. Qed.

Lemma check_redzones slot mem :
  slabDebugCheckRedzones l objSize slot mem = true <-> forall a, redzone l objSize slot a -> mem a = SLAB_REDZONE_BYTE.
Proof.
  unfold slabDebugCheckRedzones, slabDebugLeftBase, redzone. rewrite right_len.
  pose proof (bytes_are_spec (Z.to_nat (ly_rzLeft l)) 0 (slot - ly_rzLeft l) SLAB_REDZONE_BYTE mem) as H1.
  pose proof (bytes_are_spec (Z.to_nat (ly_stride l - ly_rzLeft l - objSize)) 0 (slot + objSize) SLAB_REDZONE_BYTE mem) as H2.
  rewrite Z2Nat.id in H1, H2 by lia.
  destruct (bytes_are (Z.to_nat (ly_rzLeft l)) _ _ _ _); cbn [negb].
  - rewrite H2. split; intros H a Ha; [|apply H; lia].
    destruct Ha; [apply (proj1 H1 eq_refl); lia|apply H; lia].
  - split; [discriminate|]. intros H. apply H1. intros a Ha. apply H. lia.
Qed.

Lemma check_poison ctor slot mem :
  slabDebugCheckPoison ctor objSize slot mem = true <-> (ctor = false -> forall a, slot <= a < slot + objSize -> mem a = SLAB_POISON_BYTE).
Proof.
  unfold slabDebugCheckPoison. destruct ctor; [split; [discriminate|reflexivity]|]. rewrite bytes_are_spec, Z2Nat.id, !Z.add_0_r by lia.
  split; auto.
Qed.

Lemma poison_free ctor slot mem a :
  slabDebugPoisonFree ctor objSize slot mem a = if negb ctor && (slot <=? a) && (a <? slot + objSize) then SLAB_POISON_BYTE else mem a.
Proof.
  unfold slabDebugPoisonFree. destruct ctor; [reflexivity|]. by rewrite fill_bytes_spec, Z2Nat.id, !Z.add_0_r by lia.
Qed.

Lemma carve_fill ctor slot mem a :
  (redzone l objSize slot a -> slabDebugCarveFill l ctor objSize slot mem a = SLAB_REDZONE_BYTE) /\
  (slot <= a < slot + objSize -> slabDebugCarveFill l ctor objSize slot mem a = if ctor then mem a else SLAB_POISON_BYTE) /\
  (a < slot - ly_rzLeft l \/ slot - ly_rzLeft l + ly_stride l <= a -> slabDebugCarveFill l ctor objSize slot mem a = mem a).
Proof.
  unfold slabDebugCarveFill, slabDebugLeftBase, redzone. rewrite right_len. cbv zeta.
  split_and!; intros Ha; destruct ctor; rewrite ?fill_bytes_spec, !Z2Nat.id by lia; repeat case_match; bprop; try lia; reflexivity.
Qed.
End Debug.
