(* ===== verification/Slab.v ===== *)
(** * The slab allocator and kmalloc

    Models kernel/mm/slab.c over the layouts and free lists of [SlabCore].  The
    page allocator is an interface, [PageAllocator], whose laws are all the proofs use.

    The state: the array of caches by address, the slab headers by address, the two
    fields of a page that the slab allocator writes (the PAGE_F_SLAB mark with
    privateWord, as the address of the page's slab), the bytes of the objects and the
    page allocator.  The lists of a cache are sequences of slab addresses.  Operations
    under the allocator's lock are single steps. *)

From stdpp Require Import functions.
From S2P Require Import Prelude BootTypes SlabCore.

(** ** The page allocator *)

(** pmmAllocPages(order, 0), pmmFreePages of the block at a frame, whether pmmPhysToPage finds a
    page, and the bytes of physical memory; [None] is a panic. *)
Class PageAllocator (P : Type) := {
  pa_alloc : Z -> P -> option (option Z * P);
  pa_free : Z -> Z -> P -> option P;
  pa_page : Z -> P -> option bool;
  pa_byte : Z -> P -> Z
}.

(** What the slab allocator relies on: the blocks it holds ([L], as first frame and order) are
    frames below the limit of the direct map, apart from each other, with pages; an
    allocation adds a block to them or fails, a block that is held can be freed. *)
Class PageAllocatorLaws (P : Type) {PA : PageAllocator P} := {
  pa_inv : list (Z * Z) -> P -> Prop;
  pa_perm L L' s : L ≡ₚ L' -> pa_inv L s -> pa_inv L' s;
  pa_shape L s p k : pa_inv L s -> (p, k) ∈ L -> 0 <= p /\ p + 2 ^ k <= 2 ^ 34 /\ 0 <= k;
  pa_apart L s p k q j : pa_inv ((p, k) :: (q, j) :: L) s -> p + 2 ^ k <= q \/ q + 2 ^ j <= p;
  pa_pages L s phys : pa_inv L s ->
    exists b, pa_page phys s = Some b /\ ((exists p k, (p, k) ∈ L /\ p <= phys / 4096 < p + 2 ^ k) -> b = true);
  pa_alloc_ok L s order : pa_inv L s -> 0 <= order <= SLAB_MAX_ORDER ->
    exists r s', pa_alloc order s = Some (r, s') /\
      match r with Some p => pa_inv ((p, order) :: L) s' | None => pa_inv L s' end;
  pa_free_ok L s p k : pa_inv ((p, k) :: L) s -> exists s', pa_free p k s = Some s' /\ pa_inv L s'
}.

(** ** Types and constants *)

Definition SLAB_MAX_CACHES : Z := 64.
Definition SLAB_NAME_MAX : Z := 24.
Definition SLAB_MAG_MAX_ROUNDS : Z := 32.
Definition SLAB_EMPTY_KEEP : Z := 1.
Definition SLAB_CACHE_MAGIC : Z := 0x5CAC5CAC5CAC5CAC.
Definition SLAB_CACHE_PERMANENT : Z := 1.
Definition SLAB_CACHE_KMALLOC : Z := 2.
Definition KMALLOC_ZERO : Z := 1.
Definition KMALLOC_FLAGS_VALID : Z := KMALLOC_ZERO.
Definition KMALLOC_MIN_ALIGN : Z := 16.
Definition VM_KVA_BASE : Z := 0xFFFFC00000000000.
Definition VM_KVA_END : Z := 0xFFFFE00000000000.

(** magic, name, two sizes, two pointers, flags and layout, three list heads, two counters and
    the magazine of 272 bytes. *)
Definition sizeof_SlabCache : Z := 416.

(** Models src/kernel/include/kmalloc.h:100-114, SlabBugKind. *)
Inductive SlabBugKind :=
  | SLAB_BUG_NONE | SLAB_BUG_BAD_POINTER | SLAB_BUG_VMALLOC_POINTER | SLAB_BUG_NOT_SLAB | SLAB_BUG_MISALIGNED
  | SLAB_BUG_WRONG_CACHE | SLAB_BUG_DOUBLE_FREE | SLAB_BUG_CORRUPT | SLAB_BUG_BAD_SIZE | SLAB_BUG_BAD_FLAGS
  | SLAB_BUG_CACHE_BUSY | SLAB_BUG_REDZONE | SLAB_BUG_POISON.

#[global] Instance SlabBugKind_eq_dec : EqDecision SlabBugKind.
Proof. solve_decision. Defined.

(** A constructor or destructor, as what it does to the bytes of memory. *)
Definition SlabObjFn : Type := Z -> (Z -> Z) -> (Z -> Z).

(** Models src/kernel/mm/slab-internal.h:54-58, SlabMagazine. *)
Record SlabMagazine := mkMag { mg_count : Z; mg_capacity : Z; mg_batch : Z; mg_allocated : Z; mg_rounds : list Z }.

(** Models src/kernel/mm/slab-internal.h:79-92, SlabCache. *)
Record SlabCache := mkCache {
  ca_magic : Z; ca_name : list Z; ca_objSize : Z; ca_align : Z; ca_ctor : option SlabObjFn; ca_dtor : option SlabObjFn;
  ca_flags : Z; ca_layout : SlabLayout; ca_partial : list Z; ca_full : list Z; ca_empty : list Z;
  ca_slabCount : Z; ca_emptySlabCount : Z; ca_mag : SlabMagazine
}.

Definition zeroMag : SlabMagazine := mkMag 0 0 0 0 (replicate 32 0).
Definition zeroCache : SlabCache :=
  mkCache 0 (replicate 24 0) 0 0 None None 0 (mkLayout 0 0 0 0 0) [] [] [] 0 0 zeroMag.

Definition set_magic (m : Z) (c : SlabCache) : SlabCache :=
  mkCache m (ca_name c) (ca_objSize c) (ca_align c) (ca_ctor c) (ca_dtor c) (ca_flags c) (ca_layout c)
    (ca_partial c) (ca_full c) (ca_empty c) (ca_slabCount c) (ca_emptySlabCount c) (ca_mag c).
Definition set_lists (p f e : list Z) (c : SlabCache) : SlabCache :=
  mkCache (ca_magic c) (ca_name c) (ca_objSize c) (ca_align c) (ca_ctor c) (ca_dtor c) (ca_flags c) (ca_layout c)
    p f e (ca_slabCount c) (ca_emptySlabCount c) (ca_mag c).
Definition set_counts (n e : Z) (c : SlabCache) : SlabCache :=
  mkCache (ca_magic c) (ca_name c) (ca_objSize c) (ca_align c) (ca_ctor c) (ca_dtor c) (ca_flags c) (ca_layout c)
    (ca_partial c) (ca_full c) (ca_empty c) n e (ca_mag c).
Definition set_mag (m : SlabMagazine) (c : SlabCache) : SlabCache :=
  mkCache (ca_magic c) (ca_name c) (ca_objSize c) (ca_align c) (ca_ctor c) (ca_dtor c) (ca_flags c) (ca_layout c)
    (ca_partial c) (ca_full c) (ca_empty c) (ca_slabCount c) (ca_emptySlabCount c) m.
Definition set_list (k : SlabListKind) (s : Slab) : Slab :=
  mkSlab (sl_magic s) (sl_cache s) (sl_objBase s) (sl_objCount s) (sl_freeCount s) (sl_freeHead s) k (sl_order s) (sl_bufctl s).

(** One of the three lists of a cache. *)
Definition clist (k : SlabListKind) (c : SlabCache) : list Z :=
  match k with
  | SLAB_LIST_NONE => []
  | SLAB_LIST_PARTIAL => ca_partial c
  | SLAB_LIST_FULL => ca_full c
  | SLAB_LIST_EMPTY => ca_empty c
  end.

(** listPushHead on one of the lists; listRemove on whichever list holds the node. *)
Definition list_push (k : SlabListKind) (va : Z) (c : SlabCache) : SlabCache :=
  match k with
  | SLAB_LIST_NONE => c
  | SLAB_LIST_PARTIAL => set_lists (va :: ca_partial c) (ca_full c) (ca_empty c) c
  | SLAB_LIST_FULL => set_lists (ca_partial c) (va :: ca_full c) (ca_empty c) c
  | SLAB_LIST_EMPTY => set_lists (ca_partial c) (ca_full c) (va :: ca_empty c) c
  end.
Definition list_remove (va : Z) (c : SlabCache) : SlabCache :=
  set_lists (filter (fun x => x <> va) (ca_partial c)) (filter (fun x => x <> va) (ca_full c))
    (filter (fun x => x <> va) (ca_empty c)) c.

(** The build flag KERNEL_DEBUG, pmmHhdmBase() and the address of the array slabCaches. *)
Class Machine := { KERNEL_DEBUG : bool; hhdmBase : Z; slabCaches : Z }.

(** The direct map starts at a page and ends below the window of vmalloc, and the array of caches is in memory. *)
Class MachineLaws {MC : Machine} : Prop := {
  ml_hhdm : 0 < hhdmBase /\ hhdmBase + BOOTINFO_HHDM_SIZE <= VM_KVA_BASE;
  ml_aligned : hhdmBase mod 4096 = 0;
  ml_caches : 0 < slabCaches /\ slabCaches + SLAB_MAX_CACHES * sizeof_SlabCache < 2 ^ 64
}.

Section Slab.

Context {P : Type} {PA : PageAllocator P} {MC : Machine}.

(** Models src/kernel/mm/slab.c:22-27, the static state, with the memory it manages. *)
Record SlabState := mkState {
  st_caches : gmap Z SlabCache;
  st_inUse : list bool;
  st_kmalloc : list Z;
  st_lastKind : SlabBugKind;
  st_lastObj : Z;
  st_slabs : gmap Z Slab;
  st_owner : gmap Z Z;
  st_mem : Z -> Z;
  st_pages : P
}.

Definition with_caches (x : gmap Z SlabCache) (s : SlabState) : SlabState :=
  mkState x (st_inUse s) (st_kmalloc s) (st_lastKind s) (st_lastObj s) (st_slabs s) (st_owner s) (st_mem s) (st_pages s).
Definition with_inUse (x : list bool) (s : SlabState) : SlabState :=
  mkState (st_caches s) x (st_kmalloc s) (st_lastKind s) (st_lastObj s) (st_slabs s) (st_owner s) (st_mem s) (st_pages s).
Definition with_kmalloc (x : list Z) (s : SlabState) : SlabState :=
  mkState (st_caches s) (st_inUse s) x (st_lastKind s) (st_lastObj s) (st_slabs s) (st_owner s) (st_mem s) (st_pages s).
Definition with_last (k : SlabBugKind) (o : Z) (s : SlabState) : SlabState :=
  mkState (st_caches s) (st_inUse s) (st_kmalloc s) k o (st_slabs s) (st_owner s) (st_mem s) (st_pages s).
Definition with_slabs (x : gmap Z Slab) (s : SlabState) : SlabState :=
  mkState (st_caches s) (st_inUse s) (st_kmalloc s) (st_lastKind s) (st_lastObj s) x (st_owner s) (st_mem s) (st_pages s).
Definition with_owner (x : gmap Z Z) (s : SlabState) : SlabState :=
  mkState (st_caches s) (st_inUse s) (st_kmalloc s) (st_lastKind s) (st_lastObj s) (st_slabs s) x (st_mem s) (st_pages s).
Definition with_bytes (x : Z -> Z) (s : SlabState) : SlabState :=
  mkState (st_caches s) (st_inUse s) (st_kmalloc s) (st_lastKind s) (st_lastObj s) (st_slabs s) (st_owner s) x (st_pages s).
Definition with_pa (x : P) (s : SlabState) : SlabState :=
  mkState (st_caches s) (st_inUse s) (st_kmalloc s) (st_lastKind s) (st_lastObj s) (st_slabs s) (st_owner s) (st_mem s) x.

(** A call returns, reports a bug (the state is what a test that catches the panic sees), or
    touches what is not there or panics in the page allocator. *)
Inductive res (A : Type) := Done (a : A) | Bugged (st : SlabState) | Crash.
#[global] Arguments Done {A} a.
#[global] Arguments Bugged {A} st.
#[global] Arguments Crash {A}.

#[global] Instance res_bind : MBind res := fun A B f m =>
  match m with Done a => f a | Bugged s => Bugged s | Crash => Crash end.

Definition need {A} (o : option A) : res A := match o with Some a => Done a | None => Crash end.

Definition get_cache (cp : Z) (st : SlabState) : res SlabCache := need (st_caches st !! cp).
Definition put_cache (cp : Z) (c : SlabCache) (st : SlabState) : SlabState := with_caches (<[cp := c]> (st_caches st)) st.
Definition get_slab (va : Z) (st : SlabState) : res Slab := need (st_slabs st !! va).
Definition put_slab (va : Z) (s : Slab) (st : SlabState) : SlabState := with_slabs (<[va := s]> (st_slabs st)) st.

(** Models src/kernel/mm/slab.c:48-67, slabBug. *)
Definition slabBug {A} (kind : SlabBugKind) (obj : Z) (st : SlabState) : res A := Bugged (with_last kind obj st).

(** Models src/kernel/mm/slab.c:69-79, slabTakeLastBug: the kind, the object and the state after it. *)
Definition slabTakeLastBug (st : SlabState) : SlabBugKind * Z * SlabState :=
  (st_lastKind st, st_lastObj st, with_last SLAB_BUG_NONE 0 st).

(** ** Pointers *)

(** Models src/kernel/mm/slab.c:88-122, slabResolvePointer: the slab and the index, or the bug. *)
Definition slabResolvePointer (addr : Z) (st : SlabState) : res (SlabBugKind + Z * Z) :=
  if (VM_KVA_BASE <=? addr) && (addr <? VM_KVA_END) then Done (inl SLAB_BUG_VMALLOC_POINTER)
  else if (addr <? hhdmBase) || (BOOTINFO_HHDM_SIZE <=? addr -! hhdmBase) then Done (inl SLAB_BUG_BAD_POINTER)
  else
    let phys := addr -! hhdmBase in
    page ← need (pa_page phys (st_pages st));
    match (if (page : bool) then st_owner st !! (phys >>! 12) else None) with
    | None => Done (inl SLAB_BUG_NOT_SLAB)
    | Some slab =>
        if slab =? 0 then Done (inl SLAB_BUG_CORRUPT)
        else
          s ← get_slab slab st;
          if negb (sl_magic s =? SLAB_MAGIC) then Done (inl SLAB_BUG_CORRUPT)
          else if addr <? sl_objBase s then Done (inl SLAB_BUG_MISALIGNED)
          else
            c ← get_cache (sl_cache s) st;
            let idx := slabIndexForOffset (ca_layout c) (addr -! sl_objBase s) in
            if idx <? 0 then Done (inl SLAB_BUG_MISALIGNED) else Done (inr (slab, idx))
    end.

(** ** Growing and releasing *)

(** Models src/kernel/mm/slab.c:165-167, slabGrow's loop over the [n] slots from [i] on, as slabReleaseToPmm's. *)
Fixpoint for_slots (n : nat) (i : Z) (s : Slab) (stride : Z) (f : SlabObjFn) (mem : Z -> Z) : Z -> Z :=
  match n with
  | O => mem
  | S n => for_slots n (i + 1) s stride f (f (slabSlot s stride i) mem)
  end.

(** Models src/kernel/mm/slab.c:147-151, slabGrow's marks on the [n] frames from [f] on. *)
Fixpoint mark_frames (n : nat) (f slab : Z) (st : SlabState) : res SlabState :=
  match n with
  | O => Done st
  | S n =>
      page ← need (pa_page (f <<! 12) (st_pages st));
      if (page : bool) then mark_frames n (f + 1) slab (with_owner (<[f := slab]> (st_owner st)) st) else Crash
  end.

(** Models src/kernel/mm/slab.c:181-185, slabReleaseToPmm's removal of the marks. *)
Fixpoint unmark_frames (n : nat) (f : Z) (st : SlabState) : res SlabState :=
  match n with
  | O => Done st
  | S n =>
      page ← need (pa_page (f <<! 12) (st_pages st));
      if (page : bool) then unmark_frames n (f + 1) (with_owner (delete f (st_owner st)) st) else Crash
  end.

(** Models src/kernel/mm/slab.c:131-171, slabGrow.  A fresh block brings the bytes it has. *)
Definition slabGrow (cp : Z) (st : SlabState) : res (option Z * SlabState) :=
  c ← get_cache cp st;
  let l := ca_layout c in
  '(head, pages) ← need (pa_alloc (ly_order l) (st_pages st));
  let st := with_pa pages st in
  match head with
  | None => Done (None, st)
  | Some frame =>
      let phys := frame <<! 12 in
      let slab := hhdmBase +! phys in
      let size := 4096 * 2 ^ ly_order l in
      let st := with_bytes (fun a => if (slab <=? a) && (a <? slab + size) then pa_byte (a - hhdmBase) pages else st_mem st a) st in
      let s := slabCarve (mkSlab SLAB_MAGIC cp (slab +! ly_objOffset l) (u16 (ly_objsPerSlab l)) 0 0 SLAB_LIST_NONE (u8 (ly_order l)) []) in
      let st := put_slab slab s st in
      st ← mark_frames (Z.to_nat (1 <<! sl_order s)) frame slab st;
      let n := Z.to_nat (sl_objCount s) in
      let st := if KERNEL_DEBUG then with_bytes (for_slots n 0 s (ly_stride l)
                  (slabDebugCarveFill l (bool_decide (is_Some (ca_ctor c))) (ca_objSize c)) (st_mem st)) st else st in
      let st := match ca_ctor c with
                | Some ctor => with_bytes (for_slots n 0 s (ly_stride l) ctor (st_mem st)) st
                | None => st
                end in
      Done (Some slab, st)
  end.

(** The page allocator refuses a block with an owner's mark. *)
Definition free_block (frame order : Z) (st : SlabState) : res SlabState :=
  if forallb (fun f => bool_decide (st_owner st !! f = None)) (seqZ frame (2 ^ order)) then
    pages ← need (pa_free frame order (st_pages st)); Done (with_pa pages st)
  else Crash.

(** Models src/kernel/mm/slab.c:173-187, slabReleaseToPmm; the header goes with its memory. *)
Definition slabReleaseToPmm (cp slab : Z) (st : SlabState) : res SlabState :=
  c ← get_cache cp st;
  s ← get_slab slab st;
  let st := match ca_dtor c with
            | Some dtor => with_bytes (for_slots (Z.to_nat (sl_objCount s)) 0 s (ly_stride (ca_layout c)) dtor (st_mem st)) st
            | None => st
            end in
  let basePhys := slab -! hhdmBase in
  let frame := basePhys >>! 12 in
  st ← unmark_frames (Z.to_nat (1 <<! sl_order s)) frame st;
  let st := with_slabs (delete slab (st_slabs st)) st in
  free_block frame (sl_order s) st.

(** Models src/kernel/mm/slab.c:192-194, slabRehomeLocked's choice of the list. *)
Definition want (s : Slab) : SlabListKind :=
  if sl_freeCount s =? 0 then SLAB_LIST_FULL
  else if sl_freeCount s =? sl_objCount s then SLAB_LIST_EMPTY else SLAB_LIST_PARTIAL.

(** Models src/kernel/mm/slab.c:191-210, slabRehomeLocked. *)
Definition slabRehomeLocked (cp slab : Z) (st : SlabState) : res SlabState :=
  c ← get_cache cp st;
  s ← get_slab slab st;
  if decide (sl_list s = want s) then Done st
  else
    let c := if decide (sl_list s = SLAB_LIST_EMPTY) then set_counts (ca_slabCount c) (ca_emptySlabCount c -! 1) c else c in
    let c := list_push (want s) slab (list_remove slab c) in
    let c := if decide (want s = SLAB_LIST_EMPTY) then set_counts (ca_slabCount c) (ca_emptySlabCount c +! 1) c else c in
    Done (put_slab slab (set_list (want s) s) (put_cache cp c st)).

(** Models src/kernel/mm/slab.c:216-227, slabReclaimEmptyLocked; the loop has as many rounds as there
    are empty slabs. *)
Fixpoint slabReclaimEmptyLocked (fuel : nat) (cp keep : Z) (st : SlabState) : res SlabState :=
  c ← get_cache cp st;
  if ca_emptySlabCount c <=? keep then Done st
  else match fuel with
  | O => Crash
  | S fuel =>
      slab ← need (head (ca_empty c));
      let c := list_remove slab c in
      let st := put_cache cp (set_counts (ca_slabCount c -! 1) (ca_emptySlabCount c -! 1) c) st in
      st ← slabReleaseToPmm cp slab st;
      slabReclaimEmptyLocked fuel cp keep st
  end.

Definition slab_reclaim (cp keep : Z) (st : SlabState) : res SlabState :=
  c ← get_cache cp st;
  slabReclaimEmptyLocked (length (ca_empty c)) cp keep st.

(** Models src/kernel/mm/slab.c:236-245, slabPushObjectLocked. *)
Definition slabPushObjectLocked (cp ptr : Z) (st : SlabState) : res SlabState :=
  r ← slabResolvePointer ptr st;
  match r with
  | inl _ => slabBug SLAB_BUG_CORRUPT ptr st
  | inr (slab, index) =>
      s ← get_slab slab st;
      if negb (sl_cache s =? cp) then slabBug SLAB_BUG_CORRUPT ptr st
      else
        s ← need (slabFreeListPush s (u16 index));
        slabRehomeLocked cp slab (put_slab slab s st)
  end.

(** Models src/kernel/mm/slab.c:271-275, slabRefillLocked's inner loop: what is left of [need]. *)
Fixpoint refill_pop (todo : nat) (cp slab : Z) (st : SlabState) : res (nat * SlabState) :=
  match todo with
  | O => Done (O, st)
  | S more =>
      s ← get_slab slab st;
      if 0 <? sl_freeCount s then
        '(idx, s') ← need (slabFreeListPop s);
        c ← get_cache cp st;
        let m := ca_mag c in
        rounds ← need (aset (mg_rounds m) (mg_count m) (slabSlot s (ly_stride (ca_layout c)) idx));
        let m := mkMag (u16 (mg_count m + 1)) (mg_capacity m) (mg_batch m) (mg_allocated m) rounds in
        refill_pop more cp slab (put_cache cp (set_mag m c) (put_slab slab s' st))
      else Done (S more, st)
  end.

(** Models src/kernel/mm/slab.c:253-270, slabRefillLocked's choice of a slab; [None] when there is no memory. *)
Definition refill_slab (cp : Z) (st : SlabState) : res (option Z * SlabState) :=
  c ← get_cache cp st;
  match ca_partial c, ca_empty c with
  | slab :: _, _ => Done (Some slab, st)
  | [], slab :: _ => Done (Some slab, st)
  | [], [] =>
      '(r, st) ← slabGrow cp st;
      match r with
      | None => Done (None, st)
      | Some slab =>
          c ← get_cache cp st;
          s ← get_slab slab st;
          let c := list_push SLAB_LIST_EMPTY slab c in
          let c := set_counts (ca_slabCount c +! 1) (ca_emptySlabCount c +! 1) c in
          Done (Some slab, put_slab slab (set_list SLAB_LIST_EMPTY s) (put_cache cp c st))
      end
  end.

(** Models src/kernel/mm/slab.c:250-278, slabRefillLocked; every round but the last takes an object. *)
Fixpoint slabRefillLocked (fuel todo : nat) (cp : Z) (st : SlabState) : res SlabState :=
  match todo with
  | O => Done st
  | S _ =>
      match fuel with
      | O => Crash
      | S fuel =>
          '(r, st) ← refill_slab cp st;
          match r with
          | None => Done st
          | Some slab =>
              '(todo, st) ← refill_pop todo cp slab st;
              st ← slabRehomeLocked cp slab st;
              slabRefillLocked fuel todo cp st
          end
      end
  end.

(** ** Caches *)

(** Models src/kernel/mm/slab.c:296-303, slabCacheCreateInternal's search for a free slot, from [i] on. *)
Fixpoint find_slot (l : list bool) (i : Z) : option Z :=
  match l with
  | [] => None
  | u :: l => if (u : bool) then find_slot l (i + 1) else Some i
  end.

(** Models src/kernel/mm/slab.c:312-315, slabCacheCreateInternal's loop over the name, for at most [n] characters. *)
Fixpoint name_chars (n : nat) (name : list Z) : list Z :=
  match n, name with
  | S n, ch :: name => if ch =? 0 then [] else ch :: name_chars n name
  | _, _ => []
  end.

(** Models src/kernel/mm/slab.c:312-316, slabCacheCreateInternal's copy of the name into the zeroed array. *)
Definition copy_name (name : list Z) : list Z :=
  let n := name_chars 23 name in n ++ replicate (24 - length n) 0.

(** Models src/kernel/mm/slab.c:327-333, slabCacheCreateInternal's capacity of the magazine. *)
Definition mag_capacity (stride : Z) : Z :=
  let cap := if stride =? 0 then 32 else 16384 / stride in
  let cap := if cap <? 4 then 4 else cap in
  if SLAB_MAG_MAX_ROUNDS <? cap then SLAB_MAG_MAX_ROUNDS else cap.

(** Models src/kernel/mm/slab.c:282-339, slabCacheCreateInternal; [name] is [None] for NULL, and outCache is
    never NULL here. *)
Definition slabCacheCreateInternal (name : option (list Z)) (objSize align : Z) (ctor dtor : option SlabObjFn) (extraFlags : Z)
    (st : SlabState) : Status * option Z * SlabState :=
  match name with
  | None => (STATUS_ERR_INVALID, None, st)
  | Some name =>
      if (objSize =? 0) || (KMALLOC_MAX_SIZE <? objSize) then (STATUS_ERR_INVALID, None, st)
      else
        let align := if align =? 0 then KMALLOC_MIN_ALIGN else align in
        if (align <? 8) || (4096 <? align) || negb ((align .& (align - 1)) =? 0) then (STATUS_ERR_INVALID, None, st)
        else
          match find_slot (st_inUse st) 0 with
          | None => (STATUS_ERR_NO_MEMORY, None, st)
          | Some slot =>
              let st := with_inUse (<[Z.to_nat slot := true]> (st_inUse st)) st in
              let cp := slabCaches + slot * sizeof_SlabCache in
              let layout := default (mkLayout 0 0 0 0 0) (slabComputeLayout objSize align KERNEL_DEBUG) in
              let cap := mag_capacity (ly_stride layout) in
              let c := mkCache SLAB_CACHE_MAGIC (copy_name name) objSize align ctor dtor extraFlags layout [] [] [] 0 0
                         (mkMag 0 cap (cap / 2) 0 (replicate 32 0)) in
              (STATUS_OK, Some cp, put_cache cp c st)
          end
  end.

(** Models src/kernel/mm/slab.c:341-344, slabCacheCreate. *)
Definition slabCacheCreate (name : option (list Z)) (objSize align : Z) (ctor dtor : option SlabObjFn) (st : SlabState)
  : Status * option Z * SlabState := slabCacheCreateInternal name objSize align ctor dtor 0 st.

(** Models src/kernel/mm/slab.c:348-350, slabCacheFlushMagazineLocked's loop over the [n] rounds from [i] on. *)
Fixpoint flush_rounds (n : nat) (i cp : Z) (st : SlabState) : res SlabState :=
  match n with
  | O => Done st
  | S n =>
      c ← get_cache cp st;
      ptr ← need (aget (mg_rounds (ca_mag c)) i);
      st ← slabPushObjectLocked cp ptr st;
      flush_rounds n (i + 1) cp st
  end.

(** Models src/kernel/mm/slab.c:346-352, slabCacheFlushMagazineLocked. *)
Definition slabCacheFlushMagazineLocked (cp : Z) (st : SlabState) : res SlabState :=
  c ← get_cache cp st;
  st ← flush_rounds (Z.to_nat (mg_count (ca_mag c))) 0 cp st;
  c ← get_cache cp st;
  let m := ca_mag c in
  Done (put_cache cp (set_mag (mkMag 0 (mg_capacity m) (mg_batch m) (mg_allocated m) (mg_rounds m)) c) st).

(** Models src/kernel/mm/slab.c:354-362, slabCacheShrink; a null pointer is 0. *)
Definition slabCacheShrink (cp : Z) (st : SlabState) : res SlabState :=
  if cp =? 0 then Done st
  else
    st ← slabCacheFlushMagazineLocked cp st;
    slab_reclaim cp 0 st.

(** Models src/kernel/mm/slab.c:366-373, slabShrinkAll's loop over the [n] slots from [i] on. *)
Fixpoint shrink_slots (n : nat) (i : Z) (st : SlabState) : res SlabState :=
  match n with
  | O => Done st
  | S n =>
      u ← need (aget (st_inUse st) i);
      if (u : bool) then
        let cp := slabCaches + i * sizeof_SlabCache in
        st ← slabCacheFlushMagazineLocked cp st;
        st ← slab_reclaim cp 0 st;
        shrink_slots n (i + 1) st
      else shrink_slots n (i + 1) st
  end.

(** Models src/kernel/mm/slab.c:364-375, slabShrinkAll. *)
Definition slabShrinkAll (st : SlabState) : res SlabState := shrink_slots 64 0 st.

(** Models src/kernel/mm/slab.c:383-393, slabCacheIsLiveLocked. *)
Definition slabCacheIsLiveLocked (cp : Z) (st : SlabState) : res bool :=
  let off := cp -! slabCaches in
  if negb (off mod sizeof_SlabCache =? 0) then Done false
  else
    let slot := off / sizeof_SlabCache in
    if SLAB_MAX_CACHES <=? slot then Done false
    else
      u ← need (aget (st_inUse st) slot);
      if negb u then Done false
      else
        c ← get_cache cp st;
        Done (ca_magic c =? SLAB_CACHE_MAGIC).

(** Models src/kernel/mm/slab.c:395-419, slabCacheDestroy. *)
Definition slabCacheDestroy (cp : Z) (st : SlabState) : res SlabState :=
  if cp =? 0 then Done st
  else
    live ← slabCacheIsLiveLocked cp st;
    if negb live then slabBug SLAB_BUG_CORRUPT 0 st
    else
      c ← get_cache cp st;
      if negb ((ca_flags c .& SLAB_CACHE_PERMANENT) =? 0) then slabBug SLAB_BUG_CACHE_BUSY 0 st
      else
        st ← slabCacheFlushMagazineLocked cp st;
        st ← slab_reclaim cp 0 st;
        c ← get_cache cp st;
        match ca_partial c, ca_full c with
        | [], [] =>
            let st := put_cache cp (set_magic 0 c) st in
            let slot := (cp - slabCaches) / sizeof_SlabCache in
            inUse ← need (aset (st_inUse st) slot false);
            Done (with_inUse inUse st)
        | _, _ => slabBug SLAB_BUG_CACHE_BUSY 0 st
        end.

(** ** Objects *)

(** Models src/kernel/mm/slab.c:437-445, slabAlloc's part under the lock: the object, or 0. *)
Definition alloc_object (cp : Z) (st : SlabState) : res (Z * SlabState) :=
  c ← get_cache cp st;
  st ← (if mg_count (ca_mag c) =? 0 then slabRefillLocked (Z.to_nat (mg_batch (ca_mag c))) (Z.to_nat (mg_batch (ca_mag c))) cp st else Done st);
  c ← get_cache cp st;
  let m := ca_mag c in
  if 0 <? mg_count m then
    obj ← need (aget (mg_rounds m) (mg_count m - 1));
    let m := mkMag (mg_count m - 1) (mg_capacity m) (mg_batch m) (mg_allocated m + 1) (mg_rounds m) in
    Done (obj, put_cache cp (set_mag m c) st)
  else Done (0, st).

(** Models src/kernel/mm/slab.c:421-464, slabAlloc: the object, or 0 for NULL. *)
Definition slabAlloc (cp flags : Z) (st : SlabState) : res (Z * SlabState) :=
  if cp =? 0 then slabBug SLAB_BUG_CORRUPT 0 st
  else if negb ((flags .& not32 KMALLOC_FLAGS_VALID) =? 0) then slabBug SLAB_BUG_BAD_FLAGS 0 st
  else
    constructed ← (if negb ((flags .& KMALLOC_ZERO) =? 0) then c ← get_cache cp st; Done (bool_decide (is_Some (ca_ctor c)))
                   else Done false);
    if (constructed : bool) then slabBug SLAB_BUG_BAD_FLAGS 0 st
    else
      live ← slabCacheIsLiveLocked cp st;
      if negb live then slabBug SLAB_BUG_CORRUPT 0 st
      else
        '(obj, st) ← alloc_object cp st;
        if obj =? 0 then Done (0, st)
        else
          c ← get_cache cp st;
          if KERNEL_DEBUG && negb (slabDebugCheckPoison (bool_decide (is_Some (ca_ctor c))) (ca_objSize c) obj (st_mem st))
          then slabBug SLAB_BUG_POISON obj st
          else if KERNEL_DEBUG && negb (slabDebugCheckRedzones (ca_layout c) (ca_objSize c) obj (st_mem st))
          then slabBug SLAB_BUG_REDZONE obj st
          else
            let st := if negb ((flags .& KMALLOC_ZERO) =? 0)
                      then with_bytes (fill_bytes (Z.to_nat (ca_objSize c)) 0 obj 0 (st_mem st)) st else st in
            Done (obj, st).

(** Models src/kernel/mm/slab.c:480-485, slabFreeCommon's search of the magazine, over the [n] rounds from [i] on. *)
Fixpoint in_magazine (n : nat) (i ptr : Z) (rounds : list Z) : option bool :=
  match n with
  | O => Some false
  | S n => r ← aget rounds i; if r =? ptr then Some true else in_magazine n (i + 1) ptr rounds
  end.

(** Models src/kernel/mm/slab.c:502-510, slabFreeCommon's return of the first rounds to their slabs. *)
Fixpoint flush_clear (n : nat) (i cp : Z) (st : SlabState) : res SlabState :=
  match n with
  | O => Done st
  | S n =>
      c ← get_cache cp st;
      ptr ← need (aget (mg_rounds (ca_mag c)) i);
      st ← slabPushObjectLocked cp ptr st;
      c ← get_cache cp st;
      let m := ca_mag c in
      rounds ← need (aset (mg_rounds m) i 0);
      flush_clear n (i + 1) cp
        (put_cache cp (set_mag (mkMag (mg_count m) (mg_capacity m) (mg_batch m) (mg_allocated m) rounds) c) st)
  end.

(** Models src/kernel/mm/slab.c:511-513, slabFreeCommon's move of the [n] rounds from [i] on down by [d]. *)
Fixpoint shift_rounds (n : nat) (i d : Z) (rounds : list Z) : option (list Z) :=
  match n with
  | O => Some rounds
  | S n => r ← aget rounds i; rounds ← aset rounds (i - d) r; shift_rounds n (i + 1) d rounds
  end.

(** Models src/kernel/mm/slab.c:499-519, slabFreeCommon's second part under the lock. *)
Definition free_push (cp ptr : Z) (st : SlabState) : res SlabState :=
  c ← get_cache cp st;
  st ← (if mg_capacity (ca_mag c) <=? mg_count (ca_mag c) then
          let flushN := mg_batch (ca_mag c) in
          st ← flush_clear (Z.to_nat flushN) 0 cp st;
          c ← get_cache cp st;
          let m := ca_mag c in
          rounds ← need (shift_rounds (Z.to_nat (mg_count m - flushN)) flushN flushN (mg_rounds m));
          let m := mkMag (u16 (mg_count m - flushN)) (mg_capacity m) (mg_batch m) (mg_allocated m) rounds in
          slab_reclaim cp SLAB_EMPTY_KEEP (put_cache cp (set_mag m c) st)
        else Done st);
  c ← get_cache cp st;
  let m := ca_mag c in
  rounds ← need (aset (mg_rounds m) (mg_count m) ptr);
  Done (put_cache cp (set_mag (mkMag (u16 (mg_count m + 1)) (mg_capacity m) (mg_batch m) (mg_allocated m - 1) rounds) c) st).

(** Models src/kernel/mm/slab.c:473-520, slabFreeCommon. *)
Definition slabFreeCommon (cp slab index ptr : Z) (st : SlabState) : res SlabState :=
  c ← get_cache cp st;
  s ← get_slab slab st;
  b ← need (aget (sl_bufctl s) index);
  dup ← (if negb (b =? SLAB_BUFCTL_BUSY) then Done true
         else need (in_magazine (Z.to_nat (mg_count (ca_mag c))) 0 ptr (mg_rounds (ca_mag c))));
  if (dup : bool) then slabBug SLAB_BUG_DOUBLE_FREE ptr st
  else if KERNEL_DEBUG && negb (slabDebugCheckRedzones (ca_layout c) (ca_objSize c) ptr (st_mem st))
  then slabBug SLAB_BUG_REDZONE ptr st
  else
    let st := if KERNEL_DEBUG then with_bytes (slabDebugPoisonFree (bool_decide (is_Some (ca_ctor c))) (ca_objSize c) ptr (st_mem st)) st
              else st in
    free_push cp ptr st.

(** Models src/kernel/mm/slab.c:522-535, slabFree. *)
Definition slabFree (cp obj : Z) (st : SlabState) : res SlabState :=
  if obj =? 0 then Done st
  else
    r ← slabResolvePointer obj st;
    match r with
    | inl bug => slabBug bug obj st
    | inr (slab, index) =>
        s ← get_slab slab st;
        if negb (sl_cache s =? cp) then slabBug SLAB_BUG_WRONG_CACHE obj st
        else slabFreeCommon cp slab index obj st
    end.

(** Models src/kernel/mm/slab.c:537-550, kfree. *)
Definition kfree (ptr : Z) (st : SlabState) : res SlabState :=
  if ptr =? 0 then Done st
  else
    r ← slabResolvePointer ptr st;
    match r with
    | inl bug => slabBug bug ptr st
    | inr (slab, index) =>
        s ← get_slab slab st;
        c ← get_cache (sl_cache s) st;
        if (ca_flags c .& SLAB_CACHE_KMALLOC) =? 0 then slabBug SLAB_BUG_WRONG_CACHE ptr st
        else slabFreeCommon (sl_cache s) slab index ptr st
    end.

(** Models src/kernel/mm/slab.c:552-558, kmalloc. *)
Definition kmalloc (size flags : Z) (st : SlabState) : res (Z * SlabState) :=
  let classIdx := slabClassIndexForSize size in
  if classIdx =? UINT32_MAX then slabBug SLAB_BUG_BAD_SIZE 0 st
  else
    cp ← need (aget (st_kmalloc st) classIdx);
    slabAlloc cp flags st.

(** Models src/kernel/mm/slab.c:560-563, kmallocCacheForSize; 0 is NULL. *)
Definition kmallocCacheForSize (size : Z) (st : SlabState) : option Z :=
  let classIdx := slabClassIndexForSize size in
  if classIdx =? UINT32_MAX then Some 0 else aget (st_kmalloc st) classIdx.

(** Models src/kernel/mm/slab.c:565-571, slabSumFreeLocked. *)
Fixpoint slabSumFreeLocked (l : list Z) (sum : Z) (st : SlabState) : res Z :=
  match l with
  | [] => Done sum
  | va :: l => s ← get_slab va st; slabSumFreeLocked l (sum +! sl_freeCount s) st
  end.

(** Models src/kernel/include/kmalloc.h:89-93, SlabCacheStats. *)
Record SlabCacheStats := mkSlabStats {
  ss_name : list Z; ss_objSize : Z; ss_stride : Z; ss_align : Z; ss_order : Z; ss_objsPerSlab : Z;
  ss_slabs : Z; ss_emptySlabs : Z; ss_objsFree : Z; ss_objsCached : Z; ss_objsAllocated : Z
}.

(** Models src/kernel/mm/slab.c:573-595, slabCacheGetStats. *)
Definition slabCacheGetStats (cp : Z) (st : SlabState) : res SlabCacheStats :=
  if cp =? 0 then slabBug SLAB_BUG_CORRUPT 0 st
  else
    live ← slabCacheIsLiveLocked cp st;
    if negb live then slabBug SLAB_BUG_CORRUPT 0 st
    else
      c ← get_cache cp st;
      a ← slabSumFreeLocked (ca_partial c) 0 st;
      b ← slabSumFreeLocked (ca_full c) 0 st;
      d ← slabSumFreeLocked (ca_empty c) 0 st;
      let freeObjs := (a +! b) +! d in
      let l := ca_layout c in
      let cached := mg_count (ca_mag c) in
      Done (mkSlabStats (ca_name c) (ca_objSize c) (ly_stride l) (ca_align c) (ly_order l) (ly_objsPerSlab l)
              (ca_slabCount c) (ca_emptySlabCount c) freeObjs cached
              (((ca_slabCount c *! ly_objsPerSlab l) -! freeObjs) -! cached)).

(** ** Initialization *)

(** Models src/kernel/mm/slab.c:610-613, slabInit's digits of [sz], lowest first. *)
Fixpoint digits (fuel : nat) (sz : Z) : list Z :=
  match fuel with
  | O => []
  | S fuel => 48 + sz mod 10 :: if 0 <? sz / 10 then digits fuel (sz / 10) else []
  end.

(** Models src/kernel/mm/slab.c:603-617, slabInit's name of a class: "kmalloc-" and the size. *)
Definition class_name (sz : Z) : list Z := [107; 109; 97; 108; 108; 111; 99; 45] ++ reverse (digits 8 sz).

(** Models src/kernel/mm/slab.c:598-627, slabInit's loop over the classes from [i] on. *)
Fixpoint init_classes (sizes : list Z) (i : Z) (st : SlabState) : res SlabState :=
  match sizes with
  | [] => Done st
  | sz :: sizes =>
      match slabCacheCreateInternal (Some (class_name sz)) sz KMALLOC_MIN_ALIGN None None
              (SLAB_CACHE_PERMANENT .| SLAB_CACHE_KMALLOC) st with
      | (STATUS_OK, Some cp, st) =>
          km ← need (aset (st_kmalloc st) i cp);
          init_classes sizes (i + 1) (with_kmalloc km st)
      | _ => Crash
      end
  end.

(** Models src/kernel/mm/slab.c:597-630, slabInit. *)
Definition slabInit (st : SlabState) : res SlabState := init_classes slabKmallocClassSizes 0 st.

(** The static state before slabInit, over a page allocator. *)
Definition slab_boot (pages : P) : SlabState :=
  mkState (list_to_map ((fun i => (slabCaches + i * sizeof_SlabCache, zeroCache)) <$> seqZ 0 SLAB_MAX_CACHES))
    (replicate 64 false) (replicate 12 0) SLAB_BUG_NONE 0 ∅ ∅ (fun _ => 0) pages.

End Slab.

#[global] Arguments mkState {P}.
