(* ===== verification/SlabInv.v ===== *)
(** * The invariant of the slab allocator

    What a cache, its slabs and the memory behind them satisfy between operations, and
    that the internal operations of [Slab] keep it: taking an object from a slab,
    returning one, moving a slab between the lists, growing and releasing. *)

From stdpp Require Import functions.
From S2P Require Import Prelude BootTypes SlabCore Slab.

Section Inv.
Context {P : Type} {PA : PageAllocator P} {PL : PageAllocatorLaws P} {MC : Machine} {ML : MachineLaws}.

(** What clients expect to find in the objects they hold. *)
Context {G : Z -> Z}.

Let Hhhdm : 0 < hhdmBase /\ hhdmBase + BOOTINFO_HHDM_SIZE <= VM_KVA_BASE := ml_hhdm.
Let Hbase : 0 < slabCaches /\ slabCaches + SLAB_MAX_CACHES * sizeof_SlabCache < 2 ^ 64 := ml_caches.

Implicit Types (st : @SlabState P) (c : SlabCache) (s : Slab) (M : gmap Z Slab) (B : list Z) (R : list (Z * Z)).

(** ** Statement *)

Definition frame_of (va : Z) : Z := (va - hhdmBase) / 4096.
Definition cache_ptr (i : Z) : Z := slabCaches + i * sizeof_SlabCache.
Definition live st (cp : Z) : Prop := exists i, 0 <= i < SLAB_MAX_CACHES /\ cp = cache_ptr i /\ aget (st_inUse st) i = Some true.

(** A constructor or destructor stays in its object. *)
Definition confined (size : Z) (f : option SlabObjFn) : Prop :=
  match f with
  | Some f => forall p mem a, ~ (p <= a < p + size) -> f p mem a = mem a
  | None => True
  end.

Record fit c : Prop := {
  ft_layout : exists k, 3 <= k <= 12 /\ ca_align c = 2 ^ k /\ layout_ok k (ca_objSize c) KERNEL_DEBUG (ca_layout c);
  ft_size : 1 <= ca_objSize c <= KMALLOC_MAX_SIZE;
  ft_ctor : confined (ca_objSize c) (ca_ctor c);
  ft_dtor : confined (ca_objSize c) (ca_dtor c)
}.

(** A slab of a cache, at its address. *)
Record slab_ok c (va : Z) s : Prop := {
  so_magic : sl_magic s = SLAB_MAGIC;
  so_base : sl_objBase s = va + ly_objOffset (ca_layout c);
  so_count : sl_objCount s = ly_objsPerSlab (ca_layout c);
  so_order : sl_order s = ly_order (ca_layout c);
  so_free : exists fl, free_list s fl
}.

Definition slot c s (i : Z) : Z := slabSlot s (ly_stride (ca_layout c)) i.

(** The objects of a cache that are on no free list. *)
Definition busy M (cp : Z) c (a : Z) : Prop :=
  exists va s i, M !! va = Some s /\ sl_cache s = cp /\ 0 <= i < sl_objCount s /\ a = slot c s i /\
    aget (sl_bufctl s) i = Some SLAB_BUFCTL_BUSY.

(** One cache, its slabs and its busy objects. *)
Record cinv (cp : Z) c M B : Prop := {
  ci_fit : fit c;
  ci_magic : ca_magic c = SLAB_CACHE_MAGIC;
  ci_slab : forall va s, M !! va = Some s -> sl_cache s = cp -> slab_ok c va s;
  ci_list : forall k va, va ∈ clist k c <-> exists s, M !! va = Some s /\ sl_cache s = cp /\ sl_list s = k;
  ci_nodup : forall k, NoDup (clist k c);
  ci_slabs : ca_slabCount c = zlen (ca_partial c) + zlen (ca_full c) + zlen (ca_empty c);
  ci_empty : ca_emptySlabCount c = zlen (ca_empty c);
  ci_once : NoDup B;
  ci_busy : forall a, a ∈ B <-> busy M cp c a
}.

(** All caches, with the pages behind the slabs; [Bf] gives the busy objects of each cache, [R]
    the blocks of the page allocator's other clients. *)
Record core st (Bf : Z -> list Z) R : Prop := {
  k_slots : zlen (st_inUse st) = SLAB_MAX_CACHES;
  k_there : forall i, 0 <= i < SLAB_MAX_CACHES -> is_Some (st_caches st !! cache_ptr i);
  k_cache : forall cp, live st cp -> exists c, st_caches st !! cp = Some c /\ cinv cp c (st_slabs st) (Bf cp);
  k_owned : forall va s, st_slabs st !! va = Some s -> live st (sl_cache s);
  k_va : forall va s, st_slabs st !! va = Some s -> va = hhdmBase + 4096 * frame_of va;
  k_pages : exists L, pa_inv (L ++ R) (st_pages st) /\ NoDup L /\
    forall p k, (p, k) ∈ L <-> exists va s, st_slabs st !! va = Some s /\ p = frame_of va /\ k = sl_order s;
  k_marks : forall f va, st_owner st !! f = Some va <->
    exists s, st_slabs st !! va = Some s /\ frame_of va <= f < frame_of va + 2 ^ sl_order s
}.

(** Every slab but [X] is on the list its free objects say. *)
Definition homed (X : option Z) st : Prop :=
  forall va s, st_slabs st !! va = Some s -> X <> Some va -> sl_list s = want s.

(** The bytes of one object: in a debug build its redzones are intact, and poison fills it unless a
    client holds it; a held object has the contents [G] says. *)
Definition bytes_at (mem : Z -> Z) c s (Hc : list Z) (i : Z) : Prop :=
  (KERNEL_DEBUG = true ->
    (forall x, redzone (ca_layout c) (ca_objSize c) (slot c s i) x -> mem x = SLAB_REDZONE_BYTE) /\
    (slot c s i ∉ Hc -> ca_ctor c = None -> forall x, slot c s i <= x < slot c s i + ca_objSize c -> mem x = SLAB_POISON_BYTE)) /\
  (slot c s i ∈ Hc -> aget (sl_bufctl s) i = Some SLAB_BUFCTL_BUSY ->
    forall x, slot c s i <= x < slot c s i + ca_objSize c -> mem x = G x).

Definition bytes_ok st (H : Z -> list Z) : Prop :=
  forall va s c i, st_slabs st !! va = Some s -> st_caches st !! sl_cache s = Some c -> 0 <= i < sl_objCount s ->
  bytes_at (st_mem st) c s (H (sl_cache s)) i.

(** ** Where objects are *)

Lemma fit_bounds c : fit c ->
  1 <= ly_stride (ca_layout c) <= 2 ^ 15 /\ 0 <= ly_order (ca_layout c) <= 3 /\ 1 <= ly_objsPerSlab (ca_layout c) <= 1024 /\
  0 <= ly_rzLeft (ca_layout c) <= 4096 /\ ly_rzLeft (ca_layout c) + ca_objSize c <= ly_stride (ca_layout c) /\
  sizeof_Slab + 2 * ly_objsPerSlab (ca_layout c) + ly_rzLeft (ca_layout c) <= ly_objOffset (ca_layout c) /\
  ly_objOffset (ca_layout c) + ly_objsPerSlab (ca_layout c) * ly_stride (ca_layout c) <= 4096 * 2 ^ ly_order (ca_layout c) <= 32768.
Proof.
  intros [(k & Hk & _ & [O N _ Z0 Rm Hd He]) [Hs _] _ _]. unfold SLAB_MAX_ORDER, SLAB_MAX_OBJECTS, SLAB_REDZONE_SIZE in *.
  pose proof (pow_k k Hk). assert (2 ^ ly_order (ca_layout c) <= 2 ^ 3) by (apply Z.pow_le_mono_r; lia).
  destruct KERNEL_DEBUG; split_and!; lia.
Qed.

(** The block of a slab lies in the direct map. *)
Lemma slab_range st Bf R va s :
  core st Bf R -> st_slabs st !! va = Some s ->
  0 <= frame_of va /\ va = hhdmBase + 4096 * frame_of va /\ frame_of va + 2 ^ sl_order s <= 2 ^ 34 /\ 0 <= sl_order s.
Proof.
  intros K E. destruct (k_pages _ _ _ K) as (L & Hi & _ & HL). pose proof (k_va _ _ _ K va s E).
  destruct (pa_shape _ _ (frame_of va) (sl_order s) Hi) as (? & ? & ?); [apply elem_of_app; left; apply HL; eauto|auto].
Qed.

Lemma elem_of_two {A} (l : list A) x y : x ∈ l -> y ∈ l -> x <> y -> exists l', l ≡ₚ x :: y :: l'.
Proof.
  intros Hx Hy Hne. apply elem_of_Permutation in Hx as (l1 & H1). rewrite H1 in Hy. apply elem_of_cons in Hy as [->|Hy]; [done|].
  apply elem_of_Permutation in Hy as (l2 & H2). exists l2. rewrite H1. by rewrite H2.
Qed.

Lemma slabs_apart st Bf R va s va' s' :
  core st Bf R -> st_slabs st !! va = Some s -> st_slabs st !! va' = Some s' -> va <> va' ->
  va + 4096 * 2 ^ sl_order s <= va' \/ va' + 4096 * 2 ^ sl_order s' <= va.
Proof.
  intros K E E' Hne. destruct (slab_range _ _ _ _ _ K E) as (_ & H1 & _). destruct (slab_range _ _ _ _ _ K E') as (_ & H2 & _).
  destruct (k_pages _ _ _ K) as (L & Hi & Hnd & HL).
  destruct (elem_of_two (L ++ R) (frame_of va, sl_order s) (frame_of va', sl_order s')) as (L' & HP).
  - apply elem_of_app. left. apply HL. eauto.
  - apply elem_of_app. left. apply HL. eauto.
  - intros [= Hf _]. congruence.
  - apply (pa_perm _ _ _ HP) in Hi. apply pa_apart in Hi. lia.
Qed.

(** A slot with its redzones lies behind the header, inside the block. *)
Lemma slot_place va s c i : fit c -> slab_ok c va s -> 0 <= va -> va + 4096 * 2 ^ sl_order s < 2 ^ 64 -> 0 <= i < sl_objCount s ->
  slot c s i = sl_objBase s + i * ly_stride (ca_layout c) /\ va < slot c s i - ly_rzLeft (ca_layout c) /\
  slot c s i - ly_rzLeft (ca_layout c) + ly_stride (ca_layout c) <= va + 4096 * 2 ^ sl_order s.
Proof.
  intros F [_ Hb Hc Ho _] H1 H2 Hi. pose proof (fit_bounds c F) as (Hs & Hor & Hn & Hr & Hro & Hh & He). unfold sizeof_Slab in *.
  rewrite Ho in *. rewrite Hc in Hi. destruct (slot_index (ca_layout c) s i) as [Hsl _]; [lia|unfold SLAB_MAX_OBJECTS; lia|lia|lia|lia|].
  assert (i * ly_stride (ca_layout c) + ly_stride (ca_layout c) <= ly_objsPerSlab (ca_layout c) * ly_stride (ca_layout c)).
  { replace (i * ly_stride (ca_layout c) + ly_stride (ca_layout c)) with ((i + 1) * ly_stride (ca_layout c)) by lia. apply Z.mul_le_mono_nonneg_r; lia. }
  assert (0 <= i * ly_stride (ca_layout c)) by (apply Z.mul_nonneg_nonneg; lia). unfold slot. rewrite Hsl, Hb. split; [reflexivity|]. lia.
Qed.

Lemma slot_extent st Bf R va s c i :
  core st Bf R -> st_slabs st !! va = Some s -> fit c -> slab_ok c va s -> 0 <= i < sl_objCount s ->
  slot c s i = sl_objBase s + i * ly_stride (ca_layout c) /\ va < slot c s i - ly_rzLeft (ca_layout c) /\
  slot c s i - ly_rzLeft (ca_layout c) + ly_stride (ca_layout c) <= va + 4096 * 2 ^ sl_order s /\
  hhdmBase < va + 1 /\ va + 4096 * 2 ^ sl_order s <= hhdmBase + BOOTINFO_HHDM_SIZE.
Proof.
  intros K E F O Hi. destruct (slab_range _ _ _ _ _ K E) as (H1 & H2 & H3 & H4). unfold BOOTINFO_HHDM_SIZE, VM_KVA_BASE in *.
  destruct (slot_place va s c i F O) as (X1 & X2 & X3); [lia|lia|assumption|]. split; [assumption|]. lia.
Qed.

(** Different slots, also of different caches, have disjoint extents. *)
Lemma slots_apart st Bf R va s c i va' s' c' i' :
  core st Bf R -> st_slabs st !! va = Some s -> fit c -> slab_ok c va s -> 0 <= i < sl_objCount s ->
  st_slabs st !! va' = Some s' -> fit c' -> slab_ok c' va' s' -> 0 <= i' < sl_objCount s' ->
  (va = va' -> c = c' /\ i <> i') ->
  slot c s i - ly_rzLeft (ca_layout c) + ly_stride (ca_layout c) <= slot c' s' i' - ly_rzLeft (ca_layout c') \/
  slot c' s' i' - ly_rzLeft (ca_layout c') + ly_stride (ca_layout c') <= slot c s i - ly_rzLeft (ca_layout c).
Proof.
  intros K E F O Hi E' F' O' Hi' Hne. destruct (slot_extent _ _ _ _ _ _ _ K E F O Hi) as (H1 & H2 & H3 & _).
  destruct (slot_extent _ _ _ _ _ _ _ K E' F' O' Hi') as (H1' & H2' & H3' & _).
  destruct (decide (va = va')) as [<-|Hva]; [|pose proof (slabs_apart _ _ _ _ _ _ _ K E E' Hva); lia].
  destruct (Hne eq_refl) as [<- Hii]. rewrite E in E'. injection E' as <-. rewrite H1, H1'. pose proof (fit_bounds c F). nia.
Qed.

Lemma slot_inj st Bf R va s c i va' s' c' i' :
  core st Bf R -> st_slabs st !! va = Some s -> fit c -> slab_ok c va s -> 0 <= i < sl_objCount s ->
  st_slabs st !! va' = Some s' -> fit c' -> slab_ok c' va' s' -> 0 <= i' < sl_objCount s' ->
  (va = va' -> c = c') -> slot c s i = slot c' s' i' -> va = va' /\ i = i'.
Proof.
  intros K E F O Hi E' F' O' Hi' Hc Heq. pose proof (fit_bounds c F). pose proof (fit_bounds c' F').
  pose proof (ft_size _ F). pose proof (ft_size _ F').
  destruct (decide (va = va')) as [Hva|Hva]; [destruct (decide (i = i')) as [|Hne]; [auto|]|]; exfalso;
    destruct (slots_apart _ _ _ _ _ _ _ _ _ _ _ K E F O Hi E' F' O' Hi') as [Ha|Ha]; auto; try lia; intros; contradiction.
Qed.

(** ** One cache *)

Lemma cinv_perm cp c M B B' : B ≡ₚ B' -> cinv cp c M B -> cinv cp c M B'.
Proof. intros HB [F M0 S L N C E O Y]. split; try assumption; [by rewrite <- HB|]. intros a. by rewrite <- HB. Qed.

(** The fields of a cache that never change. *)
Record static c c' : Prop := {
  sc_magic : ca_magic c' = ca_magic c; sc_name : ca_name c' = ca_name c; sc_size : ca_objSize c' = ca_objSize c;
  sc_align : ca_align c' = ca_align c; sc_ctor : ca_ctor c' = ca_ctor c; sc_dtor : ca_dtor c' = ca_dtor c;
  sc_flags : ca_flags c' = ca_flags c; sc_layout : ca_layout c' = ca_layout c
}.

#[global] Instance static_preorder : PreOrder static.
Proof. split; [split; reflexivity|]. intros c1 c2 c3 [] []. split; congruence. Qed.

Lemma fit_static c c' : static c c' -> fit c -> fit c'.
Proof. intros [_ _ S A C D _ L] [H1 H2 H3 H4]. split; rewrite ?S, ?A, ?C, ?D, ?L; assumption. Qed.

Lemma slab_ok_static c c' va s : static c c' -> slab_ok c va s -> slab_ok c' va s.
Proof. intros [_ _ _ _ _ _ _ L] [H1 H2 H3 H4 H5]. split; rewrite ?L; assumption. Qed.

Lemma busy_static c c' M cp a : static c c' -> busy M cp c' a <-> busy M cp c a.
Proof. intros [_ _ _ _ _ _ _ L]. unfold busy, slot. by rewrite L. Qed.

(** Only the magazine changes. *)
Lemma cinv_mag cp c m M B : cinv cp c M B -> cinv cp (set_mag m c) M B.
Proof.
  intros [F M0 S L N C E O Y]. split; try assumption.
  - apply (fit_static c); [split; reflexivity|assumption].
  - intros va s Hs Hc. apply (slab_ok_static c); [split; reflexivity|auto].
Qed.

(** The free list of one slab changes. *)
Lemma busy_insert cp c M va s s' a :
  M !! va = Some s -> sl_cache s = cp -> s' = set_free (sl_freeCount s') (sl_freeHead s') (sl_bufctl s') s ->
  busy (<[va := s']> M) cp c a <->
  (exists i, 0 <= i < sl_objCount s /\ a = slot c s i /\ aget (sl_bufctl s') i = Some SLAB_BUFCTL_BUSY) \/
  (exists va2 s2 i, va2 <> va /\ M !! va2 = Some s2 /\ sl_cache s2 = cp /\ 0 <= i < sl_objCount s2 /\ a = slot c s2 i /\
     aget (sl_bufctl s2) i = Some SLAB_BUFCTL_BUSY).
Proof.
  intros E Hc Hs. assert (Hsl : forall i, slot c s' i = slot c s i) by (intros i; rewrite Hs; reflexivity).
  assert (Hn : sl_objCount s' = sl_objCount s) by (rewrite Hs; reflexivity). assert (Hcs : sl_cache s' = sl_cache s) by (rewrite Hs; reflexivity).
  unfold busy. split.
  - intros (va2 & s2 & i & E2 & H2 & Hi & Ha & Hb). rewrite lookup_insert in E2. case_decide as Hva.
    + injection E2 as <-. left. exists i. rewrite <- Hsl, <- Hn. auto.
    + right. exists va2, s2, i. split_and!; auto; lia.
  - intros [(i & Hi & Ha & Hb)|(va2 & s2 & i & Hva & E2 & H2 & Hi & Ha & Hb)].
    + exists va, s', i. rewrite lookup_insert_eq, Hsl, Hn, Hcs. auto.
    + exists va2, s2, i. rewrite lookup_insert_ne by auto. auto.
Qed.

Lemma busy_split cp c M va s a :
  M !! va = Some s -> sl_cache s = cp ->
  busy M cp c a <->
  (exists i, 0 <= i < sl_objCount s /\ a = slot c s i /\ aget (sl_bufctl s) i = Some SLAB_BUFCTL_BUSY) \/
  (exists va2 s2 i, va2 <> va /\ M !! va2 = Some s2 /\ sl_cache s2 = cp /\ 0 <= i < sl_objCount s2 /\ a = slot c s2 i /\
     aget (sl_bufctl s2) i = Some SLAB_BUFCTL_BUSY).
Proof.
  intros E Hc. rewrite <- (busy_insert cp c M va s s a E Hc) by (by destruct s). by rewrite insert_id.
Qed.

Lemma cinv_free cp c M B va s s' fl' B' :
  cinv cp c M B -> M !! va = Some s -> sl_cache s = cp -> s' = set_free (sl_freeCount s') (sl_freeHead s') (sl_bufctl s') s ->
  free_list s' fl' -> NoDup B' -> (forall a, a ∈ B' <-> busy (<[va := s']> M) cp c a) -> cinv cp c (<[va := s']> M) B'.
Proof.
  intros [F M0 S L N C E O Y] Ev Hc Hs Hf HB Hb. split; try assumption.
  - intros va2 s2 E2 H2. rewrite lookup_insert in E2. case_decide as Hva; [|by apply S].
    injection E2 as <-. subst va2. destruct (S va s Ev Hc) as [S1 S2 S3 S4 _]. split; [rewrite Hs; assumption..|eauto].
  - intros k va2. rewrite L. split.
    + intros (s2 & E2 & H2 & Hl). destruct (decide (va = va2)) as [<-|].
      * exists s'. rewrite lookup_insert_eq. rewrite Ev in E2. injection E2 as <-. rewrite Hs. auto.
      * exists s2. rewrite lookup_insert_ne by assumption. auto.
    + intros (s2 & E2 & H2 & Hl). rewrite lookup_insert in E2. case_decide as Hva; [|eauto].
      injection E2 as <-. subst va2. exists s. rewrite Hs in Hl. auto.
Qed.

(** An object leaves its slab's free list. *)
Lemma cinv_pop cp c M B va s i fl s' :
  cinv cp c M B -> M !! va = Some s -> sl_cache s = cp -> free_list s (i :: fl) -> slabFreeListPop s = Some (i, s') ->
  slot c s i ∉ B -> 0 <= i < sl_objCount s -> cinv cp c (<[va := s']> M) (slot c s i :: B).
Proof.
  intros Ci E Hc Hf Hp Hni Hi. destruct (pop_spec s i fl Hf) as (s1 & E1 & Hf1 & Hs1). rewrite Hp in E1. injection E1 as <-.
  eapply cinv_free; try eassumption; [constructor; [assumption|apply (ci_once _ _ _ _ Ci)]|].
  intros a. rewrite elem_of_cons, (ci_busy _ _ _ _ Ci a), (busy_insert cp c M va s s' a E Hc Hs1), (busy_split cp c M va s a E Hc).
  assert (Hb : forall j, 0 <= j < sl_objCount s -> aget (sl_bufctl s') j = Some SLAB_BUFCTL_BUSY <-> j = i \/ aget (sl_bufctl s) j = Some SLAB_BUFCTL_BUSY).
  { intros j Hj. rewrite <- (fl_busy _ _ Hf j Hj), <- (fl_busy _ _ Hf1 j ltac:(rewrite Hs1; exact Hj)), not_elem_of_cons.
    pose proof (fl_nodup _ _ Hf) as Hn. apply NoDup_cons in Hn as [Hn _]. destruct (decide (j = i)) as [->|]; tauto. }
  split.
  - intros [->|[(j & Hj & -> & Hbj)|Ho]]; [left; exists i|left; exists j|right; exact Ho]; (split; [assumption|split; [reflexivity|apply Hb; auto]]).
  - intros [(j & Hj & -> & Hbj)|Ho]; [|auto]. apply Hb in Hbj as [->|Hbj]; [auto| |assumption]. right. left. exists j. auto.
Qed.

(** An object returns to its slab's free list. *)
Lemma cinv_push cp c M B va s i fl s' :
  cinv cp c M (slot c s i :: B) -> M !! va = Some s -> sl_cache s = cp -> free_list s fl -> slabFreeListPush s i = Some s' ->
  0 <= i < sl_objCount s -> i ∉ fl ->
  (forall va2 s2 j, M !! va2 = Some s2 -> sl_cache s2 = cp -> 0 <= j < sl_objCount s2 -> slot c s2 j = slot c s i -> va2 = va /\ j = i) ->
  cinv cp c (<[va := s']> M) B.
Proof.
  intros Ci E Hc Hf Hp Hi Hni Hinj. destruct (push_spec s i fl Hf Hi Hni) as (s1 & E1 & Hf1 & Hs1). rewrite Hp in E1. injection E1 as <-.
  pose proof (ci_once _ _ _ _ Ci) as Hnd. apply NoDup_cons in Hnd as [HnB Hnd].
  eapply cinv_free; try eassumption. intros a. rewrite (busy_insert cp c M va s s' a E Hc Hs1).
  pose proof (ci_busy _ _ _ _ Ci a) as Hb. rewrite elem_of_cons, (busy_split cp c M va s a E Hc) in Hb.
  assert (Hb' : forall j, 0 <= j < sl_objCount s -> aget (sl_bufctl s') j = Some SLAB_BUFCTL_BUSY <-> j <> i /\ aget (sl_bufctl s) j = Some SLAB_BUFCTL_BUSY).
  { intros j Hj. rewrite <- (fl_busy _ _ Hf j Hj), <- (fl_busy _ _ Hf1 j ltac:(rewrite Hs1; exact Hj)), not_elem_of_cons. tauto. }
  split.
  - intros Ha. destruct (proj1 Hb (or_intror Ha)) as [(j & Hj & -> & Hbj)|Ho]; [|auto]. left. exists j. split; [assumption|split; [reflexivity|]].
    apply Hb'; [assumption|]. split; [|assumption]. intros ->. contradiction.
  - intros [(j & Hj & -> & Hbj)|(va2 & s2 & j & Hva & E2 & H2 & Hj & -> & Hbj)].
    + apply Hb' in Hbj as [Hne Hbj]; [|assumption]. destruct (proj2 Hb) as [Heq|]; [left; eauto| |assumption].
      destruct (Hinj va s j E Hc Hj Heq). contradiction.
    + destruct (proj2 Hb) as [Heq|]; [right; exists va2, s2, j; split_and!; auto; lia| |assumption]. destruct (Hinj va2 s2 j E2 H2 Hj Heq). contradiction.
Qed.

(** ** The lists of a cache *)

Lemma clist_push k k' va c : k' <> SLAB_LIST_NONE -> clist k (list_push k' va c) = if decide (k = k') then va :: clist k c else clist k c.
Proof. intros Hk. destruct k, k'; try contradiction; reflexivity. Qed.

Lemma clist_remove k va c : clist k (list_remove va c) = filter (fun x => x <> va) (clist k c).
Proof. destruct k; reflexivity. Qed.

Lemma clist_counts k n e c : clist k (set_counts n e c) = clist k c.
Proof. destruct k; reflexivity. Qed.

Lemma zlen_remove (l : list Z) va : NoDup l -> zlen (filter (fun x => x <> va) l) = zlen l - (if decide (va ∈ l) then 1 else 0).
Proof.
  induction l as [|x l IH]; intros Hn; [reflexivity|]. apply NoDup_cons in Hn as [Hx Hn]. specialize (IH Hn). rewrite filter_cons.
  destruct (decide (x <> va)) as [Hne|He].
  - rewrite !zlen_cons, IH. destruct (decide (va ∈ l)), (decide (va ∈ x :: l)) as [Hi|Hi]; rewrite elem_of_cons in *; try tauto; try lia.
    destruct Hi; [congruence|contradiction].
  - apply dec_stable in He. subst x. rewrite decide_True by (apply elem_of_cons; auto). rewrite IH, decide_False, zlen_cons by assumption. lia.
Qed.

Lemma slab_listed cp c M B va s k : cinv cp c M B -> M !! va = Some s -> sl_cache s = cp -> va ∈ clist k c <-> sl_list s = k.
Proof.
  intros Ci E Hc. rewrite (ci_list _ _ _ _ Ci). split; [|eauto]. intros (s2 & E2 & _ & Hl). congruence.
Qed.

Lemma slab_on_list cp c M B va s : cinv cp c M B -> M !! va = Some s -> sl_cache s = cp -> sl_list s <> SLAB_LIST_NONE.
Proof.
  intros Ci E Hc Hl. apply (slab_listed cp c M B va s SLAB_LIST_NONE Ci E Hc) in Hl. simpl in Hl. by apply not_elem_of_nil in Hl.
Qed.

(** A slab moves from its list to the head of another. *)
Definition moved c va k k' c' : Prop :=
  static c c' /\ ca_mag c' = ca_mag c /\
  (forall j, clist j c' = if decide (j = k') then va :: filter (fun x => x <> va) (clist j c) else filter (fun x => x <> va) (clist j c)) /\
  ca_slabCount c' = ca_slabCount c /\
  ca_emptySlabCount c' = ca_emptySlabCount c - (if decide (k = SLAB_LIST_EMPTY) then 1 else 0) + (if decide (k' = SLAB_LIST_EMPTY) then 1 else 0).

Lemma cinv_move cp c M B va s k' c' :
  cinv cp c M B -> M !! va = Some s -> sl_cache s = cp -> k' <> SLAB_LIST_NONE -> k' <> sl_list s -> moved c va (sl_list s) k' c' ->
  cinv cp c' (<[va := set_list k' s]> M) B.
Proof.
  intros Ci E Hc Hk Hne (Hst & _ & Hl & Hn & He). pose proof (slab_on_list _ _ _ _ _ _ Ci E Hc) as Hno.
  assert (Hz : forall j, zlen (clist j c') = zlen (clist j c) - (if decide (sl_list s = j) then 1 else 0) + (if decide (j = k') then 1 else 0)).
  { intros j. rewrite Hl. pose proof (zlen_remove (clist j c) va (ci_nodup _ _ _ _ Ci j)) as Hr.
    assert (Hd : (if decide (va ∈ clist j c) then 1 else 0) = (if decide (sl_list s = j) then 1 else 0)).
    { apply decide_ext. apply (slab_listed _ _ _ _ _ _ _ Ci E Hc). }
    rewrite Hd in Hr. destruct (decide (j = k')); rewrite ?zlen_cons, Hr; lia. }
  split.
  - apply (fit_static c); [assumption|apply (ci_fit _ _ _ _ Ci)].
  - rewrite (sc_magic _ _ Hst). apply (ci_magic _ _ _ _ Ci).
  - intros va2 s2 E2 H2. apply (slab_ok_static c); [assumption|]. rewrite lookup_insert in E2. case_decide as Hva.
    + injection E2 as <-. subst va2. destruct (ci_slab _ _ _ _ Ci va s E Hc) as [S1 S2 S3 S4 (fl & [F1 F2 F3 F4 F5 F6])].
      split; try assumption. exists fl. split; assumption.
    + by apply (ci_slab _ _ _ _ Ci).
  - intros j va2. rewrite Hl. destruct (decide (va2 = va)) as [->|Hva].
    + transitivity (j = k'). { destruct (decide (j = k')) as [->|]; rewrite ?elem_of_cons, list_elem_of_filter; [tauto|]. split; [intros [? _]; done|done]. }
      split; [intros ->; exists (set_list k' s); rewrite lookup_insert_eq; auto|]. intros (s2 & E2 & _ & <-). rewrite lookup_insert_eq in E2. by injection E2 as <-.
    + transitivity (va2 ∈ clist j c). { destruct (decide (j = k')); rewrite ?elem_of_cons, list_elem_of_filter; tauto. }
      rewrite (ci_list _ _ _ _ Ci), lookup_insert_ne by auto. reflexivity.
  - intros j. rewrite Hl. pose proof (ci_nodup _ _ _ _ Ci j) as Hnd. destruct (decide (j = k')); [|by apply NoDup_filter].
    constructor; [|by apply NoDup_filter]. rewrite list_elem_of_filter. tauto.
  - rewrite Hn, (ci_slabs _ _ _ _ Ci). pose proof (Hz SLAB_LIST_PARTIAL) as Z1. pose proof (Hz SLAB_LIST_FULL) as Z2. pose proof (Hz SLAB_LIST_EMPTY) as Z3.
    simpl in Z1, Z2, Z3. rewrite Z1, Z2, Z3. destruct (sl_list s), k'; try contradiction; simpl; lia.
  - rewrite He, (ci_empty _ _ _ _ Ci). pose proof (Hz SLAB_LIST_EMPTY) as Z3. simpl in Z3. rewrite Z3. destruct (sl_list s), k'; try contradiction; simpl; lia.
  - apply (ci_once _ _ _ _ Ci).
  - intros a. rewrite (ci_busy _ _ _ _ Ci a), (busy_static c c' _ _ a Hst). unfold busy. split.
    + intros (va2 & s2 & i & E2 & H2 & Hi & Ha & Hb). destruct (decide (va2 = va)) as [->|]; [|exists va2, s2, i; rewrite lookup_insert_ne by auto; auto].
      exists va, (set_list k' s), i. rewrite lookup_insert_eq. rewrite E in E2. injection E2 as <-. auto.
    + intros (va2 & s2 & i & E2 & H2 & Hi & Ha & Hb). rewrite lookup_insert in E2. case_decide as Hva; [|exists va2, s2, i; auto].
      injection E2 as <-. exists va, s, i. auto.
Qed.

(** ** All caches *)

(** The slabs of the other caches are the same. *)
Definition others cp M M' : Prop := forall va s, sl_cache s <> cp -> M' !! va = Some s <-> M !! va = Some s.

Lemma cinv_others cp cp' c M M' B : cp' <> cp -> others cp M M' -> cinv cp' c M B -> cinv cp' c M' B.
Proof.
  intros Hne Ho [F M0 S L N C E O Y]. split; try assumption.
  - intros va s Hs Hc. apply S; [apply Ho; [congruence|assumption]|assumption].
  - intros k va. rewrite L. split; intros (s & Hs & Hc & Hl); exists s; (split; [apply Ho; [congruence|assumption]|auto]).
  - intros a. rewrite Y. unfold busy. split; intros (va & s & i & Hs & Hc & H); exists va, s, i; (split; [apply Ho; [congruence|assumption]|auto]).
Qed.

(** An operation on the cache [cp]: everything else about caches stays. *)
Record step cp st st' : Prop := {
  sp_inUse : st_inUse st' = st_inUse st;
  sp_kmalloc : st_kmalloc st' = st_kmalloc st;
  sp_last : st_lastKind st' = st_lastKind st /\ st_lastObj st' = st_lastObj st;
  sp_caches : forall q, q <> cp -> st_caches st' !! q = st_caches st !! q;
  sp_cache : forall c, st_caches st !! cp = Some c -> exists c', st_caches st' !! cp = Some c' /\ static c c'
}.

#[global] Instance step_preorder cp : PreOrder (step cp).
Proof.
  split.
  - intros st. split; auto. intros c Hc. exists c. split; [assumption|reflexivity].
  - intros s1 s2 s3 [A1 B1 [C1 C1'] D1 E1] [A2 B2 [C2 C2'] D2 E2]. split; [congruence..| | |].
    + split; congruence.
    + intros q Hq. by rewrite D2, D1.
    + intros c Hc. destruct (E1 c Hc) as (c1 & H1 & S1). destruct (E2 c1 H1) as (c2 & H2 & S2). exists c2. split; [assumption|]. by transitivity c1.
Qed.

Lemma live_inUse st st' cp : st_inUse st' = st_inUse st -> live st' cp <-> live st cp.
Proof. intros E. unfold live. by rewrite E. Qed.

Lemma step_live cp st st' q : step cp st st' -> live st q -> live st' q.
Proof. intros Hs. by apply (live_inUse st st' q (sp_inUse _ _ _ Hs)). Qed.

Lemma live_ptr st cp : live st cp -> 0 < cp < 2 ^ 64.
Proof.
  intros (i & Hi & -> & _). unfold cache_ptr. unfold SLAB_MAX_CACHES, sizeof_SlabCache in *. lia.
Qed.

Lemma core_upd st Bf R cp st' c' B' :
  core st Bf R -> step cp st st' -> st_caches st' !! cp = Some c' -> cinv cp c' (st_slabs st') B' ->
  others cp (st_slabs st) (st_slabs st') ->
  (forall va s, st_slabs st' !! va = Some s -> live st (sl_cache s)) ->
  (forall va s, st_slabs st' !! va = Some s -> va = hhdmBase + 4096 * frame_of va) ->
  (exists L, pa_inv (L ++ R) (st_pages st') /\ NoDup L /\
    forall p k, (p, k) ∈ L <-> exists va s, st_slabs st' !! va = Some s /\ p = frame_of va /\ k = sl_order s) ->
  (forall f va, st_owner st' !! f = Some va <-> exists s, st_slabs st' !! va = Some s /\ frame_of va <= f < frame_of va + 2 ^ sl_order s) ->
  core st' (<[cp := B']> Bf) R.
Proof.
  intros K [I _ _ D _] Ec Ci Ho Hl Hv Hp Hm. split; try assumption.
  - rewrite I. apply K.
  - intros i Hi. destruct (decide (cache_ptr i = cp)) as [->|Hne]; [eauto|]. rewrite D by assumption. by apply K.
  - intros q Hq. rewrite (live_inUse st st' q I) in Hq. destruct (decide (q = cp)) as [->|Hne].
    + exists c'. by rewrite fn_lookup_insert.
    + rewrite fn_lookup_insert_ne, D by auto. destruct (k_cache _ _ _ K q Hq) as (c & E & Hc). exists c. split; [assumption|].
      eapply cinv_others; eassumption.
  - intros va s E. rewrite (live_inUse st st' _ I). eauto.
Qed.

(** One slab of the cache is replaced by another version of itself. *)
Lemma core_slab st Bf R cp c c' va s s' B' :
  core st Bf R -> live st cp -> st_caches st !! cp = Some c -> static c c' -> st_slabs st !! va = Some s -> sl_cache s = cp ->
  sl_cache s' = cp -> sl_order s' = sl_order s -> cinv cp c' (<[va := s']> (st_slabs st)) B' ->
  core (put_slab va s' (put_cache cp c' st)) (<[cp := B']> Bf) R /\ step cp st (put_slab va s' (put_cache cp c' st)).
Proof.
  intros K Hl Ec Hst E Hc Hc' Ho Ci.
  assert (Hs : step cp st (put_slab va s' (put_cache cp c' st))).
  { split; auto; simpl.
    - intros q Hq. by apply lookup_insert_ne.
    - intros c0 E0. exists c'. rewrite lookup_insert_eq. split; [reflexivity|]. congruence. }
  split; [|exact Hs].
  assert (Hsh : forall va2 s2, <[va := s']> (st_slabs st) !! va2 = Some s2 -> exists s3, st_slabs st !! va2 = Some s3 /\ sl_cache s3 = sl_cache s2 /\ sl_order s3 = sl_order s2).
  { intros va2 s2 E2. rewrite lookup_insert in E2. case_decide; [|eauto]. injection E2 as <-. subst. exists s. split; [assumption|]. split; congruence. }
  assert (Hsh' : forall va2 s2, st_slabs st !! va2 = Some s2 -> exists s3, <[va := s']> (st_slabs st) !! va2 = Some s3 /\ sl_order s3 = sl_order s2).
  { intros va2 s2 E2. destruct (decide (va = va2)) as [<-|]; [exists s'; rewrite lookup_insert_eq; split; congruence|exists s2; rewrite lookup_insert_ne; auto]. }
  eapply core_upd; try eassumption; simpl.
  - apply lookup_insert_eq.
  - intros va2 s2 Hne. rewrite lookup_insert. case_decide as Hva; [|reflexivity]. subst va2. split; [intros [= <-]; contradiction|congruence].
  - intros va2 s2 E2. destruct (Hsh va2 s2 E2) as (s3 & E3 & <- & _). by apply (k_owned _ _ _ K va2).
  - intros va2 s2 E2. destruct (Hsh va2 s2 E2) as (s3 & E3 & _). by apply (k_va _ _ _ K va2 s3).
  - destruct (k_pages _ _ _ K) as (L & Hi & Hn & HL). exists L. split; [assumption|]. split; [assumption|]. intros p k. rewrite HL. split.
    + intros (va2 & s2 & E2 & -> & ->). destruct (Hsh' va2 s2 E2) as (s3 & E3 & <-). eauto.
    + intros (va2 & s2 & E2 & -> & ->). destruct (Hsh va2 s2 E2) as (s3 & E3 & _ & <-). eauto.
  - intros f va2. rewrite (k_marks _ _ _ K). split.
    + intros (s2 & E2 & Hf). destruct (Hsh' va2 s2 E2) as (s3 & E3 & Ho3). exists s3. rewrite Ho3. auto.
    + intros (s2 & E2 & Hf). destruct (Hsh va2 s2 E2) as (s3 & E3 & _ & Ho3). exists s3. rewrite Ho3. auto.
Qed.

(** Only the busy lists are written differently. *)
Lemma core_perm st Bf Bf' R : core st Bf R -> (forall q, Bf q ≡ₚ Bf' q) -> core st Bf' R.
Proof.
  intros [A1 A2 A3 A4 A5 A6 A7] HB. split; try assumption. intros q Hq. destruct (A3 q Hq) as (c & E & Ci). exists c. split; [assumption|].
  eapply cinv_perm; [apply HB|assumption].
Qed.

(** Only the magazine changes. *)
Lemma core_mag st Bf R cp c m : core st Bf R -> live st cp -> st_caches st !! cp = Some c ->
  core (put_cache cp (set_mag m c) st) Bf R /\ step cp st (put_cache cp (set_mag m c) st).
Proof.
  intros K Hl Ec. destruct (k_cache _ _ _ K cp Hl) as (c0 & E0 & Ci). rewrite Ec in E0. injection E0 as <-.
  assert (Hs : step cp st (put_cache cp (set_mag m c) st)).
  { split; auto; simpl; [intros q Hq; by apply lookup_insert_ne|]. intros c0 E0. exists (set_mag m c). rewrite lookup_insert_eq.
    split; [reflexivity|]. rewrite Ec in E0. injection E0 as <-. split; reflexivity. }
  split; [|exact Hs].
  apply (core_perm _ (<[cp := Bf cp]> Bf)); [|intros q; destruct (decide (q = cp)) as [->|]; [by rewrite fn_lookup_insert|by rewrite fn_lookup_insert_ne]].
  eapply (core_upd st Bf R cp _ (set_mag m c)); try eassumption; simpl; try apply K; [apply lookup_insert_eq|by apply cinv_mag|intros va s _; reflexivity].
Qed.

(** ** Internal operations *)

Definition sound (X : option Z) st (Bf H : Z -> list Z) R : Prop := core st Bf R /\ homed X st /\ bytes_ok st H.

Definition mag_of st cp : option SlabMagazine := ca_mag <$> st_caches st !! cp.

(** The objects in the magazine, and with those that clients hold. *)
Definition active (m : SlabMagazine) : list Z := take (Z.to_nat (mg_count m)) (mg_rounds m).
Definition active_of st cp : list Z := from_option active [] (mag_of st cp).
Definition taken st (H : Z -> list Z) (cp : Z) : list Z := active_of st cp ++ H cp.

Record mag_ok (m : SlabMagazine) : Prop := {
  mo_capacity : 4 <= mg_capacity m <= SLAB_MAG_MAX_ROUNDS;
  mo_batch : mg_batch m = mg_capacity m / 2;
  mo_count : 0 <= mg_count m <= mg_capacity m;
  mo_rounds : zlen (mg_rounds m) = SLAB_MAG_MAX_ROUNDS
}.

Lemma step_back cp st st' q c' : step cp st st' -> is_Some (st_caches st !! cp) -> st_caches st' !! q = Some c' ->
  exists c, st_caches st !! q = Some c /\ static c c'.
Proof.
  intros Hs [c Hc] E. destruct (decide (q = cp)) as [->|Hne].
  - destruct (sp_cache _ _ _ Hs c Hc) as (c1 & E1 & H1). exists c. split; [assumption|]. congruence.
  - rewrite (sp_caches _ _ _ Hs) in E by assumption. exists c'. split; [assumption|reflexivity].
Qed.

Lemma bytes_at_static mem c c' s s' Hc i :
  static c c' -> sl_objBase s = sl_objBase s' ->
  (slot c s i ∈ Hc -> aget (sl_bufctl s') i = Some SLAB_BUFCTL_BUSY -> aget (sl_bufctl s) i = Some SLAB_BUFCTL_BUSY) ->
  bytes_at mem c s Hc i -> bytes_at mem c' s' Hc i.
Proof.
  intros Hst Hob Hbz [H1 H2]. assert (Hsl : slot c' s' i = slot c s i) by (unfold slot, slabSlot; rewrite (sc_layout _ _ Hst), Hob; reflexivity).
  unfold bytes_at. rewrite Hsl, (sc_layout _ _ Hst), (sc_size _ _ Hst), (sc_ctor _ _ Hst). auto.
Qed.

(** The bytes are all right as long as no slab appears, no held object is marked busy and no byte changes. *)
Lemma bytes_same st st' H :
  bytes_ok st H ->
  (forall va s', st_slabs st' !! va = Some s' -> exists s, st_slabs st !! va = Some s /\ sl_cache s = sl_cache s' /\ sl_objBase s = sl_objBase s' /\
    sl_objCount s = sl_objCount s' /\ forall c i, st_caches st !! sl_cache s = Some c -> 0 <= i < sl_objCount s -> slot c s i ∈ H (sl_cache s) ->
      aget (sl_bufctl s') i = Some SLAB_BUFCTL_BUSY -> aget (sl_bufctl s) i = Some SLAB_BUFCTL_BUSY) ->
  (forall q c', st_caches st' !! q = Some c' -> exists c, st_caches st !! q = Some c /\ static c c') ->
  st_mem st' = st_mem st -> bytes_ok st' H.
Proof.
  intros Hb Hs Hc Hm va s' c' i E Ec Hi. destruct (Hs va s' E) as (s & E0 & H1 & H2 & H3 & H4). destruct (Hc _ _ Ec) as (c & Ec0 & Hst).
  rewrite Hm, <- H1 in *. rewrite <- H3 in Hi. eapply bytes_at_static; [exact Hst|exact H2|by apply H4|by apply (Hb va)].
Qed.

Lemma bytes_slab st H cp va s s' c' :
  bytes_ok st H -> step cp st (put_slab va s' (put_cache cp c' st)) -> is_Some (st_caches st !! cp) -> st_slabs st !! va = Some s ->
  sl_cache s = sl_cache s' -> sl_objBase s = sl_objBase s' -> sl_objCount s = sl_objCount s' ->
  (forall c i, st_caches st !! sl_cache s = Some c -> 0 <= i < sl_objCount s -> slot c s i ∈ H (sl_cache s) ->
    aget (sl_bufctl s') i = Some SLAB_BUFCTL_BUSY -> aget (sl_bufctl s) i = Some SLAB_BUFCTL_BUSY) ->
  bytes_ok (put_slab va s' (put_cache cp c' st)) H.
Proof.
  intros Hb Hs Hc E H1 H2 H3 H4. eapply bytes_same; [exact Hb| | |reflexivity].
  - intros va2 s2 E2. simpl in E2. rewrite lookup_insert in E2. case_decide; [|exists s2; auto]. injection E2 as <-. subst. exists s. auto.
  - intros q c2 E2. by eapply step_back.
Qed.

(** The number of slabs is far from the limits of the counters. *)
Lemma list_bound st Bf R cp c k : core st Bf R -> live st cp -> st_caches st !! cp = Some c -> zlen (clist k c) <= 2 ^ 34.
Proof.
  intros K Hl Ec. destruct (k_cache _ _ _ K cp Hl) as (c0 & E0 & Ci). rewrite Ec in E0. injection E0 as <-.
  assert (Hr : forall va, va ∈ clist k c -> 0 <= frame_of va < 2 ^ 34 /\ va = hhdmBase + 4096 * frame_of va).
  { intros va Hva. apply (ci_list _ _ _ _ Ci) in Hva as (s & E & _ & _). destruct (slab_range _ _ _ _ _ K E) as (? & ? & ? & ?).
    pose proof (Z.pow_pos_nonneg 2 (sl_order s)). lia. }
  assert (Hsub : (frame_of <$> clist k c) ⊆+ seqZ 0 (2 ^ 34)).
  { apply NoDup_submseteq.
    - apply NoDup_fmap_2_strong; [|apply (ci_nodup _ _ _ _ Ci)]. intros x y Hx Hy Heq. destruct (Hr x Hx), (Hr y Hy). lia.
    - intros f Hf. apply list_elem_of_fmap in Hf as (va & -> & Hva). apply elem_of_seqZ. destruct (Hr va Hva). lia. }
  apply submseteq_length in Hsub. rewrite length_fmap, length_seqZ in Hsub. unfold zlen. lia.
Qed.

Lemma want_some s : want s <> SLAB_LIST_NONE.
Proof. unfold want. destruct (_ =? 0); [discriminate|]. destruct (_ =? _); discriminate. Qed.

Lemma rehome_spec cp va st Bf H R s :
  sound (Some va) st Bf H R -> live st cp -> st_slabs st !! va = Some s -> sl_cache s = cp ->
  exists st', slabRehomeLocked cp va st = Done st' /\ sound None st' Bf H R /\ step cp st st' /\ mag_of st' cp = mag_of st cp.
Proof.
  intros (K & Hh & Hb) Hl E Hc. destruct (k_cache _ _ _ K cp Hl) as (c & Ec & Ci). unfold slabRehomeLocked, get_cache, get_slab.
  rewrite Ec, E. cbn [need mbind res_bind]. destruct (decide (sl_list s = want s)) as [Hw|Hw].
  { exists st. split_and!; [reflexivity| |reflexivity|reflexivity]. split; [assumption|]. split; [|assumption].
    intros va2 s2 E2 _. destruct (decide (va2 = va)) as [->|]; [congruence|]. apply (Hh va2 s2 E2). congruence. }
  cbv zeta. set (c' := if decide (want s = SLAB_LIST_EMPTY) then _ else _).
  pose proof (list_bound _ _ _ _ _ SLAB_LIST_EMPTY K Hl Ec) as Hbd. simpl in Hbd. pose proof (zlen_nonneg (ca_empty c)) as Hnn.
  assert (Hin : sl_list s = SLAB_LIST_EMPTY -> 1 <= ca_emptySlabCount c).
  { intros He. rewrite (ci_empty _ _ _ _ Ci). apply (slab_listed _ _ _ _ _ _ _ Ci E Hc) in He. simpl in He.
    destruct (ca_empty c); [by apply not_elem_of_nil in He|]. rewrite zlen_cons. pose proof (zlen_nonneg l). lia. }
  assert (Hmv : moved c va (sl_list s) (want s) c').
  { pose proof (want_some s) as Hws. pose proof (ci_empty _ _ _ _ Ci) as Hce. unfold c', moved. split; [|split; [|split]].
    - destruct (decide (sl_list s = SLAB_LIST_EMPTY)), (want s); split; reflexivity.
    - destruct (decide (sl_list s = SLAB_LIST_EMPTY)), (want s); reflexivity.
    - intros j. destruct (decide (sl_list s = SLAB_LIST_EMPTY)), (decide (want s = SLAB_LIST_EMPTY));
        rewrite ?clist_counts, clist_push, clist_remove, ?clist_counts by assumption; reflexivity.
    - rewrite Hce in *. destruct (decide (sl_list s = SLAB_LIST_EMPTY)) as [He|He]; [specialize (Hin He)|]; destruct (want s); try contradiction; simpl;
        rewrite ?Hce; (split; [reflexivity|]); try rewrite (u64_small (zlen (ca_empty c) - 1)) by (words; lia); try rewrite u64_small by (words; lia); lia. }
  assert (Hst : static c c') by apply Hmv.
  destruct (core_slab st Bf R cp c c' va s (set_list (want s) s) (Bf cp) K Hl Ec Hst E Hc Hc eq_refl) as [K' Hs].
  { eapply cinv_move; try eassumption; [apply want_some|auto]. }
  exists (put_slab va (set_list (want s) s) (put_cache cp c' st)). split; [reflexivity|]. split; [|split; [exact Hs|]].
  - split; [|split].
    + apply (core_perm _ _ _ _ K'). intros q. destruct (decide (q = cp)) as [->|]; [by rewrite fn_lookup_insert|by rewrite fn_lookup_insert_ne].
    + intros va2 s2 E2 _. simpl in E2. rewrite lookup_insert in E2. case_decide as Hva; [injection E2 as <-; reflexivity|]. apply (Hh va2 s2 E2). congruence.
    + eapply bytes_slab; try eassumption; eauto.
  - unfold mag_of. simpl. rewrite lookup_insert_eq, Ec. simpl. f_equal. apply Hmv.
Qed.

(** ** Pointers *)

(** An object of some slab, free or not. *)
Definition object st (cp va i a : Z) : Prop :=
  exists s c, st_slabs st !! va = Some s /\ sl_cache s = cp /\ st_caches st !! cp = Some c /\ 0 <= i < sl_objCount s /\ a = slot c s i.

Definition in_slab st (va a : Z) : Prop := exists s, st_slabs st !! va = Some s /\ va <= a < va + 4096 * 2 ^ sl_order s.

Lemma slab_cache st Bf R va s : core st Bf R -> st_slabs st !! va = Some s ->
  exists c, st_caches st !! sl_cache s = Some c /\ live st (sl_cache s) /\ cinv (sl_cache s) c (st_slabs st) (Bf (sl_cache s)) /\ fit c /\ slab_ok c va s.
Proof.
  intros K E. pose proof (k_owned _ _ _ K va s E) as Hl. destruct (k_cache _ _ _ K _ Hl) as (c & Ec & Ci). exists c.
  split_and!; [assumption..|apply Ci|by apply (ci_slab _ _ _ _ Ci)].
Qed.

Lemma object_in_slab st Bf R cp va i a : core st Bf R -> object st cp va i a ->
  in_slab st va a /\ hhdmBase < a < hhdmBase + BOOTINFO_HHDM_SIZE.
Proof.
  intros K (s & c & E & Hc & Ec & Hi & ->). subst cp. destruct (slab_cache _ _ _ _ _ K E) as (c0 & E0 & _ & _ & F & O). rewrite Ec in E0. injection E0 as <-.
  destruct (slot_extent _ _ _ _ _ _ _ K E F O Hi) as (H1 & H2 & H3 & H4 & H5). pose proof (fit_bounds c F) as (? & ? & ? & ? & ? & _). pose proof (ft_size _ F).
  split; [exists s; split; [assumption|]; lia|lia].
Qed.

(** The verdict on a pointer, and what it means. *)
Definition verdict st (a : Z) (bug : SlabBugKind) : Prop :=
  (bug = SLAB_BUG_VMALLOC_POINTER /\ VM_KVA_BASE <= a < VM_KVA_END) \/
  (bug = SLAB_BUG_BAD_POINTER /\ ~ (VM_KVA_BASE <= a < VM_KVA_END) /\ ~ (hhdmBase <= a < hhdmBase + BOOTINFO_HHDM_SIZE)) \/
  (bug = SLAB_BUG_NOT_SLAB /\ hhdmBase <= a < hhdmBase + BOOTINFO_HHDM_SIZE /\ forall va, ~ in_slab st va a) \/
  (bug = SLAB_BUG_MISALIGNED /\ (exists va, in_slab st va a) /\ forall cp va i, ~ object st cp va i a).

Lemma mark_in_slab st Bf R va s a : core st Bf R -> st_slabs st !! va = Some s -> hhdmBase <= a ->
  va <= a < va + 4096 * 2 ^ sl_order s <-> frame_of va <= (a - hhdmBase) / 4096 < frame_of va + 2 ^ sl_order s.
Proof. clear G. intros K E Ha. destruct (slab_range _ _ _ _ _ K E) as (? & ? & ? & ?). dlia. Qed.

(** The header part of slabResolvePointer, for an address inside a slab. *)
Lemma resolve_index st Bf R va s c a : core st Bf R -> st_slabs st !! va = Some s -> st_caches st !! sl_cache s = Some c ->
  va <= a < va + 4096 * 2 ^ sl_order s ->
  ((a < sl_objBase s \/ (sl_objBase s <= a /\ slabIndexForOffset (ca_layout c) (a - sl_objBase s) = -1)) /\ verdict st a SLAB_BUG_MISALIGNED) \/
  (sl_objBase s <= a /\ 0 <= slabIndexForOffset (ca_layout c) (a - sl_objBase s) /\
   object st (sl_cache s) va (slabIndexForOffset (ca_layout c) (a - sl_objBase s)) a).
Proof.
  intros K E Ec Hin. destruct (slab_cache _ _ _ _ _ K E) as (c0 & E0 & _ & _ & F & O). rewrite Ec in E0. injection E0 as <-.
  assert (Hno : (forall j, 0 <= j < sl_objCount s -> a <> slot c s j) -> verdict st a SLAB_BUG_MISALIGNED).
  { intros Hno. right. right. right. split; [reflexivity|]. split; [exists va, s; auto|]. intros cp va2 i Hob.
    pose proof (object_in_slab _ _ _ _ _ _ _ K Hob) as [(s2 & E2 & Hin2) _]. destruct (decide (va2 = va)) as [->|Hne].
    - destruct Hob as (s3 & c3 & E3 & <- & Ec3 & Hi3 & Ha3). assert (s3 = s) as -> by congruence. assert (c3 = c) as -> by congruence. by apply (Hno i).
    - destruct (slabs_apart _ _ _ _ _ _ _ K E2 E Hne); lia. }
  pose proof (fit_bounds c F) as (B1 & B2 & B3 & B4 & B5 & B6 & B7). pose proof (fun i => slot_extent _ _ _ _ _ _ i K E F O) as Hx.
  destruct (Z.lt_ge_cases a (sl_objBase s)) as [Hlt|Hge].
  { left. split; [auto|]. apply Hno. intros j Hj. destruct (Hx j Hj) as (X1 & _). nia. }
  destruct (index_slot (ca_layout c) (a - sl_objBase s)) as [[Hm Hn]|[Hr Ho]]; [lia|lia| |].
  - left. split; [auto|]. apply Hno. intros j Hj. destruct (Hx j Hj) as (X1 & _). rewrite (so_count _ _ _ O) in Hj. specialize (Hn j Hj). lia.
  - right. split; [assumption|]. split; [lia|]. exists s, c. rewrite (so_count _ _ _ O). split_and!; auto; try lia.
    destruct (Hx (slabIndexForOffset (ca_layout c) (a - sl_objBase s))) as (-> & _); [rewrite (so_count _ _ _ O); assumption|lia].
Qed.

Lemma resolve_spec st Bf R a : core st Bf R -> is_u64 a ->
  (exists bug, slabResolvePointer a st = Done (inl bug) /\ verdict st a bug) \/
  (exists cp va i, slabResolvePointer a st = Done (inr (va, i)) /\ object st cp va i a).
Proof.
  clear G. intros K Ha. unfold slabResolvePointer. destruct ((VM_KVA_BASE <=? a) && (a <? VM_KVA_END)) eqn:Ek.
  { bprop. left. eexists. split; [reflexivity|]. left. auto. }
  assert (Hnk : ~ (VM_KVA_BASE <= a < VM_KVA_END)) by (apply andb_false_iff in Ek as [Ek|Ek]; bprop; lia). clear Ek.
  destruct ((a <? hhdmBase) || (BOOTINFO_HHDM_SIZE <=? a -! hhdmBase)) eqn:Eh.
  { left. eexists. split; [reflexivity|]. right. left. split; [reflexivity|]. split; [assumption|]. unfold BOOTINFO_HHDM_SIZE in *.
    apply orb_true_iff in Eh as [Eh|Eh]; bprop; [lia|]. destruct (Z.lt_ge_cases a hhdmBase); [lia|]. rewrite u64_small in Eh by (words; lia). lia. }
  bprop. rewrite u64_small in * by (words; lia). cbv zeta.
  destruct (k_pages _ _ _ K) as (L & Hi & _ & HL). destruct (pa_pages _ _ (a - hhdmBase) Hi) as (page & -> & Hpg).
  cbn [need mbind res_bind]. rewrite Z.shiftr_div_pow2 by lia. change (2 ^ 12) with 4096.
  destruct (st_owner st !! ((a - hhdmBase) / 4096)) as [va|] eqn:Eo.
  2: { left. exists SLAB_BUG_NOT_SLAB. split; [by destruct page|]. right. right. left. split; [reflexivity|]. split; [lia|].
       intros va (s & E & Hin). apply (mark_in_slab _ _ _ _ _ a K E ltac:(lia)) in Hin.
       assert (Ht : st_owner st !! ((a - hhdmBase) / 4096) = Some va) by (apply (k_marks _ _ _ K); eauto). congruence. }
  apply (k_marks _ _ _ K) in Eo as (s & E & Hin).
  assert (page = true) as -> by (apply Hpg; exists (frame_of va), (sl_order s); split; [apply elem_of_app; left; apply HL; eauto|exact Hin]).
  apply (mark_in_slab _ _ _ _ _ a K E ltac:(lia)) in Hin. destruct (slab_range _ _ _ _ _ K E) as (R1 & R2 & R3 & R4).
  destruct (Z.eqb_spec va 0); [lia|]. unfold get_slab, get_cache. rewrite E. cbn [need mbind res_bind].
  destruct (slab_cache _ _ _ _ _ K E) as (c & Ec & _ & _ & F & O). rewrite (so_magic _ _ _ O), Z.eqb_refl. cbn [negb].
  pose proof (fit_bounds c F) as (_ & _ & B3 & B4 & _ & B6 & _). pose proof (so_base _ _ _ O) as Hob. unfold sizeof_Slab in B6.
  destruct (resolve_index _ _ _ _ _ _ _ K E Ec Hin) as [[Hbad Hv]|(Hge & Hidx & Hobj)].
  - left. exists SLAB_BUG_MISALIGNED. split; [|exact Hv]. destruct Hbad as [Hlt|[Hge Hm]].
    + by rewrite (proj2 (Z.ltb_lt _ _) Hlt).
    + rewrite (proj2 (Z.ltb_ge _ _) Hge), Ec. cbn [need mbind res_bind]. rewrite (u64_small (a - sl_objBase s)) by (words; lia). by rewrite Hm.
  - right. exists (sl_cache s), va, (slabIndexForOffset (ca_layout c) (a - sl_objBase s)). split; [|exact Hobj].
    rewrite (proj2 (Z.ltb_ge _ _) Hge), Ec. cbn [need mbind res_bind]. rewrite (u64_small (a - sl_objBase s)) by (words; lia). by rewrite (proj2 (Z.ltb_ge _ _) Hidx).
Qed.

Lemma object_unique st Bf R cp va i cp' va' i' a :
  core st Bf R -> object st cp va i a -> object st cp' va' i' a -> cp = cp' /\ va = va' /\ i = i'.
Proof.
  intros K (s & c & E & <- & Ec & Hi & ->) (s' & c' & E' & <- & Ec' & Hi' & Heq).
  destruct (slab_cache _ _ _ _ _ K E) as (c0 & E0 & _ & _ & F & O). rewrite Ec in E0. injection E0 as <-.
  destruct (slab_cache _ _ _ _ _ K E') as (c1 & E1 & _ & _ & F' & O'). rewrite Ec' in E1. injection E1 as <-.
  destruct (slot_inj _ _ _ _ _ _ _ _ _ _ _ K E F O Hi E' F' O' Hi') as [Hva Hii]; [intros Hva; subst va'; congruence|assumption|].
  subst va' i'. split; [congruence|auto].
Qed.

Lemma resolve_object st Bf R cp va i a : core st Bf R -> object st cp va i a -> slabResolvePointer a st = Done (inr (va, i)).
Proof.
  intros K Hob. pose proof (object_in_slab _ _ _ _ _ _ _ K Hob) as [Hin Hr].
  assert (is_u64 a) as Ha by (unfold BOOTINFO_HHDM_SIZE, VM_KVA_BASE in *; words; lia).
  destruct (resolve_spec st Bf R a K Ha) as [(bug & _ & Hv)|(cp' & va' & i' & -> & Hob')].
  - exfalso. destruct Hv as [[_ Hv]|[(_ & _ & Hv)|[(_ & _ & Hv)|(_ & _ & Hv)]]]; [lia|lia| |]; by eapply Hv.
  - destruct (object_unique _ _ _ _ _ _ _ _ _ _ K Hob Hob') as (_ & -> & ->). reflexivity.
Qed.

(** ** Returning objects *)

Lemma put_cache_id cp c st : st_caches st !! cp = Some c -> put_cache cp c st = st.
Proof. intros E. destruct st. unfold put_cache, with_caches. simpl in *. by rewrite insert_id. Qed.

Lemma fn_insert_id (Bf : Z -> list Z) cp B : Bf cp ≡ₚ B -> forall q, Bf q ≡ₚ (<[cp := B]> Bf) q.
Proof. intros HB q. destruct (decide (q = cp)) as [->|]; [by rewrite fn_lookup_insert|by rewrite fn_lookup_insert_ne]. Qed.

Lemma fn_insert_twice (Bf : Z -> list Z) cp B B' q : <[cp := B']> (<[cp := B]> Bf) q = <[cp := B']> Bf q.
Proof. destruct (decide (q = cp)) as [->|]; [by rewrite !fn_lookup_insert|by rewrite !fn_lookup_insert_ne]. Qed.

Lemma sound_perm X st Bf Bf' H R : sound X st Bf H R -> (forall q, Bf q ≡ₚ Bf' q) -> sound X st Bf' H R.
Proof. intros (K & Hh & Hb) HB. split; [by eapply core_perm|auto]. Qed.

Lemma taken_object st Bf R cp a : core st Bf R -> live st cp -> a ∈ Bf cp ->
  exists va s c i, st_slabs st !! va = Some s /\ sl_cache s = cp /\ st_caches st !! cp = Some c /\ cinv cp c (st_slabs st) (Bf cp) /\
    0 <= i < sl_objCount s /\ a = slot c s i /\ aget (sl_bufctl s) i = Some SLAB_BUFCTL_BUSY /\ object st cp va i a.
Proof.
  intros K Hl Ha. destruct (k_cache _ _ _ K cp Hl) as (c & Ec & Ci). pose proof Ha as Hbz. apply (ci_busy _ _ _ _ Ci) in Hbz as (va & s & i & E & Hc & Hi & -> & Hb).
  exists va, s, c, i. split_and!; auto; try lia. exists s, c. auto.
Qed.

Lemma push_object_spec cp a st Bf H R B' :
  sound None st Bf H R -> live st cp -> Bf cp ≡ₚ a :: B' ->
  exists st', slabPushObjectLocked cp a st = Done st' /\ sound None st' (<[cp := B']> Bf) H R /\ step cp st st' /\ mag_of st' cp = mag_of st cp.
Proof.
  intros (K & Hh & Hb) Hl HB. destruct (taken_object st Bf R cp a K Hl) as (va & s & c & i & E & Hc & Ec & Ci & Hi & -> & Hbz & Hob); [rewrite HB; apply list_elem_of_here|].
  unfold slabPushObjectLocked. rewrite (resolve_object _ _ _ _ _ _ _ K Hob). cbn [mbind res_bind]. unfold get_slab. rewrite E. cbn [need mbind res_bind].
  rewrite (proj2 (Z.eqb_eq _ _) Hc). cbn [negb]. destruct (ci_slab _ _ _ _ Ci va s E Hc) as [_ _ _ _ (fl & Hfl)].
  assert (Hni : i ∉ fl) by (apply (fl_busy _ _ Hfl i Hi); assumption). pose proof (fl_range _ _ Hfl). unfold SLAB_MAX_OBJECTS in *.
  rewrite u16_small by (words; lia). destruct (push_spec s i fl Hfl Hi Hni) as (s' & Ep & Hfl' & Hs'). rewrite Ep. cbn [need mbind res_bind].
  assert (Ci' : cinv cp c (<[va := s']> (st_slabs st)) B').
  { eapply cinv_push; [eapply cinv_perm; [exact HB|exact Ci]|exact E|exact Hc|exact Hfl|exact Ep|exact Hi|exact Hni|].
    intros va2 s2 j E2 H2 Hj Heq. destruct (object_unique st Bf R cp va2 j cp va i (slot c s i) K) as (_ & ? & ?); [exists s2, c; auto|exact Hob|auto]. }
  assert (Hcs : sl_cache s' = cp) by (rewrite Hs'; exact Hc).
  destruct (core_slab st Bf R cp c c va s s' B' K Hl Ec ltac:(reflexivity) E Hc Hcs ltac:(rewrite Hs'; reflexivity) Ci') as [K' Hst].
  assert (Hb' : bytes_ok (put_slab va s' (put_cache cp c st)) H).
  { eapply bytes_slab; try eassumption; eauto; try (rewrite Hs'; reflexivity). intros c2 j _ Hj _ Hbj.
    apply (fl_busy _ _ Hfl' j ltac:(rewrite Hs'; exact Hj)) in Hbj. apply (fl_busy _ _ Hfl j Hj). set_solver. }
  rewrite (put_cache_id cp c st Ec) in K', Hst, Hb'.
  destruct (rehome_spec cp va (put_slab va s' st) (<[cp := B']> Bf) H R s') as (st' & Er & Hso & Hst' & Hm).
  - split; [assumption|]. split; [|assumption]. intros va2 s2 E2 Hne. simpl in E2. rewrite lookup_insert_ne in E2 by congruence. by apply (Hh va2 s2 E2).
  - by apply (live_inUse st).
  - apply lookup_insert_eq.
  - assumption.
  - exists st'. split; [exact Er|]. split; [exact Hso|]. split; [by etransitivity|exact Hm].
Qed.

Lemma flush_rounds_spec cp H R n : forall i st Bf B' m,
  sound None st Bf H R -> live st cp -> mag_of st cp = Some m -> 0 <= i -> i + Z.of_nat n <= zlen (mg_rounds m) ->
  Bf cp ≡ₚ take n (drop (Z.to_nat i) (mg_rounds m)) ++ B' ->
  exists st', flush_rounds n i cp st = Done st' /\ sound None st' (<[cp := B']> Bf) H R /\ step cp st st' /\ mag_of st' cp = mag_of st cp.
Proof.
  induction n as [|n IH]; intros i st Bf B' m Hso Hl Hm Hi Hn HB; cbn [flush_rounds].
  { exists st. split; [reflexivity|]. split; [|split; reflexivity]. eapply sound_perm; [exact Hso|]. apply fn_insert_id. by rewrite HB. }
  unfold mag_of in Hm. destruct (st_caches st !! cp) as [c|] eqn:Ec; [|discriminate]. injection Hm as Hm.
  unfold get_cache. rewrite Ec. cbn [need mbind res_bind]. rewrite Hm. destruct (aget_Some (mg_rounds m) i) as (a & Ha & Hla); [lia|].
  rewrite Ha. cbn [need mbind res_bind]. rewrite (drop_S _ _ _ Hla) in HB. cbn [take app] in HB.
  destruct (push_object_spec cp a st Bf H R _ Hso Hl HB) as (st1 & -> & Hso1 & Hst1 & Hm1). cbn [mbind res_bind].
  destruct (IH (i + 1) st1 (<[cp := take n (drop (S (Z.to_nat i)) (mg_rounds m)) ++ B']> Bf) B' m) as (st' & E' & Hso' & Hst' & Hm'); [exact Hso1| | |lia|lia| |].
  - by apply (step_live cp st).
  - rewrite Hm1. unfold mag_of. rewrite Ec. simpl. by rewrite Hm.
  - rewrite fn_lookup_insert. replace (Z.to_nat (i + 1)) with (S (Z.to_nat i)) by lia. reflexivity.
  - exists st'. split; [exact E'|]. split; [|split; [by etransitivity|congruence]]. eapply sound_perm; [exact Hso'|]. intros q. by rewrite fn_insert_twice.
Qed.

Lemma sound_mag X st Bf H R cp c m : sound X st Bf H R -> live st cp -> st_caches st !! cp = Some c ->
  sound X (put_cache cp (set_mag m c) st) Bf H R /\ step cp st (put_cache cp (set_mag m c) st) /\ mag_of (put_cache cp (set_mag m c) st) cp = Some m.
Proof.
  intros (K & Hh & Hb) Hl Ec. destruct (core_mag st Bf R cp c m K Hl Ec) as [K' Hst]. split; [|split; [exact Hst|]].
  - split; [assumption|]. split; [exact Hh|]. eapply bytes_same; [exact Hb|simpl; intros va2 s2 E2; exists s2; auto|intros q c' E'; eapply step_back; eauto|reflexivity].
  - unfold mag_of. simpl. by rewrite lookup_insert_eq.
Qed.

Lemma mag_cache st cp m : mag_of st cp = Some m -> exists c, st_caches st !! cp = Some c /\ ca_mag c = m.
Proof. unfold mag_of. destruct (st_caches st !! cp) as [c|]; [|discriminate]. intros [= <-]. eauto. Qed.

Lemma get_cache_ok cp st c : st_caches st !! cp = Some c -> get_cache cp st = Done c.
Proof. intros E. unfold get_cache. by rewrite E. Qed.

Lemma get_slab_ok va st s : st_slabs st !! va = Some s -> get_slab va st = Done s.
Proof. intros E. unfold get_slab. by rewrite E. Qed.

Lemma drop_insert (l : list Z) i j v : (i < j)%nat -> drop j (<[i := v]> l) = drop j l.
Proof.
  intros Hi. apply list_eq. intros k. rewrite !lookup_drop. apply list_lookup_insert_ne. lia.
Qed.

Definition with_rounds (r : list Z) (m : SlabMagazine) : SlabMagazine := mkMag (mg_count m) (mg_capacity m) (mg_batch m) (mg_allocated m) r.

Lemma flush_clear_spec cp H R n : forall i st Bf B' m,
  sound None st Bf H R -> live st cp -> mag_of st cp = Some m -> 0 <= i -> i + Z.of_nat n <= zlen (mg_rounds m) ->
  Bf cp ≡ₚ take n (drop (Z.to_nat i) (mg_rounds m)) ++ B' ->
  exists st' r, flush_clear n i cp st = Done st' /\ sound None st' (<[cp := B']> Bf) H R /\ step cp st st' /\
    mag_of st' cp = Some (with_rounds r m) /\ zlen r = zlen (mg_rounds m) /\ drop (Z.to_nat i + n) r = drop (Z.to_nat i + n) (mg_rounds m).
Proof.
  induction n as [|n IH]; intros i st Bf B' m Hso Hl Hm Hi Hn HB; cbn [flush_clear].
  { exists st, (mg_rounds m). split; [reflexivity|]. split; [eapply sound_perm; [exact Hso|apply fn_insert_id; by rewrite HB]|].
    split; [reflexivity|]. split; [rewrite Hm; by destruct m|auto]. }
  destruct (mag_cache _ _ _ Hm) as (c & Ec & Hcm). rewrite (get_cache_ok _ _ _ Ec). cbn [mbind res_bind]. rewrite Hcm.
  destruct (aget_Some (mg_rounds m) i) as (a & Ha & Hla); [lia|]. rewrite Ha. cbn [need mbind res_bind].
  rewrite (drop_S _ _ _ Hla) in HB. cbn [take app] in HB.
  destruct (push_object_spec cp a st Bf H R _ Hso Hl HB) as (st1 & -> & Hso1 & Hst1 & Hm1). cbn [mbind res_bind]. rewrite Hm in Hm1.
  destruct (mag_cache _ _ _ Hm1) as (c1 & Ec1 & Hcm1). rewrite (get_cache_ok _ _ _ Ec1). cbn [mbind res_bind]. cbv zeta. rewrite Hcm1.
  rewrite aset_Some by lia. cbn [need mbind res_bind].
  assert (Hl1 : live st1 cp) by (by apply (step_live cp st)).
  set (r1 := <[Z.to_nat i := 0]> (mg_rounds m)). fold (with_rounds r1 m).
  destruct (sound_mag None st1 _ H R cp c1 (with_rounds r1 m) Hso1 Hl1 Ec1) as (Hso2 & Hst2 & Hm2).
  assert (Hz : zlen r1 = zlen (mg_rounds m)) by apply zlen_insert.
  destruct (IH (i + 1) (put_cache cp (set_mag (with_rounds r1 m) c1) st1) (<[cp := take n (drop (S (Z.to_nat i)) (mg_rounds m)) ++ B']> Bf) B' (with_rounds r1 m))
    as (st' & r & E' & Hso' & Hst' & Hm' & Hz' & Hd'); [exact Hso2| |exact Hm2|lia|simpl; lia| |].
  - by apply (step_live cp st1).
  - rewrite fn_lookup_insert. replace (Z.to_nat (i + 1)) with (S (Z.to_nat i)) by lia. simpl. unfold r1. rewrite drop_insert by lia. reflexivity.
  - exists st', r. split; [exact E'|]. split; [eapply sound_perm; [exact Hso'|intros q; by rewrite fn_insert_twice]|].
    split; [by etransitivity; [|etransitivity]|]. split; [exact Hm'|]. split; [simpl in Hz'; lia|].
    replace (Z.to_nat i + S n)%nat with (Z.to_nat (i + 1) + n)%nat by lia. rewrite Hd'. simpl. unfold r1. apply drop_insert. lia.
Qed.

(** The move of the rounds down by the batch. *)
Lemma shift_rounds_spec n : forall i d r,
  0 < d <= i -> i + Z.of_nat n <= zlen r ->
  exists r', shift_rounds n i d r = Some r' /\ zlen r' = zlen r /\
    take (Z.to_nat (i - d) + n) r' = take (Z.to_nat (i - d)) r ++ take n (drop (Z.to_nat i) r).
Proof.
  induction n as [|n IH]; intros i d r Hd Hn; cbn [shift_rounds].
  { exists r. split_and!; [reflexivity..|]. rewrite Nat.add_0_r. simpl. by rewrite app_nil_r. }
  destruct (aget_Some r i) as (a & Ha & Hla); [lia|]. rewrite Ha. cbn [mbind option_bind]. rewrite aset_Some by lia. cbn [mbind option_bind].
  destruct (IH (i + 1) d (<[Z.to_nat (i - d) := a]> r)) as (r' & -> & Hz & Ht); [lia|rewrite zlen_insert; lia|].
  exists r'. split; [reflexivity|]. split; [by rewrite Hz, zlen_insert|].
  replace (Z.to_nat (i + 1 - d)) with (S (Z.to_nat (i - d))) in Ht by lia. replace (Z.to_nat (i + 1)) with (S (Z.to_nat i)) in Ht by lia.
  replace (Z.to_nat (i - d) + S n)%nat with (S (Z.to_nat (i - d)) + n)%nat by lia. rewrite Ht, (drop_S _ _ _ Hla), drop_insert by lia. cbn [take].
  rewrite (take_S_r _ _ a) by (apply list_lookup_insert_eq; unfold zlen in *; lia). rewrite take_insert_ge by lia. by rewrite <- app_assoc.
Qed.

(** ** Slabs that come and go *)

Lemma cinv_remove cp c M B va s :
  cinv cp c M B -> M !! va = Some s -> sl_cache s = cp -> sl_list s = SLAB_LIST_EMPTY -> zlen (ca_empty c) <= 2 ^ 34 ->
  zlen (ca_partial c) + zlen (ca_full c) <= 2 ^ 35 ->
  (forall i, 0 <= i < sl_objCount s -> aget (sl_bufctl s) i <> Some SLAB_BUFCTL_BUSY) ->
  let c' := list_remove va c in
  cinv cp (set_counts (ca_slabCount c' -! 1) (ca_emptySlabCount c' -! 1) c') (delete va M) B.
Proof.
  intros Ci E Hc Hk Hb1 Hb2 Hfree c'. assert (Hst : static c (set_counts (ca_slabCount c' -! 1) (ca_emptySlabCount c' -! 1) c')) by (split; reflexivity).
  assert (Hz : forall k, zlen (clist k c') = zlen (clist k c) - (if decide (k = SLAB_LIST_EMPTY) then 1 else 0)).
  { intros k. unfold c'. rewrite clist_remove, (zlen_remove _ _ (ci_nodup _ _ _ _ Ci k)). f_equal. apply decide_ext.
    rewrite (slab_listed _ _ _ _ _ _ _ Ci E Hc), Hk. split; auto. }
  pose proof (Hz SLAB_LIST_PARTIAL) as Z1. pose proof (Hz SLAB_LIST_FULL) as Z2. pose proof (Hz SLAB_LIST_EMPTY) as Z3. simpl in Z1, Z2, Z3.
  pose proof (zlen_nonneg (filter (fun x => x <> va) (ca_empty c))). pose proof (zlen_nonneg (ca_partial c)). pose proof (zlen_nonneg (ca_full c)).
  split.
  - apply (fit_static c); [assumption|apply (ci_fit _ _ _ _ Ci)].
  - apply (ci_magic _ _ _ _ Ci).
  - intros va2 s2 E2 H2. apply lookup_delete_Some in E2 as [_ E2]. apply (slab_ok_static c); [assumption|]. by apply (ci_slab _ _ _ _ Ci).
  - intros k va2. rewrite clist_counts. unfold c'. rewrite clist_remove, list_elem_of_filter, (ci_list _ _ _ _ Ci). split.
    + intros (Hne & s2 & E2 & H2). exists s2. rewrite lookup_delete_ne by auto. auto.
    + intros (s2 & E2 & H2). apply lookup_delete_Some in E2 as [Hne E2]. split; [auto|eauto].
  - intros k. rewrite clist_counts. unfold c'. rewrite clist_remove. apply NoDup_filter, (ci_nodup _ _ _ _ Ci).
  - simpl. rewrite (ci_slabs _ _ _ _ Ci), Z1, Z2, Z3, u64_small by (words; lia). lia.
  - simpl. rewrite (ci_empty _ _ _ _ Ci), Z3, u64_small by (words; lia). lia.
  - apply (ci_once _ _ _ _ Ci).
  - intros a. rewrite (ci_busy _ _ _ _ Ci a), (busy_static _ _ _ _ _ Hst). unfold busy. split.
    + intros (va2 & s2 & i & E2 & H2 & Hi & Ha & Hb). exists va2, s2, i. rewrite lookup_delete_ne; [auto|]. intros <-.
      assert (s2 = s) as -> by congruence. by apply (Hfree i).
    + intros (va2 & s2 & i & E2 & H2). apply lookup_delete_Some in E2 as [_ E2]. exists va2, s2, i. auto.
Qed.

Lemma cinv_add cp c M B va s :
  cinv cp c M B -> M !! va = None -> sl_cache s = cp -> slab_ok c va s -> sl_list s = SLAB_LIST_EMPTY -> zlen (ca_empty c) <= 2 ^ 34 ->
  zlen (ca_partial c) + zlen (ca_full c) <= 2 ^ 35 ->
  (forall i, 0 <= i < sl_objCount s -> aget (sl_bufctl s) i <> Some SLAB_BUFCTL_BUSY) ->
  let c' := list_push SLAB_LIST_EMPTY va c in
  cinv cp (set_counts (ca_slabCount c' +! 1) (ca_emptySlabCount c' +! 1) c') (<[va := s]> M) B.
Proof.
  intros Ci E Hc Hok Hk Hb1 Hb2 Hfree c'. assert (Hst : static c (set_counts (ca_slabCount c' +! 1) (ca_emptySlabCount c' +! 1) c')) by (split; reflexivity).
  pose proof (zlen_nonneg (ca_empty c)). pose proof (zlen_nonneg (ca_partial c)). pose proof (zlen_nonneg (ca_full c)).
  assert (Hnew : forall k, va ∉ clist k c) by (intros k Hin; apply (ci_list _ _ _ _ Ci) in Hin as (s2 & E2 & _); congruence).
  split.
  - apply (fit_static c); [assumption|apply (ci_fit _ _ _ _ Ci)].
  - apply (ci_magic _ _ _ _ Ci).
  - intros va2 s2 E2 H2. apply (slab_ok_static c); [assumption|]. rewrite lookup_insert in E2. case_decide; [|by apply (ci_slab _ _ _ _ Ci)].
    injection E2 as <-. by subst va2.
  - intros k va2. rewrite clist_counts. unfold c'. rewrite clist_push by discriminate. destruct (decide (va2 = va)) as [->|Hne].
    + transitivity (k = SLAB_LIST_EMPTY).
      { specialize (Hnew k). destruct (decide (k = SLAB_LIST_EMPTY)); rewrite ?elem_of_cons; tauto. }
      split; [intros ->; exists s; rewrite lookup_insert_eq; auto|]. intros (s2 & E2 & _ & <-). rewrite lookup_insert_eq in E2. injection E2 as <-. assumption.
    + transitivity (va2 ∈ clist k c). { destruct (decide (k = SLAB_LIST_EMPTY)); rewrite ?elem_of_cons; tauto. }
      rewrite (ci_list _ _ _ _ Ci), lookup_insert_ne by auto. reflexivity.
  - intros k. rewrite clist_counts. unfold c'. rewrite clist_push by discriminate. pose proof (ci_nodup _ _ _ _ Ci k). destruct (decide _); [by constructor|assumption].
  - simpl. rewrite (ci_slabs _ _ _ _ Ci), zlen_cons, u64_small by (words; lia). lia.
  - simpl. rewrite (ci_empty _ _ _ _ Ci), zlen_cons, u64_small by (words; lia). lia.
  - apply (ci_once _ _ _ _ Ci).
  - intros a. rewrite (ci_busy _ _ _ _ Ci a), (busy_static _ _ _ _ _ Hst). unfold busy. split.
    + intros (va2 & s2 & i & E2 & H2 & Hi & Ha & Hb). exists va2, s2, i. rewrite lookup_insert_ne; [auto|]. congruence.
    + intros (va2 & s2 & i & E2 & H2 & Hi & Ha & Hb). rewrite lookup_insert in E2. case_decide as Hva; [|exists va2, s2, i; auto].
      injection E2 as <-. exfalso. by apply (Hfree i).
Qed.

Lemma all_free s fl : free_list s fl -> sl_freeCount s = sl_objCount s -> forall i, 0 <= i < sl_objCount s -> aget (sl_bufctl s) i <> Some SLAB_BUFCTL_BUSY.
Proof.
  intros F Hn i Hi Hb. apply (fl_busy _ _ F i Hi) in Hb. apply Hb. rewrite (fl_count _ _ F) in Hn.
  assert (Hsub : fl ⊆+ seqZ 0 (sl_objCount s)).
  { apply NoDup_submseteq; [apply F|]. intros j Hj. apply elem_of_seqZ. pose proof (chain_bound _ _ _ _ (fl_chain _ _ F) Hj). rewrite (fl_length _ _ F) in *. lia. }
  rewrite (submseteq_length_Permutation _ _ Hsub); [apply elem_of_seqZ; lia|]. rewrite length_seqZ. unfold zlen in Hn. lia.
Qed.

(** ** Bytes *)

(** Calls of a function that stays in its object change nothing outside the objects. *)
Lemma for_slots_out (f : SlabObjFn) stride lo hi s n : forall i mem a,
  (forall j p m x, i <= j < i + Z.of_nat n -> p = slabSlot s stride j -> ~ (lo <= x < hi) -> f p m x = m x) ->
  ~ (lo <= a < hi) -> for_slots n i s stride f mem a = mem a.
Proof.
  induction n as [|n IH]; intros i mem a Hf Ha; cbn [for_slots]; [reflexivity|]. rewrite IH; [|intros j p m x Hj; apply (Hf j); lia|assumption].
  by apply (Hf i); [lia|reflexivity|].
Qed.

(** A property of every slot that no later call breaks. *)
Lemma for_slots_in (f : SlabObjFn) stride s (Q : Z -> (Z -> Z) -> Prop) n : forall i mem j,
  (forall j m, i <= j < i + Z.of_nat n -> Q j (f (slabSlot s stride j) m)) ->
  (forall j k m, i <= j < i + Z.of_nat n -> i <= k < i + Z.of_nat n -> j <> k -> Q j m -> Q j (f (slabSlot s stride k) m)) ->
  i <= j < i + Z.of_nat n -> Q j (for_slots n i s stride f mem).
Proof.
  induction n as [|n IH]; intros i mem j Hq Hk Hj; [lia|]. cbn [for_slots]. destruct (decide (j = i)) as [->|Hne].
  - assert (Hrest : forall m' i' mem, i < i' -> i' + Z.of_nat m' <= i + Z.of_nat (S n) -> Q i mem -> Q i (for_slots m' i' s stride f mem)).
    { induction m' as [|m' IHm]; intros i' mem' Hi' Hle Hqi; [exact Hqi|]. cbn [for_slots]. apply IHm; [lia|lia|]. apply Hk; lia || assumption. }
    apply Hrest; [lia|lia|]. apply Hq. lia.
  - apply IH; [intros; apply Hq; lia|intros; apply Hk; auto; lia|lia].
Qed.

(** An operation on a cache that writes only to [lo, hi) leaves the objects of slabs elsewhere as they are. *)
Lemma bytes_frame st st' Bf H R cp mem va s c i lo hi :
  core st Bf R -> bytes_ok st H -> step cp st st' -> is_Some (st_caches st !! cp) ->
  st_slabs st !! va = Some s -> st_caches st' !! sl_cache s = Some c -> 0 <= i < sl_objCount s -> va + 4096 * 2 ^ sl_order s <= lo \/ hi <= va ->
  (forall x, ~ (lo <= x < hi) -> mem x = st_mem st x) -> bytes_at mem c s (H (sl_cache s)) i.
Proof.
  intros K Hb Hst Hcp E Ec' Hi Hout Hm. destruct (step_back cp st st' _ c Hst Hcp Ec') as (c0 & Ec & Hsc).
  eapply (bytes_at_static _ c0 c s s); [exact Hsc|reflexivity|auto|]. destruct (slab_cache _ _ _ _ _ K E) as (c1 & E1 & _ & _ & F & O). rewrite Ec in E1. injection E1 as <-.
  destruct (slot_extent _ _ _ _ _ _ _ K E F O Hi) as (_ & H2 & H3 & _). pose proof (fit_bounds c0 F) as (_ & _ & _ & B4 & B5 & _). pose proof (ft_size _ F) as [Hs1 _].
  destruct (Hb va s c0 i E Ec Hi) as [Hd Hg]. unfold bytes_at, redzone in *. split.
  - intros D. destruct (Hd D) as [Hr Hp]. split; [intros x Hx|intros Hn Hct x Hx]; rewrite Hm; auto; lia.
  - intros Hin Hbz x Hx. rewrite Hm; auto; lia.
Qed.

(** ** Marks *)

Lemma frame_phys f : 0 <= f < 2 ^ 34 -> f <<! 12 = 4096 * f /\ (f <<! 12) / 4096 = f.
Proof.
  intros Hf. rewrite Z.shiftl_mul_pow2 by lia. change (2 ^ 12) with 4096. rewrite u64_small by (words; lia). split; [lia|]. apply Z.div_mul. lia.
Qed.

Lemma mark_frames_spec L p k slab n : forall f st,
  pa_inv L (st_pages st) -> (p, k) ∈ L -> p <= f -> f + Z.of_nat n <= p + 2 ^ k ->
  exists o, mark_frames n f slab st = Done (with_owner o st) /\
    forall g, o !! g = if decide (f <= g < f + Z.of_nat n) then Some slab else st_owner st !! g.
Proof.
  induction n as [|n IH]; intros f st Hi Hin Hf Hn; cbn [mark_frames].
  { exists (st_owner st). split; [by destruct st|]. intros g. rewrite decide_False by lia. reflexivity. }
  destruct (pa_shape _ _ _ _ Hi Hin) as (Hp & Hpe & _). destruct (frame_phys f ltac:(lia)) as [_ Hph].
  destruct (pa_pages _ _ (f <<! 12) Hi) as (b & -> & Hb). rewrite Hph in Hb. rewrite (Hb ltac:(exists p, k; split; [assumption|lia])). cbn [need mbind res_bind].
  destruct (IH (f + 1) (with_owner (<[f := slab]> (st_owner st)) st)) as (o & -> & Ho); [assumption|assumption|lia|lia|].
  exists o. split; [reflexivity|]. intros g. rewrite Ho. simpl. destruct (decide (f + 1 <= g < f + 1 + Z.of_nat n)).
  - rewrite decide_True by lia. reflexivity.
  - destruct (decide (g = f)) as [->|]; [rewrite decide_True by lia; apply lookup_insert_eq|]. rewrite decide_False, lookup_insert_ne by lia. reflexivity.
Qed.

Lemma unmark_frames_spec L p k n : forall f st,
  pa_inv L (st_pages st) -> (p, k) ∈ L -> p <= f -> f + Z.of_nat n <= p + 2 ^ k ->
  exists o, unmark_frames n f st = Done (with_owner o st) /\
    forall g, o !! g = if decide (f <= g < f + Z.of_nat n) then None else st_owner st !! g.
Proof.
  induction n as [|n IH]; intros f st Hi Hin Hf Hn; cbn [unmark_frames].
  { exists (st_owner st). split; [by destruct st|]. intros g. rewrite decide_False by lia. reflexivity. }
  destruct (pa_shape _ _ _ _ Hi Hin) as (Hp & Hpe & _). destruct (frame_phys f ltac:(lia)) as [_ Hph].
  destruct (pa_pages _ _ (f <<! 12) Hi) as (b & -> & Hb). rewrite Hph in Hb. rewrite (Hb ltac:(exists p, k; split; [assumption|lia])). cbn [need mbind res_bind].
  destruct (IH (f + 1) (with_owner (delete f (st_owner st)) st)) as (o & -> & Ho); [assumption|assumption|lia|lia|].
  exists o. split; [reflexivity|]. intros g. rewrite Ho. simpl. destruct (decide (f + 1 <= g < f + 1 + Z.of_nat n)).
  - rewrite decide_True by lia. reflexivity.
  - destruct (decide (g = f)) as [->|]; [rewrite decide_True by lia; apply lookup_delete_eq|]. rewrite decide_False, lookup_delete_ne by lia. reflexivity.
Qed.

(** ** Releasing a slab *)

(** Constructors and destructors write only inside the slab's block. *)
Lemma calls_bytes va s c : fit c -> slab_ok c va s -> 0 <= va -> va + 4096 * 2 ^ sl_order s < 2 ^ 64 ->
  forall f, confined (ca_objSize c) (Some f) -> forall mem x, ~ (va <= x < va + 4096 * 2 ^ sl_order s) ->
  for_slots (Z.to_nat (sl_objCount s)) 0 s (ly_stride (ca_layout c)) f mem x = mem x.
Proof.
  intros F O H1 H2 f Hf mem x Hx. pose proof (fit_bounds c F) as (_ & _ & B3 & B4 & B5 & _). pose proof (ft_size _ F).
  apply (for_slots_out f _ va (va + 4096 * 2 ^ sl_order s)); [|assumption]. intros j p m y Hj -> Hy. apply Hf.
  rewrite Z2Nat.id in Hj by (rewrite (so_count _ _ _ O); lia). destruct (slot_place va s c j F O H1 H2 ltac:(lia)) as (_ & X2 & X3). unfold slot in *. lia.
Qed.

Lemma release_spec cp st Bf H R c va :
  sound None st Bf H R -> live st cp -> st_caches st !! cp = Some c -> va ∈ ca_empty c ->
  let c' := list_remove va c in let c1 := set_counts (ca_slabCount c' -! 1) (ca_emptySlabCount c' -! 1) c' in
  exists st', slabReleaseToPmm cp va (put_cache cp c1 st) = Done st' /\ sound None st' Bf H R /\ step cp st st' /\
    st_caches st' !! cp = Some c1.
Proof.
  intros (K & Hh & Hb) Hl Ec Hin c' c1. destruct (k_cache _ _ _ K cp Hl) as (c0 & E0 & Ci). rewrite Ec in E0. injection E0 as <-.
  pose proof (proj1 (ci_list _ _ _ _ Ci SLAB_LIST_EMPTY va) Hin) as (s & E & Hc & Hk). pose proof (ci_slab _ _ _ _ Ci va s E Hc) as O.
  pose proof (ci_fit _ _ _ _ Ci) as F. destruct (so_free _ _ _ O) as (fl & Hfl). destruct (slab_range _ _ _ _ _ K E) as (R1 & R2 & R3 & R4).
  assert (Hfree : sl_freeCount s = sl_objCount s).
  { specialize (Hh va s E ltac:(discriminate)). rewrite Hk in Hh. unfold want in Hh. destruct (_ =? 0); [discriminate|].
    destruct (Z.eqb_spec (sl_freeCount s) (sl_objCount s)); [assumption|discriminate]. }
  assert (Ci' : cinv cp c1 (delete va (st_slabs st)) (Bf cp)).
  { eapply cinv_remove; try eassumption; [exact (list_bound _ _ _ _ _ SLAB_LIST_EMPTY K Hl Ec)| |eapply all_free; eassumption].
    pose proof (list_bound _ _ _ _ _ SLAB_LIST_PARTIAL K Hl Ec). pose proof (list_bound _ _ _ _ _ SLAB_LIST_FULL K Hl Ec). simpl in *. lia. }
  destruct (k_pages _ _ _ K) as (L & Hi & Hn & HL). pose proof (proj2 (HL (frame_of va) (sl_order s)) ltac:(eauto)) as HinL.
  unfold slabReleaseToPmm. rewrite (get_cache_ok _ _ c1) by apply lookup_insert_eq. cbn [mbind res_bind]. rewrite (get_slab_ok _ _ s) by exact E. cbn [mbind res_bind]. cbv zeta.
  set (mem' := match ca_dtor c with Some f => for_slots (Z.to_nat (sl_objCount s)) 0 s (ly_stride (ca_layout c)) f (st_mem st) | None => st_mem st end).
  replace (match ca_dtor c1 with Some dtor => _ | None => _ end) with (with_bytes mem' (put_cache cp c1 st)) by (unfold mem'; change (ca_dtor c1) with (ca_dtor c); destruct (ca_dtor c); [reflexivity|by destruct st]).
  assert (Hfr : (va -! hhdmBase) >>! 12 = frame_of va).
  { unfold BOOTINFO_HHDM_SIZE, VM_KVA_BASE in *. pose proof (Z.pow_pos_nonneg 2 (sl_order s)). rewrite u64_small by (words; lia). rewrite Z.shiftr_div_pow2 by lia. reflexivity. }
  rewrite Hfr. assert (Ho64 : 0 <= sl_order s < 64) by (rewrite (so_order _ _ _ O); pose proof (fit_bounds c F); lia). rewrite shl1_u64 by assumption.
  destruct (unmark_frames_spec (L ++ R) (frame_of va) (sl_order s) (Z.to_nat (2 ^ sl_order s)) (frame_of va) (with_bytes mem' (put_cache cp c1 st))) as (o & -> & Ho);
    [exact Hi|apply elem_of_app; auto|lia|pose proof (Z.pow_pos_nonneg 2 (sl_order s)); lia|].
  rewrite Z2Nat.id in Ho by (apply Z.pow_nonneg; lia). cbn [mbind res_bind]. unfold free_block. simpl st_owner. simpl st_pages.
  rewrite (proj2 (forallb_forall _ _)).
  2: { intros f Hf. apply list_elem_of_In, elem_of_seqZ in Hf. apply bool_decide_eq_true. rewrite Ho. by rewrite decide_True by lia. }
  apply elem_of_Permutation in HinL as (L' & HP). assert (Hi' : pa_inv ((frame_of va, sl_order s) :: L' ++ R) (st_pages st)) by (eapply pa_perm; [|exact Hi]; by rewrite HP).
  destruct (pa_free_ok _ _ _ _ Hi') as (pg & -> & Hpg). cbn [need mbind res_bind]. eexists. split; [reflexivity|].
  set (st' := with_pa pg _). assert (Hst : step cp st st').
  { split; auto; simpl; [intros q Hq; by apply lookup_insert_ne|]. intros c2 E2. exists c1. rewrite lookup_insert_eq. split; [reflexivity|]. rewrite Ec in E2. injection E2 as <-. split; reflexivity. }
  assert (HL' : forall p k, (p, k) ∈ L' <-> exists va2 s2, delete va (st_slabs st) !! va2 = Some s2 /\ p = frame_of va2 /\ k = sl_order s2).
  { intros p k. rewrite HP in Hn. apply NoDup_cons in Hn as [Hnin _]. split.
    - intros Hpk. destruct (proj1 (HL p k)) as (va2 & s2 & E2 & -> & ->); [rewrite HP; apply elem_of_cons; auto|]. exists va2, s2.
      rewrite lookup_delete_ne; [auto|]. intros <-. assert (s2 = s) as -> by congruence. contradiction.
    - intros (va2 & s2 & E2 & -> & ->). apply lookup_delete_Some in E2 as [Hne E2]. assert (Hx : (frame_of va2, sl_order s2) ∈ L) by (apply HL; eauto).
      rewrite HP in Hx. apply elem_of_cons in Hx as [[= Hx _]|Hx]; [|assumption]. exfalso. apply Hne. rewrite R2, (k_va _ _ _ K va2 s2 E2). lia. }
  split; [|split; [exact Hst|apply lookup_insert_eq]]. split; [|split].
  - apply (core_perm _ (<[cp := Bf cp]> Bf)); [|intros q; symmetry; by apply fn_insert_id].
    eapply (core_upd st Bf R cp st' c1); simpl; try assumption; [apply lookup_insert_eq| | | | |].
    + intros va2 s2 Hne. rewrite lookup_delete_Some. split; [tauto|]. intros E2. split; [|assumption]. congruence.
    + intros va2 s2 E2. apply lookup_delete_Some in E2 as [_ E2]. by apply (k_owned _ _ _ K va2).
    + intros va2 s2 E2. apply lookup_delete_Some in E2 as [_ E2]. by apply (k_va _ _ _ K va2 s2).
    + exists L'. split; [exact Hpg|]. split; [|exact HL']. rewrite HP in Hn. by apply NoDup_cons in Hn as [_ Hn].
    + intros f va2. rewrite Ho. simpl. destruct (decide (frame_of va <= f < frame_of va + 2 ^ sl_order s)) as [Hf|Hf].
      * split; [discriminate|]. intros (s2 & E2 & Hf2). apply lookup_delete_Some in E2 as [Hne E2]. exfalso.
        destruct (slabs_apart _ _ _ _ _ _ _ K E E2 Hne); pose proof (k_va _ _ _ K va2 s2 E2); lia.
      * rewrite (k_marks _ _ _ K). split.
        -- intros (s2 & E2 & Hf2). exists s2. rewrite lookup_delete_ne; [auto|]. intros <-. assert (s2 = s) as -> by congruence. contradiction.
        -- intros (s2 & E2 & Hf2). apply lookup_delete_Some in E2 as [_ E2]. eauto.
  - intros va2 s2 E2 _. simpl in E2. apply lookup_delete_Some in E2 as [_ E2]. by apply (Hh va2 s2 E2).
  - intros va2 s2 c2 i E2 Ec2 Hi2. simpl in E2. apply lookup_delete_Some in E2 as [Hne E2].
    eapply (bytes_frame st st' Bf H R cp mem' va2 s2 c2 i va (va + 4096 * 2 ^ sl_order s)); try eassumption; [eauto|destruct (slabs_apart _ _ _ _ _ _ _ K E E2 Hne); lia|].
    intros x Hx. unfold mem'. destruct (ca_dtor c) as [f|] eqn:Ed; [|reflexivity]. pose proof (ft_dtor _ F) as Hd. rewrite Ed in Hd.
    unfold BOOTINFO_HHDM_SIZE, VM_KVA_BASE in *. apply (calls_bytes va s c F O); [lia|lia|exact Hd|exact Hx].
Qed.

Lemma reclaim_loop cp keep H R Bf fuel : 0 <= keep -> forall st c,
  sound None st Bf H R -> live st cp -> st_caches st !! cp = Some c -> (length (ca_empty c) <= fuel)%nat ->
  exists st' c', slabReclaimEmptyLocked fuel cp keep st = Done st' /\ sound None st' Bf H R /\ step cp st st' /\
    st_caches st' !! cp = Some c' /\ ca_mag c' = ca_mag c /\ zlen (ca_empty c') <= keep.
Proof.
  intros Hk. induction fuel as [|fuel IH]; intros st c Hso Hl Ec Hf; cbn [slabReclaimEmptyLocked]; rewrite (get_cache_ok _ _ _ Ec); cbn [mbind res_bind];
    pose proof Hso as (K & _ & _); destruct (k_cache _ _ _ K cp Hl) as (c0 & E0 & Ci); rewrite Ec in E0; injection E0 as <-; rewrite (ci_empty _ _ _ _ Ci).
  { destruct (Z.leb_spec (zlen (ca_empty c)) keep); [|unfold zlen in *; lia]. exists st, c. split_and!; auto; reflexivity. }
  destruct (Z.leb_spec (zlen (ca_empty c)) keep) as [|Hgt]; [exists st, c; split_and!; auto; reflexivity|].
  destruct (ca_empty c) as [|va rest] eqn:Ee; [unfold zlen in Hgt; simpl in Hgt; lia|]. cbn [head need mbind res_bind]. cbv zeta.
  destruct (release_spec cp st Bf H R c va Hso Hl Ec) as (st1 & E1 & Hso1 & Hst1 & Ec1); [rewrite Ee; apply list_elem_of_here|]. cbv zeta in E1, Ec1.
  rewrite E1. cbn [mbind res_bind]. pose proof (ci_nodup _ _ _ _ Ci SLAB_LIST_EMPTY) as Hnd. simpl in Hnd.
  pose proof (zlen_remove (ca_empty c) va Hnd) as Hz. rewrite decide_True in Hz by (rewrite Ee; apply list_elem_of_here).
  destruct (IH st1 _ Hso1 (step_live _ _ _ _ Hst1 Hl) Ec1) as (st' & c' & E' & Hso' & Hst' & Ec' & Hm' & Hz').
  { simpl. rewrite Ee in Hz. unfold zlen in Hz. simpl length in *. rewrite Ee. lia. }
  exists st', c'. split_and!; auto. by etransitivity.
Qed.

Lemma reclaim_spec cp keep H R Bf st c : 0 <= keep ->
  sound None st Bf H R -> live st cp -> st_caches st !! cp = Some c ->
  exists st' c', slab_reclaim cp keep st = Done st' /\ sound None st' Bf H R /\ step cp st st' /\
    st_caches st' !! cp = Some c' /\ ca_mag c' = ca_mag c /\ zlen (ca_empty c') <= keep.
Proof. intros Hk Hso Hl Ec. unfold slab_reclaim. rewrite (get_cache_ok _ _ _ Ec). cbn [mbind res_bind]. by apply reclaim_loop. Qed.

(** ** Growing *)

(** A fresh slab, before it is on a list. *)
Definition fresh_slab cp c (va : Z) : Slab :=
  slabCarve (mkSlab SLAB_MAGIC cp (va +! ly_objOffset (ca_layout c)) (u16 (ly_objsPerSlab (ca_layout c))) 0 0 SLAB_LIST_NONE (u8 (ly_order (ca_layout c))) []).

Lemma fresh_slab_ok cp c va : fit c -> 0 <= va -> va + 4096 * 2 ^ ly_order (ca_layout c) < 2 ^ 64 ->
  let s := set_list SLAB_LIST_EMPTY (fresh_slab cp c va) in
  slab_ok c va s /\ want s = SLAB_LIST_EMPTY /\ sl_order s = ly_order (ca_layout c) /\ sl_freeCount s = sl_objCount s /\
  forall i, 0 <= i < sl_objCount s -> aget (sl_bufctl s) i <> Some SLAB_BUFCTL_BUSY.
Proof.
  intros F Hva Hend. pose proof (fit_bounds c F) as (B1 & B2 & B3 & B4 & B5 & B6 & B7). unfold sizeof_Slab in *.
  unfold fresh_slab. rewrite (u16_small (ly_objsPerSlab _)), (u8_small (ly_order _)), u64_small by (words; lia).
  set (s0 := mkSlab _ _ _ _ _ _ _ _ _). destruct (carve_spec s0) as [Hfl Hs]; [simpl; unfold SLAB_MAX_OBJECTS; lia|]. cbv zeta.
  assert (Hfl' : free_list (set_list SLAB_LIST_EMPTY (slabCarve s0)) (seqZ 0 (sl_objCount s0))) by (destruct Hfl as [X1 X2 X3 X4 X5 X6]; split; assumption).
  split; [split; simpl; auto; eauto|]. split; [|split; [reflexivity|split; [reflexivity|]]].
  - unfold want. simpl. destruct (Z.eqb_spec (ly_objsPerSlab (ca_layout c)) 0); [lia|]. by rewrite Z.eqb_refl.
  - eapply all_free; [exact Hfl'|reflexivity].
Qed.

Lemma for_slots_keep (f : SlabObjFn) stride s (Q : (Z -> Z) -> Prop) n : forall i mem,
  (forall j m, i <= j < i + Z.of_nat n -> Q m -> Q (f (slabSlot s stride j) m)) -> Q mem -> Q (for_slots n i s stride f mem).
Proof.
  induction n as [|n IH]; intros i mem Hf Hq; cbn [for_slots]; [exact Hq|]. apply IH; [intros; apply Hf; auto; lia|]. apply Hf; [lia|assumption].
Qed.

(** The bytes of a fresh slab after the fill and the constructors. *)
Definition fresh_bytes c s (mem : Z -> Z) : Z -> Z :=
  let n := Z.to_nat (sl_objCount s) in
  let mem := if KERNEL_DEBUG then for_slots n 0 s (ly_stride (ca_layout c)) (slabDebugCarveFill (ca_layout c) (bool_decide (is_Some (ca_ctor c))) (ca_objSize c)) mem else mem in
  match ca_ctor c with Some f => for_slots n 0 s (ly_stride (ca_layout c)) f mem | None => mem end.

Lemma for_slots_list k s stride f n : forall i mem, for_slots n i (set_list k s) stride f mem = for_slots n i s stride f mem.
Proof. induction n as [|n IH]; intros i mem; [reflexivity|]. cbn [for_slots]. rewrite IH. reflexivity. Qed.

Lemma fresh_list k c s mem : fresh_bytes c (set_list k s) mem = fresh_bytes c s mem.
Proof. unfold fresh_bytes. cbv zeta. destruct KERNEL_DEBUG, (ca_ctor c); rewrite ?for_slots_list; reflexivity. Qed.

Section Fresh.
Context (va : Z) (s : Slab) (c : SlabCache) (F : fit c) (O : slab_ok c va s) (Hva : 0 <= va) (Hend : va + 4096 * 2 ^ sl_order s < 2 ^ 64).

Lemma fill_confined p m a : ~ (p - ly_rzLeft (ca_layout c) <= a < p - ly_rzLeft (ca_layout c) + ly_stride (ca_layout c)) ->
  slabDebugCarveFill (ca_layout c) (bool_decide (is_Some (ca_ctor c))) (ca_objSize c) p m a = m a.
Proof.
  intros Ha. pose proof (fit_bounds c F) as (B1 & _ & _ & B4 & B5 & _). pose proof (ft_size _ F). apply carve_fill; lia.
Qed.

Lemma fresh_out mem x : ~ (va <= x < va + 4096 * 2 ^ sl_order s) -> fresh_bytes c s mem x = mem x.
Proof.
  intros Hx. pose proof (fit_bounds c F) as (_ & _ & B3 & B4 & B5 & _). pose proof (ft_ctor _ F) as Hct. unfold fresh_bytes. cbv zeta.
  assert (Hfill : (if KERNEL_DEBUG then for_slots (Z.to_nat (sl_objCount s)) 0 s (ly_stride (ca_layout c))
    (slabDebugCarveFill (ca_layout c) (bool_decide (is_Some (ca_ctor c))) (ca_objSize c)) mem else mem) x = mem x).
  { destruct KERNEL_DEBUG; [|reflexivity]. apply (for_slots_out _ _ va (va + 4096 * 2 ^ sl_order s)); [|assumption]. intros j p m y Hj -> Hy.
    rewrite Z2Nat.id in Hj by (rewrite (so_count _ _ _ O); lia). destruct (slot_place va s c j F O Hva Hend ltac:(lia)) as (_ & X2 & X3). unfold slot in *.
    apply fill_confined. lia. }
  destruct (ca_ctor c) as [f|]; [|exact Hfill]. rewrite (calls_bytes va s c F O Hva Hend f Hct _ x Hx). exact Hfill.
Qed.

Lemma slots_stride i j : 0 <= i < sl_objCount s -> 0 <= j < sl_objCount s -> i <> j ->
  slot c s i + ly_stride (ca_layout c) <= slot c s j \/ slot c s j + ly_stride (ca_layout c) <= slot c s i.
Proof.
  intros Hi Hj Hne. pose proof (fit_bounds c F) as (B1 & _). destruct (slot_place va s c i F O Hva Hend Hi) as (-> & _). destruct (slot_place va s c j F O Hva Hend Hj) as (-> & _). nia.
Qed.

Lemma fresh_in mem Hc i : 0 <= i < sl_objCount s -> aget (sl_bufctl s) i <> Some SLAB_BUFCTL_BUSY -> bytes_at (fresh_bytes c s mem) c s Hc i.
Proof.
  intros Hi Hnb. split; [|intros _ Hbz; contradiction]. intros D. pose proof (fit_bounds c F) as (B1 & _ & B3 & B4 & B5 & _). pose proof (ft_size _ F) as [Hs1 _]. pose proof (ft_ctor _ F) as Hct. unfold fresh_bytes. rewrite D. cbv zeta.
  set (fill := slabDebugCarveFill _ _ _). set (mem1 := for_slots _ _ _ _ fill mem).
  assert (Hn : Z.of_nat (Z.to_nat (sl_objCount s)) = sl_objCount s) by (rewrite (so_count _ _ _ O); lia).
  assert (H1 : forall i, 0 <= i < sl_objCount s ->
    (forall x, redzone (ca_layout c) (ca_objSize c) (slot c s i) x -> mem1 x = SLAB_REDZONE_BYTE) /\
    (ca_ctor c = None -> forall x, slot c s i <= x < slot c s i + ca_objSize c -> mem1 x = SLAB_POISON_BYTE)).
  { clear i Hi Hnb. intros i Hi. unfold mem1. apply (for_slots_in fill (ly_stride (ca_layout c)) s (fun i m =>
      (forall x, redzone (ca_layout c) (ca_objSize c) (slot c s i) x -> m x = SLAB_REDZONE_BYTE) /\
      (ca_ctor c = None -> forall x, slot c s i <= x < slot c s i + ca_objSize c -> m x = SLAB_POISON_BYTE))); [| |lia].
    - intros j m Hj. unfold fill. split; [intros x Hx; apply carve_fill; auto; lia|]. intros Hn0 x Hx.
      destruct (carve_fill (ca_layout c) (ca_objSize c) ltac:(lia) ltac:(lia) ltac:(lia) (bool_decide (is_Some (ca_ctor c))) (slot c s j) m x) as (_ & Hp & _).
      unfold slot in Hp at 3. rewrite (Hp Hx), Hn0. reflexivity.
    - intros j k m Hj Hk0 Hne [Q1 Q2]. pose proof (slots_stride j k ltac:(lia) ltac:(lia) Hne) as Hap. unfold redzone in *.
      split; [intros x Hx; unfold fill; rewrite fill_confined; [by apply Q1|]|intros Hn0 x Hx; unfold fill; rewrite fill_confined; [by apply Q2|]]; unfold slot in *; lia. }
  destruct (H1 i Hi) as [Q1 Q2]. destruct (ca_ctor c) as [f|] eqn:Ect; [|auto]. split; [|discriminate].
  intros x Hx. apply (for_slots_keep f (ly_stride (ca_layout c)) s (fun m => m x = SLAB_REDZONE_BYTE)); [|by apply Q1].
  intros j m Hj Hq. rewrite Hct; [exact Hq|]. unfold redzone in Hx. destruct (decide (j = i)) as [->|Hne]; [unfold slot in *; lia|].
  pose proof (slots_stride i j ltac:(lia) ltac:(lia) ltac:(auto)). unfold slot in *. lia.
Qed.
End Fresh.

(** The page allocator's answer, in the terms of the slabs. *)
Lemma grow_block st Bf R order :
  core st Bf R -> 0 <= order <= SLAB_MAX_ORDER ->
  exists r pg, pa_alloc order (st_pages st) = Some (r, pg) /\
    match r with
    | None => core (with_pa pg st) Bf R
    | Some f => exists L, pa_inv (((f, order) :: L) ++ R) pg /\ NoDup ((f, order) :: L) /\ 0 <= f /\ f + 2 ^ order <= 2 ^ 34 /\
        (forall p k, (p, k) ∈ L <-> exists va s, st_slabs st !! va = Some s /\ p = frame_of va /\ k = sl_order s) /\
        forall va s, st_slabs st !! va = Some s -> f + 2 ^ order <= frame_of va \/ frame_of va + 2 ^ sl_order s <= f
    end.
Proof.
  intros K Ho. destruct (k_pages _ _ _ K) as (L & Hi & Hn & HL). destruct (pa_alloc_ok _ _ order Hi Ho) as (r & pg & E & Hr). exists r, pg. split; [exact E|].
  destruct r as [f|].
  - exists L. destruct (pa_shape _ _ f order Hr) as (H1 & H2 & _); [apply list_elem_of_here|].
    assert (Hap : forall va s, st_slabs st !! va = Some s -> f + 2 ^ order <= frame_of va \/ frame_of va + 2 ^ sl_order s <= f).
    { intros va s Es. assert (Hin : (frame_of va, sl_order s) ∈ L) by (apply HL; eauto). apply elem_of_Permutation in Hin as (L' & HP).
      eapply (pa_apart (L' ++ R)). eapply pa_perm; [|exact Hr]. by rewrite HP. }
    split; [exact Hr|]. split; [|auto]. constructor; [|assumption]. intros Hin. apply HL in Hin as (va & s & Es & -> & ->).
    pose proof (Z.pow_pos_nonneg 2 (sl_order s)). destruct (slab_range _ _ _ _ _ K Es) as (_ & _ & _ & ?). destruct (Hap va s Es); lia.
  - split; simpl; try apply K. eauto.
Qed.

(** A grown slab on the cache's list of empty slabs. *)
Definition linked cp c va st : SlabState :=
  let c' := list_push SLAB_LIST_EMPTY va c in
  put_slab va (set_list SLAB_LIST_EMPTY (fresh_slab cp c va)) (put_cache cp (set_counts (ca_slabCount c' +! 1) (ca_emptySlabCount c' +! 1) c') st).

Lemma grow_core st Bf R cp c f L pg o mem :
  core st Bf R -> live st cp -> st_caches st !! cp = Some c -> let order := ly_order (ca_layout c) in
  pa_inv (((f, order) :: L) ++ R) pg -> NoDup ((f, order) :: L) -> 0 <= f -> f + 2 ^ order <= 2 ^ 34 ->
  (forall p k, (p, k) ∈ L <-> exists va s, st_slabs st !! va = Some s /\ p = frame_of va /\ k = sl_order s) ->
  (forall va s, st_slabs st !! va = Some s -> f + 2 ^ order <= frame_of va \/ frame_of va + 2 ^ sl_order s <= f) ->
  let va := hhdmBase + 4096 * f in
  (forall g, o !! g = if decide (f <= g < f + 2 ^ order) then Some va else st_owner st !! g) ->
  let st' := linked cp c va (mkState (st_caches st) (st_inUse st) (st_kmalloc st) (st_lastKind st) (st_lastObj st) (st_slabs st) o mem pg) in
  core st' Bf R /\ step cp st st'.
Proof.
  intros K Hl Ec order Hpg Hnd Hf1 Hf2 HL Hap va Ho st'. destruct (k_cache _ _ _ K cp Hl) as (c0 & E0 & Ci). rewrite Ec in E0. injection E0 as <-.
  pose proof (ci_fit _ _ _ _ Ci) as F. pose proof (fit_bounds c F) as (_ & B2 & _). pose proof (Z.pow_pos_nonneg 2 order ltac:(lia) ltac:(unfold order; lia)) as Hpos.
  unfold BOOTINFO_HHDM_SIZE, VM_KVA_BASE in *. destruct (fresh_slab_ok cp c va F) as (O & Hw & Hord & _ & Hfree); [unfold va; lia|fold order; unfold va; lia|].
  assert (Hfv : frame_of va = f) by (unfold frame_of, va; replace (hhdmBase + 4096 * f - hhdmBase) with (f * 4096) by lia; apply Z.div_mul; lia).
  assert (Hnew : st_slabs st !! va = None).
  { destruct (st_slabs st !! va) as [s2|] eqn:E2; [|reflexivity]. exfalso. pose proof (slab_range _ _ _ _ _ K E2) as (_ & _ & _ & Hs2).
    pose proof (Z.pow_pos_nonneg 2 (sl_order s2) ltac:(lia) Hs2). destruct (Hap va s2 E2); rewrite Hfv in *; lia. }
  assert (Hst : step cp st st').
  { split; auto; simpl; [intros q Hq; by apply lookup_insert_ne|]. intros c2 E2. eexists. rewrite lookup_insert_eq. split; [reflexivity|]. rewrite Ec in E2. injection E2 as <-. split; reflexivity. }
  split; [|exact Hst]. apply (core_perm _ (<[cp := Bf cp]> Bf)); [|intros q; symmetry; by apply fn_insert_id].
  eapply (core_upd st Bf R cp st'); simpl; try assumption; [apply lookup_insert_eq| | | | | |].
  - apply cinv_add; try assumption; [reflexivity|reflexivity|exact (list_bound _ _ _ _ _ SLAB_LIST_EMPTY K Hl Ec)|].
    pose proof (list_bound _ _ _ _ _ SLAB_LIST_PARTIAL K Hl Ec). pose proof (list_bound _ _ _ _ _ SLAB_LIST_FULL K Hl Ec). simpl in *. lia.
  - intros va2 s2 Hne. rewrite lookup_insert. case_decide as Hva; [|reflexivity]. subst va2. split; [intros [= <-]; contradiction|congruence].
  - intros va2 s2 E2. rewrite lookup_insert in E2. case_decide; [injection E2 as <-; exact Hl|]. by apply (k_owned _ _ _ K va2).
  - intros va2 s2 E2. rewrite lookup_insert in E2. case_decide as Hva; [subst va2; rewrite Hfv; reflexivity|]. by apply (k_va _ _ _ K va2 s2).
  - exists ((f, order) :: L). split; [exact Hpg|]. split; [exact Hnd|]. intros p k. rewrite elem_of_cons, HL. split.
    + intros [[= -> ->]|(va2 & s2 & E2 & Hp)]; [|exists va2, s2; rewrite lookup_insert_ne; [auto|congruence]].
      exists va, (set_list SLAB_LIST_EMPTY (fresh_slab cp c va)). rewrite lookup_insert_eq. auto.
    + intros (va2 & s2 & E2 & -> & ->). rewrite lookup_insert in E2. case_decide as Hva; [|right; eauto]. injection E2 as <-. subst va2. left. by rewrite Hfv, Hord.
  - intros g va2. rewrite Ho. destruct (decide (f <= g < f + 2 ^ order)) as [Hg|Hg].
    + split; [intros [= <-]; eexists; rewrite lookup_insert_eq; split; [reflexivity|]; rewrite Hfv, Hord; exact Hg|].
      intros (s2 & E2 & Hg2). rewrite lookup_insert in E2. case_decide as Hva; [congruence|]. exfalso. destruct (Hap va2 s2 E2); lia.
    + rewrite (k_marks _ _ _ K). split; intros (s2 & E2 & Hg2).
      * exists s2. rewrite lookup_insert_ne; [auto|congruence].
      * rewrite lookup_insert in E2. case_decide as Hva; [|eauto]. injection E2 as <-. subst va2. rewrite Hfv, Hord in Hg2. contradiction.
Qed.

(** A pass over memory where the state is only rewritten. *)
Lemma grow_spec st Bf H R cp c : sound None st Bf H R -> live st cp -> st_caches st !! cp = Some c ->
  (exists pg, slabGrow cp st = Done (None, with_pa pg st) /\ sound None (with_pa pg st) Bf H R) \/
  (exists va st1, slabGrow cp st = Done (Some va, st1) /\ st_caches st1 = st_caches st /\ st_slabs st1 !! va = Some (fresh_slab cp c va) /\
    sound None (linked cp c va st1) Bf H R /\ step cp st (linked cp c va st1)).
Proof.
  intros (K & Hh & Hb) Hl Ec. destruct (k_cache _ _ _ K cp Hl) as (c0 & E0 & Ci). rewrite Ec in E0. injection E0 as <-.
  pose proof (ci_fit _ _ _ _ Ci) as F. pose proof (fit_bounds c F) as (_ & B2 & B3 & _). set (order := ly_order (ca_layout c)) in *.
  unfold slabGrow. rewrite (get_cache_ok _ _ _ Ec). cbn [mbind res_bind]. cbv zeta. fold order.
  destruct (grow_block st Bf R order K B2) as (r & pg & -> & Hr). cbn [need mbind res_bind]. destruct r as [f|].
  2: { left. exists pg. split; [reflexivity|]. split; [exact Hr|]. split; [exact Hh|]. exact Hb. }
  right. destruct Hr as (L & Hpg & Hnd & Hf1 & Hf2 & HL & Hap). pose proof (Z.pow_pos_nonneg 2 order ltac:(lia) ltac:(lia)) as Hpos.
  destruct (frame_phys f ltac:(lia)) as [-> _]. unfold BOOTINFO_HHDM_SIZE, VM_KVA_BASE in *. rewrite (u64_small (hhdmBase + 4096 * f)) by (words; lia).
  set (va := hhdmBase + 4096 * f). set (s := slabCarve _).
  destruct (fresh_slab_ok cp c va F) as (O & Hw & Hord & _ & Hfree); [unfold va; lia|fold order; unfold va; lia|]. change (fresh_slab cp c va) with s in O, Hw, Hord. fold order in Hord.
  change (sl_order (set_list SLAB_LIST_EMPTY s)) with (sl_order s) in Hord. rewrite Hord, shl1_u64 by lia.
  set (mem0 := fun a => if (va <=? a) && (a <? va + 4096 * 2 ^ order) then pa_byte (a - hhdmBase) pg else st_mem st a).
  match goal with |- context [mark_frames _ _ _ ?x] => change x with (put_slab va s (with_bytes mem0 (with_pa pg st))) end.
  destruct (mark_frames_spec (((f, order) :: L) ++ R) f order va (Z.to_nat (2 ^ order)) f (put_slab va s (with_bytes mem0 (with_pa pg st)))) as (o & -> & Ho);
    [exact Hpg|apply list_elem_of_here|lia|lia|]. rewrite Z2Nat.id in Ho by lia. cbn [mbind res_bind].
  set (mem1 := fresh_bytes c s mem0).
  exists va, (with_bytes mem1 (with_owner o (put_slab va s (with_pa pg st)))).
  assert (Hend : va + 4096 * 2 ^ sl_order s < 2 ^ 64) by (rewrite Hord; unfold va; lia). assert (Hva : 0 <= va) by (unfold va; lia).
  split; [do 2 f_equal; unfold mem1, fresh_bytes; destruct KERNEL_DEBUG, (ca_ctor c); reflexivity|]. split; [reflexivity|]. split; [apply lookup_insert_eq|].
  destruct (grow_core st Bf R cp c f L pg o mem1 K Hl Ec Hpg Hnd Hf1 Hf2 HL Hap Ho) as [K' Hst]. fold va in K', Hst.
  assert (Heq : linked cp c va (with_bytes mem1 (with_owner o (put_slab va s (with_pa pg st)))) =
    linked cp c va (mkState (st_caches st) (st_inUse st) (st_kmalloc st) (st_lastKind st) (st_lastObj st) (st_slabs st) o mem1 pg)).
  { unfold linked, put_slab, put_cache, with_slabs, with_caches. simpl. f_equal. apply insert_insert_eq. }
  rewrite Heq. clear Heq. set (st' := linked cp c va _) in *. split; [|exact Hst]. split; [exact K'|]. split.
  - intros va2 s2 E2 _. simpl in E2. rewrite lookup_insert in E2. case_decide as Hv; [injection E2 as <-; symmetry; exact Hw|]. by apply (Hh va2 s2 E2).
  - intros va2 s2 c2 i E2 Ec2 Hi2. simpl in E2. rewrite lookup_insert in E2. case_decide as Hv.
    + injection E2 as <-. simpl in Ec2. rewrite lookup_insert_eq in Ec2. injection Ec2 as <-.
      pose proof (fun Hc => fresh_in va (set_list SLAB_LIST_EMPTY s) c F O Hva Hend mem0 Hc i Hi2 (Hfree i Hi2)) as Hfi. rewrite fresh_list in Hfi. apply Hfi.
    + eapply (bytes_frame st st' Bf H R cp mem1 va2 s2 c2 i va (va + 4096 * 2 ^ order)); try eassumption; [eauto|pose proof (k_va _ _ _ K va2 s2 E2); unfold va; destruct (Hap va2 s2 E2); lia|].
      intros x Hx. unfold mem1. rewrite <- (fresh_list SLAB_LIST_EMPTY).
      rewrite (fresh_out va (set_list SLAB_LIST_EMPTY s) c F O Hva Hend) by (change (sl_order (set_list SLAB_LIST_EMPTY s)) with (sl_order s); rewrite Hord; exact Hx). unfold mem0.
      destruct (Z.leb_spec va x), (Z.ltb_spec x (va + 4096 * 2 ^ order)); simpl; try reflexivity. lia.
Qed.

(** ** Refilling the magazine *)

Lemma slab_counts st Bf R va s : core st Bf R -> st_slabs st !! va = Some s -> 0 <= sl_freeCount s <= sl_objCount s.
Proof.
  intros K E. destruct (slab_cache _ _ _ _ _ K E) as (c & _ & _ & _ & _ & O). destruct (so_free _ _ _ O) as (fl & Hfl).
  pose proof (free_list_length s fl Hfl). rewrite (fl_count _ _ Hfl). pose proof (zlen_nonneg fl). lia.
Qed.

Lemma listed_free st Bf R cp c k va : core st Bf R -> homed None st -> live st cp -> st_caches st !! cp = Some c -> va ∈ clist k c -> k <> SLAB_LIST_FULL ->
  exists s, st_slabs st !! va = Some s /\ sl_cache s = cp /\ 0 < sl_freeCount s.
Proof.
  intros K Hh Hl Ec Hin Hk. destruct (k_cache _ _ _ K cp Hl) as (c0 & E0 & Ci). rewrite Ec in E0. injection E0 as <-.
  apply (ci_list _ _ _ _ Ci) in Hin as (s & E & Hc & Hlk). exists s. split; [assumption|]. split; [assumption|].
  pose proof (slab_counts _ _ _ _ _ K E). specialize (Hh va s E ltac:(discriminate)). unfold want in Hh.
  destruct (Z.eqb_spec (sl_freeCount s) 0); [congruence|lia].
Qed.

Lemma refill_slab_spec st Bf H R cp : sound None st Bf H R -> live st cp ->
  exists r st', refill_slab cp st = Done (r, st') /\ sound None st' Bf H R /\ step cp st st' /\ mag_of st' cp = mag_of st cp /\
    match r with None => True | Some va => exists s, st_slabs st' !! va = Some s /\ sl_cache s = cp /\ 0 < sl_freeCount s end.
Proof.
  intros Hso Hl. pose proof Hso as (K & Hh & Hb). destruct (k_cache _ _ _ K cp Hl) as (c & Ec & Ci). unfold refill_slab. rewrite (get_cache_ok _ _ _ Ec). cbn [mbind res_bind].
  destruct (ca_partial c) as [|va rest] eqn:Ep.
  2: { exists (Some va), st. split_and!; try reflexivity; [exact Hso|]. apply (listed_free st Bf R cp c SLAB_LIST_PARTIAL va K Hh Hl Ec); [simpl; rewrite Ep; apply list_elem_of_here|discriminate]. }
  destruct (ca_empty c) as [|va rest] eqn:Ee.
  2: { exists (Some va), st. split_and!; try reflexivity; [exact Hso|]. apply (listed_free st Bf R cp c SLAB_LIST_EMPTY va K Hh Hl Ec); [simpl; rewrite Ee; apply list_elem_of_here|discriminate]. }
  destruct (grow_spec st Bf H R cp c Hso Hl Ec) as [(pg & -> & Hso')|(va & st1 & -> & Hcs & Esl & Hso' & Hst)]; cbn [mbind res_bind].
  - exists None, (with_pa pg st). split_and!; try reflexivity; [exact Hso'|]. split; auto. intros c2 E2. exists c2. split; [exact E2|reflexivity].
  - rewrite (get_cache_ok _ _ c) by (rewrite Hcs; exact Ec). cbn [mbind res_bind]. rewrite (get_slab_ok _ _ _ Esl). cbn [mbind res_bind]. cbv zeta.
    exists (Some va), (linked cp c va st1). split; [reflexivity|]. split; [exact Hso'|]. split; [exact Hst|]. split.
    + unfold mag_of. simpl. rewrite lookup_insert_eq, Ec. reflexivity.
    + eexists. split; [apply lookup_insert_eq|]. split; [reflexivity|]. pose proof (ci_fit _ _ _ _ Ci) as F. pose proof (fit_bounds c F) as (_ & _ & B3 & _).
      simpl. rewrite u16_small by (words; lia). lia.
Qed.

Lemma active_push m a : 0 <= mg_count m < zlen (mg_rounds m) ->
  take (Z.to_nat (mg_count m + 1)) (<[Z.to_nat (mg_count m) := a]> (mg_rounds m)) = active m ++ [a].
Proof.
  intros Hm. replace (Z.to_nat (mg_count m + 1)) with (S (Z.to_nat (mg_count m))) by lia.
  rewrite (take_S_r _ _ a) by (apply list_lookup_insert_eq; unfold zlen in *; lia). by rewrite take_insert_ge by lia.
Qed.

Lemma taken_cache st cp H c : st_caches st !! cp = Some c -> taken st H cp = active (ca_mag c) ++ H cp.
Proof. intros E. unfold taken, active_of, mag_of. by rewrite E. Qed.

Lemma taken_other st st' cp H q : step cp st st' -> q <> cp -> taken st' H q = taken st H q.
Proof. intros Hs Hq. unfold taken, active_of, mag_of. by rewrite (sp_caches _ _ _ Hs q Hq). Qed.

(** The busy objects after an operation on one cache. *)
Lemma taken_insert st st' cp H c B : step cp st st' -> st_caches st' !! cp = Some c -> B ≡ₚ active (ca_mag c) ++ H cp ->
  forall q, (<[cp := B]> (taken st H)) q ≡ₚ taken st' H q.
Proof.
  intros Hs Ec HB q. destruct (decide (q = cp)) as [->|Hq].
  - by rewrite fn_lookup_insert, (taken_cache _ _ _ _ Ec).
  - by rewrite fn_lookup_insert_ne, (taken_other _ _ _ _ _ Hs Hq).
Qed.

Definition same_room (m m' : SlabMagazine) : Prop :=
  mg_capacity m' = mg_capacity m /\ mg_batch m' = mg_batch m /\ zlen (mg_rounds m') = zlen (mg_rounds m).

Lemma same_room_refl m : same_room m m.
Proof. by split_and!. Qed.
#[local] Hint Resolve same_room_refl : core.

(** One object goes from a slab to the magazine. *)
Lemma pop_step st H R cp va s m : sound (Some va) st (taken st H) H R -> live st cp -> st_slabs st !! va = Some s -> sl_cache s = cp ->
  mag_of st cp = Some m -> 0 <= mg_count m < zlen (mg_rounds m) -> zlen (mg_rounds m) <= 32 -> 0 < sl_freeCount s ->
  exists i s' c, slabFreeListPop s = Some (i, s') /\ st_caches st !! cp = Some c /\ ca_mag c = m /\
    let r := <[Z.to_nat (mg_count m) := slot c s i]> (mg_rounds m) in
    let st' := put_cache cp (set_mag (mkMag (u16 (mg_count m + 1)) (mg_capacity m) (mg_batch m) (mg_allocated m) r) c) (put_slab va s' st) in
    sound (Some va) st' (taken st' H) H R /\ step cp st st' /\ st_slabs st' !! va = Some s' /\ sl_cache s' = cp.
Proof.
  intros (K & Hh & Hb) Hl E Hc Hm Hcnt H32 Hfree. destruct (k_cache _ _ _ K cp Hl) as (c & Ec & Ci).
  assert (Hcm : ca_mag c = m) by (unfold mag_of in Hm; rewrite Ec in Hm; by injection Hm).
  destruct (so_free _ _ _ (ci_slab _ _ _ _ Ci va s E Hc)) as (fl & Hfl). destruct fl as [|i fl]; [rewrite (fl_count _ _ Hfl) in Hfree; change (zlen []) with 0 in Hfree; lia|].
  destruct (pop_spec s i fl Hfl) as (s' & Ep & Hfl' & Hs'). exists i, s', c. split; [exact Ep|]. split; [exact Ec|]. split; [exact Hcm|]. intros r.
  pose proof (chain_bound _ _ _ i (fl_chain _ _ Hfl) ltac:(apply list_elem_of_here)) as Hi. rewrite (fl_length _ _ Hfl) in Hi.
  rewrite (u16_small (mg_count m + 1)) by (words; lia). set (m' := mkMag _ _ _ _ r).
  assert (Hcs : sl_cache s' = cp) by (rewrite Hs'; exact Hc).
  assert (Hni : slot c s i ∉ taken st H cp).
  { intros Hin. destruct (taken_object st _ R cp _ K Hl Hin) as (va2 & s2 & c2 & i2 & E2 & _ & Ec2 & _ & Hi2 & Ha & Hbz & Hob).
    destruct (object_unique _ _ _ _ _ _ cp va i _ K Hob) as (_ & -> & ->); [exists s, c; auto|]. assert (s2 = s) as -> by congruence.
    apply (fl_busy _ _ Hfl i Hi) in Hbz. apply Hbz. apply list_elem_of_here. }
  assert (Ci' : cinv cp (set_mag m' c) (<[va := s']> (st_slabs st)) (slot c s i :: taken st H cp)) by (apply cinv_mag; eapply cinv_pop; eassumption).
  destruct (core_slab st _ R cp c (set_mag m' c) va s s' _ K Hl Ec ltac:(split; reflexivity) E Hc Hcs ltac:(rewrite Hs'; reflexivity) Ci') as [K' Hst].
  assert (Hb' : bytes_ok (put_slab va s' (put_cache cp (set_mag m' c) st)) H).
  { eapply bytes_slab; try eassumption; eauto; try (rewrite Hs'; reflexivity). intros c2 j Ec2 Hj Hin Hbj.
    apply (fl_busy _ _ Hfl' j ltac:(rewrite Hs'; exact Hj)) in Hbj. apply (fl_busy _ _ Hfl j Hj). apply not_elem_of_cons. split; [|exact Hbj].
    intros ->. apply Hni. rewrite Hc in Ec2, Hin. assert (c2 = c) as -> by congruence. unfold taken. apply elem_of_app. auto. }
  split; [|split; [exact Hst|split; [apply lookup_insert_eq|exact Hcs]]].
  apply (sound_perm (Some va) _ (<[cp := slot c s i :: taken st H cp]> (taken st H))).
  - split; [exact K'|]. split; [|exact Hb']. intros va2 s2 E2 Hne. simpl in E2. rewrite lookup_insert_ne in E2 by congruence. by apply (Hh va2 s2 E2).
  - apply (taken_insert _ _ _ _ (set_mag m' c) _ Hst); [apply lookup_insert_eq|]. simpl. unfold active at 1. simpl. unfold r. rewrite active_push by assumption.
    rewrite (taken_cache _ _ _ _ Ec), Hcm, <- app_assoc. simpl. by rewrite Permutation_middle.
Qed.

Lemma refill_pop_spec H R cp va todo : forall st s m,
  sound (Some va) st (taken st H) H R -> live st cp -> st_slabs st !! va = Some s -> sl_cache s = cp -> mag_of st cp = Some m ->
  0 <= mg_count m -> mg_count m + Z.of_nat todo <= zlen (mg_rounds m) <= 32 ->
  exists more st' s' m', refill_pop todo cp va st = Done (more, st') /\ sound (Some va) st' (taken st' H) H R /\ step cp st st' /\
    st_slabs st' !! va = Some s' /\ sl_cache s' = cp /\ mag_of st' cp = Some m' /\ same_room m m' /\
    mg_count m' = mg_count m + Z.of_nat todo - Z.of_nat more /\ (more <= todo)%nat /\ ((0 < todo)%nat -> 0 < sl_freeCount s -> (more < todo)%nat).
Proof.
  induction todo as [|todo IH]; intros st s m Hso Hl E Hc Hm Hm0 Hm1; cbn [refill_pop].
  { exists 0%nat, st, s, m. split_and!; auto; try reflexivity; lia. }
  rewrite (get_slab_ok _ _ _ E). cbn [mbind res_bind]. destruct (Z.ltb_spec 0 (sl_freeCount s)) as [Hf|Hf].
  2: { exists (S todo), st, s, m. split_and!; auto; try reflexivity; lia. }
  destruct (pop_step st H R cp va s m Hso Hl E Hc Hm ltac:(lia) ltac:(lia) Hf) as (i & s' & c & -> & Ec & Hcm & Hso' & Hst & E' & Hc').
  cbn [need mbind res_bind]. rewrite (get_cache_ok _ _ _ Ec). cbn [mbind res_bind]. rewrite Hcm, aset_Some by lia. cbn [need mbind res_bind].
  fold (slot c s i). set (st1 := put_cache cp _ _) in *. set (m1 := mkMag (u16 (mg_count m + 1)) _ _ _ _) in *.
  assert (Hm1' : mag_of st1 cp = Some m1) by (unfold mag_of; simpl; by rewrite lookup_insert_eq).
  assert (Hcnt : mg_count m1 = mg_count m + 1) by (unfold m1; simpl; rewrite u16_small; [reflexivity|words; lia]).
  assert (Hz1 : zlen (mg_rounds m1) = zlen (mg_rounds m)) by apply zlen_insert.
  destruct (IH st1 s' m1 Hso' (step_live _ _ _ _ Hst Hl) E' Hc' Hm1' ltac:(lia) ltac:(lia)) as
    (more & st' & s2 & m' & -> & Hso2 & Hst2 & E2 & Hc2 & Hm2 & (R1 & R2 & R3) & Hk2 & Hle & _).
  exists more, st', s2, m'. split_and!; auto; try lia; try congruence; [by etransitivity|]. split; [exact R1|]. split; [exact R2|]. congruence.
Qed.

Lemma refill_spec H R cp fuel : forall todo st m,
  sound None st (taken st H) H R -> live st cp -> mag_of st cp = Some m -> (todo <= fuel)%nat ->
  0 <= mg_count m -> mg_count m + Z.of_nat todo <= zlen (mg_rounds m) <= 32 ->
  exists st' m', slabRefillLocked fuel todo cp st = Done st' /\ sound None st' (taken st' H) H R /\ step cp st st' /\
    mag_of st' cp = Some m' /\ same_room m m' /\ mg_count m <= mg_count m' <= mg_count m + Z.of_nat todo.
Proof.
  induction fuel as [|fuel IH]; intros todo st m Hso Hl Hm Hf Hm0 Hm1; (destruct todo as [|todo]; cbn [slabRefillLocked];
    [exists st, m; split_and!; auto; try reflexivity; lia|]); [lia|].
  destruct (refill_slab_spec st _ H R cp Hso Hl) as (r & st1 & -> & Hso1 & Hst1 & Hmg1 & Hr). cbn [mbind res_bind].
  assert (Ht1 : forall q, taken st H q = taken st1 H q).
  { intros q. destruct (decide (q = cp)) as [->|]; [|symmetry; by eapply taken_other]. unfold taken, active_of. by rewrite Hmg1. }
  assert (Hso1' : sound None st1 (taken st1 H) H R) by (eapply sound_perm; [exact Hso1|intros q; by rewrite Ht1]).
  pose proof (step_live _ _ _ _ Hst1 Hl) as Hl1. rewrite Hm in Hmg1. destruct r as [va|].
  2: { exists st1, m. split_and!; auto; lia. }
  destruct Hr as (s & E & Hc & Hfree). assert (Hso1'' : sound (Some va) st1 (taken st1 H) H R).
  { destruct Hso1' as (K1 & Hh1 & Hb1). split; [assumption|]. split; [|assumption]. intros va2 s2 E2 _. apply (Hh1 va2 s2 E2). discriminate. }
  destruct (refill_pop_spec H R cp va (S todo) st1 s m Hso1'' Hl1 E Hc Hmg1 Hm0 ltac:(lia)) as
    (more & st2 & s2 & m2 & -> & Hso2 & Hst2 & E2 & Hc2 & Hm2 & (R1 & R2 & R3) & Hk2 & Hle & Hlt). cbn [mbind res_bind].
  specialize (Hlt ltac:(lia) Hfree). pose proof (step_live _ _ _ _ Hst2 Hl1) as Hl2.
  destruct (rehome_spec cp va st2 _ H R s2 Hso2 Hl2 E2 Hc2) as (st3 & -> & Hso3 & Hst3 & Hm3). cbn [mbind res_bind]. rewrite Hm2 in Hm3.
  assert (Hso3' : sound None st3 (taken st3 H) H R).
  { eapply sound_perm; [exact Hso3|]. intros q. destruct (decide (q = cp)) as [->|]; [unfold taken, active_of; by rewrite Hm2, Hm3|]. by rewrite (taken_other _ _ _ _ _ Hst3). }
  destruct (IH more st3 m2 Hso3' (step_live _ _ _ _ Hst3 Hl2) Hm3 ltac:(lia) ltac:(lia) ltac:(lia)) as (st' & m' & -> & Hso' & Hst' & Hm' & (S1 & S2 & S3) & Hk').
  exists st', m'. split_and!; auto; try lia; [|split_and!; congruence]. by repeat (etransitivity; [eassumption|]).
Qed.
End Inv.

#[global] Arguments bytes_at {MC} G mem c s Hc i.
#[global] Arguments bytes_ok {P MC} G st H.
#[global] Arguments sound {P PA PL MC} G X st Bf H R.
