(* ===== verification/SlabClient.v ===== *)
(** * Clients of the slab allocator

    The operations on objects of [Slab] under the invariant of [SlabInv]: allocation,
    freeing, the diagnosis of wrong pointers, and shrinking. *)

From stdpp Require Import functions.
From S2P Require Import Prelude BootTypes SlabCore Slab SlabInv.

Section Client.
Context {P : Type} {PA : PageAllocator P} {PL : PageAllocatorLaws P} {MC : Machine} {ML : MachineLaws}.

Implicit Types (G : Z -> Z) (st : @SlabState P) (c : SlabCache) (R : list (Z * Z)) (H : Z -> list Z).

(** ** The state between calls *)

Definition is_class st (i cp : Z) : Prop :=
  exists c, aget (st_kmalloc st) i = Some cp /\ live st cp /\ st_caches st !! cp = Some c /\
    aget slabKmallocClassSizes i = Some (ca_objSize c) /\ ca_align c = KMALLOC_MIN_ALIGN /\ ca_ctor c = None /\
    ca_flags c = SLAB_CACHE_PERMANENT .| SLAB_CACHE_KMALLOC.

(** [H] gives the objects of each cache that clients hold, [R] the blocks of pages of others.  A
    class that is not NULL is a cache of its size. *)
Record rest G st H R : Prop := {
  r_sound : sound G None st (taken st H) H R;
  r_mags : forall cp m, live st cp -> mag_of st cp = Some m -> mag_ok m;
  r_idle : forall cp, ~ live st cp -> H cp = [];
  r_kmalloc : zlen (st_kmalloc st) = SLAB_KMALLOC_CLASS_COUNT;
  r_classes : forall i cp, aget (st_kmalloc st) i = Some cp -> cp <> 0 -> is_class st i cp
}.

(** ** Live caches *)

Lemma live_spec st Bf R cp : core st Bf R -> 0 <= cp < 2 ^ 64 ->
  exists b, slabCacheIsLiveLocked cp st = Done b /\ (b = true <-> live st cp).
Proof.
  intros K Hcp. pose proof ml_caches as Hb. pose proof (k_slots _ _ _ K) as Hz. unfold slabCacheIsLiveLocked. cbv zeta.
  unfold SLAB_MAX_CACHES, sizeof_SlabCache in *.
  assert (Hex : forall i, 0 <= i < 64 -> cp = slabCaches + i * 416 <-> (cp -! slabCaches) mod 416 = 0 /\ (cp -! slabCaches) / 416 = i).
  { intros i Hi. split.
    - intros ->. replace (slabCaches + i * 416 - slabCaches) with (i * 416) by lia. rewrite u64_small by (words; lia). rewrite Z.mod_mul, Z.div_mul by lia. auto.
    - intros [Hm Hd]. words. destruct (Z.le_gt_cases slabCaches cp) as [Hle|Hgt]; [rewrite Z.mod_small in * by lia; dlia|].
      exfalso. rewrite <- (Z_mod_plus_full (cp - slabCaches) 1), Z.mod_small in * by lia. dlia. }
  destruct (Z.eqb_spec ((cp -! slabCaches) mod 416) 0) as [Hm|Hm]; cbn [negb].
  2: { exists false. split; [reflexivity|]. split; [discriminate|]. intros (i & Hi & Hp & _). apply Hex in Hp as [Hp _]; [contradiction|assumption]. }
  assert (H0 : 0 <= (cp -! slabCaches) / 416) by (apply Z.div_pos; [apply u64_range|lia]).
  destruct (Z.leb_spec 64 ((cp -! slabCaches) / 416)) as [Hge|Hlt].
  { exists false. split; [reflexivity|]. split; [discriminate|]. intros (i & Hi & Hp & _). apply Hex in Hp as [_ Hp]; [|assumption]. unfold SLAB_MAX_CACHES in Hi. lia. }
  set (i := (cp -! slabCaches) / 416) in *. assert (Hcpi : cp = slabCaches + i * 416) by (apply Hex; [lia|auto]).
  destruct (aget_Some (st_inUse st) i) as (u & Eu & _); [lia|]. rewrite Eu. cbn [need mbind res_bind].
  assert (Hlv : live st cp <-> u = true).
  { split.
    - intros (j & Hj & Hp & Hu). apply Hex in Hp as [_ Hp]; [|assumption]. fold i in Hp. rewrite <- Hp in Hu. congruence.
    - intros ->. exists i. split; [unfold SLAB_MAX_CACHES; lia|]. split; [exact Hcpi|exact Eu]. }
  destruct u; cbn [negb]; [|exists false; split; [reflexivity|]; rewrite Hlv; split; discriminate].
  destruct (k_cache _ _ _ K cp (proj2 Hlv eq_refl)) as (c & Ec & Ci). rewrite (get_cache_ok _ _ _ Ec). cbn [mbind res_bind].
  rewrite (ci_magic _ _ _ _ Ci), Z.eqb_refl. exists true. split; [reflexivity|]. tauto.
Qed.

Lemma rest_cache {G} st H R cp : rest G st H R -> live st cp ->
  exists c, st_caches st !! cp = Some c /\ cinv cp c (st_slabs st) (active (ca_mag c) ++ H cp) /\ mag_ok (ca_mag c).
Proof.
  intros Hr Hl. destruct (r_sound _ _ _ _ Hr) as (K & _ & _). destruct (k_cache _ _ _ K cp Hl) as (c & Ec & Ci). exists c.
  rewrite (taken_cache _ _ _ _ Ec) in Ci. split_and!; auto. apply (r_mags _ _ _ _ Hr cp); [assumption|]. unfold mag_of. by rewrite Ec.
Qed.

Lemma is_live {G} st H R cp : rest G st H R -> live st cp -> slabCacheIsLiveLocked cp st = Done true.
Proof.
  intros Hr Hl. destruct (r_sound _ _ _ _ Hr) as (K & _ & _). pose proof (live_ptr st cp Hl).
  destruct (live_spec st _ R cp K ltac:(lia)) as (b & -> & Hb). by rewrite (proj2 Hb Hl).
Qed.

(** Classes survive operations on any cache. *)
Lemma class_step cp st st' i q : step cp st st' -> is_class st i q -> is_class st' i q.
Proof.
  intros Hs (c & H1 & H2 & H3 & H4 & H5 & H6 & H7). destruct (decide (q = cp)) as [->|Hne].
  - destruct (sp_cache _ _ _ Hs c H3) as (c' & E' & [? ? S1 S2 S3 ? S4 ?]). exists c'. rewrite (sp_kmalloc _ _ _ Hs), S1, S2, S3, S4. split_and!; auto. by apply (step_live cp st).
  - exists c. rewrite (sp_kmalloc _ _ _ Hs), (sp_caches _ _ _ Hs) by assumption. split_and!; auto. by apply (step_live cp st).
Qed.

(** After an operation on the cache [cp] that leaves its magazine in order. *)
Lemma rest_step {G G'} st st' H H' R cp m : rest G st H R -> live st cp -> step cp st st' -> mag_of st' cp = Some m -> mag_ok m ->
  sound G' None st' (taken st' H') H' R -> (forall q, q <> cp -> H' q = H q) -> rest G' st' H' R.
Proof.
  intros [S1 M1 I1 N1 C1] Hl Hs Hm Hok Hso Ho. split; [exact Hso| | |by rewrite (sp_kmalloc _ _ _ Hs)|].
  - intros q mq Hq Emq. destruct (decide (q = cp)) as [->|Hne]; [congruence|]. apply (M1 q).
    + by apply (live_inUse st st' q (sp_inUse _ _ _ Hs)).
    + unfold mag_of in *. by rewrite <- (sp_caches _ _ _ Hs q Hne).
  - intros q Hq. assert (Hq' : ~ live st q) by (intros Hx; apply Hq; by apply (step_live cp st)).
    rewrite Ho; [by apply I1|]. intros ->. contradiction.
  - intros i q Hq Hnz. rewrite (sp_kmalloc _ _ _ Hs) in Hq. eapply class_step; [exact Hs|by apply C1].
Qed.

(** Only the contents and the order of what clients hold count. *)
Lemma rest_ext {G} G' st H H' R : (forall x, G x = G' x) -> (forall q, H q ≡ₚ H' q) -> rest G st H R -> rest G' st H' R.
Proof.
  intros HG HH [(K & Hh & Hb) M1 I1 N1 C1]. split; [|exact M1| |exact N1|exact C1].
  - apply (sound_perm None _ (taken st H)); [|intros q; unfold taken; by rewrite HH]. split; [exact K|]. split; [exact Hh|].
    intros va s c i E Ec Hi. destruct (Hb va s c i E Ec Hi) as [Hd Hk]. split.
    + intros D. destruct (Hd D) as [X1 X2]. split; [exact X1|]. intros Hn. apply X2. by rewrite HH.
    + intros Hin Hbz x Hx. rewrite <- HG. apply Hk; auto. by rewrite HH.
  - intros q Hq. specialize (I1 q Hq). specialize (HH q). rewrite I1 in HH. by apply Permutation_nil_l in HH.
Qed.

(** ** Bytes of held objects *)

Lemma core_bytes st Bf R mem : core st Bf R -> core (with_bytes mem st) Bf R.
Proof. intros [A1 A2 A3 A4 A5 A6 A7]. split; assumption. Qed.

(** The contents [f] on the [n] bytes from [a] on, and [G] elsewhere. *)
Definition over (a n : Z) (f G : Z -> Z) : Z -> Z := fun x => if (a <=? x) && (x <? a + n) then f x else G x.

Lemma over_in a n f G x : a <= x < a + n -> over a n f G x = f x.
Proof. intros Hx. unfold over. destruct (Z.leb_spec a x), (Z.ltb_spec x (a + n)); simpl; lia || reflexivity. Qed.

Lemma over_out a n f G x : ~ (a <= x < a + n) -> over a n f G x = G x.
Proof. intros Hx. unfold over. destruct (Z.leb_spec a x), (Z.ltb_spec x (a + n)); simpl; lia || reflexivity. Qed.

Lemma over_over a n f g G x : over a n f (over a n g G) x = over a n f G x.
Proof. unfold over. by destruct (_ && _). Qed.

(** One object changes hands or contents: the bytes of the others and its redzones stand. *)
Lemma bytes_write G st Bf H R cp c va i a mem G' H' : core st Bf R -> bytes_ok G st H -> object st cp va i a -> st_caches st !! cp = Some c ->
  (forall x, ~ (a <= x < a + ca_objSize c) -> mem x = st_mem st x /\ G' x = G x) ->
  (forall q x, x <> a -> x ∈ H' q <-> x ∈ H q) ->
  (KERNEL_DEBUG = true -> a ∉ H' cp -> ca_ctor c = None -> forall x, a <= x < a + ca_objSize c -> mem x = SLAB_POISON_BYTE) ->
  (a ∈ H' cp -> forall x, a <= x < a + ca_objSize c -> mem x = G' x) -> bytes_ok G' (with_bytes mem st) H'.
Proof.
  intros K Hb (s & c0 & E & <- & Ec0 & Hi & ->) Ec Hm HH Hps Hg va2 s2 c2 i2 E2 Ec2 Hi2. rewrite Ec in Ec0. injection Ec0 as <-. simpl in E2, Ec2.
  destruct (slab_cache _ _ _ _ _ K E) as (cx & Ex & _ & _ & F & O). rewrite Ec in Ex. injection Ex as <-.
  destruct (slab_cache _ _ _ _ _ K E2) as (cx & Ex & _ & _ & F2 & O2). rewrite Ec2 in Ex. injection Ex as <-.
  pose proof (fit_bounds c F) as (_ & _ & _ & B4 & B5 & _). pose proof (fit_bounds c2 F2) as (_ & _ & _ & C4 & C5 & _). pose proof (ft_size _ F) as [Z1 _]. pose proof (ft_size _ F2) as [Z2 _].
  destruct (Hb va2 s2 c2 i2 E2 Ec2 Hi2) as [Hd Hk]. unfold bytes_at, redzone in *. simpl st_mem. destruct (decide (va2 = va /\ i2 = i)) as [[-> ->]|Hne].
  - assert (s2 = s) as -> by congruence. assert (c2 = c) as -> by congruence. split; [|intros Hin _; by apply Hg].
    intros D. split; [|by apply Hps]. intros x Hx. rewrite (proj1 (Hm x ltac:(lia))). by apply (Hd D).
  - assert (Hap : forall x, slot c2 s2 i2 - ly_rzLeft (ca_layout c2) <= x < slot c2 s2 i2 - ly_rzLeft (ca_layout c2) + ly_stride (ca_layout c2) -> mem x = st_mem st x /\ G' x = G x).
    { intros x Hx. apply Hm. destruct (slots_apart _ _ _ va s c i va2 s2 c2 i2 K E F O Hi E2 F2 O2 Hi2) as [Hap|Hap]; try lia.
      intros Hva. subst va2. assert (s2 = s) as -> by congruence. split; [congruence|]. intros Hii. subst. tauto. }
    assert (Hsl : slot c2 s2 i2 <> slot c s i).
    { intros Heq. apply Hne. destruct (object_unique st Bf R (sl_cache s2) va2 i2 (sl_cache s) va i (slot c s i) K) as (_ & ? & ?); [exists s2, c2; auto|exists s, c; auto|auto]. }
    split.
    + intros D. destruct (Hd D) as [Hr Hp]. split; [intros x Hx; rewrite (proj1 (Hap x ltac:(lia))); by apply Hr|].
      intros Hn Hct x Hx. rewrite (proj1 (Hap x ltac:(lia))). apply Hp; auto. rewrite <- (HH (sl_cache s2)) by assumption. exact Hn.
    + intros Hin Hbz x Hx. destruct (Hap x ltac:(lia)) as [-> ->]. apply Hk; auto. by apply HH.
Qed.

Lemma held_object {G} st H R cp a : rest G st H R -> live st cp -> a ∈ H cp -> exists va i, object st cp va i a.
Proof.
  intros Hr Hl Ha. destruct (r_sound _ _ _ _ Hr) as (K & _ & _). destruct (taken_object st _ R cp a K Hl) as (va & s & c & i & _ & _ & _ & _ & _ & _ & _ & Hob); [|eauto].
  unfold taken. apply elem_of_app. auto.
Qed.

Lemma rest_write {G} st H R cp c a mem : rest G st H R -> live st cp -> st_caches st !! cp = Some c -> a ∈ H cp ->
  (forall x, ~ (a <= x < a + ca_objSize c) -> mem x = st_mem st x) -> rest (over a (ca_objSize c) mem G) (with_bytes mem st) H R.
Proof.
  intros Hr Hl Ec Ha Hm. destruct (held_object st H R cp a Hr Hl Ha) as (va & i & Hob). destruct Hr as [(K & Hh & Hb) M1 I1 N1 C1].
  split; [|exact M1|exact I1|exact N1|exact C1]. split; [by apply core_bytes|]. split; [exact Hh|]. eapply bytes_write; try eassumption.
  - intros x Hx. split; [by apply Hm|by apply over_out].
  - reflexivity.
  - intros _ Hn. contradiction.
  - intros _ x Hx. by rewrite over_in.
Qed.

(** ** Allocation *)

(** In a debug build the object passes both checks. *)
Definition checked st c (a : Z) : Prop := KERNEL_DEBUG = true ->
  slabDebugCheckPoison (bool_decide (is_Some (ca_ctor c))) (ca_objSize c) a (st_mem st) = true /\
  slabDebugCheckRedzones (ca_layout c) (ca_objSize c) a (st_mem st) = true.

Lemma object_checked {G} st Bf H R cp c va i a : core st Bf R -> bytes_ok G st H -> object st cp va i a -> st_caches st !! cp = Some c ->
  (KERNEL_DEBUG = true -> slabDebugCheckRedzones (ca_layout c) (ca_objSize c) a (st_mem st) = true) /\ (a ∉ H cp -> checked st c a).
Proof.
  intros K Hb (s & c0 & E & <- & Ec0 & Hi & ->) Ec. rewrite Ec in Ec0. injection Ec0 as <-.
  destruct (slab_cache _ _ _ _ _ K E) as (cx & Ex & _ & _ & F & O). rewrite Ec in Ex. injection Ex as <-.
  pose proof (fit_bounds c F) as (B1 & _ & _ & B4 & B5 & _). pose proof (ft_size _ F).
  assert (Hrz : KERNEL_DEBUG = true -> slabDebugCheckRedzones (ca_layout c) (ca_objSize c) (slot c s i) (st_mem st) = true).
  { intros D. apply check_redzones; [lia..|]. intros x Hx. by apply (proj1 (Hb va s c i E Ec Hi) D). }
  split; [exact Hrz|]. intros Hn D. split; [|auto]. apply check_poison; [lia|]. intros Hct. apply (proj1 (Hb va s c i E Ec Hi) D); [assumption|].
  destruct (ca_ctor c); [discriminate|reflexivity].
Qed.

Lemma active_last m : mag_ok m -> 0 < mg_count m ->
  exists a, aget (mg_rounds m) (mg_count m - 1) = Some a /\
    active m = active (mkMag (mg_count m - 1) (mg_capacity m) (mg_batch m) (mg_allocated m + 1) (mg_rounds m)) ++ [a].
Proof.
  intros [Hc _ Hn Hz] Hp. destruct (aget_Some (mg_rounds m) (mg_count m - 1)) as (a & Ha & Hl); [lia|]. exists a. split; [assumption|].
  unfold active. simpl. replace (Z.to_nat (mg_count m)) with (S (Z.to_nat (mg_count m - 1))) by lia. by apply take_S_r.
Qed.

Lemma mag_ok_room m m' : mag_ok m -> same_room m m' -> 0 <= mg_count m' <= mg_capacity m -> mag_ok m'.
Proof. intros [H1 H2 H3 H4] (R1 & R2 & R3) Hn. split; rewrite ?R1, ?R2, ?R3; assumption. Qed.

(** What the allocation of [a] from the cache, with [n] bytes, does to the state. *)
Definition granted G st H R cp n a st' : Prop :=
  (a ∉ H cp) /\ (exists va i, object st' cp va i a) /\ rest (over a n (st_mem st') G) st' (<[cp := a :: H cp]> H) R /\ step cp st st'.

Lemma bytes_grant {G} st Bf H R cp c va i a : core st Bf R -> bytes_ok G st H -> object st cp va i a -> st_caches st !! cp = Some c ->
  bytes_ok (over a (ca_objSize c) (st_mem st) G) st (<[cp := a :: H cp]> H).
Proof.
  intros K Hb Hob Ec. replace st with (with_bytes (st_mem st) st) at 2 by (by destruct st). eapply bytes_write; try eassumption.
  - intros x Hx. split; [reflexivity|by apply over_out].
  - intros q x Hx. destruct (decide (q = cp)) as [->|]; [rewrite fn_lookup_insert, elem_of_cons; tauto|by rewrite fn_lookup_insert_ne].
  - intros _ Hn. rewrite fn_lookup_insert, elem_of_cons in Hn. tauto.
  - intros _ x Hx. by rewrite over_in.
Qed.

Lemma alloc_object_spec {G} st H R cp : rest G st H R -> live st cp ->
  exists a st', alloc_object cp st = Done (a, st') /\
    ((a = 0 /\ rest G st' H R /\ step cp st st') \/
     (0 < a /\ exists c, st_caches st' !! cp = Some c /\ granted G st H R cp (ca_objSize c) a st' /\ checked st' c a)).
Proof.
  intros Hr Hl. destruct (rest_cache st H R cp Hr Hl) as (c & Ec & Ci & Mo). unfold alloc_object. rewrite (get_cache_ok _ _ _ Ec). cbn [mbind res_bind].
  assert (Href : exists st1 m1, (if mg_count (ca_mag c) =? 0 then slabRefillLocked (Z.to_nat (mg_batch (ca_mag c))) (Z.to_nat (mg_batch (ca_mag c))) cp st else Done st) = Done st1 /\
    sound G None st1 (taken st1 H) H R /\ step cp st st1 /\ mag_of st1 cp = Some m1 /\ mag_ok m1).
  { pose proof (r_sound _ _ _ _ Hr) as Hso. assert (Hm : mag_of st cp = Some (ca_mag c)) by (unfold mag_of; by rewrite Ec). destruct (Z.eqb_spec (mg_count (ca_mag c)) 0) as [Hz|]; [|exists st, (ca_mag c); split_and!; auto; reflexivity].
    pose proof Mo as [Hc Hb Hn Hrd]. unfold SLAB_MAG_MAX_ROUNDS in *. assert (0 <= mg_batch (ca_mag c) <= mg_capacity (ca_mag c)) by (rewrite Hb; dlia).
    destruct (refill_spec H R cp (Z.to_nat (mg_batch (ca_mag c))) (Z.to_nat (mg_batch (ca_mag c))) st (ca_mag c) Hso Hl Hm) as (st1 & m1 & -> & Hso1 & Hst1 & Hm1 & Hrm & Hk); [lia..|].
    exists st1, m1. split_and!; auto. eapply mag_ok_room; [exact Mo|exact Hrm|lia]. }
  destruct Href as (st1 & m1 & -> & Hso1 & Hst1 & Hm1 & Mo1). cbn [mbind res_bind]. destruct (mag_cache _ _ _ Hm1) as (c1 & Ec1 & Hcm). rewrite (get_cache_ok _ _ _ Ec1).
  cbn [mbind res_bind]. cbv zeta. rewrite Hcm. destruct (Z.ltb_spec 0 (mg_count m1)) as [Hpos|Hnp].
  2: { exists 0, st1. split; [reflexivity|]. left. split; [reflexivity|]. split; [|exact Hst1]. by eapply rest_step. }
  destruct (active_last m1 Mo1 Hpos) as (a & -> & Hact). cbn [need mbind res_bind]. set (m2 := mkMag _ _ _ _ _) in *.
  pose proof (step_live _ _ _ _ Hst1 Hl) as Hl1. destruct (sound_mag None st1 _ H R cp c1 m2 Hso1 Hl1 Ec1) as (Hso2 & Hst2 & Hm2). set (st2 := put_cache cp (set_mag m2 c1) st1) in *.
  exists a, st2. split; [reflexivity|]. right. pose proof Hso1 as (K1 & _ & Hb1). pose proof Hso2 as (K2 & Hh2 & Hb2).
  assert (Hin : a ∈ taken st1 H cp) by (rewrite (taken_cache _ _ _ _ Ec1), Hcm, Hact, !elem_of_app; left; right; by apply list_elem_of_singleton).
  assert (Hni : a ∉ H cp).
  { destruct (k_cache _ _ _ K1 cp Hl1) as (cx & Ex & Cx). rewrite Ec1 in Ex. injection Ex as <-. pose proof (ci_once _ _ _ _ Cx) as Hnd. rewrite (taken_cache _ _ _ _ Ec1), Hcm, Hact in Hnd.
    apply NoDup_app in Hnd as (_ & Hd & _). apply Hd. rewrite elem_of_app, list_elem_of_singleton. auto. }
  destruct (taken_object st1 _ R cp a K1 Hl1 Hin) as (va & s & cx & i & E & Hc & Ex & _ & Hi & Ha & _ & Hob).
  assert (Hob2 : object st2 cp va i a).
  { exists s, (set_mag m2 c1). simpl. rewrite lookup_insert_eq. rewrite Ec1 in Ex. injection Ex as <-. auto. }
  split; [pose proof (object_in_slab _ _ _ _ _ _ _ K1 Hob) as [_ Hrg]; pose proof ml_hhdm; lia|]. exists (set_mag m2 c1). split; [apply lookup_insert_eq|]. split.
  - split; [exact Hni|]. split; [eauto|]. split; [|by etransitivity]. eapply (rest_step st st2 H); [exact Hr|exact Hl|by etransitivity|exact Hm2| | |].
    + destruct Mo1 as [X1 X2 X3 X4]. split; simpl; auto; lia.
    + apply (sound_perm None _ (taken st1 H)).
      * split; [exact K2|]. split; [exact Hh2|]. eapply bytes_grant; try eassumption. apply lookup_insert_eq.
      * intros q. destruct (decide (q = cp)) as [->|Hq].
        -- rewrite (taken_cache _ _ _ _ Ec1), (taken_cache st2 cp _ (set_mag m2 c1)) by apply lookup_insert_eq. rewrite fn_lookup_insert, Hcm, Hact. simpl. by rewrite <- app_assoc.
        -- unfold taken, active_of, mag_of. rewrite fn_lookup_insert_ne, (sp_caches _ _ _ Hst2 q Hq) by auto. reflexivity.
    + intros q Hq. by rewrite fn_lookup_insert_ne.
  - eapply (object_checked st2 _ H R cp); try eassumption. apply lookup_insert_eq.
Qed.

Lemma slabAlloc_spec {G} st H R cp c flags : rest G st H R -> live st cp -> st_caches st !! cp = Some c ->
  flags .& not32 KMALLOC_FLAGS_VALID = 0 -> (flags .& KMALLOC_ZERO <> 0 -> ca_ctor c = None) ->
  exists a st', slabAlloc cp flags st = Done (a, st') /\
    ((a = 0 /\ rest G st' H R /\ step cp st st') \/
     (0 < a /\ granted G st H R cp (ca_objSize c) a st' /\ (flags .& KMALLOC_ZERO <> 0 -> forall x, a <= x < a + ca_objSize c -> st_mem st' x = 0))).
Proof.
  intros Hr Hl Ec Hf Hz. pose proof (live_ptr st cp Hl) as Hp. unfold slabAlloc. destruct (Z.eqb_spec cp 0); [lia|]. rewrite Hf. cbn [negb].
  change (negb (0 =? 0)) with false. cbv iota.
  assert (Hcon : (if negb ((flags .& KMALLOC_ZERO) =? 0) then c ← get_cache cp st; Done (bool_decide (is_Some (ca_ctor c))) else Done false) = Done false).
  { destruct (Z.eqb_spec (flags .& KMALLOC_ZERO) 0); [reflexivity|]. cbn [negb]. rewrite (get_cache_ok _ _ _ Ec). cbn [mbind res_bind]. by rewrite Hz. }
  rewrite Hcon. cbn [mbind res_bind]. rewrite (is_live st H R cp Hr Hl). cbn [mbind res_bind negb].
  destruct (alloc_object_spec st H R cp Hr Hl) as (a & st1 & -> & [(-> & Hr1 & Hst)|(Ha & c1 & Ec1 & Hg & Hck)]); cbn [mbind res_bind].
  { exists 0, st1. split; [reflexivity|]. auto. }
  destruct (Z.eqb_spec a 0); [lia|]. rewrite (get_cache_ok _ _ _ Ec1). cbn [mbind res_bind].
  assert (Hp1 : KERNEL_DEBUG && negb (slabDebugCheckPoison (bool_decide (is_Some (ca_ctor c1))) (ca_objSize c1) a (st_mem st1)) = false).
  { destruct KERNEL_DEBUG eqn:D; [|reflexivity]. by rewrite (proj1 (Hck D)). }
  assert (Hp2 : KERNEL_DEBUG && negb (slabDebugCheckRedzones (ca_layout c1) (ca_objSize c1) a (st_mem st1)) = false).
  { destruct KERNEL_DEBUG eqn:D; [|reflexivity]. by rewrite (proj2 (Hck D)). }
  rewrite Hp1, Hp2. eexists _, _. split; [reflexivity|]. right. split; [assumption|]. destruct Hg as (Hni & Hob & Hr1 & Hst).
  pose proof Hst as [_ _ _ _ Hsc]. destruct (Hsc c Ec) as (c2 & Ec2 & Hstat). rewrite Ec1 in Ec2. injection Ec2 as <-. rewrite (sc_size _ _ Hstat) in *.
  destruct (Z.eqb_spec (flags .& KMALLOC_ZERO) 0) as [Hno|Hyes]; cbn [negb]; [split; [split_and!; auto|congruence]|].
  assert (Hsz : 0 <= ca_objSize c1) by (destruct (rest_cache _ _ _ _ Hr1 (step_live _ _ _ _ Hst Hl)) as (cx & Ex & Cx & _); rewrite Ec1 in Ex; injection Ex as <-; pose proof (ft_size _ (ci_fit _ _ _ _ Cx)); lia). rewrite (sc_size _ _ Hstat) in Hsz.
  split.
  - split; [assumption|]. split; [exact Hob|]. split.
    + eapply (rest_ext _ _ _ _ _ (fun x => over_over a (ca_objSize c) _ (st_mem st1) G x)); [reflexivity|]. simpl st_mem.
      set (mem := fill_bytes _ _ _ _ _). pose proof (rest_write st1 _ R cp c1 a mem Hr1 (step_live _ _ _ _ Hst Hl) Ec1) as Hw. rewrite (sc_size _ _ Hstat) in Hw.
      apply Hw; [rewrite fn_lookup_insert; apply list_elem_of_here|]. intros x Hx. unfold mem. rewrite fill_bytes_spec, Z2Nat.id by assumption.
      destruct (Z.leb_spec (a + 0) x), (Z.ltb_spec x (a + 0 + ca_objSize c)); simpl; try reflexivity. lia.
    + destruct Hst as [A1 A2 A3 A4 A5]. split; assumption.
  - intros _ x Hx. simpl. rewrite fill_bytes_spec, Z2Nat.id by assumption.
    destruct (Z.leb_spec (a + 0) x), (Z.ltb_spec x (a + 0 + ca_objSize c)); simpl; lia || reflexivity.
Qed.

(** ** Freeing *)

Lemma in_magazine_spec a r n : forall i, 0 <= i -> i + Z.of_nat n <= zlen r ->
  exists b, in_magazine n i a r = Some b /\ (b = true <-> a ∈ take n (drop (Z.to_nat i) r)).
Proof.
  induction n as [|n IH]; intros i Hi Hn; cbn [in_magazine].
  { exists false. split; [reflexivity|]. simpl. split; [discriminate|]. by intros ?%not_elem_of_nil. }
  destruct (aget_Some r i) as (x & Hx & Hlx); [lia|]. rewrite Hx. cbn [mbind option_bind]. rewrite (drop_S _ _ _ Hlx). cbn [take]. setoid_rewrite elem_of_cons.
  destruct (Z.eqb_spec x a) as [->|Hne]; [exists true; split; [reflexivity|tauto]|].
  destruct (IH (i + 1) ltac:(lia) ltac:(lia)) as (b & -> & Hb). exists b. split; [reflexivity|]. replace (Z.to_nat (i + 1)) with (S (Z.to_nat i)) in Hb by lia.
  rewrite Hb. split; [auto|]. intros [?|?]; [congruence|assumption].
Qed.

(** The first rounds go back to their slabs and the others move down. *)
Lemma flush_full {G} st Bf H R cp m Hc : sound G None st Bf H R -> live st cp -> mag_of st cp = Some m -> mag_ok m -> mg_capacity m <= mg_count m ->
  Bf cp ≡ₚ active m ++ Hc ->
  exists st1 st2 c1 r c2,
    flush_clear (Z.to_nat (mg_batch m)) 0 cp st = Done st1 /\ st_caches st1 !! cp = Some c1 /\ ca_mag c1 = with_rounds (mg_rounds (ca_mag c1)) m /\
    shift_rounds (Z.to_nat (mg_count m - mg_batch m)) (mg_batch m) (mg_batch m) (mg_rounds (ca_mag c1)) = Some r /\
    let m1 := mkMag (u16 (mg_count m - mg_batch m)) (mg_capacity m) (mg_batch m) (mg_allocated m) r in
    slab_reclaim cp SLAB_EMPTY_KEEP (put_cache cp (set_mag m1 c1) st1) = Done st2 /\ st_caches st2 !! cp = Some c2 /\ ca_mag c2 = m1 /\
    mag_ok m1 /\ mg_count m1 < mg_capacity m1 /\ step cp st st2 /\ sound G None st2 (<[cp := active m1 ++ Hc]> Bf) H R.
Proof.
  intros Hso Hl Hm Mo Hfull HB. destruct Mo as [Mc Mb Mn Mr]. unfold SLAB_MAG_MAX_ROUNDS in *. assert (Hb : 2 <= mg_batch m < mg_capacity m) by (rewrite Mb; dlia).
  set (d := mg_batch m) in *. set (n := mg_count m) in *. set (B' := take (Z.to_nat (n - d)) (drop (Z.to_nat d) (mg_rounds m)) ++ Hc).
  destruct (flush_clear_spec cp H R (Z.to_nat d) 0 st Bf B' m Hso Hl Hm) as (st1 & r1 & E1 & Hso1 & Hst1 & Hm1 & Hz1 & Hd1); [lia|lia| |].
  { rewrite HB. unfold B'. rewrite app_assoc. f_equiv. unfold active. simpl drop. fold n.
    replace (Z.to_nat n) with (Z.to_nat d + Z.to_nat (n - d))%nat by lia. by rewrite take_take_drop. }
  destruct (mag_cache _ _ _ Hm1) as (c1 & Ec1 & Hcm). assert (Hr1 : mg_rounds (ca_mag c1) = r1) by (by rewrite Hcm).
  destruct (shift_rounds_spec (Z.to_nat (n - d)) d d r1) as (r & Er & Hzr & Htr); [lia|lia|]. rewrite Z.sub_diag in Htr. simpl in Htr.
  simpl in Hd1. rewrite Hd1 in Htr. set (m1 := mkMag (u16 (n - d)) (mg_capacity m) d (mg_allocated m) r).
  assert (Hcnt : u16 (n - d) = n - d) by (apply u16_small; words; lia).
  pose proof (step_live _ _ _ _ Hst1 Hl) as Hl1. destruct (sound_mag None st1 _ H R cp c1 m1 Hso1 Hl1 Ec1) as (Hso2 & Hst2 & Hm2).
  set (st1' := put_cache cp (set_mag m1 c1) st1) in *.
  destruct (reclaim_spec (G := G) cp SLAB_EMPTY_KEEP H R (<[cp := B']> Bf) st1' (set_mag m1 c1)) as (st2 & c2 & E2 & Hso3 & Hst3 & Ec2 & Hcm2 & _);
    [unfold SLAB_EMPTY_KEEP; lia|exact Hso2|by apply (step_live cp st1)|apply lookup_insert_eq|].
  exists st1, st2, c1, r, c2. split; [exact E1|]. split; [exact Ec1|]. split; [by rewrite Hr1|]. split; [by rewrite Hr1|]. cbv zeta. fold m1. fold st1'.
  split; [exact E2|]. split; [exact Ec2|]. split; [exact Hcm2|]. split.
  { split; unfold m1; simpl; rewrite ?Hcnt; auto; try lia. rewrite Hzr, Hz1. exact Mr. }
  split; [unfold m1; simpl; lia|]. split; [by repeat (etransitivity; [eassumption|])|]. eapply sound_perm; [exact Hso3|]. intros q. destruct (decide (q = cp)) as [->|]; [|by rewrite !fn_lookup_insert_ne].
  rewrite !fn_lookup_insert. unfold B', active, m1. simpl. rewrite Hcnt, Htr. reflexivity.
Qed.

Lemma free_push_spec {G} st Bf H R cp a m : sound G None st Bf H R -> live st cp -> mag_of st cp = Some m -> mag_ok m ->
  Bf cp ≡ₚ active m ++ a :: H cp -> (forall q, q <> cp -> Bf q = taken st H q) ->
  exists st' m', free_push cp a st = Done st' /\ sound G None st' (taken st' H) H R /\ step cp st st' /\ mag_of st' cp = Some m' /\ mag_ok m'.
Proof.
  intros Hso Hl Hm Mo HB Ho. destruct (mag_cache _ _ _ Hm) as (c & Ec & Hcm). unfold free_push. rewrite (get_cache_ok _ _ _ Ec). cbn [mbind res_bind]. rewrite Hcm.
  match goal with |- context [mbind _ ?x] => assert (Hfl : exists st1 c1, x = Done st1 /\ st_caches st1 !! cp = Some c1 /\ mag_ok (ca_mag c1) /\
    mg_count (ca_mag c1) < mg_capacity (ca_mag c1) /\ step cp st st1 /\ sound G None st1 (<[cp := active (ca_mag c1) ++ a :: H cp]> Bf) H R) end.
  { destruct (Z.leb_spec (mg_capacity m) (mg_count m)) as [Hfull|Hroom].
    - destruct (flush_full st Bf H R cp m (a :: H cp) Hso Hl Hm Mo Hfull HB) as (st1 & st2 & c1 & r & c2 & E1 & Ec1 & Hcm1 & Er & E2 & Ec2 & Hcm2 & Mo2 & Hlt & Hst & Hso2).
      cbv zeta in *. exists st2, c2. rewrite E1. cbn [mbind res_bind]. rewrite (get_cache_ok _ _ _ Ec1). cbn [mbind res_bind].
      assert (mg_count (ca_mag c1) = mg_count m /\ mg_capacity (ca_mag c1) = mg_capacity m /\ mg_batch (ca_mag c1) = mg_batch m /\ mg_allocated (ca_mag c1) = mg_allocated m) as (-> & -> & -> & ->) by (rewrite Hcm1; auto).
      rewrite Er. cbn [need mbind res_bind]. rewrite Hcm2. auto 6.
    - exists st, c. rewrite Hcm. split_and!; auto; [reflexivity|]. eapply sound_perm; [exact Hso|]. by apply fn_insert_id. }
  destruct Hfl as (st1 & c1 & -> & Ec1 & Mo1 & Hlt & Hst1 & Hso1). cbn [mbind res_bind]. rewrite (get_cache_ok _ _ _ Ec1). cbn [mbind res_bind]. cbv zeta.
  destruct Mo1 as [Mc Mb Mn Mr]. unfold SLAB_MAG_MAX_ROUNDS in *. rewrite aset_Some by lia. cbn [need mbind res_bind].
  assert (Hcnt : u16 (mg_count (ca_mag c1) + 1) = mg_count (ca_mag c1) + 1) by (apply u16_small; words; lia). rewrite Hcnt. set (m2 := mkMag _ _ _ _ _).
  destruct (sound_mag None st1 _ H R cp c1 m2 Hso1 (step_live _ _ _ _ Hst1 Hl) Ec1) as (Hso2 & Hst2 & Hm2). set (st2 := put_cache cp (set_mag m2 c1) st1) in *.
  exists st2, m2. split; [reflexivity|]. assert (Hst : step cp st st2) by (by etransitivity). split_and!; auto.
  - eapply sound_perm; [exact Hso2|]. intros q. destruct (decide (q = cp)) as [->|Hq].
    + rewrite fn_lookup_insert, (taken_cache st2 cp H (set_mag m2 c1)) by apply lookup_insert_eq. simpl. unfold active at 2. simpl. rewrite active_push by lia.
      by rewrite <- app_assoc.
    + rewrite fn_lookup_insert_ne, Ho by auto. by rewrite (taken_other _ _ _ _ _ Hst Hq).
  - split; unfold m2; simpl; auto; try lia. by rewrite zlen_insert.
Qed.

(** The object's slab says that it is taken. *)
Lemma held_busy {G} st H R cp va i a : rest G st H R -> live st cp -> object st cp va i a ->
  exists s c, st_slabs st !! va = Some s /\ st_caches st !! cp = Some c /\ sl_cache s = cp /\ mag_ok (ca_mag c) /\ 0 <= i < sl_objCount s /\
    is_Some (aget (sl_bufctl s) i) /\
    (aget (sl_bufctl s) i = Some SLAB_BUFCTL_BUSY <-> a ∈ active (ca_mag c) \/ a ∈ H cp) /\ NoDup (active (ca_mag c) ++ H cp).
Proof.
  intros Hr Hl Hob. pose proof Hob as (s & c & E & Hc & Ec & Hi & Ha). destruct (rest_cache st H R cp Hr Hl) as (cx & Ex & Ci & Mo). rewrite Ec in Ex. injection Ex as <-.
  destruct (r_sound _ _ _ _ Hr) as (K & _ & _). exists s, c. split_and!; auto; try lia.
  - destruct (so_free _ _ _ (ci_slab _ _ _ _ Ci va s E Hc)) as (fl & Hfl). destruct (aget_Some (sl_bufctl s) i) as (v & -> & _); [|eauto]. rewrite (fl_length _ _ Hfl). assumption.
  - rewrite <- elem_of_app, (ci_busy _ _ _ _ Ci a). split; [intros Hb; exists va, s, i; auto|].
    intros (va2 & s2 & i2 & E2 & H2 & Hi2 & Ha2 & Hb2). destruct (object_unique _ _ _ cp va2 i2 cp va i a K) as (_ & -> & ->); [exists s2, c; auto|assumption|]. congruence.
  - apply (ci_once _ _ _ _ Ci).
Qed.

(** Poison on free: the object leaves its client. *)
Lemma bytes_poison {G} st Bf H H' R cp c va i a : core st Bf R -> bytes_ok G st H -> object st cp va i a -> st_caches st !! cp = Some c -> a ∉ H' cp ->
  (forall q x, x <> a -> x ∈ H' q <-> x ∈ H q) ->
  bytes_ok G (if KERNEL_DEBUG then with_bytes (slabDebugPoisonFree (bool_decide (is_Some (ca_ctor c))) (ca_objSize c) a (st_mem st)) st else st) H'.
Proof.
  intros K Hb Hob Ec Ha HH. assert (Hsz : 0 <= ca_objSize c).
  { destruct Hob as (s & c0 & E & Hc & Ec0 & _). rewrite <- Hc in *. destruct (slab_cache _ _ _ _ _ K E) as (cx & Ex & _ & _ & F & _). rewrite Ec in Ex. injection Ex as <-. pose proof (ft_size _ F). lia. }
  destruct KERNEL_DEBUG eqn:D.
  - eapply bytes_write; try eassumption; [| |intros; contradiction].
    + intros x Hx. split; [|reflexivity]. rewrite poison_free by assumption.
      destruct (negb _), (Z.leb_spec a x), (Z.ltb_spec x (a + ca_objSize c)); simpl; try reflexivity. lia.
    + intros _ _ Hct x Hx. rewrite poison_free, Hct by assumption. destruct (Z.leb_spec a x), (Z.ltb_spec x (a + ca_objSize c)); simpl; lia || reflexivity.
  - replace st with (with_bytes (st_mem st) st) by (by destruct st). eapply bytes_write; try eassumption; [auto|congruence|intros; contradiction].
Qed.

Lemma slabFreeCommon_spec {G} st H R cp va i a Hc : rest G st H R -> live st cp -> object st cp va i a -> H cp ≡ₚ a :: Hc ->
  exists st', slabFreeCommon cp va i a st = Done st' /\ rest G st' (<[cp := Hc]> H) R /\ step cp st st'.
Proof.
  intros Hr Hl Hob HH. destruct (held_busy st H R cp va i a Hr Hl Hob) as (s & c & E & Ec & Hcs & Mo & Hi & _ & Hbz & Hnd).
  assert (Ha : a ∈ H cp) by (rewrite HH; apply list_elem_of_here). pose proof (r_sound _ _ _ _ Hr) as (K & Hh & Hb).
  unfold slabFreeCommon. rewrite (get_cache_ok _ _ _ Ec). cbn [mbind res_bind]. rewrite (get_slab_ok _ _ _ E). cbn [mbind res_bind].
  rewrite (proj2 Hbz (or_intror Ha)). cbn [need mbind res_bind]. rewrite Z.eqb_refl. cbn [negb].
  destruct (in_magazine_spec a (mg_rounds (ca_mag c)) (Z.to_nat (mg_count (ca_mag c))) 0) as (b & -> & Hin); [lia|destruct Mo; unfold SLAB_MAG_MAX_ROUNDS in *; lia|].
  cbn [need mbind res_bind]. assert (b = false) as ->.
  { destruct b; [|reflexivity]. exfalso. apply NoDup_app in Hnd as (_ & Hd & _). apply (Hd a); [by apply Hin|assumption]. }
  destruct (object_checked st _ H R cp c va i a K Hb Hob Ec) as [Hrz _].
  assert (Hck : KERNEL_DEBUG && negb (slabDebugCheckRedzones (ca_layout c) (ca_objSize c) a (st_mem st)) = false) by (destruct KERNEL_DEBUG; [by rewrite Hrz|reflexivity]).
  rewrite Hck. cbv zeta. set (H' := <[cp := Hc]> H). set (st1 := if KERNEL_DEBUG then _ else _).
  assert (Hb1 : bytes_ok G st1 H').
  { apply (bytes_poison st (taken st H) H H' R cp c va i a); try assumption; unfold H'.
    - rewrite fn_lookup_insert. apply NoDup_app in Hnd as (_ & _ & Hnd). rewrite HH in Hnd. by apply NoDup_cons in Hnd as [Hnd _].
    - intros q x Hx. destruct (decide (q = cp)) as [->|]; [|by rewrite fn_lookup_insert_ne]. rewrite fn_lookup_insert, HH, elem_of_cons. tauto. }
  assert (Heq : st_caches st1 = st_caches st /\ st_inUse st1 = st_inUse st /\ step cp st st1).
  { unfold st1. destruct KERNEL_DEBUG; split_and!; try reflexivity. split; auto. intros c2 E2. exists c2. split; [exact E2|reflexivity]. }
  destruct Heq as (Hcc & Hui & Hst1). assert (K1 : core st1 (taken st H) R) by (unfold st1; destruct KERNEL_DEBUG; [by apply core_bytes|assumption]).
  destruct (free_push_spec (G := G) st1 (taken st H) H' R cp a (ca_mag c)) as (st' & m' & -> & Hso' & Hst' & Hm' & Mo').
  - split; [exact K1|]. split; [unfold st1; destruct KERNEL_DEBUG; exact Hh|exact Hb1].
  - by apply (step_live cp st).
  - unfold mag_of. rewrite Hcc, Ec. reflexivity.
  - exact Mo.
  - rewrite (taken_cache _ _ _ _ Ec). unfold H'. rewrite fn_lookup_insert, HH. reflexivity.
  - intros q Hq. unfold taken, active_of, mag_of, H'. rewrite Hcc, fn_lookup_insert_ne by auto. reflexivity.
  - exists st'. split; [reflexivity|]. assert (Hst : step cp st st') by (by etransitivity). split; [|exact Hst].
    eapply (rest_step st st' H H' R cp m'); try eassumption. intros q Hq. unfold H'. by rewrite fn_lookup_insert_ne.
Qed.

(** ** Wrong pointers *)

(** A call that reports a bug reports it with the pointer and leaves everything else alone. *)
Definition reports {A} (r : res A) st (bug : SlabBugKind) (a : Z) : Prop := r = Bugged (with_last bug a st).

(** An object that is not held: on a free list or in the magazine. *)
Lemma double_free {G} st H R cp va i a : rest G st H R -> live st cp -> object st cp va i a -> a ∉ H cp ->
  reports (slabFreeCommon cp va i a st) st SLAB_BUG_DOUBLE_FREE a.
Proof.
  intros Hr Hl Hob Hni. destruct (held_busy st H R cp va i a Hr Hl Hob) as (s & c & E & Ec & Hcs & Mo & Hi & [b Hbv] & Hbz & Hnd).
  unfold reports, slabFreeCommon. rewrite (get_cache_ok _ _ _ Ec). cbn [mbind res_bind]. rewrite (get_slab_ok _ _ _ E). cbn [mbind res_bind]. rewrite Hbv in *. cbn [need mbind res_bind].
  destruct (Z.eqb_spec b SLAB_BUFCTL_BUSY) as [->|Hne]; cbn [negb mbind res_bind]; [|reflexivity].
  destruct (in_magazine_spec a (mg_rounds (ca_mag c)) (Z.to_nat (mg_count (ca_mag c))) 0) as (b & -> & Hin); [lia|destruct Mo; unfold SLAB_MAG_MAX_ROUNDS in *; lia|].
  cbn [need mbind res_bind]. destruct (proj1 Hbz eq_refl) as [Hact|]; [|contradiction]. rewrite (proj2 Hin Hact). reflexivity.
Qed.

Lemma slabFree_spec {G} st H R cp a : rest G st H R -> is_u64 a -> a <> 0 ->
  (exists bug, verdict st a bug /\ reports (slabFree cp a st) st bug a) \/
  (exists cp' va i, object st cp' va i a /\ live st cp' /\
    ((cp' <> cp /\ reports (slabFree cp a st) st SLAB_BUG_WRONG_CACHE a) \/
     (cp' = cp /\ slabFree cp a st = slabFreeCommon cp va i a st))).
Proof.
  intros Hr Ha Hnz. destruct (r_sound _ _ _ _ Hr) as (K & _ & _). unfold reports, slabFree. destruct (Z.eqb_spec a 0); [contradiction|].
  destruct (resolve_spec st _ R a K Ha) as [(bug & -> & Hv)|(cp' & va & i & -> & Hob)]; cbn [mbind res_bind]; [left; eauto|right].
  pose proof Hob as (s & c & E & Hc & Ec & Hi & _). exists cp', va, i. split; [exact Hob|]. split; [rewrite <- Hc; by apply (k_owned _ _ _ K va)|].
  rewrite (get_slab_ok _ _ _ E). cbn [mbind res_bind]. rewrite Hc. destruct (Z.eqb_spec cp' cp) as [->|Hne]; cbn [negb]; auto.
Qed.

Lemma kfree_spec {G} st H R a : rest G st H R -> is_u64 a -> a <> 0 ->
  (exists bug, verdict st a bug /\ reports (kfree a st) st bug a) \/
  (exists cp va i c, object st cp va i a /\ live st cp /\ st_caches st !! cp = Some c /\
    ((ca_flags c .& SLAB_CACHE_KMALLOC = 0 /\ reports (kfree a st) st SLAB_BUG_WRONG_CACHE a) \/
     (ca_flags c .& SLAB_CACHE_KMALLOC <> 0 /\ kfree a st = slabFreeCommon cp va i a st))).
Proof.
  intros Hr Ha Hnz. destruct (r_sound _ _ _ _ Hr) as (K & _ & _). unfold reports, kfree. destruct (Z.eqb_spec a 0); [contradiction|].
  destruct (resolve_spec st _ R a K Ha) as [(bug & -> & Hv)|(cp & va & i & -> & Hob)]; cbn [mbind res_bind]; [left; eauto|right].
  pose proof Hob as (s & c & E & Hc & Ec & Hi & _). exists cp, va, i, c. split; [exact Hob|]. split; [rewrite <- Hc; by apply (k_owned _ _ _ K va)|]. split; [exact Ec|].
  rewrite (get_slab_ok _ _ _ E). cbn [mbind res_bind]. rewrite Hc, (get_cache_ok _ _ _ Ec). cbn [mbind res_bind].
  destruct (Z.eqb_spec (ca_flags c .& SLAB_CACHE_KMALLOC) 0); auto.
Qed.

(** ** Shrinking and destroying *)

Lemma no_busy_all_free s fl : free_list s fl -> (forall i, 0 <= i < sl_objCount s -> aget (sl_bufctl s) i <> Some SLAB_BUFCTL_BUSY) -> sl_freeCount s = sl_objCount s.
Proof.
  intros F Hb. apply Z.le_antisymm; [rewrite (fl_count _ _ F); by apply free_list_length|]. rewrite (fl_count _ _ F).
  assert (Hsub : seqZ 0 (sl_objCount s) ⊆+ fl).
  { apply NoDup_submseteq; [apply NoDup_seqZ|]. intros i Hi. apply elem_of_seqZ in Hi. destruct (decide (i ∈ fl)) as [|Hn]; [assumption|]. exfalso. apply (Hb i); [lia|]. apply (fl_busy _ _ F i); [lia|assumption]. }
  apply submseteq_length in Hsub. rewrite length_seqZ in Hsub. pose proof (fl_range _ _ F). unfold zlen. lia.
Qed.

(** A cache without busy objects and without empty slabs has no slabs. *)
Lemma no_slabs st Bf R cp c : core st Bf R -> homed None st -> live st cp -> st_caches st !! cp = Some c -> Bf cp = [] -> ca_empty c = [] ->
  ca_slabCount c = 0 /\ ca_partial c = [] /\ ca_full c = [].
Proof.
  intros K Hh Hl Ec HB He. destruct (k_cache _ _ _ K cp Hl) as (cx & Ex & Ci). rewrite Ec in Ex. injection Ex as <-.
  assert (Hn : forall va s, st_slabs st !! va = Some s -> sl_cache s <> cp).
  { intros va s E Hc. pose proof (ci_slab _ _ _ _ Ci va s E Hc) as O. destruct (so_free _ _ _ O) as (fl & Hfl). pose proof (fit_bounds c (ci_fit _ _ _ _ Ci)) as (_ & _ & B3 & _).
    assert (Hfr : sl_freeCount s = sl_objCount s).
    { eapply no_busy_all_free; [exact Hfl|]. intros i Hi Hb. assert (Hin : slot c s i ∈ Bf cp) by (apply (ci_busy _ _ _ _ Ci); exists va, s, i; auto). rewrite HB in Hin. by apply not_elem_of_nil in Hin. }
    assert (Hin : va ∈ ca_empty c).
    { apply (slab_listed _ _ _ _ _ _ SLAB_LIST_EMPTY Ci E Hc). rewrite (Hh va s E) by discriminate. unfold want. rewrite Hfr, Z.eqb_refl, (so_count _ _ _ O).
      destruct (Z.eqb_spec (ly_objsPerSlab (ca_layout c)) 0); [lia|reflexivity]. }
    rewrite He in Hin. by apply not_elem_of_nil in Hin. }
  assert (Hnil : forall k, clist k c = []).
  { intros k. destruct (clist k c) as [|va l] eqn:El; [reflexivity|]. exfalso. assert (Hin : va ∈ clist k c) by (rewrite El; apply list_elem_of_here).
    apply (ci_list _ _ _ _ Ci) in Hin as (s & E & Hc & _). by apply (Hn va s). }
  pose proof (Hnil SLAB_LIST_PARTIAL) as Hp. pose proof (Hnil SLAB_LIST_FULL) as Hf. simpl in Hp, Hf. split; [|auto]. rewrite (ci_slabs _ _ _ _ Ci), Hp, Hf, He. reflexivity.
Qed.

Definition emptied (m : SlabMagazine) : SlabMagazine := mkMag 0 (mg_capacity m) (mg_batch m) (mg_allocated m) (mg_rounds m).

Lemma flush_spec {G} st H R cp : rest G st H R -> live st cp ->
  exists st' m, slabCacheFlushMagazineLocked cp st = Done st' /\ rest G st' H R /\ step cp st st' /\ mag_of st' cp = Some m /\ mg_count m = 0.
Proof.
  intros Hr Hl. destruct (rest_cache st H R cp Hr Hl) as (c & Ec & Ci & Mo). pose proof (r_sound _ _ _ _ Hr) as Hso. unfold slabCacheFlushMagazineLocked.
  rewrite (get_cache_ok _ _ _ Ec). cbn [mbind res_bind]. pose proof Mo as [Mc Mb Mn Mr]. unfold SLAB_MAG_MAX_ROUNDS in *.
  assert (Hm : mag_of st cp = Some (ca_mag c)) by (unfold mag_of; by rewrite Ec).
  destruct (flush_rounds_spec cp H R (Z.to_nat (mg_count (ca_mag c))) 0 st (taken st H) (H cp) (ca_mag c) Hso Hl Hm) as (st1 & -> & Hso1 & Hst1 & Hm1); [lia|lia|by rewrite (taken_cache _ _ _ _ Ec)|].
  cbn [mbind res_bind]. rewrite Hm in Hm1. destruct (mag_cache _ _ _ Hm1) as (c1 & Ec1 & Hcm). rewrite (get_cache_ok _ _ _ Ec1). cbn [mbind res_bind]. cbv zeta. rewrite Hcm.
  fold (emptied (ca_mag c)). pose proof (step_live _ _ _ _ Hst1 Hl) as Hl1. destruct (sound_mag None st1 _ H R cp c1 (emptied (ca_mag c)) Hso1 Hl1 Ec1) as (Hso2 & Hst2 & Hm2).
  set (st2 := put_cache cp _ st1) in *. assert (Hst : step cp st st2) by (by etransitivity).
  exists st2, (emptied (ca_mag c)). split; [reflexivity|]. split; [|auto]. eapply (rest_step st st2 H H R cp _ Hr Hl Hst Hm2); [|  |auto].
  - split; simpl; auto; lia.
  - eapply sound_perm; [exact Hso2|]. eapply taken_insert; [exact Hst|apply lookup_insert_eq|reflexivity].
Qed.

(** A cache without slabs on its lists has none at all. *)
Lemma lists_no_slab st Bf R cp c : core st Bf R -> live st cp -> st_caches st !! cp = Some c -> ca_partial c = [] -> ca_full c = [] -> ca_empty c = [] ->
  forall va s, st_slabs st !! va = Some s -> sl_cache s <> cp.
Proof.
  intros K Hl Ec Hp Hf He va s E Hc. destruct (k_cache _ _ _ K cp Hl) as (cx & Ex & Ci). rewrite Ec in Ex. injection Ex as <-.
  pose proof (proj2 (slab_listed _ _ _ _ _ _ (sl_list s) Ci E Hc) eq_refl) as Hin. pose proof (slab_on_list _ _ _ _ _ _ Ci E Hc).
  destruct (sl_list s); simpl in Hin; rewrite ?Hp, ?Hf, ?He in Hin; first [contradiction|by apply not_elem_of_nil in Hin].
Qed.

(** What a shrink leaves: an empty magazine and no empty slab, and nothing at all of a cache
    without held objects. *)
Definition shrunk st H cp : Prop := exists c, st_caches st !! cp = Some c /\ mg_count (ca_mag c) = 0 /\ ca_empty c = [] /\
  (H cp = [] -> ca_slabCount c = 0 /\ ca_partial c = [] /\ ca_full c = []).

Lemma shrink_spec {G} st H R cp : rest G st H R -> live st cp ->
  exists st1 st', slabCacheFlushMagazineLocked cp st = Done st1 /\ slab_reclaim cp 0 st1 = Done st' /\ rest G st' H R /\ step cp st st' /\ shrunk st' H cp.
Proof.
  intros Hr Hl. destruct (flush_spec st H R cp Hr Hl) as (st1 & m & E1 & Hr1 & Hst1 & Hm & Hcnt). pose proof (step_live _ _ _ _ Hst1 Hl) as Hl1.
  destruct (rest_cache st1 H R cp Hr1 Hl1) as (c1 & Ec1 & Ci1 & Mo1). destruct (reclaim_spec cp 0 H R (taken st1 H) st1 c1 ltac:(lia) (r_sound _ _ _ _ Hr1) Hl1 Ec1) as (st' & c' & E' & Hso' & Hst' & Ec' & Hm' & Hz).
  exists st1, st'. split; [exact E1|]. split; [exact E'|]. assert (Hcm : ca_mag c1 = m) by (unfold mag_of in Hm; rewrite Ec1 in Hm; by injection Hm).
  assert (Ht : forall q, taken st1 H q = taken st' H q).
  { intros q. destruct (decide (q = cp)) as [->|]; [|symmetry; by eapply taken_other]. by rewrite (taken_cache _ _ _ _ Ec1), (taken_cache _ _ _ _ Ec'), Hm'. }
  assert (Hso'' : sound G None st' (taken st' H) H R) by (eapply sound_perm; [exact Hso'|intros q; by rewrite Ht]).
  assert (He : ca_empty c' = []) by (destruct (ca_empty c'); [reflexivity|]; rewrite zlen_cons in Hz; pose proof (zlen_nonneg l); lia).
  split; [eapply (rest_step st1 st' H H R cp (ca_mag c')); eauto; [unfold mag_of; by rewrite Ec'|by rewrite Hm']|]. split; [by etransitivity|].
  exists c'. rewrite Hm', Hcm. split_and!; auto. intros HH. destruct Hso'' as (K & Hh & _).
  destruct (no_slabs st' _ R cp c' K Hh (step_live _ _ _ _ Hst' Hl1) Ec') as (X1 & X2 & X3); auto.
  rewrite (taken_cache _ _ _ _ Ec'), Hm', Hcm, HH. unfold active. by rewrite Hcnt.
Qed.
End Client.
