(* ===== verification/SlabCaches.v ===== *)
(** * Caches of the slab allocator

    Creating and destroying caches, shrinking all of them, kmalloc's classes and
    slabInit, under the invariant of [SlabInv] and [SlabClient]. *)

From stdpp Require Import functions.
From S2P Require Import Prelude BootTypes SlabCore Slab SlabInv SlabClient.

Section Caches.
Context {P : Type} {PA : PageAllocator P} {PL : PageAllocatorLaws P} {MC : Machine} {ML : MachineLaws}.

Implicit Types (G : Z -> Z) (st : @SlabState P) (c : SlabCache) (R : list (Z * Z)) (H : Z -> list Z).

(** ** Slots *)

Lemma cache_ptr_inj i j : cache_ptr i = cache_ptr j -> i = j.
Proof. unfold cache_ptr, sizeof_SlabCache. lia. Qed.

Lemma live_at st i : 0 <= i < SLAB_MAX_CACHES -> live st (cache_ptr i) <-> aget (st_inUse st) i = Some true.
Proof.
  intros Hi. split; [|intros Hu; exists i; auto]. intros (j & _ & Hj & Hu). apply cache_ptr_inj in Hj. by subst j.
Qed.

(** A state whose slot [i] is written. *)
Definition with_slot (i : Z) (b : bool) c st : SlabState :=
  put_cache (cache_ptr i) c (with_inUse (<[Z.to_nat i := b]> (st_inUse st)) st).

Lemma live_slot st i b c q : 0 <= i < SLAB_MAX_CACHES -> zlen (st_inUse st) = SLAB_MAX_CACHES ->
  live (with_slot i b c st) q <-> if decide (q = cache_ptr i) then b = true else live st q.
Proof.
  intros Hi Hz. unfold live at 1. simpl. split.
  - intros (j & Hj & -> & Hu). rewrite aget_insert in Hu by lia. destruct (Z.eqb_spec j i) as [->|Hne].
    + rewrite decide_True by reflexivity. congruence.
    + rewrite decide_False by (intros ?%cache_ptr_inj; contradiction). exists j. auto.
  - intros Hq. case_decide as Hd.
    + exists i. rewrite aget_insert, Z.eqb_refl by lia. subst. auto.
    + destruct Hq as (j & Hj & -> & Hu). exists j. rewrite aget_insert by lia. destruct (Z.eqb_spec j i) as [->|]; [contradiction|]. auto.
Qed.

(** A cache as slabCacheCreate leaves it. *)
Record fresh_cache c : Prop := {
  fc_fit : fit c; fc_magic : ca_magic c = SLAB_CACHE_MAGIC;
  fc_lists : ca_partial c = [] /\ ca_full c = [] /\ ca_empty c = [];
  fc_counts : ca_slabCount c = 0 /\ ca_emptySlabCount c = 0;
  fc_mag : mag_ok (ca_mag c) /\ mg_count (ca_mag c) = 0
}.

Lemma fresh_cinv cp c M : fresh_cache c -> (forall va s, M !! va = Some s -> sl_cache s <> cp) -> cinv cp c M [].
Proof.
  intros [F Mg (Lp & Lf & Le) (N1 & N2) _] Hno. assert (Hnil : forall k, clist k c = []) by (intros []; simpl; auto). split; try assumption.
  - intros va s E Hc. by apply Hno in E.
  - intros k va. rewrite Hnil. split; [by intros ?%not_elem_of_nil|]. intros (s & E & Hc & _). by apply Hno in E.
  - intros k. rewrite Hnil. constructor.
  - by rewrite N1, Lp, Lf, Le.
  - by rewrite N2, Le.
  - constructor.
  - intros a. split; [by intros ?%not_elem_of_nil|]. intros (va & s & i & E & Hc & _). by apply Hno in E.
Qed.

(** A slot whose cache has neither slabs nor clients is rewritten. *)
Lemma rest_slot {G} st H R i b c : rest G st H R -> 0 <= i < SLAB_MAX_CACHES ->
  (forall va s, st_slabs st !! va = Some s -> sl_cache s <> cache_ptr i) -> H (cache_ptr i) = [] ->
  (forall j, aget (st_kmalloc st) j <> Some (cache_ptr i)) -> (b = true -> fresh_cache c) -> rest G (with_slot i b c st) H R.
Proof.
  intros [(K & Hh & Hb) M1 I1 N1 C1] Hi Hno HH Hk Hf. pose proof (k_slots _ _ _ K) as Hz. set (st' := with_slot i b c st).
  assert (Hlive : forall q, live st' q <-> if decide (q = cache_ptr i) then b = true else live st q) by (intros q; by apply live_slot).
  assert (Hoth : forall q, q <> cache_ptr i -> st_caches st' !! q = st_caches st !! q) by (intros q Hq; by apply lookup_insert_ne).
  assert (Hown : forall va s, st_slabs st !! va = Some s -> live st' (sl_cache s)).
  { intros va s E. apply Hlive. rewrite decide_False by (by apply (Hno va)). by apply (k_owned _ _ _ K va). }
  split; [split; [|split]| | |exact N1|].
  - split; try apply K; [simpl; by rewrite zlen_insert| | |exact Hown].
    + intros j Hj. destruct (decide (cache_ptr j = cache_ptr i)) as [->|Hne]; [eexists; apply lookup_insert_eq|rewrite Hoth by assumption; by apply K].
    + intros q Hq. apply Hlive in Hq. case_decide as Hd.
      * subst q. exists c. split; [apply lookup_insert_eq|]. specialize (Hf Hq). rewrite (taken_cache st' _ _ c) by apply lookup_insert_eq.
        unfold active. rewrite (proj2 (fc_mag _ Hf)), HH. by apply fresh_cinv.
      * destruct (k_cache _ _ _ K q Hq) as (c0 & E0 & Ci). exists c0. rewrite Hoth by assumption. split; [exact E0|].
        unfold taken, active_of, mag_of in *. by rewrite Hoth.
  - exact Hh.
  - intros va s c0 j E Ec Hj. rewrite Hoth in Ec by (by apply (Hno va)). by apply (Hb va s c0 j).
  - intros q m Hq Hm. apply Hlive in Hq. case_decide as Hd.
    + subst q. unfold mag_of in Hm. simpl in Hm. rewrite lookup_insert_eq in Hm. injection Hm as <-. by apply Hf.
    + apply (M1 q m Hq). unfold mag_of in *. by rewrite Hoth in Hm.
  - intros q Hq. destruct (decide (q = cache_ptr i)) as [->|Hne]; [exact HH|]. apply I1. intros Hl. apply Hq, Hlive. by rewrite decide_False.
  - intros j q Hj Hnz. destruct (C1 j q Hj Hnz) as (c0 & X1 & X2 & X3 & X4). assert (Hne : q <> cache_ptr i) by (intros ->; by apply (Hk j)).
    exists c0. rewrite Hoth by assumption. split; [exact Hj|]. split; [|auto]. apply Hlive. by rewrite decide_False.
Qed.

(** ** Creating *)

Lemma find_slot_spec l : forall i,
  match find_slot l i with
  | None => forall j, 0 <= j < zlen l -> aget l j = Some true
  | Some k => i <= k < i + zlen l /\ aget l (k - i) = Some false /\ forall j, 0 <= j < k - i -> aget l j = Some true
  end.
Proof.
  assert (Hnext : forall (l : list bool) u j, 0 < j -> aget (u :: l) j = aget l (j - 1)).
  { intros m u j Hj. unfold aget. destruct (Z.ltb_spec j 0), (Z.ltb_spec (j - 1) 0); try lia. by replace (Z.to_nat j) with (S (Z.to_nat (j - 1))) by lia. }
  induction l as [|u l IH]; intros i; cbn [find_slot]; [intros j Hj; unfold zlen in Hj; simpl in Hj; lia|]. rewrite zlen_cons. pose proof (zlen_nonneg l). destruct u.
  - specialize (IH (i + 1)). destruct (find_slot l (i + 1)) as [k|].
    + destruct IH as (Hk & Hg & Hlt). split; [lia|]. split; [rewrite Hnext by lia; by replace (k - i - 1) with (k - (i + 1)) by lia|].
      intros j Hj. destruct (decide (j = 0)) as [->|]; [reflexivity|]. rewrite Hnext by lia. apply Hlt. lia.
    + intros j Hj. destruct (decide (j = 0)) as [->|]; [reflexivity|]. rewrite Hnext by lia. apply IH. lia.
  - split; [lia|]. rewrite Z.sub_diag. split; [reflexivity|]. intros; lia.
Qed.

(** The alignments slabCacheCreate accepts are the powers of two from 8 to a page. *)
Lemma align_pow a : 8 <= a <= 4096 -> a .& (a - 1) = 0 <-> exists k, 3 <= k <= 12 /\ a = 2 ^ k.
Proof.
  intros Ha. split.
  - intros Hz. assert (Hall : forallb (fun a => negb (Z.land a (a - 1) =? 0) || existsb (fun k => a =? 2 ^ k) (seqZ 3 10)) (seqZ 8 4089) = true) by (vm_compute; reflexivity).
    rewrite forallb_forall in Hall. specialize (Hall a). rewrite Hz in Hall. simpl negb in Hall. rewrite orb_false_l, existsb_exists in Hall.
    destruct Hall as (k & Hk & Heq); [apply list_elem_of_In, elem_of_seqZ; lia|]. apply list_elem_of_In, elem_of_seqZ in Hk. exists k. split; [lia|]. by apply Z.eqb_eq.
  - intros (k & Hk & ->). replace (2 ^ k - 1) with (Z.ones k) by (rewrite Z.ones_equiv; lia). rewrite Z.land_ones by lia. apply Z_mod_same_full.
Qed.

Lemma mag_capacity_ok stride : mag_ok (mkMag 0 (mag_capacity stride) (mag_capacity stride / 2) 0 (replicate 32 0)).
Proof.
  assert (Hc : 4 <= mag_capacity stride <= 32).
  { unfold mag_capacity, SLAB_MAG_MAX_ROUNDS. set (cap := if stride =? 0 then _ else _). cbv zeta.
    set (cap2 := if cap <? 4 then 4 else cap). assert (4 <= cap2) by (unfold cap2; destruct (Z.ltb_spec cap 4); lia). destruct (Z.ltb_spec 32 cap2); lia. }
  split; simpl; auto; unfold SLAB_MAG_MAX_ROUNDS; lia.
Qed.

(** What slabCacheCreate accepts. *)
Definition cache_args (objSize align : Z) : Prop := 1 <= objSize <= KMALLOC_MAX_SIZE /\ exists k, 3 <= k <= 12 /\ align = 2 ^ k.

Lemma made_fresh name objSize align ctor dtor flags : cache_args objSize align -> confined objSize ctor -> confined objSize dtor ->
  let layout := default (mkLayout 0 0 0 0 0) (slabComputeLayout objSize align KERNEL_DEBUG) in
  let cap := mag_capacity (ly_stride layout) in
  fresh_cache (mkCache SLAB_CACHE_MAGIC name objSize align ctor dtor flags layout [] [] [] 0 0 (mkMag 0 cap (cap / 2) 0 (replicate 32 0))).
Proof.
  intros (Hs & k & Hk & ->) Hc Hd layout cap. destruct (slabComputeLayout_spec objSize k KERNEL_DEBUG Hs Hk) as (l & El & Hl & _).
  split; auto; [|split; [apply mag_capacity_ok|reflexivity]]. split; simpl; auto. exists k. split; [exact Hk|]. split; [reflexivity|]. unfold layout. by rewrite El.
Qed.

(** A created cache. *)
Definition created (objSize align flags : Z) ctor dtor c : Prop :=
  ca_objSize c = objSize /\ ca_align c = (if align =? 0 then KMALLOC_MIN_ALIGN else align) /\ ca_ctor c = ctor /\ ca_dtor c = dtor /\ ca_flags c = flags.

Lemma args_checked objSize align : 0 <= objSize -> 0 <= align -> let al := if align =? 0 then KMALLOC_MIN_ALIGN else align in
  (objSize =? 0) || (KMALLOC_MAX_SIZE <? objSize) = false /\ (al <? 8) || (4096 <? al) || negb (al .& (al - 1) =? 0) = false <-> cache_args objSize al.
Proof.
  intros Ho Ha al. unfold cache_args. assert (H8 : forall k, 3 <= k <= 12 -> 8 <= 2 ^ k <= 4096).
  { intros k Hk. change 8 with (2 ^ 3). change 4096 with (2 ^ 12). split; apply Z.pow_le_mono_r; lia. }
  rewrite !orb_false_iff, negb_false_iff, !Z.ltb_ge, Z.eqb_neq, Z.eqb_eq. split.
  - intros ([X1 X2] & [X3 X4] & X5). split; [lia|]. by apply align_pow.
  - intros (Hs & k & Hk & Hal). specialize (H8 k Hk). split; [lia|]. split; [lia|]. apply align_pow; [lia|eauto].
Qed.

Lemma create_spec {G} st H R name objSize align ctor dtor flags : rest G st H R -> 0 <= objSize -> 0 <= align -> confined objSize ctor -> confined objSize dtor ->
  let al := if align =? 0 then KMALLOC_MIN_ALIGN else align in let r := slabCacheCreateInternal name objSize align ctor dtor flags st in
  (r = (STATUS_ERR_INVALID, None, st) /\ (name = None \/ ~ cache_args objSize al)) \/
  (r = (STATUS_ERR_NO_MEMORY, None, st) /\ forall i, 0 <= i < SLAB_MAX_CACHES -> live st (cache_ptr i)) \/
  (exists i c, r = (STATUS_OK, Some (cache_ptr i), with_slot i true c st) /\ 0 <= i < SLAB_MAX_CACHES /\ find_slot (st_inUse st) 0 = Some i /\ name <> None /\ cache_args objSize al /\
    ~ live st (cache_ptr i) /\ created objSize align flags ctor dtor c /\ rest G (with_slot i true c st) H R).
Proof.
  intros Hr Ho Ha Hc Hd al r. unfold r, slabCacheCreateInternal. destruct name as [name|]; [|auto]. pose proof (args_checked objSize align Ho Ha) as Hargs. cbv zeta in *. fold al in Hargs |- *.
  destruct ((objSize =? 0) || _); [left; split; [reflexivity|]; right; intros [? _]%Hargs; discriminate|].
  destruct ((al <? 8) || _ || _); [left; split; [reflexivity|]; right; intros [_ ?]%Hargs; discriminate|]. right. pose proof (proj1 Hargs (conj eq_refl eq_refl)) as Har.
  destruct (r_sound _ _ _ _ Hr) as (K & _ & _). pose proof (k_slots _ _ _ K) as Hz. pose proof (find_slot_spec (st_inUse st) 0) as Hf. destruct (find_slot (st_inUse st) 0) as [i|].
  2: { left. split; [reflexivity|]. intros i Hi. apply live_at; [exact Hi|]. apply Hf. lia. }
  destruct Hf as (Hi & Hu & _). rewrite Z.sub_0_r in Hu. rewrite Z.add_0_l, Hz in Hi. right. eexists i, _. split; [reflexivity|]. split; [exact Hi|]. split; [reflexivity|]. split; [discriminate|]. split; [exact Har|].
  assert (Hnl : ~ live st (cache_ptr i)) by (rewrite live_at by exact Hi; congruence). split; [exact Hnl|]. split; [by split_and!|].
  apply rest_slot; auto.
  - intros va s E Hcs. apply Hnl. rewrite <- Hcs. by apply (k_owned _ _ _ K va).
  - by apply (r_idle _ _ _ _ Hr).
  - intros j Hj. destruct (r_classes _ _ _ _ Hr j _ Hj) as (c & _ & Hl & _); [|contradiction]. pose proof ml_caches. unfold cache_ptr, sizeof_SlabCache, SLAB_MAX_CACHES in *. lia.
  - intros _. by apply made_fresh.
Qed.

(** ** Destroying *)

(** A held object is in a slab of a list. *)
Lemma held_listed {G} st H R cp c : rest G st H R -> live st cp -> st_caches st !! cp = Some c -> H cp <> [] -> ca_empty c = [] -> ca_partial c <> [] \/ ca_full c <> [].
Proof.
  intros Hr Hl Ec HH He. destruct (H cp) as [|a l] eqn:Eh; [contradiction|]. destruct (held_object st H R cp a Hr Hl) as (va & i & s & c0 & E & Hc & Ec0 & _ & _); [rewrite Eh; apply list_elem_of_here|].
  destruct (r_sound _ _ _ _ Hr) as (K & _ & _). destruct (ca_partial c) eqn:Ep; [|left; discriminate]. destruct (ca_full c) eqn:Ef; [|right; discriminate].
  exfalso. by eapply (lists_no_slab st _ R cp c K Hl Ec Ep Ef He).
Qed.

Lemma destroy_spec {G} st H R cp c : rest G st H R -> live st cp -> st_caches st !! cp = Some c -> ca_flags c .& SLAB_CACHE_PERMANENT = 0 ->
  exists st1, rest G st1 H R /\ step cp st st1 /\ shrunk st1 H cp /\
    (H cp = [] -> exists st', slabCacheDestroy cp st = Done st' /\ rest G st' H R /\ st_slabs st' = st_slabs st1 /\ st_pages st' = st_pages st1 /\ st_kmalloc st' = st_kmalloc st /\
      (forall q, live st' q <-> q <> cp /\ live st q) /\ forall q, q <> cp -> st_caches st' !! q = st_caches st !! q) /\
    (H cp <> [] -> slabCacheDestroy cp st = Bugged (with_last SLAB_BUG_CACHE_BUSY 0 st1)).
Proof.
  intros Hr Hl Ec Hfl. destruct (shrink_spec st H R cp Hr Hl) as (st0 & st1 & E0 & E1 & Hr1 & Hst & Hsh). exists st1. split; [exact Hr1|]. split; [exact Hst|]. split; [exact Hsh|].
  unfold slabCacheDestroy. destruct (Z.eqb_spec cp 0) as [->|_]; [pose proof (live_ptr st 0 Hl); lia|]. rewrite (is_live st H R cp Hr Hl), (get_cache_ok _ _ _ Ec). cbn [mbind res_bind negb].
  rewrite Hfl, E0. change (negb (0 =? 0)) with false. cbn [mbind res_bind]. rewrite E1. cbn [mbind res_bind]. destruct Hsh as (c1 & Ec1 & Hcnt & He & Hnil). rewrite (get_cache_ok _ _ _ Ec1). cbn [mbind res_bind].
  pose proof (step_live _ _ _ _ Hst Hl) as Hl1. split.
  - intros HH. destruct (Hnil HH) as (_ & Hp & Hf). rewrite Hp, Hf. cbv zeta. destruct Hl as (i & Hi & -> & Hu). pose proof (r_sound _ _ _ _ Hr1) as (K1 & _ & _).
    replace ((cache_ptr i - slabCaches) / sizeof_SlabCache) with i by (unfold cache_ptr, sizeof_SlabCache; rewrite Z.add_simpl_l, Z.div_mul; lia).
    pose proof (k_slots _ _ _ K1) as Hz. simpl st_inUse. rewrite aset_Some by lia. cbn [need mbind res_bind].
    exists (with_slot i false (set_magic 0 c1) st1). split; [reflexivity|]. split; [|split; [reflexivity|split; [reflexivity|split; [apply Hst|split]]]].
    + apply rest_slot; auto; [by apply (lists_no_slab st1 _ R _ c1 K1 Hl1 Ec1)| |discriminate].
      intros j Hj. destruct (r_classes _ _ _ _ Hr1 j _ Hj) as (c2 & _ & _ & Ec2 & _ & _ & _ & Hf2); [pose proof (live_ptr _ _ Hl1); lia|].
      destruct (sp_cache _ _ _ Hst c Ec) as (c3 & Ec3 & Hsc). assert (c3 = c2) as -> by congruence. rewrite (sc_flags _ _ Hsc) in Hf2. rewrite Hf2 in Hfl. discriminate.
    + intros q. rewrite live_slot by assumption. rewrite <- (live_inUse st st1 q (sp_inUse _ _ _ Hst)). case_decide; [split; [discriminate|tauto]|tauto].
    + intros q Hq. simpl. rewrite lookup_insert_ne by auto. by apply (sp_caches _ _ _ Hst).
  - intros HH. destruct (held_listed st1 H R cp c1 Hr1 Hl1 Ec1 HH He) as [Hp|Hf]; [destruct (ca_partial c1); [contradiction|reflexivity]|].
    destruct (ca_partial c1); [|reflexivity]. destruct (ca_full c1); [contradiction|reflexivity].
Qed.

(** ** Shrinking everything *)

Lemma shrink_slots_spec {G} H R n : forall i st, rest G st H R -> 0 <= i -> i + Z.of_nat n <= SLAB_MAX_CACHES ->
  exists st', shrink_slots n i st = Done st' /\ rest G st' H R /\ st_inUse st' = st_inUse st /\ st_kmalloc st' = st_kmalloc st /\
    (forall q c, st_caches st !! q = Some c -> exists c', st_caches st' !! q = Some c' /\ static c c') /\
    (forall j, 0 <= j < i -> st_caches st' !! cache_ptr j = st_caches st !! cache_ptr j) /\
    forall j, i <= j < i + Z.of_nat n -> live st (cache_ptr j) -> shrunk st' H (cache_ptr j).
Proof.
  induction n as [|n IH]; intros i st Hr Hi Hn; cbn [shrink_slots].
  { exists st. split_and!; auto; [|intros; lia]. intros q c Ec. exists c. split; [exact Ec|reflexivity]. }
  destruct (r_sound _ _ _ _ Hr) as (K & _ & _). pose proof (k_slots _ _ _ K) as Hz. destruct (aget_Some (st_inUse st) i) as (u & Eu & _); [lia|]. rewrite Eu. cbn [need mbind res_bind].
  fold (cache_ptr i). assert (Hlv : live st (cache_ptr i) <-> u = true) by (rewrite live_at by lia; rewrite Eu; split; congruence). destruct u.
  - pose proof (proj2 Hlv eq_refl) as Hl. destruct (shrink_spec st H R (cache_ptr i) Hr Hl) as (st0 & st1 & -> & E1 & Hr1 & Hst & Hsh). cbn [mbind res_bind]. rewrite E1. cbn [mbind res_bind].
    destruct (IH (i + 1) st1 Hr1 ltac:(lia) ltac:(lia)) as (st' & -> & Hr' & Hu' & Hk' & Hc' & Hlo & Hsh'). exists st'. split; [reflexivity|]. split; [exact Hr'|].
    split; [rewrite Hu'; apply Hst|]. split; [rewrite Hk'; apply Hst|]. split; [|split].
    + intros q c Ec. destruct (decide (q = cache_ptr i)) as [->|Hq].
      * destruct (sp_cache _ _ _ Hst c Ec) as (c1 & Ec1 & S1). destruct (Hc' _ _ Ec1) as (c2 & Ec2 & S2). exists c2. split; [exact Ec2|]. by etransitivity.
      * apply Hc'. by rewrite (sp_caches _ _ _ Hst).
    + intros j Hj. rewrite Hlo by lia. apply (sp_caches _ _ _ Hst). intros ?%cache_ptr_inj. lia.
    + intros j Hj Hlj. destruct (decide (j = i)) as [->|Hne]; [|apply Hsh'; [lia|by apply (step_live (cache_ptr i) st)]].
      destruct Hsh as (c1 & Ec1 & X). exists c1. rewrite Hlo by lia. auto.
  - destruct (IH (i + 1) st Hr ltac:(lia) ltac:(lia)) as (st' & -> & Hr' & Hu' & Hk' & Hc' & Hlo & Hsh'). exists st'. split_and!; auto; [intros j Hj; apply Hlo; lia|].
    intros j Hj Hlj. apply Hsh'; [|exact Hlj]. destruct (decide (j = i)) as [->|]; [apply Hlv in Hlj; discriminate|lia].
Qed.

(** Without clients nothing stays: no slab, no mark, and the page allocator has only the blocks of others. *)
Lemma all_shrunk {G} st H R : rest G st H R -> (forall q, H q = []) -> (forall i, 0 <= i < SLAB_MAX_CACHES -> live st (cache_ptr i) -> shrunk st H (cache_ptr i)) ->
  st_slabs st = ∅ /\ st_owner st = ∅ /\ pa_inv R (st_pages st).
Proof.
  intros Hr HH Hsh. destruct (r_sound _ _ _ _ Hr) as (K & _ & _).
  assert (Hno : st_slabs st = ∅).
  { apply map_eq. intros va. rewrite lookup_empty. destruct (st_slabs st !! va) as [s|] eqn:E; [|reflexivity]. exfalso. pose proof (k_owned _ _ _ K va s E) as Hl.
    pose proof Hl as (i & Hi & Hc & _). destruct (Hsh i Hi) as (c & Ec & _ & He & Hnil); [by rewrite <- Hc|]. destruct (Hnil (HH _)) as (_ & Hp & Hf). rewrite <- Hc in Ec.
    by apply (lists_no_slab st _ R _ c K Hl Ec Hp Hf He va s E). }
  split; [exact Hno|]. split.
  - apply map_eq. intros f. rewrite lookup_empty. destruct (st_owner st !! f) as [va|] eqn:E; [|reflexivity]. apply (k_marks _ _ _ K) in E as (s & E & _). by rewrite Hno in E.
  - destruct (k_pages _ _ _ K) as (L & Hi & _ & HL). destruct L as [|[p k] L]; [exact Hi|]. destruct (proj1 (HL p k)) as (va & s & E & _); [apply list_elem_of_here|]. by rewrite Hno in E.
Qed.

(** ** kmalloc *)

Definition booted st : Prop := forall i cp, aget (st_kmalloc st) i = Some cp -> cp <> 0.

(** The cache kmalloc uses for [size]: the smallest class that holds it. *)
Definition class_for st (size cp : Z) c : Prop :=
  live st cp /\ st_caches st !! cp = Some c /\ size <= ca_objSize c /\ ca_align c = KMALLOC_MIN_ALIGN /\ ca_ctor c = None /\
  ca_flags c .& SLAB_CACHE_KMALLOC <> 0 /\ ca_objSize c ∈ slabKmallocClassSizes /\ (forall d, d ∈ slabKmallocClassSizes -> size <= d -> ca_objSize c <= d).

Lemma class_sizes_sorted i j d e : aget slabKmallocClassSizes i = Some d -> aget slabKmallocClassSizes j = Some e -> i <= j -> d <= e.
Proof.
  intros Hd He Hij. apply aget_lookup in Hd as [Hi Hd], He as [Hj He].
  assert (Hs : forallb (fun i => forallb (fun j => (j <? i)%nat || (nth i slabKmallocClassSizes 0 <=? nth j slabKmallocClassSizes 0)) (seq 0 12)) (seq 0 12) = true) by reflexivity.
  rewrite forallb_forall in Hs. pose proof (lookup_lt_Some _ _ _ Hd) as Hli. pose proof (lookup_lt_Some _ _ _ He) as Hlj. simpl length in Hli, Hlj.
  specialize (Hs (Z.to_nat i) ltac:(apply in_seq; lia)). rewrite forallb_forall in Hs. specialize (Hs (Z.to_nat j) ltac:(apply in_seq; lia)).
  rewrite (nth_lookup_Some _ _ _ _ Hd), (nth_lookup_Some _ _ _ _ He) in Hs. apply orb_true_iff in Hs as [Hs|Hs]; [apply Nat.ltb_lt in Hs; lia|by apply Z.leb_le].
Qed.

Lemma kmalloc_spec {G} st H R size flags : rest G st H R -> booted st -> 0 <= size ->
  (~ (1 <= size <= KMALLOC_MAX_SIZE) /\ kmalloc size flags st = Bugged (with_last SLAB_BUG_BAD_SIZE 0 st)) \/
  (1 <= size <= KMALLOC_MAX_SIZE /\ exists cp c, kmallocCacheForSize size st = Some cp /\ kmalloc size flags st = slabAlloc cp flags st /\ class_for st size cp c).
Proof.
  intros Hr Hbt Hs. unfold kmalloc, kmallocCacheForSize. cbv zeta. destruct (slabClassIndexForSize_spec size Hs) as [[-> Hbad]|(d & Hd & Hsz & Hmin)]; [left; split; [lia|reflexivity]|right].
  set (i := slabClassIndexForSize size) in *. pose proof (proj1 (aget_lookup _ _ _) Hd) as [Hi Hl]. pose proof (lookup_lt_Some _ _ _ Hl) as Hlt. simpl length in Hlt.
  assert (Hdm : d <= KMALLOC_MAX_SIZE) by (apply (class_sizes_sorted i 11 d KMALLOC_MAX_SIZE Hd eq_refl); lia). split; [lia|].
  destruct (Z.eqb_spec i UINT32_MAX) as [He|_]; [unfold UINT32_MAX in He; lia|]. pose proof (r_kmalloc _ _ _ _ Hr) as Hk. unfold SLAB_KMALLOC_CLASS_COUNT in Hk.
  destruct (aget_Some (st_kmalloc st) i) as (cp & Ecp & _); [lia|]. rewrite Ecp. cbn [need mbind res_bind].
  destruct (r_classes _ _ _ _ Hr i cp Ecp (Hbt i cp Ecp)) as (c & _ & X1 & X2 & X3 & X4 & X5 & X6). exists cp, c. split; [reflexivity|]. split; [reflexivity|]. rewrite Hd in X3. injection X3 as Hoc.
  split_and!; auto; [lia|by rewrite X6|rewrite <- Hoc; eapply list_elem_of_lookup_2; exact Hl|]. intros e He Hse. rewrite <- Hoc.
  apply list_elem_of_lookup in He as (n & Hn). assert (He : aget slabKmallocClassSizes (Z.of_nat n) = Some e) by (apply aget_lookup; rewrite Nat2Z.id; split; [lia|exact Hn]).
  destruct (Z.le_gt_cases i (Z.of_nat n)) as [Hle|Hgt]; [by apply (class_sizes_sorted i (Z.of_nat n))|]. specialize (Hmin (Z.of_nat n) e ltac:(lia) He). lia.
Qed.

(** ** slabInit *)

Lemma boot_rest {G} pages R : pa_inv R pages -> rest G (slab_boot pages) (fun _ => []) R.
Proof.
  intros Hp. assert (Hnl : forall cp, ~ live (slab_boot pages) cp).
  { intros cp (i & Hi & _ & Hu). apply aget_lookup in Hu as [_ Hu]. apply (lookup_replicate 64) in Hu as [Hu _]. discriminate. }
  assert (Hns : forall va s, st_slabs (slab_boot pages) !! va <> Some s) by (intros va s; apply lookup_empty_Some).
  assert (Hno : forall f va, st_owner (slab_boot pages) !! f <> Some va) by (intros f va; apply lookup_empty_Some).
  split; [|intros cp m Hl; by apply Hnl in Hl|reflexivity|reflexivity|].
  - split; [|split; [intros va s E; by apply Hns in E|intros va s c i E; by apply Hns in E]]. split.
    + reflexivity.
    + intros i Hi. unfold slab_boot, st_caches. apply elem_of_dom. rewrite dom_list_to_map_L, elem_of_list_to_set, <- list_fmap_compose.
      apply list_elem_of_fmap. exists i. split; [reflexivity|]. by apply elem_of_seqZ.
    + intros cp Hl. by apply Hnl in Hl.
    + intros va s E. by apply Hns in E.
    + intros va s E. by apply Hns in E.
    + exists []. split; [exact Hp|]. split; [constructor|]. intros p k. split; [by intros ?%not_elem_of_nil|]. intros (va & s & E & _). by apply Hns in E.
    + intros f va. split; [intros E; by apply Hno in E|]. intros (s & E & _). by apply Hns in E.
  - intros i cp Hi Hnz. apply aget_lookup in Hi as [_ Hi]. apply (lookup_replicate 12) in Hi as [-> _]. contradiction.
Qed.

Lemma rest_class {G} st H R i cp : rest G st H R -> 0 <= i < SLAB_KMALLOC_CLASS_COUNT ->
  let st' := with_kmalloc (<[Z.to_nat i := cp]> (st_kmalloc st)) st in is_class st' i cp -> rest G st' H R.
Proof.
  intros [(K & Hh & Hb) M1 I1 N1 C1] Hi st' Hcl. split; [|exact M1|exact I1|simpl; by rewrite zlen_insert|].
  { split; [|split; [exact Hh|exact Hb]]. destruct K. split; assumption. }
  intros j q Hj Hnz. simpl st_kmalloc in Hj. rewrite aget_insert in Hj by lia. destruct (Z.eqb_spec j i) as [->|Hne]; [by injection Hj as <-|].
  destruct (C1 j q Hj Hnz) as (c & _ & X). exists c. split; [simpl; rewrite aget_insert by lia; destruct (Z.eqb_spec j i); [contradiction|exact Hj]|exact X].
Qed.

(** After [i] classes. *)
Record initing {G} st R (i : Z) : Prop := {
  in_rest : rest G st (fun _ => []) R;
  in_used : forall j, 0 <= j < SLAB_MAX_CACHES -> aget (st_inUse st) j = Some (j <? i);
  in_classes : forall j, 0 <= j < i -> exists cp, aget (st_kmalloc st) j = Some cp /\ cp <> 0
}.

Lemma init_step {G} st R i sz : @initing G st R i -> 0 <= i < SLAB_KMALLOC_CLASS_COUNT -> aget slabKmallocClassSizes i = Some sz ->
  exists c, slabCacheCreateInternal (Some (class_name sz)) sz KMALLOC_MIN_ALIGN None None (SLAB_CACHE_PERMANENT .| SLAB_CACHE_KMALLOC) st =
      (STATUS_OK, Some (cache_ptr i), with_slot i true c st) /\
    @initing G (with_kmalloc (<[Z.to_nat i := cache_ptr i]> (st_kmalloc st)) (with_slot i true c st)) R (i + 1).
Proof.
  intros [Hr Hu Hcl] Hi Hsz. unfold SLAB_KMALLOC_CLASS_COUNT in Hi.
  assert (Hargs : cache_args sz KMALLOC_MIN_ALIGN).
  { split; [|exists 4; split; [lia|reflexivity]]. pose proof (class_sizes_sorted i 11 sz KMALLOC_MAX_SIZE Hsz eq_refl ltac:(lia)). pose proof (class_sizes_sorted 0 i 16 sz eq_refl Hsz ltac:(lia)). lia. }
  destruct (create_spec st _ R (Some (class_name sz)) sz KMALLOC_MIN_ALIGN None None (SLAB_CACHE_PERMANENT .| SLAB_CACHE_KMALLOC) Hr) as [[_ [?|Hn]]|[[_ Hall]|(k & c & -> & Hk & Hfind & _ & _ & Hnl & (C1 & C2 & C3 & _ & C5) & Hr')]];
    [destruct Hargs; lia|discriminate|exact I|exact I|discriminate|contradiction| |].
  { specialize (Hall i ltac:(unfold SLAB_MAX_CACHES; lia)). apply live_at in Hall; [|unfold SLAB_MAX_CACHES; lia]. rewrite Hu, Z.ltb_irrefl in Hall by (unfold SLAB_MAX_CACHES; lia). discriminate. }
  assert (k = i) as ->.
  { pose proof (find_slot_spec (st_inUse st) 0) as Hf. rewrite Hfind, Z.sub_0_r in Hf. destruct Hf as (_ & Hf & Hlt). rewrite Hu in Hf by exact Hk. injection Hf as Hf. apply Z.ltb_ge in Hf.
    destruct (Z.eq_dec k i) as [|Hne]; [assumption|]. specialize (Hlt i ltac:(lia)). rewrite Hu, Z.ltb_irrefl in Hlt by (unfold SLAB_MAX_CACHES; lia). discriminate. }
  exists c. split; [reflexivity|]. destruct (r_sound _ _ _ _ Hr) as (K & _ & _). pose proof (k_slots _ _ _ K) as Hz. pose proof (r_kmalloc _ _ _ _ Hr) as Hkm. unfold SLAB_KMALLOC_CLASS_COUNT in Hkm.
  assert (Hl : live (with_slot i true c st) (cache_ptr i)) by (apply live_slot; auto; by rewrite decide_True).
  split.
  - apply (rest_class (with_slot i true c st)); [exact Hr'|unfold SLAB_KMALLOC_CLASS_COUNT; lia|]. exists c. split; [simpl; rewrite aget_insert, Z.eqb_refl by lia; reflexivity|]. split; [exact Hl|].
    split; [apply lookup_insert_eq|]. rewrite C1, C2, C3, C5. auto.
  - intros j Hj. simpl st_inUse. rewrite aget_insert by lia. destruct (Z.eqb_spec j i) as [->|Hne]; [by rewrite (proj2 (Z.ltb_lt i (i + 1))) by lia|].
    rewrite Hu by exact Hj. f_equal. destruct (Z.ltb_spec j i), (Z.ltb_spec j (i + 1)); lia || reflexivity.
  - intros j Hj. simpl st_kmalloc. rewrite aget_insert by lia. destruct (Z.eqb_spec j i) as [->|Hne]; [|apply Hcl; lia].
    exists (cache_ptr i). split; [reflexivity|]. pose proof (live_ptr _ _ Hl). lia.
Qed.

Lemma init_classes_spec {G} R sizes : forall i st, @initing G st R i -> 0 <= i -> i + zlen sizes = SLAB_KMALLOC_CLASS_COUNT ->
  (forall j sz, sizes !! j = Some sz -> aget slabKmallocClassSizes (i + Z.of_nat j) = Some sz) ->
  exists st', init_classes sizes i st = Done st' /\ @initing G st' R SLAB_KMALLOC_CLASS_COUNT.
Proof.
  induction sizes as [|sz sizes IH]; intros i st Hin Hi Hz Hs; cbn [init_classes].
  { exists st. split; [reflexivity|]. change (zlen []) with 0 in Hz. by replace SLAB_KMALLOC_CLASS_COUNT with i by lia. }
  rewrite zlen_cons in Hz. pose proof (zlen_nonneg sizes). destruct (init_step st R i sz Hin) as (c & -> & Hin'); [lia|rewrite <- (Hs 0%nat sz eq_refl); f_equal; lia|].
  pose proof (r_kmalloc _ _ _ _ (in_rest _ _ _ Hin)) as Hkm. rewrite aset_Some by (simpl; lia). cbn [need mbind res_bind].
  apply IH; [exact Hin'|lia|lia|]. intros j d Hj. rewrite <- (Hs (S j) d Hj). f_equal. lia.
Qed.

(** slabInit succeeds, and leaves every class of kmalloc with its cache and nobody with an object. *)
Lemma slabInit_spec {G} pages R : pa_inv R pages ->
  exists st, slabInit (slab_boot pages) = Done st /\ rest G st (fun _ => []) R /\ booted st.
Proof.
  intros Hp. destruct (init_classes_spec (G := G) R slabKmallocClassSizes 0 (slab_boot pages)) as (st & E & [Hr _ Hcl]); [|lia|reflexivity| |].
  - split; [by apply boot_rest| |intros; lia]. intros j Hj. unfold SLAB_MAX_CACHES in Hj. apply aget_lookup. split; [lia|].
    destruct (Z.ltb_spec j 0); [lia|]. apply (lookup_replicate_2 64). lia.
  - intros j sz Hj. apply aget_lookup. split; [lia|]. by rewrite Z.add_0_l, Nat2Z.id.
  - exists st. split; [exact E|]. split; [exact Hr|]. intros i cp Hi. pose proof (r_kmalloc _ _ _ _ Hr) as Hkm. pose proof (proj1 (aget_lookup _ _ _) Hi) as [Hi0 Hl]. apply lookup_lt_Some in Hl.
    destruct (Hcl i) as (cp' & Hcp & Hnz); [unfold zlen in Hkm; lia|]. congruence.
Qed.
End Caches.
