(* ===== verification/SlabRun.v ===== *)
(** * Runs of the slab allocator

    A client machine over the public operations of [Slab]: what clients hold and what
    they expect to find there, the calls they may make, and that every run of such calls
    is served; what kfree and slabFree answer to any pointer. *)

From stdpp Require Import functions.
From S2P Require Import Prelude BootTypes SlabCore Slab SlabInv SlabClient SlabCaches.

Section Run.
Context {P : Type} {PA : PageAllocator P} {PL : PageAllocatorLaws P} {MC : Machine} {ML : MachineLaws}.

Implicit Types (G : Z -> Z) (st : @SlabState P) (c : SlabCache) (R : list (Z * Z)) (H : Z -> list Z).

#[global] Instance live_dec st cp : Decision (live st cp).
Proof.
  refine (cast_if (decide (Exists (fun i => cp = cache_ptr i /\ aget (st_inUse st) i = Some true) (seqZ 0 SLAB_MAX_CACHES))));
    rewrite Exists_exists in *; [rename e into He; destruct He as (i & Hi & Hp); exists i; by apply elem_of_seqZ in Hi|].
  intros (i & Hi & Hp). apply n. exists i. split; [by apply elem_of_seqZ|exact Hp].
Defined.

(** ** What clients hold *)

(** [a] is held from the cache [cp], whose objects have the size and alignment of [c]. *)
Definition held st H (cp : Z) c (a : Z) : Prop := a ∈ H cp /\ live st cp /\ st_caches st !! cp = Some c.

(** Held objects are aligned, lie in the direct map and do not overlap. *)
Record separate st H : Prop := {
  se_once : forall cp, NoDup (H cp);
  se_place : forall cp c a, held st H cp c a ->
    hhdmBase < a /\ a + ca_objSize c <= hhdmBase + BOOTINFO_HHDM_SIZE /\ a mod ca_align c = 0 /\ 1 <= ca_objSize c;
  se_apart : forall cp c a cq d b, held st H cp c a -> held st H cq d b -> a <> b \/ cp <> cq ->
    a + ca_objSize c <= b \/ b + ca_objSize d <= a
}.

(** Objects that start elsewhere are disjoint. *)
Lemma objects_apart st Bf R cp c va i a cq d vb j b : core st Bf R -> object st cp va i a -> object st cq vb j b ->
  st_caches st !! cp = Some c -> st_caches st !! cq = Some d -> a <> b \/ cp <> cq -> a + ca_objSize c <= b \/ b + ca_objSize d <= a.
Proof.
  intros K Ha Hb Ec Ed Hne. pose proof Ha as (s & c0 & E & Hc & Ec0 & Hi & ->). pose proof Hb as (t & d0 & E' & Hd & Ed0 & Hj & ->).
  assert (c0 = c) as -> by congruence. assert (d0 = d) as -> by congruence. rewrite <- Hc in Ec. rewrite <- Hd in Ed.
  destruct (slab_cache _ _ _ _ _ K E) as (cx & Ex & _ & _ & F & O). rewrite Ec in Ex. injection Ex as <-.
  destruct (slab_cache _ _ _ _ _ K E') as (cx & Ex & _ & _ & F' & O'). rewrite Ed in Ex. injection Ex as <-.
  pose proof (fit_bounds c F) as (_ & _ & _ & B4 & B5 & _). pose proof (fit_bounds d F') as (_ & _ & _ & C4 & C5 & _).
  destruct (slots_apart _ _ _ va s c i vb t d j K E F O Hi E' F' O' Hj) as [Hap|Hap]; [|lia|lia].
  intros <-. assert (t = s) as -> by congruence. assert (d = c) as -> by congruence. split; [reflexivity|]. intros <-. destruct Hne; congruence.
Qed.

Lemma object_aligned st Bf R cp c va i a : core st Bf R -> object st cp va i a -> st_caches st !! cp = Some c -> a mod ca_align c = 0.
Proof.
  intros K (s & c0 & E & Hc & Ec0 & Hi & ->) Ec. assert (c0 = c) as -> by congruence. rewrite <- Hc in Ec.
  destruct (slab_cache _ _ _ _ _ K E) as (cx & Ex & _ & _ & F & O). rewrite Ec in Ex. injection Ex as <-.
  destruct (slot_extent _ _ _ _ _ _ _ K E F O Hi) as (-> & _). destruct (ft_layout _ F) as (k & Hk & -> & Hly). destruct (ly_align_ok _ _ _ _ Hly) as [A1 A2].
  rewrite (so_base _ _ _ O), (k_va _ _ _ K va s E). pose proof ml_aligned as Hal. assert (Hp : 4096 = 2 ^ (12 - k) * 2 ^ k) by (rewrite <- Z.pow_add_r by lia; by replace (12 - k + k) with 12 by lia).
  assert (0 < 2 ^ k) by (apply Z.pow_pos_nonneg; lia). apply Z.mod_divide in A1, A2, Hal; try lia. destruct A1 as [x ->], A2 as [y ->], Hal as [z ->]. apply Z.mod_divide; [lia|].
  exists (z * 2 ^ (12 - k) + 2 ^ (12 - k) * frame_of va + y + i * x). rewrite Hp. lia.
Qed.

Lemma rest_separate {G} st H R : rest G st H R -> separate st H.
Proof.
  intros Hr. destruct (r_sound _ _ _ _ Hr) as (K & _ & _). split.
  - intros cp. destruct (decide (live st cp)) as [Hl|Hn]; [|rewrite (r_idle _ _ _ _ Hr cp Hn); constructor]. destruct (rest_cache st H R cp Hr Hl) as (c & _ & Ci & _).
    pose proof (ci_once _ _ _ _ Ci) as Hnd. by apply NoDup_app in Hnd as (_ & _ & Hnd).
  - intros cp c a (Ha & Hl & Ec). destruct (held_object st H R cp a Hr Hl Ha) as (va & i & Hob). pose proof Hob as (s & c0 & E & Hc & Ec0 & Hi & Ea). assert (c0 = c) as -> by congruence.
    rewrite <- Hc in Ec. destruct (slab_cache _ _ _ _ _ K E) as (cx & Ex & _ & _ & F & O). rewrite Ec in Ex. injection Ex as <-. rewrite Hc in Ec.
    destruct (slot_extent _ _ _ _ _ _ _ K E F O Hi) as (_ & X2 & X3 & X4 & X5). pose proof (fit_bounds c F) as (_ & _ & _ & B4 & B5 & _). pose proof (ft_size _ F).
    rewrite Ea. split; [lia|]. split; [lia|]. split; [|lia]. rewrite <- Ea. by eapply object_aligned.
  - intros cp c a cq d b (Ha & Hl & Ec) (Hb & Hl' & Ed) Hne. destruct (held_object st H R cp a Hr Hl Ha) as (va & i & Hoa). destruct (held_object st H R cq b Hr Hl' Hb) as (vb & j & Hob).
    by eapply objects_apart.
Qed.

(** A held object has the contents its client expects. *)
Lemma rest_read {G} st H R cp c a x : rest G st H R -> held st H cp c a -> a <= x < a + ca_objSize c -> st_mem st x = G x.
Proof.
  intros Hr (Ha & Hl & Ec) Hx. destruct (held_object st H R cp a Hr Hl Ha) as (va & i & Hob). destruct (held_busy st H R cp va i a Hr Hl Hob) as (s & c0 & E & Ec0 & Hcs & _ & Hi & _ & Hbz & _).
  pose proof Hob as (s2 & c2 & E2 & _ & Ec2 & _ & ->). assert (c0 = c) as -> by congruence. assert (c2 = c) as -> by congruence. assert (s2 = s) as -> by congruence.
  destruct (r_sound _ _ _ _ Hr) as (_ & _ & Hb). rewrite <- Hcs in Ec. apply (proj2 (Hb va s c i E Ec Hi)); [by rewrite Hcs|apply Hbz; auto|exact Hx].
Qed.

(** ** The client machine *)

(** The calls, and stores through a held object. *)
Inductive call :=
  | Create (name : option (list Z)) (objSize align : Z) (ctor dtor : option SlabObjFn)
  | Destroy (cp : Z)
  | Alloc (cp flags : Z)
  | Free (cp a : Z)
  | Kmalloc (size flags : Z)
  | Kfree (a : Z)
  | Shrink (cp : Z)
  | ShrinkAll
  | Store (cp a off v : Z).

(** The allocator, the objects clients hold of each cache, and the contents they expect there. *)
Record client := mkClient { cl_st : @SlabState P; cl_held : Z -> list Z; cl_view : Z -> Z }.

Definition with_st st (k : client) : client := mkClient st (cl_held k) (cl_view k).

(** The client takes an object with the contents it finds. *)
Definition take_object (cp a : Z) st (k : client) : res client :=
  if a =? 0 then Done (with_st st k)
  else
    c ← get_cache cp st;
    Done (mkClient st (<[cp := a :: cl_held k cp]> (cl_held k)) (over a (ca_objSize c) (st_mem st) (cl_view k))).

Definition without (a : Z) H : Z -> list Z := fun q => filter (fun x => x <> a) (H q).

Definition serve (r : call) (k : client) : res client :=
  let st := cl_st k in
  match r with
  | Create name objSize align ctor dtor => let '(_, _, st) := slabCacheCreate name objSize align ctor dtor st in Done (with_st st k)
  | Destroy cp => st ← slabCacheDestroy cp st; Done (with_st st k)
  | Alloc cp flags => '(a, st) ← slabAlloc cp flags st; take_object cp a st k
  | Free cp a => st ← slabFree cp a st; Done (mkClient st (without a (cl_held k)) (cl_view k))
  | Kmalloc size flags => cp ← need (kmallocCacheForSize size st); '(a, st) ← kmalloc size flags st; take_object cp a st k
  | Kfree a => st ← kfree a st; Done (mkClient st (without a (cl_held k)) (cl_view k))
  | Shrink cp => st ← slabCacheShrink cp st; Done (with_st st k)
  | ShrinkAll => st ← slabShrinkAll st; Done (with_st st k)
  | Store cp a off v => Done (mkClient (with_bytes (<[a + off := v]> (st_mem st)) st) (cl_held k) (<[a + off := v]> (cl_view k)))
  end.

Fixpoint serve_all (rs : list call) (k : client) : res client :=
  match rs with [] => Done k | r :: rs => k ← serve r k; serve_all rs k end.

Definition valid_flags (flags : Z) : Prop := flags .& not32 KMALLOC_FLAGS_VALID = 0.

(** What a correct client may call. *)
Definition allowed (r : call) (k : client) : Prop :=
  let st := cl_st k in let H := cl_held k in
  match r with
  | Create _ objSize align ctor dtor => 0 <= objSize /\ 0 <= align /\ confined objSize ctor /\ confined objSize dtor
  | Destroy cp => cp = 0 \/ exists c, live st cp /\ st_caches st !! cp = Some c /\ ca_flags c .& SLAB_CACHE_PERMANENT = 0 /\ H cp = []
  | Alloc cp flags => exists c, live st cp /\ st_caches st !! cp = Some c /\ valid_flags flags /\ (flags .& KMALLOC_ZERO <> 0 -> ca_ctor c = None)
  | Free cp a => a = 0 \/ a ∈ H cp
  | Kmalloc size flags => 1 <= size <= KMALLOC_MAX_SIZE /\ valid_flags flags
  | Kfree a => a = 0 \/ exists cp c, held st H cp c a /\ ca_flags c .& SLAB_CACHE_KMALLOC <> 0
  | Shrink cp => cp = 0 \/ live st cp
  | ShrinkAll => True
  | Store cp a off v => exists c, held st H cp c a /\ 0 <= off < ca_objSize c
  end.

(** A client whose every call is allowed where it makes it. *)
Fixpoint behaves (rs : list call) (k : client) : Prop :=
  match rs with
  | [] => True
  | r :: rs => allowed r k /\ forall k', serve r k = Done k' -> behaves rs k'
  end.

(** The invariant of the machine. *)
Definition good R (k : client) : Prop := rest (cl_view k) (cl_st k) (cl_held k) R /\ booted (cl_st k).

Lemma step_booted cp st st' : step cp st st' -> booted st -> booted st'.
Proof. intros Hs Hb i q. rewrite (sp_kmalloc _ _ _ Hs). apply Hb. Qed.

(** The sizes of caches that stay do not change. *)
Definition sizes st st' : Prop := forall q c, live st q -> live st' q -> st_caches st !! q = Some c ->
  exists c', st_caches st' !! q = Some c' /\ ca_objSize c' = ca_objSize c.

Lemma step_sizes cp st st' : step cp st st' -> sizes st st'.
Proof.
  intros Hs q c _ _ Ec. destruct (decide (q = cp)) as [->|Hne]; [|exists c; by rewrite (sp_caches _ _ _ Hs)].
  destruct (sp_cache _ _ _ Hs c Ec) as (c' & Ec' & Hsc). exists c'. split; [exact Ec'|apply Hsc].
Qed.

Lemma sizes_refl st : sizes st st.
Proof. intros q c _ _ Ec. eauto. Qed.
#[local] Hint Resolve sizes_refl step_sizes : core.

Lemma filter_absent (a : Z) (l : list Z) : a ∉ l -> filter (fun x => x <> a) l = l.
Proof. induction l as [|x l IH]; [reflexivity|]. intros [Hx Hn]%not_elem_of_cons. rewrite filter_cons_True by auto. by rewrite IH. Qed.

(** One held object is given back. *)
Lemma without_perm {G} st H R cp a : rest G st H R -> live st cp -> a ∈ H cp ->
  exists Hc, H cp ≡ₚ a :: Hc /\ forall q, (<[cp := Hc]> H) q ≡ₚ without a H q.
Proof.
  intros Hr Hl Ha. apply elem_of_Permutation in Ha as (Hc & HP). exists Hc. split; [exact HP|]. intros q. unfold without.
  destruct (r_sound _ _ _ _ Hr) as (K & _ & _). destruct (held_object st H R cp a Hr Hl) as (va & i & Hob); [rewrite HP; apply list_elem_of_here|].
  destruct (decide (q = cp)) as [->|Hne].
  - rewrite fn_lookup_insert, HP, filter_cons_False by tauto. pose proof (se_once _ _ (rest_separate st H R Hr) cp) as Hnd. rewrite HP in Hnd. apply NoDup_cons in Hnd as [Hn _]. by rewrite filter_absent.
  - rewrite fn_lookup_insert_ne by auto. rewrite filter_absent; [reflexivity|]. intros Hq. destruct (decide (live st q)) as [Hlq|Hnq]; [|rewrite (r_idle _ _ _ _ Hr q Hnq) in Hq; by apply not_elem_of_nil in Hq].
    destruct (held_object st H R q a Hr Hlq Hq) as (vb & j & Hob'). destruct (object_unique st _ R q vb j cp va i a K Hob' Hob) as (? & _). contradiction.
Qed.

Lemma without_zero {G} st H R : rest G st H R -> forall q, H q ≡ₚ without 0 H q.
Proof.
  intros Hr q. unfold without. rewrite filter_absent; [reflexivity|]. intros Hx.
  destruct (decide (live st q)) as [Hl|Hn]; [|rewrite (r_idle _ _ _ _ Hr q Hn) in Hx; by apply not_elem_of_nil in Hx].
  destruct (rest_cache st H R q Hr Hl) as (c & Ec & _). destruct (se_place _ _ (rest_separate st H R Hr) q c 0) as (H0 & _); [by split_and!|]. pose proof ml_hhdm. lia.
Qed.

(** Freeing a held object. *)
Lemma free_held {G} st H R cp va i a : rest G st H R -> live st cp -> object st cp va i a -> a ∈ H cp ->
  exists st', slabFreeCommon cp va i a st = Done st' /\ rest G st' (without a H) R /\ step cp st st'.
Proof.
  intros Hr Hl Hob Ha. destruct (without_perm st H R cp a Hr Hl Ha) as (Hc & HP & HW). destruct (slabFreeCommon_spec st H R cp va i a Hc Hr Hl Hob HP) as (st' & E & Hr' & Hst).
  exists st'. split; [exact E|]. split; [|exact Hst]. eapply rest_ext; [reflexivity|exact HW|exact Hr'].
Qed.

Lemma held_pointer st Bf R cp va i a : core st Bf R -> object st cp va i a -> is_u64 a /\ a <> 0.
Proof.
  intros K Hob. destruct (object_in_slab _ _ _ _ _ _ _ K Hob) as [_ Hr]. pose proof ml_hhdm. unfold VM_KVA_BASE, BOOTINFO_HHDM_SIZE in *. split; [words; lia|lia].
Qed.

(** ** Every call is served *)

(** What the client expects changes at most in an object it did not hold before. *)
Definition extends (k : client) (k' : client) : Prop :=
  cl_view k' = cl_view k \/ exists cp c b, (b ∉ cl_held k cp) /\ held (cl_st k') (cl_held k') cp c b /\
    forall x, ~ (b <= x < b + ca_objSize c) -> cl_view k' x = cl_view k x.

Lemma take_spec st H G R cp c a st' : granted G st H R cp (ca_objSize c) a st' -> live st cp -> st_caches st !! cp = Some c -> 0 < a -> booted st ->
  exists k', take_object cp a st' (mkClient st H G) = Done k' /\ good R k' /\ extends (mkClient st H G) k' /\ sizes st (cl_st k').
Proof.
  intros (Hn & _ & Hr & Hst) Hl Ec Ha Hb. unfold take_object. destruct (Z.eqb_spec a 0); [lia|]. destruct (sp_cache _ _ _ Hst c Ec) as (c' & Ec' & Hsc).
  rewrite (get_cache_ok _ _ _ Ec'). cbn [mbind res_bind]. eexists. split; [reflexivity|]. split; [split; [|by eapply step_booted]; simpl; by rewrite (sc_size _ _ Hsc)|].
  split; [|by apply (step_sizes cp)]. right. exists cp, c', a. split; [exact Hn|]. split; [|intros x Hx; by apply over_out]. split; [simpl; rewrite fn_lookup_insert; apply list_elem_of_here|]. split; [by apply (step_live cp st)|exact Ec'].
Qed.

Lemma alloc_served G st H R cp c flags : good R (mkClient st H G) -> live st cp -> st_caches st !! cp = Some c -> valid_flags flags ->
  (flags .& KMALLOC_ZERO <> 0 -> ca_ctor c = None) ->
  exists a st' k', slabAlloc cp flags st = Done (a, st') /\ take_object cp a st' (mkClient st H G) = Done k' /\ good R k' /\ extends (mkClient st H G) k' /\ sizes st (cl_st k').
Proof.
  intros [Hr Hb] Hl Ec Hf Hz. simpl in Hr, Hb. destruct (slabAlloc_spec st H R cp c flags Hr Hl Ec Hf Hz) as (a & st' & E & [(-> & Hr' & Hst)|(Ha & Hg & _)]).
  - exists 0, st'. eexists. split; [exact E|]. split; [reflexivity|]. split; [split; [exact Hr'|by eapply step_booted]|]. split; [left; reflexivity|by apply (step_sizes cp)].
  - destruct (take_spec st H G R cp c a st' Hg Hl Ec Ha Hb) as (k' & Ek & Hk). exists a, st', k'. auto.
Qed.

Lemma free_served G st H R cp a : good R (mkClient st H G) -> a = 0 \/ a ∈ H cp ->
  exists st', slabFree cp a st = Done st' /\ good R (mkClient st' (without a H) G) /\ sizes st st'.
Proof.
  intros [Hr Hb] Ha. simpl in Hr, Hb. destruct (decide (a = 0)) as [->|Hnz].
  { exists st. split; [reflexivity|]. split; [|auto]. split; [|exact Hb]. eapply rest_ext; [reflexivity|by eapply without_zero|exact Hr]. }
  destruct Ha as [|Ha]; [contradiction|]. destruct (decide (live st cp)) as [Hl|Hn]; [|rewrite (r_idle _ _ _ _ Hr cp Hn) in Ha; by apply not_elem_of_nil in Ha].
  destruct (held_object st H R cp a Hr Hl Ha) as (va & i & Hob). destruct (r_sound _ _ _ _ Hr) as (K & _ & _). destruct (free_held st H R cp va i a Hr Hl Hob Ha) as (st' & E & Hr' & Hst).
  exists st'. split; [|split; [split; [exact Hr'|by eapply step_booted]|by apply (step_sizes cp)]]. unfold slabFree. destruct (Z.eqb_spec a 0); [contradiction|]. rewrite (resolve_object _ _ _ _ _ _ _ K Hob). cbn [mbind res_bind].
  pose proof Hob as (s & c & Es & Hc & _). rewrite (get_slab_ok _ _ _ Es). cbn [mbind res_bind]. by rewrite Hc, Z.eqb_refl.
Qed.

Lemma kfree_served G st H R a : good R (mkClient st H G) -> a = 0 \/ (exists cp c, held st H cp c a /\ ca_flags c .& SLAB_CACHE_KMALLOC <> 0) ->
  exists st', kfree a st = Done st' /\ good R (mkClient st' (without a H) G) /\ sizes st st'.
Proof.
  intros [Hr Hb] Ha. simpl in Hr, Hb. destruct (decide (a = 0)) as [->|Hnz].
  { exists st. split; [reflexivity|]. split; [|auto]. split; [|exact Hb]. eapply rest_ext; [reflexivity|by eapply without_zero|exact Hr]. }
  destruct Ha as [|(cp & c & (Ha & Hl & Ec) & Hf)]; [contradiction|]. destruct (held_object st H R cp a Hr Hl Ha) as (va & i & Hob).
  destruct (r_sound _ _ _ _ Hr) as (K & _ & _). destruct (free_held st H R cp va i a Hr Hl Hob Ha) as (st' & E & Hr' & Hst).
  exists st'. split; [|split; [split; [exact Hr'|by eapply step_booted]|by apply (step_sizes cp)]]. unfold kfree. destruct (Z.eqb_spec a 0); [contradiction|]. rewrite (resolve_object _ _ _ _ _ _ _ K Hob). cbn [mbind res_bind].
  pose proof Hob as (s & c2 & Es & Hc & _). rewrite (get_slab_ok _ _ _ Es). cbn [mbind res_bind]. rewrite Hc, (get_cache_ok _ _ _ Ec). cbn [mbind res_bind].
  destruct (Z.eqb_spec (ca_flags c .& SLAB_CACHE_KMALLOC) 0); [contradiction|exact E].
Qed.

Lemma kmalloc_served G st H R size flags : good R (mkClient st H G) -> 1 <= size <= KMALLOC_MAX_SIZE -> valid_flags flags ->
  exists cp a st' k', kmallocCacheForSize size st = Some cp /\ kmalloc size flags st = Done (a, st') /\ take_object cp a st' (mkClient st H G) = Done k' /\ good R k' /\ extends (mkClient st H G) k' /\ sizes st (cl_st k').
Proof.
  intros Hg Hs Hf. pose proof Hg as [Hr Hb]. simpl in Hr, Hb. destruct (kmalloc_spec st H R size flags Hr Hb ltac:(lia)) as [[? _]|(_ & cp & c & Ek & E & Hl & Ec & _ & _ & Hct & _)]; [contradiction|].
  destruct (alloc_served G st H R cp c flags Hg Hl Ec Hf ltac:(auto)) as (a & st' & k' & Ea & Et & Hk). exists cp, a, st', k'. rewrite E. auto.
Qed.

Lemma store_served G st H R cp c a off v : good R (mkClient st H G) -> held st H cp c a -> 0 <= off < ca_objSize c ->
  good R (mkClient (with_bytes (<[a + off := v]> (st_mem st)) st) H (<[a + off := v]> G)).
Proof.
  intros [Hr Hb] Hh Ho. pose proof Hh as (Ha & Hl & Ec). split; [|exact Hb]. simpl in *. eapply rest_ext; [|reflexivity|].
  2: { eapply (rest_write st H R cp c a (<[a + off := v]> (st_mem st)) Hr Hl Ec Ha). intros x Hx. apply fn_lookup_insert_ne. lia. }
  intros x. unfold over. destruct (Z.leb_spec a x), (Z.ltb_spec x (a + ca_objSize c)); simpl.
  2-4: symmetry; apply fn_lookup_insert_ne; lia.
  destruct (decide (x = a + off)) as [->|Hne]; [by rewrite !fn_lookup_insert|]. rewrite !fn_lookup_insert_ne by auto. by apply (rest_read st H R cp c a).
Qed.

Lemma create_served {G} st H R name objSize align ctor dtor : rest G st H R -> booted st -> 0 <= objSize -> 0 <= align -> confined objSize ctor -> confined objSize dtor ->
  exists s r st', slabCacheCreate name objSize align ctor dtor st = (s, r, st') /\ rest G st' H R /\ booted st' /\ sizes st st'.
Proof.
  intros Hr Hb Ho Ha Hc Hd. unfold slabCacheCreate.
  destruct (create_spec st H R name objSize align ctor dtor 0 Hr Ho Ha Hc Hd) as [[-> _]|[[-> _]|(i & c & -> & _ & _ & _ & _ & Hnl & _ & Hr')]]; eexists _, _, _; (split; [reflexivity|]); auto.
  split_and!; auto. intros q d Hq _ Ed. exists d. split; [|reflexivity]. simpl. rewrite lookup_insert_ne; [exact Ed|]. intros <-. contradiction.
Qed.

Lemma shrink_served {G} st H R cp : rest G st H R -> booted st -> cp = 0 \/ live st cp ->
  exists st', slabCacheShrink cp st = Done st' /\ rest G st' H R /\ booted st' /\ sizes st st'.
Proof.
  intros Hr Hb Hcp. unfold slabCacheShrink. destruct (Z.eqb_spec cp 0) as [->|Hnz]; [eauto 6|]. destruct Hcp as [|Hl]; [contradiction|].
  destruct (shrink_spec st H R cp Hr Hl) as (st1 & st' & -> & E & Hr' & Hst & _). cbn [mbind res_bind]. exists st'. split; [exact E|]. split; [exact Hr'|]. split; [by eapply step_booted|by apply (step_sizes cp)].
Qed.

(** The byte a call stores to, if any. *)
Definition stores (r : call) (x : Z) : Prop := match r with Store _ a off _ => x = a + off | _ => False end.

Lemma serve_spec R r k : good R k -> allowed r k ->
  exists k', serve r k = Done k' /\ good R k' /\ sizes (cl_st k) (cl_st k') /\ (extends k k' \/ forall x, ~ stores r x -> cl_view k' x = cl_view k x).
Proof.
  intros Hg Ha. destruct k as [st H G]. pose proof Hg as [Hr Hb]. simpl in Hr, Hb. destruct r; cbn [serve allowed cl_st cl_held] in *.
  - destruct Ha as (A1 & A2 & A3 & A4). destruct (create_served st H R name objSize align ctor dtor Hr Hb A1 A2 A3 A4) as (s & q & st' & -> & Hr' & Hb' & Hz).
    eexists. split; [reflexivity|]. split; [by split|auto].
  - destruct Ha as [->|(c & Hl & Ec & Hf & HH)]; [eexists; split; [reflexivity|split; [exact Hg|simpl; auto]]|]. destruct (destroy_spec st H R cp c Hr Hl Ec Hf) as (st1 & _ & Hst & _ & Hd & _).
    destruct (Hd HH) as (st' & -> & Hr' & _ & _ & Hk & Hlv & Hc). eexists. split; [reflexivity|]. split; [split; [exact Hr'|simpl; intros i q; rewrite Hk; apply Hb]|]. split; [|auto].
    intros q d _ Hq Ed. apply Hlv in Hq as [Hne _]. exists d. simpl. by rewrite Hc.
  - destruct Ha as (c & Hl & Ec & Hf & Hz). destruct (alloc_served G st H R cp c flags Hg Hl Ec Hf Hz) as (a & st' & k' & -> & Ek & Hk & He & Hsz). eauto 6.
  - destruct (free_served G st H R cp a Hg Ha) as (st' & -> & Hk & Hz). eexists. split; [reflexivity|]. split; [exact Hk|auto].
  - destruct Ha as [Hs Hf]. destruct (kmalloc_served G st H R size flags Hg Hs Hf) as (cp & a & st' & k' & -> & Ea & Ek & Hk & He & Hsz). cbn [need mbind res_bind]. rewrite Ea. eauto 6.
  - destruct (kfree_served G st H R a Hg Ha) as (st' & -> & Hk & Hz). eexists. split; [reflexivity|]. split; [exact Hk|auto].
  - destruct (shrink_served st H R cp Hr Hb Ha) as (st' & -> & Hr' & Hb' & Hz). eexists. split; [reflexivity|]. split; [by split|auto].
  - unfold slabShrinkAll. destruct (shrink_slots_spec H R 64 0 st Hr) as (st' & -> & Hr' & _ & Hk & Hc & _); [lia|unfold SLAB_MAX_CACHES; lia|]. eexists. split; [reflexivity|].
    split; [split; [exact Hr'|simpl; intros i q; rewrite Hk; apply Hb]|]. split; [|auto]. intros q d _ _ Ed. destruct (Hc q d Ed) as (d' & Ed' & Hsc). exists d'. split; [exact Ed'|apply Hsc].
  - destruct Ha as (c & Hh & Ho). eexists. split; [reflexivity|]. split; [by eapply store_served|]. split; [intros q d _ _ Ed; exists d; auto|]. right. intros x Hx. simpl in *. by apply fn_lookup_insert_ne.
Qed.

Lemma serve_all_spec R rs : forall k, good R k -> behaves rs k -> exists k', serve_all rs k = Done k' /\ good R k'.
Proof.
  induction rs as [|r rs IH]; intros k Hg Hb; cbn [serve_all]; [eauto|]. destruct Hb as [Ha Hb]. destruct (serve_spec R r k Hg Ha) as (k1 & E & Hg1 & _). rewrite E. cbn [mbind res_bind]. apply IH; auto.
Qed.

(** ** The allocator's promises *)

Definition start st : client := mkClient st (fun _ => []) (fun _ => 0).

(** The memory of held objects is what their clients expect. *)
Definition intact (k : client) : Prop :=
  forall cp c a x, held (cl_st k) (cl_held k) cp c a -> a <= x < a + ca_objSize c -> st_mem (cl_st k) x = cl_view k x.

(** C3: over any page allocator that keeps its laws, slabInit succeeds and afterwards every run
    of well-behaved calls (creating and destroying caches, slabAlloc, slabFree, kmalloc, kfree, shrinking,
    stores through held objects), of any length and in any order, returns from every call without a bug report
    or a crash; in the end the held objects are aligned, lie in the direct map, do not overlap, and hold what
    their clients last stored there; the invariant of the allocator, with its blocks of pages apart from those
    of others, holds. *)
Theorem slab_client_safe R pages rs : pa_inv R pages ->
  exists st, slabInit (slab_boot pages) = Done st /\
    (behaves rs (start st) -> exists k, serve_all rs (start st) = Done k /\ separate (cl_st k) (cl_held k) /\ intact k /\ good R k).
Proof.
  intros Hp. destruct (slabInit_spec (G := fun _ => 0) pages R Hp) as (st & E & Hr & Hb). exists st. split; [exact E|]. intros Hbh.
  destruct (serve_all_spec R rs (start st)) as (k & Ek & Hg); [by split|exact Hbh|]. exists k. split; [exact Ek|]. pose proof Hg as [Hr' _].
  split; [by eapply rest_separate|]. split; [|exact Hg]. intros cp c a x. by eapply rest_read.
Qed.

(** C17: no call of any client changes a byte of an object that stays held, but a store to that very byte:
    refills, new slabs with their constructors and poison, frees, releases with their destructors and
    zeroing all stay away from it. *)
Theorem slab_client_isolated R k r k' : good R k -> allowed r k -> serve r k = Done k' ->
  forall cp c a x, held (cl_st k) (cl_held k) cp c a -> a ∈ cl_held k' cp -> a <= x < a + ca_objSize c -> ~ stores r x ->
  st_mem (cl_st k') x = st_mem (cl_st k) x.
Proof.
  intros Hg Ha E cp c a x Hh Hin Hx Hs. destruct (serve_spec R r k Hg Ha) as (k1 & E1 & Hg1 & Hsz & Hv). rewrite E in E1. injection E1 as <-.
  assert (Hl' : live (cl_st k') cp) by (destruct (decide (live (cl_st k') cp)) as [|Hn]; [assumption|]; rewrite (r_idle _ _ _ _ (proj1 Hg1) cp Hn) in Hin; by apply not_elem_of_nil in Hin).
  destruct (Hsz cp c) as (c' & Ec' & Heq); [apply Hh|exact Hl'|apply Hh|]. assert (Hh' : held (cl_st k') (cl_held k') cp c' a) by (by split_and!).
  rewrite (rest_read _ _ R cp c a x (proj1 Hg) Hh Hx), (rest_read _ _ R cp c' a x (proj1 Hg1) Hh') by lia.
  destruct Hv as [[->|(cq & d & b & Hn & Hb & Hv)]|Hv]; [reflexivity| |by apply Hv]. apply Hv.
  assert (Hne : a <> b \/ cp <> cq) by (destruct (decide (a = b)) as [->|]; [right; intros <-; destruct Hh; contradiction|auto]).
  destruct (se_apart _ _ (rest_separate _ _ R (proj1 Hg1)) cp c' a cq d b Hh' Hb Hne); lia.
Qed.

(** When the clients have given everything back, slabShrinkAll returns every slab: no slab and no mark on a
    page remains, and the page allocator has the blocks of others as its only ones. *)
Lemma all_returned R k : good R k -> (forall cp, cl_held k cp = []) ->
  exists st, slabShrinkAll (cl_st k) = Done st /\ st_slabs st = ∅ /\ st_owner st = ∅ /\ pa_inv R (st_pages st) /\ good R (with_st st k).
Proof.
  intros [Hr Hb] HH. destruct (shrink_slots_spec (cl_held k) R 64 0 (cl_st k) Hr) as (st & E & Hr' & Hu & Hk & _ & _ & Hsh); [lia|unfold SLAB_MAX_CACHES; lia|].
  exists st. split; [exact E|]. destruct (all_shrunk st (cl_held k) R Hr' HH) as (X1 & X2 & X3).
  - intros i Hi Hl. apply Hsh; [unfold SLAB_MAX_CACHES in Hi; lia|]. by apply (live_inUse (cl_st k) st _ Hu).
  - split_and!; auto. split; [exact Hr'|]. simpl. intros i q. rewrite Hk. apply Hb.
Qed.


(** slabFree on any 64-bit value, alike; the cache must be the object's. *)
Theorem slabFree_exact G st H R cp a : rest G st H R -> is_u64 a ->
  (a = 0 /\ slabFree cp a st = Done st) \/
  (exists bug, verdict st a bug /\ reports (slabFree cp a st) st bug a) \/
  (exists cp' va i, object st cp' va i a /\
    ((cp' <> cp /\ reports (slabFree cp a st) st SLAB_BUG_WRONG_CACHE a) \/
     (cp' = cp /\ (a ∉ H cp) /\ reports (slabFree cp a st) st SLAB_BUG_DOUBLE_FREE a) \/
     (cp' = cp /\ a ∈ H cp /\ exists st', slabFree cp a st = Done st' /\ rest G st' (without a H) R))).
Proof.
  intros Hr Ha. destruct (decide (a = 0)) as [->|Hnz]; [left; auto|right]. destruct (slabFree_spec st H R cp a Hr Ha Hnz) as [Hv|(cp' & va & i & Hob & Hl & Hf)]; [auto|right].
  exists cp', va, i. split; [exact Hob|]. destruct Hf as [?|[-> ->]]; [auto|right]. destruct (decide (a ∈ H cp)) as [Hin|Hout]; [right|left].
  - destruct (free_held st H R cp va i a Hr Hl Hob Hin) as (st' & -> & Hr' & _). eauto.
  - split_and!; auto. by eapply double_free.
Qed.

(** C20: kmalloc for any size and flags after slabInit: sizes outside 1 to 8192 and unknown flags are
    reported; otherwise it returns NULL and nothing has changed for the clients, or an object of the smallest class
    that holds the size, aligned to 16 bytes, that nobody held, and full of zeroes if that was asked for. *)
Theorem kmalloc_exact G st H R size flags : rest G st H R -> booted st -> 0 <= size ->
  (~ (1 <= size <= KMALLOC_MAX_SIZE) /\ reports (kmalloc size flags st) st SLAB_BUG_BAD_SIZE 0) \/
  (1 <= size <= KMALLOC_MAX_SIZE /\ ~ valid_flags flags /\ reports (kmalloc size flags st) st SLAB_BUG_BAD_FLAGS 0) \/
  (1 <= size <= KMALLOC_MAX_SIZE /\ valid_flags flags /\ exists cp c a st', class_for st size cp c /\ kmalloc size flags st = Done (a, st') /\
    ((a = 0 /\ rest G st' H R) \/
     (0 < a /\ a mod KMALLOC_MIN_ALIGN = 0 /\ (a ∉ H cp) /\ rest (over a (ca_objSize c) (st_mem st') G) st' (<[cp := a :: H cp]> H) R /\
      (flags .& KMALLOC_ZERO <> 0 -> forall x, a <= x < a + ca_objSize c -> st_mem st' x = 0)))).
Proof.
  intros Hr Hb Hs. destruct (kmalloc_spec st H R size flags Hr Hb Hs) as [[Hbad E]|(Hsz & cp & c & _ & E & Hcf)]; [left; auto|right].
  pose proof Hcf as (Hl & Ec & _ & Hal & Hct & _). unfold reports. rewrite E. destruct (decide (valid_flags flags)) as [Hf|Hf]; [right|left].
  - split; [exact Hsz|]. split; [exact Hf|]. exists cp, c. destruct (slabAlloc_spec st H R cp c flags Hr Hl Ec Hf ltac:(auto)) as (a & st' & -> & [(-> & Hr' & _)|(Ha & (Hn & (va & i & Hob) & Hr' & Hst) & Hz)]).
    + exists 0, st'. auto.
    + exists a, st'. split; [exact Hcf|]. split; [reflexivity|]. right. split_and!; auto. destruct (sp_cache _ _ _ Hst c Ec) as (c' & Ec' & Hsc).
      destruct (r_sound _ _ _ _ Hr') as (K' & _ & _). rewrite <- Hal, <- (sc_align _ _ Hsc). by eapply object_aligned.
  - split; [exact Hsz|]. split; [exact Hf|]. unfold slabAlloc. pose proof (live_ptr _ _ Hl). destruct (Z.eqb_spec cp 0); [lia|].
    unfold valid_flags in Hf. destruct (Z.eqb_spec (flags .& not32 KMALLOC_FLAGS_VALID) 0); [contradiction|reflexivity].
Qed.

(** A wild cache pointer is reported by slabAlloc, but not with KMALLOC_ZERO: then the constructor field is read
    before the check of the pointer. *)
Theorem slabAlloc_wild G st H R cp : rest G st H R -> 0 < cp < 2 ^ 64 -> st_caches st !! cp = None ->
  reports (slabAlloc cp 0 st) st SLAB_BUG_CORRUPT 0 /\ slabAlloc cp KMALLOC_ZERO st = Crash.
Proof.
  intros Hr Hcp Hn. destruct (r_sound _ _ _ _ Hr) as (K & _ & _). assert (Hnl : ~ live st cp) by (intros Hl; destruct (k_cache _ _ _ K cp Hl) as (c & Ec & _); congruence).
  destruct (live_spec st _ R cp K ltac:(lia)) as (b & Eb & Hb). assert (b = false) as -> by (destruct b; [exfalso; apply Hnl, Hb; reflexivity|reflexivity]).
  unfold reports, slabAlloc. destruct (Z.eqb_spec cp 0); [lia|]. split; [cbn [mbind res_bind]; rewrite Eb; reflexivity|].
  unfold get_cache. rewrite Hn. reflexivity.
Qed.
End Run.
