(* ===== verification/SlabPmm.v ===== *)
(** * The slab allocator over the physical memory manager

    Discharges the interface of [Slab] with the manager of [Pmm] and composes the two:
    slabInit and every run of well-behaved clients on a machine whose pages pmm.c
    manages, down to the return of every frame. *)

From stdpp Require Import functions.
From S2P Require Import Prelude BootTypes Buddy PmmMap EarlyAlloc Pmm PmmClient.
From S2P Require Import SlabCore Slab SlabInv SlabClient SlabCaches SlabRun.

(** ** The interface *)

Definition ret {A} (o : outcome A) : option A := match o with Ret a => Some a | _ => None end.

(** The calls slab.c makes: pmmAllocPages(order, 0, &head) with pmmPageToPhys(head), pmmFreePages of
    pmmPhysToPage's answer, and whether pmmPhysToPage finds a page; memory is made of words. *)
Definition pmm_pages (debug : bool) : PageAllocator Pmm := {|
  pa_alloc order s := '(st, page, s) ← ret (pmmAllocPages debug order 0 s);
    Some (match st, page with STATUS_OK, Some page => Some (pageToPfn page) | _, _ => None end, s);
  pa_free p k s := page ← ret (pmmPhysToPage (p <<! 12) s); page ← (page : option Z); ret (pmmFreePages debug page k s);
  pa_page phys s := page ← ret (pmmPhysToPage phys s); Some (bool_decide (is_Some (page : option Z)));
  pa_byte phys s := (p_mem s (p_hhdmBase s + (phys - phys mod 8)) >>! (8 * (phys mod 8))) .& 0xff
|}.

(** The frames that are free or in the slab allocator's blocks [L]: [F], whatever happens. *)
Definition pmm_owns (debug : bool) (F : Z -> Prop) (L : list (Z * Z)) (s : Pmm) : Prop :=
  exists A, pmm_inv debug L A s /\ forall f, available A f \/ held_frame L f <-> F f.

Lemma phys_page debug L A s phys : pmm_inv debug L A s ->
  exists b, pmmPfnValid (phys >>! 12) s = Ret b /\ (b = true <-> is_Some (bs_pages (p_buddy s) !! (phys / 4096))).
Proof.
  intros Hi. destruct (c_spans _ _ (i_core _ _ _ _ Hi)) as [Hs Hz]. destruct (pmmPfnValid_ok (phys >>! 12) s Hs Hz) as (b & E & Hb).
  exists b. split; [exact E|]. rewrite Hb, (c_backed _ _ (i_core _ _ _ _ Hi)). by rewrite Z.shiftr_div_pow2 by lia.
Qed.

Lemma held_block debug L A s p k : pmm_inv debug L A s -> (p, k) ∈ L -> A !! p = Some (Held, k).
Proof. intros Hi. apply (i_held _ _ _ _ Hi). Qed.

Lemma owns_alloc debug F L s order : pmm_owns debug F L s -> 0 <= order <= SLAB_MAX_ORDER ->
  exists r s', pa_alloc (PageAllocator := pmm_pages debug) order s = Some (r, s') /\
    match r with Some p => pmm_owns debug F ((p, order) :: L) s' | None => pmm_owns debug F L s' end.
Proof.
  intros (A & Hi & HF) Ho. unfold SLAB_MAX_ORDER in Ho. simpl. destruct (pmmAllocPages_spec debug L A s order 0 Hi) as [(p & A' & s' & -> & Hok)|[-> _]]; [unfold PMM_MAX_ORDER; lia|reflexivity| |].
  - destruct Hok as (Hi' & Hav & _ & Hp & _). simpl. destruct (pageFromPfn_small p Hp) as [_ ->]. exists (Some p), s'. split; [reflexivity|]. exists A'. split; [exact Hi'|].
    intros f. rewrite <- HF, Hav, held_frame_cons. tauto.
  - exists None, s. split; [reflexivity|]. by exists A.
Qed.

Lemma owns_free debug F L s p k : pmm_owns debug F ((p, k) :: L) s ->
  exists s', pa_free (PageAllocator := pmm_pages debug) p k s = Some s' /\ pmm_owns debug F L s'.
Proof.
  intros (A & Hi & HF). pose proof (held_block _ _ _ _ p k Hi ltac:(apply list_elem_of_here)) as Hp. destruct (block_range _ _ _ _ _ (i_core _ _ _ _ Hi) Hp) as (H0 & H1 & Hk & _ & Hin).
  pose proof (pow2_pos k ltac:(lia)). destruct (frame_phys p ltac:(lia)) as [Hph Hdiv]. destruct (phys_page debug _ A s (p <<! 12) Hi) as (b & Eb & Hb). simpl. unfold pmmPhysToPage. rewrite Eb. cbn [mbind outcome_bind ret option_bind].
  rewrite (proj2 Hb) by (rewrite Hdiv; apply Hin; unfold in_block; lia). cbn [mbind option_bind].
  replace ((p <<! 12) >>! 12) with p by (rewrite Z.shiftr_div_pow2 by lia; exact (eq_sym Hdiv)).
  destruct (pmmFreePages_spec debug L A s p k Hi) as (A' & s' & -> & Hi' & Hav & _). exists s'. split; [reflexivity|]. exists A'. split; [exact Hi'|].
  intros f. rewrite <- HF, Hav, held_frame_cons. tauto.
Qed.

Definition pmm_laws (debug : bool) (F : Z -> Prop) : @PageAllocatorLaws Pmm (pmm_pages debug).
Proof.
  refine {| pa_inv := pmm_owns debug F : list (Z * Z) -> Pmm -> Prop |}.
  - intros L L' s HL (A & Hi & HF). exists A. split; [by eapply pmm_inv_perm|]. intros f. rewrite <- HF. by rewrite (held_frame_perm L L' f HL).
  - intros L s p k (A & Hi & _) Hin. destruct (block_range _ _ _ _ _ (i_core _ _ _ _ Hi) (held_block _ _ _ _ _ _ Hi Hin)) as (? & ? & ? & _). lia.
  - intros L s p k q j (A & Hi & _).
    assert (Hp : (p, k) ∈ (p, k) :: (q, j) :: L) by apply list_elem_of_here. assert (Hq : (q, j) ∈ (p, k) :: (q, j) :: L) by (apply list_elem_of_further, list_elem_of_here).
    destruct (block_range _ _ _ _ _ (i_core _ _ _ _ Hi) (held_block _ _ _ _ _ _ Hi Hp)) as (? & ? & Hk & _). destruct (block_range _ _ _ _ _ (i_core _ _ _ _ Hi) (held_block _ _ _ _ _ _ Hi Hq)) as (? & ? & Hj & _).
    pose proof (pow2_pos k ltac:(lia)). pose proof (pow2_pos j ltac:(lia)). destruct (Z.le_gt_cases (p + 2 ^ k) q) as [|Hlt]; [auto|]. destruct (Z.le_gt_cases (q + 2 ^ j) p) as [|Hlt']; [auto|]. exfalso.
    destruct (held_apart _ _ _ _ p k q j (Z.max p q) Hi Hp Hq) as [-> ->]; [unfold in_block; lia..|]. pose proof (i_nodup _ _ _ _ Hi) as Hn. apply NoDup_cons in Hn as [Hn _]. apply Hn, list_elem_of_here.
  - intros L s phys (A & Hi & _). destruct (phys_page debug L A s phys Hi) as (b & Eb & Hb). simpl. unfold pmmPhysToPage. rewrite Eb. exists b. split; [by destruct b|].
    intros (p & k & Hin & Hr). apply Hb. destruct (block_range _ _ _ _ _ (i_core _ _ _ _ Hi) (held_block _ _ _ _ _ _ Hi Hin)) as (_ & _ & _ & _ & Hbk). by apply Hbk.
  - intros L s order. apply owns_alloc.
  - intros L s p k. apply owns_free.
Defined.

(** ** The kernel *)

(** The build, pmmHhdmBase() and where the array of caches is linked. *)
Definition kernel_machine (debug : bool) (s : Pmm) (caches : Z) : Machine :=
  {| KERNEL_DEBUG := debug; hhdmBase := p_hhdmBase s; slabCaches := caches |}.

Definition kernel_placed (s : Pmm) (caches : Z) : Prop :=
  (0 < p_hhdmBase s /\ p_hhdmBase s + BOOTINFO_HHDM_SIZE <= VM_KVA_BASE) /\ p_hhdmBase s mod 4096 = 0 /\
  0 < caches /\ caches + SLAB_MAX_CACHES * sizeof_SlabCache < 2 ^ 64.

Lemma kernel_laws debug s caches : kernel_placed s caches -> MachineLaws (MC := kernel_machine debug s caches).
Proof. intros (H1 & H2 & H3). by split. Qed.

Section Kernel.
Context (debug : bool) (A : blocks) (s : Pmm) (caches : Z).

#[local] Instance kernel_pages : PageAllocator Pmm := pmm_pages debug.
#[local] Instance kernel_page_laws : PageAllocatorLaws Pmm := pmm_laws debug (available A).
#[local] Instance kernel_here : Machine := kernel_machine debug s caches.

Lemma owns_start : pmm_inv debug [] A s -> pa_inv [] s.
Proof.
  intros Hi. exists A. split; [exact Hi|]. intros f. split; [intros [|(p & k & Hn & _)]; [assumption|by apply not_elem_of_nil in Hn]|auto].
Qed.

Lemma owns_end t : pa_inv [] t -> exists A', pmm_inv debug [] A' t /\ forall f, available A' f <-> available A f.
Proof.
  intros (A' & Hi & HF). exists A'. split; [exact Hi|]. intros f. rewrite <- HF. split; [auto|]. intros [|(p & k & Hn & _)]; [assumption|by apply not_elem_of_nil in Hn].
Qed.

(** C2: the slab allocator on top of the physical memory manager.  From any state of the manager in which
    nobody holds pages, slabInit succeeds and every run of well-behaved clients is served, with the
    held objects apart and intact; when the clients have given everything back, slabShrinkAll returns every
    page, and exactly the frames that were available before slabInit are available again. *)
Theorem slab_pmm_returns rs : pmm_inv debug [] A s -> kernel_placed s caches ->
  exists st, slabInit (slab_boot s) = Done st /\
    (behaves rs (start st) -> exists k, serve_all rs (start st) = Done k /\ separate (cl_st k) (cl_held k) /\ intact k /\
      ((forall cp, cl_held k cp = []) -> exists st' A', slabShrinkAll (cl_st k) = Done st' /\ st_slabs st' = ∅ /\
         pmm_inv debug [] A' (st_pages st') /\ forall f, available A' f <-> available A f)).
Proof.
  intros Hi Hpl. pose proof (kernel_laws debug s caches Hpl) as ML. destruct (slabInit_spec (G := fun _ => 0) s [] (owns_start Hi)) as (st & E & Hr & Hb). exists st. split; [exact E|]. intros Hbh.
  destruct (serve_all_spec [] rs (start st)) as (k & Ek & Hg); [by split|exact Hbh|]. exists k. split; [exact Ek|]. pose proof Hg as [Hr' _].
  split; [by eapply rest_separate|]. split; [intros cp c a x; by eapply rest_read|]. intros HH.
  destruct (all_returned [] k Hg HH) as (st' & Es & Hno & _ & Hp & _). destruct (owns_end _ Hp) as (A' & Hi' & Hav). exists st', A'. auto.
Qed.
End Kernel.

(** ** A run *)

(** A kernel over [sample_pmm]: one chunk of memory, all of it free, in a debug build. *)
Definition sample_caches : Z := 0xFFFFFFFF80200000.
#[local] Instance sample_pages : PageAllocator Pmm := pmm_pages true.
#[local] Instance sample_page_laws : PageAllocatorLaws Pmm := pmm_laws true (available sample_blocks).
#[local] Instance sample_machine : Machine := kernel_machine true sample_pmm sample_caches.

Lemma sample_placed : kernel_placed sample_pmm sample_caches.
Proof. split; [split; [reflexivity|vm_compute; discriminate]|]. split; [reflexivity|]. split; reflexivity. Qed.

#[local] Instance sample_laws : MachineLaws := kernel_laws true sample_pmm sample_caches sample_placed.

Definition done {B} (r : @res Pmm B) : option B := match r with Done b => Some b | _ => None end.
Definition sample_after (rs : list call) : option client :=
  st ← done (slabInit (slab_boot sample_pmm)); done (serve_all rs (start st)).

(** The cache of kmalloc-128 and its first object. *)
Definition cache128 : Z := cache_ptr 4.
Definition first128 : Z := 18446603336225520080.

Definition sample_calls : list call :=
  [Create (Some [116; 109; 112]) 48 64 None None; Kmalloc 100 0; Store cache128 first128 7 99].

Lemma sample_start : exists st, slabInit (slab_boot sample_pmm) = Done st /\ good [] (start st).
Proof.
  destruct (slabInit_spec (G := fun _ => 0) sample_pmm [] (owns_start true sample_blocks sample_pmm (sample_pmm_inv true))) as (st & E & Hr & Hb). exists st. split; [exact E|by split].
Qed.

(** What a run computes. *)
Lemma sample_held : (fun k => (cl_held k cache128, cl_view k (first128 + 7), st_mem (cl_st k) (first128 + 7))) <$> sample_after sample_calls = Some ([first128], 99, 99).
Proof. vm_compute. reflexivity. Qed.

Definition reported {B} (r : @res Pmm B) : option (SlabBugKind * Z) := match r with Bugged st => Some (st_lastKind st, st_lastObj st) | _ => None end.

(** A second kfree of the same object, a pointer into it, a pointer to no object, slabFree to another cache. *)
Lemma sample_reports :
  (k ← sample_after (sample_calls ++ [Kfree first128]); reported (kfree first128 (cl_st k))) = Some (SLAB_BUG_DOUBLE_FREE, first128) /\
  (k ← sample_after sample_calls; reported (kfree (first128 + 8) (cl_st k))) = Some (SLAB_BUG_MISALIGNED, first128 + 8) /\
  (k ← sample_after sample_calls; reported (kfree 4096 (cl_st k))) = Some (SLAB_BUG_BAD_POINTER, 4096) /\
  (k ← sample_after sample_calls; reported (slabFree (cache_ptr 5) first128 (cl_st k))) = Some (SLAB_BUG_WRONG_CACHE, first128).
Proof. vm_compute. auto. Qed.

Lemma sample_after_app rs r k k' : sample_after rs = Some k -> serve r k = Done k' -> sample_after (rs ++ [r]) = Some k'.
Proof.
  unfold sample_after. destruct (slabInit (slab_boot sample_pmm)) as [st| |]; cbn [done mbind option_bind]; try discriminate.
  generalize (start st). induction rs as [|q rs IH]; intros j; cbn [serve_all app].
  - intros [= <-] ->. reflexivity.
  - destruct (serve q j) as [j'| |]; cbn [mbind res_bind done]; try discriminate. apply IH.
Qed.

Lemma computed {B} (f : @client Pmm -> B) rs k v : sample_after rs = Some k -> f <$> sample_after rs = Some v -> f k = v.
Proof. intros ->. cbn [fmap option_fmap option_map]. congruence. Qed.

(** What is held, from what is computed. *)
Definition facts (k : @client Pmm) : list Z * option Z * option Z * option bool :=
  (cl_held k cache128, ca_objSize <$> st_caches (cl_st k) !! cache128, ca_flags <$> st_caches (cl_st k) !! cache128, aget (st_inUse (cl_st k)) 4).

Lemma facts_held k : facts k = ([first128], Some 128, Some 3, Some true) ->
  exists c, held (cl_st k) (cl_held k) cache128 c first128 /\ ca_objSize c = 128 /\ ca_flags c = 3.
Proof.
  unfold facts. destruct (st_caches (cl_st k) !! cache128) as [c|] eqn:Ec; cbn [fmap option_fmap option_map]; intros Hf; [|discriminate]. injection Hf as Hh Hs Hfl Hu. exists c. split; [|auto].
  split; [rewrite Hh; apply list_elem_of_here|]. split; [|exact Ec]. apply live_at; [unfold SLAB_MAX_CACHES; lia|exact Hu].
Qed.

Lemma sample_facts rs k : sample_after rs = Some k -> facts <$> sample_after rs = Some ([first128], Some 128, Some 3, Some true) ->
  exists c, held (cl_st k) (cl_held k) cache128 c first128 /\ ca_objSize c = 128 /\ ca_flags c = 3.
Proof. intros Ha Hf. apply facts_held. by apply (computed facts rs). Qed.

Definition sample_full : list call := sample_calls ++ [Kfree first128].

Lemma sample_behaves st : slabInit (slab_boot sample_pmm) = Done st -> behaves sample_full (start st).
Proof.
  intros E. assert (H0 : sample_after [] = Some (start st)) by (unfold sample_after; by rewrite E).
  split; [split_and!; [lia|lia|exact I|exact I]|]. intros k1 E1. pose proof (sample_after_app [] _ _ _ H0 E1) as H1.
  split; [split; [unfold KMALLOC_MAX_SIZE; lia|reflexivity]|]. intros k2 E2. pose proof (sample_after_app _ _ _ _ H1 E2) as H2.
  split; [destruct (sample_facts _ k2 H2) as (c & Hh & Hs & _); [vm_compute; reflexivity|]; exists c; split; [exact Hh|lia]|]. intros k3 E3. pose proof (sample_after_app _ _ _ _ H2 E3) as H3.
  split; [right; destruct (sample_facts _ k3 H3) as (c & Hh & _ & Hf); [vm_compute; reflexivity|]; exists cache128, c; split; [exact Hh|by rewrite Hf]|]. intros k4 _. exact I.
Qed.

Lemma behaves_app rs rs' k : behaves (rs ++ rs') k -> behaves rs k.
Proof. revert k. induction rs as [|r rs IH]; intros k; [intros _; exact I|]. intros [Ha Hb]. split; [exact Ha|]. intros k' E. by apply IH, Hb. Qed.

(** The state after [sample_calls]: one object is held. *)
Lemma sample_state : exists k, sample_after sample_calls = Some k /\ good [] k /\ exists c, held (cl_st k) (cl_held k) cache128 c first128 /\ ca_objSize c = 128 /\ ca_flags c = 3.
Proof.
  destruct sample_start as (st & E1 & Hg).
  destruct (serve_all_spec [] sample_calls (start st) Hg) as (k & Ek & Hk); [apply (behaves_app _ [Kfree first128]), sample_behaves, E1|].
  assert (Ha : sample_after sample_calls = Some k) by (unfold sample_after; rewrite E1; cbn [done mbind option_bind]; by rewrite Ek).
  exists k. split; [exact Ha|]. split; [exact Hk|]. apply (sample_facts sample_calls); [exact Ha|]. vm_compute. reflexivity.
Qed.

(** After [sample_full] nothing is held. *)
Lemma sample_empty k : good [] k -> sample_after sample_full = Some k -> forall cp, cl_held k cp = [].
Proof.
  intros Hg Ha cp. destruct (decide (live (cl_st k) cp)) as [(i & Hi & -> & _)|Hn]; [|by apply (r_idle _ _ _ _ (proj1 Hg))].
  assert (Hall : (fun k => forallb (fun i => bool_decide (cl_held k (cache_ptr i) = [])) (seqZ 0 64)) <$> sample_after sample_full = Some true) by (vm_compute; reflexivity).
  apply (computed _ _ k _ Ha) in Hall. rewrite forallb_forall in Hall. apply (bool_decide_eq_true _), Hall, list_elem_of_In, elem_of_seqZ. unfold SLAB_MAX_CACHES in Hi. lia.
Qed.

Lemma sample_full_state st k : slabInit (slab_boot sample_pmm) = Done st -> serve_all sample_full (start st) = Done k -> sample_after sample_full = Some k /\ good [] k.
Proof.
  intros E Ek. split; [unfold sample_after; rewrite E; cbn [done mbind option_bind]; by rewrite Ek|]. destruct sample_start as (st1 & E1 & Hg1). assert (st1 = st) as -> by congruence.
  destruct (serve_all_spec [] sample_full (start st) Hg1 (sample_behaves st E)) as (k2 & Ek2 & Hg2). assert (k2 = k) as -> by congruence. exact Hg2.
Qed.

Lemma slab_client_safe_witness : exists st k, slabInit (slab_boot sample_pmm) = Done st /\ serve_all sample_calls (start st) = Done k /\ separate (cl_st k) (cl_held k) /\ intact k.
Proof.
  destruct (slab_client_safe [] sample_pmm sample_calls (owns_start true sample_blocks sample_pmm (sample_pmm_inv true))) as (st & E & Hs). exists st.
  destruct Hs as (k & Ek & Hsep & Hin & _); [apply (behaves_app _ [Kfree first128]), sample_behaves, E|]. exists k. split_and!; assumption.
Defined.

Lemma slab_client_isolated_witness : exists k k', cl_held k cache128 = [first128] /\ serve (Kmalloc 64 0) k = Done k' /\ st_mem (cl_st k') (first128 + 7) = st_mem (cl_st k) (first128 + 7).
Proof.
  destruct sample_state as (k & Ha & Hg & c & Hh & Hs & _). destruct (serve_spec [] (Kmalloc 64 0) k Hg) as (k' & E & _); [split; [unfold KMALLOC_MAX_SIZE; lia|reflexivity]|]. exists k, k'.
  pose proof (sample_after_app _ _ _ _ Ha E) as Ha'. assert (Hf : facts <$> sample_after sample_calls = Some ([first128], Some 128, Some 3, Some true)) by (vm_compute; reflexivity).
  assert (Hf' : facts <$> sample_after (sample_calls ++ [Kmalloc 64 0]) = Some ([first128], Some 128, Some 3, Some true)) by (vm_compute; reflexivity).
  assert (Hh0 : cl_held k cache128 = [first128]) by (apply (computed facts _ k _ Ha) in Hf; unfold facts in Hf; congruence). destruct (sample_facts _ k' Ha' Hf') as (c' & Hh' & _). split; [exact Hh0|]. split; [exact E|].
  apply (slab_client_isolated [] k (Kmalloc 64 0) k' Hg) with (cp := cache128) (c := c) (a := first128); [split; [unfold KMALLOC_MAX_SIZE; lia|reflexivity]|exact E|exact Hh|apply Hh'|lia|auto].
Defined.


Lemma kmalloc_exact_witness : exists k, good [] k /\
  ((~ (1 <= 100 <= KMALLOC_MAX_SIZE) /\ reports (kmalloc 100 1 (cl_st k)) (cl_st k) SLAB_BUG_BAD_SIZE 0) \/
   (1 <= 100 <= KMALLOC_MAX_SIZE /\ ~ valid_flags 1 /\ reports (kmalloc 100 1 (cl_st k)) (cl_st k) SLAB_BUG_BAD_FLAGS 0) \/
   (1 <= 100 <= KMALLOC_MAX_SIZE /\ valid_flags 1 /\ exists cp c a st', class_for (cl_st k) 100 cp c /\ kmalloc 100 1 (cl_st k) = Done (a, st') /\
    ((a = 0 /\ rest (cl_view k) st' (cl_held k) []) \/
     (0 < a /\ a mod KMALLOC_MIN_ALIGN = 0 /\ (a ∉ cl_held k cp) /\ rest (over a (ca_objSize c) (st_mem st') (cl_view k)) st' (<[cp := a :: cl_held k cp]> (cl_held k)) [] /\
      (1 .& KMALLOC_ZERO <> 0 -> forall x, a <= x < a + ca_objSize c -> st_mem st' x = 0))))).
Proof.
  destruct sample_state as (k & _ & Hg & _). exists k. split; [exact Hg|]. apply (kmalloc_exact (cl_view k) (cl_st k) (cl_held k) [] 100 1 (proj1 Hg) (proj2 Hg)). lia.
Defined.

Lemma slab_pmm_returns_witness : exists st k st' A', slabInit (slab_boot sample_pmm) = Done st /\ serve_all sample_full (start st) = Done k /\
  slabShrinkAll (cl_st k) = Done st' /\ pmm_inv true [] A' (st_pages st') /\ forall f, available A' f <-> available sample_blocks f.
Proof.
  destruct (slab_pmm_returns true sample_blocks sample_pmm sample_caches sample_full (sample_pmm_inv true) sample_placed) as (st & E & Hrun). exists st.
  destruct (Hrun (sample_behaves st E)) as (k & Ek & _ & _ & Hback). exists k.
  destruct (sample_full_state st k E Ek) as [Ha Hg].
  destruct (Hback (sample_empty k Hg Ha)) as (st' & A' & Es & _ & Hi & Hav). exists st', A'. split_and!; assumption.
Defined.
